(* ===== verification/_CoqProject ===== *)
-Q . S2P
Prelude.v
Net.v
Metadata.v
Codec.v
GoStrings.v
IPSet.v
RuleMatch.v
RuleSpec.v
RuleDefer.v
RuleItems.v
RuleOptions.v
RuleBuild.v
RuleBuilt.v
RuleStarted.v
Sample.v
RuleTheorems.v
DnsMode.v
DnsWalk.v
DnsScope.v
DnsSim.v
DnsBuild.v
DnsStarted.v
DnsLive.v
DnsRecords.v
DnsClient.v
DnsCache.v
DnsLegacy.v
DnsSample.v
DnsTheorems.v
DnsClientTheorems.v
Lifecycle.v
StartOrder.v
Managers.v
ManagersOk.v
Box.v
LifecycleTheorems.v
GoSlice.v
Ja3.v
Ja3Wire.v
RouteContext.v
Quic.v
QuicHello.v
Sniff.v
Route.v
RouteFrame.v
RouteConn.v
RouteOk.v
RouteJudge.v
RouteSample.v
RouteTheorems.v
Heap.v
ExpiringMap.v
ExpiringOk.v
ExpiringSpec.v
QuicCache.v
QuicTheorems.v
Provider.v
ProviderOrder.v
ProviderOk.v
Group.v
GroupOk.v
GroupMembers.v
LoadBalance.v
LoadBalanceOk.v
GroupTheorems.v
Reference.v
ReferenceOk.v
ReferenceTheorems.v
FakeIP.v
CacheFile.v
CacheFileOk.v
CacheFileRun.v
FakeIPOk.v
FakeIPRun.v
FakeIPTheorems.v
HeadlessFields.v
Srs.v
SrsRoundtrip.v
SrsEquiv.v
SrsTheorems.v
