(* ===== verification/Prelude.v ===== *)
(** * A model of sing-box

    sing-box is a proxy platform.  A connection or DNS query arrives with its metadata
    ([adapter.InboundContext]); route and DNS rules decide what happens to it; rules may
    refer to rule-sets, lists of headless rules that are loaded from JSON or from the
    binary format of [src/common/srs].  A DNS query is answered by the rules of the DNS
    router, which asks servers through the DNS client and its cache.  A connection goes
    through the route rules, which may read from it to find out what it is, to an
    outbound; groups of outbounds choose among their members, some of which come from
    providers that update their nodes.  Domains may be answered with fake addresses that
    lead back to them, which a cache file keeps.  All parts are components that the
    program starts in stages and closes through scopes; outbounds and endpoints are
    replaced while it runs.

    ** Parts and files

    - [Prelude] (this file): errors and results, integers at a width, generic lemmas,
      the tactics and hints of the development.
    - [Net], [Codec], [GoStrings]: what the code uses of the Go standard library
      (netip, encoding/binary, strings, strconv, net.ParseMAC, encoding/hex).
    - [Metadata]: [InboundContext] of [src/adapter/inbound.go], with the rule cache
      the engine writes and the addresses of a DNS response.
    - [IPSet]: [src/common/ipset/set.go] and its encoding, [src/common/srs/ip_set.go].
    - [RuleMatch]: the matching engine, [src/route/rule/match_state.go],
      [rule_abstract.go], [rule_item_rule_set.go] and the matching of [rule_dns.go].
      State passing: every method returns the metadata it leaves.
    - [RuleSpec]: the declarative reading [sat] of a rule and the refinement proof.
    - [RuleDefer]: matching a DNS rule before its response is known.
    - [RuleItems]: the items of [rule_item_*.go], one constructor of [Item] and one
      [New*], [*_Start] and [*_Match] definition per method.
    - [RuleOptions], [RuleBuild]: the options of [src/option] and the construction of
      rules ([rule_default.go], [rule_headless.go], [rule_dns.go],
      [rule_nested_action.go]), their [Start], and the loading of rule-sets
      ([rule_set.go], [rule_set_abstract.go]).
    - [RuleBuilt], [RuleStarted]: what construction and [Start] guarantee.
    - [HeadlessFields], [Srs]: the binary format, [src/common/srs/binary.go] and
      [ip_cidr.go]; [SrsRoundtrip] and [SrsEquiv] relate it to the source format.
    - [DnsMode], [DnsBuild]: the DNS router of [src/dns/router.go] up to its start: the
      legacy mode, the validation of response references, updates of rule-sets,
      [Initialize] and [Start] as changes of the state [DNSRouter].  [DnsMode] also has
      DNS rule actions ([rule_action.go]) and query options.
    - [DnsWalk]: the concurrent walk over the rules, [exchangeWithRules].  Exchanges run
      beside the walk: their callbacks store the result, close the future and send on the
      wake channel, and a schedule says how many of these steps each has made at a time.
      Every access to a future reads the clock at its own time, a rule takes four ticks,
      and the loop blocks on the wake channel until a send has come.  [DnsScope] has the
      walk with every exchange answered at once, [DnsSim] relates the two, [DnsLive]
      bounds the rounds, [DnsStarted] says what a started and updated router guarantees.
    - [DnsRecords], [DnsClient]: the DNS client, [src/dns/client.go] and
      [extension_edns0_subnet.go]: messages as values, the cache as a heap of shared
      messages behind the library's LRU map, and the lock of exchanges.  [DnsCache]
      holds the runs of the cache and the step relation of concurrent exchanges.
    - [DnsLegacy]: [matchDNS] and [exchangeLegacy] of the router, against the interface
      [CheckedClient] of a DNS client, and their reading [firstMatch];
      [DnsClientTheorems] discharges the interface for the client without its cache.
    - [Lifecycle]: scopes and lifecycle groups, [src/adapter/lifecycle.go] and
      [lifecycle_group.go]; a component is a function from a stage to what it adds to
      its scope and its result.
    - [StartOrder], [Managers]: [src/adapter/outbound/manager.go] and
      [src/adapter/endpoint/manager.go], both managers as one state; [ManagersOk] holds
      their step relation and invariant.
    - [Box]: [PreStart], [Start] and [Close] of [src/box.go].
    - [GoSlice]: byte slices with reads that panic out of range, and the logic [safe]
      of computations that do not.
    - [Ja3], [Ja3Wire]: the parser of TLS client hellos, [src/common/ja3/parser.go], and
      the hellos it reads, as their encoding.
    - [Quic], [QuicHello], [Sniff]: the sniffers of
      [src/common/sniff]; [quic.go] puts the parts of a client hello together.
    - [RouteContext], [Route], [RouteConn]: [src/route/route.go] with the
      route rule actions of [rule_action.go]: [match_rules] is [matchRule],
      [RouteConn] holds [routeConnection], [routePacketConnection] and [PreMatch], and the
      packet connection that translates fake addresses, [src/route/fakeip_conn.go].
      [RouteFrame], [RouteOk] and [RouteJudge] hold the proofs, [RouteSample] instances.
    - [Heap], [ExpiringMap]: Go's container/heap and [src/common/expiringmap/map.go]:
      entries in a store, the queue as a heap of indices, one definition per method.
      [ExpiringOk] keeps the invariant, [ExpiringSpec] relates it to a map of values with
      their times and holds the system of the map, its goroutine and the notifications
      under way as a step relation; an operation reads the clock before it takes the lock.
    - [QuicCache]: the cache of sniffed names of [src/route/router.go].
    - [Provider]: the nodes of a provider, [src/adapter/provider/update.go] and
      [adapter.go], over both managers; [ProviderOrder] is the order of the nodes,
      [ProviderOk] what an update and sequences of them do.
    - [Group], [LoadBalance]: [src/protocol/group]: the members from providers, the
      selector, the choice of the fastest member and the strategies of load balancing.
      [GroupOk], [GroupMembers] and [LoadBalanceOk] hold their lemmas.
    - [Reference]: [src/route/reference.go] and [reference_rule.go]: which outbounds and
      servers the rules can still reach, and which of them are told to drop idle
      connections; [ReferenceOk] relates it to matching and to reachability.
    - [FakeIP]: [src/dns/transport/fakeip] and [src/adapter/fakeip_metadata.go]: the store
      of fake addresses over the interface [FakeIPStorage], with the storage in memory.
    - [CacheFile]: [src/experimental/cachefile]: writes that are collected, written in one
      transaction and put back when it fails; reads look through what is collected, what
      is being written and the database.  A flush is two definitions, [Flush_begin] and
      [Flush_end], between which other operations may come; the cleanup of expired entries
      and the reset of a corrupted database are operations too.  [CacheFileOk] is about the
      views of the three layers, [CacheFileRun] about runs of operations.
    - [FakeIPOk]: the cycle of the addresses of a range, the encoding of the position, and
      what the store expects of a storage ([FakeIPStorageLaws], [DurableLaws]), which the
      storage in memory and the cache file keep; [FakeIPRun]: runs of requests, background
      work and restarts of the store, proved against these laws.
    - [Sample], [DnsSample]: concrete instances for the witnesses.
    - [RuleTheorems], [DnsTheorems], [DnsClientTheorems], [LifecycleTheorems],
      [RouteTheorems], [QuicTheorems] (with the expiring map), [GroupTheorems] (with the
      providers), [ReferenceTheorems], [FakeIPTheorems] (with the cache file),
      [SrsTheorems]: the properties.

    ** What the theorems show

    Matching refines the declarative reading of rules and writes nothing but its
    bookkeeping; pre-matching of DNS rules is sound where rules do not match responses and
    keep domains and address filters apart, and exact for rules without an address limit;
    construction rejects nested actions and races without a response, and the summary of a
    rule-set is exact.  The binary format reads back what was written and loads to the
    same rules as the source it was compiled from, up to the nesting the reader allows.
    Address sets decide membership exactly.

    The walk of a started DNS router returns, as no wake-up is lost, and gives the same
    answer under every schedule of its exchanges that keeps out of the window between
    settling and looking; response references resolve to earlier rules; accepted rule-set
    updates keep the mode of the router.  The rules of the legacy mode, without
    route-options rules and with the cache disabled, answer with the first rule that
    accepts the response of its own server, and always end.  The DNS cache serves
    responses within their time or the optimistic window, under the subnet they were asked
    with; one exchange runs per key; times to live, rotation and client subnets behave as
    documented.

    Outbounds start after their dependencies and the start always ends; the managers
    stay consistent whatever comes, goes and fails, and a replacement is all or nothing;
    what components add to scopes and groups is cleaned up exactly once and in reverse
    order, also when the program fails to start; every component goes through its
    stages in order.

    A connection is routed by the first rule whose meaning holds, with the effects of the
    rules before it; pre-matching selects the same rule as routing for rules that do not ask
    whether there is a connection; what was read to sniff is delivered, of a stream with one
    sniff rule and of packets always; replies through translated addresses find back.
    A client hello in the packets of a QUIC connection is found whatever the order of its
    parts, and no input makes the parser panic.  An expiring map is a map of values with
    their times, and its goroutine collects what expires, up to the time operations wait for
    the lock; names of QUIC connections are
    remembered.

    A provider orders its nodes when they can be ordered, decides each node on its own,
    and leaves nothing behind when it is closed.  Groups select among the members they
    have, and their members are those that their providers offer; the fastest member is
    chosen within the tolerance; round robin is fair, consistent hashing moves few keys,
    sessions stick while the members stay the same, and a group is alive when a leaf is.
    Outbounds that a connection is routed to are not told to drop idle connections, if the
    groups name what they select; what is told is what changed, and
    the references found are exactly those that can be reached.

    A fake address leads back to its domain until its range was used up, and is not given
    to another domain after any number of crashes as long as the range is large enough for
    what is reserved ahead and the position is saved.  The cache file shows fake
    addresses as memory does while flushes come and go, finds saved responses until they
    are cleaned up whatever fails, and has a timer or a loop that is awake while there is
    something to write.  Some theorems and examples record where the code falls short.

    ** Bounds and fuel

    [readDefaultRule] runs with one unit of fuel per input byte, since every round
    reads one; [readRule] with 102, two more than the nesting the reader accepts;
    a binary search with the length of the list.  The walk of the DNS rules needs three
    rounds more than the time at which the last callback ends, and [exchangeLegacy] one
    round more than there are rules; both are theorems.  Starting outbounds takes at
    most one round more than there are outbounds, and the search for a cycle as many
    steps as there are, again as a theorem.

    Loops over bytes (extensions of a hello, frames and ranges of a QUIC packet, UTP
    extensions) run with one unit of fuel more than there are bytes, since every round
    consumes one; joining fragments with one more than there are parts; following groups
    with one more than there are outbounds; pre-matching into nested groups with the depth
    the code allows.  Moving up in a heap takes at most as many rounds as the index, moving
    down as many as there are elements, and collecting expired values as many as are queued.
    Finding a free tag takes at most one try more than tags are taken, visiting the nodes of
    a provider a depth of one more than there are nodes, [jumpHash] one round more than
    there are buckets, and the search for a living leaf a depth of one more than there are
    tags.  [RealTag] takes the nesting of groups as an argument.  The queues of references
    are worked off with one unit of fuel for every tag that may be put in them; that this is
    enough is a theorem.  The store of fake addresses has no fuel: 1024 addresses are
    reserved by a loop of that length.

    ** Parameters

    Code outside the repository is a field of the classes [Env], [SrsLibrary],
    [GoUnicode], [BuildContext] and [LRU], or an argument; what is assumed of it are the
    classes [SrsLaws] and [LRULaws] or a hypothesis of the theorem.  Routing has the
    classes [SniffLibrary], [RouteLibrary], [OutboundInterfaces], [InboundInterfaces],
    [RouteDNS], [Searchers], [QUICSniffCache] and [CachedConns] with [SniffLaws] and
    [CachedConnLaws]; QUIC has [QUICCrypto] with [QUICCryptoLaws].  Providers take the
    registry that creates nodes as an argument; groups have [GroupInterfaces],
    [SelectedStore], [HashLibrary] and [StickyCache] with [StickyLaws].  References have
    [ReferenceInterfaces] and [Surroundings].  The cache file has the database [Bolt] with
    [BoltLaws], the order in which Go reads a map ([MapOrder]) and sing's [AddrFromIP] with
    [AddrFromIPLaws]; whether a transaction is committed is given by a [WriteOutcome].

    ** Not modelled

    Textual descriptions of rules, JSON decoding of options, file watching and downloads
    of rule-sets and subscriptions, the memory-mapped variant of the binary format, the
    opening of the cache file and what it keeps of modes, selections and downloads, the
    callbacks that lead to an update of references, the binding of the DNS client to the
    cache file, cancellation of contexts while something runs, the construction of the
    program from its options; of sniffing the TLS and HTTP readers of other libraries, the
    cryptographic primitives of QUIC and the JA3 string; of routing the trackers, the
    handlers of outbounds and the hijacking of DNS; of providers and groups the tests over
    connections, tickers, dialing and the interruption of connections; and the parts that
    are socket or operating system I/O (protocols, transports, TLS, dialers, services,
    platform clients). *)

From stdpp Require Import base gmap strings list fin_maps.
From Stdlib Require Import ZArith Lia.

(** ** Results of fallible Go code

    A Go function returning [(T, error)] is a function into [result T].  Error
    values keep the structure the source builds with [E.New], [E.Cause] and
    [E.Extend]; the rendering of an error as text is the business of the
    exceptions package and is not modelled.  [EPanic] is a call of [panic]. *)

Inductive error : Type :=
| ENew (message : string)
| ECause (cause : error) (message : string)
| EExtend (cause : error) (message : string)
| ECauseError (cause context : error)
| EPanic (message : string).

#[export] Instance error_eq_dec : EqDecision error.
Proof. solve_decision. Defined.

Inductive result (A : Type) : Type :=
| Ok (a : A)
| Err (e : error).
Arguments Ok {A} a.
Arguments Err {A} e.

Definition result_bind {A B : Type} (c : result A) (k : A -> result B) : result B :=
  match c with
  | Ok a => k a
  | Err e => Err e
  end.

Definition result_map_err {A : Type} (f : error -> error) (c : result A) : result A :=
  match c with
  | Ok a => Ok a
  | Err e => Err (f e)
  end.

Definition is_ok {A : Type} (c : result A) : bool :=
  match c with Ok _ => true | Err _ => false end.

Declare Scope go_scope.
Delimit Scope go_scope with go.

Notation "'try' x <- c ; k" := (result_bind c (fun x => k))
  (at level 10, x pattern, c at level 100, k at level 200) : go_scope.
Notation "'guard' b 'else_err' e ; k" := (if b then k else Err e)
  (at level 10, b at level 100, e at level 100, k at level 200) : go_scope.

Open Scope go_scope.

(** [os.ErrInvalid] and [io.EOF]/[io.ErrUnexpectedEOF], the sentinel errors of
    the standard library that the modelled code returns. *)
Definition ErrInvalid : error := ENew "invalid argument".
Definition ErrUnexpectedEOF : error := ENew "unexpected EOF".
Definition EOF : error := ENew "EOF".

(** The monadic sequencing of a loop that stops at the first error. *)
Fixpoint result_mapM {A B : Type} (f : A -> result B) (l : list A) : result (list B) :=
  match l with
  | [] => Ok []
  | x :: l' => try y <- f x; try ys <- result_mapM f l'; Ok (y :: ys)
  end.

(** The same loop with the index of the element. *)
Fixpoint result_mapiM {A B : Type} (f : Z -> A -> result B) (i : Z) (l : list A) : result (list B) :=
  match l with
  | [] => Ok []
  | x :: l' => try y <- f i x; try ys <- result_mapiM f (i + 1)%Z l'; Ok (y :: ys)
  end.

(** ** Machine integers

    A [w]-bit unsigned integer is a [Z]; arithmetic that may wrap is written
    with [wrap]. *)

Definition wrap (w : Z) (x : Z) : Z := x `mod` 2 ^ w.

Definition in_width (w : Z) (x : Z) : Prop := (0 <= x < 2 ^ w)%Z.

(** Go's [a &^ b]. *)
Definition and_not (a b : Z) : Z := Z.ldiff a b.

(** ** Go maps used as sets: [m := make(map[K]bool); for _, k := range l { m[k] = true }] *)

Definition set_of_list {K : Type} `{Countable K} (l : list K) : gmap K bool :=
  foldl (fun m k => <[k := true]> m) ∅ l.

(** Reading a missing key of a [map[K]bool] yields [false]. *)
Definition in_map {K : Type} `{Countable K} (m : gmap K bool) (k : K) : bool :=
  default false (m !! k).

(** ** Comparisons with a zero value *)

Definition isnil {A : Type} (l : list A) : bool := match l with [] => true | _ => false end.
Definition nonnil {A : Type} (l : list A) : bool := negb (isnil l).
Definition isnone {A : Type} (o : option A) : bool := match o with None => true | _ => false end.
Definition nonnone {A : Type} (o : option A) : bool := negb (isnone o).
Definition empty_string (s : string) : bool := bool_decide (s = ""%string).

(** ** Automation *)

Create HintDb singbox.
Create Rewrite HintDb singbox_rw.

Ltac simpl_result :=
  repeat match goal with
  | H : Ok _ = Ok _ |- _ => injection H as H; subst
  | H : Err _ = Err _ |- _ => injection H as H; subst
  | H : Ok _ = Err _ |- _ => discriminate H
  | H : Err _ = Ok _ |- _ => discriminate H
  | H : result_bind ?c _ = Ok _ |- _ => destruct c eqn:?; cbn [result_bind] in H; [|discriminate H]
  | H : context [result_bind (Ok _) _] |- _ => cbn [result_bind] in H
  | |- context [result_bind (Ok _) _] => cbn [result_bind]
  | |- context [result_bind (Err _) _] => cbn [result_bind]
  end.

(** Case analysis on every [if] and [match] scrutinee of the goal. *)
Ltac case_all :=
  repeat (case_match; simplify_eq/=; try done).

(** ** Lemmas shared by the components *)

Section maps.
Context {K : Type} `{Countable K}.

Lemma in_map_insert (m : gmap K bool) (k j : K) (b : bool) :
  in_map (<[k := b]> m) j = if bool_decide (j = k) then b else in_map m j.
Proof.
  unfold in_map. destruct (bool_decide_reflect (j = k)) as [->|Hne].
  - by rewrite lookup_insert_eq.
  - by rewrite lookup_insert_ne.
Qed.

Lemma in_map_foldl (l : list K) (m : gmap K bool) (k : K) :
  in_map (foldl (fun m k => <[k := true]> m) m l) k = bool_decide (k ∈ l) || in_map m k.
Proof.
  revert m. induction l as [|x l IH]; intros m; cbn [foldl].
  - rewrite bool_decide_eq_false_2; [done|set_solver].
  - rewrite IH, in_map_insert.
    destruct (bool_decide_reflect (k ∈ l)) as [Hl|Hl]; cbn.
    + rewrite bool_decide_eq_true_2; [done|set_solver].
    + destruct (bool_decide_reflect (k = x)) as [->|Hne].
      * rewrite bool_decide_eq_true_2; [done|set_solver].
      * rewrite bool_decide_eq_false_2; [done|set_solver].
Qed.

(** The set-building loop makes exactly the listed keys present. *)
Lemma in_map_set_of_list (l : list K) (k : K) :
  in_map (set_of_list l) k = bool_decide (k ∈ l).
Proof.
  unfold set_of_list. rewrite in_map_foldl. unfold in_map.
  rewrite lookup_empty. cbn. by rewrite orb_false_r.
Qed.

End maps.

Lemma wrap_bounds (w x : Z) : (0 <= w)%Z -> in_width w (wrap w x).
Proof. intros Hw. apply Z.mod_pos_bound. apply Z.pow_pos_nonneg; lia. Qed.

Lemma wrap_small (w x : Z) : in_width w x -> wrap w x = x.
Proof. apply Z.mod_small. Qed.

#[export] Hint Resolve wrap_bounds wrap_small : singbox.
#[export] Hint Rewrite @in_map_set_of_list using (typeclasses eauto) : singbox_rw.

Lemma result_mapM_ok_length {A B : Type} (f : A -> result B) (l : list A) (r : list B) :
  result_mapM f l = Ok r -> length r = length l.
Proof.
  revert r. induction l as [|x l IH]; intros r Hr; cbn in Hr; simpl_result; [done|].
  cbn. f_equal. by apply IH.
Qed.

(** [existsb] over a list agrees with the propositional reading of a membership
    loop. *)
Lemma existsb_ext_in {A : Type} (f g : A -> bool) (l : list A) :
  (forall x, x ∈ l -> f x = g x) -> existsb f l = existsb g l.
Proof.
  induction l as [|x l IH]; intros Hfg; [done|]. cbn.
  rewrite Hfg by set_solver. rewrite IH; [done|]. intros y Hy. apply Hfg. set_solver.
Qed.

Lemma forallb_ext_in {A : Type} (f g : A -> bool) (l : list A) :
  (forall x, x ∈ l -> f x = g x) -> forallb f l = forallb g l.
Proof.
  induction l as [|x l IH]; intros Hfg; [done|]. cbn.
  rewrite Hfg by set_solver. rewrite IH; [done|]. intros y Hy. apply Hfg. set_solver.
Qed.

Lemma result_mapM_Forall2 {A B : Type} (f : A -> result B) (l : list A) (r : list B) :
  result_mapM f l = Ok r <-> Forall2 (fun x y => f x = Ok y) l r.
Proof.
  revert r. induction l as [|x l IH]; intros r; cbn.
  - split; [by intros [= <-]|intros Hr; by inversion Hr].
  - split.
    + intros Hr. simpl_result. constructor; [done|]. by apply IH.
    + intros Hr. inversion Hr as [|? y ? ys Hy Hys]; subst. rewrite Hy. cbn. apply IH in Hys. by rewrite Hys.
Qed.

Lemma result_mapiM_Forall2 {A B : Type} (f : Z -> A -> result B) (l : list A) (i : Z) (r : list B) :
  result_mapiM f i l = Ok r -> Forall2 (fun x y => exists j, f j x = Ok y) l r.
Proof.
  revert i r. induction l as [|x l IH]; intros i r Hr; cbn in Hr; simpl_result; constructor; eauto.
Qed.

Lemma result_mapiM_ext {A B : Type} (f g : Z -> A -> result B) i l :
  Forall (fun x => forall j, f j x = g j x) l -> result_mapiM f i l = result_mapiM g i l.
Proof. intros Hl. revert i. induction Hl as [|x l Hx _ IH]; intros i; cbn; [done|]. by rewrite Hx, IH. Qed.

(** A property of the arguments becomes one of the results. *)
Lemma Forall_Forall2_transfer {A B : Type} (P : A -> Prop) (Q : B -> Prop) (R : A -> B -> Prop) l r :
  Forall2 R l r -> Forall P l -> (forall x y, P x -> R x y -> Q y) -> Forall Q r.
Proof.
  intros HR HP HPQ. induction HR as [|x y l r Hxy _ IH]; [done|].
  apply Forall_cons in HP as [Hx HP]. constructor; eauto.
Qed.
