(* ===== verification/Net.v ===== *)
(** * Network values: [net/netip] addresses and prefixes, socket addresses

    The parts of Go's [net/netip] the modelled code uses, with addresses as
    integers of their width, and the [Socksaddr] structure that carries an
    address or a domain name with a port. *)

From stdpp Require Import base gmap strings list.
From Stdlib Require Import ZArith Lia.
From S2P Require Import Prelude.

Open Scope Z_scope.

(** ** netip.Addr

    The zero [Addr] is invalid; an IPv6 address may carry a zone. *)
Inductive Addr : Type :=
| AddrInvalid
| Addr4 (value : Z)
| Addr6 (value : Z) (zone : string).

#[export] Instance Addr_eq_dec : EqDecision Addr.
Proof. solve_decision. Defined.

#[export] Instance Addr_countable : Countable Addr.
Proof.
  refine (inj_countable'
    (fun a => match a with
              | AddrInvalid => inl tt
              | Addr4 v => inr (inl v)
              | Addr6 v z => inr (inr (v, z))
              end)
    (fun x => match x with
              | inl tt => AddrInvalid
              | inr (inl v) => Addr4 v
              | inr (inr (v, z)) => Addr6 v z
              end) _).
  by intros [].
Defined.

Definition addr_IsValid (a : Addr) : bool :=
  match a with AddrInvalid => false | _ => true end.

Definition addr_Is4 (a : Addr) : bool :=
  match a with Addr4 _ => true | _ => false end.

Definition addr_Is6 (a : Addr) : bool :=
  match a with Addr6 _ _ => true | _ => false end.

Definition addr_BitLen (a : Addr) : Z :=
  match a with AddrInvalid => 0 | Addr4 _ => 32 | Addr6 _ _ => 128 end.

(** The numeric value; the zero [Addr] is all zeroes. *)
Definition addr_value (a : Addr) : Z :=
  match a with AddrInvalid => 0 | Addr4 v => v | Addr6 v _ => v end.

(** [As16]: an IPv4 address is returned in its IPv4-mapped form. *)
Definition v4_mapped_base : Z := 65535 * 2 ^ 32.

Definition addr_As16 (a : Addr) : Z :=
  match a with AddrInvalid => 0 | Addr4 v => v4_mapped_base + v | Addr6 v _ => v end.

(** [Next]: the following address, or the zero [Addr] past the last one. *)
Definition addr_Next (a : Addr) : Addr :=
  match a with
  | AddrInvalid => AddrInvalid
  | Addr4 v => if v + 1 =? 2 ^ 32 then AddrInvalid else Addr4 (v + 1)
  | Addr6 v z => if v + 1 =? 2 ^ 128 then AddrInvalid else Addr6 (v + 1) z
  end.

(** [Unmap]: strips the IPv4-mapped prefix. *)
Definition addr_Unmap (a : Addr) : Addr :=
  match a with
  | Addr6 v z => if Z.shiftr v 32 =? 65535 then Addr4 (v `mod` 2 ^ 32) else a
  | _ => a
  end.

(** [WithZone]: for an IPv4 or invalid address a no-op. *)
Definition addr_WithZone (a : Addr) (z : string) : Addr :=
  match a with Addr6 v _ => Addr6 v z | _ => a end.

Definition addr_hasZone (a : Addr) : bool :=
  match a with Addr6 _ z => negb (bool_decide (z = ""%string)) | _ => false end.

(** ** netip.Prefix *)

(** [prefix_bits] is -1 for an invalid prefix. *)
Record Prefix : Type := mkPrefix {
  prefix_addr : Addr;
  prefix_bits : Z
}.

#[export] Instance Prefix_eq_dec : EqDecision Prefix.
Proof. solve_decision. Defined.

(** The zero value [netip.Prefix{}]. *)
Definition zero_prefix : Prefix := mkPrefix AddrInvalid (-1).

(** [PrefixFrom]: drops the zone, records -1 when [bits] is out of range. *)
Definition PrefixFrom (a : Addr) (bits : Z) : Prefix :=
  let a' := addr_WithZone a "" in
  if (bits <? 0) || (addr_BitLen a <? bits) || negb (addr_IsValid a)
  then mkPrefix a' (-1)
  else mkPrefix a' bits.

Definition prefix_IsValid (p : Prefix) : bool := 0 <=? prefix_bits p.

(** [Contains]: families must agree and the leading bits coincide. *)
Definition prefix_Contains (p : Prefix) (a : Addr) : bool :=
  if negb (prefix_IsValid p) || addr_hasZone a then false
  else
    let f1 := addr_BitLen (prefix_addr p) in
    let f2 := addr_BitLen a in
    if (f1 =? 0) || (f2 =? 0) || negb (f1 =? f2) then false
    else Z.shiftr (addr_value a) (f1 - prefix_bits p)
         =? Z.shiftr (addr_value (prefix_addr p)) (f1 - prefix_bits p).

(** [Overlaps]: the shorter prefix contains the longer one. *)
Definition prefix_Overlaps (p o : Prefix) : bool :=
  if negb (prefix_IsValid p) || negb (prefix_IsValid o) then false
  else if bool_decide (p = o) then true
  else if negb (eqb (addr_Is4 (prefix_addr p)) (addr_Is4 (prefix_addr o))) then false
  else
    let min_bits := Z.min (prefix_bits p) (prefix_bits o) in
    if min_bits =? 0 then true
    else
      let w := addr_BitLen (prefix_addr p) in
      Z.shiftr (addr_value (prefix_addr p)) (w - min_bits)
      =? Z.shiftr (addr_value (prefix_addr o)) (w - min_bits).

(** ** M.Socksaddr *)

Record Socksaddr : Type := mkSocksaddr {
  sa_Addr : Addr;
  sa_Port : Z;
  sa_Fqdn : string
}.

(** An address value is well formed when its integer has the width of its
    family. *)
Definition addr_wf (a : Addr) : Prop :=
  match a with
  | AddrInvalid => True
  | Addr4 v => in_width 32 v
  | Addr6 v _ => in_width 128 v
  end.

Lemma addr_Next_wf (a : Addr) : addr_wf a -> addr_wf (addr_Next a).
Proof.
  unfold addr_wf, addr_Next, in_width. destruct a as [|v|v z]; [done| |].
  - destruct (v + 1 =? 2 ^ 32) eqn:Hb; [done|]. apply Z.eqb_neq in Hb. lia.
  - destruct (v + 1 =? 2 ^ 128) eqn:Hb; [done|]. apply Z.eqb_neq in Hb. lia.
Qed.

Lemma prefix_Contains_family (p : Prefix) (a : Addr) :
  prefix_Contains p a = true ->
  addr_BitLen a = addr_BitLen (prefix_addr p) /\ addr_IsValid a = true.
Proof.
  unfold prefix_Contains. intros Hc.
  destruct (negb (prefix_IsValid p) || addr_hasZone a) eqn:?; [done|].
  destruct ((addr_BitLen (prefix_addr p) =? 0) || (addr_BitLen a =? 0) ||
            negb (addr_BitLen (prefix_addr p) =? addr_BitLen a)) eqn:Hf; [done|].
  apply orb_false_iff in Hf as [Hf Hne]. apply orb_false_iff in Hf as [_ Hz].
  apply negb_false_iff, Z.eqb_eq in Hne. split; [done|].
  by destruct a.
Qed.
