(* ===== verification/Metadata.v ===== *)
(** * Connection metadata: [adapter.InboundContext] and DNS messages

    The metadata record every rule is matched against
    ([src/adapter/inbound.go]), the resource records of the DNS library it
    refers to, and the extraction of the addresses of a response. *)

From stdpp Require Import base gmap strings list.
From Stdlib Require Import ZArith Lia.
From S2P Require Import Prelude Net.

Open Scope Z_scope.

(** ** DNS messages (github.com/miekg/dns)

    The structures of the library that the modelled code takes apart.  Record
    types it never inspects are [RR_Other] with their type in the header. *)

Record RR_Header : Type := mkRRHeader {
  hdr_Name : string;
  hdr_Rrtype : Z;
  hdr_Class : Z;
  hdr_Ttl : Z
}.

#[export] Instance RR_Header_eq_dec : EqDecision RR_Header.
Proof. solve_decision. Defined.

(** SVCB parameters of an HTTPS record. *)
Inductive SVCBKeyValue : Type :=
| SVCBIPv4Hint (hint : list (list Z))
| SVCBIPv6Hint (hint : list (list Z))
| SVCBOther (key : Z).

#[export] Instance SVCBKeyValue_eq_dec : EqDecision SVCBKeyValue.
Proof. solve_decision. Defined.

(** EDNS0 options; an option that is not a client subnet keeps its code. *)
Inductive EDNS0 : Type :=
| EDNS0_SUBNET (code family netmask : Z) (address : list Z)
| EDNS0_Other (code : Z).

#[export] Instance EDNS0_eq_dec : EqDecision EDNS0.
Proof. solve_decision. Defined.

Inductive RRData : Type :=
| RR_A (ip : list Z)
| RR_AAAA (ip : list Z)
| RR_HTTPS (value : list SVCBKeyValue)
| RR_SOA (minttl : Z)
| RR_OPT (option : list EDNS0)
| RR_CNAME (target : string)
| RR_TXT (txt : list string)
| RR_MX (preference : Z) (mx : string)
| RR_Other (rdata : list Z).

#[export] Instance RRData_eq_dec : EqDecision RRData.
Proof. solve_decision. Defined.

Record RR : Type := mkRR {
  rr_Hdr : RR_Header;
  rr_Data : RRData
}.

#[export] Instance RR_eq_dec : EqDecision RR.
Proof. solve_decision. Defined.

Record Question : Type := mkQuestion {
  q_Name : string;
  q_Qtype : Z;
  q_Qclass : Z
}.

#[export] Instance Question_eq_dec : EqDecision Question.
Proof. solve_decision. Defined.

Record Msg : Type := mkMsg {
  msg_Id : Z;
  msg_Response : bool;
  msg_Authoritative : bool;
  msg_RecursionDesired : bool;
  msg_RecursionAvailable : bool;
  msg_Rcode : Z;
  msg_Question : list Question;
  msg_Answer : list RR;
  msg_Ns : list RR;
  msg_Extra : list RR
}.

#[export] Instance Msg_eq_dec : EqDecision Msg.
Proof. solve_decision. Defined.

Definition RcodeSuccess : Z := 0.
Definition RcodeFormatError : Z := 1.
Definition RcodeNameError : Z := 3.
Definition TypeA : Z := 1.
Definition TypeCNAME : Z := 5.
Definition TypeSOA : Z := 6.
Definition TypeMX : Z := 15.
Definition TypeTXT : Z := 16.
Definition TypeAAAA : Z := 28.
Definition TypeOPT : Z := 41.
Definition TypeHTTPS : Z := 65.
Definition ClassINET : Z := 1.

(** ** adapter.ConnectionOwner *)

Record ConnectionOwner : Type := mkConnectionOwner {
  ProcessID : Z;
  UserId : Z;
  UserName : string;
  ProcessPaths : list string;
  PackageNames : list string
}.

(** ** adapter.InboundContext *)

(** The fields under the comment "rule cache", which rule evaluation reads and
    writes. *)
Record RuleCache : Type := mkRuleCache {
  rc_IPCIDRMatchSource : bool;
  rc_IPCIDRAcceptEmpty : bool;
  rc_SourceAddressMatch : bool;
  rc_SourcePortMatch : bool;
  rc_DestinationAddressMatch : bool;
  rc_DestinationPortMatch : bool;
  rc_DeferredIPCIDRMatchGroups : Z;
  rc_IgnoreDestinationIPCIDRMatch : bool
}.

#[export] Instance RuleCache_eq_dec : EqDecision RuleCache.
Proof. solve_decision. Defined.

(** The fields of the context that rules only read. *)
Record ConnFields : Type := mkConnFields {
  cf_Inbound : string;
  cf_IPVersion : Z;
  cf_Network : string;
  cf_Source : Socksaddr;
  cf_Destination : Socksaddr;
  cf_User : string;
  cf_Outbound : string;
  cf_Protocol : string;
  cf_SniffHost : string;
  cf_Client : string;
  cf_CacheIPs : list Addr;
  cf_Domain : string;
  cf_DestinationAddresses : list Addr;
  cf_ProcessInfo : option ConnectionOwner;
  cf_ProcessInfoResolver : option (option ConnectionOwner);
  cf_SourceMACAddress : option (list Z);
  cf_SourceHostname : string;
  cf_QueryType : Z;
  cf_QueryClientSubnet : Prefix;
  cf_QueryDNSSEC : bool;
  cf_PreMatch : bool
}.

Record InboundContext : Type := mkInboundContext {
  ic_conn : ConnFields;
  ic_DNSResponse : option Msg;
  ic_NamedDNSResponses : gmap string Msg;
  ic_DestinationAddressMatchFromResponse : bool;
  ic_cache : RuleCache
}.

Definition IPCIDRMatchSource (m : InboundContext) : bool := rc_IPCIDRMatchSource (ic_cache m).
Definition IPCIDRAcceptEmpty (m : InboundContext) : bool := rc_IPCIDRAcceptEmpty (ic_cache m).
Definition DeferredIPCIDRMatchGroups (m : InboundContext) : Z :=
  rc_DeferredIPCIDRMatchGroups (ic_cache m).
Definition IgnoreDestinationIPCIDRMatch (m : InboundContext) : bool :=
  rc_IgnoreDestinationIPCIDRMatch (ic_cache m).

Definition with_cache (m : InboundContext) (c : RuleCache) : InboundContext :=
  mkInboundContext (ic_conn m) (ic_DNSResponse m) (ic_NamedDNSResponses m)
    (ic_DestinationAddressMatchFromResponse m) c.

Definition set_IPCIDRMatchSource (m : InboundContext) (b : bool) : InboundContext :=
  let c := ic_cache m in
  with_cache m (mkRuleCache b (rc_IPCIDRAcceptEmpty c) (rc_SourceAddressMatch c)
    (rc_SourcePortMatch c) (rc_DestinationAddressMatch c) (rc_DestinationPortMatch c)
    (rc_DeferredIPCIDRMatchGroups c) (rc_IgnoreDestinationIPCIDRMatch c)).

Definition set_IPCIDRAcceptEmpty (m : InboundContext) (b : bool) : InboundContext :=
  let c := ic_cache m in
  with_cache m (mkRuleCache (rc_IPCIDRMatchSource c) b (rc_SourceAddressMatch c)
    (rc_SourcePortMatch c) (rc_DestinationAddressMatch c) (rc_DestinationPortMatch c)
    (rc_DeferredIPCIDRMatchGroups c) (rc_IgnoreDestinationIPCIDRMatch c)).

Definition set_DeferredIPCIDRMatchGroups (m : InboundContext) (d : Z) : InboundContext :=
  let c := ic_cache m in
  with_cache m (mkRuleCache (rc_IPCIDRMatchSource c) (rc_IPCIDRAcceptEmpty c)
    (rc_SourceAddressMatch c) (rc_SourcePortMatch c) (rc_DestinationAddressMatch c)
    (rc_DestinationPortMatch c) d (rc_IgnoreDestinationIPCIDRMatch c)).

Definition set_IgnoreDestinationIPCIDRMatch (m : InboundContext) (b : bool) : InboundContext :=
  let c := ic_cache m in
  with_cache m (mkRuleCache (rc_IPCIDRMatchSource c) (rc_IPCIDRAcceptEmpty c)
    (rc_SourceAddressMatch c) (rc_SourcePortMatch c) (rc_DestinationAddressMatch c)
    (rc_DestinationPortMatch c) (rc_DeferredIPCIDRMatchGroups c) b).

Definition set_response (m : InboundContext) (response : option Msg) (from : bool) : InboundContext :=
  mkInboundContext (ic_conn m) response (ic_NamedDNSResponses m) from (ic_cache m).

Definition ResetRuleMatchCache (m : InboundContext) : InboundContext :=
  let c := ic_cache m in
  with_cache m (mkRuleCache (rc_IPCIDRMatchSource c) (rc_IPCIDRAcceptEmpty c)
    false false false false 0 (rc_IgnoreDestinationIPCIDRMatch c)).

Definition ResetRuleCache (m : InboundContext) : InboundContext :=
  ResetRuleMatchCache (set_IPCIDRAcceptEmpty (set_IPCIDRMatchSource m false) false).

(** [ResolveProcessInfo]: the resolver, when present, overrides the owner. *)
Definition ResolveProcessInfo (m : InboundContext) : option ConnectionOwner :=
  match cf_ProcessInfoResolver (ic_conn m) with
  | Some resolved => resolved
  | None => cf_ProcessInfo (ic_conn m)
  end.

(** ** Addresses of a DNS response *)

Section addresses.
(** [M.AddrFromIP], from the sing library. *)
Variable AddrFromIP : list Z -> Addr.

Definition valid_addr_list (a : Addr) : list Addr :=
  if addr_IsValid a then [a] else [].

Definition svcb_addresses (value : SVCBKeyValue) : list Addr :=
  match value with
  | SVCBIPv4Hint hint => flat_map (fun ip => valid_addr_list (addr_Unmap (AddrFromIP ip))) hint
  | SVCBIPv6Hint hint => flat_map (fun ip => valid_addr_list (AddrFromIP ip)) hint
  | SVCBOther _ => []
  end.

Definition rr_addresses (record : RR) : list Addr :=
  match rr_Data record with
  | RR_A ip => valid_addr_list (AddrFromIP ip)
  | RR_AAAA ip => valid_addr_list (AddrFromIP ip)
  | RR_HTTPS value => flat_map svcb_addresses value
  | _ => []
  end.

Definition DNSResponseAddresses (response : option Msg) : list Addr :=
  match response with
  | None => []
  | Some msg => if msg_Rcode msg =? RcodeSuccess then flat_map rr_addresses (msg_Answer msg) else []
  end.

Definition DNSResponseAddressesForMatch (m : InboundContext) : list Addr :=
  DNSResponseAddresses (ic_DNSResponse m).

End addresses.

(** Every address the response exposes for matching is valid. *)
Lemma DNSResponseAddresses_valid AddrFromIP response a :
  a ∈ DNSResponseAddresses AddrFromIP response -> addr_IsValid a = true.
Proof.
  assert (Hv : forall b, a ∈ valid_addr_list b -> addr_IsValid a = true).
  { intros b. unfold valid_addr_list. case_match; set_solver. }
  destruct response as [msg|]; cbn; [|set_solver].
  case_match; [|set_solver]. rewrite list_elem_of_In, in_flat_map.
  intros (record & _ & Ha). unfold rr_addresses in Ha.
  destruct (rr_Data record) as [ip|ip|value| | | | | |]; cbn in Ha; try done;
    try (apply list_elem_of_In in Ha; eauto; fail).
  apply in_flat_map in Ha as (kv & _ & Ha).
  destruct kv as [hint|hint|]; cbn in Ha; [| |done];
    apply in_flat_map in Ha as (ip & _ & Ha); apply list_elem_of_In in Ha; eauto.
Qed.

Lemma with_cache_id (m : InboundContext) : with_cache m (ic_cache m) = m.
Proof. by destruct m. Qed.

Lemma with_cache_cache (m : InboundContext) (c : RuleCache) : ic_cache (with_cache m c) = c.
Proof. done. Qed.

Lemma with_cache_with_cache (m : InboundContext) (c1 c2 : RuleCache) :
  with_cache (with_cache m c1) c2 = with_cache m c2.
Proof. done. Qed.

#[export] Hint Rewrite with_cache_id with_cache_cache with_cache_with_cache : singbox_rw.
