(* ===== verification/Codec.v ===== *)
(** * Byte streams

    The readers and writers of Go's [io] and [encoding/binary] that the binary
    formats of sing-box are written with: single bytes, big-endian integers,
    [ReadFull], unsigned varints and byte strings.  A byte is a [Z] below 256, a
    reader takes the unread input and returns what it leaves. *)

From stdpp Require Import base strings list sets.
From Stdlib Require Import ZArith Lia Ascii.
From S2P Require Import Prelude.

Open Scope Z_scope.

Definition Reader (A : Type) : Type := list Z -> result (A * list Z).

Definition is_byte (b : Z) : Prop := 0 <= b < 256.

(** [io.ByteReader.ReadByte]. *)
Definition ReadByte : Reader Z := fun l =>
  match l with
  | [] => Err EOF
  | b :: l' => Ok (b, l')
  end.

(** [io.ReadFull] of [n] bytes. *)
Definition ReadFull (n : nat) : Reader (list Z) := fun l =>
  if (n <=? length l)%nat then Ok (take n l, drop n l)
  else match l with [] => Err EOF | _ => Err ErrUnexpectedEOF end.

(** Big-endian integers. *)
Definition be_value (l : list Z) : Z := foldl (fun acc b => acc * 256 + b) 0 l.

Fixpoint be_bytes (n : nat) (v : Z) : list Z :=
  match n with
  | O => []
  | S n' => (v / 256 ^ Z.of_nat n') `mod` 256 :: be_bytes n' v
  end.

(** [binary.Read(reader, binary.BigEndian, &x)] for an [n]-byte unsigned [x]. *)
Definition ReadBE (n : nat) : Reader Z := fun l =>
  try p <- ReadFull n l; Ok (be_value p.1, p.2).

(** [binary.Read] into a [bool]: any byte but zero is true. *)
Definition ReadBool : Reader bool := fun l =>
  try p <- ReadFull 1 l; Ok (negb (be_value p.1 =? 0), p.2).

Definition WriteBool (b : bool) : list Z := [if b then 1 else 0].

Definition errOverflow : error := ENew "binary: varint overflows a 64-bit integer".

Definition MaxVarintLen64 : nat := 10.

(** [binary.ReadUvarint]; [k] is the number of bytes the loop may still read. *)
Fixpoint ReadUvarint_loop (k : nat) (x s : Z) (l : list Z) : result (Z * list Z) :=
  match k with
  | O => Err errOverflow
  | S k' =>
      match l with
      | [] => Err (if (k =? MaxVarintLen64)%nat then EOF else ErrUnexpectedEOF)
      | b :: l' =>
          if b <? 128 then
            if (k =? 1)%nat && (1 <? b) then Err errOverflow
            else Ok (Z.lor x (wrap 64 (Z.shiftl b s)), l')
          else ReadUvarint_loop k' (Z.lor x (wrap 64 (Z.shiftl (Z.land b 127) s))) (s + 7) l'
      end
  end.

Definition ReadUvarint : Reader Z := ReadUvarint_loop MaxVarintLen64 0 0.

(** [binary.AppendUvarint]: [for x >= 0x80 { ... }], ten bytes at most. *)
Fixpoint AppendUvarint_loop (k : nat) (x : Z) : list Z :=
  match k with
  | O => []
  | S k' =>
      if 128 <=? x then Z.lor (x `mod` 256) 128 :: AppendUvarint_loop k' (Z.shiftr x 7)
      else [x `mod` 256]
  end.

Definition AppendUvarint (x : Z) : list Z := AppendUvarint_loop MaxVarintLen64 x.

(** A writer of varints that [binary.ReadUvarint] inverts: what the formats rely
    on from [varbin.WriteUvarint] of the sing library. *)
Class UvarintWriter : Type := {
  WriteUvarint : Z -> list Z;
  WriteUvarint_spec : forall x rest, in_width 64 x ->
    ReadUvarint (WriteUvarint x ++ rest) = Ok (x, rest)
}.

(** [n] values, read one after the other. *)
Fixpoint ReadN {A : Type} (read : Reader A) (n : nat) (l : list Z) : result (list A * list Z) :=
  match n with
  | O => Ok ([], l)
  | S n' => try p <- read l; try q <- ReadN read n' p.2; Ok (p.1 :: q.1, q.2)
  end.

(** Strings as byte sequences. *)
Definition bytes_of_string (s : string) : list Z :=
  map (fun c => Z.of_nat (nat_of_ascii c)) (String.list_ascii_of_string s).

Definition string_of_bytes (l : list Z) : string :=
  String.string_of_list_ascii (map (fun b => ascii_of_nat (Z.to_nat b)) l).

(** ** Laws *)

Lemma ReadByte_cons b l : ReadByte (b :: l) = Ok (b, l).
Proof. done. Qed.

Lemma ReadFull_app l rest : ReadFull (length l) (l ++ rest) = Ok (l, rest).
Proof.
  unfold ReadFull. rewrite length_app.
  replace (length l <=? length l + length rest)%nat with true by (symmetry; apply Nat.leb_le; lia).
  by rewrite take_app_length, drop_app_length.
Qed.

Lemma length_be_bytes n v : length (be_bytes n v) = n.
Proof. induction n; cbn; congruence. Qed.

Lemma be_bytes_bytes n v : Forall is_byte (be_bytes n v).
Proof. induction n; cbn; constructor; [|done]. apply Z.mod_pos_bound. lia. Qed.

Lemma be_value_acc l a : foldl (fun acc b => acc * 256 + b) a l = a * 256 ^ Z.of_nat (length l) + be_value l.
Proof.
  unfold be_value. revert a. induction l as [|b l IH]; intros a; cbn [foldl length]; [cbn; lia|].
  rewrite IH, (IH (0 * 256 + b)). rewrite Nat2Z.inj_succ, Z.pow_succ_r by lia. ring.
Qed.

Lemma be_value_cons b l : be_value (b :: l) = b * 256 ^ Z.of_nat (length l) + be_value l.
Proof. unfold be_value at 1. cbn [foldl]. rewrite be_value_acc. f_equal; ring. Qed.

Lemma be_value_bytes n v : be_value (be_bytes n v) = v `mod` 256 ^ Z.of_nat n.
Proof.
  induction n as [|n IH]; [by rewrite Z.mod_1_r|].
  cbn [be_bytes]. rewrite be_value_cons, length_be_bytes, IH, Nat2Z.inj_succ, Z.pow_succ_r by lia.
  rewrite (Z.mul_comm 256), Z.rem_mul_r by lia. ring.
Qed.

Lemma ReadBE_be_bytes n v rest :
  0 <= v < 256 ^ Z.of_nat n -> ReadBE n (be_bytes n v ++ rest) = Ok (v, rest).
Proof.
  intros Hv. unfold ReadBE. rewrite <- (length_be_bytes n v) at 1. rewrite ReadFull_app. cbn.
  by rewrite be_value_bytes, Z.mod_small.
Qed.

Lemma ReadBool_WriteBool b rest : ReadBool (WriteBool b ++ rest) = Ok (b, rest).
Proof. by destruct b. Qed.

Lemma lor_shiftl_add x b s :
  0 <= s -> 0 <= x < 2 ^ s -> Z.lor x (Z.shiftl b s) = x + b * 2 ^ s.
Proof.
  intros Hs Hx. rewrite <- Z.shiftl_mul_pow2 by done. rewrite <- Z.add_lor_land.
  replace (Z.land x (Z.shiftl b s)) with 0; [ring|].
  symmetry. apply Z.bits_inj'. intros i Hi. rewrite Z.bits_0, Z.land_spec.
  destruct (Z.lt_ge_cases i s); [rewrite Z.shiftl_spec_low by done; by rewrite andb_false_r|].
  rewrite <- (Z.mod_small x (2 ^ s)) by done. by rewrite Z.mod_pow2_bits_high.
Qed.

(** The byte a continued varint starts with. *)
Lemma uvarint_byte x : 0 <= x ->
  128 <= Z.lor (x `mod` 256) 128 < 256 /\ Z.land (Z.lor (x `mod` 256) 128) 127 = x `mod` 128.
Proof.
  intros Hx. pose proof (Z.mod_pos_bound x 256 ltac:(lia)) as Hb.
  assert (Hm : x `mod` 128 = (x `mod` 256) `mod` 128)
    by (rewrite (Z.mod_mod_divide x 256 128); [done|by exists 2]).
  rewrite Hm. remember (x `mod` 256) as b eqn:Heq. clear Heq Hm Hx.
  assert (Hall : forallb (fun n => let b := Z.of_nat n in
    (128 <=? Z.lor b 128) && (Z.lor b 128 <? 256) && (Z.land (Z.lor b 128) 127 =? b `mod` 128))
    (seq 0 256) = true) by (vm_compute; reflexivity).
  rewrite forallb_forall in Hall. specialize (Hall (Z.to_nat b) ltac:(apply in_seq; lia)).
  cbn zeta in Hall. rewrite Z2Nat.id in Hall by lia. lia.
Qed.

Lemma Uvarint_loop_roundtrip k x a s rest :
  s = 7 * (10 - Z.of_nat k) -> (1 <= k <= 10)%nat -> 0 <= a < 2 ^ s -> 0 <= x -> x * 2 ^ s < 2 ^ 64 ->
  ReadUvarint_loop k a s (AppendUvarint_loop k x ++ rest) = Ok (a + x * 2 ^ s, rest).
Proof.
  revert x a s. induction k as [|k IH]; intros x a s Hs Hk Ha Hx Hlt; [lia|].
  cbn [AppendUvarint_loop].
  assert (Hp : 0 < 2 ^ s) by (apply Z.pow_pos_nonneg; lia).
  destruct (Z.leb_spec 128 x) as [Hge|Hsm].
  - assert (Hk1 : (1 <= k)%nat).
    { destruct k; [|lia]. exfalso. change (7 * (10 - Z.of_nat 1)) with 63 in Hs. subst s. lia. }
    destruct (uvarint_byte x Hx) as [[Hb1 Hb2] Hb3].
    cbn [app ReadUvarint_loop]. destruct (Z.ltb_spec (Z.lor (x `mod` 256) 128) 128); [lia|].
    rewrite Hb3. pose proof (Z.mod_pos_bound x 128 ltac:(lia)) as Hm.
    pose proof (Z.mod_le x 128 Hx ltac:(lia)) as Hmx.
    assert (Hw : wrap 64 (Z.shiftl (x `mod` 128) s) = Z.shiftl (x `mod` 128) s).
    { apply wrap_small. unfold in_width. rewrite Z.shiftl_mul_pow2 by lia. nia. }
    rewrite Hw, lor_shiftl_add by lia.
    assert (Hs7 : 2 ^ (s + 7) = 2 ^ s * 128) by (rewrite Z.pow_add_r by lia; done).
    assert (Hx7 : Z.shiftr x 7 = x / 128) by (by rewrite Z.shiftr_div_pow2).
    pose proof (Z.div_mod x 128 ltac:(lia)) as Hdm.
    rewrite IH; [|lia|lia|rewrite Hs7; nia|apply Z.shiftr_nonneg; lia|rewrite Hs7, Hx7; nia].
    rewrite Hs7, Hx7. do 2 f_equal. rewrite Hdm at 3. ring.
  - rewrite Z.mod_small by lia. cbn [app ReadUvarint_loop].
    destruct (Z.ltb_spec x 128); [|lia].
    assert (Hf : (S k =? 1)%nat && (1 <? x) = false).
    { destruct k; [|done]. change (7 * (10 - Z.of_nat 1)) with 63 in Hs. subst s. cbn. lia. }
    rewrite Hf. rewrite wrap_small, lor_shiftl_add by
      (unfold in_width; try rewrite Z.shiftl_mul_pow2; lia). done.
Qed.

(** Go's own encoder satisfies the interface. *)
Lemma AppendUvarint_spec x rest :
  in_width 64 x -> ReadUvarint (AppendUvarint x ++ rest) = Ok (x, rest).
Proof.
  intros [Hx Hlt]. unfold ReadUvarint, AppendUvarint, MaxVarintLen64.
  rewrite (Uvarint_loop_roundtrip 10 x 0 0); [do 2 f_equal; lia|..]; lia.
Qed.

Definition GoUvarint : UvarintWriter :=
  {| WriteUvarint := AppendUvarint; WriteUvarint_spec := AppendUvarint_spec |}.

Lemma ReadUvarint_loop_shorter k x s l v rest :
  ReadUvarint_loop k x s l = Ok (v, rest) -> (length rest < length l)%nat.
Proof.
  revert x s l. induction k as [|k IH]; intros x s l Hr; [done|]. cbn in Hr.
  destruct l as [|b l]; [done|]. case_match; [case_match; simplify_eq; cbn; lia|].
  apply IH in Hr. cbn. lia.
Qed.

Lemma ReadN_app {A B : Type} (read : Reader B) (write : A -> list Z) (f : A -> B) (l : list A) rest :
  (forall x rest, x ∈ l -> read (write x ++ rest) = Ok (f x, rest)) ->
  ReadN read (length l) (flat_map write l ++ rest) = Ok (map f l, rest).
Proof.
  induction l as [|x l IH]; intros Hw; [done|]. cbn. rewrite <- app_assoc, Hw by set_solver. cbn.
  rewrite IH; [done|]. intros y r Hy. apply Hw. set_solver.
Qed.

Lemma string_of_bytes_of_string s : string_of_bytes (bytes_of_string s) = s.
Proof.
  unfold string_of_bytes, bytes_of_string. rewrite map_map.
  rewrite (map_ext _ (fun c => c)) by (intros; by rewrite Nat2Z.id, ascii_nat_embedding).
  rewrite map_id. apply String.string_of_list_ascii_of_string.
Qed.

Lemma length_bytes_of_string s : length (bytes_of_string s) = String.length s.
Proof. unfold bytes_of_string. rewrite length_map. induction s; cbn; congruence. Qed.

#[export] Hint Rewrite ReadByte_cons ReadFull_app ReadBool_WriteBool string_of_bytes_of_string
  length_be_bytes length_bytes_of_string : singbox_rw.
