(* ===== verification/GoStrings.v ===== *)
(** * Strings and text formats of the Go standard library

    [strings.ToLower], [EqualFold], [TrimSpace], [Contains], [Index],
    [strconv.ParseUint], [filepath.Base] and [net.ParseMAC], over byte strings.
    The Unicode tables that [strings] consults for bytes above 127 are the
    interface [GoUnicode]. *)

From stdpp Require Import base strings list.
From Stdlib Require Import ZArith Lia Ascii.
From S2P Require Import Prelude.

Open Scope Z_scope.

Abbreviation chars := String.list_ascii_of_string.
Abbreviation of_chars := String.string_of_list_ascii.

Definition code (c : ascii) : Z := Z.of_nat (nat_of_ascii c).

Definition is_ascii (s : string) : bool := forallb (fun c => code c <? 128) (chars s).

(** The behaviour of package [strings] on strings that are not pure ASCII. *)
Class GoUnicode : Type := {
  unicode_ToLower : string -> string;
  unicode_EqualFold : string -> string -> bool;
  unicode_TrimSpace : string -> string
}.

(** ** ASCII case *)

Definition lower_ascii (c : ascii) : ascii :=
  if (65 <=? code c) && (code c <=? 90) then ascii_of_nat (Z.to_nat (code c + 32)) else c.

Definition ToLower_ascii (s : string) : string := of_chars (map lower_ascii (chars s)).

Definition ToLower `{GoUnicode} (s : string) : string :=
  if is_ascii s then ToLower_ascii s else unicode_ToLower s.

Definition EqualFold `{GoUnicode} (s t : string) : bool :=
  if is_ascii s && is_ascii t then bool_decide (ToLower_ascii s = ToLower_ascii t)
  else unicode_EqualFold s t.

(** ** Searching *)

(** [strings.Index]; [None] for -1. *)
Definition Index (s sub : string) : option nat := String.index 0 sub s.

Definition str_Contains (s sub : string) : bool :=
  match Index s sub with Some _ => true | None => false end.

Definition is_space (c : ascii) : bool :=
  existsb (Z.eqb (code c)) [9; 10; 11; 12; 13; 32].

Fixpoint drop_spaces (l : list ascii) : list ascii :=
  match l with
  | c :: l' => if is_space c then drop_spaces l' else l
  | [] => []
  end.

Definition TrimSpace `{GoUnicode} (s : string) : string :=
  if is_ascii s then of_chars (reverse (drop_spaces (reverse (drop_spaces (chars s)))))
  else unicode_TrimSpace s.

(** ** Numbers *)

Definition ErrSyntax : error := ENew "invalid syntax".
Definition ErrRange : error := ENew "value out of range".

Definition digit (c : ascii) : option Z :=
  if (48 <=? code c) && (code c <=? 57) then Some (code c - 48) else None.

(** The loop of [strconv.ParseUint(s, 10, bits)] for [bits] below 64. *)
Fixpoint ParseUint_loop (maxVal : Z) (n : Z) (l : list ascii) : result Z :=
  match l with
  | [] => Ok n
  | c :: l' =>
      match digit c with
      | None => Err ErrSyntax
      | Some d =>
          let n1 := n * 10 + d in
          if maxVal <? n1 then Err ErrRange else ParseUint_loop maxVal n1 l'
      end
  end.

Definition ParseUint10 (s : string) (bits : Z) : result Z :=
  match chars s with
  | [] => Err ErrSyntax
  | l => ParseUint_loop (2 ^ bits - 1) 0 l
  end.

(** ** filepath.Base on a Unix path *)

Definition is_slash (c : ascii) : bool := code c =? 47.

Fixpoint drop_slashes (l : list ascii) : list ascii :=
  match l with
  | c :: l' => if is_slash c then drop_slashes l' else l
  | [] => []
  end.

(** The characters before the first slash. *)
Fixpoint until_slash (l : list ascii) : list ascii :=
  match l with
  | c :: l' => if is_slash c then [] else c :: until_slash l'
  | [] => []
  end.

Definition Base (path : string) : string :=
  match chars path with
  | [] => "."
  | l =>
      match until_slash (drop_slashes (reverse l)) with
      | [] => "/"
      | r => of_chars (reverse r)
      end
  end.

(** ** Hardware addresses *)

Definition hex_digit (c : ascii) : option Z :=
  if (48 <=? code c) && (code c <=? 57) then Some (code c - 48)
  else if (97 <=? code c) && (code c <=? 102) then Some (code c - 97 + 10)
  else if (65 <=? code c) && (code c <=? 70) then Some (code c - 65 + 10)
  else None.

(** [xtoi2]: two hexadecimal digits, and nothing or the separator [e] after. *)
Definition xtoi2 (l : list ascii) (e : option ascii) : option Z :=
  match l with
  | a :: b :: rest =>
      if match rest, e with
         | [], _ => true
         | c :: _, Some e => bool_decide (c = e)
         | _ :: _, None => false
         end
      then match hex_digit a, hex_digit b with
           | Some x, Some y => Some (16 * x + y)
           | _, _ => None
           end
      else None
  | _ => None
  end.

(** [n] groups of one byte, three characters apart. *)
Fixpoint parse_mac_colon (n : nat) (sep : ascii) (l : list ascii) : option (list Z) :=
  match n with
  | O => Some []
  | S n' => b ← xtoi2 l (Some sep); bs ← parse_mac_colon n' sep (drop 3 l); Some (b :: bs)
  end.

(** [n] groups of two bytes, five characters apart. *)
Fixpoint parse_mac_dot (n : nat) (sep : ascii) (l : list ascii) : option (list Z) :=
  match n with
  | O => Some []
  | S n' =>
      a ← xtoi2 (take 2 l) None; b ← xtoi2 (drop 2 l) (Some sep);
      bs ← parse_mac_dot n' sep (drop 5 l); Some (a :: b :: bs)
  end.

Definition mac_length (n : nat) : bool := (n =? 6)%nat || (n =? 8)%nat || (n =? 20)%nat.

Definition ParseMAC (s : string) : option (list Z) :=
  let l := chars s in
  let len := length l in
  if (len <? 14)%nat then None
  else
    match l !! 2%nat, l !! 4%nat with
    | Some c2, Some c4 =>
        if (code c2 =? 58) || (code c2 =? 45) then
          if ((len + 1) mod 3 =? 0)%nat && mac_length ((len + 1) / 3)
          then parse_mac_colon ((len + 1) / 3) c2 l else None
        else if code c4 =? 46 then
          if ((len + 1) mod 5 =? 0)%nat && mac_length (2 * (len + 1) / 5)
          then parse_mac_dot ((len + 1) / 5) c4 l else None
        else None
    | _, _ => None
    end.

Definition hex_char (n : Z) : ascii :=
  ascii_of_nat (Z.to_nat (if n <? 10 then 48 + n else 87 + n)).

(** [HardwareAddr.String]: lower case hexadecimal, colons between the bytes. *)
Fixpoint mac_chars (l : list Z) : list ascii :=
  match l with
  | [] => []
  | [b] => [hex_char (b / 16); hex_char (b `mod` 16)]
  | b :: l' => hex_char (b / 16) :: hex_char (b `mod` 16) :: ascii_of_nat 58 :: mac_chars l'
  end.

Definition mac_String (l : list Z) : string := of_chars (mac_chars l).

(** [hex.DecodeString]; [None] for an error. *)
Fixpoint hex_decode (l : list ascii) : option (list Z) :=
  match l with
  | [] => Some []
  | a :: b :: l' =>
      x ← hex_digit a; y ← hex_digit b; rest ← hex_decode l'; Some (16 * x + y :: rest)
  | [_] => None
  end.

Definition DecodeString (s : string) : option (list Z) := hex_decode (chars s).

(** ** Laws *)

Lemma chars_of_chars l : chars (of_chars l) = l.
Proof. apply String.list_ascii_of_string_of_list_ascii. Qed.

Lemma of_chars_chars s : of_chars (chars s) = s.
Proof. apply String.string_of_list_ascii_of_string. Qed.

Lemma length_chars s : length (chars s) = String.length s.
Proof. induction s; cbn; congruence. Qed.

Lemma code_bound c : 0 <= code c < 256.
Proof. unfold code. pose proof (nat_ascii_bounded c). lia. Qed.

(** A value that [ParseUint] accepts fits its width. *)
Lemma ParseUint_loop_bound maxVal n l v :
  0 <= n <= maxVal -> ParseUint_loop maxVal n l = Ok v -> 0 <= v <= maxVal.
Proof.
  revert n. induction l as [|c l IH]; intros n Hn Hv; cbn in Hv; [by simplify_eq|].
  destruct (digit c) as [d|] eqn:Hd; [|done]. unfold digit in Hd.
  destruct ((48 <=? code c) && (code c <=? 57)) eqn:Hc; simplify_eq.
  destruct (Z.ltb_spec maxVal (n * 10 + (code c - 48))); [done|]. eapply IH; [|done]. lia.
Qed.

Lemma ParseUint10_bound s bits v : 0 <= bits -> ParseUint10 s bits = Ok v -> in_width bits v.
Proof.
  intros Hb. unfold ParseUint10, in_width. pose proof (Z.pow_pos_nonneg 2 bits ltac:(lia) Hb).
  case_match; [done|]. intros Hv. apply ParseUint_loop_bound in Hv; lia.
Qed.

(** Lower-casing is idempotent. *)
Lemma lower_ascii_idemp c : lower_ascii (lower_ascii c) = lower_ascii c.
Proof. by destruct c as [[] [] [] [] [] [] [] []]. Qed.

Lemma lower_ascii_small c : (code (lower_ascii c) <? 128) = (code c <? 128).
Proof. by destruct c as [[] [] [] [] [] [] [] []]. Qed.

Lemma is_ascii_lower s : is_ascii (ToLower_ascii s) = is_ascii s.
Proof.
  unfold is_ascii, ToLower_ascii. rewrite chars_of_chars.
  induction (chars s) as [|c l IH]; [done|]. cbn. by rewrite lower_ascii_small, IH.
Qed.

Lemma ToLower_ascii_idemp s : ToLower_ascii (ToLower_ascii s) = ToLower_ascii s.
Proof.
  unfold ToLower_ascii. rewrite chars_of_chars, map_map. f_equal. apply map_ext.
  intros. apply lower_ascii_idemp.
Qed.

(** ** The textual form of a hardware address parses back *)

Lemma hex_digit_char n : 0 <= n < 16 -> hex_digit (hex_char n) = Some n.
Proof.
  intros Hn. assert (Hall : forallb (fun k => bool_decide (hex_digit (hex_char (Z.of_nat k)) = Some (Z.of_nat k)))
    (seq 0 16) = true) by (vm_compute; reflexivity).
  rewrite forallb_forall in Hall. specialize (Hall (Z.to_nat n) ltac:(apply in_seq; lia)).
  rewrite Z2Nat.id in Hall by lia. by apply bool_decide_eq_true in Hall.
Qed.

Lemma hex_byte b : 0 <= b < 256 -> 16 * (b / 16) + b `mod` 16 = b /\ 0 <= b / 16 < 16 /\ 0 <= b `mod` 16 < 16.
Proof.
  intros Hb. pose proof (Z.div_mod b 16 ltac:(lia)). pose proof (Z.mod_pos_bound b 16 ltac:(lia)).
  split; [lia|]. split; [|done]. split; [apply Z.div_pos; lia|apply Z.div_lt_upper_bound; lia].
Qed.

Lemma length_mac_chars l : length (mac_chars l) = (3 * length l - 1)%nat.
Proof.
  induction l as [|b l IH]; [done|]. destruct l as [|b' l]; [done|].
  change (mac_chars (b :: b' :: l)) with
    (hex_char (b / 16) :: hex_char (b `mod` 16) :: ascii_of_nat 58 :: mac_chars (b' :: l)).
  cbn [length] in *. rewrite IH. lia.
Qed.

Lemma parse_mac_colon_chars l :
  Forall (fun b => 0 <= b < 256) l -> parse_mac_colon (length l) (ascii_of_nat 58) (mac_chars l) = Some l.
Proof.
  induction l as [|b l IH]; [done|]. rewrite Forall_cons. intros [Hb Hl].
  destruct (hex_byte b Hb) as (He & Hx & Hy).
  destruct l as [|b' l].
  - cbn. rewrite !hex_digit_char by done. cbn. by rewrite He.
  - change (mac_chars (b :: b' :: l)) with
      (hex_char (b / 16) :: hex_char (b `mod` 16) :: ascii_of_nat 58 :: mac_chars (b' :: l)).
    remember (b' :: l) as tl eqn:Htl. cbn [length parse_mac_colon xtoi2].
    rewrite bool_decide_eq_true_2 by done. rewrite !hex_digit_char by done. cbn [mbind option_bind skipn].
    rewrite drop_0, IH by done. cbn. by rewrite He.
Qed.

Lemma ParseMAC_String l :
  mac_length (length l) = true -> Forall (fun b => 0 <= b < 256) l -> ParseMAC (mac_String l) = Some l.
Proof.
  intros Hn Hl. unfold ParseMAC, mac_String. rewrite chars_of_chars, length_mac_chars.
  pose proof (parse_mac_colon_chars l Hl) as Hp.
  destruct l as [|b [|b' [|b'' l]]]; try done. set (rest := b'' :: l) in *.
  change (mac_chars (b :: b' :: rest)) with
    (hex_char (b / 16) :: hex_char (b `mod` 16) :: ascii_of_nat 58 ::
     hex_char (b' / 16) :: hex_char (b' `mod` 16) :: ascii_of_nat 58 :: mac_chars rest) in *.
  cbn [lookup list_lookup]. change (code (ascii_of_nat 58) =? 58) with true. cbn [orb].
  assert (H6 : (length (b :: b' :: rest) = 6 \/ length (b :: b' :: rest) = 8 \/ length (b :: b' :: rest) = 20)%nat).
  { unfold mac_length in Hn. rewrite !orb_true_iff, !Nat.eqb_eq in Hn. tauto. }
  destruct H6 as [Hlen|[Hlen|Hlen]]; rewrite Hlen in *; exact Hp.
Qed.
