(* ===== verification/IPSet.v ===== *)
(** * IP range sets

    [src/common/ipset/set.go]: sorted lists of disjoint IPv4 and IPv6 ranges with
    membership by binary search, and their binary form
    [src/common/srs/ip_set.go].  A [Range4] is a pair of 32-bit integers, a
    [Range6] a pair of 16-byte arrays kept as their big-endian values. *)

From stdpp Require Import base gmap strings list sets pretty sorting.
From Stdlib Require Import ZArith Lia.
From S2P Require Import Prelude Net Codec.

Open Scope Z_scope.

Record Range : Type := mkRange { From : Z; To : Z }.

#[export] Instance Range_eq_dec : EqDecision Range.
Proof. solve_decision. Defined.

Record Set_ : Type := mkSet { ranges4 : list Range; ranges6 : list Range }.

(** [compare16]: two big-endian halves. *)
Definition compare16 (a b : Z) : Z :=
  let aHigh := Z.shiftr a 64 in
  let bHigh := Z.shiftr b 64 in
  if negb (aHigh =? bHigh) then if aHigh <? bHigh then -1 else 1
  else
    let aLow := wrap 64 a in
    let bLow := wrap 64 b in
    if negb (aLow =? bLow) then if aLow <? bLow then -1 else 1
    else 0.

(** The validation loops of [FromRanges]; [cmp] is the order of the family. *)
Fixpoint checkRanges (cmp : Z -> Z -> Z) (i : Z) (prev : option Range) (l : list Range) : result unit :=
  match l with
  | [] => Ok tt
  | r :: l' =>
      if 0 <? cmp (From r) (To r) then Err (ENew ("ipset: malformed range " +:+ pretty i))
      else if match prev with Some p => 0 <=? cmp (To p) (From r) | None => false end
      then Err (ENew ("ipset: unordered range " +:+ pretty i))
      else checkRanges cmp (i + 1) (Some r) l'
  end.

Definition compare32 (a b : Z) : Z := if a <? b then -1 else if b <? a then 1 else 0.

Definition FromRanges (r4 r6 : list Range) : result Set_ :=
  try _ <- checkRanges compare32 0 None r4;
  try _ <- checkRanges compare16 0 None r6;
  Ok (mkSet r4 r6).

(** [FromIPSet]; the argument is [set.Ranges()] of the netipx library, a list of
    pairs of addresses. *)
Definition FromIPSet (ranges : list (Addr * Addr)) : Set_ :=
  foldl (fun result '(from, to) =>
    if addr_Is4 from
    then mkSet (ranges4 result ++ [mkRange (addr_value from) (addr_value to)]) (ranges6 result)
    else mkSet (ranges4 result) (ranges6 result ++ [mkRange (addr_As16 from) (addr_As16 to)]))
    (mkSet [] []) ranges.

(** [slices.BinarySearchFunc]: the loop [for i < j], whose distance shrinks, so
    the length of the slice bounds the number of rounds. *)
Fixpoint BinarySearch_loop {E : Type} (cmp : E -> Z) (x : list E) (fuel i j : nat) : nat :=
  match fuel with
  | O => i
  | S fuel' =>
      if (i <? j)%nat then
        let h := ((i + j) / 2)%nat in
        match x !! h with
        | Some e => if cmp e <? 0 then BinarySearch_loop cmp x fuel' (S h) j
                    else BinarySearch_loop cmp x fuel' i h
        | None => i
        end
      else i
  end.

Definition BinarySearchFunc {E : Type} (x : list E) (cmp : E -> Z) : nat * bool :=
  let i := BinarySearch_loop cmp x (length x) 0 (length x) in
  (i, match x !! i with Some e => cmp e =? 0 | None => false end).

Definition rangeCompare4 (target : Z) (r : Range) : Z :=
  if target <? From r then 1 else if To r <? target then -1 else 0.

Definition rangeCompare6 (target : Z) (r : Range) : Z :=
  if 0 <? compare16 (From r) target then 1 else if compare16 (To r) target <? 0 then -1 else 0.

Definition Contains (s : Set_) (addr : Addr) : bool :=
  if addr_Is4 addr
  then (BinarySearchFunc (ranges4 s) (rangeCompare4 (addr_value addr))).2
  else (BinarySearchFunc (ranges6 s) (rangeCompare6 (addr_As16 addr))).2.

(** ** Binary form *)

Section codec.
Context `{UvarintWriter}.

Definition readIPSetAddr : Reader (Z * list Z) := fun l =>
  try p <- ReadUvarint l;
  let addrLen := p.1 in
  guard (addrLen =? 4) || (addrLen =? 16) else_err ErrInvalid;
  try q <- ReadFull (Z.to_nat addrLen) p.2;
  Ok ((addrLen, q.1), q.2).

(** One round of the loop of [readIPSet]: the family and the range. *)
Definition readIPSetRange : Reader (bool * Range) := fun l =>
  try p <- readIPSetAddr l;
  try q <- readIPSetAddr p.2;
  guard (p.1.1 =? q.1.1) else_err ErrInvalid;
  Ok ((p.1.1 =? 4, mkRange (be_value p.1.2) (be_value q.1.2)), q.2).

(** [slices.SortFunc] by the lower bound. *)
Definition range_le (a b : Range) : Prop := From a <= From b.

#[global] Instance range_le_dec a b : Decision (range_le a b) := Z.le_dec (From a) (From b).

Definition sortRanges (l : list Range) : list Range := merge_sort range_le l.

Definition readIPSet : Reader Set_ := fun l =>
  try p <- ReadByte l;
  guard p.1 =? 1 else_err ErrInvalid;
  try q <- ReadBE 8 p.2;
  try r <- ReadN readIPSetRange (Z.to_nat q.1) q.2;
  let r4 := map snd (filter (fun x => x.1 = true) r.1) in
  let r6 := map snd (filter (fun x => x.1 = false) r.1) in
  try s <- FromRanges (sortRanges r4) (sortRanges r6);
  Ok (s, r.2).

Definition writeIPSetAddr (addr : list Z) : list Z := WriteUvarint (Z.of_nat (length addr)) ++ addr.

Definition writeIPSetRange (n : nat) (r : Range) : list Z :=
  writeIPSetAddr (be_bytes n (From r)) ++ writeIPSetAddr (be_bytes n (To r)).

Definition writeIPSet (s : Set_) : list Z :=
  [1] ++ be_bytes 8 (Z.of_nat (length (ranges4 s) + length (ranges6 s))) ++
  flat_map (writeIPSetRange 4) (ranges4 s) ++ flat_map (writeIPSetRange 16) (ranges6 s).

End codec.

(** ** Order *)

Lemma compare16_compare32 a b : compare16 a b = compare32 a b.
Proof.
  unfold compare16, compare32, wrap. rewrite !Z.shiftr_div_pow2 by lia.
  change (2 ^ 64) with 18446744073709551616.
  pose proof (Z.div_mod a 18446744073709551616 ltac:(lia)) as Ha.
  pose proof (Z.div_mod b 18446744073709551616 ltac:(lia)) as Hb.
  pose proof (Z.mod_pos_bound a 18446744073709551616 ltac:(lia)) as Hma.
  pose proof (Z.mod_pos_bound b 18446744073709551616 ltac:(lia)) as Hmb.
  destruct (Z.eqb_spec (a / 18446744073709551616) (b / 18446744073709551616)) as [He|He]; cbn [negb].
  - destruct (Z.eqb_spec (a mod 18446744073709551616) (b mod 18446744073709551616)) as [He'|He']; cbn [negb].
    + replace b with a by congruence. by rewrite Z.ltb_irrefl.
    + destruct (Z.ltb_spec (a mod 18446744073709551616) (b mod 18446744073709551616)),
        (Z.ltb_spec a b), (Z.ltb_spec b a); try done; lia.
  - destruct (Z.ltb_spec (a / 18446744073709551616) (b / 18446744073709551616)),
      (Z.ltb_spec a b), (Z.ltb_spec b a); try done; lia.
Qed.

Lemma rangeCompare6_4 t r : rangeCompare6 t r = rangeCompare4 t r.
Proof.
  unfold rangeCompare6, rangeCompare4. rewrite !compare16_compare32. unfold compare32.
  destruct (Z.ltb_spec (From r) t), (Z.ltb_spec t (From r)), (Z.ltb_spec (To r) t), (Z.ltb_spec t (To r));
    cbn; try done; lia.
Qed.

(** ** Well-formed range lists *)

(** Non-empty ranges, in order, without overlap. *)
Fixpoint ranges_wf_from (lo : option Z) (l : list Range) : Prop :=
  match l with
  | [] => True
  | r :: l' =>
      From r <= To r /\ match lo with Some z => z < From r | None => True end /\
      ranges_wf_from (Some (To r)) l'
  end.

Definition ranges_wf (l : list Range) : Prop := ranges_wf_from None l.

Definition set_wf (s : Set_) : Prop := ranges_wf (ranges4 s) /\ ranges_wf (ranges6 s).

Lemma compare32_gt a b : (0 <? compare32 a b) = (b <? a).
Proof. unfold compare32. destruct (Z.ltb_spec a b), (Z.ltb_spec b a); try done; lia. Qed.

Lemma compare32_ge a b : (0 <=? compare32 a b) = (b <=? a).
Proof. unfold compare32. destruct (Z.ltb_spec a b), (Z.ltb_spec b a), (Z.leb_spec b a); try done; lia. Qed.

Lemma checkRanges_wf i prev l :
  checkRanges compare32 i prev l = Ok tt <-> ranges_wf_from (To <$> prev) l.
Proof.
  revert i prev. induction l as [|r l IH]; intros i prev; cbn; [done|]. rewrite compare32_gt.
  destruct (Z.ltb_spec (To r) (From r)); [split; [done|intros []; lia]|].
  destruct prev as [p|]; cbn; rewrite ?compare32_ge; [destruct (Z.leb_spec (From r) (To p))|];
    rewrite ?IH; cbn; split; try done; try tauto; intros (? & ? & ?); lia.
Qed.

Lemma checkRanges_ext cmp cmp' i prev l :
  (forall a b, cmp a b = cmp' a b) -> checkRanges cmp i prev l = checkRanges cmp' i prev l.
Proof.
  intros He. revert i prev. induction l as [|r l IH]; intros i prev; cbn; [done|].
  rewrite He, IH. destruct prev; by rewrite ?He.
Qed.

Lemma FromRanges_spec r4 r6 s :
  FromRanges r4 r6 = Ok s <-> s = mkSet r4 r6 /\ set_wf s.
Proof.
  unfold FromRanges, set_wf, ranges_wf.
  rewrite (checkRanges_ext compare16 compare32) by apply compare16_compare32.
  pose proof (checkRanges_wf 0 None r4) as H4. pose proof (checkRanges_wf 0 None r6) as H6. cbn in H4, H6.
  destruct (checkRanges compare32 0 None r4) as [[]|] eqn:E4;
    [destruct (checkRanges compare32 0 None r6) as [[]|] eqn:E6|]; cbn;
    split; try (intros [= <-]; cbn; tauto); try (by intros [-> ?]);
    intros [-> [Hw4 Hw6]]; cbn in *; [apply H6 in Hw6|apply H4 in Hw4]; done.
Qed.

Lemma ranges_wf_from_lookup lo l i r :
  ranges_wf_from lo l -> l !! i = Some r ->
  From r <= To r /\ (forall z, lo = Some z -> z < From r) /\
  (forall j r', (i < j)%nat -> l !! j = Some r' -> To r < From r').
Proof.
  revert lo i r. induction l as [|x l IH]; intros lo i r Hwf Hi; [done|]. destruct Hwf as (Hx & Hlo & Hl).
  destruct i as [|i]; cbn in Hi.
  - simplify_eq. split_and!; [done|by intros z ->|].
    intros [|j] r' Hj Hr'; [lia|]. cbn in Hr'. destruct (IH _ _ _ Hl Hr') as (_ & Hz & _). by apply Hz.
  - destruct (IH _ _ _ Hl Hi) as (Hr & Hz & Hp). split_and!; [done|..].
    + intros z ->. specialize (Hz _ eq_refl). lia.
    + intros [|j] r' Hj Hr'; [lia|]. apply (Hp j); [lia|done].
Qed.

(** ** Binary search *)

Section search.
Context {E : Type} (x : list E) (cmp : E -> Z).
(** Elements below the target come first. *)
Context (Hmono : forall i j a b, (i <= j)%nat -> x !! i = Some a -> x !! j = Some b -> cmp b < 0 -> cmp a < 0).

Lemma BinarySearch_loop_spec fuel i j :
  (i <= j <= length x)%nat -> (j - i <= fuel)%nat ->
  (forall k a, (k < i)%nat -> x !! k = Some a -> cmp a < 0) ->
  (forall k a, (j <= k)%nat -> x !! k = Some a -> 0 <= cmp a) ->
  let r := BinarySearch_loop cmp x fuel i j in
  (forall k a, (k < r)%nat -> x !! k = Some a -> cmp a < 0) /\
  (forall k a, (r <= k)%nat -> x !! k = Some a -> 0 <= cmp a).
Proof using Hmono.
  revert i j. induction fuel as [|fuel IH]; intros i j Hij Hf Hlo Hhi; cbn [BinarySearch_loop]; cbv zeta.
  { assert (i = j) as -> by lia. by split. }
  destruct (Nat.ltb_spec i j) as [Hlt|Hge]; [|assert (i = j) as -> by lia; by split].
  pose proof (Nat.div_mod_eq (i + j) 2) as Hdm. pose proof (Nat.mod_upper_bound (i + j) 2 ltac:(lia)) as Hm.
  set (h := ((i + j) / 2)%nat) in *. assert (Hh : (i <= h < j)%nat) by lia.
  destruct (x !! h) as [e|] eqn:He; [|apply lookup_ge_None in He; lia].
  destruct (Z.ltb_spec (cmp e) 0) as [Hneg|Hpos]; apply IH; try lia; try done.
  - intros k a Hk Ha. apply (Hmono k h a e); [lia|done..].
  - intros k a Hk Ha. destruct (Z.lt_ge_cases (cmp a) 0) as [Hn|]; [|done].
    pose proof (Hmono h k e a Hk He Ha Hn). lia.
Qed.

Lemma BinarySearchFunc_spec :
  (forall k j a b, (k < j)%nat -> x !! k = Some a -> x !! j = Some b -> cmp b = 0 -> cmp a < 0) ->
  (BinarySearchFunc x cmp).2 = true <-> exists e, e ∈ x /\ cmp e = 0.
Proof using Hmono.
  intros Hone. unfold BinarySearchFunc. cbn [snd].
  destruct (BinarySearch_loop_spec (length x) 0 (length x)) as [Hlo Hhi]; [lia|lia|intros; lia| |].
  { intros k a Hk Ha. apply lookup_lt_Some in Ha. lia. }
  set (r := BinarySearch_loop _ _ _ _ _) in *. split.
  - destruct (x !! r) as [e|] eqn:He; [|done]. intros Hc. apply Z.eqb_eq in Hc.
    exists e. split; [by eapply list_elem_of_lookup_2|done].
  - intros (e & Hin & Hc). apply list_elem_of_lookup_1 in Hin as [k Hk].
    assert (Hrk : (r <= k)%nat).
    { destruct (Nat.le_gt_cases r k); [done|]. pose proof (Hlo k e ltac:(lia) Hk). lia. }
    destruct (Nat.eq_dec r k) as [->|Hne]; [rewrite Hk; by apply Z.eqb_eq|].
    destruct (x !! r) as [e'|] eqn:He'; [|apply lookup_ge_None in He'; apply lookup_lt_Some in Hk; lia].
    pose proof (Hone r k e' e ltac:(lia) He' Hk Hc). pose proof (Hhi r e' ltac:(lia) He'). lia.
Qed.
End search.

Lemma search_ranges l t :
  ranges_wf l ->
  (BinarySearchFunc l (rangeCompare4 t)).2 = true <-> exists r, r ∈ l /\ From r <= t <= To r.
Proof.
  intros Hwf. rewrite BinarySearchFunc_spec.
  - apply exist_proper. intros r. unfold rangeCompare4.
    destruct (Z.ltb_spec t (From r)), (Z.ltb_spec (To r) t); split; intros [? ?]; (split; [done|lia]).
  - intros i j a b Hij Ha Hb. unfold rangeCompare4.
    destruct (Nat.eq_dec i j) as [->|Hne]; [by simplify_eq|].
    destruct (ranges_wf_from_lookup _ _ _ _ Hwf Ha) as (Hra & _ & Hp).
    destruct (ranges_wf_from_lookup _ _ _ _ Hwf Hb) as (Hrb & _).
    specialize (Hp j b ltac:(lia) Hb). repeat case_match; lia.
  - intros i j a b Hij Ha Hb. unfold rangeCompare4.
    destruct (ranges_wf_from_lookup _ _ _ _ Hwf Ha) as (Hra & _ & Hp). specialize (Hp j b Hij Hb).
    repeat case_match; lia.
Qed.

(** Membership decides the union of the ranges of the family of the address. *)
Lemma Contains_ranges s a :
  set_wf s ->
  Contains s a = true <->
  if addr_Is4 a then exists r, r ∈ ranges4 s /\ From r <= addr_value a <= To r
  else exists r, r ∈ ranges6 s /\ From r <= addr_As16 a <= To r.
Proof.
  intros [H4 H6]. unfold Contains. case_match; [by apply search_ranges|].
  rewrite <- search_ranges by done. unfold BinarySearchFunc. cbn [snd].
  assert (He : forall fuel i j, BinarySearch_loop (rangeCompare6 (addr_As16 a)) (ranges6 s) fuel i j =
    BinarySearch_loop (rangeCompare4 (addr_As16 a)) (ranges6 s) fuel i j).
  { induction fuel as [|fuel IH]; intros i j; cbn [BinarySearch_loop]; [done|].
    destruct (i <? j)%nat; [|done]. cbv zeta. destruct (ranges6 s !! _); [|done].
    by rewrite rangeCompare6_4, !IH. }
  rewrite He. by destruct (ranges6 s !! _); rewrite ?rangeCompare6_4.
Qed.

(** ** Round trip of the binary form *)

Lemma ranges_wf_before lo r l x :
  ranges_wf_from lo (r :: l) -> x ∈ l -> From r <= To r < From x.
Proof.
  intros Hwf Hin. apply list_elem_of_lookup_1 in Hin as [j Hj].
  destruct (ranges_wf_from_lookup lo (r :: l) 0 r Hwf eq_refl) as (Hr & _ & Hp).
  split; [done|]. by apply (Hp (S j) x); [lia|].
Qed.

Lemma ranges_wf_sorted lo l : ranges_wf_from lo l -> StronglySorted range_le l.
Proof.
  revert lo. induction l as [|r l IH]; intros lo Hwf; constructor.
  - destruct Hwf as (_ & _ & Hl). by eapply IH.
  - apply Forall_forall. intros x Hx. pose proof (ranges_wf_before _ _ _ _ Hwf Hx). unfold range_le. lia.
Qed.

Lemma ranges_wf_From_inj lo l a b :
  ranges_wf_from lo l -> a ∈ l -> b ∈ l -> From a = From b -> a = b.
Proof.
  revert lo. induction l as [|r l IH]; intros lo Hwf Ha Hb He; [by apply not_elem_of_nil in Ha|].
  pose proof (ranges_wf_before _ _ _ a Hwf) as Pa. pose proof (ranges_wf_before _ _ _ b Hwf) as Pb.
  destruct Hwf as (_ & _ & Hl).
  apply elem_of_cons in Ha as [->|Ha], Hb as [->|Hb]; [done|specialize (Pb Hb); lia|specialize (Pa Ha); lia|].
  by eapply IH.
Qed.

#[export] Instance range_le_trans : Transitive range_le.
Proof. intros a b c. unfold range_le. lia. Qed.

#[export] Instance range_le_total : Total range_le.
Proof. intros a b. unfold range_le. lia. Qed.

(** Sorting leaves an ordered list of ranges alone. *)
Lemma sortRanges_wf l : ranges_wf l -> sortRanges l = l.
Proof.
  intros Hwf. apply (StronglySorted_unique_strong range_le).
  - intros a b Ha Hb Hab Hba. unfold sortRanges in Ha. rewrite merge_sort_Permutation in Ha.
    apply (ranges_wf_From_inj None l); try done. unfold range_le in *. lia.
  - apply (StronglySorted_merge_sort range_le).
  - by eapply ranges_wf_sorted.
  - apply merge_sort_Permutation.
Qed.

Definition range_in_width (w : Z) (r : Range) : Prop := in_width w (From r) /\ in_width w (To r).

Section roundtrip.
Context `{UvarintWriter}.

Lemma readIPSetAddr_write n v rest :
  n = 4%nat \/ n = 16%nat ->
  readIPSetAddr (writeIPSetAddr (be_bytes n v) ++ rest) = Ok ((Z.of_nat n, be_bytes n v), rest).
Proof.
  intros Hn. unfold readIPSetAddr, writeIPSetAddr. rewrite <- app_assoc, length_be_bytes.
  rewrite WriteUvarint_spec by (unfold in_width; lia). cbn [result_bind fst snd].
  replace ((Z.of_nat n =? 4) || (Z.of_nat n =? 16)) with true by (by destruct Hn as [-> | ->]).
  replace (Z.to_nat (Z.of_nat n)) with (length (be_bytes n v)) by (rewrite length_be_bytes; lia).
  by rewrite ReadFull_app.
Qed.

Lemma readIPSetRange_write n r rest :
  n = 4%nat \/ n = 16%nat -> range_in_width (8 * Z.of_nat n) r ->
  readIPSetRange (writeIPSetRange n r ++ rest) = Ok ((n =? 4)%nat, r, rest).
Proof.
  intros Hn [Hf Ht]. unfold readIPSetRange, writeIPSetRange.
  rewrite <- app_assoc, readIPSetAddr_write by done. cbn [result_bind fst snd].
  rewrite readIPSetAddr_write by done. cbn [result_bind fst snd]. rewrite Z.eqb_refl, !be_value_bytes.
  unfold in_width in *. destruct Hn as [-> | ->]; cbn [Z.of_nat Nat.eqb] in *;
    rewrite !Z.mod_small by (cbn in *; lia); by destruct r.
Qed.

Definition tagged (s : Set_) : list (bool * Range) :=
  map (pair true) (ranges4 s) ++ map (pair false) (ranges6 s).

Lemma tagged_write s :
  flat_map (writeIPSetRange 4) (ranges4 s) ++ flat_map (writeIPSetRange 16) (ranges6 s) =
  flat_map (fun x => writeIPSetRange (if x.1 : bool then 4 else 16) x.2) (tagged s).
Proof.
  unfold tagged. rewrite flat_map_app. f_equal;
    [induction (ranges4 s) as [|r l IH]|induction (ranges6 s) as [|r l IH]]; cbn; congruence.
Qed.

Lemma tagged_filter (b : bool) s :
  map snd (filter (fun x => x.1 = b) (tagged s)) = if b then ranges4 s else ranges6 s.
Proof.
  assert (Hf : forall (c : bool) (l : list Range),
    map snd (filter (fun x => x.1 = b) (map (pair c) l)) = if bool_decide (c = b) then l else []).
  { intros c l. induction l as [|r l IH]; [by case_match|]. cbn [map]. rewrite filter_cons. cbn [fst].
    destruct (decide (c = b)); cbn [map snd]; rewrite IH; by repeat case_bool_decide. }
  unfold tagged. rewrite filter_app, map_app, !Hf. destruct b; cbn; by rewrite ?app_nil_r.
Qed.

Lemma readIPSet_writeIPSet s rest :
  set_wf s -> Forall (range_in_width 32) (ranges4 s) -> Forall (range_in_width 128) (ranges6 s) ->
  Z.of_nat (length (ranges4 s) + length (ranges6 s)) < 2 ^ 64 ->
  readIPSet (writeIPSet s ++ rest) = Ok (s, rest).
Proof.
  intros Hwf H4 H6 Hlen. unfold readIPSet, writeIPSet. rewrite tagged_write.
  cbn [app ReadByte result_bind fst snd]. rewrite Z.eqb_refl. rewrite <- app_assoc.
  rewrite ReadBE_be_bytes by (cbn; lia). cbn [result_bind fst snd]. rewrite Nat2Z.id.
  replace (length (ranges4 s) + length (ranges6 s))%nat with (length (tagged s))
    by (unfold tagged; by rewrite length_app, !length_map).
  rewrite (ReadN_app _ _ (fun x => x)).
  - rewrite map_id. cbn [result_bind fst snd]. rewrite !tagged_filter. destruct Hwf as [W4 W6].
    rewrite !sortRanges_wf by done.
    destruct (FromRanges (ranges4 s) (ranges6 s)) as [s'|e] eqn:He.
    + apply FromRanges_spec in He as [-> _]. by destruct s.
    + exfalso. assert (Ho : FromRanges (ranges4 s) (ranges6 s) = Ok (mkSet (ranges4 s) (ranges6 s)))
        by (by apply FromRanges_spec). congruence.
  - intros [b r] rest' Hin. unfold tagged in Hin. rewrite elem_of_app in Hin.
    rewrite Forall_forall in H4, H6.
    destruct Hin as [Hin|Hin]; apply list_elem_of_In, in_map_iff in Hin as (r' & [= <- <-] & Hin);
      apply list_elem_of_In in Hin; cbn [fst snd]; rewrite readIPSetRange_write; auto.
Qed.
End roundtrip.
