(* ===== verification/RuleMatch.v ===== *)
(** * The rule matching engine

    [src/route/rule/match_state.go], [rule_abstract.go], [rule_item_rule_set.go],
    the matching half of [rule_set_abstract.go] and of [rule_dns.go].

    A rule evaluates a metadata record and may write its rule cache, so every
    operation takes the metadata and returns the metadata it leaves.  The items
    of a rule are reached only through the interface [RuleItem]. *)

From stdpp Require Import base gmap strings list.
From Stdlib Require Import ZArith Lia.
From S2P Require Import Prelude Net Metadata.

Open Scope Z_scope.

(** ** match_state.go *)

Definition ruleMatchSourceAddress : Z := 1.
Definition ruleMatchSourcePort : Z := 2.
Definition ruleMatchDestinationAddress : Z := 4.
Definition ruleMatchDestinationPort : Z := 8.

Record ruleGroupMatch : Type := mkGroups {
  required : Z;
  satisfied : Z
}.

Definition group_done (g : ruleGroupMatch) : bool :=
  and_not (required g) (satisfied g) =? 0.

Definition mergeWith (g other : ruleGroupMatch) : ruleGroupMatch :=
  mkGroups (Z.lor (required g) (required other)) (Z.lor (satisfied g) (satisfied other)).

Definition state_has (s target : Z) : bool := negb (Z.land s target =? 0).

Record ruleMatchSnapshot : Type := mkSnapshot {
  snap_ipCidrMatchSource : bool;
  snap_ipCidrAcceptEmpty : bool;
  snap_deferredIPCIDRMatchGroups : Z
}.

Definition snapshotRuleMatch (m : InboundContext) : ruleMatchSnapshot :=
  mkSnapshot (IPCIDRMatchSource m) (IPCIDRAcceptEmpty m) (DeferredIPCIDRMatchGroups m).

Definition restore (s : ruleMatchSnapshot) (m : InboundContext) : InboundContext :=
  set_DeferredIPCIDRMatchGroups
    (set_IPCIDRAcceptEmpty (set_IPCIDRMatchSource m (snap_ipCidrMatchSource s))
       (snap_ipCidrAcceptEmpty s))
    (snap_deferredIPCIDRMatchGroups s).

(** ** The item interface ([RuleItem] of rule_default.go) *)

(** An item decides a metadata record without writing it. *)
Class RuleItem (I : Type) : Type := item_Match : I -> InboundContext -> bool.

(** What an item may depend on: everything but the bookkeeping fields of the
    rule cache.  [item_view] blanks those fields. *)
Definition item_view (m : InboundContext) : InboundContext :=
  with_cache m (mkRuleCache (IPCIDRMatchSource m) (IPCIDRAcceptEmpty m)
                  false false false false 0 false).

Class RuleItemLaws (I : Type) `{RuleItem I} : Prop :=
  item_Match_view : forall (it : I) (m : InboundContext), item_Match it m = item_Match it (item_view m).

(** ** Data: rules, rule-sets and rule-set items *)

Record RuleSetMetadata : Type := mkRuleSetMetadata {
  ContainsProcessRule : bool;
  ContainsWIFIRule : bool;
  ContainsIPCIDRRule : bool;
  ContainsDNSQueryTypeRule : bool;
  ContainsNonIPCIDRRule : bool
}.

(** The part of [abstractRuleSet] that matching reads. *)
Record RuleSet (R : Type) : Type := mkRuleSet {
  rs_rules : list R;
  rs_metadata : RuleSetMetadata
}.
Arguments mkRuleSet {R}.
Arguments rs_rules {R}.
Arguments rs_metadata {R}.

Record RuleSetItem (R : Type) : Type := mkRuleSetItem {
  tagList : list string;
  setList : list (RuleSet R);
  ipCidrMatchSource : bool;
  ipCidrAcceptEmpty : bool
}.
Arguments mkRuleSetItem {R}.
Arguments tagList {R}.
Arguments setList {R}.
Arguments ipCidrMatchSource {R}.
Arguments ipCidrAcceptEmpty {R}.

(** An entry of [allItems]: one of the items of the groups, or the rule-set
    item. *)
Inductive AnyItem (I : Type) : Type :=
| OfItem (it : I)
| OfRuleSet.
Arguments OfItem {I}.
Arguments OfRuleSet {I}.

Record abstractDefaultRule (I : Type) : Type := mkDefaultRule {
  items : list I;
  sourceAddressItems : list I;
  sourcePortItems : list I;
  destinationAddressItems : list I;
  destinationIPCIDRItems : list I;
  destinationPortItems : list I;
  allItems : list (AnyItem I);
  invert : bool
}.
Arguments mkDefaultRule {I}.
Arguments items {I}.
Arguments sourceAddressItems {I}.
Arguments sourcePortItems {I}.
Arguments destinationAddressItems {I}.
Arguments destinationIPCIDRItems {I}.
Arguments destinationPortItems {I}.
Arguments allItems {I}.
Arguments invert {I}.

(** Which Go type embeds the abstract default rule; a DNS rule carries its
    [match_response] settings. *)
Inductive defaultKind : Type :=
| KindRoute
| KindHeadless
| KindDNS (matchResponse : bool) (matchResponseTag : string).

Inductive Rule (I : Type) : Type :=
| RDefault (kind : defaultKind) (d : abstractDefaultRule I)
    (ruleSetItem : option (RuleSetItem (Rule I)))
| RLogical (mode : string) (rules : list (Rule I)) (logical_invert : bool).
Arguments RDefault {I}.
Arguments RLogical {I}.

Section engine.
Context {I : Type} `{RuleItem I}.
Implicit Types (d : abstractDefaultRule I) (m : InboundContext).

(** ** abstractDefaultRule: groups *)

Definition matchAnyItem (l : list I) (m : InboundContext) : bool :=
  existsb (fun it => item_Match it m) l.

Definition destinationIPCIDRMatchesSource d m : bool :=
  IPCIDRMatchSource m && negb (bool_decide (destinationIPCIDRItems d = [])).

Definition destinationIPCIDRMatchesDestination d m : bool :=
  negb (IgnoreDestinationIPCIDRMatch m) && negb (IPCIDRMatchSource m) &&
  negb (bool_decide (destinationIPCIDRItems d = [])).

Definition require_group (g : ruleGroupMatch) (s : Z) : ruleGroupMatch :=
  mkGroups (Z.lor (required g) s) (satisfied g).

Definition satisfy_group (g : ruleGroupMatch) (s : Z) : ruleGroupMatch :=
  mkGroups (required g) (Z.lor (satisfied g) s).

(** One block of the form
    [if len(l) > 0 { required |= s; if matchAnyItem(l) { satisfied |= s } }]. *)
Definition evaluate_items (l : list I) (s : Z) m (g : ruleGroupMatch) : ruleGroupMatch :=
  if negb (bool_decide (l = [])) then
    let g := require_group g s in
    if matchAnyItem l m then satisfy_group g s else g
  else g.

(** One block of the form
    [if cond { required |= s; if !satisfied.has(s) && matchAnyItem(cidr) { satisfied |= s } }]. *)
Definition evaluate_cidr (cond : bool) (l : list I) (s : Z) m (g : ruleGroupMatch) : ruleGroupMatch :=
  if cond then
    let g := require_group g s in
    if negb (state_has (satisfied g) s) && matchAnyItem l m then satisfy_group g s else g
  else g.

Definition evaluateGroups d m : ruleGroupMatch * InboundContext :=
  let g := mkGroups 0 0 in
  let g := evaluate_items (sourceAddressItems d) ruleMatchSourceAddress m g in
  let g := evaluate_cidr (destinationIPCIDRMatchesSource d m) (destinationIPCIDRItems d)
             ruleMatchSourceAddress m g in
  let g := evaluate_items (sourcePortItems d) ruleMatchSourcePort m g in
  let g := evaluate_items (destinationAddressItems d) ruleMatchDestinationAddress m g in
  let g := evaluate_cidr (destinationIPCIDRMatchesDestination d m) (destinationIPCIDRItems d)
             ruleMatchDestinationAddress m g in
  let g := evaluate_items (destinationPortItems d) ruleMatchDestinationPort m g in
  let m' :=
    if IgnoreDestinationIPCIDRMatch m && negb (IPCIDRMatchSource m) &&
       negb (bool_decide (destinationIPCIDRItems d = [])) &&
       bool_decide (destinationAddressItems d = [])
    then set_DeferredIPCIDRMatchGroups m
           (Z.lor (DeferredIPCIDRMatchGroups m) ruleMatchDestinationAddress)
    else m in
  (g, m').

Definition match_all_items (l : list I) (m : InboundContext) : bool :=
  forallb (fun it => item_Match it m) l.

Definition evaluateForMerge d m : ruleGroupMatch * bool * InboundContext :=
  let '(groups, m1) := evaluateGroups d m in
  if match_all_items (items d) m1 then (groups, true, m1) else (mkGroups 0 0, false, m1).

(** ** RuleSetItem *)

Definition prepareNestedMatch (r : RuleSetItem (Rule I)) m : InboundContext :=
  set_IPCIDRAcceptEmpty
    (set_IPCIDRMatchSource (ResetRuleMatchCache m) (ipCidrMatchSource r))
    (ipCidrAcceptEmpty r).

(** A set of exactly one plain default headless rule is merged into the rule
    that references it. *)
Definition mergeableRuleIn (rules : list (Rule I)) : option (abstractDefaultRule I) :=
  match rules with
  | [RDefault KindHeadless d None] => if invert d then None else Some d
  | _ => None
  end.

Section nested.
(** The [Match] method of the rules one level down. *)
Variable Match : Rule I -> InboundContext -> bool * InboundContext.

(** The loop of [matchAnyHeadlessRule]; [matched] and [deferredGroups] are its
    local variables. *)
Definition matchAnyHeadlessRule_loop (snapshot : ruleMatchSnapshot) :=
  fix loop (rules : list (Rule I)) (m : InboundContext) (matched : bool) (deferredGroups : Z)
    {struct rules} : bool * InboundContext :=
    match rules with
    | [] =>
        let m' := restore snapshot m in
        if matched
        then (true, set_DeferredIPCIDRMatchGroups m' (Z.lor (DeferredIPCIDRMatchGroups m') deferredGroups))
        else (false, m')
    | rule :: rest =>
        let '(ok, m1) := Match rule (ResetRuleMatchCache m) in
        if ok then
          if DeferredIPCIDRMatchGroups m1 =? 0 then (true, restore snapshot m1)
          else loop rest m1 true (Z.lor deferredGroups (DeferredIPCIDRMatchGroups m1))
        else loop rest m1 matched deferredGroups
    end.

Definition matchAnyHeadlessRule (rules : list (Rule I)) (m : InboundContext) : bool * InboundContext :=
  matchAnyHeadlessRule_loop (snapshotRuleMatch m) rules m false 0.

(** [RuleSetItem.Match], the plain disjunction of the sets. *)
Definition RuleSetItem_Match_loop (r : RuleSetItem (Rule I)) (snapshot : ruleMatchSnapshot) :=
  fix loop (sets : list (RuleSet (Rule I))) (m : InboundContext) {struct sets} : bool * InboundContext :=
    match sets with
    | [] => (false, restore snapshot m)
    | s :: rest =>
        let '(ok, m1) := matchAnyHeadlessRule (rs_rules s) (prepareNestedMatch r m) in
        if ok then (true, restore snapshot m1) else loop rest m1
    end.

Definition RuleSetItem_Match (r : RuleSetItem (Rule I)) (m : InboundContext) : bool * InboundContext :=
  RuleSetItem_Match_loop r (snapshotRuleMatch m) (setList r) m.

Definition matchWithOuterGroups_loop (r : RuleSetItem (Rule I)) (outerGroups : ruleGroupMatch)
    (snapshot : ruleMatchSnapshot) :=
  fix loop (sets : list (RuleSet (Rule I))) (m : InboundContext) (matched : bool) (deferredGroups : Z)
    {struct sets} : bool * InboundContext :=
    match sets with
    | [] =>
        let m' := restore snapshot m in
        if matched
        then (true, set_DeferredIPCIDRMatchGroups m' (Z.lor (DeferredIPCIDRMatchGroups m') deferredGroups))
        else (false, m')
    | s :: rest =>
        let m1 := prepareNestedMatch r m in
        match mergeableRuleIn (rs_rules s) with
        | Some branch =>
            let '(branchGroups, branchMatched, m2) := evaluateForMerge branch m1 in
            if branchMatched then
              let merged := mergeWith outerGroups branchGroups in
              if group_done merged then
                let branchDeferredGroups := and_not (DeferredIPCIDRMatchGroups m2) (satisfied merged) in
                if branchDeferredGroups =? 0 then
                  let m3 := restore snapshot m2 in
                  (true, set_DeferredIPCIDRMatchGroups m3
                           (and_not (DeferredIPCIDRMatchGroups m3) (satisfied merged)))
                else loop rest m2 true (Z.lor deferredGroups branchDeferredGroups)
              else loop rest m2 matched deferredGroups
            else loop rest m2 matched deferredGroups
        | None =>
            if group_done outerGroups then
              let '(ok, m2) := matchAnyHeadlessRule (rs_rules s) m1 in
              if ok then
                if DeferredIPCIDRMatchGroups m2 =? 0 then (true, restore snapshot m2)
                else loop rest m2 true (Z.lor deferredGroups (DeferredIPCIDRMatchGroups m2))
              else loop rest m2 matched deferredGroups
            else loop rest m1 matched deferredGroups
        end
    end.

Definition matchWithOuterGroups (r : RuleSetItem (Rule I)) (m : InboundContext)
    (outerGroups : ruleGroupMatch) : bool * InboundContext :=
  matchWithOuterGroups_loop r outerGroups (snapshotRuleMatch m) (setList r) m false 0.

(** ** abstractDefaultRule.matchInner and Match *)

Definition matchInner (d : abstractDefaultRule I) (ruleSetItem : option (RuleSetItem (Rule I)))
    (m : InboundContext) : bool * InboundContext :=
  let '(groups, m1) := evaluateGroups d m in
  if match_all_items (items d) m1 then
    let '(matched, m2) :=
      match ruleSetItem with
      | Some r => matchWithOuterGroups r m1 groups
      | None => (group_done groups, m1)
      end in
    if matched
    then (true, set_DeferredIPCIDRMatchGroups m2 (and_not (DeferredIPCIDRMatchGroups m2) (satisfied groups)))
    else (false, m2)
  else (false, m1).

Definition abstractDefaultRule_Match (d : abstractDefaultRule I)
    (ruleSetItem : option (RuleSetItem (Rule I))) (m : InboundContext) : bool * InboundContext :=
  if bool_decide (length (allItems d) = 0%nat) then (true, m)
  else
    let '(matched, m1) := matchInner d ruleSetItem m in
    if invert d then
      if negb matched then (true, set_DeferredIPCIDRMatchGroups m1 0)
      else (negb (DeferredIPCIDRMatchGroups m1 =? 0), m1)
    else (matched, m1).

(** ** DefaultDNSRule.matchForMatch *)

(** A [match_response] rule is matched on a copy of the metadata, so nothing it
    writes survives. *)
Definition matchForMatch (matchResponse : bool) (matchResponseTag : string)
    (d : abstractDefaultRule I) (ruleSetItem : option (RuleSetItem (Rule I)))
    (m : InboundContext) : bool * InboundContext :=
  if matchResponse then
    let response :=
      if negb (bool_decide (matchResponseTag = ""%string))
      then ic_NamedDNSResponses m !! matchResponseTag
      else ic_DNSResponse m in
    match response with
    | None => (invert d, m)
    | Some msg =>
        ((abstractDefaultRule_Match d ruleSetItem (set_response m (Some msg) true)).1, m)
    end
  else abstractDefaultRule_Match d ruleSetItem m.

(** ** abstractLogicalRule.Match *)

Definition logical_and_loop :=
  fix loop (rules : list (Rule I)) (m : InboundContext) (deferredGroups : Z) {struct rules}
    : bool * Z * InboundContext :=
    match rules with
    | [] => (true, deferredGroups, m)
    | rule :: rest =>
        let '(ok, m1) := Match rule (ResetRuleCache m) in
        if negb ok then (false, 0, m1)
        else loop rest m1 (Z.lor deferredGroups (DeferredIPCIDRMatchGroups m1))
    end.

Definition logical_or_loop :=
  fix loop (rules : list (Rule I)) (m : InboundContext) (matched : bool) (deferredGroups : Z)
    {struct rules} : bool * Z * InboundContext :=
    match rules with
    | [] => (matched, deferredGroups, m)
    | rule :: rest =>
        let '(ok, m1) := Match rule (ResetRuleCache m) in
        if ok then
          if DeferredIPCIDRMatchGroups m1 =? 0 then (true, 0, m1)
          else loop rest m1 true (Z.lor deferredGroups (DeferredIPCIDRMatchGroups m1))
        else loop rest m1 matched deferredGroups
    end.

Definition abstractLogicalRule_Match (mode : string) (rules : list (Rule I)) (inv : bool)
    (m : InboundContext) : bool * InboundContext :=
  let snapshot := snapshotRuleMatch m in
  let '(matched, deferredGroups, m1) :=
    if bool_decide (mode = "and"%string) then logical_and_loop rules m 0
    else logical_or_loop rules m false 0 in
  let m2 := restore snapshot m1 in
  let m3 := if matched
            then set_DeferredIPCIDRMatchGroups m2 (Z.lor (DeferredIPCIDRMatchGroups m2) deferredGroups)
            else m2 in
  if inv then
    if negb matched then (true, m3) else (negb (deferredGroups =? 0), m3)
  else (matched, m3).

End nested.

(** ** Dispatch of [Match] over the rule types *)

Fixpoint Match (r : Rule I) (m : InboundContext) {struct r} : bool * InboundContext :=
  match r with
  | RDefault kind d ruleSetItem =>
      match kind with
      | KindRoute | KindHeadless => abstractDefaultRule_Match Match d ruleSetItem m
      | KindDNS matchResponse tag => matchForMatch Match matchResponse tag d ruleSetItem m
      end
  | RLogical mode rules inv => abstractLogicalRule_Match Match mode rules inv m
  end.

(** ** DNS rules: address filtering *)

Definition ContainsDestinationIPCIDRRule (r : RuleSetItem (Rule I)) : bool :=
  if ipCidrMatchSource r then false
  else existsb (fun s => ContainsIPCIDRRule (rs_metadata s)) (setList r).

Fixpoint WithAddressLimit (r : Rule I) : bool :=
  match r with
  | RDefault _ d ruleSetItem =>
      if negb (bool_decide (destinationIPCIDRItems d = [])) then true
      else match ruleSetItem with
           | Some s => ContainsDestinationIPCIDRRule s
           | None => false
           end
  | RLogical _ rules _ => existsb WithAddressLimit rules
  end.

(** [LegacyPreMatch]: matching before the response is known.  The deferred call
    clears the flag again. *)
Definition LegacyPreMatch (r : Rule I) (m : InboundContext) : bool * InboundContext :=
  let run (f : InboundContext -> bool * InboundContext) :=
    let '(b, m1) := f (set_IgnoreDestinationIPCIDRMatch m true) in
    (b, set_IgnoreDestinationIPCIDRMatch m1 false) in
  match r with
  | RDefault (KindDNS true _) _ _ => (false, m)
  | RDefault _ d ruleSetItem => run (abstractDefaultRule_Match Match d ruleSetItem)
  | RLogical mode rules inv => run (abstractLogicalRule_Match Match mode rules inv)
  end.

(** [MatchAddressLimit]: matching against the response, on a copy of the
    metadata. *)
Definition MatchAddressLimit (r : Rule I) (m : InboundContext) (response : Msg) : bool :=
  let m' := set_response (ResetRuleCache m) (Some response) true in
  match r with
  | RDefault _ d ruleSetItem => (abstractDefaultRule_Match Match d ruleSetItem m').1
  | RLogical mode rules inv => (abstractLogicalRule_Match Match mode rules inv m').1
  end.

End engine.

#[global] Arguments evaluateGroups : simpl never.
#[global] Arguments evaluateForMerge : simpl never.
#[global] Arguments matchAnyHeadlessRule : simpl never.
#[global] Arguments matchWithOuterGroups : simpl never.
#[global] Arguments matchInner : simpl never.
#[global] Arguments abstractDefaultRule_Match : simpl never.
#[global] Arguments abstractLogicalRule_Match : simpl never.
#[global] Arguments matchForMatch : simpl never.
#[global] Arguments group_done : simpl never.
#[global] Arguments mergeWith : simpl never.
#[global] Arguments prepareNestedMatch : simpl never.
#[global] Arguments restore : simpl never.
#[global] Arguments and_not : simpl never.
