(* ===== verification/RuleSpec.v ===== *)
(** * What a rule means, and that the engine computes it

    A declarative, stateless reading of the rules of [RuleMatch.v]: four groups
    of alternatives per default rule, conjunctions of the remaining items, merged
    or independent rule-sets, and inversion as exclusive or.  The theorems relate
    the engine of [src/route/rule/rule_abstract.go] and
    [src/route/rule/rule_item_rule_set.go] to it, both for a complete match and
    for the match the DNS router makes before a response is known. *)

From stdpp Require Import base gmap strings list.
From Stdlib Require Import ZArith Lia.
From S2P Require Import Prelude Net Metadata RuleMatch.

Open Scope Z_scope.

(** ** Groups as booleans *)

Inductive group : Type := GSourceAddress | GSourcePort | GDestinationAddress | GDestinationPort.

Definition all_groups : list group :=
  [GSourceAddress; GSourcePort; GDestinationAddress; GDestinationPort].

Definition group_bit (g : group) : Z :=
  match g with
  | GSourceAddress => ruleMatchSourceAddress
  | GSourcePort => ruleMatchSourcePort
  | GDestinationAddress => ruleMatchDestinationAddress
  | GDestinationPort => ruleMatchDestinationPort
  end.

(** The bit mask of a set of groups. *)
Definition bits (f : group -> bool) : Z :=
  foldr (fun g acc => Z.lor (if f g then group_bit g else 0) acc) 0 all_groups.

Definition groups_ok (present hit : group -> bool) : bool :=
  forallb (fun g => implb (present g) (hit g)) all_groups.

Section spec.
Context {I : Type} `{RuleItem I}.

(** The alternatives of a group.  [ignore] leaves the destination CIDR items
    out of the destination group, [src] moves them to the source group. *)
Definition group_items (ignore src : bool) (d : abstractDefaultRule I) (g : group) : list I :=
  match g with
  | GSourceAddress => sourceAddressItems d ++ (if src then destinationIPCIDRItems d else [])
  | GSourcePort => sourcePortItems d
  | GDestinationAddress =>
      destinationAddressItems d ++ (if ignore || src then [] else destinationIPCIDRItems d)
  | GDestinationPort => destinationPortItems d
  end.

Definition present (ignore src : bool) (d : abstractDefaultRule I) (g : group) : bool :=
  negb (bool_decide (group_items ignore src d g = [])).

Definition hit (ignore : bool) (d : abstractDefaultRule I) (m : InboundContext) (g : group) : bool :=
  existsb (fun it => item_Match it m) (group_items ignore (IPCIDRMatchSource m) d g).

Definition nested (r : RuleSetItem (Rule I)) (m : InboundContext) : InboundContext :=
  set_IPCIDRAcceptEmpty (set_IPCIDRMatchSource m (ipCidrMatchSource r)) (ipCidrAcceptEmpty r).

Definition unflagged (m : InboundContext) : InboundContext :=
  set_IPCIDRAcceptEmpty (set_IPCIDRMatchSource m false) false.

(** A rule-set that holds one plain rule joins the groups of the rule that
    references it; any other one is a condition of its own, next to the
    complete groups of that rule. *)
Definition set_sat (sat : Rule I -> InboundContext -> bool) (d : abstractDefaultRule I)
    (r : RuleSetItem (Rule I)) (m : InboundContext) (s : RuleSet (Rule I)) : bool :=
  let src := IPCIDRMatchSource m in
  let m' := nested r m in
  match mergeableRuleIn (rs_rules s) with
  | Some b =>
      match_all_items (items b) m' &&
      groups_ok (fun g => present false src d g || present false (ipCidrMatchSource r) b g)
                (fun g => hit false d m g || hit false b m' g)
  | None =>
      groups_ok (present false src d) (hit false d m) && existsb (fun rule => sat rule m') (rs_rules s)
  end.

Definition default_sat (sat : Rule I -> InboundContext -> bool) (d : abstractDefaultRule I)
    (ruleSetItem : option (RuleSetItem (Rule I))) (m : InboundContext) : bool :=
  if bool_decide (length (allItems d) = 0%nat) then true
  else xorb (invert d)
         (match_all_items (items d) m &&
          match ruleSetItem with
          | None => groups_ok (present false (IPCIDRMatchSource m) d) (hit false d m)
          | Some r => existsb (set_sat sat d r m) (setList r)
          end).

Definition response_of (tag : string) (m : InboundContext) : option Msg :=
  if bool_decide (tag = ""%string) then ic_DNSResponse m else ic_NamedDNSResponses m !! tag.

Fixpoint sat (r : Rule I) (m : InboundContext) {struct r} : bool :=
  match r with
  | RDefault (KindDNS true tag) d ruleSetItem =>
      match response_of tag m with
      | None => invert d
      | Some msg => default_sat sat d ruleSetItem (set_response m (Some msg) true)
      end
  | RDefault _ d ruleSetItem => default_sat sat d ruleSetItem m
  | RLogical mode rules inv =>
      xorb inv
        (if bool_decide (mode = "and"%string)
         then forallb (fun rule => sat rule (unflagged m)) rules
         else existsb (fun rule => sat rule (unflagged m)) rules)
  end.

End spec.

#[global] Arguments bits : simpl never.
#[global] Arguments groups_ok : simpl never.
#[global] Arguments present : simpl never.
#[global] Arguments hit : simpl never.
#[global] Arguments default_sat : simpl never.
#[global] Arguments set_sat : simpl never.

(** ** Induction over rules *)

Section rule_ind.
Context {I : Type} (P : Rule I -> Prop).
Hypothesis Hdefault : forall kind d ruleSetItem,
  (forall r, ruleSetItem = Some r -> Forall (fun s => Forall P (rs_rules s)) (setList r)) ->
  P (RDefault kind d ruleSetItem).
Hypothesis Hlogical : forall mode rules inv, Forall P rules -> P (RLogical mode rules inv).

Fixpoint Rule_nested_ind (r : Rule I) : P r.
Proof.
  destruct r as [kind d [[tags sets ms ae]|]|mode rules inv].
  - apply Hdefault. intros ? [= <-]. simpl.
    induction sets as [|[rules md] sets IH]; constructor; [simpl|exact IH].
    clear IH. induction rules as [|r rules IH]; constructor; [apply Rule_nested_ind|exact IH].
  - apply Hdefault. discriminate.
  - apply Hlogical. induction rules as [|r rules IH]; constructor; [apply Rule_nested_ind|exact IH].
Defined.
End rule_ind.

(** ** Metadata up to the bookkeeping of the engine *)

(** Two metadata records that items, flags and the two-phase mode cannot tell
    apart. *)
Definition same (m m' : InboundContext) : Prop :=
  item_view m = item_view m' /\ IgnoreDestinationIPCIDRMatch m = IgnoreDestinationIPCIDRMatch m'.

#[export] Instance same_equiv : Equivalence same.
Proof.
  split; unfold same.
  - by intros m.
  - by intros m m' [-> ->].
  - by intros m1 m2 m3 [-> ->] [-> ->].
Qed.

Lemma item_view_fields m m' :
  item_view m = item_view m' <->
  ic_conn m = ic_conn m' /\ ic_DNSResponse m = ic_DNSResponse m' /\
  ic_NamedDNSResponses m = ic_NamedDNSResponses m' /\
  ic_DestinationAddressMatchFromResponse m = ic_DestinationAddressMatchFromResponse m' /\
  IPCIDRMatchSource m = IPCIDRMatchSource m' /\ IPCIDRAcceptEmpty m = IPCIDRAcceptEmpty m'.
Proof.
  unfold item_view, with_cache. split; [intros [=]; intuition congruence|].
  by intros (-> & -> & -> & -> & -> & ->).
Qed.

Lemma same_fields m m' :
  same m m' <->
  ic_conn m = ic_conn m' /\ ic_DNSResponse m = ic_DNSResponse m' /\
  ic_NamedDNSResponses m = ic_NamedDNSResponses m' /\
  ic_DestinationAddressMatchFromResponse m = ic_DestinationAddressMatchFromResponse m' /\
  IPCIDRMatchSource m = IPCIDRMatchSource m' /\ IPCIDRAcceptEmpty m = IPCIDRAcceptEmpty m' /\
  IgnoreDestinationIPCIDRMatch m = IgnoreDestinationIPCIDRMatch m'.
Proof. unfold same. rewrite item_view_fields. intuition congruence. Qed.

(** Solves goals that two records differ only in bookkeeping. *)
Ltac solve_same :=
  repeat match goal with H : same _ _ |- _ => apply same_fields in H end;
  apply same_fields;
  unfold prepareNestedMatch, nested, unflagged, restore, snapshotRuleMatch, ResetRuleCache,
    ResetRuleMatchCache, set_DeferredIPCIDRMatchGroups, set_IPCIDRMatchSource,
    set_IPCIDRAcceptEmpty, set_response, with_cache, IPCIDRMatchSource, IPCIDRAcceptEmpty,
    DeferredIPCIDRMatchGroups, IgnoreDestinationIPCIDRMatch in *;
  simpl in *; intuition congruence.

Lemma same_set_Deferred m z : same (set_DeferredIPCIDRMatchGroups m z) m.
Proof. solve_same. Qed.

Lemma same_Reset m : same (ResetRuleMatchCache m) m.
Proof. solve_same. Qed.

(** The part of the metadata that nested matching never changes: everything but
    the two CIDR flags. *)
Definition same_base (m m' : InboundContext) : Prop := same (unflagged m) (unflagged m').

#[export] Instance same_base_equiv : Equivalence same_base.
Proof.
  split; unfold same_base; [by intros m|by intros m m' Hm; symmetry|].
  intros m1 m2 m3 Ha Hb. by transitivity (unflagged m2).
Qed.

Lemma same_same_base m m' : same m m' -> same_base m m'.
Proof. intros. unfold same_base. solve_same. Qed.

Lemma same_base_nested {I} (r : RuleSetItem (Rule I)) m m' : same m (nested r m') -> same_base m m'.
Proof. intros. unfold same_base. solve_same. Qed.

Lemma same_base_unflagged m m' : same m (unflagged m') -> same_base m m'.
Proof. intros. unfold same_base. solve_same. Qed.

Lemma same_ResetRuleCache m m' : same_base m m' -> same (ResetRuleCache m) (unflagged m').
Proof. unfold same_base. intros. solve_same. Qed.

Lemma same_prepare {I} (r : RuleSetItem (Rule I)) m m' :
  same_base m m' -> same (prepareNestedMatch r m) (nested r m').
Proof. unfold same_base. intros. solve_same. Qed.

Lemma same_restore m0 m : same_base m m0 -> same (restore (snapshotRuleMatch m0) m) m0.
Proof. unfold same_base. intros. solve_same. Qed.

Lemma Deferred_restore m0 m :
  DeferredIPCIDRMatchGroups (restore (snapshotRuleMatch m0) m) = DeferredIPCIDRMatchGroups m0.
Proof. done. Qed.

#[export] Hint Resolve same_set_Deferred same_Reset same_same_base same_base_nested
  same_base_unflagged same_ResetRuleCache same_prepare same_restore : singbox.

(** ** The engine leaves the metadata as it found it *)

Section frame.
Context {I : Type} `{RuleItem I}.

Lemma evaluateGroups_same (d : abstractDefaultRule I) m : same (evaluateGroups d m).2 m.
Proof. unfold evaluateGroups. cbn [snd]. case_match; [apply same_set_Deferred|done]. Qed.

Lemma evaluateForMerge_same (d : abstractDefaultRule I) m : same (evaluateForMerge d m).2 m.
Proof.
  unfold evaluateForMerge. pose proof (evaluateGroups_same d m) as Hs.
  destruct (evaluateGroups d m) as [g m1]. by case_match.
Qed.

Section frame_nested.
Context (M : Rule I -> InboundContext -> bool * InboundContext).

Definition framed (r : Rule I) : Prop := forall m, same (M r m).2 m.

Lemma matchAnyHeadlessRule_loop_same m0 rules m b z :
  Forall framed rules -> same m m0 ->
  same (matchAnyHeadlessRule_loop M (snapshotRuleMatch m0) rules m b z).2 m0.
Proof.
  intros Hr. revert m b z. induction Hr as [|r rules Hr _ IH]; intros m b z Hm; cbn.
  - assert (Hs : same (restore (snapshotRuleMatch m0) m) m0) by eauto with singbox.
    destruct b; cbn; [by rewrite same_set_Deferred|done].
  - pose proof (Hr (ResetRuleMatchCache m)) as Hs. destruct (M r _) as [ok m1]. cbn in Hs.
    rewrite same_Reset, Hm in Hs. destruct ok; [case_match|]; cbn; auto with singbox.
Qed.

Lemma matchAnyHeadlessRule_same rules m :
  Forall framed rules -> same (matchAnyHeadlessRule M rules m).2 m.
Proof. intros. by apply matchAnyHeadlessRule_loop_same. Qed.

Lemma matchWithOuterGroups_loop_same r g m0 sets m b z :
  Forall (fun s => Forall framed (rs_rules s)) sets -> same_base m m0 ->
  same (matchWithOuterGroups_loop M r g (snapshotRuleMatch m0) sets m b z).2 m0.
Proof.
  intros Hr. revert m b z. induction Hr as [|s sets Hs _ IH]; intros m b z Hm; cbn.
  { assert (Hs : same (restore (snapshotRuleMatch m0) m) m0) by auto with singbox.
    destruct b; cbn; [by rewrite same_set_Deferred|done]. }
  assert (Hp : same (prepareNestedMatch r m) (nested r m0)) by auto with singbox.
  destruct (mergeableRuleIn (rs_rules s)) as [d|].
  - pose proof (evaluateForMerge_same d (prepareNestedMatch r m)) as Hd.
    destruct (evaluateForMerge d _) as [[bg bm] m2]. cbn in Hd. rewrite Hp in Hd.
    destruct bm; [repeat case_match|]; cbn; rewrite ?same_set_Deferred; eauto with singbox.
  - case_match; [|eauto with singbox].
    pose proof (matchAnyHeadlessRule_same (rs_rules s) (prepareNestedMatch r m) Hs) as Hd.
    destruct (matchAnyHeadlessRule _ _ _) as [ok m2]. cbn in Hd. rewrite Hp in Hd.
    destruct ok; [case_match|]; cbn; eauto with singbox.
Qed.

Lemma abstractDefaultRule_Match_same d ri m :
  (forall r, ri = Some r -> Forall (fun s => Forall framed (rs_rules s)) (setList r)) ->
  same (abstractDefaultRule_Match M d ri m).2 m.
Proof.
  intros Hri. unfold abstractDefaultRule_Match. case_match; [done|].
  assert (Hi : same (matchInner M d ri m).2 m).
  { unfold matchInner. pose proof (evaluateGroups_same d m) as Hs.
    destruct (evaluateGroups d m) as [g m1]. cbn in Hs. case_match; [|done].
    destruct ri as [r|].
    - pose proof (matchWithOuterGroups_loop_same r g m1 (setList r) m1 false 0 (Hri r eq_refl)) as Hl.
      unfold matchWithOuterGroups. destruct (matchWithOuterGroups_loop _ _ _ _ _ _ _ _) as [[] m2];
        cbn in *; rewrite ?same_set_Deferred, Hl; done.
    - case_match; cbn; by rewrite ?same_set_Deferred. }
  destruct (matchInner M d ri m) as [b m1]. cbn in Hi.
  destruct (invert d), b; cbn; by rewrite ?same_set_Deferred.
Qed.

Lemma logical_and_loop_same m0 rules m z :
  Forall framed rules -> same_base m m0 -> same_base (logical_and_loop M rules m z).2 m0.
Proof.
  intros Hr. revert m z. induction Hr as [|r rules Hr _ IH]; intros m z Hm; cbn; [done|].
  pose proof (Hr (ResetRuleCache m)) as Hs. destruct (M r _) as [ok m1]. cbn in Hs.
  rewrite (same_ResetRuleCache m m0 Hm) in Hs. destruct ok; cbn; eauto with singbox.
Qed.

Lemma logical_or_loop_same m0 rules m b z :
  Forall framed rules -> same_base m m0 -> same_base (logical_or_loop M rules m b z).2 m0.
Proof.
  intros Hr. revert m b z. induction Hr as [|r rules Hr _ IH]; intros m b z Hm; cbn; [done|].
  pose proof (Hr (ResetRuleCache m)) as Hs. destruct (M r _) as [ok m1]. cbn in Hs.
  rewrite (same_ResetRuleCache m m0 Hm) in Hs. destruct ok; [case_match|]; cbn; eauto with singbox.
Qed.

Lemma abstractLogicalRule_Match_same mode rules inv m :
  Forall framed rules -> same (abstractLogicalRule_Match M mode rules inv m).2 m.
Proof.
  intros Hr. unfold abstractLogicalRule_Match.
  assert (Hl : same_base (if bool_decide (mode = "and"%string) then logical_and_loop M rules m 0
                          else logical_or_loop M rules m false 0).2 m).
  { case_match; [by apply logical_and_loop_same|by apply logical_or_loop_same]. }
  destruct (if bool_decide _ then _ else _) as [[b z] m1]. cbn in Hl.
  destruct inv, b; cbn; rewrite ?same_set_Deferred; auto with singbox.
Qed.
End frame_nested.

(** Matching never changes what later matching can observe. *)
Lemma Match_same (r : Rule I) m : same (Match r m).2 m.
Proof.
  revert m. induction r as [kind d ri IH|mode rules inv IH] using Rule_nested_ind; intros m.
  - assert (Hd : forall m', same (abstractDefaultRule_Match Match d ri m').2 m')
      by (intros; by apply abstractDefaultRule_Match_same).
    destruct kind as [| |[] tag]; cbn; unfold matchForMatch; auto. by case_match.
  - cbn. by apply abstractLogicalRule_Match_same.
Qed.

Lemma all_framed (rules : list (Rule I)) : Forall (framed Match) rules.
Proof. apply Forall_forall. intros r _ m. apply Match_same. Qed.

Lemma all_sets_framed (sets : list (RuleSet (Rule I))) :
  Forall (fun s => Forall (framed Match) (rs_rules s)) sets.
Proof. apply Forall_forall. intros s _. apply all_framed. Qed.
End frame.

(** ** Masks and booleans *)

Lemma group_done_bits (p h : group -> bool) : group_done (mkGroups (bits p) (bits h)) = groups_ok p h.
Proof.
  unfold bits, groups_ok, all_groups. cbn [foldr forallb].
  destruct (p GSourceAddress), (p GSourcePort), (p GDestinationAddress), (p GDestinationPort),
    (h GSourceAddress), (h GSourcePort), (h GDestinationAddress), (h GDestinationPort);
    vm_compute; reflexivity.
Qed.

Lemma bits_lor (p q : group -> bool) : Z.lor (bits p) (bits q) = bits (fun g => p g || q g).
Proof.
  unfold bits, all_groups. cbn [foldr].
  destruct (p GSourceAddress), (p GSourcePort), (p GDestinationAddress), (p GDestinationPort),
    (q GSourceAddress), (q GSourcePort), (q GDestinationAddress), (q GDestinationPort);
    vm_compute; reflexivity.
Qed.

Lemma bits_ext (p q : group -> bool) : (forall g, p g = q g) -> bits p = bits q.
Proof. intros Hpq. unfold bits, all_groups. cbn. by rewrite !Hpq. Qed.

Lemma mergeWith_bits (p h p' h' : group -> bool) :
  mergeWith (mkGroups (bits p) (bits h)) (mkGroups (bits p') (bits h')) =
  mkGroups (bits (fun g => p g || p' g)) (bits (fun g => h g || h' g)).
Proof. unfold mergeWith. cbn [required satisfied]. by rewrite !bits_lor. Qed.

(** Only the destination group is ever deferred. *)
Lemma and_not_bits_deferred (h : group -> bool) :
  and_not ruleMatchDestinationAddress (bits h) =
  if h GDestinationAddress then 0 else ruleMatchDestinationAddress.
Proof.
  unfold bits, all_groups. cbn [foldr].
  destruct (h GSourceAddress), (h GSourcePort), (h GDestinationAddress), (h GDestinationPort);
    vm_compute; reflexivity.
Qed.

Lemma and_not_zero x : and_not 0 x = 0.
Proof. by destruct x. Qed.

#[export] Hint Rewrite group_done_bits mergeWith_bits and_not_bits_deferred and_not_zero Z.lor_0_l
  Z.lor_0_r : singbox_rw.

Section groups.
Context {I : Type} `{RuleItem I}.
Implicit Types (d : abstractDefaultRule I).

Lemma groups_ok_ext (p p' h h' : group -> bool) :
  (forall g, p g = p' g) -> (forall g, h g = h' g) -> groups_ok p h = groups_ok p' h'.
Proof. intros Hp Hh. apply forallb_ext_in. intros g _. by rewrite Hp, Hh. Qed.

Lemma evaluateGroups_bits d m :
  (evaluateGroups d m).1 =
  mkGroups (bits (present (IgnoreDestinationIPCIDRMatch m) (IPCIDRMatchSource m) d))
           (bits (hit (IgnoreDestinationIPCIDRMatch m) d m)).
Proof.
  unfold evaluateGroups, evaluate_items, evaluate_cidr, destinationIPCIDRMatchesSource,
    destinationIPCIDRMatchesDestination, bits, all_groups, present, hit, group_items, matchAnyItem.
  cbn [fst foldr].
  destruct (IPCIDRMatchSource m), (IgnoreDestinationIPCIDRMatch m); cbn [orb negb andb];
    rewrite ?app_nil_r, ?existsb_app; destruct d as [its sa sp da cidr dp al inv]; cbn;
    (destruct sa as [|x1 l1]; [|generalize (existsb (fun it => item_Match it m) (x1 :: l1)); intros []]);
    (destruct cidr as [|x5 l5]; [|generalize (existsb (fun it => item_Match it m) (x5 :: l5)); intros []]);
    (destruct sp as [|x2 l2]; [|generalize (existsb (fun it => item_Match it m) (x2 :: l2)); intros []]);
    (destruct da as [|x3 l3]; [|generalize (existsb (fun it => item_Match it m) (x3 :: l3)); intros []]);
    (destruct dp as [|x4 l4]; [|generalize (existsb (fun it => item_Match it m) (x4 :: l4)); intros []]);
    reflexivity.
Qed.

Lemma evaluateGroups_deferred d m :
  DeferredIPCIDRMatchGroups (evaluateGroups d m).2 =
  if IgnoreDestinationIPCIDRMatch m && negb (IPCIDRMatchSource m) &&
     negb (bool_decide (destinationIPCIDRItems d = [])) && bool_decide (destinationAddressItems d = [])
  then Z.lor (DeferredIPCIDRMatchGroups m) ruleMatchDestinationAddress
  else DeferredIPCIDRMatchGroups m.
Proof. unfold evaluateGroups. cbn [snd]. by case_match. Qed.
End groups.

(** ** The specification sees only the observable metadata *)

Lemma same_flags m m' :
  same m m' -> IPCIDRMatchSource m = IPCIDRMatchSource m' /\
  IgnoreDestinationIPCIDRMatch m = IgnoreDestinationIPCIDRMatch m'.
Proof. rewrite same_fields. intuition. Qed.

(** Records with the same [item_view] are indistinguishable to items. *)
Definition same_view (m m' : InboundContext) : Prop := item_view m = item_view m'.

Lemma same_same_view m m' : same m m' -> same_view m m'.
Proof. by intros [Hv _]. Qed.

Ltac solve_view :=
  repeat match goal with H : same_view _ _ |- _ => apply item_view_fields in H end;
  apply item_view_fields;
  unfold nested, unflagged, set_IPCIDRMatchSource, set_IPCIDRAcceptEmpty, set_response,
    set_IgnoreDestinationIPCIDRMatch, set_DeferredIPCIDRMatchGroups, with_cache,
    IPCIDRMatchSource, IPCIDRAcceptEmpty in *;
  simpl in *; intuition congruence.

Lemma view_source m m' : same_view m m' -> IPCIDRMatchSource m = IPCIDRMatchSource m'.
Proof. unfold same_view. rewrite item_view_fields. intuition. Qed.

Lemma view_set_response m m' msg b :
  same_view m m' -> same_view (set_response m msg b) (set_response m' msg b).
Proof. intros. solve_view. Qed.

Lemma view_nested {I} (r : RuleSetItem (Rule I)) m m' :
  same_view m m' -> same_view (nested r m) (nested r m').
Proof. intros. solve_view. Qed.

Lemma view_unflagged m m' : same_view m m' -> same_view (unflagged m) (unflagged m').
Proof. intros. solve_view. Qed.

#[export] Hint Resolve same_same_view view_set_response view_nested view_unflagged : singbox.

Section view.
Context {I : Type} `{RuleItemLaws I}.
Implicit Types (d : abstractDefaultRule I).

Lemma item_Match_same_view (it : I) m m' : same_view m m' -> item_Match it m = item_Match it m'.
Proof. intros Hv. by rewrite (item_Match_view it m), (item_Match_view it m'), Hv. Qed.

Lemma match_all_items_view (l : list I) m m' :
  same_view m m' -> match_all_items l m = match_all_items l m'.
Proof. intros Hs. apply forallb_ext_in. intros. by apply item_Match_same_view. Qed.

Lemma hit_view ign d m m' g : same_view m m' -> hit ign d m g = hit ign d m' g.
Proof.
  intros Hs. unfold hit. rewrite (view_source _ _ Hs).
  apply existsb_ext_in. intros. by apply item_Match_same_view.
Qed.

Definition viewed (r : Rule I) : Prop := forall m m', same_view m m' -> sat r m = sat r m'.

Lemma set_sat_view d r s m m' :
  Forall viewed (rs_rules s) -> same_view m m' -> set_sat sat d r m s = set_sat sat d r m' s.
Proof.
  intros Hv Hs. unfold set_sat. rewrite (view_source _ _ Hs).
  pose proof (view_nested r m m' Hs) as Hn. case_match.
  - rewrite (match_all_items_view _ _ _ Hn). f_equal. apply groups_ok_ext; [done|].
    intros g. by rewrite (hit_view _ _ _ _ _ Hs), (hit_view _ _ _ _ _ Hn).
  - f_equal.
    + apply groups_ok_ext; [done|]. intros g. by apply hit_view.
    + apply existsb_ext_in. intros rule Hin. rewrite Forall_forall in Hv. by apply Hv.
Qed.

Lemma default_sat_view d ri m m' :
  (forall r, ri = Some r -> Forall (fun s => Forall viewed (rs_rules s)) (setList r)) ->
  same_view m m' -> default_sat sat d ri m = default_sat sat d ri m'.
Proof.
  intros Hv Hs. unfold default_sat. case_match; [done|].
  rewrite (match_all_items_view _ _ _ Hs). do 2 f_equal. destruct ri as [r|].
  - specialize (Hv r eq_refl). rewrite Forall_forall in Hv. apply existsb_ext_in. intros s Hin.
    apply set_sat_view; [|done]. by apply Hv.
  - rewrite (view_source _ _ Hs). apply groups_ok_ext; [done|]. intros g. by apply hit_view.
Qed.

Lemma sat_view (r : Rule I) m m' : same_view m m' -> sat r m = sat r m'.
Proof.
  revert m m'. induction r as [kind d ri IH|mode rules inv IH] using Rule_nested_ind; intros m m' Hs.
  - destruct kind as [| |[] tag]; cbn; try by apply default_sat_view.
    unfold response_of. pose proof Hs as Hf. unfold same_view in Hf. rewrite item_view_fields in Hf.
    destruct Hf as (_ & -> & -> & _).
    destruct (if bool_decide _ then _ else _); [|done].
    apply default_sat_view; [done|by apply view_set_response].
  - cbn. f_equal. rewrite Forall_forall in IH.
    assert (He : forall rule, rule ∈ rules -> sat rule (unflagged m) = sat rule (unflagged m')).
    { intros rule Hin. apply IH; [done|by apply view_unflagged]. }
    case_match; [by apply forallb_ext_in|by apply existsb_ext_in].
Qed.

Lemma all_viewed (rules : list (Rule I)) : Forall viewed rules.
Proof. apply Forall_forall. intros r _ m m'. apply sat_view. Qed.

Lemma match_all_items_same (l : list I) m m' :
  same m m' -> match_all_items l m = match_all_items l m'.
Proof. intros. apply match_all_items_view. auto with singbox. Qed.

Lemma hit_same ign d m m' g : same m m' -> hit ign d m g = hit ign d m' g.
Proof. intros. apply hit_view. auto with singbox. Qed.

Lemma sat_same (r : Rule I) m m' : same m m' -> sat r m = sat r m'.
Proof. intros. apply sat_view. auto with singbox. Qed.
End view.

(** ** A complete match computes the specification *)

Section exact.
Context {I : Type} `{RuleItemLaws I}.
Implicit Types (d : abstractDefaultRule I).

(** The metadata of a complete match: nothing ignored, nothing deferred. *)
Definition complete (m : InboundContext) : Prop :=
  IgnoreDestinationIPCIDRMatch m = false /\ DeferredIPCIDRMatchGroups m = 0.

Definition exact (r : Rule I) : Prop := forall m, complete m ->
  (Match r m).1 = sat r m /\ DeferredIPCIDRMatchGroups (Match r m).2 = 0.

Lemma complete_same m m' : same m m' -> complete m' -> DeferredIPCIDRMatchGroups m = 0 -> complete m.
Proof. intros Hs [Hi _] Hd. destruct (same_flags _ _ Hs) as [_ He]. split; congruence. Qed.

Lemma evaluateGroups_exact d m : complete m ->
  exists m1, evaluateGroups d m =
    (mkGroups (bits (present false (IPCIDRMatchSource m1) d)) (bits (hit false d m1)), m1) /\
    same m1 m /\ complete m1.
Proof.
  intros [Hi Hd]. pose proof (evaluateGroups_bits d m) as Hb.
  pose proof (evaluateGroups_same d m) as Hs. pose proof (evaluateGroups_deferred d m) as Hz.
  rewrite Hi in Hb, Hz. destruct (evaluateGroups d m) as [g m1]. cbn [fst snd] in *. subst g.
  exists m1. split_and!; [|done|apply (complete_same m1 m); [done|done|by rewrite Hz]].
  destruct (same_flags _ _ Hs) as [-> _]. do 2 f_equal. apply bits_ext. intros g. symmetry.
  by apply hit_same.
Qed.

Lemma matchAnyHeadlessRule_loop_exact m0 rules m :
  Forall exact rules -> same m m0 -> complete m0 ->
  (matchAnyHeadlessRule_loop Match (snapshotRuleMatch m0) rules m false 0).1 =
    existsb (fun rule => sat rule m0) rules /\
  DeferredIPCIDRMatchGroups
    (matchAnyHeadlessRule_loop Match (snapshotRuleMatch m0) rules m false 0).2 = 0.
Proof.
  intros Hr Hm Hc. revert m Hm. induction Hr as [|r rules Hr _ IH]; intros m Hm; cbn.
  { split; [done|]. apply Hc. }
  assert (Hs : same (ResetRuleMatchCache m) m0) by (by rewrite same_Reset).
  destruct (Hr (ResetRuleMatchCache m)) as [Hb Hd]; [by eapply complete_same|].
  pose proof (Match_same r (ResetRuleMatchCache m)) as Hf.
  destruct (Match r _) as [ok m1]. cbn in *. rewrite (sat_same _ _ _ Hs) in Hb.
  rewrite Hs in Hf. rewrite <- Hb, Hd. destruct ok; cbn; [|by apply IH]. split; [done|].
  rewrite Deferred_restore. apply Hc.
Qed.

Lemma matchWithOuterGroups_loop_exact r d m0 sets m :
  Forall (fun s => Forall exact (rs_rules s)) sets -> same_base m m0 -> complete m0 ->
  let g := mkGroups (bits (present false (IPCIDRMatchSource m0) d)) (bits (hit false d m0)) in
  (matchWithOuterGroups_loop Match r g (snapshotRuleMatch m0) sets m false 0).1 =
    existsb (set_sat sat d r m0) sets /\
  DeferredIPCIDRMatchGroups
    (matchWithOuterGroups_loop Match r g (snapshotRuleMatch m0) sets m false 0).2 = 0.
Proof.
  intros Hr Hm Hc g. revert m Hm. induction Hr as [|s sets Hs _ IH]; intros m Hm; cbn.
  { split; [done|]. apply Hc. }
  assert (Hp : same (prepareNestedMatch r m) (nested r m0)) by auto with singbox.
  assert (Hpc : complete (prepareNestedMatch r m)) by (by eapply (complete_same _ (nested r m0))).
  unfold set_sat at 1.
  destruct (mergeableRuleIn (rs_rules s)) as [b|].
  - unfold evaluateForMerge.
    destruct (evaluateGroups_exact b _ Hpc) as (m2 & -> & Hs2 & Hc2). rewrite Hp in Hs2.
    rewrite (match_all_items_same _ _ _ Hs2).
    destruct (match_all_items (items b) (nested r m0)); cbn; [|eauto with singbox].
    unfold g. autorewrite with singbox_rw. destruct Hc2 as [_ Hd2]. rewrite Hd2, and_not_zero. cbn.
    rewrite (groups_ok_ext _ (fun g => present false (IPCIDRMatchSource m0) d g
      || present false (ipCidrMatchSource r) b g) _ (fun g => hit false d m0 g || hit false b (nested r m0) g));
      [|by destruct (same_flags _ _ Hs2) as [-> _]|intros; by rewrite (hit_same _ _ _ _ _ Hs2)].
    destruct (groups_ok _ _); cbn; [|eauto with singbox].
    split; [done|]. rewrite Deferred_restore. destruct Hc as [_ ->]. by rewrite and_not_zero.
  - unfold g. rewrite group_done_bits. destruct (groups_ok _ _); cbn; [|eauto with singbox].
    destruct (matchAnyHeadlessRule_loop_exact (prepareNestedMatch r m) (rs_rules s)
      (prepareNestedMatch r m) Hs) as [Hb Hd]; [done|done|].
    pose proof (matchAnyHeadlessRule_same Match (rs_rules s) (prepareNestedMatch r m)
      (all_framed _)) as Hf.
    rewrite (existsb_ext_in _ (fun rule => sat rule (nested r m0))) in Hb
      by (intros; by apply sat_same).
    unfold matchAnyHeadlessRule in *. destruct (matchAnyHeadlessRule_loop _ _ _ _ _ _) as [ok m2].
    cbn in *. rewrite <- Hb, Hd. rewrite Hp in Hf.
    destruct ok; cbn; [|eauto with singbox]. split; [done|]. apply Hc.
Qed.

Lemma matchInner_exact d ri m :
  (forall r, ri = Some r -> Forall (fun s => Forall exact (rs_rules s)) (setList r)) ->
  complete m ->
  (matchInner Match d ri m).1 =
    match_all_items (items d) m &&
    match ri with
    | None => groups_ok (present false (IPCIDRMatchSource m) d) (hit false d m)
    | Some r => existsb (set_sat sat d r m) (setList r)
    end /\
  DeferredIPCIDRMatchGroups (matchInner Match d ri m).2 = 0.
Proof.
  intros Hri Hc. unfold matchInner. destruct (evaluateGroups_exact d m Hc) as (m1 & -> & Hs1 & Hc1).
  rewrite (match_all_items_same _ _ _ Hs1). destruct (match_all_items (items d) m); [|by split; [|apply Hc1]].
  cbn [andb]. destruct ri as [r|].
  - destruct (matchWithOuterGroups_loop_exact r d m1 (setList r) m1 (Hri r eq_refl)) as [Hb Hd]; [done|done|].
    unfold matchWithOuterGroups. destruct (matchWithOuterGroups_loop _ _ _ _ _ _ _ _) as [b m2]. cbn in *.
    rewrite (existsb_ext_in _ (set_sat sat d r m)) in Hb
      by (intros; apply set_sat_view; [apply all_viewed|auto with singbox]).
    rewrite <- Hb. destruct b; cbn; by rewrite ?Hd, ?and_not_zero.
  - rewrite group_done_bits. destruct (same_flags _ _ Hs1) as [-> _].
    rewrite (groups_ok_ext _ (present false (IPCIDRMatchSource m) d) _ (hit false d m));
      [|done|intros; by apply hit_same].
    destruct Hc1 as [_ Hd]. destruct (groups_ok _ _); cbn; by rewrite ?Hd, ?and_not_zero.
Qed.

Lemma abstractDefaultRule_Match_exact d ri m :
  (forall r, ri = Some r -> Forall (fun s => Forall exact (rs_rules s)) (setList r)) ->
  complete m ->
  (abstractDefaultRule_Match Match d ri m).1 = default_sat sat d ri m /\
  DeferredIPCIDRMatchGroups (abstractDefaultRule_Match Match d ri m).2 = 0.
Proof.
  intros Hri Hc. unfold abstractDefaultRule_Match, default_sat. case_match; [split; [done|apply Hc]|].
  destruct (matchInner_exact d ri m Hri Hc) as [Hb Hd]. destruct (matchInner _ _ _ _) as [b m1].
  cbn [fst snd] in *. rewrite <- Hb. destruct (invert d), b; cbn; by rewrite ?Hd.
Qed.

Lemma logical_and_loop_exact m0 rules m :
  Forall exact rules -> same_base m m0 -> IgnoreDestinationIPCIDRMatch m0 = false ->
  exists m1, logical_and_loop Match rules m 0 = (forallb (fun rule => sat rule (unflagged m0)) rules, 0, m1).
Proof.
  intros Hr Hm Hi. revert m Hm. induction Hr as [|r rules Hr _ IH]; intros m Hm; cbn; [by exists m|].
  assert (Hs : same (ResetRuleCache m) (unflagged m0)) by auto with singbox.
  destruct (Hr (ResetRuleCache m)) as [Hb Hd]; [split; [|done]; by rewrite (proj2 (same_flags _ _ Hs))|].
  pose proof (Match_same r (ResetRuleCache m)) as Hf.
  destruct (Match r _) as [ok m1]. cbn in *. rewrite Hs in Hf. rewrite (sat_same _ _ _ Hs) in Hb.
  rewrite <- Hb, Hd. destruct ok; cbn; eauto with singbox.
Qed.

Lemma logical_or_loop_exact m0 rules m :
  Forall exact rules -> same_base m m0 -> IgnoreDestinationIPCIDRMatch m0 = false ->
  exists m1, logical_or_loop Match rules m false 0 =
    (existsb (fun rule => sat rule (unflagged m0)) rules, 0, m1).
Proof.
  intros Hr Hm Hi. revert m Hm. induction Hr as [|r rules Hr _ IH]; intros m Hm; cbn; [by exists m|].
  assert (Hs : same (ResetRuleCache m) (unflagged m0)) by auto with singbox.
  destruct (Hr (ResetRuleCache m)) as [Hb Hd]; [split; [|done]; by rewrite (proj2 (same_flags _ _ Hs))|].
  pose proof (Match_same r (ResetRuleCache m)) as Hf.
  destruct (Match r _) as [ok m1]. cbn in *. rewrite Hs in Hf. rewrite (sat_same _ _ _ Hs) in Hb.
  rewrite <- Hb, Hd. destruct ok; cbn; eauto with singbox.
Qed.

Lemma abstractLogicalRule_Match_exact mode rules inv m :
  Forall exact rules -> complete m ->
  (abstractLogicalRule_Match Match mode rules inv m).1 = sat (RLogical mode rules inv) m /\
  DeferredIPCIDRMatchGroups (abstractLogicalRule_Match Match mode rules inv m).2 = 0.
Proof.
  intros Hr [Hi Hd]. unfold abstractLogicalRule_Match. cbn [sat].
  destruct (logical_and_loop_exact m rules m Hr) as [ma ->]; [done|done|].
  destruct (logical_or_loop_exact m rules m Hr) as [mo ->]; [done|done|].
  destruct (bool_decide (mode = "and"%string)); [destruct (forallb _ _)|destruct (existsb _ _)];
    destruct inv; cbn;
    by rewrite ?Deferred_restore, ?Z.lor_0_r.
Qed.

Lemma Match_exact (r : Rule I) : exact r.
Proof.
  induction r as [kind d ri IH|mode rules inv IH] using Rule_nested_ind; intros m Hc.
  - assert (Hd : forall m', complete m' ->
      (abstractDefaultRule_Match Match d ri m').1 = default_sat sat d ri m' /\
      DeferredIPCIDRMatchGroups (abstractDefaultRule_Match Match d ri m').2 = 0)
      by (intros; by apply abstractDefaultRule_Match_exact).
    destruct kind as [| |[] tag]; cbn; unfold matchForMatch; auto.
    assert (He : response_of tag m = if negb (bool_decide (tag = ""%string))
      then ic_NamedDNSResponses m !! tag else ic_DNSResponse m)
      by (unfold response_of; by case_match).
    rewrite He. destruct (if negb _ then _ else _); [|by split; [|apply Hc]].
    split; [|apply Hc]. by apply Hd.
  - by apply abstractLogicalRule_Match_exact.
Qed.

End exact.
