(* ===== verification/RuleDefer.v ===== *)
(** * Matching before the response: deferred destination groups

    [LegacyPreMatch] of [src/route/rule/rule_dns.go] runs the engine with
    [IgnoreDestinationIPCIDRMatch] set: destination CIDR items cannot be decided
    yet, and [DeferredIPCIDRMatchGroups] records that a positive answer depends on
    them.  The theorems state when that answer is sound for every response the
    query may get. *)

From stdpp Require Import base gmap strings list.
From Stdlib Require Import ZArith Lia.
From S2P Require Import Prelude Net Metadata RuleMatch RuleSpec.

Open Scope Z_scope.

(** ** Rules for which deferral is sound *)

Section predicates.
Context {I : Type} `{RuleItem I}.
Implicit Types (d : abstractDefaultRule I).

(** The metadata the response is matched with. *)
Definition resolved (resp : Msg) (m : InboundContext) : InboundContext :=
  set_response m (Some resp) true.

(** An item that does not look at the response. *)
Definition stable (resp : Msg) (it : I) : Prop :=
  forall m, item_Match it (resolved resp m) = item_Match it m.

(** A CIDR item that does not look at the response while it matches the source. *)
Definition source_stable (resp : Msg) (it : I) : Prop :=
  forall m, IPCIDRMatchSource m = true -> item_Match it (resolved resp m) = item_Match it m.

Definition stable_items (resp : Msg) (src : bool) d : Prop :=
  Forall (stable resp) (items d) /\ Forall (stable resp) (sourceAddressItems d) /\
  Forall (stable resp) (sourcePortItems d) /\ Forall (stable resp) (destinationAddressItems d) /\
  Forall (stable resp) (destinationPortItems d) /\
  (src = true -> Forall (source_stable resp) (destinationIPCIDRItems d)).

(** Whether the rule matches destination addresses by CIDR. *)
Definition dest_cidr (src : bool) d : bool :=
  negb src && negb (bool_decide (destinationIPCIDRItems d = [])).

Definition has_dest_address d : bool := negb (bool_decide (destinationAddressItems d = [])).

(** No rule below decides on a destination CIDR.  A logical rule resets the
    source flag, see [ResetRuleCache]. *)
Fixpoint no_dest_cidr (src : bool) (r : Rule I) : bool :=
  match r with
  | RDefault _ d ri =>
      negb (dest_cidr src d) &&
      match ri with
      | None => true
      | Some s => forallb (fun rs => forallb (no_dest_cidr (ipCidrMatchSource s)) (rs_rules rs)) (setList s)
      end
  | RLogical _ rules _ => forallb (no_dest_cidr false) rules
  end.

(** No domain alternative shares a destination group with a deferred CIDR, and
    no rule reads the response by itself. *)
Definition set_deferrable (deferrable : bool -> Rule I -> bool) (src : bool) d
    (s : RuleSetItem (Rule I)) (rs : RuleSet (Rule I)) : bool :=
  match mergeableRuleIn (rs_rules rs) with
  | Some b =>
      negb ((has_dest_address d || has_dest_address b) &&
            (dest_cidr src d || dest_cidr (ipCidrMatchSource s) b))
  | None =>
      implb (has_dest_address d) (forallb (no_dest_cidr (ipCidrMatchSource s)) (rs_rules rs)) &&
      forallb (deferrable (ipCidrMatchSource s)) (rs_rules rs)
  end.

Fixpoint deferrable (src : bool) (r : Rule I) : bool :=
  match r with
  | RDefault kind d ri =>
      match kind with KindDNS true _ => false | _ => true end &&
      negb (has_dest_address d && dest_cidr src d) &&
      match ri with
      | None => true
      | Some s => forallb (set_deferrable deferrable src d s) (setList s)
      end
  | RLogical _ rules _ => forallb (deferrable false) rules
  end.

(** Every item of the rule is stable. *)
Fixpoint stable_rule (resp : Msg) (src : bool) (r : Rule I) : Prop :=
  match r with
  | RDefault _ d ri =>
      stable_items resp src d /\
      match ri with
      | None => True
      | Some s =>
          foldr (fun rs acc =>
            foldr (fun r acc => stable_rule resp (ipCidrMatchSource s) r /\ acc) True (rs_rules rs) /\ acc)
            True (setList s)
      end
  | RLogical _ rules _ => foldr (fun r acc => stable_rule resp false r /\ acc) True rules
  end.

End predicates.

(** ** Groups before and after the response *)

(** [refines q p h P F]: the masks before ([p], [h]) and after ([P], [F]) the
    response agree, except that a deferred destination group ([q]) was absent. *)
Definition refines (q : bool) (p h P F : group -> bool) : Prop :=
  (forall g, g = GDestinationAddress \/ (p g = P g /\ h g = F g)) /\
  (if q then p GDestinationAddress = false /\ h GDestinationAddress = false
   else p GDestinationAddress = P GDestinationAddress /\ h GDestinationAddress = F GDestinationAddress).

Lemma refines_ok q p h P F : refines q p h P F ->
  (groups_ok p h = false -> groups_ok P F = false) /\ (q = false -> groups_ok p h = groups_ok P F).
Proof.
  intros [Hg Hd]. unfold groups_ok, all_groups. cbn.
  destruct (Hg GSourceAddress) as [|[-> ->]]; [done|].
  destruct (Hg GSourcePort) as [|[-> ->]]; [done|].
  destruct (Hg GDestinationPort) as [|[-> ->]]; [done|].
  destruct q; destruct Hd as [-> ->]; [|done]. split; [|done].
  destruct (implb (P GSourceAddress) _), (implb (P GSourcePort) _), (implb (P GDestinationPort) _),
    (implb (P GDestinationAddress) _); done.
Qed.

Lemma refines_or q q' p h P F p' h' P' F' :
  refines q p h P F -> refines q' p' h' P' F' ->
  (q || q' = true -> p GDestinationAddress = false /\ h GDestinationAddress = false /\
                     p' GDestinationAddress = false /\ h' GDestinationAddress = false) ->
  refines (q || q') (fun g => p g || p' g) (fun g => h g || h' g)
    (fun g => P g || P' g) (fun g => F g || F' g).
Proof.
  intros [Hg Hd] [Hg' Hd'] Hq. split.
  - intros g. destruct (Hg g) as [|[-> ->]]; [by left|].
    destruct (Hg' g) as [|[-> ->]]; [by left|by right].
  - destruct (q || q') eqn:Hqq; [by destruct Hq as (-> & -> & -> & ->)|].
    apply orb_false_elim in Hqq as [-> ->]. destruct Hd as [-> ->], Hd' as [-> ->]. done.
Qed.

Lemma foldr_and {A : Type} (P : A -> Prop) (l : list A) :
  foldr (fun x acc => P x /\ acc) True l <-> Forall P l.
Proof. induction l as [|x l IH]; cbn; [split; constructor|]. by rewrite IH, Forall_cons. Qed.

Lemma forallb_Forall {A : Type} (f : A -> bool) (l : list A) :
  forallb f l = true <-> Forall (fun x => f x = true) l.
Proof. induction l as [|x l IH]; cbn; [split; done|]. by rewrite andb_true_iff, IH, Forall_cons. Qed.

(** The deferred mask only ever holds the destination group. *)
Definition deferred_ok (z : Z) : Prop := z = 0 \/ z = ruleMatchDestinationAddress.

Lemma deferred_ok_lor x y : deferred_ok x -> deferred_ok y -> deferred_ok (Z.lor x y).
Proof. intros [-> | ->] [-> | ->]; vm_compute; intuition. Qed.

Lemma deferred_ok_and_not x h : deferred_ok x -> deferred_ok (and_not x (bits h)).
Proof.
  intros [-> | ->]; [rewrite and_not_zero; by left|]. rewrite and_not_bits_deferred.
  case_match; [by left|by right].
Qed.

Lemma deferred_ok_nonzero z : deferred_ok z -> (z =? 0) = false -> z = ruleMatchDestinationAddress.
Proof. by intros [-> | ->]. Qed.

#[export] Hint Resolve deferred_ok_lor deferred_ok_and_not deferred_ok_nonzero : singbox.

Lemma Deferred_set m z : DeferredIPCIDRMatchGroups (set_DeferredIPCIDRMatchGroups m z) = z.
Proof. done. Qed.

(** What a pre-match answer says about the final one: a rejection is final, and
    so is an acceptance that defers nothing. *)
Definition outcome (res : bool * InboundContext) (final : bool) : Prop :=
  deferred_ok (DeferredIPCIDRMatchGroups res.2) /\
  (res.1 = false -> final = false) /\
  (res.1 = true -> DeferredIPCIDRMatchGroups res.2 = 0 -> final = true).

(** The accumulators of the loops: nothing deferred until something matched. *)
Definition accumulated (matched : bool) (z : Z) : Prop :=
  z = if matched then ruleMatchDestinationAddress else 0.

Lemma accumulated_lor b z x :
  accumulated b z -> x = ruleMatchDestinationAddress -> accumulated true (Z.lor z x).
Proof. unfold accumulated. intros -> ->. by destruct b. Qed.

#[export] Hint Resolve accumulated_lor : singbox.

Section defer.
Context {I : Type} `{RuleItemLaws I} (resp : Msg).
Implicit Types (d : abstractDefaultRule I).

Lemma stable_existsb (l : list I) m :
  Forall (stable resp) l ->
  existsb (fun it => item_Match it (resolved resp m)) l = existsb (fun it => item_Match it m) l.
Proof. intros Hl. rewrite Forall_forall in Hl. apply existsb_ext_in. intros it Hin. by apply Hl. Qed.

Lemma source_stable_existsb (l : list I) m :
  IPCIDRMatchSource m = true -> Forall (source_stable resp) l ->
  existsb (fun it => item_Match it (resolved resp m)) l = existsb (fun it => item_Match it m) l.
Proof. intros Hs Hl. rewrite Forall_forall in Hl. apply existsb_ext_in. intros it Hin. by apply Hl. Qed.

Lemma stable_forallb (l : list I) m :
  Forall (stable resp) l -> match_all_items l (resolved resp m) = match_all_items l m.
Proof. intros Hl. rewrite Forall_forall in Hl. apply forallb_ext_in. intros it Hin. by apply Hl. Qed.

Lemma evaluate_refines d m :
  stable_items resp (IPCIDRMatchSource m) d -> has_dest_address d && dest_cidr (IPCIDRMatchSource m) d = false ->
  refines (dest_cidr (IPCIDRMatchSource m) d)
    (present true (IPCIDRMatchSource m) d) (hit true d m)
    (present false (IPCIDRMatchSource m) d) (hit false d (resolved resp m)).
Proof.
  intros (_ & Hsa & Hsp & Hda & Hdp & Hc) Hmix.
  assert (Hsrc : IPCIDRMatchSource (resolved resp m) = IPCIDRMatchSource m) by done.
  split.
  - intros []; [right|right|by left|right]; (split; [done|]); unfold hit; cbn [group_items];
      rewrite ?Hsrc, ?existsb_app, ?stable_existsb by done; try done.
    destruct (IPCIDRMatchSource m) eqn:He; [|done]. rewrite source_stable_existsb; auto.
  - unfold has_dest_address, dest_cidr, present, hit in *. cbn [group_items]. rewrite Hsrc.
    destruct (IPCIDRMatchSource m) eqn:He; cbn in *.
    { by rewrite !app_nil_r, stable_existsb. }
    destruct (destinationIPCIDRItems d) eqn:Hcd; cbn in *.
    { by rewrite !app_nil_r, stable_existsb. }
    destruct (destinationAddressItems d); by cbn in *.
Qed.

(** The metadata of a pre-match. *)
Definition pre (src : bool) (m : InboundContext) : Prop :=
  IgnoreDestinationIPCIDRMatch m = true /\ DeferredIPCIDRMatchGroups m = 0 /\
  IPCIDRMatchSource m = src.

Definition sound (r : Rule I) : Prop := forall src m,
  deferrable src r = true -> stable_rule resp src r -> pre src m ->
  outcome (Match r m) (sat r (resolved resp m)) /\
  (no_dest_cidr src r = true -> DeferredIPCIDRMatchGroups (Match r m).2 = 0).

Lemma pre_same src m m' :
  same m m' -> pre src m' -> DeferredIPCIDRMatchGroups m = 0 -> pre src m.
Proof.
  intros Hs (Hi & _ & Hsrc) Hd. destruct (same_flags _ _ Hs) as [He He']. unfold pre. by rewrite He, He'.
Qed.

Lemma resolved_same m m' : same m m' -> same (resolved resp m) (resolved resp m').
Proof. intros. unfold resolved. solve_same. Qed.

Lemma matchAnyHeadlessRule_loop_sound src m0 rules m b z :
  Forall sound rules -> forallb (deferrable src) rules = true -> Forall (stable_rule resp src) rules ->
  pre src m0 -> same m m0 -> accumulated b z ->
  let res := matchAnyHeadlessRule_loop Match (snapshotRuleMatch m0) rules m b z in
  let final := existsb (fun r => sat r (resolved resp m0)) rules in
  deferred_ok (DeferredIPCIDRMatchGroups res.2) /\
  (res.1 = false -> b = false /\ final = false) /\
  (res.1 = true -> DeferredIPCIDRMatchGroups res.2 = 0 -> final = true) /\
  (b = false -> forallb (no_dest_cidr src) rules = true -> DeferredIPCIDRMatchGroups res.2 = 0).
Proof.
  intros Hr Hdef Hst Hp. revert m b z. induction Hr as [|r rules Hr _ IH]; intros m b z Hm Hacc.
  { cbn. pose proof Hp as (_ & Hd & _). unfold accumulated in Hacc. subst z.
    destruct b; cbn; rewrite Deferred_restore, Hd; split_and!; try done; by (left + right). }
  cbn in Hdef. apply andb_true_iff in Hdef as [Hdef1 Hdef]. apply Forall_cons in Hst as [Hst1 Hst].
  specialize (IH Hdef Hst).
  assert (Hs : same (ResetRuleMatchCache m) m0) by (by rewrite same_Reset).
  destruct (Hr src (ResetRuleMatchCache m) Hdef1 Hst1) as [(Hok & Hf & Ht) Hn]; [by eapply pre_same|].
  rewrite (sat_same _ _ _ (resolved_same _ _ Hs)) in Hf, Ht.
  pose proof (Match_same r (ResetRuleMatchCache m)) as Hfr.
  cbn. destruct (Match r _) as [ok m1]. cbn [fst snd] in *. rewrite Hs in Hfr.
  destruct ok.
  - destruct (DeferredIPCIDRMatchGroups m1 =? 0) eqn:Hz.
    + apply Z.eqb_eq in Hz. pose proof Hp as (_ & Hd & _). cbn. rewrite Deferred_restore, Hd, Ht by done.
      split_and!; try done. by left.
    + destruct (IH m1 true (Z.lor z (DeferredIPCIDRMatchGroups m1))) as (H1 & H2 & H3 & H4);
        [done|eauto with singbox|].
      split_and!; [done|intros Hx; by destruct (H2 Hx)|intros; rewrite H3 by done; by rewrite orb_true_r|].
      intros -> Hnc. apply andb_true_iff in Hnc as [Hnc _]. by rewrite Hn in Hz.
  - rewrite Hf by done. destruct (IH m1 b z) as (H1 & H2 & H3 & H4); [done|done|].
    split_and!; try done. intros Hb Hnc. apply andb_true_iff in Hnc as [_ Hnc]. auto.
Qed.

Lemma evaluateGroups_pre d src m : pre src m ->
  exists m1, evaluateGroups d m =
    (mkGroups (bits (present true src d)) (bits (hit true d m)), m1) /\
    same m1 m /\
    DeferredIPCIDRMatchGroups m1 =
      if dest_cidr src d && negb (has_dest_address d) then ruleMatchDestinationAddress else 0.
Proof.
  intros (Hi & Hd & Hsrc). pose proof (evaluateGroups_bits d m) as Hb.
  pose proof (evaluateGroups_same d m) as Hs. pose proof (evaluateGroups_deferred d m) as Hz.
  rewrite Hi, Hd, Hsrc in *. destruct (evaluateGroups d m) as [g m1]. cbn [fst snd] in *. subst g.
  exists m1. split_and!; [done|done|]. rewrite Hz. unfold dest_cidr, has_dest_address.
  by destruct src, (bool_decide (destinationIPCIDRItems d = [])), (bool_decide (destinationAddressItems d = [])).
Qed.

(** A group with no own destination items is absent from the mask. *)
Lemma no_dest_address_absent src d m :
  has_dest_address d = false ->
  present true src d GDestinationAddress = false /\ hit true d m GDestinationAddress = false.
Proof.
  unfold has_dest_address, present, hit. cbn [group_items]. rewrite app_nil_r.
  by destruct (destinationAddressItems d).
Qed.

Lemma mergeableRuleIn_Some rules (b : abstractDefaultRule I) :
  mergeableRuleIn rules = Some b -> rules = [RDefault KindHeadless b None].
Proof.
  unfold mergeableRuleIn. destruct rules as [|[[| |] d [|]|] [|]]; try done. case_match; [done|].
  by intros [= ->].
Qed.

(** One mergeable rule-set: its branch, evaluated at [m1], joined with the
    groups of the outer rule [d], evaluated at [m0]. *)
Lemma merge_branch_sound src src' d b m0 m1 :
  stable_items resp src d -> stable_items resp src' b ->
  IPCIDRMatchSource m0 = src -> pre src' m1 ->
  (has_dest_address d || has_dest_address b) && (dest_cidr src d || dest_cidr src' b) = false ->
  let outer := mkGroups (bits (present true src d)) (bits (hit true d m0)) in
  let final := match_all_items (items b) (resolved resp m1) &&
    groups_ok (fun g => present false src d g || present false src' b g)
      (fun g => hit false d (resolved resp m0) g || hit false b (resolved resp m1) g) in
  exists bg bm m2, evaluateForMerge b m1 = (bg, bm, m2) /\ same m2 m1 /\
    (bm && group_done (mergeWith outer bg) = false -> final = false) /\
    (bm && group_done (mergeWith outer bg) = true ->
     let sat := satisfied (mergeWith outer bg) in
     let bd := and_not (DeferredIPCIDRMatchGroups m2) sat in
     (bd = 0 /\ dest_cidr src' b = false /\
      (if dest_cidr src d then and_not ruleMatchDestinationAddress sat = ruleMatchDestinationAddress
       else final = true)) \/
     (bd = ruleMatchDestinationAddress /\ dest_cidr src' b = true /\ has_dest_address d = false)).
Proof.
  intros Hd Hb Hsrc Hpre Hsep outer final. pose proof Hpre as (_ & _ & Hsrc').
  assert (Hsd : has_dest_address d && dest_cidr src d = false)
    by (destruct (has_dest_address d), (dest_cidr src d); by rewrite ?orb_true_r in Hsep).
  assert (Hsb : has_dest_address b && dest_cidr src' b = false)
    by (destruct (has_dest_address b), (dest_cidr src' b); by rewrite ?orb_true_r in Hsep).
  pose proof (evaluate_refines d m0) as Rd. rewrite Hsrc in Rd. specialize (Rd Hd). specialize (Rd Hsd).
  pose proof (evaluate_refines b m1) as Rb. rewrite Hsrc' in Rb. specialize (Rb Hb Hsb).
  assert (Habs : dest_cidr src d || dest_cidr src' b = true ->
    has_dest_address d = false /\ has_dest_address b = false).
  { intros Hq. rewrite Hq, andb_true_r in Hsep. by apply orb_false_elim. }
  destruct (refines_ok _ _ _ _ _ (refines_or _ _ _ _ _ _ _ _ _ _ Rd Rb ltac:(
    intros Hq; destruct (Habs Hq) as [H1 H2];
    destruct (no_dest_address_absent src d m0 H1), (no_dest_address_absent src' b m1 H2); done)))
    as [Rf Rt].
  unfold evaluateForMerge. destruct (evaluateGroups_pre b src' m1 Hpre) as (m2 & -> & Hs2 & Hd2).
  rewrite (match_all_items_same _ _ _ Hs2). unfold final.
  rewrite stable_forallb by apply Hb.
  destruct (match_all_items (items b) m1); [|by exists (mkGroups 0 0), false, m2].
  eexists _, true, m2. split_and!; [done|done|..]; unfold outer; rewrite mergeWith_bits, group_done_bits; cbn [andb satisfied].
  - exact Rf.
  - intros Hok. rewrite Hd2. destruct (dest_cidr src' b) eqn:Hqb.
    + right. destruct Habs as [H1 H2]; [by rewrite orb_true_r|]. rewrite H2. cbn [negb andb].
      rewrite and_not_bits_deferred.
      destruct (no_dest_address_absent src d m0 H1) as [_ ->], (no_dest_address_absent src' b m1 H2) as [_ ->].
      done.
    + left. cbn [andb]. rewrite and_not_zero. split_and!; [done|done|].
      destruct (dest_cidr src d) eqn:Hqd.
      * destruct Habs as [H1 H2]; [done|]. rewrite and_not_bits_deferred.
        destruct (no_dest_address_absent src d m0 H1) as [_ ->], (no_dest_address_absent src' b m1 H2) as [_ ->].
        done.
      * rewrite <- Rt by done. done.
Qed.

(** What [matchWithOuterGroups] establishes for the sets still to be tried. *)
Definition outer_outcome (hdst : bool) (b no_cidr : bool) (res : bool * InboundContext)
    (final : bool) : Prop :=
  let D := DeferredIPCIDRMatchGroups res.2 in
  deferred_ok D /\
  (res.1 = false -> b = false /\ final = false) /\
  (res.1 = true -> (if hdst then 0 else D) = 0 -> final = true) /\
  (b = false -> no_cidr = true -> D = 0).

Lemma outer_outcome_skip hdst b n n' res x final :
  outer_outcome hdst b n res final -> x = false -> (n' = true -> n = true) ->
  outer_outcome hdst b n' res (x || final).
Proof. intros (H1 & H2 & H3 & H4) -> Hn. split_and!; auto. Qed.

Lemma outer_outcome_defer hdst b n n' res x final :
  outer_outcome hdst true n res final -> (n' = true -> False) ->
  outer_outcome hdst b n' res (x || final).
Proof.
  intros (H1 & H2 & H3 & _) Hn. split_and!; [done|..].
  - intros Hx. by destruct (H2 Hx).
  - intros Hx Hy. rewrite (H3 Hx Hy). by rewrite orb_true_r.
  - intros _ Hx. by destruct (Hn Hx).
Qed.

Lemma outer_outcome_return (hdst b n : bool) (res : bool * InboundContext) (x final : bool) :
  res.1 = true -> deferred_ok (DeferredIPCIDRMatchGroups res.2) ->
  ((if hdst then 0 else DeferredIPCIDRMatchGroups res.2) = 0 -> x = true) ->
  (n = true -> DeferredIPCIDRMatchGroups res.2 = 0) ->
  outer_outcome hdst b n res (x || final).
Proof.
  intros H1 H2 H3 H4. split_and!; [done|congruence|..]; [|auto]. intros _ Hx. by rewrite H3.
Qed.

Lemma outer_prepared (r : RuleSetItem (Rule I)) m0 m :
  IgnoreDestinationIPCIDRMatch m0 = true -> same_base m m0 ->
  same (prepareNestedMatch r m) (nested r m0) /\ pre (ipCidrMatchSource r) (prepareNestedMatch r m) /\
  same (resolved resp (prepareNestedMatch r m)) (nested r (resolved resp m0)).
Proof.
  intros Hi Hm. assert (Hp : same (prepareNestedMatch r m) (nested r m0)) by auto with singbox.
  split_and!; [done| |by rewrite (resolved_same _ _ Hp)].
  split_and!; [rewrite (proj2 (same_flags _ _ Hp)); exact Hi|done|done].
Qed.

Lemma outer_cidr_no_hit src d m :
  has_dest_address d && dest_cidr src d = false -> dest_cidr src d = true ->
  hit true d m GDestinationAddress = false.
Proof. intros Hsd Hq. rewrite Hq, andb_true_r in Hsd. by apply (no_dest_address_absent src). Qed.

Lemma deferred_ok_if (q : bool) : deferred_ok (if q then ruleMatchDestinationAddress else 0).
Proof. destruct q; [by right|by left]. Qed.

Section outer_step.
Context (src : bool) (d : abstractDefaultRule I) (r : RuleSetItem (Rule I)) (m0 : InboundContext).
Context (Hd : stable_items resp src d) (Hsd : has_dest_address d && dest_cidr src d = false).
Context (Hi : IgnoreDestinationIPCIDRMatch m0 = true) (Hsrc : IPCIDRMatchSource m0 = src).
Context (Hd0 : DeferredIPCIDRMatchGroups m0 = if dest_cidr src d then ruleMatchDestinationAddress else 0).
(** The rest of the loop, for the sets that follow. *)
Context (k : InboundContext -> bool -> Z -> bool * InboundContext) (rest no_cidr : bool).
Context (Hk : forall m b z, same_base m m0 -> accumulated b z -> (b = true -> has_dest_address d = false) ->
  outer_outcome (hit true d m0 GDestinationAddress) b (negb (dest_cidr src d) && no_cidr) (k m b z) rest).

(** A rule-set that is a condition of its own. *)
Lemma independent_set_step rules m b z :
  Forall sound rules -> Forall (stable_rule resp (ipCidrMatchSource r)) rules ->
  implb (has_dest_address d) (forallb (no_dest_cidr (ipCidrMatchSource r)) rules) = true ->
  forallb (deferrable (ipCidrMatchSource r)) rules = true ->
  same_base m m0 -> accumulated b z -> (b = true -> has_dest_address d = false) ->
  outer_outcome (hit true d m0 GDestinationAddress) b
    (negb (dest_cidr src d) && (forallb (no_dest_cidr (ipCidrMatchSource r)) rules && no_cidr))
    (if groups_ok (present true src d) (hit true d m0) then
       let '(ok, m2) := matchAnyHeadlessRule Match rules (prepareNestedMatch r m) in
       if ok then
         if DeferredIPCIDRMatchGroups m2 =? 0 then (true, restore (snapshotRuleMatch m0) m2)
         else k m2 true (Z.lor z (DeferredIPCIDRMatchGroups m2))
       else k m2 b z
     else k (prepareNestedMatch r m) b z)
    (groups_ok (present false src d) (hit false d (resolved resp m0)) &&
     existsb (fun rule => sat rule (nested r (resolved resp m0))) rules || rest).
Proof using H0 Hd Hsd Hi Hsrc Hd0 Hk.
  intros Hs Hst Himp Hdef Hm Hacc Hb. destruct (outer_prepared r m0 m Hi Hm) as (Hp & Hpp & Hrp).
  pose proof (outer_cidr_no_hit src d m0 Hsd) as Hnh.
  pose proof (evaluate_refines d m0) as Rd. rewrite Hsrc in Rd. specialize (Rd Hd).
  destruct (refines_ok _ _ _ _ _ (Rd Hsd)) as [Rf Rt].
  assert (Hn : forall x y, negb (dest_cidr src d) && (x && y) = true -> negb (dest_cidr src d) && y = true)
    by (intros [] []; by rewrite ?andb_false_r).
  destruct (groups_ok (present true src d) _).
  2:{ eapply outer_outcome_skip; [apply Hk; eauto with singbox|by rewrite Rf|apply Hn]. }
  destruct (matchAnyHeadlessRule_loop_sound (ipCidrMatchSource r) (prepareNestedMatch r m) rules
    (prepareNestedMatch r m) false 0) as (Hok & Hf & Ht & Hnc); [done..|].
  rewrite (existsb_ext_in _ (fun rule => sat rule (nested r (resolved resp m0)))) in Hf, Ht
    by (intros; by apply sat_same).
  pose proof (matchAnyHeadlessRule_same Match rules (prepareNestedMatch r m) (all_framed _)) as Hfr.
  unfold matchAnyHeadlessRule in *. destruct (matchAnyHeadlessRule_loop _ _ _ _ _ _) as [ok m2].
  cbn [fst snd] in *. rewrite Hp in Hfr. destruct ok.
  - destruct (DeferredIPCIDRMatchGroups m2 =? 0) eqn:Hz.
    + apply Z.eqb_eq in Hz. apply outer_outcome_return; cbn [snd fst]; rewrite ?Deferred_restore, ?Hd0.
      * done.
      * apply deferred_ok_if.
      * destruct (dest_cidr src d) eqn:Hq; [by rewrite Hnh|].
        intros _. by rewrite <- Rt, Ht.
      * by destruct (dest_cidr src d).
    + assert (Hda : has_dest_address d = false).
      { destruct (has_dest_address d); [|done]. cbn in Himp. by rewrite Hnc in Hz. }
      eapply outer_outcome_defer; [apply Hk; eauto with singbox|].
      intros Hx. apply andb_true_iff in Hx as [_ Hx]. apply andb_true_iff in Hx as [Hx _].
      by rewrite Hnc in Hz.
  - eapply outer_outcome_skip; [apply Hk; eauto with singbox| |apply Hn].
    destruct Hf as [_ ->]; [done|]. apply andb_false_r.
Qed.

(** A rule-set that joins the groups of the rule. *)
Lemma merged_set_step br m b z :
  stable_items resp (ipCidrMatchSource r) br ->
  (has_dest_address d || has_dest_address br) && (dest_cidr src d || dest_cidr (ipCidrMatchSource r) br) = false ->
  same_base m m0 -> accumulated b z -> (b = true -> has_dest_address d = false) ->
  let outerGroups := mkGroups (bits (present true src d)) (bits (hit true d m0)) in
  outer_outcome (hit true d m0 GDestinationAddress) b
    (negb (dest_cidr src d) && (negb (dest_cidr (ipCidrMatchSource r) br) && no_cidr))
    (let '(branchGroups, branchMatched, m2) := evaluateForMerge br (prepareNestedMatch r m) in
     if branchMatched then
       let merged := mergeWith outerGroups branchGroups in
       if group_done merged then
         let bd := and_not (DeferredIPCIDRMatchGroups m2) (satisfied merged) in
         if bd =? 0 then
           let m3 := restore (snapshotRuleMatch m0) m2 in
           (true, set_DeferredIPCIDRMatchGroups m3 (and_not (DeferredIPCIDRMatchGroups m3) (satisfied merged)))
         else k m2 true (Z.lor z bd)
       else k m2 b z
     else k m2 b z)
    (match_all_items (items br) (nested r (resolved resp m0)) &&
     groups_ok (fun g => present false src d g || present false (ipCidrMatchSource r) br g)
       (fun g => hit false d (resolved resp m0) g || hit false br (nested r (resolved resp m0)) g) || rest).
Proof using H0 Hd Hsd Hi Hsrc Hd0 Hk.
  intros Hbr Hsep Hm Hacc Hb outerGroups. destruct (outer_prepared r m0 m Hi Hm) as (Hp & Hpp & Hrp).
  pose proof (outer_cidr_no_hit src d m0 Hsd) as Hnh.
  destruct (merge_branch_sound src _ d br m0 _ Hd Hbr Hsrc Hpp Hsep) as (bg & bm & m2 & -> & Hs2 & Hf & Ht).
  fold outerGroups in Hf, Ht. rewrite Hp in Hs2.
  rewrite (match_all_items_same _ _ _ Hrp) in Hf, Ht.
  assert (He : forall g, hit false d (resolved resp m0) g || hit false br (resolved resp (prepareNestedMatch r m)) g =
    hit false d (resolved resp m0) g || hit false br (nested r (resolved resp m0)) g)
    by (intros; by rewrite (hit_same _ _ _ _ _ Hrp)).
  rewrite (groups_ok_ext _ _ _ _ (fun _ => eq_refl) He) in Hf, Ht.
  assert (Hn : forall x y, negb (dest_cidr src d) && (x && y) = true -> negb (dest_cidr src d) && y = true)
    by (intros [] []; by rewrite ?andb_false_r).
  destruct bm; cbn [andb] in Hf, Ht; cbn zeta.
  2:{ eapply outer_outcome_skip; [apply Hk; eauto with singbox|by apply Hf|apply Hn]. }
  destruct (group_done _).
  2:{ eapply outer_outcome_skip; [apply Hk; eauto with singbox|by apply Hf|apply Hn]. }
  specialize (Ht eq_refl). cbn zeta in Ht. destruct Ht as [(-> & Hq & Hx)|(-> & Hq & Hda)].
  - cbn [Z.eqb]. apply outer_outcome_return; cbn [fst snd]; rewrite ?Deferred_set, ?Deferred_restore, ?Hd0;
      (destruct (dest_cidr src d) eqn:Hqd; [rewrite ?Hx|rewrite ?and_not_zero]); try done.
    + by right.
    + by left.
    + by rewrite Hnh.
  - eapply outer_outcome_defer; [apply Hk; eauto with singbox|]. rewrite Hq. by rewrite andb_false_r.
Qed.
End outer_step.

Definition sets_no_cidr (r : RuleSetItem (Rule I)) (sets : list (RuleSet (Rule I))) : bool :=
  forallb (fun rs => forallb (no_dest_cidr (ipCidrMatchSource r)) (rs_rules rs)) sets.

Lemma matchWithOuterGroups_loop_sound src d r m0 sets m b z :
  stable_items resp src d -> has_dest_address d && dest_cidr src d = false ->
  IgnoreDestinationIPCIDRMatch m0 = true -> IPCIDRMatchSource m0 = src ->
  DeferredIPCIDRMatchGroups m0 = (if dest_cidr src d then ruleMatchDestinationAddress else 0) ->
  Forall (fun s => Forall sound (rs_rules s)) sets ->
  forallb (set_deferrable deferrable src d r) sets = true ->
  Forall (fun s => Forall (stable_rule resp (ipCidrMatchSource r)) (rs_rules s)) sets ->
  same_base m m0 -> accumulated b z -> (b = true -> has_dest_address d = false) ->
  outer_outcome (hit true d m0 GDestinationAddress) b
    (negb (dest_cidr src d) && sets_no_cidr r sets)
    (matchWithOuterGroups_loop Match r
       (mkGroups (bits (present true src d)) (bits (hit true d m0)))
       (snapshotRuleMatch m0) sets m b z)
    (existsb (set_sat sat d r (resolved resp m0)) sets).
Proof.
  intros Hd Hsd Hi Hsrc Hd0 Hsound Hdef Hst. revert m b z.
  induction Hsound as [|s sets Hs _ IH]; intros m b z Hm Hacc Hb.
  { unfold accumulated in Hacc. subst z. cbn. destruct b; cbn; split_and!; cbn; try done;
      rewrite ?Deferred_restore, ?Hd0.
    - apply deferred_ok_lor; [apply deferred_ok_if|by right].
    - destruct (no_dest_address_absent src d m0 (Hb eq_refl)) as [_ ->]. by case_match.
    - apply deferred_ok_if.
    - intros _ Hn. by destruct (dest_cidr src d). }
  cbn in Hdef. apply andb_true_iff in Hdef as [Hdef1 Hdef]. apply Forall_cons in Hst as [Hst1 Hst].
  specialize (IH Hdef Hst). unfold set_deferrable in Hdef1. cbn. unfold set_sat at 1.
  change (IPCIDRMatchSource (resolved resp m0)) with (IPCIDRMatchSource m0). rewrite Hsrc.
  destruct (mergeableRuleIn (rs_rules s)) as [br|] eqn:Hbr.
  - apply mergeableRuleIn_Some in Hbr. rewrite Hbr in *. apply Forall_cons in Hst1 as [[Hst1 _] _].
    cbn. rewrite !andb_true_r. apply negb_true_iff in Hdef1.
    by apply merged_set_step.
  - apply andb_true_iff in Hdef1 as [Himp Hdef1]. rewrite group_done_bits. by apply independent_set_step.
Qed.

(** The end of [matchInner], on the metadata [m1] the groups were evaluated with. *)
Section inner_end.
Context (src : bool) (d : abstractDefaultRule I) (m1 : InboundContext).
Context (Hd : stable_items resp src d) (Hsd : has_dest_address d && dest_cidr src d = false).
Context (Hi : IgnoreDestinationIPCIDRMatch m1 = true) (Hsrc : IPCIDRMatchSource m1 = src).
Context (Hd1 : DeferredIPCIDRMatchGroups m1 = if dest_cidr src d then ruleMatchDestinationAddress else 0).

Lemma inner_end_groups :
  outcome (if groups_ok (present true src d) (hit true d m1)
           then (true, set_DeferredIPCIDRMatchGroups m1
                         (and_not (DeferredIPCIDRMatchGroups m1) (bits (hit true d m1))))
           else (false, m1))
    (groups_ok (present false src d) (hit false d (resolved resp m1))) /\
  (negb (dest_cidr src d) = true ->
   DeferredIPCIDRMatchGroups
     (if groups_ok (present true src d) (hit true d m1)
      then (true, set_DeferredIPCIDRMatchGroups m1
                    (and_not (DeferredIPCIDRMatchGroups m1) (bits (hit true d m1))))
      else (false, m1)).2 = 0).
Proof using Hd Hsd Hsrc Hd1.
  pose proof (evaluate_refines d m1) as Rd. rewrite Hsrc in Rd. specialize (Rd Hd).
  destruct (refines_ok _ _ _ _ _ (Rd Hsd)) as [Rf Rt].
  pose proof (outer_cidr_no_hit src d m1 Hsd) as Hnh.
  destruct (groups_ok (present true src d) _); unfold outcome; cbn [fst snd]; rewrite ?Deferred_set, ?Hd1.
  - destruct (dest_cidr src d).
    + rewrite and_not_bits_deferred, Hnh by done. split; [split_and!; try done; by right|done].
    + rewrite and_not_zero, <- Rt by done. split; [split_and!; try done; by left|done].
  - rewrite Rf by done. split; [split_and!; try done; apply deferred_ok_if|by destruct (dest_cidr src d)].
Qed.

Lemma inner_end_rule_set r :
  Forall (fun s => Forall sound (rs_rules s)) (setList r) ->
  forallb (set_deferrable deferrable src d r) (setList r) = true ->
  Forall (fun s => Forall (stable_rule resp (ipCidrMatchSource r)) (rs_rules s)) (setList r) ->
  let groups := mkGroups (bits (present true src d)) (bits (hit true d m1)) in
  let res := let '(matched, m2) := matchWithOuterGroups Match r m1 groups in
    if matched
    then (true, set_DeferredIPCIDRMatchGroups m2 (and_not (DeferredIPCIDRMatchGroups m2) (satisfied groups)))
    else (false, m2) in
  outcome res (existsb (set_sat sat d r (resolved resp m1)) (setList r)) /\
  (negb (dest_cidr src d) && sets_no_cidr r (setList r) = true -> DeferredIPCIDRMatchGroups res.2 = 0).
Proof using H0 Hd Hsd Hi Hsrc Hd1.
  intros Hs Hdef Hst groups.
  pose proof (matchWithOuterGroups_loop_sound src d r m1 (setList r) m1 false 0 Hd Hsd Hi Hsrc Hd1 Hs
    Hdef Hst ltac:(done) ltac:(done) ltac:(done)) as (Hok & Hf & Ht & Hn).
  unfold matchWithOuterGroups. fold groups in Hok, Hf, Ht, Hn.
  destruct (matchWithOuterGroups_loop _ _ _ _ _ _ _ _) as [b m2]. unfold outcome.
  cbn [fst snd satisfied groups] in *. destruct b; cbn [snd fst]; rewrite ?Deferred_set.
  - assert (He : and_not (DeferredIPCIDRMatchGroups m2) (bits (hit true d m1)) =
      if hit true d m1 GDestinationAddress then 0 else DeferredIPCIDRMatchGroups m2).
    { destruct Hok as [-> | ->]; [rewrite and_not_zero; by case_match|apply and_not_bits_deferred]. }
    split; [split_and!; [by apply deferred_ok_and_not|done|]|].
    + intros _. rewrite He. auto.
    + intros Hx. rewrite Hn by done. apply and_not_zero.
  - split; [split_and!; [done| |done]|]; [|by auto]. intros _. by apply Hf.
Qed.
End inner_end.

(** What the rule-sets of a default rule must satisfy. *)
Definition sets_sound (src : bool) d (ri : option (RuleSetItem (Rule I))) : Prop :=
  forall r, ri = Some r ->
    Forall (fun s => Forall sound (rs_rules s)) (setList r) /\
    forallb (set_deferrable deferrable src d r) (setList r) = true /\
    Forall (fun s => Forall (stable_rule resp (ipCidrMatchSource r)) (rs_rules s)) (setList r).

Definition default_no_cidr (src : bool) d (ri : option (RuleSetItem (Rule I))) : bool :=
  negb (dest_cidr src d) && match ri with None => true | Some r => sets_no_cidr r (setList r) end.

Lemma matchInner_sound src d ri m :
  stable_items resp src d -> has_dest_address d && dest_cidr src d = false -> pre src m -> sets_sound src d ri ->
  outcome (matchInner Match d ri m)
    (match_all_items (items d) (resolved resp m) &&
     match ri with
     | None => groups_ok (present false src d) (hit false d (resolved resp m))
     | Some r => existsb (set_sat sat d r (resolved resp m)) (setList r)
     end) /\
  (default_no_cidr src d ri = true -> DeferredIPCIDRMatchGroups (matchInner Match d ri m).2 = 0).
Proof.
  intros Hd Hsd Hp Hri. pose proof Hp as (Hi & _ & Hsrc). unfold default_no_cidr.
  unfold matchInner. destruct (evaluateGroups_pre d src m Hp) as (m1 & -> & Hs1 & Hd1).
  destruct (same_flags _ _ Hs1) as [Hsrc1 Hi1]. rewrite Hsrc in Hsrc1. rewrite Hi in Hi1.
  assert (Hd1' : DeferredIPCIDRMatchGroups m1 = if dest_cidr src d then ruleMatchDestinationAddress else 0).
  { rewrite Hd1. by destruct (dest_cidr src d), (has_dest_address d). }
  rewrite (match_all_items_same _ _ _ Hs1), stable_forallb by apply Hd.
  destruct (match_all_items (items d) m); cbn [andb].
  2:{ split; [split_and!; [cbn; rewrite Hd1'; apply deferred_ok_if|done|done]|].
      cbn. rewrite Hd1'. by destruct (dest_cidr src d). }
  rewrite (bits_ext (hit true d m) (hit true d m1)) by (intros; symmetry; by apply hit_same).
  pose proof (resolved_same _ _ Hs1) as Hr1. destruct ri as [r|].
  - destruct (Hri r eq_refl) as (Hs & Hdef & Hst).
    pose proof (inner_end_rule_set src d m1 Hd Hsd Hi1 Hsrc1 Hd1' r Hs Hdef Hst) as Hend.
    rewrite (existsb_ext_in _ (set_sat sat d r (resolved resp m))) in Hend; [exact Hend|].
    intros. apply set_sat_view; [apply all_viewed|auto with singbox].
  - rewrite group_done_bits, andb_true_r.
    rewrite (groups_ok_ext (present false src d) (present false src d) _ (hit false d (resolved resp m1)));
      [|done|intros; symmetry; by apply hit_same].
    by apply inner_end_groups.
Qed.

Lemma abstractDefaultRule_Match_sound src d ri m :
  stable_items resp src d -> has_dest_address d && dest_cidr src d = false -> pre src m -> sets_sound src d ri ->
  outcome (abstractDefaultRule_Match Match d ri m) (default_sat sat d ri (resolved resp m)) /\
  (default_no_cidr src d ri = true ->
   DeferredIPCIDRMatchGroups (abstractDefaultRule_Match Match d ri m).2 = 0).
Proof.
  intros Hd Hsd Hp Hri. unfold abstractDefaultRule_Match, default_sat. pose proof Hp as (_ & Hd0 & Hsrc).
  case_match; [split; [split_and!; try done; by left|done]|].
  destruct (matchInner_sound src d ri m Hd Hsd Hp Hri) as [(Hok & Hf & Ht) Hn].
  change (IPCIDRMatchSource (resolved resp m)) with (IPCIDRMatchSource m). rewrite Hsrc.
  destruct (matchInner _ _ _ _) as [b m1]. unfold outcome. cbn [fst snd] in *.
  destruct (invert d), b; cbn [negb fst snd xorb]; rewrite ?Deferred_set.
  - split; [|done]. split_and!; [done|..].
    + intros Hz. apply negb_false_iff, Z.eqb_eq in Hz. by rewrite Ht.
    + intros Hz Hz'. by rewrite Hz' in Hz.
  - rewrite Hf by done. split; [split_and!; try done; by left|done].
  - split; [|done]. rewrite ?xorb_false_l. by split_and!.
  - split; [|done]. rewrite ?xorb_false_l. by split_and!.
Qed.

(** One sub-rule of a logical rule. *)
Lemma logical_step r m0 m :
  sound r -> deferrable false r = true -> stable_rule resp false r ->
  IgnoreDestinationIPCIDRMatch m0 = true -> same_base m m0 ->
  outcome (Match r (ResetRuleCache m)) (sat r (unflagged (resolved resp m0))) /\
  (no_dest_cidr false r = true -> DeferredIPCIDRMatchGroups (Match r (ResetRuleCache m)).2 = 0) /\
  same_base (Match r (ResetRuleCache m)).2 m0.
Proof.
  intros Hr Hdef Hst Hi Hm.
  assert (Hs : same (ResetRuleCache m) (unflagged m0)) by auto with singbox.
  destruct (Hr false (ResetRuleCache m) Hdef Hst) as [Ho Hn].
  { split_and!; [rewrite (proj2 (same_flags _ _ Hs)); exact Hi|done|done]. }
  rewrite (sat_same _ _ _ (resolved_same _ _ Hs)) in Ho. split_and!; [exact Ho|exact Hn|].
  apply same_base_unflagged. by rewrite Match_same.
Qed.

Lemma logical_and_loop_sound m0 rules m z :
  Forall sound rules -> forallb (deferrable false) rules = true -> Forall (stable_rule resp false) rules ->
  IgnoreDestinationIPCIDRMatch m0 = true -> same_base m m0 -> deferred_ok z ->
  exists b z' m1, logical_and_loop Match rules m z = (b, z', m1) /\ deferred_ok z' /\
    let final := forallb (fun r => sat r (unflagged (resolved resp m0))) rules in
    (b = false -> final = false) /\
    (b = true -> z' = 0 -> final = true /\ z = 0) /\
    (forallb (no_dest_cidr false) rules = true -> z = 0 -> z' = 0).
Proof.
  intros Hr Hdef Hst Hi. revert m z. induction Hr as [|r rules Hr _ IH]; intros m z Hm Hz.
  { cbn. exists true, z, m. by split_and!. }
  cbn in Hdef. apply andb_true_iff in Hdef as [Hdef1 Hdef]. apply Forall_cons in Hst as [Hst1 Hst].
  destruct (logical_step r m0 m Hr Hdef1 Hst1 Hi Hm) as ((Hok & Hf & Ht) & Hn & Hb).
  cbn. destruct (Match r _) as [ok m1]. cbn [fst snd] in *. destruct ok; cbn [negb].
  - destruct (IH Hdef Hst m1 (Z.lor z (DeferredIPCIDRMatchGroups m1))) as (b & z' & m2 & -> & H1 & H2 & H3 & H4);
      [done|by apply deferred_ok_lor|].
    exists b, z', m2. split_and!; [done|done|..].
    + intros Hb'. rewrite H2 by done. apply andb_false_r.
    + intros Hb' Hz'. destruct (H3 Hb' Hz') as [-> Hl]. apply Z.lor_eq_0_iff in Hl as [Hl1 Hl2].
      by rewrite Ht.
    + intros Hnc ->. apply andb_true_iff in Hnc as [Hnc1 Hnc]. apply H4; [done|]. by rewrite Hn.
  - exists false, 0, m1. split_and!; try done; [by left|]. by rewrite Hf.
Qed.

Lemma logical_or_loop_sound m0 rules m b z :
  Forall sound rules -> forallb (deferrable false) rules = true -> Forall (stable_rule resp false) rules ->
  IgnoreDestinationIPCIDRMatch m0 = true -> same_base m m0 -> accumulated b z ->
  exists b' z' m1, logical_or_loop Match rules m b z = (b', z', m1) /\ deferred_ok z' /\
    let final := existsb (fun r => sat r (unflagged (resolved resp m0))) rules in
    (b' = false -> b = false /\ final = false) /\
    (b' = true -> z' = 0 -> final = true) /\
    (b = false -> forallb (no_dest_cidr false) rules = true -> z' = 0).
Proof.
  intros Hr Hdef Hst Hi. revert m b z. induction Hr as [|r rules Hr _ IH]; intros m b z Hm Hz.
  { cbn. exists b, z, m. rewrite Hz. split_and!; try done; [apply deferred_ok_if|..]; by intros ->. }
  cbn in Hdef. apply andb_true_iff in Hdef as [Hdef1 Hdef]. apply Forall_cons in Hst as [Hst1 Hst].
  destruct (logical_step r m0 m Hr Hdef1 Hst1 Hi Hm) as ((Hok & Hf & Ht) & Hn & Hb).
  cbn. destruct (Match r _) as [ok m1]. cbn [fst snd] in *. destruct ok.
  - destruct (DeferredIPCIDRMatchGroups m1 =? 0) eqn:Hz1.
    { apply Z.eqb_eq in Hz1. exists true, 0, m1. rewrite Ht by done. split_and!; try done. by left. }
    destruct (IH Hdef Hst m1 true (Z.lor z (DeferredIPCIDRMatchGroups m1))) as (b' & z' & m2 & -> & H1 & H2 & H3 & H4);
      [done|eauto with singbox|].
    exists b', z', m2. split_and!; [done|done|..].
    + intros Hx. by destruct (H2 Hx).
    + intros Hx Hy. rewrite H3 by done. by rewrite orb_true_r.
    + intros _ Hnc. apply andb_true_iff in Hnc as [Hnc _]. by rewrite Hn in Hz1.
  - destruct (IH Hdef Hst m1 b z) as (b' & z' & m2 & -> & H1 & H2 & H3 & H4); [done|done|].
    exists b', z', m2. rewrite Hf by done. split_and!; try done.
    intros Hx Hnc. apply andb_true_iff in Hnc as [_ Hnc]. auto.
Qed.

Lemma abstractLogicalRule_Match_sound src mode rules inv m :
  Forall sound rules -> forallb (deferrable false) rules = true -> Forall (stable_rule resp false) rules ->
  pre src m ->
  outcome (abstractLogicalRule_Match Match mode rules inv m)
    (sat (RLogical mode rules inv) (resolved resp m)) /\
  (forallb (no_dest_cidr false) rules = true ->
   DeferredIPCIDRMatchGroups (abstractLogicalRule_Match Match mode rules inv m).2 = 0).
Proof.
  intros Hr Hdef Hst (Hi & Hd & _). unfold abstractLogicalRule_Match. cbn [sat].
  set (final := if bool_decide _ then forallb _ _ else _).
  assert (Hl : exists b z m1, (if bool_decide (mode = "and"%string) then logical_and_loop Match rules m 0
      else logical_or_loop Match rules m false 0) = (b, z, m1) /\ deferred_ok z /\
    (b = false -> final = false) /\ (b = true -> z = 0 -> final = true) /\
    (forallb (no_dest_cidr false) rules = true -> z = 0)).
  { unfold final. destruct (bool_decide (mode = "and"%string)).
    - destruct (logical_and_loop_sound m rules m 0) as (b & z & m1 & -> & H1 & H2 & H3 & H4); try done; [by left|].
      exists b, z, m1. split_and!; auto. intros Hx Hy. by destruct (H3 Hx Hy).
    - destruct (logical_or_loop_sound m rules m false 0) as (b & z & m1 & -> & H1 & H2 & H3 & H4); try done.
      exists b, z, m1. split_and!; auto. intros Hx. by destruct (H2 Hx). }
  destruct Hl as (b & z & m1 & -> & Hok & Hf & Ht & Hn). unfold outcome.
  destruct b; cbn [negb]; destruct inv; cbn [fst snd]; rewrite ?Deferred_set, ?Deferred_restore, Hd, ?Z.lor_0_l.
  - split; [split_and!; [done|..]|done].
    + intros Hz. apply negb_false_iff, Z.eqb_eq in Hz. by rewrite Ht.
    + intros Hz ->. done.
  - split; [|done]. split_and!; [done|done|]. intros _ Hz. by rewrite Ht.
  - rewrite Hf by done. split; [split_and!; try done; by left|done].
  - rewrite Hf by done. split; [split_and!; try done; by left|done].
Qed.

Lemma Match_sound (r : Rule I) : sound r.
Proof.
  induction r as [kind d ri IH|mode rules inv IH] using Rule_nested_ind; intros src m Hdef Hst Hp.
  - cbn in Hdef. apply andb_true_iff in Hdef as [Hdef Hsets]. apply andb_true_iff in Hdef as [Hk Hsd].
    apply negb_true_iff in Hsd. destruct Hst as [Hd Hst].
    assert (Hs : sets_sound src d ri).
    { intros r ->. split_and!; [by apply IH|done|]. apply foldr_and in Hst.
      eapply Forall_impl; [exact Hst|]. intros s. apply foldr_and. }
    pose proof (abstractDefaultRule_Match_sound src d ri m Hd Hsd Hp Hs) as Hm.
    by destruct kind as [| |[] tag].
  - cbn [stable_rule deferrable] in *. apply foldr_and in Hst. by apply (abstractLogicalRule_Match_sound src).
Qed.
End defer.
