(* ===== verification/RuleItems.v ===== *)
(** * Rule items

    The items of [src/route/rule/rule_item_*.go] and the interface address items
    next to them: how each is built from its options and how it decides a
    metadata record.  The library code the items call (matchers, the address set
    builder, socket address predicates) and the state of the network manager are
    fields of the class [Env].  The textual description of an item is not
    modelled. *)

From stdpp Require Import base gmap strings list pretty.
From Stdlib Require Import ZArith Lia.
From S2P Require Import Prelude Net GoStrings Metadata Codec IPSet RuleMatch.

Open Scope Z_scope.

(** ** Environment *)

(** [control.Interface] and [adapter.NetworkInterface]. *)
Record Interface : Type := mkInterface {
  if_Name : string;
  if_Addresses : list Prefix
}.

Record NetworkInterface : Type := mkNetworkInterface {
  ni_Interface : Interface;
  ni_Type : Z;
  ni_Expensive : bool;
  ni_Constrained : bool
}.

(** [tun.DefaultInterfaceMonitor] *)
Record InterfaceMonitor : Type := mkInterfaceMonitor {
  mon_DefaultInterface : option Interface;
  mon_MyInterfaces : list string
}.

(** A DNS transport, as far as items look at it: its type, its configuration
    (servers and search domains) if it has one, and its preferred domains. *)
Record DNSTransport : Type := mkDNSTransport {
  tr_Type : string;
  tr_Configuration : option (list Addr * list string);
  tr_PreferredDomain : option (string -> bool)
}.

(** An outbound with preferred routes. *)
Record PreferredRoutes : Type := mkPreferredRoutes {
  pr_PreferredDomain : ConnFields -> string -> bool;
  pr_PreferredAddress : ConnFields -> Addr -> bool
}.

Record Outbound : Type := mkOutbound {
  out_Type : string;
  out_PreferredRoutes : option PreferredRoutes
}.

Class Env : Type := {
  #[global] env_GoUnicode :: GoUnicode;
  IsAndroid : bool;
  (* sing: metadata, network, domain *)
  IsDomain : Socksaddr -> bool;
  IsIP : Socksaddr -> bool;
  IsIPv6 : Socksaddr -> bool;
  IsPublicAddr : Addr -> bool;
  AddrFromIP : list Z -> Addr;
  NewMatcher : list string -> list string -> bool -> string -> bool;
  NewAdGuardMatcher : list string -> string -> bool;
  (* netipx: the ranges of the set of some prefixes *)
  BuildIPSet : list Prefix -> result (list (Addr * Addr));
  (* miekg/dns *)
  CanonicalName : string -> string;
  IsDuplicate : RR -> RR -> bool;
  (* regexp *)
  Compile : string -> result (string -> bool);
  (* the network manager, the clash mode manager, the DNS transports *)
  DefaultNetworkInterface : option NetworkInterface;
  NetworkInterfaces : list NetworkInterface;
  Monitor : option InterfaceMonitor;
  FinderInterfaces : list Interface;
  WIFIState_SSID : string;
  WIFIState_BSSID : string;
  ClashMode : option string;
  Transport : string -> option DNSTransport;
  OutboundByTag : string -> option Outbound
}.

(** [C.DomainMatchStrategy] *)
Definition DomainMatchStrategyAsIS : Z := 0.
Definition DomainMatchStrategyPreferFQDN : Z := 1.
Definition DomainMatchStrategyPreferSniffHost : Z := 2.
Definition DomainMatchStrategyFQDNOnly : Z := 3.
Definition DomainMatchStrategySniffHostOnly : Z := 4.

(** [C.InterfaceType] *)
Definition InterfaceTypeWIFI : Z := 0.
Definition InterfaceTypeCellular : Z := 1.
Definition InterfaceTypeEthernet : Z := 2.
Definition InterfaceTypeOther : Z := 3.

Record rangeItem : Type := mkRangeItem { start : Z; end_ : Z }.

(** ** The items *)

Inductive Item : Type :=
| InboundItem (inboundMap : gmap string bool)
| IPVersionItem (isIPv6 : bool)
| AuthUserItem (userMap : gmap string bool)
| ProtocolItem (protocolMap : gmap string bool)
| ClientItem (clientMap : gmap string bool)
| NetworkItem (networkMap : gmap string bool)
| QueryTypeItem (typeMap : gmap Z bool)
| QueryClientSubnetItem (prefixes : list Prefix)
| QueryDNSSECItem
| DomainItem (matcher : string -> bool) (domainMatchStrategy : Z)
| DomainKeywordItem (keywords : list string) (domainMatchStrategy : Z)
| DomainRegexItem (matchers : list (string -> bool)) (domainMatchStrategy : Z)
| AdGuardDomainItem (matcher : string -> bool) (domainMatchStrategy : Z)
| IPCIDRItem (ipSet : Set_) (isSource : bool)
| IPIsPrivateItem (isSource : bool)
| IPAcceptAnyItem
| PortItem (portMap : gmap Z bool) (isSource : bool)
| PortRangeItem (isSource : bool) (portRangeList : list rangeItem)
| ProcessItem (processMap : gmap string bool)
| ProcessPathItem (processMap : gmap string bool)
| ProcessPathRegexItem (matchers : list (string -> bool))
| PackageNameItem (packageMap : gmap string bool)
| PackageNameRegexItem (matchers : list (string -> bool))
| UserItem (userMap : gmap string bool)
| UserIdItem (userIdMap : gmap Z bool)
| ClashModeItem (modes : list string)
| NetworkTypeItem (networkType : list Z)
| NetworkIsExpensiveItem
| NetworkIsConstrainedItem
| WIFISSIDItem (ssidMap : gmap string bool)
| WIFIBSSIDItem (bssidMap : gmap string bool)
| InterfaceAddressItem (interfaceAddresses : gmap string (list Prefix))
| NetworkInterfaceAddressItem (interfaceAddresses : gmap Z (list Prefix))
| DefaultInterfaceAddressItem (interfaceAddresses : list Prefix)
| SourceMACAddressItem (addressMap : gmap string bool)
| SourceHostnameItem (hostnameMap : gmap string bool)
| OutboundItem (outboundMap : gmap string bool) (matchAny : bool)
| PreferredByItem (outbounds : list PreferredRoutes) (domainMatchStrategy : Z)
| PreferredByDNSItem (transports : list (string -> bool))
| DNSServerAddressItem (transports : list (list Addr)) (serverAddresses : list (list Prefix))
| DNSSearchDomainItem (transports : list (list string)) (searchDomains : list (list string))
| DNSResponseRCodeItem (rcode : Z)
| DNSResponseRecordItem (records : list RR) (selector : Msg -> list RR).

Section items.
Context `{Env}.
Implicit Types (m : InboundContext).

(** ** Constructors *)

Definition NewInboundRule (inbounds : list string) : Item := InboundItem (set_of_list inbounds).
Definition NewIPVersionItem (isIPv6 : bool) : Item := IPVersionItem isIPv6.
Definition NewAuthUserItem (users : list string) : Item := AuthUserItem (set_of_list users).
Definition NewProtocolItem (protocols : list string) : Item := ProtocolItem (set_of_list protocols).
Definition NewClientItem (clients : list string) : Item := ClientItem (set_of_list clients).
Definition NewNetworkItem (networks : list string) : Item := NetworkItem (set_of_list networks).
Definition NewQueryTypeItem (typeList : list Z) : Item := QueryTypeItem (set_of_list typeList).
Definition NewQueryClientSubnetItem (prefixables : list Prefix) : Item := QueryClientSubnetItem prefixables.

Definition NewDomainItem (domains domainSuffixes : list string) (strategy : Z) : result Item :=
  if bool_decide (""%string ∈ domains) then Err (ENew "domain: empty item is not allowed")
  else if bool_decide (""%string ∈ domainSuffixes) then Err (ENew "domain_suffix: empty item is not allowed")
  else Ok (DomainItem (NewMatcher domains domainSuffixes false) strategy).

Definition NewRawDomainItem (matcher : string -> bool) (strategy : Z) : Item := DomainItem matcher strategy.

Definition NewDomainKeywordItem (keywords : list string) (strategy : Z) : Item :=
  DomainKeywordItem keywords strategy.

(** The loop that compiles the expressions of a regex item. *)
Fixpoint compile_all (i : Z) (expressions : list string) : result (list (string -> bool)) :=
  match expressions with
  | [] => Ok []
  | regex :: rest =>
      match Compile regex with
      | Err err => Err (ECause err ("parse expression " +:+ pretty i))
      | Ok matcher => try matchers <- compile_all (i + 1) rest; Ok (matcher :: matchers)
      end
  end.

Definition NewDomainRegexItem (expressions : list string) (strategy : Z) : result Item :=
  try matchers <- compile_all 0 expressions; Ok (DomainRegexItem matchers strategy).

Definition NewAdGuardDomainItem (ruleLines : list string) (strategy : Z) : Item :=
  AdGuardDomainItem (NewAdGuardMatcher ruleLines) strategy.

Definition NewRawAdGuardDomainItem (matcher : string -> bool) (strategy : Z) : Item :=
  AdGuardDomainItem matcher strategy.

Definition NewIPCIDRItem (isSource : bool) (prefixables : list Prefix) : result Item :=
  try ranges <- BuildIPSet prefixables; Ok (IPCIDRItem (FromIPSet ranges) isSource).

Definition NewRawIPCIDRItem (isSource : bool) (ipSet : Set_) : Item := IPCIDRItem ipSet isSource.

Definition NewPortItem (isSource : bool) (ports : list Z) : Item := PortItem (set_of_list ports) isSource.

Definition ErrBadPortRange : error := ENew "bad port range".

(** One round of the loop of [NewPortRangeItem]. *)
Definition parsePortRange (portRange : string) : result rangeItem :=
  match Index portRange ":" with
  | None => Err (EExtend ErrBadPortRange portRange)
  | Some subIndex =>
      let bad err := ECauseError err (EExtend ErrBadPortRange portRange) in
      try start <-
        (if (0 <? subIndex)%nat
         then result_map_err bad (ParseUint10 (String.substring 0 subIndex portRange) 16)
         else Ok 0);
      try end_ <-
        (if (subIndex =? String.length portRange - 1)%nat then Ok 65535
         else result_map_err bad
                (ParseUint10 (String.substring (S subIndex) (String.length portRange - S subIndex) portRange) 16));
      Ok (mkRangeItem start end_)
  end.

Definition NewPortRangeItem (isSource : bool) (rangeList : list string) : result Item :=
  try portRangeList <- result_mapM parsePortRange rangeList; Ok (PortRangeItem isSource portRangeList).

Definition NewProcessItem (l : list string) : Item := ProcessItem (set_of_list l).
Definition NewProcessPathItem (l : list string) : Item := ProcessPathItem (set_of_list l).
Definition NewProcessPathRegexItem (expressions : list string) : result Item :=
  try matchers <- compile_all 0 expressions; Ok (ProcessPathRegexItem matchers).
Definition NewPackageNameItem (l : list string) : Item := PackageNameItem (set_of_list l).
Definition NewPackageNameRegexItem (expressions : list string) : result Item :=
  try matchers <- compile_all 0 expressions; Ok (PackageNameRegexItem matchers).
Definition NewUserItem (users : list string) : Item := UserItem (set_of_list users).
Definition NewUserIDItem (userIdList : list Z) : Item := UserIdItem (set_of_list userIdList).
Definition NewClashModeItem (modes : list string) : Item := ClashModeItem modes.
Definition NewNetworkTypeItem (networkType : list Z) : Item := NetworkTypeItem networkType.
Definition NewWIFISSIDItem (ssidList : list string) : Item := WIFISSIDItem (set_of_list ssidList).

(** [adapter.NormalizeWIFIBSSID] *)
Definition NormalizeWIFIBSSID (bssid0 : string) : string :=
  let bssid := TrimSpace bssid0 in
  if bool_decide (bssid = ""%string) then ""
  else
    let fallback :=
      if (String.length bssid =? 12)%nat
      then match DecodeString bssid with Some decoded => mac_String decoded | None => bssid end
      else bssid in
    match ParseMAC bssid with
    | Some parsed => if (length parsed =? 6)%nat then mac_String parsed else fallback
    | None => fallback
    end.

Definition NewWIFIBSSIDItem (bssidList : list string) : Item :=
  WIFIBSSIDItem (set_of_list (map NormalizeWIFIBSSID bssidList)).

Definition map_of_entries {K : Type} `{Countable K} (entries : list (K * list Prefix)) : gmap K (list Prefix) :=
  foldl (fun acc '(k, prefixes) => <[k := prefixes]> acc) ∅ entries.

Definition NewInterfaceAddressItem (entries : list (string * list Prefix)) : Item :=
  InterfaceAddressItem (map_of_entries entries).
Definition NewNetworkInterfaceAddressItem (entries : list (Z * list Prefix)) : Item :=
  NetworkInterfaceAddressItem (map_of_entries entries).
Definition NewDefaultInterfaceAddressItem (prefixes : list Prefix) : Item :=
  DefaultInterfaceAddressItem prefixes.

Definition NewSourceMACAddressItem (addressList : list string) : Item :=
  SourceMACAddressItem (set_of_list
    (map (fun address => match ParseMAC address with
                         | Some parsed => mac_String parsed
                         | None => address
                         end) addressList)).

Definition NewSourceHostnameItem (hostnameList : list string) : Item :=
  SourceHostnameItem (set_of_list hostnameList).

Definition NewOutboundRule (outbounds : list string) : Item :=
  OutboundItem (set_of_list (filter (fun outbound => outbound ≠ "any"%string) outbounds))
    (bool_decide ("any"%string ∈ outbounds)).

(** The [Start] methods resolve tags; what they collect are the items the rule
    matches with. *)
Definition PreferredByItem_Start (outboundTags : list string) (strategy : Z) : result Item :=
  try outbounds <- result_mapM (fun tag =>
    match OutboundByTag tag with
    | None => Err (ENew ("outbound not found: " +:+ tag))
    | Some o =>
        match out_PreferredRoutes o with
        | None => Err (ENew ("outbound type does not support preferred routes: " +:+ out_Type o))
        | Some r => Ok r
        end
    end) outboundTags;
  Ok (PreferredByItem outbounds strategy).

Definition PreferredByDNSItem_Start (transportTags : list string) : result Item :=
  try transports <- result_mapM (fun tag =>
    match Transport tag with
    | None => Err (ENew ("DNS server not found: " +:+ tag))
    | Some t =>
        match tr_PreferredDomain t with
        | None => Err (ENew ("DNS server type does not support preferred_by: " +:+ tr_Type t))
        | Some f => Ok f
        end
    end) transportTags;
  Ok (PreferredByDNSItem transports).

Definition DNSServerAddressItem_Start (entries : list (string * list Prefix)) : result Item :=
  try transports <- result_mapM (fun '(tag, _) =>
    match Transport tag with
    | None => Err (ENew ("DNS server not found: " +:+ tag))
    | Some t =>
        match tr_Configuration t with
        | None => Err (ENew ("DNS server type does not support dns_server_address: " +:+ tr_Type t))
        | Some c => Ok c.1
        end
    end) entries;
  Ok (DNSServerAddressItem transports (map snd entries)).

Definition DNSSearchDomainItem_Start (entries : list (string * list string)) : result Item :=
  try transports <- result_mapM (fun '(tag, _) =>
    match Transport tag with
    | None => Err (ENew ("DNS server not found: " +:+ tag))
    | Some t =>
        match tr_Configuration t with
        | None => Err (ENew ("DNS server type does not support dns_search_domain: " +:+ tr_Type t))
        | Some c => Ok c.2
        end
    end) entries;
  Ok (DNSSearchDomainItem transports (map (fun e => map CanonicalName e.2) entries)).

Definition NewDNSResponseRCodeItem (rcode : Z) : Item := DNSResponseRCodeItem rcode.
Definition NewDNSResponseRecordItem (records : list RR) (selector : Msg -> list RR) : Item :=
  DNSResponseRecordItem records selector.

Definition dnsResponseAnswers (message : Msg) : list RR := msg_Answer message.
Definition dnsResponseNS (message : Msg) : list RR := msg_Ns message.
Definition dnsResponseExtra (message : Msg) : list RR := msg_Extra message.

(** ** Matching *)

Definition InboundItem_Match (inboundMap : gmap string bool) m : bool := in_map inboundMap (cf_Inbound (ic_conn m)).
Definition AuthUserItem_Match (userMap : gmap string bool) m : bool := in_map userMap (cf_User (ic_conn m)).
Definition ProtocolItem_Match (protocolMap : gmap string bool) m : bool :=
  in_map protocolMap (cf_Protocol (ic_conn m)).
Definition ClientItem_Match (clientMap : gmap string bool) m : bool := in_map clientMap (cf_Client (ic_conn m)).
Definition NetworkItem_Match (networkMap : gmap string bool) m : bool := in_map networkMap (cf_Network (ic_conn m)).
Definition QueryDNSSECItem_Match m : bool := cf_QueryDNSSEC (ic_conn m).
Definition WIFISSIDItem_Match (ssidMap : gmap string bool) : bool := in_map ssidMap WIFIState_SSID.
Definition WIFIBSSIDItem_Match (bssidMap : gmap string bool) : bool := in_map bssidMap WIFIState_BSSID.

(** The selection of the host, repeated in every domain item. *)
Definition domainHost (strategy : Z) m : string :=
  let c := ic_conn m in
  let dest := cf_Destination c in
  if strategy =? DomainMatchStrategyPreferFQDN then
    if IsDomain dest then sa_Fqdn dest
    else if negb (bool_decide (cf_SniffHost c = ""%string)) then cf_SniffHost c
    else cf_Domain c
  else if strategy =? DomainMatchStrategyFQDNOnly then
    if IsDomain dest then sa_Fqdn dest else ""
  else if strategy =? DomainMatchStrategySniffHostOnly then
    if negb (bool_decide (cf_SniffHost c = ""%string)) then cf_SniffHost c else ""
  else
    if negb (bool_decide (cf_SniffHost c = ""%string)) then cf_SniffHost c
    else if IsDomain dest then sa_Fqdn dest
    else cf_Domain c.

Definition DomainItem_Match (matcher : string -> bool) (strategy : Z) m : bool :=
  let host := domainHost strategy m in
  if bool_decide (host = ""%string) then false else matcher (ToLower host).

Definition DomainKeywordItem_Match (keywords : list string) (strategy : Z) m : bool :=
  let host := domainHost strategy m in
  if bool_decide (host = ""%string) then false
  else existsb (fun keyword => str_Contains (ToLower host) keyword) keywords.

Definition DomainRegexItem_Match (matchers : list (string -> bool)) (strategy : Z) m : bool :=
  let host := domainHost strategy m in
  if bool_decide (host = ""%string) then false
  else existsb (fun matcher => matcher (ToLower host)) matchers.

Definition AdGuardDomainItem_Match (matcher : string -> bool) (strategy : Z) m : bool :=
  let host := domainHost strategy m in
  if bool_decide (host = ""%string) then false else matcher (ToLower host).

Definition IPCIDRItem_Match (ipSet : Set_) (isSource : bool) m : bool :=
  let c := ic_conn m in
  if isSource || IPCIDRMatchSource m then Contains ipSet (sa_Addr (cf_Source c))
  else if ic_DestinationAddressMatchFromResponse m then
    match DNSResponseAddressesForMatch AddrFromIP m with
    | [] => IPCIDRAcceptEmpty m
    | addresses => existsb (Contains ipSet) addresses
    end
  else if IsIP (cf_Destination c) then Contains ipSet (sa_Addr (cf_Destination c))
  else
    match cf_DestinationAddresses c, cf_CacheIPs c with
    | (_ :: _) as addresses, _ => existsb (Contains ipSet) addresses
    | [], (_ :: _) as addresses => existsb (Contains ipSet) addresses
    | [], [] => IPCIDRAcceptEmpty m
    end.

Definition IPIsPrivateItem_Match (isSource : bool) m : bool :=
  let c := ic_conn m in
  if isSource then negb (IsPublicAddr (sa_Addr (cf_Source c)))
  else if ic_DestinationAddressMatchFromResponse m then
    existsb (fun a => negb (IsPublicAddr a)) (DNSResponseAddressesForMatch AddrFromIP m)
  else if addr_IsValid (sa_Addr (cf_Destination c)) then
    negb (IsPublicAddr (sa_Addr (cf_Destination c)))
  else if existsb (fun a => negb (IsPublicAddr a)) (cf_DestinationAddresses c) then true
  else existsb (fun a => negb (IsPublicAddr a)) (cf_CacheIPs c).

Definition IPAcceptAnyItem_Match m : bool :=
  if ic_DestinationAddressMatchFromResponse m
  then negb (bool_decide (DNSResponseAddressesForMatch AddrFromIP m = []))
  else negb (bool_decide (cf_DestinationAddresses (ic_conn m) = [])).

Definition IPVersionItem_Match (isIPv6 : bool) m : bool :=
  let c := ic_conn m in
  negb (cf_IPVersion c =? 0) && eqb (cf_IPVersion c =? 6) isIPv6 ||
  IsIP (cf_Destination c) && eqb (IsIPv6 (cf_Destination c)) isIPv6.

Definition QueryTypeItem_Match (typeMap : gmap Z bool) m : bool :=
  if cf_QueryType (ic_conn m) =? 0 then false else in_map typeMap (cf_QueryType (ic_conn m)).

Definition QueryClientSubnetItem_Match (prefixes : list Prefix) m : bool :=
  let clientSubnet := cf_QueryClientSubnet (ic_conn m) in
  if negb (prefix_IsValid clientSubnet) then false
  else existsb (fun prefix => (prefix_bits prefix <=? prefix_bits clientSubnet) &&
                              prefix_Contains prefix (prefix_addr clientSubnet)) prefixes.

Definition PortItem_Match (portMap : gmap Z bool) (isSource : bool) m : bool :=
  if isSource then in_map portMap (sa_Port (cf_Source (ic_conn m)))
  else in_map portMap (sa_Port (cf_Destination (ic_conn m))).

Definition PortRangeItem_Match (isSource : bool) (portRangeList : list rangeItem) m : bool :=
  let port := if isSource then sa_Port (cf_Source (ic_conn m)) else sa_Port (cf_Destination (ic_conn m)) in
  existsb (fun r => (start r <=? port) && (port <=? end_ r)) portRangeList.

Definition ProcessItem_Match (processMap : gmap string bool) m : bool :=
  match ResolveProcessInfo m with
  | None => false
  | Some p => existsb (fun path => in_map processMap (Base path)) (ProcessPaths p)
  end.

Definition ProcessPathItem_Match (processMap : gmap string bool) m : bool :=
  let byPackage (info : option ConnectionOwner) :=
    match info with
    | Some p => existsb (in_map processMap) (PackageNames p)
    | None => false
    end in
  if IsAndroid && byPackage (cf_ProcessInfo (ic_conn m)) then true
  else
    match ResolveProcessInfo m with
    | None => false
    | Some p =>
        if existsb (in_map processMap) (ProcessPaths p) then true
        else if IsAndroid then existsb (in_map processMap) (PackageNames p) else false
    end.

Definition ProcessPathRegexItem_Match (matchers : list (string -> bool)) m : bool :=
  match ResolveProcessInfo m with
  | None => false
  | Some p => existsb (fun matcher => existsb matcher (ProcessPaths p)) matchers
  end.

Definition PackageNameItem_Match (packageMap : gmap string bool) m : bool :=
  match cf_ProcessInfo (ic_conn m) with
  | None => false
  | Some p => existsb (in_map packageMap) (PackageNames p)
  end.

Definition PackageNameRegexItem_Match (matchers : list (string -> bool)) m : bool :=
  match cf_ProcessInfo (ic_conn m) with
  | None => false
  | Some p =>
      if bool_decide (PackageNames p = []) then false
      else existsb (fun matcher => existsb matcher (PackageNames p)) matchers
  end.

Definition UserItem_Match (userMap : gmap string bool) m : bool :=
  match cf_ProcessInfo (ic_conn m) with
  | None => false
  | Some p => if bool_decide (UserName p = ""%string) then false else in_map userMap (UserName p)
  end.

Definition UserIdItem_Match (userIdMap : gmap Z bool) m : bool :=
  match cf_ProcessInfo (ic_conn m) with
  | None => false
  | Some p => if UserId p =? -1 then false else in_map userIdMap (UserId p)
  end.

Definition ClashModeItem_Match (modes : list string) : bool :=
  match ClashMode with
  | None => false
  | Some mode => existsb (EqualFold mode) modes
  end.

Definition NetworkTypeItem_Match (networkType : list Z) : bool :=
  if IsAndroid && bool_decide (length NetworkInterfaces = 0%nat)
  then existsb (Z.eqb InterfaceTypeWIFI) networkType && negb (bool_decide (WIFIState_SSID = ""%string))
  else
    match DefaultNetworkInterface with
    | None => false
    | Some i => existsb (Z.eqb (ni_Type i)) networkType
    end.

Definition NetworkIsExpensiveItem_Match : bool :=
  match DefaultNetworkInterface with None => false | Some i => ni_Expensive i end.

Definition NetworkIsConstrainedItem_Match : bool :=
  match DefaultNetworkInterface with None => false | Some i => ni_Constrained i end.

(** [common.Find] returns the zero interface when none has the name. *)
Definition findInterface (ifName : string) : Interface :=
  match List.find (fun it => bool_decide (if_Name it = ifName)) FinderInterfaces with
  | Some it => it
  | None => mkInterface "" []
  end.

Definition InterfaceAddressItem_Match (interfaceAddresses : gmap string (list Prefix)) : bool :=
  forallb (fun '(ifName, addresses) =>
    let iface := findInterface ifName in
    if bool_decide (if_Name iface = ""%string) then false
    else negb (forallb (fun address =>
                 forallb (fun it => negb (prefix_Overlaps address it)) (if_Addresses iface)) addresses))
    (map_to_list interfaceAddresses).

Definition NetworkInterfaceAddressItem_Match (interfaceAddresses : gmap Z (list Prefix)) : bool :=
  let myInterfaces := match Monitor with Some mon => mon_MyInterfaces mon | None => [] end in
  forallb (fun '(ifType, addresses) =>
    existsb (fun ni =>
      negb (bool_decide (if_Name (ni_Interface ni) ∈ myInterfaces)) && (ni_Type ni =? ifType) &&
      existsb (fun it => existsb (fun prefix => prefix_Overlaps prefix it) addresses)
        (if_Addresses (ni_Interface ni))) NetworkInterfaces)
    (map_to_list interfaceAddresses).

Definition DefaultInterfaceAddressItem_Match (interfaceAddresses : list Prefix) : bool :=
  match Monitor with
  | None => false
  | Some mon =>
      match mon_DefaultInterface mon with
      | None => false
      | Some defaultInterface =>
          forallb (fun address =>
            negb (forallb (fun it => negb (prefix_Overlaps address it)) (if_Addresses defaultInterface)))
            interfaceAddresses
      end
  end.

Definition SourceMACAddressItem_Match (addressMap : gmap string bool) m : bool :=
  match cf_SourceMACAddress (ic_conn m) with
  | None => false
  | Some mac => in_map addressMap (mac_String mac)
  end.

Definition SourceHostnameItem_Match (hostnameMap : gmap string bool) m : bool :=
  if bool_decide (cf_SourceHostname (ic_conn m) = ""%string) then false
  else in_map hostnameMap (cf_SourceHostname (ic_conn m)).

Definition OutboundItem_Match (outboundMap : gmap string bool) (matchAny : bool) m : bool :=
  if matchAny then negb (bool_decide (cf_Outbound (ic_conn m) = ""%string))
  else in_map outboundMap (cf_Outbound (ic_conn m)).

Definition PreferredByItem_Match (outbounds : list PreferredRoutes) (strategy : Z) m : bool :=
  let c := ic_conn m in
  let host := domainHost strategy m in
  let preferredAddress address := existsb (fun o => pr_PreferredAddress o c address) outbounds in
  if negb (bool_decide (host = ""%string)) && existsb (fun o => pr_PreferredDomain o c host) outbounds
  then true
  else if IsIP (cf_Destination c) && preferredAddress (sa_Addr (cf_Destination c)) then true
  else if existsb preferredAddress (cf_DestinationAddresses c) then true
  else existsb preferredAddress (cf_CacheIPs c).

Definition PreferredByDNSItem_Match (transports : list (string -> bool)) m : bool :=
  let c := ic_conn m in
  let host := if negb (bool_decide (cf_Domain c = ""%string)) then cf_Domain c
              else sa_Fqdn (cf_Destination c) in
  if bool_decide (host = ""%string) then false
  else existsb (fun preferredDomain => preferredDomain (CanonicalName host)) transports.

Definition DNSServerAddressItem_Match (transports : list (list Addr)) (serverAddresses : list (list Prefix)) : bool :=
  forallb (fun '(addresses, prefixes) =>
    existsb (fun address => existsb (fun prefix =>
      prefix_Contains prefix (addr_WithZone (addr_Unmap address) "")) prefixes) addresses)
    (zip transports serverAddresses).

Definition DNSSearchDomainItem_Match (transports searchDomains : list (list string)) : bool :=
  forallb (fun '(found, domains) =>
    existsb (fun searchDomain => bool_decide (CanonicalName searchDomain ∈ domains)) found)
    (zip transports searchDomains).

Definition DNSResponseRCodeItem_Match (rcode : Z) m : bool :=
  match ic_DNSResponse m with Some msg => msg_Rcode msg =? rcode | None => false end.

(** [option.DNSRecordOptions.Match] *)
Definition DNSRecordOptions_Match (expected record : RR) : bool := IsDuplicate expected record.

Definition DNSResponseRecordItem_Match (records : list RR) (selector : Msg -> list RR) m : bool :=
  match ic_DNSResponse m with
  | None => false
  | Some msg => existsb (fun expected => existsb (DNSRecordOptions_Match expected) (selector msg)) records
  end.

#[global] Instance Item_RuleItem : RuleItem Item := fun it m =>
  match it with
  | InboundItem inboundMap => InboundItem_Match inboundMap m
  | IPVersionItem isIPv6 => IPVersionItem_Match isIPv6 m
  | AuthUserItem userMap => AuthUserItem_Match userMap m
  | ProtocolItem protocolMap => ProtocolItem_Match protocolMap m
  | ClientItem clientMap => ClientItem_Match clientMap m
  | NetworkItem networkMap => NetworkItem_Match networkMap m
  | QueryTypeItem typeMap => QueryTypeItem_Match typeMap m
  | QueryClientSubnetItem prefixes => QueryClientSubnetItem_Match prefixes m
  | QueryDNSSECItem => QueryDNSSECItem_Match m
  | DomainItem matcher strategy => DomainItem_Match matcher strategy m
  | DomainKeywordItem keywords strategy => DomainKeywordItem_Match keywords strategy m
  | DomainRegexItem matchers strategy => DomainRegexItem_Match matchers strategy m
  | AdGuardDomainItem matcher strategy => AdGuardDomainItem_Match matcher strategy m
  | IPCIDRItem ipSet isSource => IPCIDRItem_Match ipSet isSource m
  | IPIsPrivateItem isSource => IPIsPrivateItem_Match isSource m
  | IPAcceptAnyItem => IPAcceptAnyItem_Match m
  | PortItem portMap isSource => PortItem_Match portMap isSource m
  | PortRangeItem isSource portRangeList => PortRangeItem_Match isSource portRangeList m
  | ProcessItem processMap => ProcessItem_Match processMap m
  | ProcessPathItem processMap => ProcessPathItem_Match processMap m
  | ProcessPathRegexItem matchers => ProcessPathRegexItem_Match matchers m
  | PackageNameItem packageMap => PackageNameItem_Match packageMap m
  | PackageNameRegexItem matchers => PackageNameRegexItem_Match matchers m
  | UserItem userMap => UserItem_Match userMap m
  | UserIdItem userIdMap => UserIdItem_Match userIdMap m
  | ClashModeItem modes => ClashModeItem_Match modes
  | NetworkTypeItem networkType => NetworkTypeItem_Match networkType
  | NetworkIsExpensiveItem => NetworkIsExpensiveItem_Match
  | NetworkIsConstrainedItem => NetworkIsConstrainedItem_Match
  | WIFISSIDItem ssidMap => WIFISSIDItem_Match ssidMap
  | WIFIBSSIDItem bssidMap => WIFIBSSIDItem_Match bssidMap
  | InterfaceAddressItem interfaceAddresses => InterfaceAddressItem_Match interfaceAddresses
  | NetworkInterfaceAddressItem interfaceAddresses => NetworkInterfaceAddressItem_Match interfaceAddresses
  | DefaultInterfaceAddressItem interfaceAddresses => DefaultInterfaceAddressItem_Match interfaceAddresses
  | SourceMACAddressItem addressMap => SourceMACAddressItem_Match addressMap m
  | SourceHostnameItem hostnameMap => SourceHostnameItem_Match hostnameMap m
  | OutboundItem outboundMap matchAny => OutboundItem_Match outboundMap matchAny m
  | PreferredByItem outbounds strategy => PreferredByItem_Match outbounds strategy m
  | PreferredByDNSItem transports => PreferredByDNSItem_Match transports m
  | DNSServerAddressItem transports serverAddresses => DNSServerAddressItem_Match transports serverAddresses
  | DNSSearchDomainItem transports searchDomains => DNSSearchDomainItem_Match transports searchDomains
  | DNSResponseRCodeItem rcode => DNSResponseRCodeItem_Match rcode m
  | DNSResponseRecordItem records selector => DNSResponseRecordItem_Match records selector m
  end.

(** Every item satisfies the law of the interface. *)
#[global] Instance Item_RuleItemLaws : RuleItemLaws Item.
Proof. intros [] m; reflexivity. Qed.

(** ** Which items look at the response *)

Definition reads_response (it : Item) : bool :=
  match it with
  | IPCIDRItem _ isSource => negb isSource
  | IPIsPrivateItem isSource => negb isSource
  | IPAcceptAnyItem | DNSResponseRCodeItem _ | DNSResponseRecordItem _ _ => true
  | _ => false
  end.

End items.
