(* ===== verification/RuleOptions.v ===== *)
(** * Rule options

    The configuration structures the rules are built from: [option.RawDefaultRule]
    ([src/option/rule.go]), [option.DefaultHeadlessRule] ([src/option/rule_set.go])
    and [option.RawDefaultDNSRule] ([src/option/rule_dns.go]), with their validity
    checks.  A list or map option that is absent and one that is empty are not
    distinguished; a prefix option is kept as the prefix it builds. *)

From stdpp Require Import base gmap strings list.
From Stdlib Require Import ZArith Lia.
From S2P Require Import Prelude Net Metadata Codec IPSet.

Open Scope Z_scope.

(** [option.RawDefaultRule] *)
Record RawDefaultRule : Type := mkRawDefaultRule {
  ro_Inbound : list string;
  ro_IPVersion : Z;
  ro_Network : list string;
  ro_AuthUser : list string;
  ro_Protocol : list string;
  ro_Client : list string;
  ro_Domain : list string;
  ro_DomainSuffix : list string;
  ro_DomainKeyword : list string;
  ro_DomainRegex : list string;
  ro_Geosite : list string;
  ro_SourceGeoIP : list string;
  ro_GeoIP : list string;
  ro_SourceIPCIDR : list Prefix;
  ro_SourceIPIsPrivate : bool;
  ro_IPCIDR : list Prefix;
  ro_IPIsPrivate : bool;
  ro_SourcePort : list Z;
  ro_SourcePortRange : list string;
  ro_Port : list Z;
  ro_PortRange : list string;
  ro_ProcessName : list string;
  ro_ProcessPath : list string;
  ro_ProcessPathRegex : list string;
  ro_PackageName : list string;
  ro_PackageNameRegex : list string;
  ro_User : list string;
  ro_UserID : list Z;
  ro_ClashMode : list string;
  ro_NetworkType : list Z;
  ro_NetworkIsExpensive : bool;
  ro_NetworkIsConstrained : bool;
  ro_WIFISSID : list string;
  ro_WIFIBSSID : list string;
  ro_InterfaceAddress : list (string * list Prefix);
  ro_NetworkInterfaceAddress : list (Z * list Prefix);
  ro_DefaultInterfaceAddress : list Prefix;
  ro_SourceMACAddress : list string;
  ro_SourceHostname : list string;
  ro_PreferredBy : list string;
  ro_DNSServerAddress : list (string * list Prefix);
  ro_DNSSearchDomain : list (string * list string);
  ro_RuleSet : list string;
  ro_RuleSetIPCIDRMatchSource : bool;
  ro_DomainMatchStrategy : Z;
  ro_Invert : bool;
  ro_Deprecated_RulesetIPCIDRMatchSource : bool
}.

(** [option.DefaultHeadlessRule] *)
Record DefaultHeadlessRule : Type := mkDefaultHeadlessRule {
  ho_QueryType : list Z;
  ho_Network : list string;
  ho_Domain : list string;
  ho_DomainSuffix : list string;
  ho_DomainKeyword : list string;
  ho_DomainRegex : list string;
  ho_SourceIPCIDR : list Prefix;
  ho_IPCIDR : list Prefix;
  ho_SourcePort : list Z;
  ho_SourcePortRange : list string;
  ho_Port : list Z;
  ho_PortRange : list string;
  ho_ProcessName : list string;
  ho_ProcessPath : list string;
  ho_ProcessPathRegex : list string;
  ho_PackageName : list string;
  ho_PackageNameRegex : list string;
  ho_NetworkType : list Z;
  ho_NetworkIsExpensive : bool;
  ho_NetworkIsConstrained : bool;
  ho_WIFISSID : list string;
  ho_WIFIBSSID : list string;
  ho_DomainMatchStrategy : Z;
  ho_NetworkInterfaceAddress : list (Z * list Prefix);
  ho_DefaultInterfaceAddress : list Prefix;
  ho_Invert : bool;
  ho_DomainMatcher : option (string -> bool);
  ho_SourceIPSet : option Set_;
  ho_IPSet : option Set_;
  ho_AdGuardDomain : list string;
  ho_AdGuardDomainMatcher : option (string -> bool)
}.

(** [option.DNSRuleMatchResponse] *)
Record DNSRuleMatchResponse : Type := mkMatchResponse { mr_Enabled : bool; mr_Tag : string }.

(** [option.RawDefaultDNSRule] *)
Record RawDefaultDNSRule : Type := mkRawDefaultDNSRule {
  do_Inbound : list string;
  do_IPVersion : Z;
  do_QueryType : list Z;
  do_QueryClientSubnet : list Prefix;
  do_QueryDNSSEC : bool;
  do_Network : list string;
  do_AuthUser : list string;
  do_Protocol : list string;
  do_Domain : list string;
  do_DomainSuffix : list string;
  do_DomainKeyword : list string;
  do_DomainRegex : list string;
  do_SourceIPCIDR : list Prefix;
  do_SourceIPIsPrivate : bool;
  do_SourcePort : list Z;
  do_SourcePortRange : list string;
  do_Port : list Z;
  do_PortRange : list string;
  do_ProcessName : list string;
  do_ProcessPath : list string;
  do_ProcessPathRegex : list string;
  do_PackageName : list string;
  do_PackageNameRegex : list string;
  do_User : list string;
  do_UserID : list Z;
  do_Outbound : list string;
  do_ClashMode : list string;
  do_NetworkType : list Z;
  do_NetworkIsExpensive : bool;
  do_NetworkIsConstrained : bool;
  do_WIFISSID : list string;
  do_WIFIBSSID : list string;
  do_InterfaceAddress : list (string * list Prefix);
  do_NetworkInterfaceAddress : list (Z * list Prefix);
  do_DefaultInterfaceAddress : list Prefix;
  do_SourceMACAddress : list string;
  do_SourceHostname : list string;
  do_PreferredBy : list string;
  do_DNSServerAddress : list (string * list Prefix);
  do_DNSSearchDomain : list (string * list string);
  do_RuleSet : list string;
  do_RuleSetIPCIDRMatchSource : bool;
  do_MatchResponse : option DNSRuleMatchResponse;
  do_IPCIDR : list Prefix;
  do_IPIsPrivate : bool;
  do_IPAcceptAny : bool;
  do_ResponseRcode : option Z;
  do_ResponseAnswer : list RR;
  do_ResponseNs : list RR;
  do_ResponseExtra : list RR;
  do_Invert : bool;
  do_Geosite : list string;
  do_SourceGeoIP : list string;
  do_GeoIP : list string;
  do_RuleSetIPCIDRAcceptEmpty : bool;
  do_Deprecated_RulesetIPCIDRMatchSource : bool
}.

(** The comparisons with a zero value of the [IsValid] methods, up to [Invert]. *)
Definition RawDefaultRule_zero (o : RawDefaultRule) : bool :=
  forallb (fun b => b)
    [ isnil (ro_Inbound o);
      (ro_IPVersion o =? 0);
      isnil (ro_Network o);
      isnil (ro_AuthUser o);
      isnil (ro_Protocol o);
      isnil (ro_Client o);
      isnil (ro_Domain o);
      isnil (ro_DomainSuffix o);
      isnil (ro_DomainKeyword o);
      isnil (ro_DomainRegex o);
      isnil (ro_Geosite o);
      isnil (ro_SourceGeoIP o);
      isnil (ro_GeoIP o);
      isnil (ro_SourceIPCIDR o);
      negb (ro_SourceIPIsPrivate o);
      isnil (ro_IPCIDR o);
      negb (ro_IPIsPrivate o);
      isnil (ro_SourcePort o);
      isnil (ro_SourcePortRange o);
      isnil (ro_Port o);
      isnil (ro_PortRange o);
      isnil (ro_ProcessName o);
      isnil (ro_ProcessPath o);
      isnil (ro_ProcessPathRegex o);
      isnil (ro_PackageName o);
      isnil (ro_PackageNameRegex o);
      isnil (ro_User o);
      isnil (ro_UserID o);
      isnil (ro_ClashMode o);
      isnil (ro_NetworkType o);
      negb (ro_NetworkIsExpensive o);
      negb (ro_NetworkIsConstrained o);
      isnil (ro_WIFISSID o);
      isnil (ro_WIFIBSSID o);
      isnil (ro_InterfaceAddress o);
      isnil (ro_NetworkInterfaceAddress o);
      isnil (ro_DefaultInterfaceAddress o);
      isnil (ro_SourceMACAddress o);
      isnil (ro_SourceHostname o);
      isnil (ro_PreferredBy o);
      isnil (ro_DNSServerAddress o);
      isnil (ro_DNSSearchDomain o);
      isnil (ro_RuleSet o);
      negb (ro_RuleSetIPCIDRMatchSource o);
      (ro_DomainMatchStrategy o =? 0);
      negb (ro_Deprecated_RulesetIPCIDRMatchSource o) ].

Definition DefaultHeadlessRule_zero (o : DefaultHeadlessRule) : bool :=
  forallb (fun b => b)
    [ isnil (ho_QueryType o);
      isnil (ho_Network o);
      isnil (ho_Domain o);
      isnil (ho_DomainSuffix o);
      isnil (ho_DomainKeyword o);
      isnil (ho_DomainRegex o);
      isnil (ho_SourceIPCIDR o);
      isnil (ho_IPCIDR o);
      isnil (ho_SourcePort o);
      isnil (ho_SourcePortRange o);
      isnil (ho_Port o);
      isnil (ho_PortRange o);
      isnil (ho_ProcessName o);
      isnil (ho_ProcessPath o);
      isnil (ho_ProcessPathRegex o);
      isnil (ho_PackageName o);
      isnil (ho_PackageNameRegex o);
      isnil (ho_NetworkType o);
      negb (ho_NetworkIsExpensive o);
      negb (ho_NetworkIsConstrained o);
      isnil (ho_WIFISSID o);
      isnil (ho_WIFIBSSID o);
      (ho_DomainMatchStrategy o =? 0);
      isnil (ho_NetworkInterfaceAddress o);
      isnil (ho_DefaultInterfaceAddress o);
      isnone (ho_DomainMatcher o);
      isnone (ho_SourceIPSet o);
      isnone (ho_IPSet o);
      isnil (ho_AdGuardDomain o);
      isnone (ho_AdGuardDomainMatcher o) ].

Definition RawDefaultDNSRule_zero (o : RawDefaultDNSRule) : bool :=
  forallb (fun b => b)
    [ isnil (do_Inbound o);
      (do_IPVersion o =? 0);
      isnil (do_QueryType o);
      isnil (do_QueryClientSubnet o);
      negb (do_QueryDNSSEC o);
      isnil (do_Network o);
      isnil (do_AuthUser o);
      isnil (do_Protocol o);
      isnil (do_Domain o);
      isnil (do_DomainSuffix o);
      isnil (do_DomainKeyword o);
      isnil (do_DomainRegex o);
      isnil (do_SourceIPCIDR o);
      negb (do_SourceIPIsPrivate o);
      isnil (do_SourcePort o);
      isnil (do_SourcePortRange o);
      isnil (do_Port o);
      isnil (do_PortRange o);
      isnil (do_ProcessName o);
      isnil (do_ProcessPath o);
      isnil (do_ProcessPathRegex o);
      isnil (do_PackageName o);
      isnil (do_PackageNameRegex o);
      isnil (do_User o);
      isnil (do_UserID o);
      isnil (do_Outbound o);
      isnil (do_ClashMode o);
      isnil (do_NetworkType o);
      negb (do_NetworkIsExpensive o);
      negb (do_NetworkIsConstrained o);
      isnil (do_WIFISSID o);
      isnil (do_WIFIBSSID o);
      isnil (do_InterfaceAddress o);
      isnil (do_NetworkInterfaceAddress o);
      isnil (do_DefaultInterfaceAddress o);
      isnil (do_SourceMACAddress o);
      isnil (do_SourceHostname o);
      isnil (do_PreferredBy o);
      isnil (do_DNSServerAddress o);
      isnil (do_DNSSearchDomain o);
      isnil (do_RuleSet o);
      negb (do_RuleSetIPCIDRMatchSource o);
      isnone (do_MatchResponse o);
      isnil (do_IPCIDR o);
      negb (do_IPIsPrivate o);
      negb (do_IPAcceptAny o);
      isnone (do_ResponseRcode o);
      isnil (do_ResponseAnswer o);
      isnil (do_ResponseNs o);
      isnil (do_ResponseExtra o);
      isnil (do_Geosite o);
      isnil (do_SourceGeoIP o);
      isnil (do_GeoIP o);
      negb (do_RuleSetIPCIDRAcceptEmpty o);
      negb (do_Deprecated_RulesetIPCIDRMatchSource o) ].

Definition ro_with_strategy (o : RawDefaultRule) (s : Z) : RawDefaultRule :=
  mkRawDefaultRule
    (ro_Inbound o) (ro_IPVersion o) (ro_Network o) (ro_AuthUser o) (ro_Protocol o) (ro_Client o)
    (ro_Domain o) (ro_DomainSuffix o) (ro_DomainKeyword o) (ro_DomainRegex o) (ro_Geosite o)
    (ro_SourceGeoIP o) (ro_GeoIP o) (ro_SourceIPCIDR o) (ro_SourceIPIsPrivate o) (ro_IPCIDR o)
    (ro_IPIsPrivate o) (ro_SourcePort o) (ro_SourcePortRange o) (ro_Port o) (ro_PortRange o)
    (ro_ProcessName o) (ro_ProcessPath o) (ro_ProcessPathRegex o) (ro_PackageName o)
    (ro_PackageNameRegex o) (ro_User o) (ro_UserID o) (ro_ClashMode o) (ro_NetworkType o)
    (ro_NetworkIsExpensive o) (ro_NetworkIsConstrained o) (ro_WIFISSID o) (ro_WIFIBSSID o)
    (ro_InterfaceAddress o) (ro_NetworkInterfaceAddress o) (ro_DefaultInterfaceAddress o)
    (ro_SourceMACAddress o) (ro_SourceHostname o) (ro_PreferredBy o) (ro_DNSServerAddress o)
    (ro_DNSSearchDomain o) (ro_RuleSet o) (ro_RuleSetIPCIDRMatchSource o) s (ro_Invert o)
    (ro_Deprecated_RulesetIPCIDRMatchSource o).

Definition ho_with_strategy (o : DefaultHeadlessRule) (s : Z) : DefaultHeadlessRule :=
  mkDefaultHeadlessRule (ho_QueryType o) (ho_Network o) (ho_Domain o) (ho_DomainSuffix o)
    (ho_DomainKeyword o) (ho_DomainRegex o) (ho_SourceIPCIDR o) (ho_IPCIDR o) (ho_SourcePort o)
    (ho_SourcePortRange o) (ho_Port o) (ho_PortRange o) (ho_ProcessName o) (ho_ProcessPath o)
    (ho_ProcessPathRegex o) (ho_PackageName o) (ho_PackageNameRegex o) (ho_NetworkType o)
    (ho_NetworkIsExpensive o) (ho_NetworkIsConstrained o) (ho_WIFISSID o) (ho_WIFIBSSID o) s
    (ho_NetworkInterfaceAddress o) (ho_DefaultInterfaceAddress o) (ho_Invert o)
    (ho_DomainMatcher o) (ho_SourceIPSet o) (ho_IPSet o) (ho_AdGuardDomain o) (ho_AdGuardDomainMatcher o).

(** Zero values. *)
Definition zero_RawDefaultRule : RawDefaultRule :=
  mkRawDefaultRule [] 0 [] [] [] [] [] [] []
    [] [] [] [] [] false [] false [] [] [] [] [] [] [] [] [] [] [] [] [] false false [] [] [] []
    [] [] [] [] [] [] [] false 0 false false.

Definition zero_DefaultHeadlessRule : DefaultHeadlessRule :=
  mkDefaultHeadlessRule [] [] [] []
    [] [] [] [] [] [] [] [] [] [] [] [] [] [] false false [] [] 0 [] [] false None None None []
    None.

Definition zero_RawDefaultDNSRule : RawDefaultDNSRule :=
  mkRawDefaultDNSRule [] 0 [] [] false
    [] [] [] [] [] [] [] [] false [] [] [] [] [] [] [] [] [] [] [] [] [] [] false false [] [] []
    [] [] [] [] [] [] [] [] false None [] false false None [] [] [] false [] [] [] false false.

(** ** Rule trees *)

(** [option.HeadlessRule]: the type, the options of a default rule, and the mode,
    rules, match strategy and inversion of a logical one. *)
Inductive HeadlessRule : Type :=
| mkHeadlessRule (Type_ : string) (DefaultOptions : DefaultHeadlessRule) (Mode : string)
    (Rules : list HeadlessRule) (LogicalStrategy : Z) (LogicalInvert : bool).

(** The fields of [option.RuleAction] that building a rule inspects; [ra_Rest]
    stands for the others, empty when they have their zero values. *)
Record RuleActionOptions : Type := mkRuleActionOptions {
  ra_Action : string;
  ra_RouteOutbound : string;
  ra_Rest : list string
}.

Definition RuleAction_zero (a : RuleActionOptions) : bool :=
  bool_decide (ra_Action a = ""%string) && bool_decide (ra_RouteOutbound a = ""%string) && isnil (ra_Rest a).

(** [option.Rule] *)
Inductive RouteRule : Type :=
| mkRouteRule (Type_ : string) (DefaultOptions : RawDefaultRule) (Mode : string)
    (Rules : list RouteRule) (LogicalStrategy : Z) (LogicalInvert : bool) (Action : RuleActionOptions).

(** [option.AbstractDNSRouteActionOptions]; a route-options action is one of these. *)
Record AbstractDNSRouteActionOptions : Type := mkAbstractDNSRoute {
  ar_Timeout : Z;
  ar_Strategy : Z;
  ar_DisableCache : bool;
  ar_DisableOptimisticCache : bool;
  ar_RewriteTTL : option Z;
  ar_ClientSubnet : option Prefix;
  ar_RemoveClientSubnet : bool
}.

Definition zero_AbstractDNSRoute : AbstractDNSRouteActionOptions :=
  mkAbstractDNSRoute 0 0 false false None None false.

Record DNSRouteActionOptions : Type := mkDNSRouteAction {
  dro_Server : string;
  dro_Speculative : bool;
  dro_Options : AbstractDNSRouteActionOptions
}.

Record DNSEvaluateActionOptions : Type := mkDNSEvaluateAction {
  deo_Server : string;
  deo_Tag : string;
  deo_Speculative : bool;
  deo_Options : AbstractDNSRouteActionOptions
}.

Record DNSRejectActionOptions : Type := mkDNSRejectAction {
  rj_Rcode : option Z;
  rj_Method : string;
  rj_NoDrop : bool
}.

(** Records are kept as they are built. *)
Record DNSRouteActionPredefined : Type := mkDNSPredefinedAction {
  pd_Rcode : option Z;
  pd_Answer : list RR;
  pd_Ns : list RR;
  pd_Extra : list RR
}.

(** [option.DNSRuleAction] *)
Record DNSRuleActionOptions : Type := mkDNSRuleActionOptions {
  da_Action : string;
  da_Race : bool;
  da_RouteOptions : DNSRouteActionOptions;
  da_EvaluateOptions : DNSEvaluateActionOptions;
  da_RouteOptionsOptions : AbstractDNSRouteActionOptions;
  da_DNSRejectOptions : DNSRejectActionOptions;
  da_PredefinedOptions : DNSRouteActionPredefined
}.

Definition AbstractDNSRoute_zero (r : AbstractDNSRouteActionOptions) : bool :=
  (ar_Timeout r =? 0) && (ar_Strategy r =? 0) && negb (ar_DisableCache r) && negb (ar_DisableOptimisticCache r) &&
  isnone (ar_RewriteTTL r) && isnone (ar_ClientSubnet r) && negb (ar_RemoveClientSubnet r).

Definition DNSRuleAction_zero (a : DNSRuleActionOptions) : bool :=
  let route := da_RouteOptions a in
  let evaluate := da_EvaluateOptions a in
  let reject := da_DNSRejectOptions a in
  let predefined := da_PredefinedOptions a in
  empty_string (da_Action a) && negb (da_Race a) &&
  (empty_string (dro_Server route) && negb (dro_Speculative route) && AbstractDNSRoute_zero (dro_Options route)) &&
  (empty_string (deo_Server evaluate) && empty_string (deo_Tag evaluate) && negb (deo_Speculative evaluate) &&
   AbstractDNSRoute_zero (deo_Options evaluate)) &&
  AbstractDNSRoute_zero (da_RouteOptionsOptions a) &&
  (isnone (rj_Rcode reject) && empty_string (rj_Method reject) && negb (rj_NoDrop reject)) &&
  (isnone (pd_Rcode predefined) && isnil (pd_Answer predefined) && isnil (pd_Ns predefined) &&
   isnil (pd_Extra predefined)).

(** [option.DNSRule] *)
Inductive DNSRule : Type :=
| mkDNSRule (Type_ : string) (DefaultOptions : RawDefaultDNSRule) (Mode : string)
    (Rules : list DNSRule) (LogicalInvert : bool) (Action : DNSRuleActionOptions).

Definition RuleTypeDefault : string := "default".
Definition RuleTypeLogical : string := "logical".
Definition LogicalTypeAnd : string := "and".
Definition LogicalTypeOr : string := "or".

(** ** IsValid

    [None] is the panic on an unknown type. *)

Definition DefaultHeadlessRule_IsValid (o : DefaultHeadlessRule) : bool := negb (DefaultHeadlessRule_zero o).

(** [common.All] over fallible predicates, left to right. *)
Fixpoint all_valid {A : Type} (f : A -> option bool) (l : list A) : option bool :=
  match l with
  | [] => Some true
  | x :: l' => b ← f x; if b : bool then all_valid f l' else Some false
  end.

Fixpoint HeadlessRule_IsValid (r : HeadlessRule) : option bool :=
  match r with
  | mkHeadlessRule ty d _ rules _ _ =>
      if bool_decide (ty = RuleTypeDefault) || bool_decide (ty = ""%string)
      then Some (DefaultHeadlessRule_IsValid d)
      else if bool_decide (ty = RuleTypeLogical)
      then (if isnil rules then Some false else all_valid HeadlessRule_IsValid rules)
      else None
  end.

Fixpoint Rule_IsValid (r : RouteRule) : option bool :=
  match r with
  | mkRouteRule ty d _ rules _ _ action =>
      if bool_decide (ty = RuleTypeDefault)
      then Some (negb (RawDefaultRule_zero d && RuleAction_zero action))
      else if bool_decide (ty = RuleTypeLogical)
      then (if isnil rules then Some false else all_valid Rule_IsValid rules)
      else None
  end.

Fixpoint DNSRule_IsValid (r : DNSRule) : option bool :=
  match r with
  | mkDNSRule ty d _ rules _ action =>
      if bool_decide (ty = RuleTypeDefault)
      then Some (negb (RawDefaultDNSRule_zero d && DNSRuleAction_zero action))
      else if bool_decide (ty = RuleTypeLogical)
      then (if isnil rules then Some false else all_valid DNSRule_IsValid rules)
      else None
  end.

(** ** Induction over nested options *)

Lemma HeadlessRule_nested_ind (P : HeadlessRule -> Prop) :
  (forall ty d mode rules ls inv, Forall P rules -> P (mkHeadlessRule ty d mode rules ls inv)) ->
  forall r, P r.
Proof.
  intros Hstep. fix IH 1. intros [ty d mode rules ls inv]. apply Hstep.
  induction rules as [|r rules IHr]; constructor; [apply IH|exact IHr].
Qed.

Lemma RouteRule_nested_ind (P : RouteRule -> Prop) :
  (forall ty d mode rules ls inv a, Forall P rules -> P (mkRouteRule ty d mode rules ls inv a)) ->
  forall r, P r.
Proof.
  intros Hstep. fix IH 1. intros [ty d mode rules ls inv a]. apply Hstep.
  induction rules as [|r rules IHr]; constructor; [apply IH|exact IHr].
Qed.

Lemma DNSRule_nested_ind (P : DNSRule -> Prop) :
  (forall ty d mode rules inv a, Forall P rules -> P (mkDNSRule ty d mode rules inv a)) ->
  forall r, P r.
Proof.
  intros Hstep. fix IH 1. intros [ty d mode rules inv a]. apply Hstep.
  induction rules as [|r rules IHr]; constructor; [apply IH|exact IHr].
Qed.

#[global] Arguments RawDefaultRule_zero : simpl never.
#[global] Arguments DefaultHeadlessRule_zero : simpl never.
#[global] Arguments RawDefaultDNSRule_zero : simpl never.
#[global] Arguments DefaultHeadlessRule_IsValid : simpl never.
