(* ===== verification/RuleBuild.v ===== *)
(** * Building rules from their options

    [NewRule], [NewHeadlessRule] and [NewDNSRule] of [src/route/rule/rule_default.go],
    [rule_headless.go] and [rule_dns.go], the nested action check of
    [rule_nested_action.go], the [Start] methods that resolve tags, and the rule-set
    summary of [rule_set.go].  A constructor is the list of its conditional blocks:
    a condition, the group the item is appended to, and the item or the error. *)

From stdpp Require Import base gmap strings list pretty.
From Stdlib Require Import ZArith Lia.
From S2P Require Import Prelude Net GoStrings Metadata Codec IPSet RuleMatch RuleItems RuleOptions.

Open Scope Z_scope.

(** An item as it is built; those that hold tags are resolved by [Start]. *)
Inductive BuiltItem : Type :=
| Plain (it : Item)
| PreferredByBuilt (outboundTags : list string) (strategy : Z)
| PreferredByDNSBuilt (transportTags : list string)
| DNSServerAddressBuilt (entries : list (string * list Prefix))
| DNSSearchDomainBuilt (entries : list (string * list string)).

Inductive slot : Type :=
| SlotItems | SlotSourceAddress | SlotSourcePort
| SlotDestinationAddress | SlotDestinationIPCIDR | SlotDestinationPort.

Record step : Type := mkStep {
  step_cond : bool;
  step_slot : slot;
  step_item : result BuiltItem
}.

Definition empty_rule {I : Type} (inv : bool) : abstractDefaultRule I := mkDefaultRule [] [] [] [] [] [] [] inv.

(** [rule.group = append(rule.group, item); rule.allItems = append(rule.allItems, item)] *)
Definition add_item {I : Type} (s : slot) (it : I) (r : abstractDefaultRule I) : abstractDefaultRule I :=
  let app (s' : bool) (l : list I) := if s' then l ++ [it] else l in
  mkDefaultRule
    (app (match s with SlotItems => true | _ => false end) (items r))
    (app (match s with SlotSourceAddress => true | _ => false end) (sourceAddressItems r))
    (app (match s with SlotSourcePort => true | _ => false end) (sourcePortItems r))
    (app (match s with SlotDestinationAddress => true | _ => false end) (destinationAddressItems r))
    (app (match s with SlotDestinationIPCIDR => true | _ => false end) (destinationIPCIDRItems r))
    (app (match s with SlotDestinationPort => true | _ => false end) (destinationPortItems r))
    (allItems r ++ [OfItem it])
    (invert r).

Fixpoint run_steps (steps : list step) (r : abstractDefaultRule BuiltItem)
    : result (abstractDefaultRule BuiltItem) :=
  match steps with
  | [] => Ok r
  | st :: rest =>
      if step_cond st then try it <- step_item st; run_steps rest (add_item (step_slot st) it r)
      else run_steps rest r
  end.

(** [rule.ruleSetItem = item; rule.allItems = append(rule.allItems, item)] *)
Definition add_rule_set {I : Type} (r : abstractDefaultRule I) : abstractDefaultRule I :=
  mkDefaultRule (items r) (sourceAddressItems r) (sourcePortItems r) (destinationAddressItems r)
    (destinationIPCIDRItems r) (destinationPortItems r) (allItems r ++ [OfRuleSet]) (invert r).

Definition plain (r : result Item) : result BuiltItem := try it <- r; Ok (Plain it).
Definition cause (message : string) (r : result BuiltItem) : result BuiltItem :=
  result_map_err (fun e => ECause e message) r.

(** [NewRuleSetItem] *)
Definition NewRuleSetItem {R : Type} (tags : list string) (ipCIDRMatchSource acceptEmpty : bool) : RuleSetItem R :=
  mkRuleSetItem tags [] ipCIDRMatchSource acceptEmpty.

(** What the constructors find in the service context: the default match strategy
    of the router, if there is one, and whether there is a network manager. *)
Class BuildContext : Type := {
  router_strategy : option Z;
  hasNetworkManager : bool
}.

Section build.
Context `{Env} `{BuildContext}.

(** [if router != nil && strategy == AsIS { strategy = router.DefaultDomainMatchStrategy() }] *)
Definition resolveStrategy (strategy : Z) : Z :=
  match router_strategy with
  | Some s => if strategy =? DomainMatchStrategyAsIS then s else strategy
  | None => strategy
  end.

(** [if sub.strategy == AsIS { sub.strategy = parent.strategy }] *)
Definition inheritStrategy (parent own : Z) : Z :=
  if own =? DomainMatchStrategyAsIS then parent else own.

(** The blocks of [NewDefaultRule], up to the addresses. *)
Definition NewDefaultRule_address_steps (strategy : Z) (o : RawDefaultRule) : list step :=
    [ mkStep (nonnil (ro_Inbound o)) SlotItems
        (Ok (Plain (NewInboundRule (ro_Inbound o))));
      mkStep (0 <? ro_IPVersion o) SlotItems
        (if (ro_IPVersion o =? 4) || (ro_IPVersion o =? 6)
         then Ok (Plain (NewIPVersionItem (ro_IPVersion o =? 6)))
         else Err (ENew ("invalid ip version: " +:+ pretty (ro_IPVersion o))));
      mkStep (nonnil (ro_Network o)) SlotItems
        (Ok (Plain (NewNetworkItem (ro_Network o))));
      mkStep (nonnil (ro_AuthUser o)) SlotItems
        (Ok (Plain (NewAuthUserItem (ro_AuthUser o))));
      mkStep (nonnil (ro_Protocol o)) SlotItems
        (Ok (Plain (NewProtocolItem (ro_Protocol o))));
      mkStep (nonnil (ro_Client o)) SlotItems
        (Ok (Plain (NewClientItem (ro_Client o))));
      mkStep (nonnil (ro_Domain o) || nonnil (ro_DomainSuffix o)) SlotDestinationAddress
        (plain (NewDomainItem (ro_Domain o) (ro_DomainSuffix o) strategy));
      mkStep (nonnil (ro_DomainKeyword o)) SlotDestinationAddress
        (Ok (Plain (NewDomainKeywordItem (ro_DomainKeyword o) strategy)));
      mkStep (nonnil (ro_DomainRegex o)) SlotDestinationAddress
        (plain (NewDomainRegexItem (ro_DomainRegex o) strategy));
      mkStep (nonnil (ro_Geosite o)) SlotItems
        (Err (ENew "geosite database is deprecated in sing-box 1.8.0 and removed in sing-box 1.12.0"));
      mkStep (nonnil (ro_SourceGeoIP o)) SlotItems
        (Err (ENew "geoip database is deprecated in sing-box 1.8.0 and removed in sing-box 1.12.0"));
      mkStep (nonnil (ro_GeoIP o)) SlotItems
        (Err (ENew "geoip database is deprecated in sing-box 1.8.0 and removed in sing-box 1.12.0"));
      mkStep (nonnil (ro_SourceIPCIDR o)) SlotSourceAddress
        (cause "source_ip_cidr" (plain (NewIPCIDRItem true (ro_SourceIPCIDR o))));
      mkStep (ro_SourceIPIsPrivate o) SlotSourceAddress
        (Ok (Plain (IPIsPrivateItem true)));
      mkStep (nonnil (ro_IPCIDR o)) SlotDestinationIPCIDR
        (cause "ipcidr" (plain (NewIPCIDRItem false (ro_IPCIDR o))));
      mkStep (ro_IPIsPrivate o) SlotDestinationIPCIDR
        (Ok (Plain (IPIsPrivateItem false))) ].

(** The blocks of [NewDefaultRule], from the ports on. *)
Definition NewDefaultRule_environment_steps (strategy : Z) (o : RawDefaultRule) : list step :=
    [ mkStep (nonnil (ro_SourcePort o)) SlotSourcePort
        (Ok (Plain (NewPortItem true (ro_SourcePort o))));
      mkStep (nonnil (ro_SourcePortRange o)) SlotSourcePort
        (cause "source_port_range" (plain (NewPortRangeItem true (ro_SourcePortRange o))));
      mkStep (nonnil (ro_Port o)) SlotDestinationPort
        (Ok (Plain (NewPortItem false (ro_Port o))));
      mkStep (nonnil (ro_PortRange o)) SlotDestinationPort
        (cause "port_range" (plain (NewPortRangeItem false (ro_PortRange o))));
      mkStep (nonnil (ro_ProcessName o)) SlotItems
        (Ok (Plain (NewProcessItem (ro_ProcessName o))));
      mkStep (nonnil (ro_ProcessPath o)) SlotItems
        (Ok (Plain (NewProcessPathItem (ro_ProcessPath o))));
      mkStep (nonnil (ro_ProcessPathRegex o)) SlotItems
        (cause "process_path_regex" (plain (NewProcessPathRegexItem (ro_ProcessPathRegex o))));
      mkStep (nonnil (ro_PackageName o)) SlotItems
        (Ok (Plain (NewPackageNameItem (ro_PackageName o))));
      mkStep (nonnil (ro_PackageNameRegex o)) SlotItems
        (cause "package_name_regex" (plain (NewPackageNameRegexItem (ro_PackageNameRegex o))));
      mkStep (nonnil (ro_User o)) SlotItems
        (Ok (Plain (NewUserItem (ro_User o))));
      mkStep (nonnil (ro_UserID o)) SlotItems
        (Ok (Plain (NewUserIDItem (ro_UserID o))));
      mkStep (nonnil (ro_ClashMode o)) SlotItems
        (Ok (Plain (NewClashModeItem (ro_ClashMode o))));
      mkStep (nonnil (ro_NetworkType o)) SlotItems
        (Ok (Plain (NewNetworkTypeItem (ro_NetworkType o))));
      mkStep (ro_NetworkIsExpensive o) SlotItems
        (Ok (Plain NetworkIsExpensiveItem));
      mkStep (ro_NetworkIsConstrained o) SlotItems
        (Ok (Plain NetworkIsConstrainedItem));
      mkStep (nonnil (ro_WIFISSID o)) SlotItems
        (Ok (Plain (NewWIFISSIDItem (ro_WIFISSID o))));
      mkStep (nonnil (ro_WIFIBSSID o)) SlotItems
        (Ok (Plain (NewWIFIBSSIDItem (ro_WIFIBSSID o))));
      mkStep (nonnil (ro_InterfaceAddress o)) SlotItems
        (Ok (Plain (NewInterfaceAddressItem (ro_InterfaceAddress o))));
      mkStep (nonnil (ro_NetworkInterfaceAddress o)) SlotItems
        (Ok (Plain (NewNetworkInterfaceAddressItem (ro_NetworkInterfaceAddress o))));
      mkStep (nonnil (ro_DefaultInterfaceAddress o)) SlotItems
        (Ok (Plain (NewDefaultInterfaceAddressItem (ro_DefaultInterfaceAddress o))));
      mkStep (nonnil (ro_SourceMACAddress o)) SlotItems
        (Ok (Plain (NewSourceMACAddressItem (ro_SourceMACAddress o))));
      mkStep (nonnil (ro_SourceHostname o)) SlotItems
        (Ok (Plain (NewSourceHostnameItem (ro_SourceHostname o))));
      mkStep (nonnil (ro_PreferredBy o)) SlotItems
        (Ok (PreferredByBuilt (ro_PreferredBy o) strategy));
      mkStep (nonnil (ro_DNSServerAddress o)) SlotItems
        (Ok (DNSServerAddressBuilt (ro_DNSServerAddress o)));
      mkStep (nonnil (ro_DNSSearchDomain o)) SlotItems
        (Ok (DNSSearchDomainBuilt (ro_DNSSearchDomain o))) ].

Definition NewDefaultRule_steps (strategy : Z) (o : RawDefaultRule) : list step :=
  NewDefaultRule_address_steps strategy o ++ NewDefaultRule_environment_steps strategy o.

(** The blocks of [NewDefaultHeadlessRule], up to the addresses. *)
Definition NewDefaultHeadlessRule_address_steps (strategy : Z) (o : DefaultHeadlessRule) : list step :=
    [ mkStep (nonnil (ho_QueryType o)) SlotItems
        (Ok (Plain (NewQueryTypeItem (ho_QueryType o))));
      mkStep (nonnil (ho_Network o)) SlotItems
        (Ok (Plain (NewNetworkItem (ho_Network o))));
      mkStep (nonnil (ho_Domain o) || nonnil (ho_DomainSuffix o)) SlotDestinationAddress
        (plain (NewDomainItem (ho_Domain o) (ho_DomainSuffix o) strategy));
      mkStep (negb (nonnil (ho_Domain o) || nonnil (ho_DomainSuffix o)) && nonnone (ho_DomainMatcher o)) SlotDestinationAddress
        (Ok (Plain (NewRawDomainItem (default (fun _ => false) (ho_DomainMatcher o)) strategy)));
      mkStep (nonnil (ho_DomainKeyword o)) SlotDestinationAddress
        (Ok (Plain (NewDomainKeywordItem (ho_DomainKeyword o) strategy)));
      mkStep (nonnil (ho_DomainRegex o)) SlotDestinationAddress
        (cause "domain_regex" (plain (NewDomainRegexItem (ho_DomainRegex o) strategy)));
      mkStep (nonnil (ho_SourceIPCIDR o)) SlotSourceAddress
        (cause "source_ip_cidr" (plain (NewIPCIDRItem true (ho_SourceIPCIDR o))));
      mkStep (negb (nonnil (ho_SourceIPCIDR o)) && nonnone (ho_SourceIPSet o)) SlotSourceAddress
        (Ok (Plain (NewRawIPCIDRItem true (default (mkSet [] []) (ho_SourceIPSet o)))));
      mkStep (nonnil (ho_IPCIDR o)) SlotDestinationIPCIDR
        (cause "ipcidr" (plain (NewIPCIDRItem false (ho_IPCIDR o))));
      mkStep (negb (nonnil (ho_IPCIDR o)) && nonnone (ho_IPSet o)) SlotDestinationIPCIDR
        (Ok (Plain (NewRawIPCIDRItem false (default (mkSet [] []) (ho_IPSet o))))) ].

(** The blocks of [NewDefaultHeadlessRule], from the ports on. *)
Definition NewDefaultHeadlessRule_environment_steps (strategy : Z) (o : DefaultHeadlessRule) : list step :=
    [ mkStep (nonnil (ho_SourcePort o)) SlotSourcePort
        (Ok (Plain (NewPortItem true (ho_SourcePort o))));
      mkStep (nonnil (ho_SourcePortRange o)) SlotSourcePort
        (cause "source_port_range" (plain (NewPortRangeItem true (ho_SourcePortRange o))));
      mkStep (nonnil (ho_Port o)) SlotDestinationPort
        (Ok (Plain (NewPortItem false (ho_Port o))));
      mkStep (nonnil (ho_PortRange o)) SlotDestinationPort
        (cause "port_range" (plain (NewPortRangeItem false (ho_PortRange o))));
      mkStep (nonnil (ho_ProcessName o)) SlotItems
        (Ok (Plain (NewProcessItem (ho_ProcessName o))));
      mkStep (nonnil (ho_ProcessPath o)) SlotItems
        (Ok (Plain (NewProcessPathItem (ho_ProcessPath o))));
      mkStep (nonnil (ho_ProcessPathRegex o)) SlotItems
        (cause "process_path_regex" (plain (NewProcessPathRegexItem (ho_ProcessPathRegex o))));
      mkStep (nonnil (ho_PackageName o)) SlotItems
        (Ok (Plain (NewPackageNameItem (ho_PackageName o))));
      mkStep (nonnil (ho_PackageNameRegex o)) SlotItems
        (cause "package_name_regex" (plain (NewPackageNameRegexItem (ho_PackageNameRegex o))));
      mkStep (hasNetworkManager && nonnil (ho_NetworkType o)) SlotItems
        (Ok (Plain (NewNetworkTypeItem (ho_NetworkType o))));
      mkStep (hasNetworkManager && ho_NetworkIsExpensive o) SlotItems
        (Ok (Plain NetworkIsExpensiveItem));
      mkStep (hasNetworkManager && ho_NetworkIsConstrained o) SlotItems
        (Ok (Plain NetworkIsConstrainedItem));
      mkStep (hasNetworkManager && nonnil (ho_WIFISSID o)) SlotItems
        (Ok (Plain (NewWIFISSIDItem (ho_WIFISSID o))));
      mkStep (hasNetworkManager && nonnil (ho_WIFIBSSID o)) SlotItems
        (Ok (Plain (NewWIFIBSSIDItem (ho_WIFIBSSID o))));
      mkStep (hasNetworkManager && nonnil (ho_NetworkInterfaceAddress o)) SlotItems
        (Ok (Plain (NewNetworkInterfaceAddressItem (ho_NetworkInterfaceAddress o))));
      mkStep (hasNetworkManager && nonnil (ho_DefaultInterfaceAddress o)) SlotItems
        (Ok (Plain (NewDefaultInterfaceAddressItem (ho_DefaultInterfaceAddress o))));
      mkStep (nonnil (ho_AdGuardDomain o)) SlotDestinationAddress
        (Ok (Plain (NewAdGuardDomainItem (ho_AdGuardDomain o) strategy)));
      mkStep (negb (nonnil (ho_AdGuardDomain o)) && nonnone (ho_AdGuardDomainMatcher o)) SlotDestinationAddress
        (Ok (Plain (NewRawAdGuardDomainItem (default (fun _ => false) (ho_AdGuardDomainMatcher o)) strategy))) ].

Definition NewDefaultHeadlessRule_steps (strategy : Z) (o : DefaultHeadlessRule) : list step :=
  NewDefaultHeadlessRule_address_steps strategy o ++ NewDefaultHeadlessRule_environment_steps strategy o.

(** The blocks of [NewDefaultDNSRule], up to the addresses. *)
Definition NewDefaultDNSRule_address_steps (o : RawDefaultDNSRule) : list step :=
    [ mkStep (nonnil (do_Inbound o)) SlotItems
        (Ok (Plain (NewInboundRule (do_Inbound o))));
      mkStep (0 <? do_IPVersion o) SlotItems
        (if (do_IPVersion o =? 4) || (do_IPVersion o =? 6)
         then Ok (Plain (NewIPVersionItem (do_IPVersion o =? 6)))
         else Err (ENew ("invalid ip version: " +:+ pretty (do_IPVersion o))));
      mkStep (nonnil (do_QueryType o)) SlotItems
        (Ok (Plain (NewQueryTypeItem (do_QueryType o))));
      mkStep (nonnil (do_QueryClientSubnet o)) SlotItems
        (Ok (Plain (NewQueryClientSubnetItem (do_QueryClientSubnet o))));
      mkStep (do_QueryDNSSEC o) SlotItems
        (Ok (Plain QueryDNSSECItem));
      mkStep (nonnil (do_Network o)) SlotItems
        (Ok (Plain (NewNetworkItem (do_Network o))));
      mkStep (nonnil (do_AuthUser o)) SlotItems
        (Ok (Plain (NewAuthUserItem (do_AuthUser o))));
      mkStep (nonnil (do_Protocol o)) SlotItems
        (Ok (Plain (NewProtocolItem (do_Protocol o))));
      mkStep (nonnil (do_Domain o) || nonnil (do_DomainSuffix o)) SlotDestinationAddress
        (plain (NewDomainItem (do_Domain o) (do_DomainSuffix o) DomainMatchStrategyAsIS));
      mkStep (nonnil (do_DomainKeyword o)) SlotDestinationAddress
        (Ok (Plain (NewDomainKeywordItem (do_DomainKeyword o) DomainMatchStrategyAsIS)));
      mkStep (nonnil (do_DomainRegex o)) SlotDestinationAddress
        (cause "domain_regex" (plain (NewDomainRegexItem (do_DomainRegex o) DomainMatchStrategyAsIS)));
      mkStep (nonnil (do_Geosite o)) SlotItems
        (Err (ENew "geosite database is deprecated in sing-box 1.8.0 and removed in sing-box 1.12.0"));
      mkStep (nonnil (do_SourceGeoIP o)) SlotItems
        (Err (ENew "geoip database is deprecated in sing-box 1.8.0 and removed in sing-box 1.12.0"));
      mkStep (nonnil (do_GeoIP o)) SlotItems
        (Err (ENew "geoip database is deprecated in sing-box 1.8.0 and removed in sing-box 1.12.0"));
      mkStep (nonnil (do_SourceIPCIDR o)) SlotSourceAddress
        (cause "source_ip_cidr" (plain (NewIPCIDRItem true (do_SourceIPCIDR o))));
      mkStep (nonnil (do_IPCIDR o)) SlotDestinationIPCIDR
        (cause "ip_cidr" (plain (NewIPCIDRItem false (do_IPCIDR o))));
      mkStep (do_SourceIPIsPrivate o) SlotSourceAddress
        (Ok (Plain (IPIsPrivateItem true)));
      mkStep (do_IPIsPrivate o) SlotDestinationIPCIDR
        (Ok (Plain (IPIsPrivateItem false)));
      mkStep (do_IPAcceptAny o) SlotDestinationIPCIDR
        (Ok (Plain IPAcceptAnyItem));
      mkStep (nonnone (do_ResponseRcode o)) SlotItems
        (Ok (Plain (NewDNSResponseRCodeItem (default 0 (do_ResponseRcode o)))));
      mkStep (nonnil (do_ResponseAnswer o)) SlotItems
        (Ok (Plain (NewDNSResponseRecordItem (do_ResponseAnswer o) dnsResponseAnswers)));
      mkStep (nonnil (do_ResponseNs o)) SlotItems
        (Ok (Plain (NewDNSResponseRecordItem (do_ResponseNs o) dnsResponseNS)));
      mkStep (nonnil (do_ResponseExtra o)) SlotItems
        (Ok (Plain (NewDNSResponseRecordItem (do_ResponseExtra o) dnsResponseExtra))) ].

(** The blocks of [NewDefaultDNSRule], from the ports on. *)
Definition NewDefaultDNSRule_environment_steps (o : RawDefaultDNSRule) : list step :=
    [ mkStep (nonnil (do_SourcePort o)) SlotSourcePort
        (Ok (Plain (NewPortItem true (do_SourcePort o))));
      mkStep (nonnil (do_SourcePortRange o)) SlotSourcePort
        (cause "source_port_range" (plain (NewPortRangeItem true (do_SourcePortRange o))));
      mkStep (nonnil (do_Port o)) SlotDestinationPort
        (Ok (Plain (NewPortItem false (do_Port o))));
      mkStep (nonnil (do_PortRange o)) SlotDestinationPort
        (cause "port_range" (plain (NewPortRangeItem false (do_PortRange o))));
      mkStep (nonnil (do_ProcessName o)) SlotItems
        (Ok (Plain (NewProcessItem (do_ProcessName o))));
      mkStep (nonnil (do_ProcessPath o)) SlotItems
        (Ok (Plain (NewProcessPathItem (do_ProcessPath o))));
      mkStep (nonnil (do_ProcessPathRegex o)) SlotItems
        (cause "process_path_regex" (plain (NewProcessPathRegexItem (do_ProcessPathRegex o))));
      mkStep (nonnil (do_PackageName o)) SlotItems
        (Ok (Plain (NewPackageNameItem (do_PackageName o))));
      mkStep (nonnil (do_PackageNameRegex o)) SlotItems
        (cause "package_name_regex" (plain (NewPackageNameRegexItem (do_PackageNameRegex o))));
      mkStep (nonnil (do_User o)) SlotItems
        (Ok (Plain (NewUserItem (do_User o))));
      mkStep (nonnil (do_UserID o)) SlotItems
        (Ok (Plain (NewUserIDItem (do_UserID o))));
      mkStep (nonnil (do_Outbound o)) SlotItems
        (Ok (Plain (NewOutboundRule (do_Outbound o))));
      mkStep (nonnil (do_ClashMode o)) SlotItems
        (Ok (Plain (NewClashModeItem (do_ClashMode o))));
      mkStep (nonnil (do_NetworkType o)) SlotItems
        (Ok (Plain (NewNetworkTypeItem (do_NetworkType o))));
      mkStep (do_NetworkIsExpensive o) SlotItems
        (Ok (Plain NetworkIsExpensiveItem));
      mkStep (do_NetworkIsConstrained o) SlotItems
        (Ok (Plain NetworkIsConstrainedItem));
      mkStep (nonnil (do_WIFISSID o)) SlotItems
        (Ok (Plain (NewWIFISSIDItem (do_WIFISSID o))));
      mkStep (nonnil (do_WIFIBSSID o)) SlotItems
        (Ok (Plain (NewWIFIBSSIDItem (do_WIFIBSSID o))));
      mkStep (nonnil (do_InterfaceAddress o)) SlotItems
        (Ok (Plain (NewInterfaceAddressItem (do_InterfaceAddress o))));
      mkStep (nonnil (do_NetworkInterfaceAddress o)) SlotItems
        (Ok (Plain (NewNetworkInterfaceAddressItem (do_NetworkInterfaceAddress o))));
      mkStep (nonnil (do_DefaultInterfaceAddress o)) SlotItems
        (Ok (Plain (NewDefaultInterfaceAddressItem (do_DefaultInterfaceAddress o))));
      mkStep (nonnil (do_SourceMACAddress o)) SlotItems
        (Ok (Plain (NewSourceMACAddressItem (do_SourceMACAddress o))));
      mkStep (nonnil (do_SourceHostname o)) SlotItems
        (Ok (Plain (NewSourceHostnameItem (do_SourceHostname o))));
      mkStep (nonnil (do_PreferredBy o)) SlotItems
        (Ok (PreferredByDNSBuilt (do_PreferredBy o)));
      mkStep (nonnil (do_DNSServerAddress o)) SlotItems
        (Ok (DNSServerAddressBuilt (do_DNSServerAddress o)));
      mkStep (nonnil (do_DNSSearchDomain o)) SlotItems
        (Ok (DNSSearchDomainBuilt (do_DNSSearchDomain o))) ].

Definition NewDefaultDNSRule_steps (o : RawDefaultDNSRule) : list step :=
  NewDefaultDNSRule_address_steps o ++ NewDefaultDNSRule_environment_steps o.

(** The last block of [NewDefaultRule] and [NewDefaultDNSRule]. *)
Definition finish_rule_set (kind : defaultKind) (tags : list string) (deprecated matchSource acceptEmpty : bool)
    (d : abstractDefaultRule BuiltItem) : result (Rule BuiltItem) :=
  if nonnil tags then
    if deprecated
    then Err (ENew "rule_set_ipcidr_match_source is deprecated in sing-box 1.10.0 and removed in sing-box 1.11.0")
    else Ok (RDefault kind (add_rule_set d) (Some (NewRuleSetItem tags matchSource acceptEmpty)))
  else Ok (RDefault kind d None).

Definition mode_error (mode : string) : error := ENew ("unknown logical mode: " +:+ mode).
Definition known_mode (mode : string) : bool :=
  bool_decide (mode = LogicalTypeAnd) || bool_decide (mode = LogicalTypeOr).

Definition sub_rule_cause {A : Type} (i : Z) (r : result A) : result A :=
  result_map_err (fun e => ECause e ("sub rule[" +:+ pretty i +:+ "]")) r.

Definition is_default_type (ty : string) : bool :=
  bool_decide (ty = ""%string) || bool_decide (ty = RuleTypeDefault).

Definition missing_conditions : error := ENew "missing conditions".
Definition unknown_type (ty : string) : error := ENew ("unknown rule type: " +:+ ty).

(** ** Headless rules *)

(** The rule and its [ruleCount]. *)
Definition headless_ruleCount (d : abstractDefaultRule BuiltItem) : Z :=
  let all := length (allItems d) in
  if (all =? length (destinationAddressItems d) + length (destinationIPCIDRItems d))%nat
  then Z.of_nat (length (destinationAddressItems d) + length (destinationIPCIDRItems d))
  else if (all =? length (sourceAddressItems d))%nat then Z.of_nat (length (sourceAddressItems d))
  else if (all =? length (sourcePortItems d))%nat then Z.of_nat (length (sourcePortItems d))
  else if (all =? length (destinationPortItems d))%nat then Z.of_nat (length (destinationPortItems d))
  else 1.

Definition NewDefaultHeadlessRule (o : DefaultHeadlessRule) : result (Rule BuiltItem * Z) :=
  let strategy := resolveStrategy (ho_DomainMatchStrategy o) in
  try d <- run_steps (NewDefaultHeadlessRule_steps strategy o) (empty_rule (ho_Invert o));
  Ok (RDefault KindHeadless d None, headless_ruleCount d).

(** [NewLogicalHeadlessRule], given the construction of a rule below. *)
Definition NewLogicalHeadlessRule (build : Z -> HeadlessRule -> result (Rule BuiltItem * Z))
    (mode : string) (rules : list HeadlessRule) (options_strategy : Z) (inv : bool) : result (Rule BuiltItem * Z) :=
  let strategy := resolveStrategy options_strategy in
  if negb (known_mode mode) then Err (mode_error mode)
  else
    try rs <- result_mapiM (fun i sub => sub_rule_cause i (build strategy sub)) 0 rules;
    Ok (RLogical mode (map fst rs) inv, 1).

(** [parent] is the strategy a logical parent has written into the options, or
    [AsIS]. *)
Fixpoint NewHeadlessRule (parent : Z) (r : HeadlessRule) {struct r} : result (Rule BuiltItem * Z) :=
  match r with
  | mkHeadlessRule ty d mode rules ls inv =>
      if is_default_type ty then
        let d' := ho_with_strategy d (inheritStrategy parent (ho_DomainMatchStrategy d)) in
        if negb (DefaultHeadlessRule_IsValid d') then Err missing_conditions
        else NewDefaultHeadlessRule d'
      else if bool_decide (ty = RuleTypeLogical) then
        match (if isnil rules then Some false else all_valid HeadlessRule_IsValid rules) with
        | None => Err (EPanic "unknown rule type")
        | Some false => Err missing_conditions
        | Some true => NewLogicalHeadlessRule NewHeadlessRule mode rules (inheritStrategy parent ls) inv
        end
      else Err (unknown_type ty)
  end.

(** ** Route rules *)

Section route.
(** [NewRuleAction] of rule_action.go: whether the action options are accepted. *)
Context (NewRuleAction : RuleActionOptions -> result unit).

Definition NewDefaultRule (o : RawDefaultRule) (action : RuleActionOptions) : result (Rule BuiltItem) :=
  try _ <- result_map_err (fun e => ECause e "action") (NewRuleAction action);
  let strategy := resolveStrategy (ro_DomainMatchStrategy o) in
  try d <- run_steps (NewDefaultRule_steps strategy o) (empty_rule (ro_Invert o));
  finish_rule_set KindRoute (ro_RuleSet o) (ro_Deprecated_RulesetIPCIDRMatchSource o)
    (ro_RuleSetIPCIDRMatchSource o) false d.

(** [ruleHasConfiguredAction] *)
Definition ruleHasConfiguredAction (r : RouteRule) : bool :=
  match r with
  | mkRouteRule ty _ _ _ _ _ action =>
      if is_default_type ty || bool_decide (ty = RuleTypeLogical) then negb (RuleAction_zero action) else false
  end.

Fixpoint validateNoNestedRuleActions (r : RouteRule) (nested : bool) {struct r} : result unit :=
  if nested && ruleHasConfiguredAction r
  then Err (ENew "rule action is not supported in nested rules")
  else
    match r with
    | mkRouteRule ty _ _ rules _ _ _ =>
        if negb (bool_decide (ty = RuleTypeLogical)) then Ok tt
        else
          try _ <- result_mapiM (fun i sub => sub_rule_cause i (validateNoNestedRuleActions sub true)) 0 rules;
          Ok tt
    end.

Definition missing_outbound (action : RuleActionOptions) (checkOutbound : bool) : bool :=
  (bool_decide (ra_Action action = ""%string) || bool_decide (ra_Action action = "route"%string)) &&
  bool_decide (ra_RouteOutbound action = ""%string) && checkOutbound.

(** [NewLogicalRule], given the construction of a rule below. *)
Definition NewLogicalRule (build : Z -> RouteRule -> bool -> result (Rule BuiltItem)) (mode : string)
    (rules : list RouteRule) (options_strategy : Z) (inv : bool) (action : RuleActionOptions)
    : result (Rule BuiltItem) :=
  try _ <- result_map_err (fun e => ECause e "action") (NewRuleAction action);
  let strategy := resolveStrategy options_strategy in
  if negb (known_mode mode) then Err (mode_error mode)
  else
    try rs <- result_mapiM (fun i sub =>
      try _ <- sub_rule_cause i (validateNoNestedRuleActions sub true);
      sub_rule_cause i (build strategy sub false)) 0 rules;
    Ok (RLogical mode rs inv).

Fixpoint NewRule (parent : Z) (r : RouteRule) (checkOutbound : bool) {struct r} : result (Rule BuiltItem) :=
  match r with
  | mkRouteRule ty d mode rules ls inv action =>
      if is_default_type ty then
        let d' := ro_with_strategy d (inheritStrategy parent (ro_DomainMatchStrategy d)) in
        if RawDefaultRule_zero d' && RuleAction_zero action then Err missing_conditions
        else if missing_outbound action checkOutbound then Err (ENew "missing outbound field")
        else NewDefaultRule d' action
      else if bool_decide (ty = RuleTypeLogical) then
        match (if isnil rules then Some false else all_valid Rule_IsValid rules) with
        | None => Err (EPanic "unknown rule type")
        | Some false => Err missing_conditions
        | Some true =>
            if missing_outbound action checkOutbound then Err (ENew "missing outbound field")
            else NewLogicalRule NewRule mode rules (inheritStrategy parent ls) inv action
        end
      else Err (unknown_type ty)
  end.
End route.

(** ** DNS rules *)

Definition IsEnabled (m : option DNSRuleMatchResponse) : bool :=
  match m with Some r => mr_Enabled r | None => false end.

Definition ResponseTag (m : option DNSRuleMatchResponse) : string :=
  match m with Some r => mr_Tag r | None => "" end.

Definition validateDNSRuleAction (action : DNSRuleActionOptions) : result unit :=
  let a := da_Action action in
  let is_route := bool_decide (a = ""%string) || bool_decide (a = "route"%string) in
  if bool_decide (a = "reject"%string) && bool_decide (rj_Method (da_DNSRejectOptions action) = "reply"%string)
  then Err (ENew "reject method `reply` is not supported for DNS rules")
  else
    let routeOptions :=
      if is_route then dro_Options (da_RouteOptions action)
      else if bool_decide (a = "evaluate"%string) then deo_Options (da_EvaluateOptions action)
      else if bool_decide (a = "route-options"%string) then da_RouteOptionsOptions action
      else zero_AbstractDNSRoute in
    if ar_RemoveClientSubnet routeOptions && nonnone (ar_ClientSubnet routeOptions)
    then Err (ENew "`client_subnet` and `remove_client_subnet` are mutually exclusive")
    else if da_Race action then
      if negb (is_route || bool_decide (a = "respond"%string) || bool_decide (a = "reject"%string) ||
               bool_decide (a = "predefined"%string))
      then Err (ENew "`race` requires a final action")
      else if dro_Speculative (da_RouteOptions action)
      then Err (ENew "`race` and `speculative` cannot be combined on the same rule")
      else Ok tt
    else Ok tt.

(** The message of [deprecated.OptionRuleSetIPCIDRAcceptEmpty]. *)
Definition accept_empty_message : string :=
  "Legacy `rule_set_ip_cidr_accept_empty` DNS rule item is deprecated in sing-box 1.14.0" +:+
  " and will be removed in sing-box 1.16.0, checkout documentation for migration: " +:+
  "https://sing-box.sagernet.org/migration/#migrate-address-filter-fields-to-response-matching".

Definition NewDefaultDNSRule (o : RawDefaultDNSRule) (legacyDNSMode : bool) : result (Rule BuiltItem) :=
  try d <- run_steps (NewDefaultDNSRule_steps o) (empty_rule (do_Invert o));
  if do_RuleSetIPCIDRAcceptEmpty o && negb legacyDNSMode then Err (ENew accept_empty_message)
  else
    finish_rule_set (KindDNS (IsEnabled (do_MatchResponse o)) (ResponseTag (do_MatchResponse o)))
      (do_RuleSet o) (do_Deprecated_RulesetIPCIDRMatchSource o) (do_RuleSetIPCIDRMatchSource o)
      (do_RuleSetIPCIDRAcceptEmpty o) d.

(** [dnsRuleHasConfiguredAction] *)
Definition dnsRuleHasConfiguredAction (r : DNSRule) : bool :=
  match r with
  | mkDNSRule ty _ _ _ _ action =>
      if is_default_type ty || bool_decide (ty = RuleTypeLogical) then negb (DNSRuleAction_zero action) else false
  end.

Fixpoint validateNoNestedDNSRuleActions (r : DNSRule) (nested : bool) {struct r} : result unit :=
  if nested && dnsRuleHasConfiguredAction r
  then Err (ENew "DNS rule action is not supported in nested rules")
  else
    match r with
    | mkDNSRule ty _ _ rules _ _ =>
        if negb (bool_decide (ty = RuleTypeLogical)) then Ok tt
        else
          try _ <- result_mapiM (fun i sub => sub_rule_cause i (validateNoNestedDNSRuleActions sub true)) 0 rules;
          Ok tt
    end.

(** [MatchResponseTags] and [MatchResponseAnonymous]; a logical rule caches the
    tags of its sub-rules, each once ([common.Uniq] keeps first occurrences). *)
Fixpoint uniq (l : list string) (seen : list string) : list string :=
  match l with
  | [] => []
  | x :: l' => if bool_decide (x ∈ seen) then uniq l' seen else x :: uniq l' (x :: seen)
  end.

Fixpoint MatchResponseTags {I : Type} (r : Rule I) : list string :=
  match r with
  | RDefault (KindDNS _ tag) _ _ => if bool_decide (tag = ""%string) then [] else [tag]
  | RDefault _ _ _ => []
  | RLogical _ rules _ => uniq (flat_map MatchResponseTags rules) []
  end.

Fixpoint MatchResponseAnonymous {I : Type} (r : Rule I) : bool :=
  match r with
  | RDefault (KindDNS matchResponse tag) _ _ => matchResponse && bool_decide (tag = ""%string)
  | RDefault _ _ _ => false
  | RLogical _ rules _ => existsb MatchResponseAnonymous rules
  end.

Definition missing_server (action : DNSRuleActionOptions) (checkServer : bool) : bool :=
  checkServer &&
  ((bool_decide (da_Action action = ""%string) || bool_decide (da_Action action = "route"%string)) &&
     bool_decide (dro_Server (da_RouteOptions action) = ""%string) ||
   bool_decide (da_Action action = "evaluate"%string) &&
     bool_decide (deo_Server (da_EvaluateOptions action) = ""%string)).

Definition nested_evaluate (action : DNSRuleActionOptions) (checkServer : bool) : bool :=
  negb checkServer && bool_decide (da_Action action = "evaluate"%string).

(** [NewLogicalDNSRule], given the construction of a rule below. *)
Definition NewLogicalDNSRule (build : DNSRule -> bool -> bool -> result (Rule BuiltItem)) (mode : string)
    (rules : list DNSRule) (inv : bool) (action : DNSRuleActionOptions) (legacyDNSMode : bool)
    : result (Rule BuiltItem) :=
  if negb (known_mode mode) then Err (mode_error mode)
  else
    try rs <- result_mapiM (fun i sub =>
      try _ <- sub_rule_cause i (validateNoNestedDNSRuleActions sub true);
      sub_rule_cause i (build sub false legacyDNSMode)) 0 rules;
    let rule := RLogical mode rs inv in
    if da_Race action && isnil (MatchResponseTags rule) && negb (MatchResponseAnonymous rule)
    then Err (ENew "`race` requires `match_response` in sub-rules")
    else Ok rule.

Fixpoint NewDNSRule (r : DNSRule) (checkServer legacyDNSMode : bool) {struct r} : result (Rule BuiltItem) :=
  match r with
  | mkDNSRule ty d mode rules inv action =>
      if is_default_type ty then
        if RawDefaultDNSRule_zero d && DNSRuleAction_zero action then Err missing_conditions
        else if nested_evaluate action checkServer
        then Err (ENew (da_Action action +:+ " is only allowed on top-level DNS rules"))
        else
          try _ <- validateDNSRuleAction action;
          if da_Race action && negb (IsEnabled (do_MatchResponse d))
          then Err (ENew "`race` requires `match_response`")
          else if missing_server action checkServer then Err (ENew "missing server field")
          else NewDefaultDNSRule d legacyDNSMode
      else if bool_decide (ty = RuleTypeLogical) then
        match (if isnil rules then Some false else all_valid DNSRule_IsValid rules) with
        | None => Err (EPanic "unknown DNS rule type")
        | Some false => Err missing_conditions
        | Some true =>
            if nested_evaluate action checkServer
            then Err (ENew (da_Action action +:+ " is only allowed on top-level DNS rules"))
            else
              try _ <- validateDNSRuleAction action;
              if missing_server action checkServer then Err (ENew "missing server field")
              else NewLogicalDNSRule NewDNSRule mode rules inv action legacyDNSMode
        end
      else Err (unknown_type ty)
  end.

(** ** Start *)

Definition start_item (b : BuiltItem) : result Item :=
  match b with
  | Plain it => Ok it
  | PreferredByBuilt tags strategy => PreferredByItem_Start tags strategy
  | PreferredByDNSBuilt tags => PreferredByDNSItem_Start tags
  | DNSServerAddressBuilt entries => DNSServerAddressItem_Start entries
  | DNSSearchDomainBuilt entries => DNSSearchDomainItem_Start entries
  end.

(** [RuleSetItem.Start]: every tag names a rule-set of the router. *)
Definition RuleSetItem_Start (router : string -> option (RuleSet (Rule Item))) {R : Type}
    (r : RuleSetItem R) : result (RuleSetItem (Rule Item)) :=
  try sets <- result_mapM (fun tag =>
    match router tag with
    | Some s => Ok s
    | None => Err (ENew ("rule-set not found: " +:+ tag))
    end) (tagList r);
  Ok (mkRuleSetItem (tagList r) sets (ipCidrMatchSource r) (ipCidrAcceptEmpty r)).

Definition start_any (a : AnyItem BuiltItem) : result (AnyItem Item) :=
  match a with
  | OfItem b => try it <- start_item b; Ok (OfItem it)
  | OfRuleSet => Ok OfRuleSet
  end.

(** [abstractDefaultRule.Start] walks [allItems]; the groups hold the same items. *)
Definition abstractDefaultRule_Start (d : abstractDefaultRule BuiltItem) : result (abstractDefaultRule Item) :=
  try all <- result_mapM start_any (allItems d);
  try its <- result_mapM start_item (items d);
  try sa <- result_mapM start_item (sourceAddressItems d);
  try sp <- result_mapM start_item (sourcePortItems d);
  try da <- result_mapM start_item (destinationAddressItems d);
  try dc <- result_mapM start_item (destinationIPCIDRItems d);
  try dp <- result_mapM start_item (destinationPortItems d);
  Ok (mkDefaultRule its sa sp da dc dp all (invert d)).

Fixpoint Rule_Start (router : string -> option (RuleSet (Rule Item))) (r : Rule BuiltItem) {struct r}
    : result (Rule Item) :=
  match r with
  | RDefault kind d ri =>
      try d' <- abstractDefaultRule_Start d;
      match ri with
      | None => Ok (RDefault kind d' None)
      | Some s => try s' <- RuleSetItem_Start router s; Ok (RDefault kind d' (Some s'))
      end
  | RLogical mode rules inv =>
      try rs <- result_mapM (Rule_Start router) rules; Ok (RLogical mode rs inv)
  end.

(** ** Rule-set summary ([rule_set.go]) *)

Fixpoint HasHeadlessRule (cond : DefaultHeadlessRule -> bool) (r : HeadlessRule) {struct r} : bool :=
  match r with
  | mkHeadlessRule ty d _ rules _ _ =>
      if bool_decide (ty = RuleTypeDefault) then cond d
      else if bool_decide (ty = RuleTypeLogical) then existsb (HasHeadlessRule cond) rules
      else false
  end.

Definition isProcessHeadlessRule (o : DefaultHeadlessRule) : bool :=
  nonnil (ho_ProcessName o) || nonnil (ho_ProcessPath o) || nonnil (ho_ProcessPathRegex o) ||
  nonnil (ho_PackageName o) || nonnil (ho_PackageNameRegex o).

Definition isWIFINetworkType (networkType : list Z) : bool := existsb (Z.eqb InterfaceTypeWIFI) networkType.

Definition isWIFIHeadlessRule (o : DefaultHeadlessRule) : bool :=
  nonnil (ho_WIFISSID o) || nonnil (ho_WIFIBSSID o) || IsAndroid && isWIFINetworkType (ho_NetworkType o).

Definition isIPCIDRHeadlessRule (o : DefaultHeadlessRule) : bool := nonnil (ho_IPCIDR o) || nonnone (ho_IPSet o).

Definition isDNSQueryTypeHeadlessRule (o : DefaultHeadlessRule) : bool := nonnil (ho_QueryType o).

(** Equal to a rule that has only the CIDR options: every other option is zero. *)
Definition ho_without_cidr (o : DefaultHeadlessRule) : DefaultHeadlessRule :=
  mkDefaultHeadlessRule (ho_QueryType o) (ho_Network o) (ho_Domain o) (ho_DomainSuffix o)
    (ho_DomainKeyword o) (ho_DomainRegex o) (ho_SourceIPCIDR o) [] (ho_SourcePort o)
    (ho_SourcePortRange o) (ho_Port o) (ho_PortRange o) (ho_ProcessName o) (ho_ProcessPath o)
    (ho_ProcessPathRegex o) (ho_PackageName o) (ho_PackageNameRegex o) (ho_NetworkType o)
    (ho_NetworkIsExpensive o) (ho_NetworkIsConstrained o) (ho_WIFISSID o) (ho_WIFIBSSID o)
    (ho_DomainMatchStrategy o) (ho_NetworkInterfaceAddress o) (ho_DefaultInterfaceAddress o)
    (ho_Invert o) (ho_DomainMatcher o) (ho_SourceIPSet o) None (ho_AdGuardDomain o)
    (ho_AdGuardDomainMatcher o).

Definition isNonIPCIDRHeadlessRule (o : DefaultHeadlessRule) : bool :=
  negb (DefaultHeadlessRule_zero (ho_without_cidr o)).

Definition buildRuleSetMetadata (headlessRules : list HeadlessRule) : RuleSetMetadata :=
  mkRuleSetMetadata
    (existsb (HasHeadlessRule isProcessHeadlessRule) headlessRules)
    (existsb (HasHeadlessRule isWIFIHeadlessRule) headlessRules)
    (existsb (HasHeadlessRule isIPCIDRHeadlessRule) headlessRules)
    (existsb (HasHeadlessRule isDNSQueryTypeHeadlessRule) headlessRules)
    (existsb (HasHeadlessRule isNonIPCIDRHeadlessRule) headlessRules).

(** [abstractRuleSet.reloadRules] up to the update of the rule-set: the rules,
    started (headless rules have nothing to resolve), their count, the summary. *)
Definition reloadRules (validate : RuleSetMetadata -> result unit) (headlessRules : list HeadlessRule)
    : result (list (Rule BuiltItem) * Z * RuleSetMetadata) :=
  try rules <- result_mapiM (fun i r =>
    result_map_err (fun e => ECause e ("parse rule_set.rules.[" +:+ pretty i +:+ "]"))
      (NewHeadlessRule DomainMatchStrategyAsIS r)) 0 headlessRules;
  let ruleCount := foldl (fun acc r => wrap 64 (acc + r.2)) 0 rules in
  let metadata := buildRuleSetMetadata headlessRules in
  try _ <- validate metadata;
  Ok (map fst rules, ruleCount, metadata).

End build.
