(* ===== verification/RuleBuilt.v ===== *)
(** * Properties of the constructors of rules

    What [NewHeadlessRule], [NewRule] and [NewDNSRule] establish about the rules
    they return: every item is registered once, items that read the response of a
    query sit only where matching defers them, and the summary of a rule-set tells
    whether its rules match destination addresses. *)

From stdpp Require Import base gmap strings list sets pretty.
From Stdlib Require Import ZArith Lia.
From S2P Require Import Prelude Net GoStrings Metadata Codec IPSet RuleMatch RuleSpec RuleDefer.
From S2P Require Import RuleItems RuleOptions RuleBuild.

Open Scope Z_scope.

(** ** Registered items *)

Section registered.
Context {I : Type}.
Implicit Types (d : abstractDefaultRule I).

(** The items of all groups. *)
Definition grouped d : list I :=
  items d ++ sourceAddressItems d ++ sourcePortItems d ++ destinationAddressItems d ++
  destinationIPCIDRItems d ++ destinationPortItems d.

(** [allItems] holds the items of the groups, and the rule-set item if any. *)
Definition registered (ruleSet : bool) d : Prop :=
  allItems d ≡ₚ map OfItem (grouped d) ++ (if ruleSet then [OfRuleSet] else []).

Lemma registered_empty inv : registered false (empty_rule (I:=I) inv).
Proof. by unfold registered. Qed.

Lemma grouped_add_item s it d : grouped (add_item s it d) ≡ₚ grouped d ++ [it].
Proof.
  unfold grouped, add_item. destruct s; cbn;
    rewrite <- ?app_assoc; repeat apply Permutation_app_head; cbn;
    rewrite <- ?Permutation_middle, ?app_nil_r, ?app_assoc, <- ?Permutation_cons_append; done.
Qed.

Lemma registered_add_item s it d : registered false d -> registered false (add_item s it d).
Proof.
  unfold registered. intros Hr. rewrite grouped_add_item, map_app. cbn [allItems add_item].
  by rewrite Hr, !app_nil_r.
Qed.

Lemma registered_add_rule_set d : registered false d -> registered true (add_rule_set d).
Proof. unfold registered. intros Hr. cbn. by rewrite Hr, app_nil_r. Qed.

(** A property of every default rule, through logical rules. *)
Fixpoint every_default (P : defaultKind -> abstractDefaultRule I -> option (RuleSetItem (Rule I)) -> Prop)
    (r : Rule I) : Prop :=
  match r with
  | RDefault kind d ri => P kind d ri
  | RLogical _ rules _ => foldr (fun r acc => every_default P r /\ acc) True rules
  end.
End registered.

(** ** Steps *)

Lemma run_steps_invariant (P : abstractDefaultRule BuiltItem -> Prop) steps d d' :
  Forall (fun st => forall d it, step_cond st = true -> step_item st = Ok it -> P d ->
    P (add_item (step_slot st) it d)) steps ->
  P d -> run_steps steps d = Ok d' -> P d'.
Proof.
  intros Hs. revert d. induction Hs as [|st steps Hst _ IH]; intros d Hd; cbn.
  - by intros [= <-].
  - destruct (step_cond st) eqn:Hc; [|by apply IH]. intros Hr. simpl_result. eauto.
Qed.

Lemma run_steps_registered steps d d' :
  registered false d -> run_steps steps d = Ok d' -> registered false d'.
Proof.
  apply run_steps_invariant. apply Forall_forall. intros st _ d0 it _ _. apply registered_add_item.
Qed.

Lemma run_steps_invert steps d d' : run_steps steps d = Ok d' -> invert d' = invert d.
Proof.
  intros Hr. symmetry. revert Hr. apply (run_steps_invariant (fun x => invert d = invert x)); [|done].
  apply Forall_forall. by intros st _ d0 it _ _ ->.
Qed.

Lemma run_steps_app s1 s2 d :
  run_steps (s1 ++ s2) d = result_bind (run_steps s1 d) (run_steps s2).
Proof.
  revert d. induction s1 as [|st s1 IH]; intros d; cbn; [done|].
  destruct (step_cond st); [|apply IH]. destruct (step_item st); [apply IH|done].
Qed.

Section placed.
Context `{Env} `{BuildContext}.

(** An item that does not look at the response. *)
Definition silent (b : BuiltItem) : bool :=
  match b with Plain it => negb (reads_response it) | _ => true end.

(** The only destination CIDR item of a headless rule. *)
Definition cidr_item (b : BuiltItem) : bool :=
  match b with Plain (IPCIDRItem _ false) => true | _ => false end.

(** An item that does not look at the records or the code of the response. *)
Definition quiet (it : Item) : bool :=
  match it with DNSResponseRCodeItem _ | DNSResponseRecordItem _ _ => false | _ => true end.

Definition quiet_built (b : BuiltItem) : bool := match b with Plain it => quiet it | _ => true end.

(** Where the constructors put items: silent ones everywhere but in the
    destination CIDR group, whose items satisfy [cidr].  [any] lifts the
    restriction on the plain items, for rules that match the response. *)
Definition slot_ok (any : bool) (cidr : BuiltItem -> bool) (s : slot) (b : BuiltItem) : bool :=
  match s with
  | SlotDestinationIPCIDR => cidr b
  | SlotItems => silent b || any
  | _ => silent b
  end.

Definition placed (any : bool) (cidr : BuiltItem -> bool) (d : abstractDefaultRule BuiltItem) : Prop :=
  Forall (fun b => silent b || any) (items d) /\
  Forall silent (sourceAddressItems d) /\ Forall silent (sourcePortItems d) /\
  Forall silent (destinationAddressItems d) /\ Forall silent (destinationPortItems d) /\
  Forall cidr (destinationIPCIDRItems d).

Lemma placed_add_item any cidr s b d :
  slot_ok any cidr s b = true -> placed any cidr d -> placed any cidr (add_item s b d).
Proof.
  intros Hs (H1 & H2 & H3 & H4 & H5 & H6).
  destruct s; cbn in Hs; unfold placed, add_item; cbn; rewrite ?Forall_app, ?Forall_singleton, ?Hs;
    split_and!; done.
Qed.

Definition step_ok (any : bool) (cidr : BuiltItem -> bool) (st : step) : Prop :=
  forall b, step_cond st = true -> step_item st = Ok b -> slot_ok any cidr (step_slot st) b = true.

Lemma run_steps_placed any cidr steps d d' :
  Forall (step_ok any cidr) steps -> placed any cidr d -> run_steps steps d = Ok d' -> placed any cidr d'.
Proof.
  intros Hs. apply run_steps_invariant. eapply Forall_impl; [exact Hs|].
  intros st Hst d0 b Hc Hb. apply placed_add_item. by apply Hst.
Qed.

Lemma NewDomainItem_silent ds ss st it : NewDomainItem ds ss st = Ok it -> silent (Plain it) = true.
Proof. unfold NewDomainItem. intros Hd. by repeat case_match; simplify_eq. Qed.

Lemma NewDomainRegexItem_silent es st it : NewDomainRegexItem es st = Ok it -> silent (Plain it) = true.
Proof. unfold NewDomainRegexItem. intros. by simpl_result. Qed.

Lemma NewIPCIDRItem_shape src ps it : NewIPCIDRItem src ps = Ok it -> exists s, it = IPCIDRItem s src.
Proof. unfold NewIPCIDRItem. intros. simpl_result. eauto. Qed.

Lemma NewPortRangeItem_silent src l it : NewPortRangeItem src l = Ok it -> silent (Plain it) = true.
Proof. unfold NewPortRangeItem. intros. by simpl_result. Qed.

Lemma NewProcessPathRegexItem_silent l it : NewProcessPathRegexItem l = Ok it -> silent (Plain it) = true.
Proof. unfold NewProcessPathRegexItem. intros. by simpl_result. Qed.

Lemma NewPackageNameRegexItem_silent l it : NewPackageNameRegexItem l = Ok it -> silent (Plain it) = true.
Proof. unfold NewPackageNameRegexItem. intros. by simpl_result. Qed.

Lemma plain_Ok r b : plain r = Ok b -> exists it, r = Ok it /\ b = Plain it.
Proof. unfold plain. intros. simpl_result. eauto. Qed.

Lemma cause_Ok message r b : cause message r = Ok b -> r = Ok b.
Proof. by destruct r. Qed.

(** One step: its item is a literal, or comes from one of the constructors above. *)
Ltac solve_step :=
  intros b Hc Hb; cbn [step_item step_slot step_cond slot_ok] in *;
  try (apply cause_Ok in Hb);
  first
  [ by (clear Hc; repeat case_match; simplify_eq)
  | (apply plain_Ok in Hb as (it & Hb & ->);
     first [ (apply NewIPCIDRItem_shape in Hb as [s ->]; done)
           | (try (apply orb_true_intro; left);
              eauto using NewDomainItem_silent, NewDomainRegexItem_silent, NewPortRangeItem_silent,
                NewProcessPathRegexItem_silent, NewPackageNameRegexItem_silent) ]) ].

Ltac solve_steps :=
  match goal with |- Forall _ ?l => let l' := eval hnf in l in change_no_check l with l' end;
  repeat (apply Forall_cons; split; [solve_step|]); by apply Forall_nil.

Lemma NewDefaultHeadlessRule_steps_ok strategy o :
  Forall (step_ok false cidr_item) (NewDefaultHeadlessRule_steps strategy o).
Proof. apply Forall_app. split; solve_steps. Qed.

Lemma NewDefaultRule_steps_ok strategy o :
  Forall (step_ok false (fun _ => true)) (NewDefaultRule_steps strategy o).
Proof. apply Forall_app. split; solve_steps. Qed.

(** Whether a DNS rule has items that look at the response as a whole. *)
Definition response_options (o : RawDefaultDNSRule) : bool :=
  nonnone (do_ResponseRcode o) || nonnil (do_ResponseAnswer o) || nonnil (do_ResponseNs o) ||
  nonnil (do_ResponseExtra o).

Lemma NewDefaultDNSRule_steps_ok o :
  Forall (step_ok (response_options o) quiet_built) (NewDefaultDNSRule_steps o).
Proof.
  apply Forall_app. split; [|solve_steps].
  unfold NewDefaultDNSRule_address_steps.
  repeat (apply Forall_cons; split;
    [first [solve_step
           |intros b Hc _; cbn [step_cond step_slot slot_ok] in *; unfold response_options;
            by rewrite Hc, ?orb_true_r]|]).
  by apply Forall_nil.
Qed.

Lemma placed_empty any cidr inv : placed any cidr (empty_rule inv).
Proof. by repeat split. Qed.

(** ** Built rules *)

Definition built_default (any : bool) (cidr : BuiltItem -> bool) (d : abstractDefaultRule BuiltItem)
    (ri : option (RuleSetItem (Rule BuiltItem))) : Prop :=
  registered (nonnone ri) d /\ placed any cidr d.

Definition built_headless (kind : defaultKind) (d : abstractDefaultRule BuiltItem)
    (ri : option (RuleSetItem (Rule BuiltItem))) : Prop :=
  kind = KindHeadless /\ ri = None /\ built_default false cidr_item d ri.

Lemma NewDefaultHeadlessRule_built o r n :
  NewDefaultHeadlessRule o = Ok (r, n) -> every_default built_headless r.
Proof.
  unfold NewDefaultHeadlessRule. intros Hr. simpl_result. cbn. split_and!; try done. split.
  - by eapply run_steps_registered; [apply registered_empty|].
  - by eapply run_steps_placed; [apply NewDefaultHeadlessRule_steps_ok|apply placed_empty|].
Qed.

Lemma sub_rule_cause_Ok {A : Type} i (c : result A) x : sub_rule_cause i c = Ok x -> c = Ok x.
Proof. by destruct c. Qed.

Lemma NewHeadlessRule_built o p r n : NewHeadlessRule p o = Ok (r, n) -> every_default built_headless r.
Proof.
  revert p r n. induction o as [ty d mode rules ls inv IH] using HeadlessRule_nested_ind; intros p r n.
  cbn. destruct (is_default_type ty).
  { destruct (DefaultHeadlessRule_IsValid _); cbn; [apply NewDefaultHeadlessRule_built|done]. }
  destruct (bool_decide _); [|done]. destruct (if isnil rules then _ else _) as [[]|]; [|done..].
  unfold NewLogicalHeadlessRule. destruct (known_mode mode); cbn; [|done]. intros Hr. simpl_result. cbn.
  rewrite foldr_and, Forall_map. apply result_mapiM_Forall2 in Heqr0.
  eapply Forall_Forall2_transfer; [exact Heqr0|exact IH|].
  intros sub [r' n'] Hsub [j Hj]. apply sub_rule_cause_Ok in Hj. by eapply Hsub.
Qed.

Lemma finish_rule_set_built any cidr kind tags dep ms ae d r :
  registered false d -> placed any cidr d -> finish_rule_set kind tags dep ms ae d = Ok r ->
  every_default (fun k d ri => k = kind /\ built_default any cidr d ri) r.
Proof.
  intros Hr Hp. unfold finish_rule_set. destruct (nonnil tags); [destruct dep; [done|]|];
    intros [= <-]; cbn; split; try done; split; try done. by apply registered_add_rule_set.
Qed.

(** A condition on the options of every default rule, through logical rules. *)
Fixpoint every_options (P : RawDefaultDNSRule -> bool) (o : DNSRule) : bool :=
  match o with
  | mkDNSRule ty d _ rules _ _ =>
      if is_default_type ty then P d
      else if bool_decide (ty = RuleTypeLogical) then forallb (every_options P) rules else true
  end.

(** A DNS rule that may be matched before its response is known. *)
Definition legacy_rule : DNSRule -> bool :=
  every_options (fun d => negb (response_options d) && negb (IsEnabled (do_MatchResponse d))).

(** A built DNS rule; [R] relates whether it matches a response to whether it has
    items that look at one. *)
Definition built_dns (R : bool -> bool -> bool) (kind : defaultKind) (d : abstractDefaultRule BuiltItem)
    (ri : option (RuleSetItem (Rule BuiltItem))) : Prop :=
  exists mr tag any, kind = KindDNS mr tag /\ R mr any = true /\ built_default any quiet_built d ri.

Lemma every_default_impl {I} (P Q : defaultKind -> abstractDefaultRule I -> option (RuleSetItem (Rule I)) -> Prop) r :
  (forall kind d ri, P kind d ri -> Q kind d ri) -> every_default P r -> every_default Q r.
Proof.
  intros HPQ. induction r as [kind d ri _|mode rules inv IH] using Rule_nested_ind; cbn; [auto|].
  rewrite !foldr_and. intros HP. eapply Forall_impl; [exact (proj2 (Forall_and _ _) (conj HP IH))|]. cbn.
  intros r [H1 H2]. auto.
Qed.

Lemma NewDefaultDNSRule_built R o lg r :
  R (IsEnabled (do_MatchResponse o)) (response_options o) = true ->
  NewDefaultDNSRule o lg = Ok r -> every_default (built_dns R) r.
Proof.
  intros HR. unfold NewDefaultDNSRule. intros Hr. simpl_result. destruct (_ && negb lg); [done|].
  eapply every_default_impl; [|eapply (finish_rule_set_built (response_options o)); [| |exact Hr]].
  - intros kind d ri [-> Hb]. by eexists _, _, _.
  - by eapply run_steps_registered; [apply registered_empty|].
  - by eapply run_steps_placed; [apply NewDefaultDNSRule_steps_ok|apply placed_empty|].
Qed.

Lemma finish_rule_set_tags kind tags dep ms ae d (r : Rule BuiltItem) :
  finish_rule_set kind tags dep ms ae d = Ok r -> exists d' ri, r = RDefault kind d' ri.
Proof. unfold finish_rule_set. intros Hr. destruct (nonnil tags); [destruct dep|]; by simplify_eq; eauto. Qed.

Lemma NewDefaultDNSRule_kind o legacyDNSMode (r : Rule BuiltItem) :
  NewDefaultDNSRule o legacyDNSMode = Ok r ->
  exists d ri, r = RDefault (KindDNS (IsEnabled (do_MatchResponse o)) (ResponseTag (do_MatchResponse o))) d ri.
Proof.
  unfold NewDefaultDNSRule. intros Hr. simpl_result. destruct (_ && negb legacyDNSMode); [done|].
  by apply finish_rule_set_tags in Hr.
Qed.

(** What a successful [NewDNSRule] went through. *)
Lemma NewDNSRule_inv ty d mode rules inv a cs lg r :
  NewDNSRule (mkDNSRule ty d mode rules inv a) cs lg = Ok r ->
  if is_default_type ty then
    NewDefaultDNSRule d lg = Ok r /\ (da_Race a = true -> IsEnabled (do_MatchResponse d) = true)
  else ty = RuleTypeLogical /\ exists rs, r = RLogical mode rs inv /\
    Forall2 (fun sub r' => NewDNSRule sub false lg = Ok r') rules rs /\
    (da_Race a = true -> MatchResponseTags r <> [] \/ MatchResponseAnonymous r = true).
Proof.
  cbn -[MatchResponseTags MatchResponseAnonymous]. destruct (is_default_type ty).
  { destruct (RawDefaultDNSRule_zero d && _); [done|]. destruct (nested_evaluate _ _); [done|].
    intros Hr. simpl_result. destruct (da_Race a), (IsEnabled (do_MatchResponse d)); cbn in Hr; try done;
    destruct (missing_server _ _); done. }
  case_bool_decide as Hty; [|done]. destruct (if isnil rules then _ else _) as [[]|]; [|done..].
  destruct (nested_evaluate _ _); [done|]. intros Hr. simpl_result.
  destruct (missing_server _ _); [done|]. unfold NewLogicalDNSRule in Hr.
  destruct (known_mode mode); cbn -[MatchResponseTags MatchResponseAnonymous] in Hr; [|done]. simpl_result.
  split; [done|]. eexists. split_and!; [by case_match; simplify_eq| |].
  - match goal with Hm : result_mapiM _ _ _ = Ok _ |- _ => apply result_mapiM_Forall2 in Hm;
      eapply Forall2_impl; [exact Hm|] end. intros sub r' [j Hj]. cbn in Hj. simpl_result. by apply sub_rule_cause_Ok in Hj.
  - intros Hrace. rewrite Hrace in Hr. case_match eqn:Hc; [done|]. simplify_eq.
    apply andb_false_iff in Hc as [Hc|Hc]; [left|right; by apply negb_false_iff].
    intros Ht. cbn [andb] in Hc. by rewrite Ht in Hc.
Qed.

Lemma NewDNSRule_built R o cs lg r :
  every_options (fun d => R (IsEnabled (do_MatchResponse d)) (response_options d)) o = true ->
  NewDNSRule o cs lg = Ok r -> every_default (built_dns R) r.
Proof.
  revert cs r. induction o as [ty d mode rules inv a IH] using DNSRule_nested_ind; intros cs r Hl Hr%NewDNSRule_inv.
  cbn in Hl. destruct (is_default_type ty); [by eapply NewDefaultDNSRule_built; [|apply Hr]|].
  destruct Hr as (-> & rs & -> & Hr & _). rewrite bool_decide_eq_true_2, forallb_Forall in Hl by done.
  cbn. rewrite foldr_and. eapply Forall_Forall2_transfer; [exact Hr|exact (proj2 (Forall_and _ _) (conj Hl IH))|].
  intros sub r' [Hsub Hs] Hj. by eapply Hs.
Qed.

Lemma NewDefaultRule_built NewRuleAction o a r :
  NewDefaultRule NewRuleAction o a = Ok r ->
  every_default (fun kind d ri => kind = KindRoute /\ built_default false (fun _ => true) d ri) r.
Proof.
  unfold NewDefaultRule. intros Hr. simpl_result. eapply finish_rule_set_built; [..|exact Hr].
  - by eapply run_steps_registered; [apply registered_empty|].
  - by eapply run_steps_placed; [apply NewDefaultRule_steps_ok|apply placed_empty|].
Qed.

Lemma NewRule_built NewRuleAction o p c r :
  NewRule NewRuleAction p o c = Ok r ->
  every_default (fun kind d ri => kind = KindRoute /\ built_default false (fun _ => true) d ri) r.
Proof.
  revert p c r. induction o as [ty d mode rules ls inv a IH] using RouteRule_nested_ind; intros p c r.
  cbn. destruct (is_default_type ty).
  { destruct (RawDefaultRule_zero _ && _); [done|]. destruct (missing_outbound _ _); [done|].
    apply NewDefaultRule_built. }
  destruct (bool_decide _); [|done]. destruct (if isnil rules then _ else _) as [[]|]; [|done..].
  destruct (missing_outbound _ _); [done|]. unfold NewLogicalRule. intros Hr. simpl_result.
  destruct (known_mode mode); cbn in Hr; [|done]. simpl_result. cbn. rewrite foldr_and.
  apply result_mapiM_Forall2 in Heqr1. eapply Forall_Forall2_transfer; [exact Heqr1|exact IH|].
  intros sub r' Hsub [j Hj]. cbn in Hj. simpl_result. apply sub_rule_cause_Ok in Hj. by eapply Hsub.
Qed.
End placed.
