(* ===== verification/RuleStarted.v ===== *)
(** * Started rules and loaded rule-sets

    From the rules the constructors build to the rules that match: what survives
    [Start], what loading a rule-set guarantees about its rules, and that the
    summary of a rule-set is exact about destination CIDR items. *)

From stdpp Require Import base gmap strings list sets pretty.
From Stdlib Require Import ZArith Lia.
From S2P Require Import Prelude Net GoStrings Metadata Codec IPSet RuleMatch RuleSpec RuleDefer.
From S2P Require Import RuleItems RuleOptions RuleBuild RuleBuilt.

Open Scope Z_scope.

Section started.
Context `{Env} `{BuildContext}.

(** ** Items *)

Lemma start_item_silent b it : start_item b = Ok it -> silent b = true -> reads_response it = false.
Proof.
  destruct b; cbn; [by intros [= <-] Hs%negb_true_iff|..];
    unfold PreferredByItem_Start, PreferredByDNSItem_Start, DNSServerAddressItem_Start,
      DNSSearchDomainItem_Start; intros Hr _; by simpl_result.
Qed.

Lemma silent_stable resp it : reads_response it = false -> stable resp it.
Proof. destruct it as [| | | | | | | | | | | | |? []|[]| | | | | | | | | | | | | | | | | | | | | | | | | | | |]; done. Qed.

Lemma cidr_item_source_stable resp b it :
  start_item b = Ok it -> cidr_item b = true -> source_stable resp it.
Proof.
  destruct b as [[]| | | |]; try done. cbn. destruct isSource; [done|]. intros [= <-] _ m Hs.
  cbn. unfold IPCIDRItem_Match. change (IPCIDRMatchSource (resolved resp m)) with (IPCIDRMatchSource m).
  by rewrite Hs.
Qed.

(** ** Default rules *)

(** [d'] holds the started items of [d], group by group. *)
Definition started (d : abstractDefaultRule BuiltItem) (d' : abstractDefaultRule Item) : Prop :=
  let each := Forall2 (fun b it => start_item b = Ok it) in
  Forall2 (fun b it => start_any b = Ok it) (allItems d) (allItems d') /\
  each (items d) (items d') /\ each (sourceAddressItems d) (sourceAddressItems d') /\
  each (sourcePortItems d) (sourcePortItems d') /\
  each (destinationAddressItems d) (destinationAddressItems d') /\
  each (destinationIPCIDRItems d) (destinationIPCIDRItems d') /\
  each (destinationPortItems d) (destinationPortItems d') /\ invert d' = invert d.

Lemma abstractDefaultRule_Start_started d d' : abstractDefaultRule_Start d = Ok d' -> started d d'.
Proof.
  unfold abstractDefaultRule_Start. intros Hr. simpl_result.
  repeat match goal with Hm : result_mapM _ _ = Ok _ |- _ => apply result_mapM_Forall2 in Hm end.
  by split_and!.
Qed.

Lemma started_silent b l l' resp :
  Forall2 (fun b it => start_item b = Ok it) l l' -> Forall (fun x => silent x || b) l -> b = false ->
  Forall (stable resp) l'.
Proof.
  intros HR HP ->. eapply Forall_Forall2_transfer; [exact HR|exact HP|]. intros x y Hx Hy.
  apply Is_true_true in Hx. rewrite orb_false_r in Hx. apply silent_stable. by apply (start_item_silent x).
Qed.

Lemma started_stable any cidr d d' resp src :
  started d d' -> placed any cidr d -> any = false -> (src = true -> cidr = cidr_item) ->
  stable_items resp src d'.
Proof.
  intros (_ & H1 & H2 & H3 & H4 & H5 & H6 & _) (P1 & P2 & P3 & P4 & P5 & P6) -> Hc.
  assert (Hs : forall l, Forall silent l -> Forall (fun x => silent x || false) l).
  { intros l Hl. eapply Forall_impl; [exact Hl|]. intros x Hx. by rewrite orb_false_r. }
  split_and!; try (eapply started_silent; eauto).
  intros Hsrc. rewrite (Hc Hsrc) in P6. eapply Forall_Forall2_transfer; [exact H5|exact P6|].
  intros x y Hx Hy. apply (cidr_item_source_stable resp x); [exact Hy|by apply Is_true_true].
Qed.

Lemma started_grouped d d' : started d d' ->
  Forall2 (fun b it => start_item b = Ok it) (grouped d) (grouped d').
Proof. intros (_ & H1 & H2 & H3 & H4 & H5 & H6 & _). unfold grouped. by repeat apply Forall2_app. Qed.

Lemma started_quiet any d d' :
  started d d' -> placed any quiet_built d -> Forall (fun it => quiet it || any) (grouped d').
Proof.
  intros Hs%started_grouped (P1 & P2 & P3 & P4 & P5 & P6).
  assert (Hq : forall b, silent b -> quiet_built b || any) by (by intros [[]| | | |]).
  assert (Hl : forall P l, (forall b, Is_true (P b) -> quiet_built b || any) -> Forall P l ->
    Forall (fun b => quiet_built b || any) l).
  { intros P l HP Hl. eapply Forall_impl; [exact Hl|]. intros b. apply HP. }
  eapply (Forall_Forall2_transfer (fun b => quiet_built b || any)); [exact Hs| |].
  - unfold grouped. rewrite !Forall_app. split_and!; try (by eapply Hl).
    + eapply Hl; [|exact P1]. intros b [Hb|Hb]%orb_True; [by apply Hq|]. apply orb_True. by right.
    + eapply Hl; [|exact P6]. intros b Hb. apply orb_True. by left.
  - intros b it Hb Hi. destruct b; cbn in Hi; [by injection Hi as <-|..];
      unfold PreferredByItem_Start, PreferredByDNSItem_Start, DNSServerAddressItem_Start,
        DNSSearchDomainItem_Start in Hi; simpl_result; done.
Qed.

Lemma started_registered b d d' : started d d' -> registered b d -> registered b d'.
Proof.
  intros Hs Hr. pose proof (started_grouped d d' Hs) as Hg. destruct Hs as [Ha _]. unfold registered in *.
  destruct (Permutation_Forall2 Hr Ha) as (l & -> & Hl). clear Hr Ha.
  assert (He : l = map OfItem (grouped d') ++ (if b then [OfRuleSet] else [])); [|by rewrite He].
  revert l Hl. induction Hg as [|x y xs ys Hxy _ IH]; cbn; intros l Hl.
  - destruct b; inversion Hl as [|? z ? zs Hz Hzs]; subst; [|done]. inversion Hzs; subst. cbn in Hz. congruence.
  - inversion Hl as [|? z ? zs Hz Hzs]; subst. cbn in Hz. rewrite Hxy in Hz. cbn in Hz.
    injection Hz as <-. f_equal. by apply IH.
Qed.

Lemma started_cidr d d' : started d d' ->
  bool_decide (destinationIPCIDRItems d' = []) = bool_decide (destinationIPCIDRItems d = []).
Proof. intros (_ & _ & _ & _ & _ & H5 & _). by inversion H5. Qed.

(** ** Rules *)

(** The default rules of a built rule and of the started one correspond. *)
Lemma Rule_Start_every router (P : defaultKind -> abstractDefaultRule BuiltItem ->
    option (RuleSetItem (Rule BuiltItem)) -> Prop) Q r r' :
  (forall kind d ri d', P kind d ri -> started d d' ->
     match ri with
     | None => Q kind d' None
     | Some s => forall s', RuleSetItem_Start router s = Ok s' -> Q kind d' (Some s')
     end) ->
  Rule_Start router r = Ok r' -> every_default P r -> every_default Q r'.
Proof.
  intros HPQ. revert r'. induction r as [kind d ri _|mode rules inv IH] using Rule_nested_ind; intros r' Hr HP.
  - cbn in Hr, HP. simpl_result.
    match goal with Hd : abstractDefaultRule_Start _ = Ok _ |- _ =>
      apply abstractDefaultRule_Start_started in Hd; specialize (HPQ _ _ _ _ HP Hd) end.
    destruct ri; simpl_result; cbn; auto.
  - cbn in Hr, HP. simpl_result. cbn. rewrite foldr_and in HP. rewrite foldr_and.
    match goal with Hm : result_mapM _ _ = Ok _ |- _ => apply result_mapM_Forall2 in Hm as Hm' end.
    eapply Forall_Forall2_transfer; [exact Hm'|exact (proj2 (Forall_and _ _) (conj HP IH))|].
    intros x y [Hx Hxy] Hy. auto.
Qed.

(** ** Headless rules *)

Definition started_headless (kind : defaultKind) (d : abstractDefaultRule Item)
    (ri : option (RuleSetItem (Rule Item))) : Prop :=
  kind = KindHeadless /\ ri = None /\ registered false d /\ Forall quiet (grouped d) /\
  forall resp src, stable_items resp src d.

Lemma headless_started router p o r n r' :
  NewHeadlessRule p o = Ok (r, n) -> Rule_Start router r = Ok r' -> every_default started_headless r'.
Proof.
  intros Hb Hs. eapply Rule_Start_every; [|exact Hs|by eapply NewHeadlessRule_built].
  intros kind d ri d' (-> & -> & Hr & Hp) Hd. split_and!; [done|done|by eapply started_registered| |].
  - eapply Forall_impl; [apply (started_quiet false _ _ Hd)|].
    + destruct Hp as (P1 & P2 & P3 & P4 & P5 & P6). split_and!; try done.
      eapply Forall_impl; [exact P6|]. by intros [[]| | | |].
    + intros it. cbn beta. by rewrite orb_false_r.
  - intros resp src. by eapply started_stable.
Qed.

Lemma headless_stable_rule resp src (r : Rule Item) :
  every_default started_headless r -> stable_rule resp src r.
Proof.
  revert src. induction r as [kind d ri _|mode rules inv IH] using Rule_nested_ind; intros src; cbn.
  - intros (-> & -> & _ & _ & Hst). split; [apply Hst|done].
  - rewrite !foldr_and. intros Hr. eapply Forall_impl; [exact (proj2 (Forall_and _ _) (conj Hr IH))|].
    intros r [H1 H2]. auto.
Qed.

Lemma headless_deferrable src (r : Rule Item) :
  every_default started_headless r -> no_dest_cidr src r = true -> deferrable src r = true.
Proof.
  revert src. induction r as [kind d ri _|mode rules inv IH] using Rule_nested_ind; intros src; cbn.
  - intros (-> & -> & _ & _) Hn. rewrite andb_true_r in Hn. apply negb_true_iff in Hn.
    rewrite Hn. by rewrite andb_false_r.
  - rewrite foldr_and, !forallb_Forall. intros Hr Hn.
    eapply Forall_impl; [exact (proj2 (Forall_and _ _) (conj Hr (proj2 (Forall_and _ _) (conj Hn IH))))|].
    intros r (H1 & H2 & H3). auto.
Qed.

(** ** A headless rule has nothing to resolve, so it always starts *)

Definition is_plain (b : BuiltItem) : bool := match b with Plain _ => true | _ => false end.

Definition plain_default (kind : defaultKind) (d : abstractDefaultRule BuiltItem)
    (ri : option (RuleSetItem (Rule BuiltItem))) : Prop :=
  ri = None /\ registered false d /\ Forall is_plain (grouped d).

Lemma NewDefaultHeadlessRule_plain_steps strategy o :
  Forall (fun st => forall b, step_item st = Ok b -> is_plain b = true) (NewDefaultHeadlessRule_steps strategy o).
Proof.
  assert (Hp : forall r b, plain r = Ok b -> is_plain b = true).
  { intros r b Hr. by apply plain_Ok in Hr as (it & _ & ->). }
  apply Forall_app; split;
    [unfold NewDefaultHeadlessRule_address_steps|unfold NewDefaultHeadlessRule_environment_steps];
    repeat (apply Forall_cons; split;
      [intros b Hb; cbn [step_item] in Hb; first [by injection Hb as <-|try apply cause_Ok in Hb; by eapply Hp]|]);
    by apply Forall_nil.
Qed.

Lemma run_steps_plain steps d d' :
  Forall (fun st => forall b, step_item st = Ok b -> is_plain b = true) steps ->
  Forall is_plain (grouped d) -> run_steps steps d = Ok d' -> Forall is_plain (grouped d').
Proof.
  intros Hs. apply (run_steps_invariant (fun d => Forall is_plain (grouped d))).
  eapply Forall_impl; [exact Hs|]. intros st Hst d0 b _ Hb Hd. rewrite grouped_add_item.
  apply Forall_app. split; [done|]. apply Forall_singleton. rewrite (Hst b Hb). done.
Qed.

Lemma NewHeadlessRule_plain o p r n : NewHeadlessRule p o = Ok (r, n) -> every_default plain_default r.
Proof.
  revert p r n. induction o as [ty d mode rules ls inv IH] using HeadlessRule_nested_ind; intros p r n.
  cbn. destruct (is_default_type ty).
  { destruct (DefaultHeadlessRule_IsValid _); cbn; [|done]. unfold NewDefaultHeadlessRule. intros Hr.
    simpl_result. cbn. split_and!; [done|by eapply run_steps_registered; [apply registered_empty|]|].
    eapply run_steps_plain; [apply NewDefaultHeadlessRule_plain_steps| |done]. by apply Forall_nil. }
  destruct (bool_decide _); [|done]. destruct (if isnil rules then _ else _) as [[]|]; [|done..].
  unfold NewLogicalHeadlessRule. destruct (known_mode mode); cbn; [|done]. intros Hr. simpl_result. cbn.
  rewrite foldr_and, Forall_map. apply result_mapiM_Forall2 in Heqr0.
  eapply Forall_Forall2_transfer; [exact Heqr0|exact IH|].
  intros sub [r' n'] Hsub [j Hj]. apply sub_rule_cause_Ok in Hj. by eapply Hsub.
Qed.

Lemma mapM_plain l : Forall is_plain l -> exists l', result_mapM start_item l = Ok l'.
Proof.
  induction 1 as [|b l Hb _ [l' IH]]; [by exists []|]. destruct b as [it| | | |]; try done.
  exists (it :: l'). cbn. by rewrite IH.
Qed.

Lemma mapM_any_plain (l : list BuiltItem) : Forall is_plain l ->
  exists l', result_mapM start_any (map OfItem l) = Ok l'.
Proof.
  induction 1 as [|b l Hb _ [l' IH]]; [by exists []|]. destruct b as [it| | | |]; try done.
  exists (OfItem it :: l'). cbn. by rewrite IH.
Qed.

Lemma mapM_perm {A B : Type} (f : A -> result B) l l' r : l ≡ₚ l' -> result_mapM f l' = Ok r ->
  exists r', result_mapM f l = Ok r'.
Proof.
  intros Hp Hr. apply result_mapM_Forall2 in Hr. symmetry in Hp.
  destruct (Permutation_Forall2 Hp Hr) as (r' & _ & Hr'). exists r'. by apply result_mapM_Forall2.
Qed.

Lemma abstractDefaultRule_Start_plain d :
  registered false d -> Forall is_plain (grouped d) -> exists d', abstractDefaultRule_Start d = Ok d'.
Proof.
  unfold registered. rewrite app_nil_r. intros Hr Hp. unfold abstractDefaultRule_Start.
  destruct (mapM_any_plain _ Hp) as [l Hl]. destruct (mapM_perm _ _ _ _ Hr Hl) as [l' ->].
  unfold grouped in Hp. rewrite !Forall_app in Hp. destruct Hp as (H1 & H2 & H3 & H4 & H5 & H6).
  destruct (mapM_plain _ H1) as [? ->], (mapM_plain _ H2) as [? ->], (mapM_plain _ H3) as [? ->],
    (mapM_plain _ H4) as [? ->], (mapM_plain _ H5) as [? ->], (mapM_plain _ H6) as [? ->].
  eexists. done.
Qed.

Lemma Rule_Start_plain router r : every_default plain_default r -> exists r', Rule_Start router r = Ok r'.
Proof.
  induction r as [kind d ri _|mode rules inv IH] using Rule_nested_ind; cbn.
  - intros (-> & Hr & Hp). destruct (abstractDefaultRule_Start_plain d Hr Hp) as [d' ->]. by eexists.
  - rewrite foldr_and. intros Hr.
    assert (Hm : exists l, result_mapM (Rule_Start router) rules = Ok l).
    { clear mode inv. induction IH as [|x l Hx _ IHl]; [by exists []|]. apply Forall_cons in Hr as [Hx' Hl].
      destruct (Hx Hx') as [x' Ex], (IHl Hl) as [l' El]. exists (x' :: l'). cbn. by rewrite Ex, El. }
    destruct Hm as [l ->]. by eexists.
Qed.

(** ** The summary of a rule-set *)

Definition slot_items {I : Type} (s : slot) (d : abstractDefaultRule I) : list I :=
  match s with
  | SlotItems => items d
  | SlotSourceAddress => sourceAddressItems d
  | SlotSourcePort => sourcePortItems d
  | SlotDestinationAddress => destinationAddressItems d
  | SlotDestinationIPCIDR => destinationIPCIDRItems d
  | SlotDestinationPort => destinationPortItems d
  end.

Definition slot_eqb (s s' : slot) : bool :=
  match s, s' with
  | SlotItems, SlotItems | SlotSourceAddress, SlotSourceAddress | SlotSourcePort, SlotSourcePort
  | SlotDestinationAddress, SlotDestinationAddress | SlotDestinationIPCIDR, SlotDestinationIPCIDR
  | SlotDestinationPort, SlotDestinationPort => true
  | _, _ => false
  end.

(** The number of steps that apply to a group. *)
Definition active (s : slot) (steps : list step) : nat :=
  foldr (fun st n => if slot_eqb (step_slot st) s && step_cond st then S n else n) 0%nat steps.

(** Every step that applies adds one item to its group, and nothing else does. *)
Lemma run_steps_count s steps d d' : run_steps steps d = Ok d' ->
  length (slot_items s d') = (length (slot_items s d) + active s steps)%nat.
Proof.
  revert d. induction steps as [|st steps IH]; intros d Hr; cbn in Hr.
  - injection Hr as <-. cbn. lia.
  - change (active s (st :: steps)) with
      (if slot_eqb (step_slot st) s && step_cond st then S (active s steps) else active s steps).
    destruct (step_cond st) eqn:Hc.
    + simpl_result. rewrite (IH _ Hr). rewrite andb_true_r.
      destruct (step_slot st), s; cbn -[active]; rewrite ?length_app; cbn -[active]; lia.
    + rewrite (IH _ Hr). by rewrite andb_false_r.
Qed.

Lemma NewDefaultHeadlessRule_cidr o d :
  run_steps (NewDefaultHeadlessRule_steps (resolveStrategy (ho_DomainMatchStrategy o)) o)
    (empty_rule (ho_Invert o)) = Ok d ->
  bool_decide (destinationIPCIDRItems d = []) = negb (isIPCIDRHeadlessRule o).
Proof.
  intros Hr. apply (run_steps_count SlotDestinationIPCIDR) in Hr. unfold isIPCIDRHeadlessRule.
  cbn in Hr. destruct (destinationIPCIDRItems d), (nonnil (ho_IPCIDR o)), (nonnone (ho_IPSet o)); done.
Qed.

(** Decoding writes the type of every rule out, see [HeadlessRule.UnmarshalJSON]
    and [srs.readRule]. *)
Fixpoint explicit_types (o : HeadlessRule) : bool :=
  match o with
  | mkHeadlessRule ty _ _ rules _ _ => negb (bool_decide (ty = ""%string)) && forallb explicit_types rules
  end.

Lemma no_dest_cidr_logical mode (rules : list (Rule Item)) inv :
  no_dest_cidr false (RLogical mode rules inv) = forallb (no_dest_cidr false) rules.
Proof. done. Qed.

Lemma summary_exact router o p r n r' :
  NewHeadlessRule p o = Ok (r, n) -> explicit_types o = true -> Rule_Start router r = Ok r' ->
  no_dest_cidr false r' = negb (HasHeadlessRule isIPCIDRHeadlessRule o).
Proof.
  revert p r n r'. induction o as [ty d mode rules ls inv IH] using HeadlessRule_nested_ind.
  intros p r n r' Hb He Hs. cbn in Hb, He. apply andb_true_iff in He as [Hty He].
  apply negb_true_iff in Hty. unfold is_default_type in Hb. rewrite Hty in Hb. cbn [HasHeadlessRule orb] in *.
  destruct (bool_decide (ty = RuleTypeDefault)) eqn:Hdef.
  { destruct (DefaultHeadlessRule_IsValid _); cbn in Hb; [|done]. unfold NewDefaultHeadlessRule in Hb.
    simpl_result. apply NewDefaultHeadlessRule_cidr in Heqr0. cbn in Hs. simpl_result.
    match goal with Hd : abstractDefaultRule_Start _ = Ok _ |- _ =>
      apply abstractDefaultRule_Start_started, started_cidr in Hd as Hc end.
    cbn. unfold dest_cidr. rewrite Hc, Heqr0. cbn. rewrite andb_true_r, !negb_involutive. done. }
  destruct (bool_decide (ty = RuleTypeLogical)); [|done].
  destruct (if isnil rules then _ else _) as [[]|]; [|done..].
  unfold NewLogicalHeadlessRule in Hb. destruct (known_mode mode); cbn in Hb; [|done]. simpl_result. cbn in Hs. simpl_result.
  apply result_mapiM_Forall2 in Heqr0.
  match goal with Hm : result_mapM _ (map fst ?a) = Ok ?b |- _ =>
    apply result_mapM_Forall2 in Hm; revert b Hm end.
  rewrite no_dest_cidr_logical || cbn [no_dest_cidr]. clear -IH He Heqr0.
  induction Heqr0 as [|o [r n] rules a [j Hj] _ IHa]; intros b Hm; inversion Hm as [|? r' ? b' Hr' Hb']; subst; [done|].
  apply Forall_cons in IH as [IHo IH]. cbn in He. apply andb_true_iff in He as [Heo He].
  apply sub_rule_cause_Ok in Hj. cbn. rewrite negb_orb, <- (IHo _ _ _ _ Hj Heo Hr').
  cbn in IHa. f_equal. by apply IHa.
Qed.

(** ** Loaded rule-sets *)

(** [s] was loaded from some options by [reloadRules]. *)
Definition loaded (s : RuleSet (Rule Item)) : Prop :=
  exists validate options rules count,
    forallb explicit_types options = true /\
    reloadRules validate options = Ok (rules, count, rs_metadata s) /\
    result_mapM (Rule_Start (fun _ => None)) rules = Ok (rs_rules s).

Lemma loaded_rules s : loaded s ->
  Forall (every_default started_headless) (rs_rules s) /\
  forallb (no_dest_cidr false) (rs_rules s) = negb (ContainsIPCIDRRule (rs_metadata s)).
Proof.
  intros (validate & options & rules & count & He & Hr & Hs). unfold reloadRules in Hr. simpl_result.
  match goal with Hmd : _ = rs_metadata s |- _ => rewrite <- Hmd; clear Hmd end.
  cbn [ContainsIPCIDRRule buildRuleSetMetadata]. clear Heqr0 validate.
  apply result_mapiM_Forall2 in Heqr. apply result_mapM_Forall2 in Hs.
  remember (rs_rules s) as b eqn:Hb. clear Hb s. revert b Hs He.
  induction Heqr as [|o [r n] options rs [j Hj] _ IHa]; intros b Hs He;
    inversion Hs as [|? r' ? b' Hr' Hb']; subst; [done|].
  cbn in He. apply andb_true_iff in He as [Heo He]. destruct (IHa _ Hb' He) as [IH1 IH2].
  destruct (NewHeadlessRule _ o) as [[r0 n0]|] eqn:Hn; [|done]. cbn in Hj. injection Hj as <- <-. split.
  - constructor; [by eapply headless_started|done].
  - cbn. rewrite negb_orb, <- IH2. f_equal. by eapply summary_exact.
Qed.

(** ** DNS rules *)

(** A started legacy DNS rule whose rule-sets were loaded. *)
Definition started_legacy (kind : defaultKind) (d : abstractDefaultRule Item)
    (ri : option (RuleSetItem (Rule Item))) : Prop :=
  (exists tag, kind = KindDNS false tag) /\ registered (nonnone ri) d /\
  (forall resp, stable_items resp false d) /\
  (forall s, ri = Some s -> Forall loaded (setList s)).

Lemma RuleSetItem_Start_loaded {R} router (s : RuleSetItem R) s' :
  (forall tag rs, router tag = Some rs -> loaded rs) -> RuleSetItem_Start router s = Ok s' ->
  Forall loaded (setList s').
Proof.
  intros Hl. unfold RuleSetItem_Start. intros Hr. simpl_result. cbn. apply result_mapM_Forall2 in Heqr.
  eapply (Forall_Forall2_transfer (fun _ => True)); [exact Heqr|by apply Forall_true|]. intros tag rs _ Ht. cbn in Ht.
  destruct (router tag) eqn:Hrt; [|done]. simpl_result. by eapply Hl.
Qed.

Lemma legacy_started router o cs lg r r' :
  (forall tag rs, router tag = Some rs -> loaded rs) ->
  legacy_rule o = true -> NewDNSRule o cs lg = Ok r -> Rule_Start router r = Ok r' ->
  every_default started_legacy r'.
Proof.
  intros Hl Ho Hb Hs. eapply Rule_Start_every; [|exact Hs|by apply (NewDNSRule_built (fun mr any => negb any && negb mr)) in Hb].
  intros kind d ri d' (mr & tag & any & -> & HR & [Hr Hp]) Hd.
  apply andb_true_iff in HR as [->%negb_true_iff ->%negb_true_iff].
  assert (Hst : forall resp, stable_items resp false d') by (intros; by eapply started_stable).
  pose proof (started_registered _ _ _ Hd Hr) as Hr'.
  destruct ri as [s|].
  - intros s' Hs'. split_and!; [by eexists|done|done|]. intros ? [= <-]. by eapply RuleSetItem_Start_loaded.
  - split_and!; [by eexists|done|done|done].
Qed.

(** Rule-sets matched against the source hold default rules only. *)
Definition is_default (r : Rule Item) : bool := match r with RDefault _ _ _ => true | RLogical _ _ _ => false end.

Fixpoint source_sets_plain (r : Rule Item) : bool :=
  match r with
  | RDefault _ _ None => true
  | RDefault _ _ (Some s) =>
      implb (ipCidrMatchSource s) (forallb (fun rs => forallb is_default (rs_rules rs)) (setList s))
  | RLogical _ rules _ => forallb source_sets_plain rules
  end.

Lemma headless_source_no_cidr (r : Rule Item) :
  every_default started_headless r -> is_default r = true -> no_dest_cidr true r = true.
Proof. destruct r; [|done]. by intros (_ & -> & _). Qed.

Lemma sets_no_dest_cidr s :
  Forall loaded (setList s) -> ContainsDestinationIPCIDRRule s = false ->
  implb (ipCidrMatchSource s) (forallb (fun rs => forallb is_default (rs_rules rs)) (setList s)) = true ->
  forallb (fun rs => forallb (no_dest_cidr (ipCidrMatchSource s)) (rs_rules rs)) (setList s) = true.
Proof.
  unfold ContainsDestinationIPCIDRRule. intros Hl Hc Hp. apply forallb_Forall, Forall_forall. intros rs Hrs.
  rewrite Forall_forall in Hl. destruct (loaded_rules rs (Hl rs Hrs)) as [Hh Hsum].
  destruct (ipCidrMatchSource s).
  - cbn in Hp. rewrite forallb_Forall, Forall_forall in Hp. specialize (Hp rs Hrs).
    rewrite forallb_Forall in Hp. apply forallb_Forall.
    eapply Forall_impl; [exact (proj2 (Forall_and _ _) (conj Hh Hp))|]. intros r [H1 H2].
    by apply headless_source_no_cidr.
  - rewrite Hsum. apply negb_true_iff. apply not_true_is_false. intros Ht.
    rewrite <- not_true_iff_false, existsb_exists in Hc. destruct Hc. exists rs. split; [|done].
    by apply list_elem_of_In.
Qed.

Lemma legacy_no_dest_cidr r :
  every_default started_legacy r -> WithAddressLimit r = false -> source_sets_plain r = true ->
  no_dest_cidr false r = true.
Proof.
  induction r as [kind d ri _|mode rules inv IH] using Rule_nested_ind; cbn.
  - intros (_ & _ & _ & Hl). unfold dest_cidr. cbn. rewrite negb_involutive.
    destruct (bool_decide _); [|done]. cbn. destruct ri as [s|]; [|done]. intros Hc Hp.
    by apply sets_no_dest_cidr; [apply Hl| |].
  - rewrite foldr_and, !forallb_Forall. intros Hr Hw Hp. rewrite Forall_forall in IH, Hr, Hp.
    apply Forall_forall. intros r Hin. apply IH; auto. apply not_true_is_false. intros Ht.
    rewrite <- not_true_iff_false, existsb_exists in Hw. destruct Hw. exists r. split; [|done].
    by apply list_elem_of_In.
Qed.

Lemma legacy_deferrable r :
  every_default started_legacy r -> no_dest_cidr false r = true -> deferrable false r = true.
Proof.
  induction r as [kind d ri _|mode rules inv IH] using Rule_nested_ind; cbn.
  - intros ([tag ->] & _ & _ & Hl) Hn. apply andb_true_iff in Hn as [Hc Hn]. apply negb_true_iff in Hc.
    assert (Hd : dest_cidr false d = false) by done. rewrite Hc, andb_false_r. cbn. destruct ri as [s|]; [|done]. specialize (Hl s eq_refl).
    rewrite forallb_Forall in Hn |- *. eapply Forall_impl; [exact (proj2 (Forall_and _ _) (conj Hl Hn))|].
    intros rs [Hrs Hno]. destruct (loaded_rules rs Hrs) as [Hh _]. unfold set_deferrable.
    destruct (mergeableRuleIn (rs_rules rs)) as [b|] eqn:Hm.
    + apply mergeableRuleIn_Some in Hm. rewrite Hm in Hno. cbn in Hno. rewrite !andb_true_r in Hno.
      apply negb_true_iff in Hno. rewrite Hd, Hno. by rewrite andb_false_r.
    + rewrite Hno. rewrite forallb_Forall in Hno. rewrite (proj2 (forallb_Forall _ _)); [by destruct (has_dest_address d)|].
      eapply Forall_impl; [exact (proj2 (Forall_and _ _) (conj Hh Hno))|]. intros r [H1 H2].
      by apply headless_deferrable.
  - rewrite foldr_and, !forallb_Forall. intros Hr Hn.
    eapply Forall_impl; [exact (proj2 (Forall_and _ _) (conj Hr (proj2 (Forall_and _ _) (conj Hn IH))))|].
    intros r (H1 & H2 & H3). auto.
Qed.

Lemma legacy_stable_rule resp r : every_default started_legacy r -> stable_rule resp false r.
Proof.
  induction r as [kind d ri _|mode rules inv IH] using Rule_nested_ind; cbn.
  - intros (_ & _ & Hst & Hl). split; [apply Hst|]. destruct ri as [s|]; [|done]. specialize (Hl s eq_refl).
    apply foldr_and. eapply Forall_impl; [exact Hl|]. intros rs Hrs. apply foldr_and.
    destruct (loaded_rules rs Hrs) as [Hh _]. eapply Forall_impl; [exact Hh|]. intros r Hr.
    by apply headless_stable_rule.
  - rewrite !foldr_and. intros Hr. eapply Forall_impl; [exact (proj2 (Forall_and _ _) (conj Hr IH))|].
    intros r [H1 H2]. auto.
Qed.

(** ** Pre-matching and final matching *)

Lemma MatchAddressLimit_sat (r : Rule Item) m resp :
  deferrable false r = true -> IgnoreDestinationIPCIDRMatch m = false ->
  MatchAddressLimit r m resp = sat r (resolved resp (ResetRuleCache m)).
Proof.
  intros Hd Hi.
  assert (Hc : complete (resolved resp (ResetRuleCache m))) by done.
  destruct (Match_exact r (resolved resp (ResetRuleCache m)) Hc) as [He _].
  rewrite <- He. unfold MatchAddressLimit. by destruct r as [[| |[] tag] d ri|mode rules inv].
Qed.

Lemma LegacyPreMatch_Match (r : Rule Item) m :
  deferrable false r = true ->
  LegacyPreMatch r m =
    ((Match r (set_IgnoreDestinationIPCIDRMatch m true)).1,
     set_IgnoreDestinationIPCIDRMatch (Match r (set_IgnoreDestinationIPCIDRMatch m true)).2 false).
Proof.
  intros Hd. unfold LegacyPreMatch.
  destruct r as [[| |[] tag] d ri|mode rules inv]; try done; cbn -[Match];
    change (Match (RDefault KindRoute d ri)) with (abstractDefaultRule_Match Match d ri) ||
    change (Match (RDefault KindHeadless d ri)) with (abstractDefaultRule_Match Match d ri) ||
    change (Match (RDefault (KindDNS false tag) d ri)) with (abstractDefaultRule_Match Match d ri) ||
    change (Match (RLogical mode rules inv)) with (abstractLogicalRule_Match Match mode rules inv);
    by case_match.
Qed.

Lemma LegacyPreMatch_outcome (r : Rule Item) m resp :
  deferrable false r = true -> stable_rule resp false r -> IgnoreDestinationIPCIDRMatch m = false ->
  outcome (LegacyPreMatch r (ResetRuleCache m)) (MatchAddressLimit r m resp) /\
  (no_dest_cidr false r = true -> DeferredIPCIDRMatchGroups (LegacyPreMatch r (ResetRuleCache m)).2 = 0).
Proof.
  intros Hd Hst Hi. rewrite (LegacyPreMatch_Match r _ Hd), (MatchAddressLimit_sat r m resp Hd Hi).
  destruct (Match_sound resp r false (set_IgnoreDestinationIPCIDRMatch (ResetRuleCache m) true) Hd Hst)
    as [Ho Hn]; [done|].
  rewrite (sat_view r _ (resolved resp (ResetRuleCache m))) in Ho by done.
  split; [exact Ho|exact Hn].
Qed.
End started.
