(* ===== verification/Sample.v ===== *)
(** * Concrete inputs for the witnesses

    A small environment in which every parameter of the rule items is a concrete
    function, and a few metadata records and rules.  Nothing here models code;
    the witnesses of the theorems evaluate the model on these values. *)

From stdpp Require Import base gmap strings list.
From Stdlib Require Import ZArith Lia.
From S2P Require Import Prelude Net GoStrings Metadata Codec IPSet RuleMatch RuleSpec RuleDefer.
From S2P Require Import RuleItems RuleOptions RuleBuild RuleStarted.

Open Scope Z_scope.

Definition sample_unicode : GoUnicode := {|
  unicode_ToLower := fun s => s;
  unicode_EqualFold := fun a b => bool_decide (a = b);
  unicode_TrimSpace := fun s => s
|}.

(** The set of at most one IPv4 host. *)
Definition sample_ip_set (l : list Prefix) : result (list (Addr * Addr)) :=
  match l with
  | [] => Ok []
  | [mkPrefix (Addr4 v) 32] => if (0 <=? v) && (v <? 4294967296) then Ok [(Addr4 v, Addr4 v)] else Err ErrInvalid
  | _ => Err ErrInvalid
  end.

(** Addresses from four or sixteen bytes, exact domains, sets of one host. *)
Definition sample_env : Env := {|
  env_GoUnicode := sample_unicode;
  IsAndroid := false;
  IsDomain := fun s => negb (bool_decide (sa_Fqdn s = ""%string));
  IsIP := fun s => addr_IsValid (sa_Addr s);
  IsIPv6 := fun s => addr_Is6 (sa_Addr s);
  IsPublicAddr := fun _ => true;
  AddrFromIP := fun b => if (length b =? 4)%nat then Addr4 (be_value b) else Addr6 (be_value b) "";
  NewMatcher := fun domains _ _ s => bool_decide (s ∈ domains);
  NewAdGuardMatcher := fun _ _ => false;
  BuildIPSet := sample_ip_set;
  CanonicalName := fun s => s;
  IsDuplicate := fun a b => bool_decide (a = b);
  Compile := fun _ => Ok (fun _ => false);
  DefaultNetworkInterface := None;
  NetworkInterfaces := [];
  Monitor := None;
  FinderInterfaces := [];
  WIFIState_SSID := "";
  WIFIState_BSSID := "";
  ClashMode := None;
  Transport := fun _ => None;
  OutboundByTag := fun _ => None
|}.

Definition sample_build : BuildContext := {| router_strategy := None; hasNetworkManager := false |}.

(** A query for [domain] from 10.0.0.1. *)
Definition sample_conn (domain : string) : ConnFields :=
  mkConnFields "in" 4 "udp" (mkSocksaddr (Addr4 167772161) 5353 "") (mkSocksaddr AddrInvalid 53 "")
    "" "" "" "" "" [] domain [] None None None "" 1 zero_prefix false false.

Definition sample_metadata (domain : string) : InboundContext :=
  mkInboundContext (sample_conn domain) None ∅ false (mkRuleCache false false false false false false 0 false).

(** A response with one A record. *)
Definition sample_response (ip : list Z) : Msg :=
  mkMsg 0 true false true true RcodeSuccess [] [mkRR (mkRRHeader "example.org." TypeA ClassINET 60) (RR_A ip)] [] [].

Definition host_set (v : Z) : Set_ := FromIPSet [(Addr4 v, Addr4 v)].
Definition domain_item (domain : string) : Item := DomainItem (fun s => bool_decide (s = domain)) DomainMatchStrategyAsIS.

(** A default rule from its destination items. *)
Definition destination_rule (domains cidrs : list Item) (ruleSet inv : bool) : abstractDefaultRule Item :=
  mkDefaultRule [] [] [] domains cidrs []
    (map OfItem (domains ++ cidrs) ++ (if ruleSet then [OfRuleSet] else [])) inv.

Definition cidr_headless (v : Z) : Rule Item :=
  RDefault KindHeadless (destination_rule [] [IPCIDRItem (host_set v) false] false false) None.

Definition cidr_metadata : RuleSetMetadata := mkRuleSetMetadata false false true false false.

(** ** Options *)

(** A DNS rule with a domain and rule-sets. *)
Definition sample_dns_options (domain : string) (ruleSet : list string) (inv : bool) : RawDefaultDNSRule :=
  mkRawDefaultDNSRule [] 0 [] [] false
    [] [] [] [domain] [] [] [] [] false [] [] [] [] [] [] [] [] [] [] [] [] [] [] false false [] [] []
    [] [] [] [] [] [] [] ruleSet false None [] false false None [] [] [] inv [] [] [] false false.

Definition sample_action (action : string) (race : bool) (server : string) : DNSRuleActionOptions :=
  mkDNSRuleActionOptions action race (mkDNSRouteAction server false zero_AbstractDNSRoute)
    (mkDNSEvaluateAction "" "" false zero_AbstractDNSRoute) zero_AbstractDNSRoute (mkDNSRejectAction None "" false)
    (mkDNSPredefinedAction None [] [] []).

Definition sample_dns_rule (domain : string) (ruleSet : list string) (inv : bool) : DNSRule :=
  mkDNSRule RuleTypeDefault (sample_dns_options domain ruleSet inv) "" [] false (sample_action "route" false "local").

(** A headless rule with domains and prefixes. *)
Definition sample_headless (domains : list string) (prefixes : list Prefix) : HeadlessRule :=
  mkHeadlessRule RuleTypeDefault
    (mkDefaultHeadlessRule [] [] domains [] [] [] [] prefixes [] [] [] [] [] [] [] [] [] [] false false [] []
       0 [] [] false None None None [] None) "" [] 0 false.

Definition host_prefix (v : Z) : Prefix := mkPrefix (Addr4 v) 32.

(** The rule-set loaded from some options, when they are accepted. *)
Definition sample_load (E : Env) (options : list HeadlessRule) : RuleSet (Rule Item) :=
  match @reloadRules E sample_build (fun _ => Ok tt) options with
  | Ok (rules, _, metadata) =>
      match result_mapM (@Rule_Start E (fun _ => None)) rules with
      | Ok started => mkRuleSet started metadata
      | Err _ => mkRuleSet [] metadata
      end
  | Err _ => mkRuleSet [] cidr_metadata
  end.

(** A rule-set of one domain rule, and one of two address rules. *)
Definition domain_set : RuleSet (Rule Item) := sample_load sample_env [sample_headless ["b.example"] []].
Definition address_set : RuleSet (Rule Item) :=
  sample_load sample_env [sample_headless [] [host_prefix 1]; sample_headless [] [host_prefix 2]].

Definition sample_router (tag : string) : option (RuleSet (Rule Item)) :=
  if bool_decide (tag = "domains"%string) then Some domain_set
  else if bool_decide (tag = "addresses"%string) then Some address_set else None.

(** The rule that options become. *)
Definition sample_started (o : DNSRule) : result (Rule Item) :=
  try r <- @NewDNSRule sample_env o true true;
  @Rule_Start sample_env sample_router r.

(** Such a rule-set is loaded. *)
Lemma sample_loaded (E : Env) options :
  forallb explicit_types options = true ->
  (exists x, @reloadRules E sample_build (fun _ => Ok tt) options = Ok x /\
     exists l, result_mapM (@Rule_Start E (fun _ => None)) x.1.1 = Ok l) ->
  @loaded E sample_build (sample_load E options).
Proof.
  intros He ([[rules n] md] & Hr & l & Hl). unfold loaded, sample_load. rewrite Hr. cbn in Hl. rewrite Hl.
  by eexists _, _, _, _.
Defined.
