(* ===== verification/RuleTheorems.v ===== *)
(** * Theorems about rule matching

    The properties of the rule engine over the items of the program, the link
    between pre-matching and final matching of DNS rules, and the behaviours that
    depart from the documentation. *)

From stdpp Require Import base gmap strings list sets pretty.
From Stdlib Require Import ZArith Lia.
From S2P Require Import Prelude Net GoStrings Metadata Codec IPSet RuleMatch RuleSpec RuleDefer.
From S2P Require Import RuleItems RuleOptions RuleBuild RuleBuilt RuleStarted Sample.

Open Scope Z_scope.

Section lemmas.
Context `{Env} `{BuildContext}.

(** No rule of the tree has an action of its own. *)
Fixpoint no_actions (r : RouteRule) : bool :=
  match r with
  | mkRouteRule ty _ _ rules _ _ _ =>
      negb (ruleHasConfiguredAction r) && (if bool_decide (ty = RuleTypeLogical) then forallb no_actions rules else true)
  end.

Lemma validate_no_actions (r : RouteRule) :
  is_ok (validateNoNestedRuleActions r true) = no_actions r.
Proof.
  induction r as [ty d mode rules ls inv a IH] using RouteRule_nested_ind.
  cbn [validateNoNestedRuleActions no_actions]. destruct (ruleHasConfiguredAction _); [done|]. cbn [andb negb].
  destruct (bool_decide _); cbn [negb]; [|done].
  assert (Hl : forall i, is_ok (result_mapiM (fun i sub => sub_rule_cause i (validateNoNestedRuleActions sub true)) i rules)
    = forallb no_actions rules).
  { induction IH as [|r rules Hr _ IHl]; intros i; cbn; [done|]. rewrite <- Hr.
    destruct (validateNoNestedRuleActions r true); cbn; [|done]. rewrite <- (IHl (i + 1)).
    by destruct (result_mapiM _ _ _). }
  specialize (Hl 0). by destruct (result_mapiM _ _ _).
Qed.
End lemmas.

Section theorems.
Context `{Env} `{BuildContext}.

(** C1. Matching a rule against complete metadata (nothing ignored, nothing
    deferred) decides exactly the declarative reading of the rule: every plain item
    holds, every group that has alternatives has one that holds, rule-sets join or
    conjoin as documented, inversion flips the answer; and nothing is left deferred. *)
Theorem Match_spec (r : Rule Item) (m : InboundContext) :
  IgnoreDestinationIPCIDRMatch m = false -> DeferredIPCIDRMatchGroups m = 0 ->
  (Match r m).1 = sat r m /\ DeferredIPCIDRMatchGroups (Match r m).2 = 0.
Proof. intros Hi Hd. by apply Match_exact. Qed.

(** Matching a rule changes nothing of the metadata but the bookkeeping of the
    engine: the connection, the response and the flags an item can observe are the
    ones it was given, whatever the rule, the flags and the answer. *)
Theorem Match_frame (r : Rule Item) (m : InboundContext) :
  item_view (Match r m).2 = item_view m /\
  IgnoreDestinationIPCIDRMatch (Match r m).2 = IgnoreDestinationIPCIDRMatch m.
Proof. exact (Match_same r m). Qed.

(** C2. A DNS rule built from options without response items and without
    [match_response], and started with rule-sets that were loaded from their options, in
    which no domain alternative shares a destination group with an address filter
    ([deferrable]): if pre-matching it before the response is known rejects, the final
    match rejects every response; if it accepts and defers nothing, the final match
    accepts every response. *)
Theorem LegacyPreMatch_sound router o checkServer legacyMode r r' m resp :
  (forall tag rs, router tag = Some rs -> loaded rs) ->
  legacy_rule o = true -> NewDNSRule o checkServer legacyMode = Ok r -> Rule_Start router r = Ok r' ->
  deferrable false r' = true -> IgnoreDestinationIPCIDRMatch m = false ->
  ((LegacyPreMatch r' (ResetRuleCache m)).1 = false -> MatchAddressLimit r' m resp = false) /\
  ((LegacyPreMatch r' (ResetRuleCache m)).1 = true ->
   DeferredIPCIDRMatchGroups (LegacyPreMatch r' (ResetRuleCache m)).2 = 0 ->
   MatchAddressLimit r' m resp = true).
Proof.
  intros Hl Ho Hb Hs Hd Hi. pose proof (legacy_started _ _ _ _ _ _ Hl Ho Hb Hs) as Hst.
  apply LegacyPreMatch_outcome; [done|by apply legacy_stable_rule|done].
Qed.

(** A DNS rule that was built from options without response items, started with
    rule-sets that were loaded from their options, and reports no address limit, is
    decided by its pre-match: the final match agrees with it on every response.
    Rule-sets matched against the source must not hold logical rules. *)
Theorem no_address_limit_prematch_final router o checkServer legacyMode r r' m resp :
  (forall tag rs, router tag = Some rs -> loaded rs) ->
  legacy_rule o = true -> NewDNSRule o checkServer legacyMode = Ok r -> Rule_Start router r = Ok r' ->
  WithAddressLimit r' = false -> source_sets_plain r' = true -> IgnoreDestinationIPCIDRMatch m = false ->
  (LegacyPreMatch r' (ResetRuleCache m)).1 = MatchAddressLimit r' m resp.
Proof.
  intros Hl Ho Hb Hs Hw Hp Hi. pose proof (legacy_started _ _ _ _ _ _ Hl Ho Hb Hs) as Hst.
  pose proof (legacy_no_dest_cidr _ Hst Hw Hp) as Hn.
  destruct (LegacyPreMatch_outcome r' m resp) as [(_ & Hf & Ht) Hd]; try done;
    [by apply legacy_deferrable|by apply legacy_stable_rule|].
  destruct (LegacyPreMatch r' (ResetRuleCache m)).1; symmetry; auto.
Qed.

(** A logical rule answers the same whether or not its caller asked for
    addresses to be matched against the source: it resets the flag before every
    sub-rule. *)
Theorem logical_ignores_source_flag mode (rules : list (Rule Item)) inv m b :
  IgnoreDestinationIPCIDRMatch m = false -> DeferredIPCIDRMatchGroups m = 0 ->
  (Match (RLogical mode rules inv) (set_IPCIDRMatchSource m b)).1 = (Match (RLogical mode rules inv) m).1.
Proof.
  intros Hi Hd. destruct (Match_exact (RLogical mode rules inv) m) as [-> _]; [done|].
  by destruct (Match_exact (RLogical mode rules inv) (set_IPCIDRMatchSource m b)) as [-> _].
Qed.

(** A rule-set that was loaded reports destination CIDR rules exactly when one
    of its rules, at any depth, filters destination addresses; its rules are plain
    headless rules whose items are all registered. *)
Theorem loaded_rule_set_summary (s : RuleSet (Rule Item)) :
  loaded s ->
  ContainsIPCIDRRule (rs_metadata s) = negb (forallb (no_dest_cidr false) (rs_rules s)) /\
  Forall (every_default started_headless) (rs_rules s).
Proof.
  intros Hs. destruct (loaded_rules s Hs) as [Hh ->]. by rewrite negb_involutive.
Qed.

(** A logical route rule is accepted only if no rule below it, at any depth,
    has an action of its own. *)
Theorem nested_actions_rejected NewRuleAction parent d mode rules ls inv action checkOutbound r :
  NewRule NewRuleAction parent (mkRouteRule RuleTypeLogical d mode rules ls inv action) checkOutbound = Ok r ->
  forallb no_actions rules = true.
Proof.
  cbn [NewRule]. change (is_default_type RuleTypeLogical) with false.
  rewrite (bool_decide_eq_true_2 (RuleTypeLogical = RuleTypeLogical)) by done.
  destruct (if isnil rules then _ else _) as [[]|]; [|done..].
  destruct (missing_outbound _ _); [done|]. unfold NewLogicalRule. intros Hr. simpl_result.
  destruct (known_mode mode); cbn in Hr; [|done]. simpl_result. apply result_mapiM_Forall2 in Heqr1.
  apply forallb_Forall. clear -Heqr1. induction Heqr1 as [|x y rules rs [j Hj] _ IH]; constructor; [|done].
  apply Is_true_true. rewrite <- validate_no_actions. cbn in Hj.
  by destruct (validateNoNestedRuleActions x true).
Qed.

(** A DNS rule that races is accepted only if it, or a rule below it, matches a
    response, tagged or anonymous. *)
Theorem race_requires_match_response o checkServer legacyMode r :
  NewDNSRule o checkServer legacyMode = Ok r ->
  (match o with mkDNSRule _ _ _ _ _ action => da_Race action end) = true ->
  MatchResponseTags r <> [] \/ MatchResponseAnonymous r = true.
Proof.
  destruct o as [ty d mode rules inv a]. intros Hr%NewDNSRule_inv Hrace. cbn in Hr.
  destruct (is_default_type ty); [|by destruct Hr as (_ & rs & -> & _ & Hb); auto].
  destruct Hr as [(d' & ri & ->)%NewDefaultDNSRule_kind Hb]. rewrite (Hb Hrace). cbn.
  case_bool_decide; [by right|by left].
Qed.

(** The options of a headless rule that only looks at the network. *)
Definition network_options networkType expensive constrained ssid bssid interfaces default inv : DefaultHeadlessRule :=
  mkDefaultHeadlessRule [] [] [] [] [] [] [] [] [] [] [] [] [] [] [] [] [] networkType expensive constrained
    ssid bssid DomainMatchStrategyAsIS interfaces default inv None None None [] None.

(** Without a network manager a headless rule that only looks at the network is
    accepted, has no items, and matches every connection, inverted or not. *)
Theorem network_rule_without_manager nt ex co ssid bssid ifs def inv :
  hasNetworkManager = false ->
  exists d, NewDefaultHeadlessRule (network_options nt ex co ssid bssid ifs def inv) =
      Ok (RDefault KindHeadless d None, 0) /\
    exists d', abstractDefaultRule_Start d = Ok d' /\
      forall m, (Match (RDefault KindHeadless d' None) m).1 = true.
Proof.
  intros Hn. exists (empty_rule inv). split; [|by exists (empty_rule inv)].
  unfold NewDefaultHeadlessRule, NewDefaultHeadlessRule_steps, NewDefaultHeadlessRule_environment_steps.
  rewrite Hn. done.
Qed.
End theorems.

(** ** Witnesses *)

Section witnesses.
#[local] Existing Instance sample_env.
#[local] Existing Instance sample_build.

Lemma domain_set_loaded : loaded domain_set.
Proof. apply sample_loaded; [done|]. eexists; split; [reflexivity|]. eexists. reflexivity. Defined.

Lemma address_set_loaded : loaded address_set.
Proof. apply sample_loaded; [done|]. eexists; split; [reflexivity|]. eexists. reflexivity. Defined.

Lemma sample_router_loaded tag rs : sample_router tag = Some rs -> loaded rs.
Proof.
  unfold sample_router. case_bool_decide; [intros [= <-]; apply domain_set_loaded|].
  case_bool_decide; [intros [= <-]; apply address_set_loaded|done].
Defined.

Definition two_domains : Rule Item :=
  RDefault KindRoute (destination_rule [domain_item "a.example"] [] false false) None.

Lemma Match_spec_witness :
  sat two_domains (sample_metadata "a.example") = true /\
  (Match two_domains (sample_metadata "a.example")).1 = sat two_domains (sample_metadata "a.example") /\
  DeferredIPCIDRMatchGroups (Match two_domains (sample_metadata "a.example")).2 = 0.
Proof. split; [reflexivity|]. apply Match_spec; reflexivity. Defined.

(** A rule for a domain rejects another one and accepts its own, before and after the
    response. *)
Lemma LegacyPreMatch_sound_witness : exists r r', NewDNSRule (sample_dns_rule "a.example" [] false) true true = Ok r /\ Rule_Start sample_router r = Ok r' /\
  MatchAddressLimit r' (sample_metadata "b.example") (sample_response [0; 0; 0; 2]) = false /\
  MatchAddressLimit r' (sample_metadata "a.example") (sample_response [0; 0; 0; 2]) = true.
Proof.
  eexists _, _. split; [reflexivity|]. split; [reflexivity|]. split.
  - eapply (LegacyPreMatch_sound sample_router (sample_dns_rule "a.example" [] false) true true);
      [exact sample_router_loaded|reflexivity|reflexivity|reflexivity|reflexivity|reflexivity|reflexivity].
  - eapply (LegacyPreMatch_sound sample_router (sample_dns_rule "a.example" [] false) true true);
      [exact sample_router_loaded|reflexivity|reflexivity|reflexivity|reflexivity|reflexivity|reflexivity|reflexivity].
Defined.

Lemma no_address_limit_prematch_final_witness :
  exists r r', NewDNSRule (sample_dns_rule "a.example" ["domains"%string] false) true true = Ok r /\
    Rule_Start sample_router r = Ok r' /\
    (LegacyPreMatch r' (ResetRuleCache (sample_metadata "b.example"))).1 =
      MatchAddressLimit r' (sample_metadata "b.example") (sample_response [0; 0; 0; 2]) /\
    MatchAddressLimit r' (sample_metadata "b.example") (sample_response [0; 0; 0; 2]) = true.
Proof.
  eexists _, _. split; [reflexivity|]. split; [reflexivity|]. split; [|reflexivity].
  eapply (no_address_limit_prematch_final sample_router (sample_dns_rule "a.example" ["domains"%string] false) true true);
    [exact sample_router_loaded|reflexivity|reflexivity|reflexivity|reflexivity|reflexivity|reflexivity].
Defined.

Lemma logical_ignores_source_flag_witness :
  (Match (RLogical "and" [cidr_headless 167772161] false)
     (set_IPCIDRMatchSource (sample_metadata "a.example") true)).1 =
  (Match (RLogical "and" [cidr_headless 167772161] false) (sample_metadata "a.example")).1.
Proof. apply logical_ignores_source_flag; reflexivity. Defined.

Lemma loaded_rule_set_summary_witness :
  ContainsIPCIDRRule (rs_metadata address_set) = true /\
  ContainsIPCIDRRule (rs_metadata address_set) = negb (forallb (no_dest_cidr false) (rs_rules address_set)) /\
  Forall (every_default started_headless) (rs_rules address_set).
Proof. split; [reflexivity|]. apply loaded_rule_set_summary. exact address_set_loaded. Defined.

Definition sample_sub_rule (port : Z) : RouteRule :=
  mkRouteRule RuleTypeDefault
    (mkRawDefaultRule [] 0 [] [] [] [] [] [] [] [] [] [] [] [] false [] false [] [] [port] [] [] [] [] [] [] [] []
       [] [] false false [] [] [] [] [] [] [] [] [] [] [] false 0 false false)
    "" [] 0 false (mkRuleActionOptions "" "" []).

Lemma nested_actions_rejected_witness :
  forallb no_actions [sample_sub_rule 443; sample_sub_rule 80] = true.
Proof.
  eapply (nested_actions_rejected (fun _ => Ok tt) 0 zero_RawDefaultRule "or"
    [sample_sub_rule 443; sample_sub_rule 80] 0 false (mkRuleActionOptions "route" "direct" []) true).
  reflexivity.
Defined.

(** A rule on the answer code of an evaluated response, which races. *)
Definition racing_rule : DNSRule :=
  mkDNSRule RuleTypeDefault
    (mkRawDefaultDNSRule [] 0 [] [] false
      [] [] [] [] [] [] [] [] false [] [] [] [] [] [] [] [] [] [] [] [] [] [] false false [] [] []
      [] [] [] [] [] [] [] [] false (Some (mkMatchResponse true "fast")) [] false false (Some 0) [] [] []
      false [] [] [] false false)
    "" [] false
    (sample_action "respond" true "").

Lemma race_requires_match_response_witness :
  exists r, NewDNSRule racing_rule true false = Ok r /\
    (MatchResponseTags r <> [] \/ MatchResponseAnonymous r = true).
Proof.
  eexists. split; [reflexivity|].
  apply (race_requires_match_response racing_rule true false); reflexivity.
Defined.

Lemma network_rule_without_manager_witness :
  exists d, NewDefaultHeadlessRule (network_options [] false false ["home"%string] [] [] [] false) =
      Ok (RDefault KindHeadless d None, 0) /\
    exists d', abstractDefaultRule_Start d = Ok d' /\
      forall m, (Match (RDefault KindHeadless d' None) m).1 = true.
Proof. apply network_rule_without_manager. reflexivity. Defined.

(** Pre-matching is not sound for an inverted rule that combines a domain with
    a rule-set of several address rules: built from its options and started with
    loaded rule-sets, it is rejected before the response is known although the
    final match accepts a response outside of the rule-set. *)
Theorem inverted_prematch_unsound :
  exists r r', NewDNSRule (sample_dns_rule "a.example" ["addresses"%string] true) true true = Ok r /\
    Rule_Start sample_router r = Ok r' /\
    (LegacyPreMatch r' (ResetRuleCache (sample_metadata "a.example"))).1 = false /\
    MatchAddressLimit r' (sample_metadata "a.example") (sample_response [0; 0; 0; 9]) = true.
Proof. eexists _, _. split_and!; reflexivity. Qed.

(** The same rule-set item, matched against the source: an address rule of the set
    decides on the source, the same rule below a logical rule on the destination. *)
Definition source_item (rules : list (Rule Item)) : RuleSetItem (Rule Item) :=
  mkRuleSetItem ["set"%string] [mkRuleSet rules cidr_metadata] true false.

Definition source_flag_rule (rules : list (Rule Item)) : Rule Item :=
  RDefault (KindDNS false "") (destination_rule [] [] true false) (Some (source_item rules)).

(** With [rule_set_ip_cidr_match_source] an address rule of the rule-set
    matches the source 10.0.0.1; wrapped into a logical rule it does not, and the
    rule that reports no address limit depends on the response. *)
Theorem logical_rule_loses_match_source :
  let m := sample_metadata "a.example" in
  let wrapped := source_flag_rule [RLogical "and" [cidr_headless 167772161] false] in
  (Match (source_flag_rule [cidr_headless 167772161]) m).1 = true /\
  (Match wrapped m).1 = false /\
  WithAddressLimit wrapped = false /\
  MatchAddressLimit wrapped m (sample_response [10; 0; 0; 1]) = true /\
  MatchAddressLimit wrapped m (sample_response [10; 0; 0; 2]) = false.
Proof. split_and!; reflexivity. Qed.
End witnesses.
