(* ===== verification/DnsMode.v ===== *)
(** * Which mode the DNS rules run in, and their validation

    The functions of [src/dns/router.go] that look at the options of the DNS rules
    before any rule is built: whether the rules need or rule out the legacy mode
    ([resolveLegacyDNSMode]), whether the response references of the rules are well
    scoped ([validateLegacyDNSModeDisabledRules]), and whether the summary of a
    rule-set may change while the router runs ([ValidateRuleSetMetadataUpdate]). *)

From stdpp Require Import base gmap strings list pretty.
From Stdlib Require Import ZArith Lia.
From S2P Require Import Prelude Net Metadata GoStrings RuleMatch RuleItems RuleOptions RuleBuild.

Open Scope Z_scope.

(** ** Messages of [deprecated.Note.MessageWithLink] *)

Definition MessageWithLink (description deprecated scheduled link : string) : string :=
  if negb (empty_string link)
  then description +:+ " is deprecated in sing-box " +:+ deprecated +:+ " and will be removed in sing-box " +:+
       scheduled +:+ ", checkout documentation for migration: " +:+ link
  else description +:+ " is deprecated in sing-box " +:+ deprecated +:+ " and will be removed in sing-box " +:+
       scheduled +:+ ".".

Definition OptionLegacyDNSAddressFilter : string :=
  MessageWithLink "Legacy Address Filter Fields in DNS rules" "1.14.0" "1.16.0"
    "https://sing-box.sagernet.org/migration/#migrate-address-filter-fields-to-response-matching".

Definition OptionLegacyDNSRuleStrategy : string :=
  MessageWithLink "Legacy `strategy` DNS rule action option" "1.14.0" "1.16.0"
    "https://sing-box.sagernet.org/migration/#migrate-dns-rule-action-strategy-to-rule-items".

(** ** Requirements of one rule *)

Record dnsRuleModeFlags : Type := mkModeFlags {
  flag_disabled : bool;
  flag_needed : bool;
  flag_neededFromStrategy : bool
}.

Definition zero_flags : dnsRuleModeFlags := mkModeFlags false false false.

Definition flags_merge (f other : dnsRuleModeFlags) : dnsRuleModeFlags :=
  mkModeFlags (flag_disabled f || flag_disabled other) (flag_needed f || flag_needed other)
    (flag_neededFromStrategy f || flag_neededFromStrategy other).

Definition defaultRuleNeedsLegacyDNSModeFromAddressFilter (rule : RawDefaultDNSRule) : bool :=
  if do_RuleSetIPCIDRAcceptEmpty rule then true
  else negb (IsEnabled (do_MatchResponse rule)) &&
       (do_IPAcceptAny rule || nonnil (do_IPCIDR rule) || do_IPIsPrivate rule).

Definition hasResponseMatchFields (rule : RawDefaultDNSRule) : bool :=
  nonnone (do_ResponseRcode rule) || nonnil (do_ResponseAnswer rule) || nonnil (do_ResponseNs rule) ||
  nonnil (do_ResponseExtra rule).

Definition defaultRuleDisablesLegacyDNSMode (rule : RawDefaultDNSRule) (action : DNSRuleActionOptions) : bool :=
  IsEnabled (do_MatchResponse rule) || hasResponseMatchFields rule ||
  bool_decide (da_Action action = "evaluate"%string) || bool_decide (da_Action action = "respond"%string) ||
  (0 <? do_IPVersion rule) || nonnil (do_QueryType rule).

Definition is_route_action (action : string) : bool :=
  empty_string action || bool_decide (action = "route"%string).

Definition dnsRuleActionDisablesLegacyDNSMode (action : DNSRuleActionOptions) : bool :=
  if da_Race action then true
  else if is_route_action (da_Action action) then
    ar_DisableOptimisticCache (dro_Options (da_RouteOptions action)) || dro_Speculative (da_RouteOptions action)
  else if bool_decide (da_Action action = "evaluate"%string) then
    ar_DisableOptimisticCache (deo_Options (da_EvaluateOptions action)) || deo_Speculative (da_EvaluateOptions action)
  else if bool_decide (da_Action action = "route-options"%string) then
    ar_DisableOptimisticCache (da_RouteOptionsOptions action)
  else false.

Definition DomainStrategyAsIS : Z := 0.

Definition dnsRuleActionHasStrategy (action : DNSRuleActionOptions) : bool :=
  if is_route_action (da_Action action) then
    negb (ar_Strategy (dro_Options (da_RouteOptions action)) =? DomainStrategyAsIS)
  else if bool_decide (da_Action action = "evaluate"%string) then
    negb (ar_Strategy (deo_Options (da_EvaluateOptions action)) =? DomainStrategyAsIS)
  else if bool_decide (da_Action action = "route-options"%string) then
    negb (ar_Strategy (da_RouteOptionsOptions action) =? DomainStrategyAsIS)
  else false.

(** Accessors that look through the rule type; an unknown type has no action. *)
Definition known_type (ty : string) : bool := is_default_type ty || bool_decide (ty = RuleTypeLogical).

Definition dnsRuleActionType (rule : DNSRule) : string :=
  match rule with
  | mkDNSRule ty _ _ _ _ action =>
      if known_type ty then if empty_string (da_Action action) then "route" else da_Action action else ""
  end.

Definition dnsRuleActionServer (rule : DNSRule) : string :=
  match rule with
  | mkDNSRule ty _ _ _ _ action =>
      if known_type ty then
        if bool_decide (dnsRuleActionType rule = "evaluate"%string) then deo_Server (da_EvaluateOptions action)
        else dro_Server (da_RouteOptions action)
      else ""
  end.

Definition dnsRuleActionEvaluateTag (rule : DNSRule) : string :=
  match rule with
  | mkDNSRule ty _ _ _ _ action => if known_type ty then deo_Tag (da_EvaluateOptions action) else ""
  end.

Definition dnsRuleActionSpeculative (rule : DNSRule) : bool :=
  match rule with
  | mkDNSRule ty _ _ _ _ action =>
      if known_type ty then
        if bool_decide (dnsRuleActionType rule = "evaluate"%string) then deo_Speculative (da_EvaluateOptions action)
        else dro_Speculative (da_RouteOptions action)
      else false
  end.

Definition dnsRuleRace (rule : DNSRule) : bool :=
  match rule with
  | mkDNSRule ty _ _ _ _ action => if known_type ty then da_Race action else false
  end.

Section mode.
(** The summaries of the rule-sets the router knows; [None] when there is no router. *)
Context (router : option (string -> option RuleSetMetadata)).
Context (metadataOverrides : gmap string RuleSetMetadata).

Definition lookupDNSRuleSetMetadata (tag : string) : result RuleSetMetadata :=
  match metadataOverrides !! tag with
  | Some metadata => Ok metadata
  | None =>
      match router with
      | None => Err (EPanic "nil router")
      | Some ruleSet =>
          match ruleSet tag with
          | None => Err (ENew ("rule-set not found: " +:+ tag))
          | Some metadata => Ok metadata
          end
      end
  end.

Fixpoint ruleSet_requirements (rule : RawDefaultDNSRule) (tags : list string) (flags : dnsRuleModeFlags)
    : result dnsRuleModeFlags :=
  match tags with
  | [] => Ok flags
  | tag :: rest =>
      try metadata <- lookupDNSRuleSetMetadata tag;
      ruleSet_requirements rule rest
        (mkModeFlags (flag_disabled flags || ContainsDNSQueryTypeRule metadata)
           (if negb (do_RuleSetIPCIDRMatchSource rule) && ContainsIPCIDRRule metadata then true else flag_needed flags)
           (flag_neededFromStrategy flags))
  end.

Definition dnsRuleModeRequirementsInDefaultRule (rule : RawDefaultDNSRule) (action : DNSRuleActionOptions)
    : result dnsRuleModeFlags :=
  let fromStrategy := dnsRuleActionHasStrategy action in
  let flags :=
    mkModeFlags (defaultRuleDisablesLegacyDNSMode rule action || dnsRuleActionDisablesLegacyDNSMode action)
      (defaultRuleNeedsLegacyDNSModeFromAddressFilter rule || fromStrategy) fromStrategy in
  if isnil (do_RuleSet rule) then Ok flags
  else if isnone router then Err (ENew "router service not found")
  else ruleSet_requirements rule (do_RuleSet rule) flags.

Fixpoint dnsRuleModeRequirementsInRule (rule : DNSRule) {struct rule} : result dnsRuleModeFlags :=
  match rule with
  | mkDNSRule ty d _ rules _ action =>
      if is_default_type ty then dnsRuleModeRequirementsInDefaultRule d action
      else if bool_decide (ty = RuleTypeLogical) then
        let fromStrategy := dnsRuleActionHasStrategy action in
        let flags :=
          mkModeFlags
            (bool_decide (dnsRuleActionType rule = "evaluate"%string) ||
             bool_decide (dnsRuleActionType rule = "respond"%string) || dnsRuleActionDisablesLegacyDNSMode action)
            fromStrategy fromStrategy in
        try subs <- result_mapiM (fun i sub => sub_rule_cause i (dnsRuleModeRequirementsInRule sub)) 0 rules;
        Ok (foldl flags_merge flags subs)
      else Ok zero_flags
  end.

Definition dnsRuleModeRequirements (rules : list DNSRule) : result dnsRuleModeFlags :=
  try flags <- result_mapiM (fun i rule =>
    result_map_err (fun e => ECause e ("dns rule[" +:+ pretty i +:+ "]")) (dnsRuleModeRequirementsInRule rule)) 0 rules;
  Ok (foldl flags_merge zero_flags flags).

Definition resolveLegacyDNSMode (rules : list DNSRule) : result (bool * dnsRuleModeFlags) :=
  try flags <- dnsRuleModeRequirements rules;
  if flag_disabled flags && flag_neededFromStrategy flags then Err (ENew OptionLegacyDNSRuleStrategy)
  else if flag_disabled flags then Ok (false, flags)
  else Ok (flag_needed flags, flags).

(** ** Validation outside of the legacy mode *)

Record dnsRuleResponseUse : Type := mkResponseUse {
  needsAnonymous : bool;
  referencedTags : list string
}.

Definition zero_use : dnsRuleResponseUse := mkResponseUse false [].

Definition response_fields_message : string :=
  "Response Match Fields (ip_cidr, ip_is_private, ip_accept_any, response_rcode, response_answer, response_ns," +:+
  " response_extra) require match_response to be enabled".

(** The loop that rejects rule-sets of nothing but addresses. *)
Fixpoint reject_pure_ip (tags : list string) : result unit :=
  match tags with
  | [] => Ok tt
  | tag :: rest =>
      try metadata <- lookupDNSRuleSetMetadata tag;
      if ContainsIPCIDRRule metadata && negb (ContainsNonIPCIDRRule metadata)
      then Err (ENew OptionLegacyDNSAddressFilter)
      else reject_pure_ip rest
  end.

Definition validateLegacyDNSModeDisabledDefaultRule (rule : RawDefaultDNSRule) (action : DNSRuleActionOptions)
    : result dnsRuleResponseUse :=
  let enabled := IsEnabled (do_MatchResponse rule) in
  let tag := ResponseTag (do_MatchResponse rule) in
  if (hasResponseMatchFields rule || nonnil (do_IPCIDR rule) || do_IPIsPrivate rule || do_IPAcceptAny rule) &&
     negb enabled
  then Err (ENew response_fields_message)
  else
    try _ <- (if negb enabled && nonnil (do_RuleSet rule) then reject_pure_ip (do_RuleSet rule) else Ok tt);
    if do_RuleSetIPCIDRAcceptEmpty rule then Err (ENew accept_empty_message)
    else
      let use :=
        if enabled then if negb (empty_string tag) then mkResponseUse false [tag] else mkResponseUse true []
        else zero_use in
      Ok (if bool_decide (da_Action action = "respond"%string) && empty_string tag
          then mkResponseUse true (referencedTags use) else use).

Fixpoint validateLegacyDNSModeDisabledRuleTree (rule : DNSRule) {struct rule} : result dnsRuleResponseUse :=
  match rule with
  | mkDNSRule ty d _ rules _ action =>
      if is_default_type ty then validateLegacyDNSModeDisabledDefaultRule d action
      else if bool_decide (ty = RuleTypeLogical) then
        try subs <- result_mapiM (fun i sub => sub_rule_cause i (validateLegacyDNSModeDisabledRuleTree sub)) 0 rules;
        let use := mkResponseUse (existsb needsAnonymous subs) (flat_map referencedTags subs) in
        if bool_decide (da_Action action = "respond"%string) then
          if nonnil (referencedTags use)
          then Err (ENew ("respond on a logical rule cannot bind a `match_response` tag from its sub rules;" +:+
                          " use a non-logical rule"))
          else Ok (mkResponseUse true (referencedTags use))
        else Ok use
      else Ok zero_use
  end.

(** What the loop of [validateLegacyDNSModeDisabledRules] has seen so far. *)
Record scopeState : Type := mkScope {
  sc_warnings : list string;
  sc_seenAnonymousEvaluate : bool;
  sc_seenRace : bool;
  sc_definedTags : list string;
  sc_referencedTags : list string;
  sc_lastAnonymousEvaluate : Z;
  sc_anonymousReadSinceLast : bool
}.

Definition zero_scope : scopeState := mkScope [] false false [] [] (-1) false.

Definition at_rule (i : Z) (message : string) : string := "dns rule[" +:+ pretty i +:+ "]: " +:+ message.

(** The references of a rule against what earlier rules define. *)
Definition check_anonymous (i : Z) (use : dnsRuleResponseUse) (s : scopeState) : result scopeState :=
  if needsAnonymous use then
    if negb (sc_seenAnonymousEvaluate s) then
      if nonnil (sc_definedTags s)
      then Err (ENew (at_rule i ("response-based matching requires a preceding evaluate action without `tag`;" +:+
                       " use `match_response` with an evaluate tag to reference a tagged result")))
      else Err (ENew (at_rule i "response-based matching requires a preceding evaluate action"))
    else Ok (mkScope (sc_warnings s) (sc_seenAnonymousEvaluate s) (sc_seenRace s) (sc_definedTags s)
               (sc_referencedTags s) (sc_lastAnonymousEvaluate s) true)
  else Ok s.

Fixpoint check_tags (i : Z) (tags : list string) (s : scopeState) : result scopeState :=
  match tags with
  | [] => Ok s
  | tag :: rest =>
      if negb (bool_decide (tag ∈ sc_definedTags s)) then Err (ENew (at_rule i ("undefined evaluate tag: " +:+ tag)))
      else check_tags i rest
             (mkScope (sc_warnings s) (sc_seenAnonymousEvaluate s) (sc_seenRace s) (sc_definedTags s)
                (tag :: sc_referencedTags s) (sc_lastAnonymousEvaluate s) (sc_anonymousReadSinceLast s))
  end.

(** What an evaluate action adds. *)
Definition define_evaluate (i : Z) (rule : DNSRule) (s : scopeState) : result scopeState :=
  if bool_decide (dnsRuleActionType rule = "evaluate"%string) then
    let tag := dnsRuleActionEvaluateTag rule in
    if empty_string tag then
      let warnings :=
        if (0 <=? sc_lastAnonymousEvaluate s) && negb (sc_anonymousReadSinceLast s)
        then sc_warnings s ++ [at_rule (sc_lastAnonymousEvaluate s) ("evaluated response is overwritten by dns rule["
               +:+ pretty i +:+ "] before any use")]
        else sc_warnings s in
      Ok (mkScope warnings true (sc_seenRace s) (sc_definedTags s) (sc_referencedTags s) i false)
    else if bool_decide (tag ∈ sc_definedTags s) then Err (ENew (at_rule i ("duplicate evaluate tag: " +:+ tag)))
    else Ok (mkScope (sc_warnings s) (sc_seenAnonymousEvaluate s) (sc_seenRace s) (sc_definedTags s ++ [tag])
               (sc_referencedTags s) (sc_lastAnonymousEvaluate s) (sc_anonymousReadSinceLast s))
  else Ok s.

Definition validate_step (i : Z) (rule : DNSRule) (s : scopeState) : result scopeState :=
  try use <- result_map_err (fun e => ECause e ("validate dns rule[" +:+ pretty i +:+ "]"))
               (validateLegacyDNSModeDisabledRuleTree rule);
  let warnings :=
    if dnsRuleActionSpeculative rule && negb (sc_seenRace s)
    then sc_warnings s ++ [at_rule i "`speculative` has no effect without a preceding `race` rule"]
    else sc_warnings s in
  let s1 := mkScope warnings (sc_seenAnonymousEvaluate s) (sc_seenRace s || dnsRuleRace rule) (sc_definedTags s)
              (sc_referencedTags s) (sc_lastAnonymousEvaluate s) (sc_anonymousReadSinceLast s) in
  try s2 <- check_anonymous i use s1;
  try s3 <- check_tags i (referencedTags use) s2;
  define_evaluate i rule s3.

Fixpoint validate_loop (i : Z) (rules : list DNSRule) (s : scopeState) : result scopeState :=
  match rules with
  | [] => Ok s
  | rule :: rest => try s' <- validate_step i rule s; validate_loop (i + 1) rest s'
  end.

Definition validateLegacyDNSModeDisabledRules (rules : list DNSRule) : result (list string) :=
  try s <- validate_loop 0 rules zero_scope;
  Ok (sc_warnings s ++
      map (fun tag => "evaluate tag is never referenced: " +:+ tag)
        (filter (fun tag => tag ∉ sc_referencedTags s) (sc_definedTags s))).

End mode.

(** [transportType] is the type of the DNS server with a tag. *)
Definition validateEvaluateFakeIPRules (transportType : string -> option string) (rules : list DNSRule)
    : result unit :=
  try _ <- result_mapiM (fun i rule =>
    let server := dnsRuleActionServer rule in
    if negb (bool_decide (dnsRuleActionType rule = "evaluate"%string)) then Ok tt
    else if empty_string server then Ok tt
    else if bool_decide (transportType server = Some "fakeip"%string)
    then Err (ENew (at_rule i ("evaluate action cannot use fakeip server: " +:+ server)))
    else Ok tt) 0 rules;
  Ok tt.

(** ** Updates of rule-sets *)

(** The part of [Router] that [ValidateRuleSetMetadataUpdate] reads. *)
Record RouterMode : Type := mkRouterMode {
  rm_rawRules : list DNSRule;
  rm_started : bool;
  rm_legacyDNSMode : bool;
  rm_closing : bool
}.

Definition discard {A : Type} (c : result A) : result unit := try _ <- c; Ok tt.

Definition ValidateRuleSetMetadataUpdate (r : RouterMode) (router : option (string -> option RuleSetMetadata))
    (tag : string) (metadata : RuleSetMetadata) : result unit :=
  let rules := rm_rawRules r in
  let overrides := {[tag := metadata]} in
  if isnil rules then Ok tt
  else if isnone router then Err (ENew "router service not found")
  else if rm_closing r then Ok tt
  else
    try candidate <- resolveLegacyDNSMode router overrides rules;
    if negb (rm_started r) then
      if negb candidate.1 then discard (validateLegacyDNSModeDisabledRules router overrides rules) else Ok tt
    else if rm_legacyDNSMode r then
      if negb candidate.1 && flag_disabled candidate.2 then
        try _ <- validateLegacyDNSModeDisabledRules router overrides rules;
        Err (ENew OptionLegacyDNSAddressFilter)
      else Ok tt
    else if candidate.1 then Err (ENew OptionLegacyDNSAddressFilter)
    else discard (validateLegacyDNSModeDisabledRules router overrides rules).

(** * Actions of DNS rules

    The DNS part of [src/route/rule/rule_action.go]: the actions, how they are built
    from their options, predefined answers and the flood protection of rejections;
    the query options of [src/adapter/dns.go] and how actions change them
    ([applyDNSRouteOptions] of [src/dns/router.go]). *)

(** ** Actions *)

Record RuleActionDNSRouteOptions : Type := mkDNSRouteOptions {
  ao_Strategy : Z;
  ao_Timeout : Z;
  ao_DisableCache : bool;
  ao_DisableOptimisticCache : bool;
  ao_RewriteTTL : option Z;
  ao_ClientSubnet : Prefix;
  ao_RemoveClientSubnet : bool
}.

Inductive DNSRuleAction : Type :=
| ActionDNSRoute (Server : string) (Speculative : bool) (options : RuleActionDNSRouteOptions)
| ActionEvaluate (Server Tag : string) (Speculative : bool) (options : RuleActionDNSRouteOptions)
| ActionRespond
| ActionDNSRouteOptions (options : RuleActionDNSRouteOptions)
| ActionReject (Rcode : Z) (Method : string) (NoDrop : bool)
| ActionPredefined (Rcode : Z) (Answer Ns Extra : list RR).

(** The conversion every case of [NewDNSRuleAction] repeats. *)
Definition route_options (o : AbstractDNSRouteActionOptions) : RuleActionDNSRouteOptions :=
  mkDNSRouteOptions (ar_Strategy o) (ar_Timeout o) (ar_DisableCache o) (ar_DisableOptimisticCache o)
    (ar_RewriteTTL o) (match ar_ClientSubnet o with Some p => p | None => zero_prefix end)
    (ar_RemoveClientSubnet o).

(** An empty action is no action at all. *)
Definition NewDNSRuleAction (action : DNSRuleActionOptions) : result (option DNSRuleAction) :=
  let a := da_Action action in
  let route := da_RouteOptions action in
  let evaluate := da_EvaluateOptions action in
  let reject := da_DNSRejectOptions action in
  let predefined := da_PredefinedOptions action in
  if empty_string a then Ok None
  else if bool_decide (a = "route"%string)
  then Ok (Some (ActionDNSRoute (dro_Server route) (dro_Speculative route) (route_options (dro_Options route))))
  else if bool_decide (a = "evaluate"%string)
  then Ok (Some (ActionEvaluate (deo_Server evaluate) (deo_Tag evaluate) (deo_Speculative evaluate)
                   (route_options (deo_Options evaluate))))
  else if bool_decide (a = "respond"%string) then Ok (Some ActionRespond)
  else if bool_decide (a = "route-options"%string)
  then Ok (Some (ActionDNSRouteOptions (route_options (da_RouteOptionsOptions action))))
  else if bool_decide (a = "reject"%string)
  then Ok (Some (ActionReject (match rj_Rcode reject with Some c => c | None => -1 end) (rj_Method reject)
                   (rj_NoDrop reject)))
  else if bool_decide (a = "predefined"%string)
  then Ok (Some (ActionPredefined (match pd_Rcode predefined with Some c => c | None => RcodeSuccess end)
                   (pd_Answer predefined) (pd_Ns predefined) (pd_Extra predefined)))
  else Err (EPanic ("unknown rule action: " +:+ a)).

(** ** Predefined answers *)

Definition HasPrefix (s p : string) : bool := String.prefix p s.

Definition HasSuffix (s p : string) : bool :=
  (String.length p <=? String.length s)%nat &&
  String.eqb (String.substring (String.length s - String.length p) (String.length p) s) p.

Definition set_rr_name (name : string) (rr : RR) : RR :=
  mkRR (mkRRHeader name (hdr_Rrtype (rr_Hdr rr)) (hdr_Class (rr_Hdr rr)) (hdr_Ttl (rr_Hdr rr))) (rr_Data rr).

(** A record whose name starts with a star is copied for the name of the question. *)
Definition rewriteRecords (records : list RR) (question : Question) : list RR :=
  map (fun it =>
    let name := hdr_Name (rr_Hdr it) in
    if HasPrefix name "*" && HasSuffix (q_Name question) (String.substring 1 (String.length name - 1) name)
    then set_rr_name (q_Name question) it else it) records.

(** [None] is the panic on a request without a question. *)
Definition RuleActionPredefined_Response (Rcode : Z) (Answer Ns Extra : list RR) (request : Msg) : option Msg :=
  match msg_Question request with
  | [] => None
  | question :: _ =>
      Some (mkMsg (msg_Id request) true true true true Rcode (msg_Question request)
              (rewriteRecords Answer question) (rewriteRecords Ns question) (rewriteRecords Extra question))
  end.

(** ** Rejections *)

Definition ErrReset : error := ENew "connection reset".
Definition ErrDrop : error := ENew "packet dropped".

Definition flood_window : Z := 30 * 10 ^ 9.
Definition flood_limit : nat := 50.

(** [RuleActionReject.Error] at time [now], in nanoseconds: the error of the connection
    (wrapped as rejected) and the times of the recent rejections.  [Ok] is no error. *)
Definition RuleActionReject_Error (Method : string) (NoDrop : bool) (dropCounter : list Z) (now : Z)
    : result unit * list Z :=
  if bool_decide (Method = "default"%string) then
    if NoDrop then (Err ErrReset, dropCounter)
    else
      let recent := filter (fun t => now - t <= flood_window) dropCounter ++ [now] in
      (if (flood_limit <? length recent)%nat then Err ErrDrop else Err ErrReset, recent)
  else if bool_decide (Method = "drop"%string) then (Err ErrDrop, dropCounter)
  else if bool_decide (Method = "reply"%string) then (Ok tt, dropCounter)
  else (Err (EPanic ("unknown reject method: " +:+ Method)), dropCounter).

(** ** Query options *)

Record DNSQueryOptions : Type := mkQueryOptions {
  qo_Transport : option DNSTransport;
  qo_Strategy : Z;
  qo_LookupStrategy : Z;
  qo_DisableCache : bool;
  qo_DisableOptimisticCache : bool;
  qo_RewriteTTL : option Z;
  qo_Timeout : Z;
  qo_ClientSubnet : Prefix;
  qo_RemoveClientSubnet : bool
}.

Definition zero_DNSQueryOptions : DNSQueryOptions := mkQueryOptions None 0 0 false false None 0 zero_prefix false.

Definition applyDNSRouteOptions (o : DNSQueryOptions) (r : RuleActionDNSRouteOptions) : DNSQueryOptions :=
  let subnet := if prefix_IsValid (ao_ClientSubnet r) then ao_ClientSubnet r else qo_ClientSubnet o in
  let remove := if prefix_IsValid (ao_ClientSubnet r) then false else qo_RemoveClientSubnet o in
  mkQueryOptions (qo_Transport o) (qo_Strategy o) (qo_LookupStrategy o)
    (qo_DisableCache o || ao_DisableCache r)
    (qo_DisableOptimisticCache o || ao_DisableOptimisticCache r)
    (match ao_RewriteTTL r with Some ttl => Some ttl | None => qo_RewriteTTL o end)
    (if 0 <? ao_Timeout r then ao_Timeout r else qo_Timeout o)
    (if ao_RemoveClientSubnet r then zero_prefix else subnet)
    (if ao_RemoveClientSubnet r then true else remove).

Definition set_DisableCache (o : DNSQueryOptions) : DNSQueryOptions :=
  mkQueryOptions (qo_Transport o) (qo_Strategy o) (qo_LookupStrategy o) true (qo_DisableOptimisticCache o)
    (qo_RewriteTTL o) (qo_Timeout o) (qo_ClientSubnet o) (qo_RemoveClientSubnet o).

Definition set_Strategy (o : DNSQueryOptions) (s : Z) : DNSQueryOptions :=
  mkQueryOptions (qo_Transport o) s (qo_LookupStrategy o) (qo_DisableCache o) (qo_DisableOptimisticCache o)
    (qo_RewriteTTL o) (qo_Timeout o) (qo_ClientSubnet o) (qo_RemoveClientSubnet o).

Definition finalizeExchangeOptions (defaultDomainStrategy : Z) (o : DNSQueryOptions) : DNSQueryOptions :=
  if qo_Strategy o =? 0 then set_Strategy o defaultDomainStrategy else o.

(** ** Rules at run time *)

(** A rule of the router with its action; [rt_disabled] is the switch of the API. *)
Record RuntimeRule : Type := mkRuntimeRule {
  rt_rule : Rule Item;
  rt_action : option DNSRuleAction;
  rt_race : bool;
  rt_disabled : bool
}.

(** The tag of a default rule; a logical rule has none of its own. *)
Definition MatchResponseTag {I : Type} (r : Rule I) : string :=
  match r with RDefault (KindDNS _ tag) _ _ => tag | _ => "" end.

(** ** Rejection responses *)

Definition RcodeRefused : Z := 5.

Definition resolveRejectRcode (actionRcode defaultRcode : Z) : Z :=
  if negb (actionRcode =? -1) then actionRcode
  else if negb (defaultRcode =? -1) then defaultRcode else RcodeRefused.

Definition dnsRejectResponse (message : Msg) (actionRcode defaultRcode : Z) : Msg :=
  mkMsg (msg_Id message) true false false false (resolveRejectRcode actionRcode defaultRcode)
    (firstn 1 (msg_Question message)) [] [] [].
