(* ===== verification/DnsWalk.v ===== *)
(** * The walk over the DNS rules

    [walkDNSRules], [sweepArmedDNSRules] and [resumeExchangeWithRules] of
    [src/dns/router.go].  Evaluate actions start exchanges that run next to the walk
    (futures); a rule that matches a response waits for it, a racing rule is armed and
    committed as soon as its responses are there.

    Concurrency: the answers of the exchanges and the moments at which they arrive are
    arguments.  [done_ t f] says whether future [f] is resolved when the code looks at
    it at time [t]; every place that calls [resolved] reads the clock, and the clock
    advances between places, so a future may complete between any two of them.
    [signalled t f] says whether the callback of future [f] has sent on [state.wake] by
    then: the loop that waits is blocked until a send it has not received is there.
    Both follow from how far the callbacks have come, [closed_at] and [sent_at].
    [cancelled t] says that the select statement at time [t] takes the branch of the
    context.  Log output is left out. *)

From stdpp Require Import base gmap strings list.
From Stdlib Require Import ZArith Lia.
From S2P Require Import Prelude Net Metadata RuleMatch RuleItems RuleOptions RuleBuild DnsMode.

Open Scope Z_scope.

(** ** State *)

Record dnsEvaluatedFuture : Type := mkFuture {
  fu_tag : string;
  fu_terminal : bool;
  fu_transport : DNSTransport;
  fu_result : result Msg;
  fu_settled : bool
}.

Record dnsArmedRule : Type := mkArmed {
  arm_ruleIndex : nat;
  arm_rule : RuntimeRule;
  arm_futures : list nat;
  arm_anonymousFuture : option nat;
  arm_bindsAnonymous : bool;
  arm_options : DNSQueryOptions
}.

(** Futures are named by their position in [ws_futures].  A tag that is bound to a nil
    response and one that is not bound read the same and are not distinguished. *)
Record dnsRuleWalkState : Type := mkWalk {
  ws_ruleIndex : nat;
  ws_effectiveOptions : DNSQueryOptions;
  ws_anonymousFuture : option nat;
  ws_namedFutures : gmap string nat;
  ws_namedResponses : gmap string Msg;
  ws_namedTransports : gmap string DNSTransport;
  ws_futures : list dnsEvaluatedFuture;
  ws_armedRules : list dnsArmedRule;
  ws_terminalFuture : option nat;
  ws_terminalIndex : nat
}.

Definition initial_walk (options : DNSQueryOptions) : dnsRuleWalkState :=
  mkWalk 0 options None ∅ ∅ ∅ [] [] None 0.

Definition set_ruleIndex (s : dnsRuleWalkState) (i : nat) : dnsRuleWalkState :=
  mkWalk i (ws_effectiveOptions s) (ws_anonymousFuture s) (ws_namedFutures s) (ws_namedResponses s)
    (ws_namedTransports s) (ws_futures s) (ws_armedRules s) (ws_terminalFuture s) (ws_terminalIndex s).

Definition next_rule (s : dnsRuleWalkState) : dnsRuleWalkState := set_ruleIndex s (S (ws_ruleIndex s)).

Definition set_effectiveOptions (s : dnsRuleWalkState) (o : DNSQueryOptions) : dnsRuleWalkState :=
  mkWalk (ws_ruleIndex s) o (ws_anonymousFuture s) (ws_namedFutures s) (ws_namedResponses s)
    (ws_namedTransports s) (ws_futures s) (ws_armedRules s) (ws_terminalFuture s) (ws_terminalIndex s).

Definition set_anonymousFuture (s : dnsRuleWalkState) (f : option nat) : dnsRuleWalkState :=
  mkWalk (ws_ruleIndex s) (ws_effectiveOptions s) f (ws_namedFutures s) (ws_namedResponses s)
    (ws_namedTransports s) (ws_futures s) (ws_armedRules s) (ws_terminalFuture s) (ws_terminalIndex s).

Definition set_namedFuture (s : dnsRuleWalkState) (tag : string) (f : nat) : dnsRuleWalkState :=
  mkWalk (ws_ruleIndex s) (ws_effectiveOptions s) (ws_anonymousFuture s) (<[tag := f]> (ws_namedFutures s))
    (ws_namedResponses s) (ws_namedTransports s) (ws_futures s) (ws_armedRules s) (ws_terminalFuture s)
    (ws_terminalIndex s).

Definition set_futures (s : dnsRuleWalkState) (l : list dnsEvaluatedFuture) (named : gmap string Msg)
    (transports : gmap string DNSTransport) : dnsRuleWalkState :=
  mkWalk (ws_ruleIndex s) (ws_effectiveOptions s) (ws_anonymousFuture s) (ws_namedFutures s) named transports l
    (ws_armedRules s) (ws_terminalFuture s) (ws_terminalIndex s).

Definition set_armedRules (s : dnsRuleWalkState) (l : list dnsArmedRule) : dnsRuleWalkState :=
  mkWalk (ws_ruleIndex s) (ws_effectiveOptions s) (ws_anonymousFuture s) (ws_namedFutures s) (ws_namedResponses s)
    (ws_namedTransports s) (ws_futures s) l (ws_terminalFuture s) (ws_terminalIndex s).

Definition set_terminal (s : dnsRuleWalkState) (f : nat) : dnsRuleWalkState :=
  mkWalk (ws_ruleIndex s) (ws_effectiveOptions s) (ws_anonymousFuture s) (ws_namedFutures s) (ws_namedResponses s)
    (ws_namedTransports s) (ws_futures s) (ws_armedRules s) (Some f) (ws_ruleIndex s).

(** ** Results *)

Record exchangeWithRulesResult : Type := mkExchangeResult {
  er_response : option Msg;
  er_transport : option DNSTransport;
  er_rejectAction : option DNSRuleAction;
  er_err : option error
}.

Definition respond_with (response : Msg) (transport : option DNSTransport) : exchangeWithRulesResult :=
  mkExchangeResult (Some response) transport None None.

Definition fail_with (err : error) : exchangeWithRulesResult := mkExchangeResult None None None (Some err).

Definition of_exchange (transport : DNSTransport) (r : result Msg) : exchangeWithRulesResult :=
  match r with
  | Ok response => mkExchangeResult (Some response) (Some transport) None None
  | Err err => mkExchangeResult None (Some transport) None (Some err)
  end.

Definition dnsRespondMissingResponse : error :=
  ENew "respond action requires an evaluated response from a preceding evaluate action".

Definition ctx_error : error := ENew "context canceled".

Record dnsPendingExchange : Type := mkPending {
  pe_transport : DNSTransport;
  pe_options : DNSQueryOptions;
  pe_future : option nat
}.

Inductive dnsWalkSuspension : Type :=
| SuspendAwait (f : nat)
| SuspendDrain
| SuspendPending (p : dnsPendingExchange).

(** A walk ends with a result or a suspension, a sweep may also find nothing. *)
Inductive verdict : Type :=
| Returned (r : exchangeWithRulesResult)
| Suspended (s : dnsWalkSuspension).

Inductive dnsRouteStatus : Type := RouteMissing | RouteSkipped | RouteResolved (t : DNSTransport) (o : DNSQueryOptions).

Definition is_fakeip (t : DNSTransport) : bool := bool_decide (tr_Type t = "fakeip"%string).

(** The view of a delivered result: an exchange that failed has no response. *)
Definition delivered (r : result Msg) : option Msg := match r with Ok m => Some m | Err _ => None end.

Definition set_responses (m : InboundContext) (response : option Msg) (named : gmap string Msg) : InboundContext :=
  mkInboundContext (ic_conn m) response named false (ic_cache m).

(** ** The callback of an exchange *)

Inductive callbackStep : Type := StoreResult | CloseDone | SendWake.

#[export] Instance callbackStep_eq_dec : EqDecision callbackStep.
Proof. solve_decision. Defined.

(** The callback [launchDNSEvaluate] passes to [ExchangeAsync], step by step. *)
Definition callback : list callbackStep := [StoreResult; CloseDone; SendWake].

(** Whether a callback that has made its first [n] steps has made step [a]. *)
Definition performed (n : nat) (a : callbackStep) : bool := bool_decide (a ∈ take n callback).

(** [progress t f]: the number of steps the callback of future [f] has made at time [t]. *)
Definition closed_at (progress : nat -> nat -> nat) (t f : nat) : bool := performed (progress t f) CloseDone.

Definition sent_at (progress : nat -> nat -> nat) (t f : nat) : bool := performed (progress t f) SendWake.

Definition hasBindings (r : Rule Item) : bool := nonnil (MatchResponseTags r) || MatchResponseAnonymous r.

Section walk.
Context `{Env}.
(** The router and the query. *)
Context (transport_Default : DNSTransport) (defaultRejectRcode defaultDomainStrategy : Z) (message : Msg)
  (allowFakeIP : bool).
(** [followPredefinedCNAME] of the router, and the DNS client: the answer to the
    asynchronous exchange that is the [n]-th future, and to the final exchange. *)
Context (followPredefinedCNAME : Msg -> DNSQueryOptions -> Msg)
  (ExchangeAsync : nat -> DNSTransport -> DNSQueryOptions -> result Msg)
  (Exchange : DNSTransport -> DNSQueryOptions -> result Msg).
(** The schedule. *)
Context (done_ signalled : nat -> nat -> bool) (cancelled : nat -> bool).

Implicit Types (s : dnsRuleWalkState) (m : InboundContext) (t : nat).

Definition view s t (f : nat) : option Msg :=
  match ws_futures s !! f with
  | Some fu => if done_ t f then delivered (fu_result fu) else None
  | None => None
  end.

Definition anonymousResponse s t : option Msg :=
  match ws_anonymousFuture s with None => None | Some f => view s t f end.

(** [launchDNSEvaluate]: the new future is the last one. *)
Definition launchDNSEvaluate s (tag : string) (terminal : bool) (transport : DNSTransport) (options : DNSQueryOptions)
    : nat * dnsRuleWalkState :=
  let f := length (ws_futures s) in
  let fu := mkFuture tag terminal transport
              (ExchangeAsync f transport (finalizeExchangeOptions defaultDomainStrategy options)) false in
  (f, set_futures s (ws_futures s ++ [fu]) (ws_namedResponses s) (ws_namedTransports s)).

(** The loop of [settleDNSFutures] from future [f] on. *)
Fixpoint settle_loop t (f : nat) (l : list dnsEvaluatedFuture) (named : gmap string Msg)
    (transports : gmap string DNSTransport) : list dnsEvaluatedFuture * gmap string Msg * gmap string DNSTransport :=
  match l with
  | [] => ([], named, transports)
  | fu :: rest =>
      if fu_settled fu || negb (done_ t f) then
        let '(l', named', transports') := settle_loop t (S f) rest named transports in (fu :: l', named', transports')
      else
        let fu' := mkFuture (fu_tag fu) (fu_terminal fu) (fu_transport fu) (fu_result fu) true in
        let '(l', named', transports') :=
          if bool_decide (fu_tag fu = ""%string) then settle_loop t (S f) rest named transports
          else settle_loop t (S f) rest (partial_alter (fun _ => delivered (fu_result fu)) (fu_tag fu) named)
                 (<[fu_tag fu := fu_transport fu]> transports) in
        (fu' :: l', named', transports')
  end.

Definition settleDNSFutures t s : dnsRuleWalkState :=
  let '(l, named, transports) := settle_loop t 0 (ws_futures s) (ws_namedResponses s) (ws_namedTransports s) in
  set_futures s l named transports.

Definition resolveDNSRoute (server : string) (routeOptions : RuleActionDNSRouteOptions) (options : DNSQueryOptions)
    : dnsRouteStatus :=
  match Transport server with
  | None => RouteMissing
  | Some transport =>
      if is_fakeip transport && negb allowFakeIP then RouteSkipped
      else
        let options' := applyDNSRouteOptions options routeOptions in
        RouteResolved transport (if is_fakeip transport then set_DisableCache options' else options')
  end.

(** A rejection that ends the walk; an unknown method falls through. *)
Definition reject_result (rcode : Z) (method : string) (noDrop : bool) : option exchangeWithRulesResult :=
  let action := ActionReject rcode method noDrop in
  if bool_decide (method = "default"%string)
  then Some (mkExchangeResult (Some (dnsRejectResponse message rcode defaultRejectRcode)) None (Some action) None)
  else if bool_decide (method = "drop"%string)
  then Some (mkExchangeResult None None (Some action) (Some ErrDrop))
  else None.

Definition predefined_result (rcode : Z) (answer ns extra : list RR) (options : DNSQueryOptions)
    : exchangeWithRulesResult :=
  match RuleActionPredefined_Response rcode answer ns extra message with
  | Some response => mkExchangeResult (Some (followPredefinedCNAME response options)) None None None
  | None => fail_with (EPanic "index out of range")
  end.

(** ** Armed rules *)

Definition unresolved t (f : option nat) : option nat :=
  match f with Some f => if done_ t f then None else Some f | None => None end.

(** The futures of the tags, those that are there and not resolved. *)
Definition pending_named t s (r : Rule Item) : list nat :=
  omap (fun tag => unresolved t (ws_namedFutures s !! tag)) (MatchResponseTags r).

Definition armed_response s t (a : dnsArmedRule) : option Msg :=
  if arm_bindsAnonymous a
  then match arm_anonymousFuture a with Some f => view s t f | None => None end
  else anonymousResponse s t.

(** The respond action of an armed rule. *)
Definition armed_respond s t (a : dnsArmedRule) : exchangeWithRulesResult :=
  let tag := MatchResponseTag (rt_rule (arm_rule a)) in
  let '(response, transport) :=
    if negb (bool_decide (tag = ""%string)) then (ws_namedResponses s !! tag, ws_namedTransports s !! tag)
    else match arm_anonymousFuture a with
         | Some f => (view s t f, fu_transport <$> ws_futures s !! f)
         | None =>
             match ws_anonymousFuture s with
             | Some f => (anonymousResponse s t, fu_transport <$> ws_futures s !! f)
             | None => (None, None)
             end
         end in
  match response with
  | None => fail_with dnsRespondMissingResponse
  | Some response => respond_with response transport
  end.

(** [sweepArmedDNSRules]: the armed rules in order, those that are ready leave the list;
    [kept] are the ones passed over.  [None] commits nothing. *)
Fixpoint sweep_loop (armed kept : list dnsArmedRule) s m t {struct armed}
    : option verdict * dnsRuleWalkState * InboundContext * nat :=
  match armed with
  | [] => (None, set_armedRules s kept, m, t)
  | a :: rest =>
      if negb (forallb (done_ t) (arm_futures a)) then sweep_loop rest (kept ++ [a]) s m (S t)
      else if rt_disabled (arm_rule a) then sweep_loop rest kept s m (S t)
      else
        let m1 := set_responses (ResetRuleCache m) (armed_response s t a) (ws_namedResponses s) in
        let '(matched, m2) := Match (rt_rule (arm_rule a)) m1 in
        let commit v := (Some v, set_armedRules s (kept ++ rest), m2, S t) in
        if negb matched then sweep_loop rest kept s m2 (S t)
        else
          match rt_action (arm_rule a) with
          | Some ActionRespond => commit (Returned (armed_respond s t a))
          | Some (ActionDNSRoute server _ options) =>
              match resolveDNSRoute server options (arm_options a) with
              | RouteResolved transport queryOptions =>
                  commit (Suspended (SuspendPending (mkPending transport queryOptions None)))
              | _ => sweep_loop rest kept s m2 (S t)
              end
          | Some (ActionReject rcode method noDrop) =>
              match reject_result rcode method noDrop with
              | Some r => commit (Returned r)
              | None => sweep_loop rest kept s m2 (S t)
              end
          | Some (ActionPredefined rcode answer ns extra) =>
              commit (Returned (predefined_result rcode answer ns extra (arm_options a)))
          | _ => sweep_loop rest kept s m2 (S t)
          end
  end.

Definition sweepArmedDNSRules s m t : option verdict * dnsRuleWalkState * InboundContext * nat :=
  sweep_loop (ws_armedRules s) [] s m t.

(** ** The walk *)

(** What a rule without race waits for: a named future, else the anonymous one. *)
Definition await_future t s (r : Rule Item) : option nat :=
  match pending_named t s r with
  | f :: _ => Some f
  | [] => if MatchResponseAnonymous r then unresolved t (ws_anonymousFuture s) else None
  end.

(** The action of a matched rule; [inr] goes on with the next rule. *)
Definition drain_or s (k : verdict * dnsRuleWalkState + dnsRuleWalkState) : verdict * dnsRuleWalkState + dnsRuleWalkState :=
  if nonnil (ws_armedRules s) then inl (Suspended SuspendDrain, s) else k.

Definition walk_evaluate s (server tag : string) (speculative : bool) (options : RuleActionDNSRouteOptions)
    : verdict * dnsRuleWalkState + dnsRuleWalkState :=
  match Transport server with
  | None => inr (if bool_decide (tag = ""%string) then set_anonymousFuture s None else s)
  | Some transport =>
      if negb speculative && nonnil (ws_armedRules s) then inl (Suspended SuspendDrain, s)
      else
        let '(f, s') := launchDNSEvaluate s tag false transport (applyDNSRouteOptions (ws_effectiveOptions s) options) in
        inr (if bool_decide (tag = ""%string) then set_anonymousFuture s' (Some f) else set_namedFuture s' tag f)
  end.

Definition walk_respond s t (r : Rule Item) : verdict * dnsRuleWalkState + dnsRuleWalkState :=
  drain_or s
    (let tag := MatchResponseTag r in
     if negb (bool_decide (tag = ""%string)) then
       match ws_namedResponses s !! tag with
       | None => inl (Returned (fail_with dnsRespondMissingResponse), s)
       | Some response => inl (Returned (respond_with response (ws_namedTransports s !! tag)), s)
       end
     else
       match (if negb (hasBindings r) then unresolved t (ws_anonymousFuture s) else None) with
       | Some f => inl (Suspended (SuspendAwait f), s)
       | None =>
           match anonymousResponse s t with
           | None => inl (Returned (fail_with dnsRespondMissingResponse), s)
           | Some response =>
               inl (Returned (respond_with response
                      (match ws_anonymousFuture s with Some f => fu_transport <$> ws_futures s !! f | None => None end)), s)
           end
       end).

Definition walk_route s (server : string) (speculative : bool) (options : RuleActionDNSRouteOptions)
    : verdict * dnsRuleWalkState + dnsRuleWalkState :=
  match resolveDNSRoute server options (ws_effectiveOptions s) with
  | RouteMissing | RouteSkipped => inr s
  | RouteResolved transport queryOptions =>
      if nonnil (ws_armedRules s) then
        if speculative && isnone (ws_terminalFuture s) then
          let '(f, s') := launchDNSEvaluate s "" true transport queryOptions in
          inl (Suspended SuspendDrain, set_terminal s' f)
        else inl (Suspended SuspendDrain, s)
      else
        match ws_terminalFuture s with
        | Some f =>
            if (ws_terminalIndex s =? ws_ruleIndex s)%nat then
              match ws_futures s !! f with
              | Some fu => inl (Suspended (SuspendPending (mkPending (fu_transport fu) zero_DNSQueryOptions (Some f))), s)
              | None => inl (Suspended (SuspendPending (mkPending transport queryOptions None)), s)
              end
            else inl (Suspended (SuspendPending (mkPending transport queryOptions None)), s)
        | None => inl (Suspended (SuspendPending (mkPending transport queryOptions None)), s)
        end
  end.

Definition walk_action s t (rule : RuntimeRule) : verdict * dnsRuleWalkState + dnsRuleWalkState :=
  match rt_action rule with
  | None => inr s
  | Some (ActionDNSRouteOptions options) =>
      inr (set_effectiveOptions s (applyDNSRouteOptions (ws_effectiveOptions s) options))
  | Some (ActionEvaluate server tag speculative options) => walk_evaluate s server tag speculative options
  | Some ActionRespond => walk_respond s t (rt_rule rule)
  | Some (ActionDNSRoute server speculative options) => walk_route s server speculative options
  | Some (ActionReject rcode method noDrop) =>
      drain_or s (match reject_result rcode method noDrop with
                  | Some r => inl (Returned r, s)
                  | None => inr s
                  end)
  | Some (ActionPredefined rcode answer ns extra) =>
      drain_or s (inl (Returned (predefined_result rcode answer ns extra (ws_effectiveOptions s)), s))
  end.

(** Arming a racing rule: its unresolved futures at time [t]. *)
Definition arm t s (rule : RuntimeRule) : list nat * dnsRuleWalkState :=
  let r := rt_rule rule in
  let binds := MatchResponseAnonymous r in
  let anonymous := if binds then ws_anonymousFuture s else None in
  let pending := pending_named t s r ++ match unresolved t anonymous with Some f => [f] | None => [] end in
  (pending, set_armedRules s (ws_armedRules s ++
     [mkArmed (ws_ruleIndex s) rule pending anonymous binds (ws_effectiveOptions s)])).

(** [walkDNSRules] from rule [ws_ruleIndex s] on, the first of [rules].  One round takes
    four ticks: settling, looking for a future to wait for, matching, acting. *)
Fixpoint walkDNSRules (rules : list RuntimeRule) s m t {struct rules}
    : verdict * dnsRuleWalkState * InboundContext * nat :=
  match rules with
  | [] =>
      if nonnil (ws_armedRules s) then (Suspended SuspendDrain, s, m, t)
      else (Suspended (SuspendPending (mkPending transport_Default (ws_effectiveOptions s) None)), s, m, t)
  | rule :: rest =>
      let r := rt_rule rule in
      let match_and_act s :=
        let m1 := set_responses (ResetRuleCache m) (anonymousResponse s (2 + t)) (ws_namedResponses s) in
        let '(matched, m2) := Match r m1 in
        if negb matched then walkDNSRules rest (next_rule s) m2 (4 + t)
        else match walk_action s (3 + t) rule with
             | inl (v, s') => (v, s', m2, (4 + t)%nat)
             | inr s' => walkDNSRules rest (next_rule s') m2 (4 + t)
             end in
      if rt_disabled rule then walkDNSRules rest (next_rule s) m t
      else if hasBindings r then
        let s1 := settleDNSFutures t s in
        if rt_race rule then
          let '(pending, s2) := arm (1 + t) s1 rule in
          if nonnil pending then walkDNSRules rest (next_rule s2) m (4 + t)
          else
            let '(committed, s3, m3, t3) := sweepArmedDNSRules s2 m (2 + t) in
            match committed with
            | Some (Suspended p) => (Suspended p, set_armedRules s3 [], m3, t3)
            | Some v => (v, s3, m3, t3)
            | None => walkDNSRules rest (next_rule s3) m3 (2 + t3)
            end
        else
          match await_future (1 + t) s1 r with
          | Some f => (Suspended (SuspendAwait f), s1, m, (4 + t)%nat)
          | None => match_and_act s1
          end
      else match_and_act s
  end.

(** ** Resuming *)

(** [finishPendingExchange]; waiting for a future is a loop of its own. *)
Fixpoint wait_future (fuel : nat) (f : nat) (fu : dnsEvaluatedFuture) t : option exchangeWithRulesResult :=
  match fuel with
  | O => None
  | S fuel' =>
      if done_ t f then Some (of_exchange (fu_transport fu) (fu_result fu))
      else if cancelled t then Some (fail_with ctx_error)
      else wait_future fuel' f fu (S t)
  end.

Definition finishPendingExchange (fuel : nat) s t (p : dnsPendingExchange) : option exchangeWithRulesResult :=
  match pe_future p with
  | Some f => match ws_futures s !! f with Some fu => wait_future fuel f fu t | None => None end
  | None =>
      Some (of_exchange (pe_transport p)
              (Exchange (pe_transport p) (finalizeExchangeOptions defaultDomainStrategy (pe_options p))))
  end.

(** Whether the loop has to wait for a wake-up. *)
Definition must_wait s t (suspension : dnsWalkSuspension) : bool :=
  match suspension with
  | SuspendAwait f => negb (done_ t f)
  | SuspendDrain => nonnil (ws_armedRules s)
  | SuspendPending _ => false
  end.

(** The futures whose callback has sent on [state.wake]. *)
Definition signals s t : list nat := filter (fun f => signalled t f = true) (seq 0 (length (ws_futures s))).

(** [state.wake] holds one element and a send that finds it full is dropped: there is
    something to receive when a send came after the last receive, which left [seen]. *)
Definition wake_ready s (seen : list nat) t : bool := existsb (fun f => bool_decide (f ∉ seen)) (signals s t).

(** The select statement of [resumeExchangeWithRules]: blocked until one of the two
    channels is ready; the context goes first when both are.  [Some None] is its branch. *)
Fixpoint wait_wake (fuel : nat) s (seen : list nat) t : option (option (list nat * nat)) :=
  match fuel with
  | O => None
  | S fuel' =>
      if cancelled t then Some None
      else if wake_ready s seen t then Some (Some (signals s t, t))
      else wait_wake fuel' s seen (4 + t)
  end.

(** [resumeExchangeWithRules]: one round per unit of fuel; [seen] are the sends received. *)
Fixpoint resumeExchangeWithRules (fuel : nat) (rules : list RuntimeRule) s m t (seen : list nat)
    (suspension : dnsWalkSuspension) {struct fuel} : option exchangeWithRulesResult :=
  match fuel with
  | O => None
  | S fuel' =>
      let s1 := settleDNSFutures t s in
      let '(committed, s2, m2, t2) := sweepArmedDNSRules s1 m (1 + t) in
      match committed with
      | Some (Returned r) => Some r
      | Some (Suspended (SuspendPending p)) => finishPendingExchange fuel' s2 t2 p
      | _ =>
          match suspension with
          | SuspendPending p => finishPendingExchange fuel' s2 t2 p
          | _ =>
              if must_wait s2 (1 + t2) suspension then
                match wait_wake fuel' s2 seen (2 + t2) with
                | None => None
                | Some None => Some (fail_with ctx_error)
                | Some (Some (seen', t3)) => resumeExchangeWithRules fuel' rules s2 m2 (1 + t3) seen' suspension
                end
              else
                match walkDNSRules (drop (ws_ruleIndex s2) rules) s2 m2 (2 + t2) with
                | (Returned r, _, _, _) => Some r
                | (Suspended p, s3, m3, t3) => resumeExchangeWithRules fuel' rules s3 m3 (S t3) seen p
                end
          end
      end
  end.

Definition exchangeWithRules (fuel : nat) (rules : list RuntimeRule) (m : InboundContext) (options : DNSQueryOptions)
    : option exchangeWithRulesResult :=
  match walkDNSRules rules (initial_walk options) m 0 with
  | (Returned r, _, _, _) => Some r
  | (Suspended p, s, m', t) => resumeExchangeWithRules fuel rules s m' (S t) [] p
  end.

End walk.

(** ** The order of the callback *)

Lemma performed_mono n n' a : (n <= n')%nat -> performed n a = true -> performed n' a = true.
Proof.
  intros Hn. unfold performed. rewrite !bool_decide_eq_true. intros Ha.
  replace n with (n `min` n')%nat in Ha by lia. rewrite <- take_take in Ha. by apply subseteq_take in Ha.
Qed.

Lemma performed_all n a : (length callback <= n)%nat -> performed n a = true.
Proof. intros Hn. unfold performed. rewrite bool_decide_eq_true, take_ge by done. destruct a; cbn; set_solver. Qed.

(** A callback that has sent has closed its future before. *)
Lemma performed_order n : performed n SendWake = true -> performed n CloseDone = true.
Proof. destruct n as [|[|[|n]]]; by vm_compute. Qed.
