(* ===== verification/DnsScope.v ===== *)
(** * Which responses a DNS rule depends on

    A rule reads the response it matches ([match_response]) and nothing of any other
    response.  [scoped] is the condition on the items of a rule that makes this true;
    rules built from validated options satisfy it. *)

From stdpp Require Import base gmap strings list.
From Stdlib Require Import ZArith Lia.
From S2P Require Import Prelude Net Metadata RuleMatch RuleSpec RuleDefer RuleItems RuleOptions RuleBuild RuleBuilt.
From S2P Require Import RuleStarted DnsMode DnsWalk.

Open Scope Z_scope.

(** A rule of a rule-set: no part of it matches a response of its own; [b] says that
    the response is fixed. *)
Fixpoint plain_rule (b : bool) (r : Rule Item) : bool :=
  match r with
  | RDefault kind d ri =>
      match kind with KindDNS true _ => false | _ => true end &&
      forallb (fun it => quiet it || b) (grouped d) &&
      match ri with
      | Some rs => forallb (fun s => forallb (plain_rule b) (rs_rules s)) (setList rs)
      | None => true
      end
  | RLogical _ rules _ => forallb (plain_rule b) rules
  end.

(** A rule of the router. *)
Fixpoint scoped (r : Rule Item) : bool :=
  match r with
  | RDefault kind d ri =>
      let b := match kind with KindDNS mr _ => mr | _ => false end in
      forallb (fun it => quiet it || b) (grouped d) &&
      match ri with
      | Some rs => forallb (fun s => forallb (plain_rule b) (rs_rules s)) (setList rs)
      | None => true
      end
  | RLogical _ rules _ => forallb scoped rules
  end.

(** Metadata that agree on everything a plain rule reads. *)
Definition agree (b : bool) (m m' : InboundContext) : Prop :=
  ic_conn m = ic_conn m' /\
  ic_DestinationAddressMatchFromResponse m = ic_DestinationAddressMatchFromResponse m' /\
  IPCIDRMatchSource m = IPCIDRMatchSource m' /\ IPCIDRAcceptEmpty m = IPCIDRAcceptEmpty m' /\
  if b then ic_DNSResponse m = ic_DNSResponse m' else ic_DestinationAddressMatchFromResponse m = false.

(** Metadata that agree on the responses a rule is bound to. *)
Definition agree_on (r : Rule Item) (m m' : InboundContext) : Prop :=
  agree false m m' /\
  (MatchResponseAnonymous r = true -> ic_DNSResponse m = ic_DNSResponse m') /\
  (forall tag, tag ∈ MatchResponseTags r -> ic_NamedDNSResponses m !! tag = ic_NamedDNSResponses m' !! tag).

Lemma elem_of_uniq tag l seen : tag ∈ uniq l seen <-> tag ∈ l /\ tag ∉ seen.
Proof.
  revert seen. induction l as [|x l IH]; intros seen; cbn.
  { split; [intros Hn|intros [Hn _]]; by apply not_elem_of_nil in Hn. }
  case_bool_decide as Hx; [rewrite IH|rewrite elem_of_cons, IH]; rewrite ?elem_of_cons;
    destruct (decide (tag = x)); naive_solver.
Qed.

Section scope.
Context `{Env}.

Lemma agree_nested b (r : RuleSetItem (Rule Item)) m m' : agree b m m' -> agree b (nested r m) (nested r m').
Proof. unfold agree. intros (Hc & Hf & _ & _ & Hr). split_and!; try done. Qed.

Lemma agree_unflagged b m m' : agree b m m' -> agree b (unflagged m) (unflagged m').
Proof. unfold agree. intros (Hc & Hf & _ & _ & Hr). split_and!; try done. Qed.

Lemma quiet_Match b it m m' : quiet it || b = true -> agree b m m' -> item_Match it m = item_Match it m'.
Proof.
  intros Hq (Hc & Hf & Hs & He & Hr). rewrite (item_Match_view it m), (item_Match_view it m').
  unfold item_view, with_cache. rewrite <- Hc, <- Hf, <- Hs, <- He. destruct b.
  - rewrite <- Hr. by destruct it.
  - rewrite Hr. by destruct it.
Qed.

Lemma all_items_hit b d m m' ign g :
  forallb (fun it => quiet it || b) (grouped d) = true -> agree b m m' -> hit ign d m g = hit ign d m' g.
Proof.
  intros Hq Ha. unfold hit. destruct Ha as (? & ? & Hs & ?). rewrite <- Hs.
  assert (Hall : forall it, it ∈ group_items ign (IPCIDRMatchSource m) d g -> item_Match it m = item_Match it m').
  { intros it Hit. apply (quiet_Match b); [|by unfold agree]. rewrite forallb_forall in Hq. apply Hq, list_elem_of_In.
    unfold grouped. destruct g; cbn in Hit; repeat case_match; set_solver. }
  clear Hq. induction (group_items _ _ _ _) as [|it l IH]; cbn; [done|].
  rewrite (Hall it) by set_solver. f_equal. apply IH. set_solver.
Qed.

Lemma all_items_match b d m m' :
  forallb (fun it => quiet it || b) (grouped d) = true -> agree b m m' ->
  match_all_items (items d) m = match_all_items (items d) m'.
Proof.
  unfold grouped. rewrite forallb_app, andb_true_iff. intros [Hq _] Ha. unfold match_all_items.
  induction (items d) as [|it l IH]; cbn in *; [done|]. apply andb_true_iff in Hq as [Hq1 Hq2].
  rewrite (quiet_Match b it m m') by done. f_equal. auto.
Qed.

(** A default rule, given that the rules of its rule-sets depend on no more. *)
Lemma default_sat_agree b d ri m m' :
  forallb (fun it => quiet it || b) (grouped d) = true ->
  (forall rs, ri = Some rs -> Forall (fun s => forallb (plain_rule b) (rs_rules s) = true) (setList rs)) ->
  (forall rs, ri = Some rs -> Forall (fun s => Forall (fun r => forall m m', plain_rule b r = true ->
     agree b m m' -> sat r m = sat r m') (rs_rules s)) (setList rs)) ->
  agree b m m' -> default_sat sat d ri m = default_sat sat d ri m'.
Proof.
  intros Hq Hp Hr Ha. unfold default_sat. case_bool_decide; [done|]. f_equal.
  rewrite (all_items_match b d m m') by done. f_equal.
  assert (Hsrc : IPCIDRMatchSource m = IPCIDRMatchSource m') by apply Ha.
  assert (Hgr : forall p h h', (forall g, h g = h' g) -> groups_ok p h = groups_ok p h')
    by (intros; by apply groups_ok_ext).
  destruct ri as [rs|]; [|rewrite Hsrc; apply Hgr; intros; by apply (all_items_hit b)].
  specialize (Hp rs eq_refl). specialize (Hr rs eq_refl).
  induction (setList rs) as [|s sets IH]; cbn; [done|]. apply Forall_cons in Hp as [Hp Hps]. apply Forall_cons in Hr as [Hr Hrs].
  f_equal; [|by apply IH]. unfold set_sat. rewrite Hsrc. pose proof (agree_nested b rs m m' Ha) as Hn.
  destruct (mergeableRuleIn (rs_rules s)) as [br|] eqn:Hm.
  - apply mergeableRuleIn_Some in Hm. rewrite Hm in Hp. cbn in Hp. rewrite !andb_true_r in Hp.
    rewrite (all_items_match b br (nested rs m) (nested rs m')) by done. f_equal.
    apply Hgr. intros g. f_equal; by apply (all_items_hit b).
  - f_equal; [apply Hgr; intros; by apply (all_items_hit b)|].
    clear Hm IH. induction (rs_rules s) as [|r rules IHr]; cbn in *; [done|]. apply andb_true_iff in Hp as [Hp1 Hp2].
    apply Forall_cons in Hr as [Hr1 Hr2]. f_equal; [by apply Hr1|by apply IHr].
Qed.

Lemma plain_sat b r m m' : plain_rule b r = true -> agree b m m' -> sat r m = sat r m'.
Proof.
  revert m m'. induction r as [kind d ri IH|mode rules inv IH] using Rule_nested_ind; intros m m' Hp Ha.
  - cbn in Hp. rewrite !andb_true_iff in Hp. destruct Hp as [[Hk Hi] Hs].
    assert (Hd : default_sat sat d ri m = default_sat sat d ri m').
    { apply (default_sat_agree b); try done. intros rs ->. by apply forallb_Forall. }
    by destruct kind as [| |[] tag].
  - cbn in Hp |- *. f_equal. apply agree_unflagged in Ha.
    assert (Heq : forall r, r ∈ rules -> sat r (unflagged m) = sat r (unflagged m')).
    { intros r Hr. rewrite Forall_forall in IH. apply IH; try done. rewrite forallb_forall in Hp.
      by apply Hp, list_elem_of_In. }
    case_bool_decide; [apply forallb_ext_in|apply existsb_ext_in]; intros; by apply Heq.
Qed.

Lemma scoped_sat r m m' : scoped r = true -> agree_on r m m' -> sat r m = sat r m'.
Proof.
  revert m m'. induction r as [kind d ri IH|mode rules inv IH] using Rule_nested_ind; intros m m' Hp Ha.
  - cbn in Hp. apply andb_true_iff in Hp as [Hi Hs].
    assert (Hd : forall b m m', b = match kind with KindDNS mr _ => mr | _ => false end -> agree b m m' ->
      default_sat sat d ri m = default_sat sat d ri m').
    { intros b x x' -> Hx. eapply default_sat_agree; [exact Hi| | |exact Hx].
      - intros rs ->. by apply forallb_Forall.
      - intros rs Hri. specialize (IH rs Hri). apply Forall_forall. intros s _. apply Forall_forall. intros r _ y y'. apply plain_sat. }
    destruct Ha as (Ha & Hanon & Htags).
    destruct kind as [| |[] tag]; cbn; try (by apply (Hd false)).
    assert (Hr : response_of tag m = response_of tag m').
    { unfold response_of. cbn in Hanon, Htags. case_bool_decide; [by apply Hanon|]. apply Htags. by left. }
    rewrite Hr. destruct (response_of tag m'); [|done]. apply (Hd true); [done|].
    unfold agree in *. split_and!; try done; apply Ha.
  - cbn in Hp |- *. f_equal. destruct Ha as (Ha & Hanon & Htags).
    assert (Heq : forall r, r ∈ rules -> sat r (unflagged m) = sat r (unflagged m')).
    { intros r Hr. rewrite Forall_forall in IH. rewrite forallb_forall in Hp. apply IH; [done|by apply Hp, list_elem_of_In|].
      split_and!; [by apply agree_unflagged| |].
      - intros Hm. apply Hanon. cbn. apply existsb_exists. exists r. split; [by apply list_elem_of_In|done].
      - intros tag Htag. apply Htags. cbn. apply elem_of_uniq. split; [|apply not_elem_of_nil].
        apply list_elem_of_In, in_flat_map. exists r. rewrite <- !list_elem_of_In. done. }
    case_bool_decide; [apply forallb_ext_in|apply existsb_ext_in]; intros; by apply Heq.
Qed.
End scope.

(** * The walk without concurrency

    What a list of DNS rules without racing rules means: the rules in order, each
    evaluate action answered at once.  The walk of [DnsWalk.v] computes this, for every
    schedule of the exchanges in which no future completes between the moment a rule
    settles the futures and the moment it looks for one to wait for. *)

(** The answered exchanges: the anonymous one and the tagged ones. *)
Record syncState : Type := mkSync {
  sy_options : DNSQueryOptions;
  sy_anonymous : option (DNSTransport * result Msg);
  sy_named : gmap string (DNSTransport * result Msg);
  sy_launched : nat
}.

Definition initial_sync (options : DNSQueryOptions) : syncState := mkSync options None ∅ 0.

Definition sync_response (sy : syncState) : option Msg :=
  match sy_anonymous sy with Some p => delivered p.2 | None => None end.

Definition sync_named (sy : syncState) : gmap string Msg := omap (fun p => delivered p.2) (sy_named sy).

Section sync.
Context `{Env}.
Context (transport_Default : DNSTransport) (defaultRejectRcode defaultDomainStrategy : Z) (message : Msg)
  (allowFakeIP : bool).
Context (followPredefinedCNAME : Msg -> DNSQueryOptions -> Msg)
  (ExchangeAsync : nat -> DNSTransport -> DNSQueryOptions -> result Msg)
  (Exchange : DNSTransport -> DNSQueryOptions -> result Msg).
Implicit Types (sy : syncState) (m : InboundContext).

Definition exchange_now (transport : DNSTransport) (options : DNSQueryOptions) : exchangeWithRulesResult :=
  of_exchange transport (Exchange transport (finalizeExchangeOptions defaultDomainStrategy options)).

Definition sync_evaluate sy (server tag : string) (options : RuleActionDNSRouteOptions) : syncState :=
  match Transport server with
  | None => if bool_decide (tag = ""%string) then mkSync (sy_options sy) None (sy_named sy) (sy_launched sy) else sy
  | Some transport =>
      let answer := ExchangeAsync (sy_launched sy) transport
                      (finalizeExchangeOptions defaultDomainStrategy (applyDNSRouteOptions (sy_options sy) options)) in
      if bool_decide (tag = ""%string)
      then mkSync (sy_options sy) (Some (transport, answer)) (sy_named sy) (S (sy_launched sy))
      else mkSync (sy_options sy) (sy_anonymous sy) (<[tag := (transport, answer)]> (sy_named sy)) (S (sy_launched sy))
  end.

Definition sync_respond sy (r : Rule Item) : exchangeWithRulesResult :=
  let tag := MatchResponseTag r in
  match (if negb (bool_decide (tag = ""%string)) then sy_named sy !! tag else sy_anonymous sy) with
  | Some (transport, Ok response) => respond_with response (Some transport)
  | _ => fail_with dnsRespondMissingResponse
  end.

(** The action of a rule that matches: the result, or the state for the next rule. *)
Definition sync_action sy (rule : RuntimeRule) : exchangeWithRulesResult + syncState :=
  match rt_action rule with
  | None => inr sy
  | Some (ActionDNSRouteOptions options) =>
      inr (mkSync (applyDNSRouteOptions (sy_options sy) options) (sy_anonymous sy) (sy_named sy) (sy_launched sy))
  | Some (ActionEvaluate server tag _ options) => inr (sync_evaluate sy server tag options)
  | Some ActionRespond => inl (sync_respond sy (rt_rule rule))
  | Some (ActionDNSRoute server _ options) =>
      match resolveDNSRoute allowFakeIP server options (sy_options sy) with
      | RouteResolved transport queryOptions => inl (exchange_now transport queryOptions)
      | _ => inr sy
      end
  | Some (ActionReject rcode method noDrop) =>
      match reject_result defaultRejectRcode message rcode method noDrop with
      | Some r => inl r
      | None => inr sy
      end
  | Some (ActionPredefined rcode answer ns extra) =>
      inl (predefined_result message followPredefinedCNAME rcode answer ns extra (sy_options sy))
  end.

Definition sync_metadata sy m : InboundContext :=
  set_responses (ResetRuleCache m) (sync_response sy) (sync_named sy).

Fixpoint syncWalk (rules : list RuntimeRule) sy m : exchangeWithRulesResult :=
  match rules with
  | [] => exchange_now transport_Default (sy_options sy)
  | rule :: rest =>
      if rt_disabled rule || negb (sat (rt_rule rule) (sync_metadata sy m)) then syncWalk rest sy m
      else match sync_action sy rule with
           | inl r => r
           | inr sy' => syncWalk rest sy' m
           end
  end.
End sync.

(** ** Conditions on rules *)

(** The tag an evaluate action defines. *)
Definition evaluate_tag (rule : RuntimeRule) : option string :=
  match rt_action rule with
  | Some (ActionEvaluate _ tag _ _) => if bool_decide (tag = ""%string) then None else Some tag
  | _ => None
  end.

(** A respond action without a tag whose rule waits for tagged responses waits for the
    anonymous one as well. *)
Definition respond_ok (rule : RuntimeRule) : bool :=
  match rt_action rule with
  | Some ActionRespond =>
      negb (bool_decide (MatchResponseTag (rt_rule rule) = ""%string)) || negb (hasBindings (rt_rule rule)) ||
      MatchResponseAnonymous (rt_rule rule)
  | _ => true
  end.

Definition walk_ok (rule : RuntimeRule) : bool :=
  negb (rt_race rule) && scoped (rt_rule rule) && respond_ok rule.

(** ** Settling *)

Definition mark (b : bool) (fu : dnsEvaluatedFuture) : dnsEvaluatedFuture :=
  mkFuture (fu_tag fu) (fu_terminal fu) (fu_transport fu) (fu_result fu) (fu_settled fu || b).

Section settle.
Context (done_ : nat -> nat -> bool).

Lemma settle_loop_futures t f l named transports i :
  (settle_loop done_ t f l named transports).1.1 !! i = (fun fu => mark (done_ t (f + i)) fu) <$> l !! i.
Proof.
  revert f named transports i. induction l as [|fu l IH]; intros f named transports i; [done|]. cbn.
  destruct (fu_settled fu || negb (done_ t f)) eqn:Hs.
  - specialize (IH (S f) named transports). destruct (settle_loop _ _ _ _ _ _) as [[l' n'] tr']. cbn in *.
    destruct i as [|i]; cbn; [|by rewrite IH, Nat.add_succ_r].
    rewrite Nat.add_0_r. unfold mark. destruct fu as [tg te tr re st]. cbn in *.
    destruct st; cbn; [done|]. cbn in Hs. apply negb_true_iff in Hs. by rewrite Hs.
  - apply orb_false_iff in Hs as [Hs Hd]. apply negb_false_iff in Hd.
    assert (Hi : forall x n tr, (x :: (settle_loop done_ t (S f) l n tr).1.1) !! i =
      match i with O => Some x | S i' => (fun fu => mark (done_ t (f + i)) fu) <$> l !! i' end).
    { intros. destruct i as [|i]; cbn; [done|]. by rewrite IH, Nat.add_succ_r. }
    assert (Hx : mark true fu = mkFuture (fu_tag fu) (fu_terminal fu) (fu_transport fu) (fu_result fu) true)
      by (unfold mark; by rewrite orb_true_r).
    case_bool_decide; destruct (settle_loop _ _ _ _ _ _) as [[l' n'] tr'] eqn:He; cbn;
      match type of He with settle_loop _ _ _ _ ?n ?tr = _ => specialize (Hi (mark true fu) n tr) end;
      rewrite He in Hi; cbn in Hi; rewrite <- Hx, Hi; destruct i; cbn; rewrite ?Nat.add_0_r, ?Hd; done.
Qed.

(** A tag none of whose futures is newly settled keeps its binding. *)
Lemma settle_loop_other t f l named transports tag :
  (forall i fu, l !! i = Some fu -> fu_tag fu = tag -> fu_settled fu || negb (done_ t (f + i)) = true \/ tag = ""%string) ->
  (settle_loop done_ t f l named transports).1.2 !! tag = named !! tag /\
  (settle_loop done_ t f l named transports).2 !! tag = transports !! tag.
Proof.
  revert f named transports. induction l as [|fu l IH]; intros f named transports Hl; [done|]. cbn.
  assert (Hl' : forall i fu, l !! i = Some fu -> fu_tag fu = tag ->
    fu_settled fu || negb (done_ t (S f + i)) = true \/ tag = ""%string).
  { intros i fu' Hi Ht. replace (S f + i)%nat with (f + S i)%nat by lia. by apply (Hl (S i)). }
  specialize (Hl 0%nat fu eq_refl). rewrite Nat.add_0_r in Hl.
  destruct (fu_settled fu || negb (done_ t f)).
  { specialize (IH (S f) named transports Hl'). by destruct (settle_loop _ _ _ _ _ _) as [[]]. }
  case_bool_decide as He.
  { specialize (IH (S f) named transports Hl'). by destruct (settle_loop _ _ _ _ _ _) as [[]]. }
  assert (Hne : fu_tag fu <> tag) by (intros Ht; destruct (Hl Ht); congruence).
  destruct (settle_loop _ _ _ _ _ _) as [[l' n'] tr'] eqn:Heq.
  match type of Heq with settle_loop _ _ _ _ ?n ?tr = _ => specialize (IH (S f) n tr Hl') end.
  rewrite Heq in IH. cbn in *. by rewrite lookup_partial_alter_ne, lookup_insert_ne in IH.
Qed.

(** A newly settled future binds its tag, if no other future has the tag. *)
Lemma settle_loop_bound t f l named transports i fu :
  l !! i = Some fu -> fu_settled fu = false -> done_ t (f + i) = true -> fu_tag fu <> ""%string ->
  (forall j fu', l !! j = Some fu' -> fu_tag fu' = fu_tag fu -> j = i) ->
  (settle_loop done_ t f l named transports).1.2 !! fu_tag fu = delivered (fu_result fu) /\
  (settle_loop done_ t f l named transports).2 !! fu_tag fu = Some (fu_transport fu).
Proof.
  revert f named transports i. induction l as [|x l IH]; intros f named transports i Hi Hs Hd Ht Hu; [done|].
  destruct i as [|i].
  - injection Hi as ->. rewrite Nat.add_0_r in Hd. cbn. rewrite Hs, Hd. cbn. rewrite bool_decide_eq_false_2 by done.
    destruct (settle_loop_other t (S f) l (partial_alter (fun _ => delivered (fu_result fu)) (fu_tag fu) named)
      (<[fu_tag fu := fu_transport fu]> transports) (fu_tag fu)) as [H1 H2].
    { intros j fu' Hj Hft. specialize (Hu (S j) fu' Hj Hft). done. }
    destruct (settle_loop _ _ _ _ _ _) as [[]]. cbn in *.
    by rewrite H1, H2, lookup_partial_alter_eq, lookup_insert_eq.
  - assert (Hu' : forall j fu', l !! j = Some fu' -> fu_tag fu' = fu_tag fu -> j = i).
    { intros j fu' Hj Hft. specialize (Hu (S j) fu' Hj Hft). lia. }
    replace (f + S i)%nat with (S f + i)%nat in Hd by lia. cbn in Hi. cbn.
    destruct (fu_settled x || negb (done_ t f)); [|case_bool_decide];
      match goal with |- context[settle_loop _ _ _ _ ?n ?tr] => specialize (IH (S f) n tr i Hi Hs Hd Ht Hu') end;
      by destruct (settle_loop _ _ _ _ _ _) as [[]].
Qed.
End settle.
