(* ===== verification/DnsSim.v ===== *)
(** * The walk simulates its reference

    The relation between a state of the walk and the state of the reference, its
    preservation by settling, matching and acting, and the result of the walk. *)

From stdpp Require Import base gmap strings list.
From Stdlib Require Import ZArith Lia.
From S2P Require Import Prelude Net Metadata RuleMatch RuleSpec RuleItems RuleOptions RuleBuild DnsMode DnsScope.
From S2P Require Import DnsWalk DnsScope.

Open Scope Z_scope.

(** A tagged future binds its tag once it is settled, and not before. *)
Definition bound (s : dnsRuleWalkState) (fu : dnsEvaluatedFuture) : Prop :=
  if fu_settled fu
  then ws_namedResponses s !! fu_tag fu = delivered (fu_result fu) /\
       ws_namedTransports s !! fu_tag fu = Some (fu_transport fu)
  else ws_namedResponses s !! fu_tag fu = None.

Record sim (s : dnsRuleWalkState) (sy : syncState) : Prop := {
  sim_options : ws_effectiveOptions s = sy_options sy;
  sim_launched : length (ws_futures s) = sy_launched sy;
  sim_armed : ws_armedRules s = [];
  sim_terminal : ws_terminalFuture s = None;
  sim_anonymous :
    match ws_anonymousFuture s with
    | None => sy_anonymous sy = None
    | Some f => exists fu, ws_futures s !! f = Some fu /\ sy_anonymous sy = Some (fu_transport fu, fu_result fu)
    end;
  sim_unnamed : forall tag, ws_namedFutures s !! tag = None ->
    sy_named sy !! tag = None /\ ws_namedResponses s !! tag = None;
  sim_named : forall tag f, ws_namedFutures s !! tag = Some f ->
    exists fu, ws_futures s !! f = Some fu /\ fu_tag fu = tag /\ tag <> ""%string /\
      sy_named sy !! tag = Some (fu_transport fu, fu_result fu) /\ bound s fu;
  sim_tags : forall f fu, ws_futures s !! f = Some fu -> fu_tag fu <> ""%string ->
    ws_namedFutures s !! fu_tag fu = Some f
}.

(** What the walk keeps of the metadata. *)
Definition same_query (m m0 : InboundContext) : Prop :=
  ic_conn m = ic_conn m0 /\ IgnoreDestinationIPCIDRMatch m = false.

Section sim.
Context `{Env}.
Context (transport_Default : DNSTransport) (defaultRejectRcode defaultDomainStrategy : Z) (message : Msg)
  (allowFakeIP : bool).
Context (followPredefinedCNAME : Msg -> DNSQueryOptions -> Msg)
  (ExchangeAsync : nat -> DNSTransport -> DNSQueryOptions -> result Msg)
  (Exchange : DNSTransport -> DNSQueryOptions -> result Msg).
Context (done_ signalled : nat -> nat -> bool) (cancelled : nat -> bool).
Implicit Types (s : dnsRuleWalkState) (sy : syncState) (m : InboundContext) (t : nat).

#[local] Abbreviation settleDNSFutures := (settleDNSFutures done_).

(** ** Settling *)

Lemma settle_fields t s :
  let s' := settleDNSFutures t s in
  ws_effectiveOptions s' = ws_effectiveOptions s /\ ws_anonymousFuture s' = ws_anonymousFuture s /\
  ws_namedFutures s' = ws_namedFutures s /\ ws_armedRules s' = ws_armedRules s /\
  ws_terminalFuture s' = ws_terminalFuture s /\ ws_ruleIndex s' = ws_ruleIndex s.
Proof. unfold settleDNSFutures. cbn. by destruct (settle_loop _ _ _ _ _ _) as [[]]. Qed.

Lemma settle_futures t s i :
  ws_futures (settleDNSFutures t s) !! i = (fun fu => mark (done_ t i) fu) <$> ws_futures s !! i.
Proof.
  unfold settleDNSFutures. pose proof (settle_loop_futures done_ t 0 (ws_futures s) (ws_namedResponses s) (ws_namedTransports s) i) as Hl.
  by destruct (settle_loop _ _ _ _ _ _) as [[]].
Qed.

Lemma settle_named t s :
  let r := settle_loop done_ t 0 (ws_futures s) (ws_namedResponses s) (ws_namedTransports s) in
  ws_namedResponses (settleDNSFutures t s) = r.1.2 /\ ws_namedTransports (settleDNSFutures t s) = r.2.
Proof. unfold settleDNSFutures. cbn. by destruct (settle_loop _ _ _ _ _ _) as [[]]. Qed.

Lemma settle_length t s : length (ws_futures (settleDNSFutures t s)) = length (ws_futures s).
Proof.
  apply Nat.le_antisymm; apply Nat.nlt_ge; intros Hlt.
  - apply lookup_lt_is_Some in Hlt as [x Hx]. rewrite settle_futures in Hx.
    rewrite lookup_ge_None_2 in Hx by lia. done.
  - apply lookup_lt_is_Some in Hlt as [x Hx]. pose proof (settle_futures t s (length (ws_futures (settleDNSFutures t s)))) as He.
    rewrite Hx, lookup_ge_None_2 in He by lia. done.
Qed.

Lemma settle_sim t s sy : sim s sy -> sim (settleDNSFutures t s) sy.
Proof.
  intros Hs. destruct (settle_fields t s) as (Ho & Ha & Hn & Har & Hte & _).
  destruct (settle_named t s) as [HR HT].
  assert (Huniq : forall f fu j fu', ws_futures s !! f = Some fu -> fu_tag fu <> ""%string ->
    ws_futures s !! j = Some fu' -> fu_tag fu' = fu_tag fu -> j = f).
  { intros f fu j fu' Hf Ht Hj Hft. pose proof (sim_tags _ _ Hs _ _ Hf Ht).
    pose proof (sim_tags _ _ Hs j fu' Hj ltac:(by rewrite Hft)). congruence. }
  split; rewrite ?Ho, ?Ha, ?Hn, ?Har, ?Hte, ?settle_length; try apply Hs.
  - pose proof (sim_anonymous _ _ Hs) as Han. destruct (ws_anonymousFuture s) as [f|]; [|done].
    destruct Han as (fu & Hf & Hy). exists (mark (done_ t f) fu). by rewrite settle_futures, Hf.
  - intros tag Htag. destruct (sim_unnamed _ _ Hs tag Htag) as [Hy Hr]. split; [done|].
    rewrite HR. destruct (settle_loop_other done_ t 0 (ws_futures s) (ws_namedResponses s) (ws_namedTransports s) tag) as [-> _]; [|done].
    intros i fu Hi Hft. right. destruct (decide (tag = ""%string)) as [|Hne]; [done|]. exfalso.
    pose proof (sim_tags _ _ Hs i fu Hi ltac:(by rewrite Hft)). congruence.
  - intros tag f Htag. destruct (sim_named _ _ Hs tag f Htag) as (fu & Hf & Hft & Hne & Hy & Hb).
    exists (mark (done_ t f) fu). rewrite settle_futures, Hf. split_and!; try done.
    unfold bound in *. cbn. rewrite HR, HT, Hft in *. destruct (fu_settled fu) eqn:Hse; cbn.
    + destruct (settle_loop_other done_ t 0 (ws_futures s) (ws_namedResponses s) (ws_namedTransports s) tag) as [-> ->]; [|done].
      intros i fu' Hi Hft'. left. assert (i = f) as -> by (eapply Huniq; [exact Hf| |exact Hi|]; congruence).
      rewrite Hf in Hi. injection Hi as <-. by rewrite Hse.
    + destruct (done_ t f) eqn:Hd.
      * destruct (settle_loop_bound done_ t 0 (ws_futures s) (ws_namedResponses s) (ws_namedTransports s) f fu) as [H1 H2]; try done.
        { by rewrite Hft. }
        { intros j fu' Hj Hj'. eapply Huniq; [exact Hf| |exact Hj|done]. by rewrite Hft. }
        rewrite Hft in *. done.
      * destruct (settle_loop_other done_ t 0 (ws_futures s) (ws_namedResponses s) (ws_namedTransports s) tag) as [-> _]; [|done].
        intros i fu' Hi Hft'. left. assert (i = f) as -> by (eapply Huniq; [exact Hf| |exact Hi|]; congruence).
        cbn. by rewrite Hd, orb_true_r.
  - intros f fu Hf Hft. rewrite settle_futures in Hf. destruct (ws_futures s !! f) as [fu0|] eqn:Hf0; [|done].
    injection Hf as <-. exact (sim_tags _ _ Hs f fu0 Hf0 Hft).
Qed.

(** After settling at [t], what is resolved at [t] is bound. *)
Lemma settled_named t s sy tag f :
  sim s sy -> ws_namedFutures s !! tag = Some f -> done_ t f = true ->
  let s' := settleDNSFutures t s in
  ws_namedResponses s' !! tag = sync_named sy !! tag /\
  exists transport answer, sy_named sy !! tag = Some (transport, answer) /\ ws_namedTransports s' !! tag = Some transport.
Proof.
  intros Hs Htag Hd s'. pose proof (settle_sim t s sy Hs) as Hs'. destruct (settle_fields t s) as (_ & _ & Hn & _).
  destruct (sim_named _ _ Hs' tag f) as (fu & Hf & Hft & _ & Hy & Hb); [by rewrite Hn|].
  rewrite settle_futures in Hf. destruct (ws_futures s !! f) as [fu0|]; [|done]. injection Hf as <-.
  unfold bound in Hb. cbn in *. rewrite Hd, orb_true_r, Hft in Hb. destruct Hb as [Hb1 Hb2].
  unfold sync_named. rewrite lookup_omap, Hy. cbn. eauto.
Qed.

(** ** Matching *)

Lemma anonymous_resolved t s sy :
  sim s sy -> unresolved done_ t (ws_anonymousFuture s) = None -> anonymousResponse done_ s t = sync_response sy.
Proof.
  intros Hs Hu. unfold anonymousResponse, sync_response, view. pose proof (sim_anonymous _ _ Hs) as Ha.
  destruct (ws_anonymousFuture s) as [f|]; [|by rewrite Ha]. destruct Ha as (fu & -> & ->).
  cbn in *. by destruct (done_ t f).
Qed.

Lemma await_none t s r :
  await_future done_ t s r = None ->
  (forall tag f, tag ∈ MatchResponseTags r -> ws_namedFutures s !! tag = Some f -> done_ t f = true) /\
  (MatchResponseAnonymous r = true -> unresolved done_ t (ws_anonymousFuture s) = None).
Proof.
  unfold await_future. destruct (pending_named done_ t s r) as [|g l] eqn:Hp; [|done]. intros Ha. split.
  - intros tag f Htag Hf. unfold pending_named in Hp. destruct (done_ t f) eqn:Hd; [done|]. exfalso.
    assert (Hin : f ∈ omap (fun tag => unresolved done_ t (ws_namedFutures s !! tag)) (MatchResponseTags r)).
    { apply list_elem_of_omap. exists tag. split; [done|]. rewrite Hf. cbn. by rewrite Hd. }
    rewrite Hp in Hin. by apply not_elem_of_nil in Hin.
  - intros Hb. by rewrite Hb in Ha.
Qed.

Lemma walk_match r m m0 s sy t :
  same_query m m0 -> scoped r = true ->
  (MatchResponseAnonymous r = true -> anonymousResponse done_ s t = sync_response sy) ->
  (forall tag, tag ∈ MatchResponseTags r -> ws_namedResponses s !! tag = sync_named sy !! tag) ->
  let m1 := set_responses (ResetRuleCache m) (anonymousResponse done_ s t) (ws_namedResponses s) in
  (Match r m1).1 = sat r (sync_metadata sy m0) /\ same_query (Match r m1).2 m0.
Proof.
  intros [Hc Hi] Hsc Ha Ht m1.
  assert (Hcomp : complete m1) by (split; [exact Hi|done]).
  destruct (Match_exact r m1 Hcomp) as [-> _]. split.
  - apply scoped_sat; [done|]. split_and!; done.
  - pose proof (Match_same r m1) as Hs. apply same_fields in Hs as (Hc' & _ & _ & _ & _ & _ & Hi').
    split; [by rewrite Hc'|]. rewrite Hi'. exact Hi.
Qed.

(** ** Acting *)

(** The tags that the rules to come define are new, and defined once. *)
Definition fresh s (rules : list RuntimeRule) : Prop :=
  NoDup (omap evaluate_tag rules) /\
  forall tag, tag ∈ omap evaluate_tag rules -> ws_namedFutures s !! tag = None.

#[local] Abbreviation sync_action :=
  (sync_action defaultRejectRcode defaultDomainStrategy message allowFakeIP followPredefinedCNAME ExchangeAsync Exchange).
#[local] Abbreviation walk_action :=
  (walk_action defaultRejectRcode defaultDomainStrategy message allowFakeIP followPredefinedCNAME ExchangeAsync done_).
#[local] Abbreviation exchange_now := (exchange_now defaultDomainStrategy Exchange).

Lemma sim_launch s sy tag transport options :
  sim s sy -> (tag <> ""%string -> ws_namedFutures s !! tag = None) ->
  let '(f, s') := launchDNSEvaluate defaultDomainStrategy ExchangeAsync s tag false transport options in
  let answer := ExchangeAsync (sy_launched sy) transport (finalizeExchangeOptions defaultDomainStrategy options) in
  if bool_decide (tag = ""%string)
  then sim (set_anonymousFuture s' (Some f)) (mkSync (sy_options sy) (Some (transport, answer)) (sy_named sy) (S (sy_launched sy)))
  else sim (set_namedFuture s' tag f)
         (mkSync (sy_options sy) (sy_anonymous sy) (<[tag := (transport, answer)]> (sy_named sy)) (S (sy_launched sy))).
Proof.
  intros Hs Hnew. unfold launchDNSEvaluate. cbn zeta.
  set (fu := mkFuture tag false transport _ false). pose proof (sim_launched _ _ Hs) as Hlen.
  assert (Hold : forall f x, ws_futures s !! f = Some x -> (ws_futures s ++ [fu]) !! f = Some x)
    by (intros; by apply lookup_app_l_Some).
  assert (Hlast : (ws_futures s ++ [fu]) !! length (ws_futures s) = Some fu) by (by rewrite list_lookup_middle).
  assert (Hsplit : forall f x, (ws_futures s ++ [fu]) !! f = Some x ->
    ws_futures s !! f = Some x \/ f = length (ws_futures s) /\ x = fu).
  { intros f x Hx. apply lookup_app_Some in Hx as [Hx|[Hge Hx]]; [by left|right].
    destruct (f - length (ws_futures s))%nat as [|k] eqn:Hk; [|by destruct k]. injection Hx as <-. split; [lia|done]. }
  case_bool_decide as Htag; split; cbn; try apply Hs; rewrite ?length_app; cbn; try lia.
  - exists fu. split; [done|]. by rewrite <- Hlen.
  - intros tag' f Hf. destruct (sim_named _ _ Hs tag' f Hf) as (x & Hx & ?). exists x. split; [by apply Hold|done].
  - intros f x Hx Hne. apply Hsplit in Hx as [Hx|[_ ->]]; [by apply (sim_tags _ _ Hs)|done].
  - pose proof (sim_anonymous _ _ Hs) as Ha. destruct (ws_anonymousFuture s) as [f|]; [|done].
    destruct Ha as (x & Hx & ?). exists x. split; [by apply Hold|done].
  - intros tag' Hf. apply lookup_insert_None in Hf as [Hf Hne]. rewrite lookup_insert_ne by done. by apply (sim_unnamed _ _ Hs).
  - intros tag' f Hf. apply lookup_insert_Some in Hf as [[<- <-]|[Hne Hf]].
    + exists fu. rewrite lookup_insert_eq. split_and!; try done; [by rewrite <- Hlen|].
      destruct (sim_unnamed _ _ Hs tag (Hnew Htag)) as [_ Hr]. done.
    + destruct (sim_named _ _ Hs tag' f Hf) as (x & Hx & ? & ? & Hy & ?). exists x. rewrite lookup_insert_ne by done.
      split_and!; try done. by apply Hold.
  - intros f x Hx Hne. apply Hsplit in Hx as [Hx|[-> ->]]; [|by rewrite lookup_insert_eq].
    pose proof (sim_tags _ _ Hs f x Hx Hne) as Hf. rewrite lookup_insert_ne; [done|]. intros He. rewrite <- He in Hf.
    rewrite Hnew in Hf; done.
Qed.

Lemma sim_set_options s sy o :
  sim s sy -> sim (set_effectiveOptions s o) (mkSync o (sy_anonymous sy) (sy_named sy) (sy_launched sy)).
Proof. intros Hs. split; try apply Hs. done. Qed.

Lemma sim_next s sy i : sim s sy -> sim (set_ruleIndex s i) sy.
Proof. intros Hs. split; apply Hs. Qed.

Lemma walk_evaluate_sim s sy server tag spec o :
  sim s sy -> (tag <> ""%string -> ws_namedFutures s !! tag = None) ->
  exists s', walk_evaluate defaultDomainStrategy ExchangeAsync s server tag spec o = inr s' /\
    sim s' (sync_evaluate defaultDomainStrategy ExchangeAsync sy server tag o) /\ ws_ruleIndex s' = ws_ruleIndex s /\
    (forall tag', ws_namedFutures s !! tag' = None -> (tag = ""%string \/ tag <> tag') -> ws_namedFutures s' !! tag' = None).
Proof.
  intros Hs Hnew. unfold walk_evaluate, sync_evaluate. destruct (Transport server) as [tr|].
  - rewrite (sim_armed _ _ Hs). cbn [nonnil isnil negb]. rewrite andb_false_r.
    pose proof (sim_launch s sy tag tr (applyDNSRouteOptions (ws_effectiveOptions s) o) Hs Hnew) as Hl.
    unfold launchDNSEvaluate in *. rewrite <- (sim_options _ _ Hs). rewrite <- (sim_options _ _ Hs) in Hl.
    eexists. split; [reflexivity|]. case_bool_decide as Ht; (split; [exact Hl|]; split; [done|]); [done|].
    intros tag' Hf [|Hne]; [done|]. cbn. by rewrite lookup_insert_ne.
  - eexists. split; [reflexivity|]. case_bool_decide; split_and!; try done. split; try apply Hs. done.
Qed.

Lemma walk_respond_sim s sy t rule :
  sim s sy -> rt_action rule = Some ActionRespond -> respond_ok rule = true ->
  (MatchResponseAnonymous (rt_rule rule) = true -> anonymousResponse done_ s t = sync_response sy) ->
  (forall tag, tag ∈ MatchResponseTags (rt_rule rule) ->
     ws_namedResponses s !! tag = sync_named sy !! tag /\
     (forall transport answer, sy_named sy !! tag = Some (transport, answer) -> ws_namedTransports s !! tag = Some transport)) ->
  match walk_respond done_ s t (rt_rule rule) with
  | inl (Returned r, s') => r = sync_respond sy (rt_rule rule)
  | inl (Suspended (SuspendAwait f), s') => s' = s /\ done_ t f = false
  | _ => False
  end.
Proof.
  intros Hs Hact Hok Hanon Htags. unfold walk_respond, drain_or, sync_respond. rewrite (sim_armed _ _ Hs). cbn [nonnil isnil negb].
  unfold respond_ok in Hok. rewrite Hact in Hok. case_bool_decide as Ht; cbn [negb] in *.
  - destruct (if negb (hasBindings _) then _ else _) as [f|] eqn:Hb.
    { destruct (negb (hasBindings _)); [|done]. split; [done|]. unfold unresolved in Hb. repeat case_match; by simplify_eq. }
    assert (Hr : anonymousResponse done_ s t = sync_response sy).
    { destruct (hasBindings (rt_rule rule)); cbn in *; [by apply Hanon|by apply anonymous_resolved]. }
    rewrite Hr. unfold sync_response. pose proof (sim_anonymous _ _ Hs) as Ha. destruct (ws_anonymousFuture s) as [f|].
    + destruct Ha as (fu & Hf & ->). cbn. rewrite Hf. by destruct (fu_result fu).
    + by rewrite Ha.
  - destruct (Htags (MatchResponseTag (rt_rule rule))) as [-> Htr].
    { destruct (rt_rule rule) as [[| |mr tag] d ri|]; cbn in *; try done. rewrite bool_decide_eq_false_2 by done. by left. }
    unfold sync_named. rewrite lookup_omap. destruct (sy_named sy !! _) as [[tr [msg|err]]|] eqn:Hy; cbn; try done.
    by rewrite (Htr tr (Ok msg)).
Qed.

(** The action of a matched rule, whose bound responses are there. *)
Lemma walk_action_sim s sy t rule :
  sim s sy -> walk_ok rule = true ->
  (forall tag, evaluate_tag rule = Some tag -> ws_namedFutures s !! tag = None) ->
  (MatchResponseAnonymous (rt_rule rule) = true -> anonymousResponse done_ s t = sync_response sy) ->
  (forall tag, tag ∈ MatchResponseTags (rt_rule rule) ->
     ws_namedResponses s !! tag = sync_named sy !! tag /\
     (forall transport answer, sy_named sy !! tag = Some (transport, answer) -> ws_namedTransports s !! tag = Some transport)) ->
  match walk_action s t rule with
  | inl (Returned r, s') => sync_action sy rule = inl r
  | inl (Suspended (SuspendPending p), s') =>
      pe_future p = None /\ ws_armedRules s' = [] /\ sync_action sy rule = inl (exchange_now (pe_transport p) (pe_options p))
  | inl (Suspended (SuspendAwait f), s') => s' = s /\ done_ t f = false
  | inl (Suspended SuspendDrain, s') => False
  | inr s' => exists sy', sync_action sy rule = inr sy' /\ sim s' sy' /\ ws_ruleIndex s' = ws_ruleIndex s /\
      (forall tag, ws_namedFutures s !! tag = None -> evaluate_tag rule <> Some tag -> ws_namedFutures s' !! tag = None)
  end.
Proof.
  intros Hs Hok Hnew Hanon Htags. unfold walk_action, sync_action, drain_or, DnsWalk.walk_action, DnsScope.sync_action.
  rewrite (sim_armed _ _ Hs), <- (sim_options _ _ Hs). cbn [nonnil isnil negb].
  destruct (rt_action rule) as [[server spec o|server tag spec o| |o|rcode method nd|rcode a n e]|] eqn:Hact.
  - unfold walk_route. destruct (resolveDNSRoute _ _ _ _) as [| |tr q]; [by exists sy; split_and!..|].
    rewrite (sim_armed _ _ Hs), (sim_terminal _ _ Hs). cbn. split_and!; try done. apply Hs.
  - destruct (walk_evaluate_sim s sy server tag spec o Hs) as (s' & -> & Hs' & Hi & Hf).
    { intros Ht. apply Hnew. unfold evaluate_tag. rewrite Hact. by rewrite bool_decide_eq_false_2. }
    eexists. split; [reflexivity|]. split_and!; try done. intros tag' Ht' Hne. apply Hf; [done|].
    unfold evaluate_tag in Hne. rewrite Hact in Hne. case_bool_decide; [by left|right; congruence].
  - unfold walk_ok in Hok. rewrite !andb_true_iff in Hok. destruct Hok as [_ Hok].
    pose proof (walk_respond_sim s sy t rule Hs Hact Hok Hanon Htags) as Hr.
    destruct (walk_respond _ _ _ _) as [[[r|[]] s']|s']; try done. by rewrite Hr.
  - eexists. split; [done|]. split; [by apply sim_set_options|]. done.
  - destruct (reject_result _ _ _ _ _); [done|]. by exists sy.
  - done.
  - by exists sy.
Qed.

(** ** The walk *)

(** Futures stay resolved, and none completes between the first and the second tick of
    a round. *)
Definition monotone : Prop := forall t t' f, (t <= t')%nat -> done_ t f = true -> done_ t' f = true.
Definition calm : Prop := forall k f, done_ (4 * k + 1) f = true -> done_ (4 * k) f = true.

#[local] Abbreviation walkDNSRules :=
  (walkDNSRules transport_Default defaultRejectRcode defaultDomainStrategy message allowFakeIP followPredefinedCNAME
     ExchangeAsync done_).
#[local] Abbreviation syncWalk :=
  (syncWalk transport_Default defaultRejectRcode defaultDomainStrategy message allowFakeIP followPredefinedCNAME
     ExchangeAsync Exchange).

(** How a walk over [rules] ends: with the result of the reference, or waiting for a
    future that was not there, with the rest of the work ahead. *)
Definition walk_outcome (all rules : list RuntimeRule) sy m0 t
    (res : verdict * dnsRuleWalkState * InboundContext * nat) : Prop :=
  match res with
  | (Returned r, _, _, _) => r = syncWalk rules sy m0
  | (Suspended (SuspendPending p), s', _, _) =>
      pe_future p = None /\ ws_armedRules s' = [] /\ exchange_now (pe_transport p) (pe_options p) = syncWalk rules sy m0
  | (Suspended (SuspendAwait f), s', m', t') =>
      (exists sy', sim s' sy' /\ syncWalk (drop (ws_ruleIndex s') all) sy' m0 = syncWalk rules sy m0) /\
      same_query m' m0 /\ (t < t')%nat /\ (exists k, t' = 4 * k)%nat /\ fresh s' (drop (ws_ruleIndex s') all) /\
      exists t1, (t <= t1)%nat /\ done_ t1 f = false
  | (Suspended SuspendDrain, _, _, _) => False
  end.

Lemma walk_outcome_step all rule rest sy sy' m0 t t' res :
  syncWalk (rule :: rest) sy m0 = syncWalk rest sy' m0 -> (t <= t')%nat ->
  walk_outcome all rest sy' m0 t' res -> walk_outcome all (rule :: rest) sy m0 t res.
Proof.
  intros He Ht. unfold walk_outcome. destruct res as [[[[r|[f| |p]] s'] m'] t'']; rewrite ?He; try done.
  intros (H1 & H2 & H3 & H4 & H5 & t1 & H6 & H7). split_and!; try done; [lia|]. exists t1. split; [lia|done].
Qed.

Lemma fresh_tail s rule rest : fresh s (rule :: rest) -> fresh s rest.
Proof.
  intros [Hd Hf]. unfold fresh. cbn in *. destruct (evaluate_tag rule); [|done].
  apply NoDup_cons in Hd as [_ Hd]. split; [done|]. intros tag' Ht'. apply Hf. by right.
Qed.

Lemma fresh_next s s' rule rest :
  fresh s (rule :: rest) ->
  (forall tag, ws_namedFutures s !! tag = None -> evaluate_tag rule <> Some tag -> ws_namedFutures s' !! tag = None) ->
  fresh s' rest.
Proof.
  intros [Hd Hf] Hs. pose proof (fresh_tail _ _ _ (conj Hd Hf)) as [Hd' Hf']. split; [done|].
  intros tag Htag. apply Hs; [by apply Hf'|]. intros He. cbn in Hd. rewrite He in Hd.
  by apply NoDup_cons in Hd as [Hd _].
Qed.

(** Matching and acting, once the bound responses are there. *)
Lemma match_and_act_sim all rule rest s sy m m0 t k
    (next : dnsRuleWalkState -> InboundContext -> verdict * dnsRuleWalkState * InboundContext * nat) :
  sim s sy -> same_query m m0 -> walk_ok rule = true -> rt_disabled rule = false -> t = (4 * k)%nat ->
  drop (ws_ruleIndex s) all = rule :: rest -> fresh s (rule :: rest) ->
  (MatchResponseAnonymous (rt_rule rule) = true -> unresolved done_ (2 + t) (ws_anonymousFuture s) = None) ->
  (MatchResponseAnonymous (rt_rule rule) = true -> unresolved done_ (3 + t) (ws_anonymousFuture s) = None) ->
  (forall tag, tag ∈ MatchResponseTags (rt_rule rule) ->
     ws_namedResponses s !! tag = sync_named sy !! tag /\
     (forall transport answer, sy_named sy !! tag = Some (transport, answer) -> ws_namedTransports s !! tag = Some transport)) ->
  (forall s' sy' m', sim s' sy' -> same_query m' m0 -> ws_ruleIndex s' = S (ws_ruleIndex s) -> fresh s' rest ->
     walk_outcome all rest sy' m0 (4 + t) (next s' m')) ->
  walk_outcome all (rule :: rest) sy m0 t
    (let m1 := set_responses (ResetRuleCache m) (anonymousResponse done_ s (2 + t)) (ws_namedResponses s) in
     let '(matched, m2) := Match (rt_rule rule) m1 in
     if negb matched then next (next_rule s) m2
     else match walk_action s (3 + t) rule with
          | inl (v, s') => (v, s', m2, (4 + t)%nat)
          | inr s' => next (next_rule s') m2
          end).
Proof.
  intros Hs Hm Hok Hdis Hk Hdrop Hfresh Ha2 Ha3 Htags Hnext. cbn zeta.
  pose proof Hok as Hok'. unfold walk_ok in Hok'. rewrite !andb_true_iff in Hok'. destruct Hok' as [[_ Hsc] _].
  destruct (walk_match (rt_rule rule) m m0 s sy (2 + t) Hm Hsc) as [Hb Hq].
  { intros Hx. apply anonymous_resolved; [done|]. by apply Ha2. }
  { intros tag Htag. by apply Htags. }
  destruct (Match (rt_rule rule) _) as [matched m2]. cbn in Hb, Hq. subst matched.
  destruct (sat (rt_rule rule) (sync_metadata sy m0)) eqn:Hsat; cbn [negb].
  2: { eapply walk_outcome_step with (t' := (4 + t)%nat); [| |apply (Hnext (next_rule s) sy m2)].
       - cbn. by rewrite Hdis, Hsat.
       - lia.
       - by apply sim_next.
       - done.
       - done.
       - by eapply fresh_tail. }
  pose proof (walk_action_sim s sy (3 + t) rule Hs Hok) as Hact.
  assert (Hsync : syncWalk (rule :: rest) sy m0 =
    match sync_action sy rule with inl r => r | inr sy' => syncWalk rest sy' m0 end) by (cbn; by rewrite Hdis, Hsat).
  destruct (walk_action s (3 + t) rule) as [[v s']|s'].
  - assert (Hx : match v with
      | Returned r => sync_action sy rule = inl r
      | Suspended (SuspendPending p) =>
          pe_future p = None /\ ws_armedRules s' = [] /\ sync_action sy rule = inl (exchange_now (pe_transport p) (pe_options p))
      | Suspended (SuspendAwait f) => s' = s /\ done_ (3 + t) f = false
      | Suspended SuspendDrain => False
      end) by (apply Hact; [intros tag He; apply Hfresh; cbn; rewrite He; by left
                           |intros Hx; apply anonymous_resolved; [done|by apply Ha3]|done]).
    destruct v as [r|[f| |p]]; cbn -[DnsScope.syncWalk]; rewrite ?Hsync.
    + by rewrite Hx.
    + destruct Hx as [-> Hd]. rewrite Hdrop. split_and!; try done.
      * exists sy. split; [done|exact Hsync].
      * lia.
      * exists (S k). lia.
      * exists (3 + t)%nat. split; [lia|done].
    + done.
    + destruct Hx as (-> & -> & ->). done.
  - destruct Hact as (sy' & He & Hs' & Hi & Hf); [intros tag Ht; apply Hfresh; cbn; rewrite Ht; by left
                           |intros Hx; apply anonymous_resolved; [done|by apply Ha3]|done|].
    eapply walk_outcome_step with (t' := (4 + t)%nat); [| |apply (Hnext (next_rule s') sy' m2)]; try done.
    + rewrite Hsync, He. done.
    + lia.
    + by apply sim_next.
    + cbn. by rewrite Hi.
    + by eapply (fresh_next s).
Qed.

Lemma unresolved_later t t' f :
  monotone -> (t <= t')%nat -> unresolved done_ t f = None -> unresolved done_ t' f = None.
Proof.
  intros Hmono Ht. unfold unresolved. destruct f as [f|]; [|done]. destruct (done_ t f) eqn:Hd; [|done].
  by rewrite (Hmono t t').
Qed.

Lemma walk_correct all rules s sy m m0 t k :
  monotone -> calm -> sim s sy -> same_query m m0 -> t = (4 * k)%nat -> drop (ws_ruleIndex s) all = rules ->
  fresh s rules -> Forall (fun rule => walk_ok rule = true) rules ->
  walk_outcome all rules sy m0 t (walkDNSRules rules s m t).
Proof.
  intros Hmono Hcalm. revert s sy m t k. induction rules as [|rule rest IH]; intros s sy m t k Hs Hm Hk Hdrop Hfresh Hok.
  { cbn. rewrite (sim_armed _ _ Hs). cbn. rewrite (sim_options _ _ Hs). split_and!; try done. apply Hs. }
  apply Forall_cons in Hok as [Hok Hoks].
  assert (Hrest : forall i, i = ws_ruleIndex s -> drop (S i) all = rest).
  { intros i ->. by rewrite <- Nat.add_1_r, <- drop_drop, Hdrop. }
  assert (Hnext : forall s' sy' m', sim s' sy' -> same_query m' m0 -> ws_ruleIndex s' = S (ws_ruleIndex s) ->
    fresh s' rest -> walk_outcome all rest sy' m0 (4 + t) (walkDNSRules rest s' m' (4 + t))).
  { intros s' sy' m' Hs' Hm' Hi Hf. apply (IH s' sy' m' (4 + t)%nat (S k)); try done; [lia|]. rewrite Hi. by apply Hrest. }
  cbn [DnsWalk.walkDNSRules]. cbn zeta. destruct (rt_disabled rule) eqn:Hdis.
  { eapply walk_outcome_step with (t' := t); [cbn; by rewrite Hdis|lia|].
    apply (IH (next_rule s) sy m t k); try done; [by apply sim_next|by apply Hrest|by eapply fresh_tail]. }
  destruct (hasBindings (rt_rule rule)) eqn:Hb.
  2: { unfold hasBindings in Hb. apply orb_false_iff in Hb as [Hb1 Hb2].
       eapply (match_and_act_sim all rule rest s sy m m0 t k (fun s' m' => walkDNSRules rest s' m' (4 + t)%nat)); try done;
         try (by rewrite Hb2). destruct (MatchResponseTags (rt_rule rule)); [|done]. by intros tag Ht%not_elem_of_nil. }
  pose proof Hok as Hok'. unfold walk_ok in Hok'. rewrite !andb_true_iff in Hok'. destruct Hok' as [[Hrace _] _].
  apply negb_true_iff in Hrace. rewrite Hrace. destruct (settle_fields t s) as (_ & Hsa & Hsn & _ & _ & Hsi).
  pose proof (settle_sim t s sy Hs) as Hs1. destruct (await_future done_ (1 + t) _ _) as [f|] eqn:Haw.
  - cbn -[DnsScope.syncWalk]. rewrite Hsi, Hdrop. split_and!; try done.
    + by exists sy.
    + lia.
    + exists (S k). lia.
    + destruct Hfresh as [Hd Hf]. split; [done|]. by rewrite Hsn.
    + exists (1 + t)%nat. split; [lia|]. unfold await_future in Haw. destruct (pending_named _ _ _ _) as [|g l] eqn:Hp.
      * destruct (MatchResponseAnonymous _); [|done]. unfold unresolved in Haw. repeat case_match; by simplify_eq.
      * injection Haw as ->. assert (Hin : f ∈ f :: l) by (by left). rewrite <- Hp in Hin.
        apply list_elem_of_omap in Hin as (tag & _ & Htag). unfold unresolved in Htag. repeat case_match; by simplify_eq.
  - apply await_none in Haw as [Hnamed Hanon].
    apply (match_and_act_sim all rule rest (settleDNSFutures t s) sy m m0 t k (fun s' m' => walkDNSRules rest s' m' (4 + t)%nat)); try done.
    + by rewrite Hsi.
    + destruct Hfresh as [Hd Hf]. split; [done|]. by rewrite Hsn.
    + intros Hx. apply (unresolved_later (1 + t)); [done|lia|by apply Hanon].
    + intros Hx. apply (unresolved_later (1 + t)); [done|lia|by apply Hanon].
    + intros tag Htag. rewrite Hsn in Hnamed. destruct (ws_namedFutures s !! tag) as [f|] eqn:Hf.
      * assert (Hd : done_ t f = true).
        { rewrite Hk. apply Hcalm. replace (4 * k + 1)%nat with (1 + t)%nat by lia. by apply (Hnamed tag). }
        destruct (settled_named t s sy tag f Hs Hf Hd) as (Hr & tr & an & Hy & Htr). split; [done|].
        intros tr' an' Hy'. rewrite Hy in Hy'. by simplify_eq.
      * destruct (sim_unnamed _ _ Hs1 tag) as [Hy Hr]; [by rewrite Hsn|]. unfold sync_named. rewrite lookup_omap, Hy, Hr.
        split; [done|]. by intros.
    + intros s' sy' m' Hs' Hm' Hi Hf. apply Hnext; try done. by rewrite Hi, Hsi.
Qed.

(** ** Resuming *)

#[local] Abbreviation resume :=
  (resumeExchangeWithRules transport_Default defaultRejectRcode defaultDomainStrategy message allowFakeIP
     followPredefinedCNAME ExchangeAsync Exchange done_ signalled cancelled).

(** A walk that ended in an exchange of its own only has it left. *)
Lemma pending_sound fuel all s m t seen p r result :
  pe_future p = None /\ ws_armedRules s = [] /\ exchange_now (pe_transport p) (pe_options p) = result ->
  resume fuel all s m t seen (SuspendPending p) = Some r -> r = result.
Proof.
  intros (Hp & Har & He). destruct fuel as [|fuel]; [done|]. cbn [resumeExchangeWithRules].
  unfold sweepArmedDNSRules. destruct (settle_fields t s) as (_ & _ & _ & Har' & _). rewrite Har', Har.
  cbn [sweep_loop]. unfold finishPendingExchange. rewrite Hp. fold (exchange_now (pe_transport p) (pe_options p)).
  rewrite He. by intros [= ->].
Qed.

(** The select statement is left a whole number of rounds later. *)
Lemma wait_wake_aligned fuel s seen t seen' t' :
  wait_wake signalled cancelled fuel s seen t = Some (Some (seen', t')) -> exists k, (t' = 4 * k + t)%nat.
Proof.
  revert t. induction fuel as [|fuel IH]; intros t; cbn; [done|]. destruct (cancelled t); [done|].
  destruct (wake_ready _ _ _ _); [intros [= <- <-]; by exists 0%nat|].
  intros [k ->]%IH. exists (S k). lia.
Qed.

Lemma wait_wake_calm fuel s seen t :
  (forall t, cancelled t = false) -> wait_wake signalled cancelled fuel s seen t <> Some None.
Proof.
  intros Hcan. revert t. induction fuel as [|fuel IH]; intros t; cbn; [done|]. rewrite Hcan.
  by destruct (wake_ready _ _ _ _).
Qed.

(** What the loop returns is what the reference returns. *)
Lemma resume_sound all m0 result :
  monotone -> calm -> (forall t, cancelled t = false) -> Forall (fun rule => walk_ok rule = true) all ->
  forall fuel s sy m t k seen f r,
    sim s sy -> same_query m m0 -> t = (4 * k)%nat -> fresh s (drop (ws_ruleIndex s) all) ->
    syncWalk (drop (ws_ruleIndex s) all) sy m0 = result ->
    resume fuel all s m (S t) seen (SuspendAwait f) = Some r -> r = result.
Proof.
  intros Hmono Hcalm Hcan Hok. induction fuel as [|fuel IH]; intros s sy m t k seen f r Hs Hm Hk Hfresh Hres Hret; [done|].
  cbn [resumeExchangeWithRules] in Hret. pose proof (settle_sim (S t) s sy Hs) as Hs1.
  destruct (settle_fields (S t) s) as (_ & _ & Hsn & _ & _ & Hsi).
  unfold sweepArmedDNSRules in Hret. rewrite (sim_armed _ _ Hs1) in Hret. cbn [sweep_loop] in Hret.
  set (s2 := set_armedRules _ []) in *.
  assert (Hs2 : sim s2 sy) by (split; try apply Hs1; done).
  assert (Hfresh2 : fresh s2 (drop (ws_ruleIndex s2) all)).
  { unfold s2. cbn [ws_ruleIndex set_armedRules]. rewrite Hsi. destruct Hfresh as [Hd Hf]. split; [done|].
    cbn [ws_namedFutures set_armedRules]. by rewrite Hsn. }
  assert (Hres2 : syncWalk (drop (ws_ruleIndex s2) all) sy m0 = result) by (unfold s2; cbn [ws_ruleIndex set_armedRules]; by rewrite Hsi).
  destruct (must_wait _ _ _ _) eqn:Hw.
  - destruct (wait_wake _ _ _ _ _ _) as [[[seen' t3]|]|] eqn:Hwake; [..|done].
    + apply wait_wake_aligned in Hwake as [j Hj]. replace (1 + t3)%nat with (S (4 * j + 4 + t)) in Hret by lia.
      eapply (IH s2 sy m (4 * j + 4 + t)%nat (j + 1 + k)%nat); try done; lia.
    + by apply wait_wake_calm in Hwake.
  - replace (2 + (1 + S t))%nat with (4 + t)%nat in Hret by lia.
    pose proof (walk_correct all (drop (ws_ruleIndex s2) all) s2 sy m m0 (4 + t) (S k) Hmono Hcalm Hs2 Hm ltac:(lia) eq_refl
      Hfresh2 ltac:(by apply Forall_drop)) as Hwalk.
    destruct (walkDNSRules _ _ _ _) as [[[[r'|[g| |p]] s3] m3] t3]; cbn -[DnsScope.syncWalk] in Hwalk.
    + injection Hret as <-. by rewrite Hwalk.
    + destruct Hwalk as ((sy' & Hs3 & He) & Hm3 & Ht3 & [k' Hk'] & Hf3 & _).
      by apply (IH s3 sy' m3 t3 k' seen g); try done; transitivity (syncWalk (drop (ws_ruleIndex s2) all) sy m0).
    + done.
    + rewrite <- Hres2. by eapply pending_sound.
Qed.

Lemma exchange_sound rules m options fuel r :
  monotone -> calm -> (forall t, cancelled t = false) ->
  Forall (fun rule => walk_ok rule = true) rules -> NoDup (omap evaluate_tag rules) ->
  IgnoreDestinationIPCIDRMatch m = false ->
  exchangeWithRules transport_Default defaultRejectRcode defaultDomainStrategy message allowFakeIP
     followPredefinedCNAME ExchangeAsync Exchange done_ signalled cancelled fuel rules m options = Some r ->
  r = syncWalk rules (initial_sync options) m.
Proof.
  intros Hmono Hcalm Hcan Hok Hnd Hi. unfold exchangeWithRules.
  assert (Hs : sim (initial_walk options) (initial_sync options)) by (by split).
  assert (Hfresh : fresh (initial_walk options) rules) by (by split).
  pose proof (walk_correct rules rules (initial_walk options) (initial_sync options) m m 0 0 Hmono Hcalm Hs
    ltac:(by split) ltac:(lia) eq_refl Hfresh Hok) as Hwalk.
  destruct (walkDNSRules _ _ _ _) as [[[[r'|[g| |p]] s3] m3] t3]; cbn -[DnsScope.syncWalk] in Hwalk; intros Hret.
  - injection Hret as <-. by rewrite Hwalk.
  - destruct Hwalk as ((sy' & Hs3 & He) & Hm3 & Ht3 & [k' Hk'] & Hf3 & _).
    exact (resume_sound rules m _ Hmono Hcalm Hcan Hok _ _ _ _ _ _ _ _ _ Hs3 Hm3 Hk' Hf3 He Hret).
  - done.
  - by eapply pending_sound.
Qed.
End sim.
