(* ===== verification/DnsBuild.v ===== *)
(** * From the options of the DNS rules to the rules of a running router

    [buildRules], [Initialize] and [Start] of [src/dns/router.go], and what they
    establish: the rules of a router outside of the legacy mode read only responses
    that earlier rules produce, each under a tag of its own. *)

From stdpp Require Import base gmap strings list pretty.
From Stdlib Require Import ZArith Lia.
From S2P Require Import Prelude Net Metadata RuleMatch RuleSpec RuleDefer RuleItems RuleOptions RuleBuild.
From S2P Require Import RuleBuilt RuleStarted DnsMode DnsWalk DnsScope.

Open Scope Z_scope.

(** A rule before [Start], with its action. *)
Record BuiltRule : Type := mkBuiltRule {
  br_rule : Rule BuiltItem;
  br_action : option DNSRuleAction;
  br_race : bool
}.

Record DNSRouter : Type := mkDNSRouter {
  dr_mode : RouterMode;
  dr_rules : list RuntimeRule
}.

Definition ChangeStatus (r : RuntimeRule) : RuntimeRule :=
  mkRuntimeRule (rt_rule r) (rt_action r) (rt_race r) (negb (rt_disabled r)).

Definition ValidateNoNestedDNSRuleActions (rule : DNSRule) : result unit := validateNoNestedDNSRuleActions rule false.

Section build.
Context `{Env} `{BuildContext}.
(** The router service: the rule-sets by tag; [None] when there is no such service. *)
Context (router : option (string -> option (RuleSet (Rule Item)))).

Definition summaries : option (string -> option RuleSetMetadata) :=
  match router with Some ruleSet => Some (fun tag => rs_metadata <$> ruleSet tag) | None => None end.

(** Without a router no rule has rule-sets, see [dnsRuleModeRequirementsInDefaultRule]. *)
Definition ruleSets (tag : string) : option (RuleSet (Rule Item)) :=
  match router with Some ruleSet => ruleSet tag | None => None end.

Definition parse_cause {A : Type} (i : Z) (c : result A) : result A :=
  result_map_err (fun e => ECause e ("parse dns rule[" +:+ pretty i +:+ "]")) c.

(** The rule with its action, which the constructors of rules build first; only an
    action that decoding refuses makes that fail. *)
Definition buildRule (legacyDNSMode : bool) (rule : DNSRule) : result BuiltRule :=
  try built <- NewDNSRule rule true legacyDNSMode;
  match rule with
  | mkDNSRule _ _ _ _ _ options =>
      try action <- NewDNSRuleAction options;
      Ok (mkBuiltRule built action (da_Race options))
  end.

(** [buildRules] up to the start of the rules. *)
Definition prepareRules (rawRules : list DNSRule) : result (list BuiltRule * bool * dnsRuleModeFlags) :=
  try _ <- result_mapiM (fun i rule => parse_cause i (ValidateNoNestedDNSRuleActions rule)) 0 rawRules;
  try mode <- resolveLegacyDNSMode summaries ∅ rawRules;
  try _ <- (if negb mode.1 then discard (validateLegacyDNSModeDisabledRules summaries ∅ rawRules) else Ok tt);
  try _ <- validateEvaluateFakeIPRules (fun tag => tr_Type <$> Transport tag) rawRules;
  try rules <- result_mapiM (fun i rule => parse_cause i (buildRule mode.1 rule)) 0 rawRules;
  Ok (rules, mode.1, mode.2).

Definition startRule (b : BuiltRule) : result RuntimeRule :=
  try rule <- Rule_Start ruleSets (br_rule b);
  Ok (mkRuntimeRule rule (br_action b) (br_race b) false).

(** [buildRules(true)] *)
Definition buildRules (rawRules : list DNSRule) : result (list RuntimeRule * bool * dnsRuleModeFlags) :=
  try prepared <- prepareRules rawRules;
  try rules <- result_mapiM (fun i b =>
    result_map_err (fun e => ECause e ("initialize DNS rule[" +:+ pretty i +:+ "]")) (startRule b)) 0 prepared.1.1;
  Ok (rules, prepared.1.2, prepared.2).

(** [Initialize] keeps the options and builds the rules once to check them. *)
Definition Router_Initialize (r : DNSRouter) (rules : list DNSRule) : result DNSRouter :=
  try _ <- prepareRules rules;
  Ok (mkDNSRouter (mkRouterMode rules (rm_started (dr_mode r)) (rm_legacyDNSMode (dr_mode r)) (rm_closing (dr_mode r)))
        (dr_rules r)).

Definition Router_Start (r : DNSRouter) : result DNSRouter :=
  try built <- buildRules (rm_rawRules (dr_mode r));
  if rm_closing (dr_mode r) then Ok r
  else Ok (mkDNSRouter (mkRouterMode (rm_rawRules (dr_mode r)) true built.1.2 (rm_closing (dr_mode r))) built.1.1).

(** What the scope of [Start] runs when the router closes. *)
Definition Router_Close (r : DNSRouter) : DNSRouter :=
  mkDNSRouter (mkRouterMode (rm_rawRules (dr_mode r)) (rm_started (dr_mode r)) (rm_legacyDNSMode (dr_mode r)) true) [].

End build.

(** ** Decoding of [match_response] *)

(** [asBool] and [asString] are what [json.Unmarshal] makes of the value. *)
Definition DNSRuleMatchResponse_UnmarshalJSON (asBool : result bool) (asString : result string)
    : result DNSRuleMatchResponse :=
  match asBool with
  | Ok boolValue => Ok (mkMatchResponse boolValue "")
  | Err _ =>
      match asString with
      | Err _ => Err (ENew "invalid match_response value")
      | Ok stringValue =>
          if empty_string stringValue then Err (ENew "empty match_response tag")
          else Ok (mkMatchResponse true stringValue)
      end
  end.

(** ** Validated options *)

(** Decoding gives a tag only to an enabled [match_response]. *)
Definition tag_enabled (d : RawDefaultDNSRule) : bool :=
  IsEnabled (do_MatchResponse d) || bool_decide (ResponseTag (do_MatchResponse d) = ""%string).

Lemma decoded_enabled b st m : DNSRuleMatchResponse_UnmarshalJSON b st = Ok m ->
  IsEnabled (Some m) || bool_decide (ResponseTag (Some m) = ""%string) = true.
Proof.
  unfold DNSRuleMatchResponse_UnmarshalJSON, empty_string. intros Hm. repeat case_match; simplify_eq; cbn; try done.
  by destruct a.
Qed.

Section validated.
Context `{Env} `{BuildContext}.
Context (md : option (string -> option RuleSetMetadata)) (overrides : gmap string RuleSetMetadata).

Lemma validated_default d a u : validateLegacyDNSModeDisabledDefaultRule md overrides d a = Ok u ->
  implb (response_options d) (IsEnabled (do_MatchResponse d)) = true /\
  (IsEnabled (do_MatchResponse d) = true ->
   if bool_decide (ResponseTag (do_MatchResponse d) = ""%string) then needsAnonymous u = true
   else ResponseTag (do_MatchResponse d) ∈ referencedTags u).
Proof.
  unfold validateLegacyDNSModeDisabledDefaultRule. change (hasResponseMatchFields d) with (response_options d).
  intros Hr. destruct (IsEnabled (do_MatchResponse d)) eqn:He; cbn [negb andb] in Hr.
  - rewrite andb_false_r in Hr. cbn [result_bind] in Hr. destruct (do_RuleSetIPCIDRAcceptEmpty d); [done|].
    split; [by destruct (response_options d)|]. intros _. unfold empty_string in Hr.
    injection Hr as <-. case_bool_decide; cbn; repeat case_match; cbn; set_solver.
  - split; [|done]. by destruct (response_options d).
Qed.

Lemma validated_options o u : validateLegacyDNSModeDisabledRuleTree md overrides o = Ok u ->
  every_options (fun d => implb (response_options d) (IsEnabled (do_MatchResponse d))) o = true.
Proof.
  revert u. induction o as [ty d mode rules inv a IH] using DNSRule_nested_ind; intros u. cbn.
  destruct (is_default_type ty); [by intros [Hd _]%validated_default|].
  destruct (bool_decide _); [|done]. intros Hr. simpl_result. apply result_mapiM_Forall2 in Heqr.
  apply forallb_Forall. clear Hr. revert IH. induction Heqr as [|x y l l' [j Hj] _ IHl]; [done|].
  intros [Hx Hl]%Forall_cons. constructor; [|by apply IHl]. apply sub_rule_cause_Ok in Hj.
  by rewrite (Hx _ Hj).
Qed.

(** The references of a rule are those validation saw. *)
Lemma validated_bindings o u cs lg r :
  validateLegacyDNSModeDisabledRuleTree md overrides o = Ok u -> every_options tag_enabled o = true ->
  NewDNSRule o cs lg = Ok r ->
  (forall tag, tag ∈ MatchResponseTags r -> tag ∈ referencedTags u) /\
  (MatchResponseAnonymous r = true -> needsAnonymous u = true).
Proof.
  revert u cs r. induction o as [ty d mode rules inv a IH] using DNSRule_nested_ind.
  intros u cs r Hv Ht Hr%NewDNSRule_inv. cbn in Hv, Ht. destruct (is_default_type ty).
  { destruct Hr as [(d' & ri & ->)%NewDefaultDNSRule_kind _]. apply validated_default in Hv as [_ Hv].
    unfold tag_enabled in Ht. cbn. case_bool_decide.
    - split; [by intros tag Hn%not_elem_of_nil|]. intros [He _]%andb_true_iff. auto.
    - rewrite orb_false_r in Ht. split; [intros tag ->%list_elem_of_singleton; auto|]. by rewrite andb_false_r. }
  destruct Hr as (-> & rs & -> & Hr & _). rewrite bool_decide_eq_true_2 in Hv, Ht by done. simpl_result.
  apply result_mapiM_Forall2 in Heqr. apply forallb_Forall in Ht.
  assert (Hu : existsb needsAnonymous a0 = true -> needsAnonymous u = true).
  { intros He. repeat case_match; simplify_eq; [done|exact He]. }
  assert (Hg : flat_map referencedTags a0 = referencedTags u) by (repeat case_match; by simplify_eq).
  assert (Hall : forall r', r' ∈ rs -> exists u', u' ∈ a0 /\
    (forall tag, tag ∈ MatchResponseTags r' -> tag ∈ referencedTags u') /\
    (MatchResponseAnonymous r' = true -> needsAnonymous u' = true)).
  { clear Hu Hg Hv. revert a0 Heqr IH Ht. induction Hr as [|x y l l' Hxy _ IHl]; intros us Hus HI Ht r' Hr';
      [by apply not_elem_of_nil in Hr'|].
    inversion Hus as [|? u' ? us' [j Hj] Hus']; subst. apply Forall_cons in HI as [Hx HI]. apply Forall_cons in Ht as [Htx Ht].
    apply elem_of_cons in Hr' as [->|Hr'].
    - exists u'. split; [by left|]. apply sub_rule_cause_Ok in Hj. eapply Hx; eauto.
    - destruct (IHl us' Hus' HI Ht r' Hr') as (u'' & Hin & Hb). exists u''. split; [by right|done]. }
  cbn. split.
  - intros tag [Htag _]%elem_of_uniq. apply list_elem_of_In, in_flat_map in Htag as (r' & Hr' & Htag).
    apply list_elem_of_In in Hr', Htag. destruct (Hall r' Hr') as (u' & Hu' & Hb & _). rewrite <- Hg.
    apply list_elem_of_In, in_flat_map. exists u'. rewrite <- !list_elem_of_In. auto.
  - intros (r' & Hr' & Hb)%existsb_exists. apply list_elem_of_In in Hr'. destruct (Hall r' Hr') as (u' & Hu' & _ & Ha).
    apply Hu, existsb_exists. exists u'. split; [by apply list_elem_of_In|auto].
Qed.

(** ** The loop over the rules *)

Definition is_evaluate (o : DNSRule) : bool := bool_decide (dnsRuleActionType o = "evaluate"%string).

(** The tag a rule defines. *)
Definition defines (o : DNSRule) : list string :=
  if is_evaluate o && negb (empty_string (dnsRuleActionEvaluateTag o)) then [dnsRuleActionEvaluateTag o] else [].

Definition evaluates_anonymously (o : DNSRule) : bool := is_evaluate o && empty_string (dnsRuleActionEvaluateTag o).

Lemma check_anonymous_Ok i u s s' : check_anonymous i u s = Ok s' ->
  (needsAnonymous u = true -> sc_seenAnonymousEvaluate s = true) /\
  sc_definedTags s' = sc_definedTags s /\ sc_seenAnonymousEvaluate s' = sc_seenAnonymousEvaluate s.
Proof.
  unfold check_anonymous. destruct (needsAnonymous u); [|by intros [= <-]].
  destruct (sc_seenAnonymousEvaluate s) eqn:Hs; cbn; [by intros [= <-]|]. by destruct (nonnil _).
Qed.

Lemma check_tags_Ok i tags s s' : check_tags i tags s = Ok s' ->
  (forall tag, tag ∈ tags -> tag ∈ sc_definedTags s) /\
  sc_definedTags s' = sc_definedTags s /\ sc_seenAnonymousEvaluate s' = sc_seenAnonymousEvaluate s.
Proof.
  revert s. induction tags as [|tag tags IH]; intros s; cbn.
  { intros [= <-]. split; [by intros tag Hn%not_elem_of_nil|done]. }
  case_bool_decide as Ht; cbn; [|done]. intros (Hin & Hd & Ha)%IH. cbn in Hin, Hd, Ha.
  split_and!; [|done..]. intros tag' [->|Ht']%elem_of_cons; auto.
Qed.

Lemma define_evaluate_Ok i o s s' : define_evaluate i o s = Ok s' ->
  sc_definedTags s' = sc_definedTags s ++ defines o /\
  (forall tag, tag ∈ defines o -> tag ∉ sc_definedTags s) /\
  sc_seenAnonymousEvaluate s' = sc_seenAnonymousEvaluate s || evaluates_anonymously o.
Proof.
  unfold define_evaluate, defines, evaluates_anonymously, is_evaluate. destruct (bool_decide _); cbn.
  - destruct (empty_string _) eqn:He; cbn.
    + intros [= <-]. cbn. rewrite app_nil_r, orb_true_r. split_and!; [done|by intros tag Hn%not_elem_of_nil|done].
    + case_bool_decide as Ht; [done|]. intros [= <-]. cbn. rewrite orb_false_r.
      split_and!; [done|by intros tag ->%list_elem_of_singleton|done].
  - intros [= <-]. rewrite app_nil_r, orb_false_r. split_and!; [done|by intros tag Hn%not_elem_of_nil|done].
Qed.

(** What the rules before [o] must provide for it. *)
Definition provided (u : dnsRuleResponseUse) (anonymous : bool) (tags : list string) : Prop :=
  (needsAnonymous u = true -> anonymous = true) /\ (forall tag, tag ∈ referencedTags u -> tag ∈ tags).

Lemma validate_step_Ok i o s s' : validate_step md overrides i o s = Ok s' ->
  (exists u, validateLegacyDNSModeDisabledRuleTree md overrides o = Ok u /\
     provided u (sc_seenAnonymousEvaluate s) (sc_definedTags s)) /\
  sc_definedTags s' = sc_definedTags s ++ defines o /\
  (forall tag, tag ∈ defines o -> tag ∉ sc_definedTags s) /\
  sc_seenAnonymousEvaluate s' = sc_seenAnonymousEvaluate s || evaluates_anonymously o.
Proof.
  unfold validate_step. intros Hr.
  destruct (validateLegacyDNSModeDisabledRuleTree md overrides o) as [u|] eqn:Hu; [|done].
  cbn [result_map_err result_bind] in Hr. simpl_result.
  match goal with Hc : check_anonymous _ _ _ = Ok _ |- _ => apply check_anonymous_Ok in Hc as (H1 & H2 & H3) end.
  match goal with Hc : check_tags _ _ _ = Ok _ |- _ => apply check_tags_Ok in Hc as (H4 & H5 & H6) end.
  apply define_evaluate_Ok in Hr as (H7 & H8 & H9). cbn in H1, H2, H3.
  rewrite H5, H2 in H7, H8. rewrite H6, H3 in H9. rewrite H2 in H4.
  split_and!; try done. by exists u.
Qed.

Lemma validate_loop_Ok rules i s s' : validate_loop md overrides i rules s = Ok s' ->
  NoDup (sc_definedTags s) ->
  NoDup (sc_definedTags s ++ flat_map defines rules) /\
  forall k o, rules !! k = Some o -> exists u, validateLegacyDNSModeDisabledRuleTree md overrides o = Ok u /\
    provided u (sc_seenAnonymousEvaluate s || existsb evaluates_anonymously (take k rules))
      (sc_definedTags s ++ flat_map defines (take k rules)).
Proof.
  revert i s. induction rules as [|o rules IH]; intros i s Hr Hnd; cbn in Hr.
  { cbn. rewrite app_nil_r. split; [done|]. by intros k o. }
  simpl_result. match goal with Hs : validate_step _ _ _ _ _ = Ok _ |- _ => apply validate_step_Ok in Hs as (Hu & Hd & Hf & Ha) end.
  destruct (IH _ _ Hr) as [Hnd' Hk].
  { rewrite Hd. apply NoDup_app. split_and!; [done|by intros tag Ht Ht'; apply (Hf tag)|].
    unfold defines. destruct (_ && _); [apply NoDup_singleton|apply NoDup_nil_2]. }
  rewrite Hd, <- app_assoc in Hnd'. split; [done|]. intros [|k] o' Ho; cbn in Ho.
  - injection Ho as ->. cbn. rewrite orb_false_r, app_nil_r. done.
  - destruct (Hk k o' Ho) as (u & Hu' & Hp). exists u. split; [done|]. cbn.
    by rewrite Hd, Ha, <- app_assoc, <- orb_assoc in Hp.
Qed.
End validated.
