(* ===== verification/DnsStarted.v ===== *)
(** * The rules of a started router

    What [buildRules] establishes about the rules it returns outside of the legacy
    mode: they satisfy the conditions under which the walk of the rules does not
    depend on the schedule of the exchanges, and every response they read is produced
    by an earlier rule. *)

From stdpp Require Import base gmap strings list pretty.
From Stdlib Require Import ZArith Lia.
From S2P Require Import Prelude Net Metadata RuleMatch RuleSpec RuleDefer RuleItems RuleOptions RuleBuild RuleBuilt.
From S2P Require Import RuleStarted DnsMode DnsWalk DnsScope DnsBuild.

Open Scope Z_scope.

Section started.
Context `{Env} `{BuildContext}.

(** ** Scopes *)

Lemma headless_plain b (r : Rule Item) : every_default started_headless r -> plain_rule b r = true.
Proof.
  induction r as [kind d ri _|mode rules inv IH] using Rule_nested_ind; cbn.
  - intros (-> & -> & _ & Hq & _). rewrite andb_true_r. apply forallb_Forall.
    eapply Forall_impl; [exact Hq|]. intros it Hit%Is_true_true. by rewrite Hit.
  - rewrite foldr_and, forallb_Forall. intros Hr.
    eapply Forall_impl; [exact (proj2 (Forall_and _ _) (conj Hr IH))|]. cbn. intros r [H1 H2]. auto.
Qed.

Lemma loaded_plain b s : loaded s -> forallb (plain_rule b) (rs_rules s) = true.
Proof.
  intros [Hl _]%loaded_rules. apply forallb_Forall. eapply Forall_impl; [exact Hl|]. intros r. apply headless_plain.
Qed.

Definition scoped_default (kind : defaultKind) (d : abstractDefaultRule Item)
    (ri : option (RuleSetItem (Rule Item))) : Prop :=
  (exists mr tag, kind = KindDNS mr tag /\ Forall (fun it => quiet it || mr) (grouped d)) /\
  (forall s, ri = Some s -> Forall loaded (setList s)).

Lemma every_scoped (r : Rule Item) : every_default scoped_default r -> scoped r = true.
Proof.
  induction r as [kind d ri _|mode rules inv IH] using Rule_nested_ind; cbn.
  - intros [(mr & tag & -> & Hq) Hl]. apply andb_true_iff. split.
    + apply forallb_Forall. eapply Forall_impl; [exact Hq|]. intros it Hit. by apply Is_true_true in Hit.
    + destruct ri as [s|]; [|done]. apply forallb_Forall. eapply Forall_impl; [exact (Hl s eq_refl)|].
      intros rs Hrs. by apply loaded_plain.
  - rewrite foldr_and, forallb_Forall. intros Hr.
    eapply Forall_impl; [exact (proj2 (Forall_and _ _) (conj Hr IH))|]. cbn. intros r [H1 H2]. auto.
Qed.

Lemma started_scoped router r r' :
  (forall tag rs, router tag = Some rs -> loaded rs) ->
  every_default (built_dns (fun mr any => implb any mr)) r -> Rule_Start router r = Ok r' -> scoped r' = true.
Proof.
  intros Hl Hb Hs. apply every_scoped. eapply Rule_Start_every; [|exact Hs|exact Hb].
  intros kind d ri d' (mr & tag & any & -> & HR & _ & Hp) Hd.
  assert (Hq : exists mr' tag', KindDNS mr tag = KindDNS mr' tag' /\ Forall (fun it => quiet it || mr') (grouped d')).
  { exists mr, tag. split; [done|]. eapply Forall_impl; [exact (started_quiet _ _ _ Hd Hp)|]. cbn.
    intros it Hit. destruct any; [by destruct mr|]. rewrite orb_false_r in Hit. by destruct (quiet it). }
  destruct ri as [s|]; [|by split].
  intros s' Hs'. split; [done|]. intros ? [= <-]. by eapply RuleSetItem_Start_loaded.
Qed.

(** ** Bindings *)

Lemma Start_bindings router (r : Rule BuiltItem) (r' : Rule Item) : Rule_Start router r = Ok r' ->
  MatchResponseTags r' = MatchResponseTags r /\ MatchResponseAnonymous r' = MatchResponseAnonymous r /\
  MatchResponseTag r' = MatchResponseTag r.
Proof.
  revert r'. induction r as [kind d ri _|mode rules inv IH] using Rule_nested_ind; intros r' Hr; cbn in Hr.
  - simpl_result. destruct ri; simpl_result; done.
  - simpl_result. match goal with Hm : result_mapM _ _ = Ok _ |- _ => apply result_mapM_Forall2 in Hm end.
    assert (Hl : flat_map MatchResponseTags a = flat_map MatchResponseTags rules /\
                 existsb MatchResponseAnonymous a = existsb MatchResponseAnonymous rules).
    { clear mode inv. induction Heqr as [|x y l l' Hxy _ IHl]; [done|]. apply Forall_cons in IH as [Hx IH].
      destruct (Hx _ Hxy) as (H1 & H2 & _), (IHl IH) as [H3 H4]. cbn. by rewrite H1, H2, H3, H4. }
    cbn. by rewrite (proj1 Hl), (proj2 Hl).
Qed.

(** ** Actions *)

Lemma buildRule_inv lg ty d mode rules inv a b : buildRule lg (mkDNSRule ty d mode rules inv a) = Ok b ->
  NewDNSRule (mkDNSRule ty d mode rules inv a) true lg = Ok (br_rule b) /\ NewDNSRuleAction a = Ok (br_action b) /\
  br_race b = da_Race a /\ known_type ty = true.
Proof.
  unfold buildRule. intros Hr. simpl_result. split_and!; try done.
  match goal with Hn : NewDNSRule _ _ _ = Ok _ |- _ => apply NewDNSRule_inv in Hn end.
  unfold known_type. destruct (is_default_type ty); [done|]. destruct Heqr as [-> _]. done.
Qed.

Lemma evaluate_action a action : NewDNSRuleAction a = Ok action ->
  match action with
  | Some (ActionEvaluate _ tag _ _) => da_Action a = "evaluate"%string /\ tag = deo_Tag (da_EvaluateOptions a)
  | Some ActionRespond => da_Action a = "respond"%string
  | _ => da_Action a <> "evaluate"%string
  end.
Proof.
  unfold NewDNSRuleAction, empty_string. intros Ha.
  repeat (case_bool_decide; [by simplify_eq; try done; congruence|]). done.
Qed.

(** The rule of a router and the options it was built from. *)
Definition runs (lg : bool) (router : string -> option (RuleSet (Rule Item))) (o : DNSRule) (rt : RuntimeRule) : Prop :=
  exists b, buildRule lg o = Ok b /\ Rule_Start router (br_rule b) = Ok (rt_rule rt) /\
    rt_action rt = br_action b /\ rt_race rt = br_race b.

Lemma runs_evaluate lg router o rt : runs lg router o rt ->
  defines o = match evaluate_tag rt with Some tag => [tag] | None => [] end /\
  (evaluates_anonymously o = true <-> exists server spec options, rt_action rt = Some (ActionEvaluate server "" spec options)).
Proof.
  destruct o as [ty d mode rules inv a]. intros (b & Hb & _ & Hra & _).
  apply buildRule_inv in Hb as (_ & Ha & _ & Hty). apply evaluate_action in Ha.
  unfold defines, evaluates_anonymously, is_evaluate, evaluate_tag, empty_string. rewrite Hra.
  cbn [dnsRuleActionType dnsRuleActionEvaluateTag]. rewrite Hty. unfold empty_string.
  assert (Hne : da_Action a <> "evaluate"%string ->
    bool_decide ((if bool_decide (da_Action a = ""%string) then "route"%string else da_Action a) = "evaluate"%string) = false).
  { intros Hn. apply bool_decide_eq_false_2. by case_bool_decide. }
  destruct (br_action b) as [[| server tag spec options| | | |]|] eqn:Hact;
    try (rewrite Hne by (try done; congruence); split; [done|]; split; [done|by intros (? & ? & ? & ?)]).
  clear Hne. destruct Ha as [-> ->]. rewrite (bool_decide_eq_false_2 ("evaluate"%string = ""%string)) by done.
  rewrite bool_decide_eq_true_2 by done. cbn. case_bool_decide as Ht; cbn; (split; [done|]); split; try done.
  - intros _. rewrite Ht. eauto.
  - intros (? & ? & ? & [= <-]). done.
Qed.

Lemma runs_walk_ok md overrides lg router o u rt :
  (forall tag rs, router tag = Some rs -> loaded rs) ->
  validateLegacyDNSModeDisabledRuleTree md overrides o = Ok u -> every_options tag_enabled o = true ->
  runs lg router o rt -> rt_race rt = false -> walk_ok rt = true.
Proof.
  intros Hl Hu Ht (b & Hb & Hs & Hact & _) Hrace. destruct o as [ty d mode rules inv a].
  apply buildRule_inv in Hb as (Hn & Ha & _ & _). unfold walk_ok. rewrite Hrace. cbn [negb andb].
  apply andb_true_iff. split.
  { eapply started_scoped; [exact Hl| |exact Hs]. eapply NewDNSRule_built; [|exact Hn]. by eapply validated_options. }
  unfold respond_ok. rewrite Hact. apply evaluate_action in Ha. destruct (br_action b) as [[]|]; try done.
  destruct (Start_bindings _ _ _ Hs) as (Htags & Hanon & Htag). unfold hasBindings. rewrite Htags, Hanon, Htag.
  destruct (validated_bindings _ _ _ _ _ _ _ Hu Ht Hn) as [Hrefs _]. apply NewDNSRule_inv in Hn. cbn in Hu.
  destruct (is_default_type ty).
  - destruct Hn as [(d' & ri & ->)%NewDefaultDNSRule_kind _]. cbn. case_bool_decide; cbn; try done; by destruct (IsEnabled (do_MatchResponse d)).
  - destruct Hn as (-> & rs & Hr & _). rewrite bool_decide_eq_true_2 in Hu by done. simpl_result. rewrite Ha in Hu. cbn in Hu.
    destruct (flat_map referencedTags a0) eqn:Hf; cbn in Hu; [|done]. injection Hu as <-. cbn in Hrefs.
    destruct (MatchResponseTags (br_rule b)) as [|tag l]; [|by destruct (not_elem_of_nil tag); apply Hrefs; left].
    cbn. by destruct (MatchResponseAnonymous (br_rule b)); rewrite !orb_true_r.
Qed.

(** ** The rules of a router *)

Lemma buildRules_runs router rules rts lg flags : buildRules router rules = Ok (rts, lg, flags) ->
  Forall2 (runs lg (ruleSets router)) rules rts /\
  (lg = false -> exists s, validate_loop (summaries router) ∅ 0 rules zero_scope = Ok s).
Proof.
  unfold buildRules, prepareRules. intros Hr. simpl_result. cbn [fst snd] in *.
  repeat match goal with Hm : result_mapiM _ _ _ = Ok _ |- _ => apply result_mapiM_Forall2 in Hm end. split.
  - eapply Forall2_trans; [|exact Heqr5|exact Heqr0]. cbn. intros o b rt [j Hb] [k Hrt].
    unfold parse_cause in Hb. destruct (buildRule _ o) as [b'|] eqn:Hbo; [|done]. cbn in Hb. injection Hb as ->.
    exists b. unfold startRule in Hrt. destruct (Rule_Start _ _) eqn:Hs; [|done]. cbn in Hrt. by injection Hrt as <-.
  - intros Hlg. rewrite Hlg in *. cbn in *. unfold discard, validateLegacyDNSModeDisabledRules in *.
    destruct (validate_loop _ _ _ _ _) as [s|] eqn:Hs; [by exists s|done].
Qed.

Lemma Router_Start_built router r r' : Router_Start router r = Ok r' -> rm_closing (dr_mode r) = false ->
  exists flags, buildRules router (rm_rawRules (dr_mode r)) = Ok (dr_rules r', rm_legacyDNSMode (dr_mode r'), flags).
Proof.
  unfold Router_Start. intros Hs Hc. destruct (buildRules _ _) as [[[rts lg] flags]|]; [|done]. cbn in Hs.
  rewrite Hc in Hs. injection Hs as <-. by exists flags.
Qed.

(** What the switch of the API makes of the rules. *)
Inductive statusChanges (rules : list RuntimeRule) : list RuntimeRule -> Prop :=
| changes_none : statusChanges rules rules
| changes_step rules' i : statusChanges rules rules' -> statusChanges rules (alter ChangeStatus i rules').

Lemma runs_changes lg router os rules rules' :
  Forall2 (runs lg router) os rules -> statusChanges rules rules' -> Forall2 (runs lg router) os rules'.
Proof.
  intros Hf Hc. induction Hc as [|rules' i _ IH]; [done|]. eapply Forall2_alter_r; [exact IH|].
  intros o rt _ _ (b & Hb). by exists b.
Qed.

Lemma runs_tags lg router os rules : Forall2 (runs lg router) os rules ->
  flat_map defines os = omap evaluate_tag rules.
Proof.
  induction 1 as [|o rt os rules [Hd _]%runs_evaluate _ IH]; [done|]. cbn. rewrite Hd, IH.
  by destruct (evaluate_tag rt).
Qed.

(** Outside of the legacy mode the walk is well behaved. *)
Lemma running_walk_ok router os rules rules' flags :
  (forall tag rs, ruleSets router tag = Some rs -> loaded rs) ->
  buildRules router os = Ok (rules, false, flags) -> forallb (every_options tag_enabled) os = true ->
  forallb (fun o => negb (dnsRuleRace o)) os = true -> statusChanges rules rules' ->
  Forall (fun rule => walk_ok rule = true) rules' /\ NoDup (omap evaluate_tag rules').
Proof.
  intros Hl [Hf Hv]%buildRules_runs Ht Hrace Hc. destruct (Hv eq_refl) as [s Hs].
  apply (runs_changes _ _ _ _ _ Hf) in Hc. clear Hf Hv.
  apply validate_loop_Ok in Hs as [Hnd Hk]; [|apply NoDup_nil_2]. cbn in Hnd.
  rewrite <- (runs_tags _ _ _ _ Hc). split; [|done]. clear Hnd.
  rewrite forallb_Forall in Ht, Hrace. apply Forall_lookup. intros k rt Hrt.
  destruct (Forall2_lookup_r _ _ _ _ _ Hc Hrt) as (o & Ho & Hr). destruct (Hk k o Ho) as (u & Hu & _).
  pose proof (Forall_lookup_1 _ _ _ _ Ht Ho) as Hto. pose proof (Forall_lookup_1 _ _ _ _ Hrace Ho) as Hro.
  eapply runs_walk_ok; [exact Hl|exact Hu|exact Hto|exact Hr|].
  destruct Hr as (b & Hb & _ & _ & ->). destruct o as [ty d mode rls inv a].
  apply buildRule_inv in Hb as (_ & _ & -> & Hty). cbn in Hro. rewrite Hty in Hro. by destruct (da_Race a).
Qed.

(** Every response a rule reads comes from an earlier rule. *)
Lemma running_scoped router os rules flags k rule :
  buildRules router os = Ok (rules, false, flags) -> forallb (every_options tag_enabled) os = true ->
  rules !! k = Some rule ->
  (forall tag, tag ∈ MatchResponseTags (rt_rule rule) -> tag ∈ omap evaluate_tag (take k rules)) /\
  (MatchResponseAnonymous (rt_rule rule) = true -> exists j server spec options,
     (j < k)%nat /\ rt_action <$> rules !! j = Some (Some (ActionEvaluate server "" spec options))).
Proof.
  intros [Hf Hv]%buildRules_runs Ht Hrule. destruct (Hv eq_refl) as [s Hs].
  apply validate_loop_Ok in Hs as [_ Hk]; [|apply NoDup_nil_2].
  destruct (Forall2_lookup_r _ _ _ _ _ Hf Hrule) as (o & Ho & Hr). destruct (Hk k o Ho) as (u & Hu & Ha & Htags).
  rewrite forallb_Forall in Ht. pose proof (Forall_lookup_1 _ _ _ _ Ht Ho) as Hto. cbn in Hto.
  destruct Hr as (b & Hb & Hst & _ & _). destruct (Start_bindings _ _ _ Hst) as (-> & -> & _).
  assert (Hn : NewDNSRule o true false = Ok (br_rule b)) by (destruct o; by apply buildRule_inv in Hb as (Hn & _)).
  destruct (validated_bindings _ _ _ _ _ _ _ Hu Hto Hn) as [H1 H2]. cbn in Ha, Htags. split.
  - intros tag Htag%H1%Htags. by rewrite (runs_tags false (ruleSets router) _ (take k rules)) in Htag by (by apply Forall2_take).
  - intros Hanon%H2%Ha. apply existsb_exists in Hanon as (o' & Hin & He). apply list_elem_of_In, list_elem_of_lookup in Hin as [j Hj].
    apply lookup_take_Some in Hj as [Hj Hlt]. destruct (Forall2_lookup_l _ _ _ _ _ Hf Hj) as (rt & Hrt & Hr').
    apply runs_evaluate in Hr' as [_ Hiff]. destruct (proj1 Hiff He) as (server & spec & options & Hact).
    exists j, server, spec, options. split; [done|]. rewrite Hrt. cbn. by rewrite Hact.
Qed.
End started.

(** * Updates of rule-sets while the router runs

    [ValidateRuleSetMetadataUpdate] decides whether a rule-set may be replaced by one
    with another summary.  Its answer is the one a restart with the new summary would
    give, so the mode of a running router stays right under every sequence of accepted
    updates. *)

(** The summaries after a rule-set was replaced. *)
Definition replaced (sums : string -> option RuleSetMetadata) (tag : string) (metadata : RuleSetMetadata)
    : string -> option RuleSetMetadata :=
  fun t => if bool_decide (t = tag) then Some metadata else sums t.

(** Summaries reached through accepted updates. *)
Inductive updates (r : RouterMode) (sums : string -> option RuleSetMetadata)
    : (string -> option RuleSetMetadata) -> Prop :=
| updates_none : updates r sums sums
| updates_step sums' tag metadata :
    updates r sums sums' -> ValidateRuleSetMetadataUpdate r (Some sums') tag metadata = Ok tt ->
    updates r sums (replaced sums' tag metadata).

(** The mode of a router fits the current summaries: the rules of the legacy mode do
    not rule it out, and the others pass validation. *)
Definition mode_fits (r : RouterMode) (sums : string -> option RuleSetMetadata) : Prop :=
  exists lg flags, resolveLegacyDNSMode (Some sums) ∅ (rm_rawRules r) = Ok (lg, flags) /\
    if rm_legacyDNSMode r then lg = true \/ flag_disabled flags = false
    else lg = false /\ is_ok (validateLegacyDNSModeDisabledRules (Some sums) ∅ (rm_rawRules r)) = true.

(** ** An override is a replaced rule-set *)

Section same.
Context (sums sums' : string -> option RuleSetMetadata) (ov ov' : gmap string RuleSetMetadata).
Hypothesis same : forall tag, lookupDNSRuleSetMetadata (Some sums) ov tag = lookupDNSRuleSetMetadata (Some sums') ov' tag.

Lemma requirements_same d tags flags :
  ruleSet_requirements (Some sums) ov d tags flags = ruleSet_requirements (Some sums') ov' d tags flags.
Proof.
  revert flags. induction tags as [|tag tags IH]; intros flags; cbn; [done|]. rewrite same.
  destruct (lookupDNSRuleSetMetadata _ _ _); cbn; [apply IH|done].
Qed.

Lemma mode_requirements_same o :
  dnsRuleModeRequirementsInRule (Some sums) ov o = dnsRuleModeRequirementsInRule (Some sums') ov' o.
Proof.
  induction o as [ty d mode rules inv a IH] using DNSRule_nested_ind. cbn. destruct (is_default_type ty).
  - unfold dnsRuleModeRequirementsInDefaultRule. cbn. by rewrite requirements_same.
  - destruct (bool_decide _); [|done]. erewrite result_mapiM_ext; [done|].
    eapply Forall_impl; [exact IH|]. cbn. intros o Ho j. by rewrite Ho.
Qed.

Lemma resolve_same rules :
  resolveLegacyDNSMode (Some sums) ov rules = resolveLegacyDNSMode (Some sums') ov' rules.
Proof.
  unfold resolveLegacyDNSMode, dnsRuleModeRequirements. erewrite result_mapiM_ext; [done|].
  apply Forall_true. intros o j. cbn. by rewrite mode_requirements_same.
Qed.

Lemma pure_ip_same tags : reject_pure_ip (Some sums) ov tags = reject_pure_ip (Some sums') ov' tags.
Proof.
  induction tags as [|tag tags IH]; cbn; [done|]. rewrite same.
  destruct (lookupDNSRuleSetMetadata _ _ _); cbn; [by rewrite IH|done].
Qed.

Lemma tree_same o :
  validateLegacyDNSModeDisabledRuleTree (Some sums) ov o = validateLegacyDNSModeDisabledRuleTree (Some sums') ov' o.
Proof.
  induction o as [ty d mode rules inv a IH] using DNSRule_nested_ind. cbn. destruct (is_default_type ty).
  - unfold validateLegacyDNSModeDisabledDefaultRule. by rewrite pure_ip_same.
  - destruct (bool_decide _); [|done]. erewrite result_mapiM_ext; [done|].
    eapply Forall_impl; [exact IH|]. cbn. intros o Ho j. by rewrite Ho.
Qed.

Lemma validation_same rules :
  validateLegacyDNSModeDisabledRules (Some sums) ov rules = validateLegacyDNSModeDisabledRules (Some sums') ov' rules.
Proof.
  unfold validateLegacyDNSModeDisabledRules.
  assert (Hl : forall i s, validate_loop (Some sums) ov i rules s = validate_loop (Some sums') ov' i rules s).
  { induction rules as [|o rules IH]; intros i s; cbn; [done|]. unfold validate_step. rewrite tree_same.
    match goal with |- result_bind ?c _ = _ => destruct c end; cbn; [apply IH|done]. }
  by rewrite Hl.
Qed.
End same.

Lemma override_replaced sums tag metadata t :
  lookupDNSRuleSetMetadata (Some sums) {[tag := metadata]} t =
  lookupDNSRuleSetMetadata (Some (replaced sums tag metadata)) ∅ t.
Proof.
  unfold lookupDNSRuleSetMetadata, replaced. rewrite lookup_empty. case_bool_decide as Ht; [subst|].
  - by rewrite lookup_singleton_eq.
  - by rewrite lookup_singleton_ne by done.
Qed.

(** An accepted update keeps the mode of a started router right. *)
Lemma update_fits r sums tag metadata :
  rm_started r = true -> rm_closing r = false -> rm_rawRules r <> [] ->
  ValidateRuleSetMetadataUpdate r (Some sums) tag metadata = Ok tt -> mode_fits r (replaced sums tag metadata).
Proof.
  intros Hs Hc Hne. unfold ValidateRuleSetMetadataUpdate. rewrite Hs, Hc.
  rewrite (resolve_same _ _ _ _ (override_replaced sums tag metadata)).
  rewrite (validation_same _ _ _ _ (override_replaced sums tag metadata)).
  destruct (rm_rawRules r) as [|o rules] eqn:Hr; [done|]. cbn [isnil isnone]. rewrite <- Hr.
  unfold mode_fits. destruct (resolveLegacyDNSMode _ _ _) as [[lg flags]|]; cbn [result_bind fst snd negb]; [|done].
  intros Hu. exists lg, flags. split; [done|]. destruct (rm_legacyDNSMode r).
  - destruct lg; [by left|]. right. destruct (flag_disabled flags); [|done]. cbn in Hu.
    by destruct (validateLegacyDNSModeDisabledRules _ _ _).
  - destruct lg; [done|]. split; [done|]. unfold discard in Hu.
    by destruct (validateLegacyDNSModeDisabledRules _ _ _).
Qed.

Lemma updates_fit r sums sums' :
  rm_started r = true -> rm_closing r = false -> rm_rawRules r <> [] ->
  mode_fits r sums -> updates r sums sums' -> mode_fits r sums'.
Proof. intros Hs Hc Hne Hm Hu. induction Hu; [done|by apply update_fits]. Qed.

(** A router that just started is in the right mode. *)
Lemma start_fits `{Env} `{BuildContext} (ruleSet : string -> option (RuleSet (Rule Item))) r r' :
  rm_closing (dr_mode r) = false -> Router_Start (Some ruleSet) r = Ok r' ->
  mode_fits (dr_mode r') (fun tag => rs_metadata <$> ruleSet tag) /\ rm_started (dr_mode r') = true /\
  rm_closing (dr_mode r') = false /\ rm_rawRules (dr_mode r') = rm_rawRules (dr_mode r).
Proof.
  intros Hc. unfold Router_Start, buildRules, prepareRules. intros Hr. simpl_result. rewrite Hc in Hr.
  injection Hr as <-. cbn. split; [|done]. destruct a2 as [lg flags]. exists lg, flags. cbn [summaries fst snd] in *.
  split; [done|]. cbn. destruct lg; [by left|]. split; [done|]. cbn in *. unfold discard in *.
  by destruct (validateLegacyDNSModeDisabledRules _ _ _).
Qed.
