(* ===== verification/DnsLive.v ===== *)
(** * Every exchange ends

    The loop of [resumeExchangeWithRules] ends once the callbacks of the exchanges it
    launched have ended, racing rules included, whatever the order in which they end:
    a future the loop found unresolved sends on [state.wake] after it was looked at, so
    that no wake-up is lost. *)

From stdpp Require Import base gmap strings list.
From Stdlib Require Import ZArith Lia.
From S2P Require Import Prelude Net Metadata RuleMatch RuleSpec RuleItems RuleOptions RuleBuild DnsMode DnsWalk.
From S2P Require Import DnsScope DnsSim.

Open Scope Z_scope.

Section live.
Context `{Env}.
Context (transport_Default : DNSTransport) (defaultRejectRcode defaultDomainStrategy : Z) (message : Msg)
  (allowFakeIP : bool).
Context (followPredefinedCNAME : Msg -> DNSQueryOptions -> Msg)
  (ExchangeAsync : nat -> DNSTransport -> DNSQueryOptions -> result Msg)
  (Exchange : DNSTransport -> DNSQueryOptions -> result Msg).
Context (done_ signalled : nat -> nat -> bool) (cancelled : nat -> bool).
Context (T : nat) (all_done : forall t f, (T <= t)%nat -> done_ t f = true)
  (all_signalled : forall t f, (T <= t)%nat -> signalled t f = true)
  (done_mono : monotone done_) (signalled_done : forall t f, signalled t f = true -> done_ t f = true).
Implicit Types (s : dnsRuleWalkState) (m : InboundContext) (t : nat).

#[local] Abbreviation settleDNSFutures := (settleDNSFutures done_).
#[local] Abbreviation sweep_loop :=
  (sweep_loop defaultRejectRcode message allowFakeIP followPredefinedCNAME done_).
#[local] Abbreviation walkDNSRules :=
  (walkDNSRules transport_Default defaultRejectRcode defaultDomainStrategy message allowFakeIP followPredefinedCNAME
     ExchangeAsync done_).
#[local] Abbreviation resumeExchangeWithRules :=
  (resumeExchangeWithRules transport_Default defaultRejectRcode defaultDomainStrategy message allowFakeIP
     followPredefinedCNAME ExchangeAsync Exchange done_ signalled cancelled).

(** The future of a pending exchange is one of the walk. *)
Definition pending_ok s (p : dnsPendingExchange) : Prop :=
  forall f, pe_future p = Some f -> is_Some (ws_futures s !! f).

Definition suspension_ok s (v : verdict) : Prop :=
  match v with
  | Suspended (SuspendPending p) => pending_ok s p
  | Suspended (SuspendAwait f) => (f < length (ws_futures s))%nat
  | _ => True
  end.

(** The futures a walk refers to have been launched. *)
Record known s : Prop := {
  known_named tag f : ws_namedFutures s !! tag = Some f -> (f < length (ws_futures s))%nat;
  known_anonymous f : ws_anonymousFuture s = Some f -> (f < length (ws_futures s))%nat;
  known_armed a f : a ∈ ws_armedRules s -> f ∈ arm_futures a -> (f < length (ws_futures s))%nat
}.

Lemma known_grow s s' :
  ws_namedFutures s' = ws_namedFutures s -> ws_anonymousFuture s' = ws_anonymousFuture s ->
  (forall a, a ∈ ws_armedRules s' -> a ∈ ws_armedRules s) ->
  (length (ws_futures s) <= length (ws_futures s'))%nat -> known s -> known s'.
Proof.
  intros Hn Ha Har Hl [K1 K2 K3]. split.
  - intros tag f. rewrite Hn. intros ?%K1. lia.
  - intros f. rewrite Ha. intros ?%K2. lia.
  - intros a f Hin Hf. pose proof (K3 a f (Har a Hin) Hf). lia.
Qed.

Lemma known_settle t s : known s -> known (settleDNSFutures t s).
Proof.
  destruct (settle_fields done_ t s) as (_ & Ha & Hn & Har & _). apply known_grow; [done..|by rewrite Har|].
  by rewrite settle_length.
Qed.

Lemma launch_length s tag terminal transport options :
  length (ws_futures (snd (launchDNSEvaluate defaultDomainStrategy ExchangeAsync s tag terminal transport options))) =
  S (length (ws_futures s)).
Proof. cbn. rewrite length_app. cbn. lia. Qed.

Lemma known_launch s tag terminal transport options :
  known s -> known (snd (launchDNSEvaluate defaultDomainStrategy ExchangeAsync s tag terminal transport options)).
Proof. apply known_grow; [done..|]. rewrite launch_length. lia. Qed.

Lemma unresolved_Some t o f : unresolved done_ t o = Some f -> o = Some f /\ done_ t f = false.
Proof. destruct o as [g|]; cbn; [|done]. destruct (done_ t g) eqn:Hd; [done|]. by intros [= <-]. Qed.

Lemma pending_known t s r f : known s -> f ∈ pending_named done_ t s r -> (f < length (ws_futures s))%nat.
Proof.
  intros Hk (tag & _ & Hf)%list_elem_of_omap. apply unresolved_Some in Hf as [Hf _]. by eapply known_named.
Qed.

Lemma known_arm t s rule : known s -> known (snd (arm done_ t s rule)).
Proof.
  intros Hk. split; cbn; [apply Hk..|]. intros a f [Ha| ->%list_elem_of_singleton]%elem_of_app; [by apply Hk|]. cbn.
  intros [Hf|Hf]%elem_of_app; [by eapply pending_known|].
  destruct (unresolved _ _ _) as [g|] eqn:Hu; [|by apply not_elem_of_nil in Hf].
  apply list_elem_of_singleton in Hf as ->. apply unresolved_Some in Hu as [Hu _].
  destruct (MatchResponseAnonymous _); [|done]. by eapply known_anonymous.
Qed.

(** ** Sweeping *)

(** How a sweep over [armed] ends: a rule it leaves, [kept] apart, has a future that
    was not there. *)
Definition swept (armed kept : list dnsArmedRule) s t (res : option verdict * dnsRuleWalkState * InboundContext * nat)
    : Prop :=
  let '(v, s', m', t') := res in
  (t <= t')%nat /\ (exists l, s' = set_armedRules s l) /\
  match v with
  | None => forall a, a ∈ ws_armedRules s' ->
      a ∈ kept \/ a ∈ armed /\ exists f, f ∈ arm_futures a /\ done_ t f = false
  | Some (Suspended (SuspendPending p)) => pe_future p = None
  | Some (Suspended _) => False
  | Some (Returned _) => True
  end.

Lemma sweep_loop_spec armed kept s m t :
  let '(v, s', m', t') := sweep_loop armed kept s m t in
  swept armed kept s t (v, s', m', t').
Proof.
  revert kept m t. induction armed as [|a armed IH]; intros kept m t; cbn.
  { split_and!; [done|by eexists|]. intros a Ha. by left. }
  assert (Hnext : forall kept' m',
    (forall b, b ∈ kept' -> b ∈ kept \/ b = a /\ exists f, f ∈ arm_futures a /\ done_ t f = false) ->
    swept (a :: armed) kept s t (sweep_loop armed kept' s m' (S t))).
  { intros kept' m' Hk. specialize (IH kept' m' (S t)). destruct (sweep_loop _ _ _ _ _) as [[[v s'] m2] t'].
    destruct IH as (Ht & Hf & Hv). split_and!; [lia|done|]. destruct v; [done|]. intros b Hb.
    destruct (Hv b Hb) as [[Hin|[-> He]]%Hk|(Hin & f & Hf1 & Hf2)]; [by left|right; split; [by left|done]|].
    right. split; [by right|]. exists f. split; [done|]. destruct (done_ t f) eqn:Hd; [|done].
    rewrite (done_mono t (S t)) in Hf2; [done|lia|done]. }
  assert (Hsame : forall m', swept (a :: armed) kept s t (sweep_loop armed kept s m' (S t))) by (intros; apply Hnext; auto).
  destruct (forallb (done_ t) (arm_futures a)) eqn:Hr; cbn.
  - destruct (rt_disabled (arm_rule a)); [by apply Hsame|].
    destruct (Match _ _) as [matched m2]. destruct matched; cbn; [|by apply Hsame].
    destruct (rt_action (arm_rule a)) as [[]|]; try (by apply Hsame); try (by split_and!; [lia|by eexists|]).
    + destruct (resolveDNSRoute _ _ _ _); try (by apply Hsame). by split_and!; [lia|by eexists|].
    + destruct (reject_result _ _ _ _ _); [|by apply Hsame]. by split_and!; [lia|by eexists|].
  - apply Hnext. intros b [Hb| ->%list_elem_of_singleton]%elem_of_app; [by left|]. right. split; [done|].
    apply not_true_iff_false in Hr. destruct (decide (Exists (fun f => done_ t f = false) (arm_futures a))) as [He|He].
    + by apply Exists_exists in He.
    + exfalso. apply Hr, forallb_forall. intros f Hf%list_elem_of_In. destruct (done_ t f) eqn:Hd; [done|].
      exfalso. apply He, Exists_exists. by exists f.
Qed.

(** A sweep that commits nothing, over all armed rules. *)
Lemma swept_known s t s' m' t' : swept (ws_armedRules s) [] s t (None, s', m', t') -> known s -> known s'.
Proof.
  intros (_ & [l ->] & Hv). apply known_grow; [done..| |done]. intros a Ha. destruct (Hv a Ha) as [Hn|[Hin _]]; [|done].
  by apply not_elem_of_nil in Hn.
Qed.

Lemma swept_late s t s' m' t' :
  swept (ws_armedRules s) [] s t (None, s', m', t') -> (T <= t)%nat -> ws_armedRules s' = [].
Proof.
  intros (_ & _ & Hv) HT. destruct (ws_armedRules s') as [|a l]; [done|].
  destruct (Hv a) as [Hn|(_ & f & _ & Hd)]; [by left|by apply not_elem_of_nil in Hn|]. by rewrite all_done in Hd.
Qed.

(** ** Walking *)

Definition waits (v : verdict) : bool :=
  match v with Suspended (SuspendAwait _) | Suspended SuspendDrain => true | _ => false end.

Lemma unresolved_late t f : (T <= t)%nat -> unresolved done_ t f = None.
Proof. intros HT. destruct f as [f|]; cbn; [|done]. by rewrite all_done. Qed.

Lemma pending_late t s r : (T <= t)%nat -> pending_named done_ t s r = [].
Proof.
  intros HT. unfold pending_named. induction (MatchResponseTags r) as [|tag l IH]; cbn; [done|].
  by rewrite unresolved_late, IH.
Qed.

Lemma await_late t s r : (T <= t)%nat -> await_future done_ t s r = None.
Proof. intros HT. unfold await_future. rewrite pending_late, unresolved_late by done. by destruct (MatchResponseAnonymous r). Qed.

(** An action that ends the walk, and one that does not. *)
Definition acted s t (res : verdict * dnsRuleWalkState + dnsRuleWalkState) : Prop :=
  match res with
  | inl (v, s') => (known s -> known s' /\ suspension_ok s' v) /\ ((T <= t)%nat -> ws_armedRules s = [] -> waits v = false)
  | inr s' => ws_armedRules s' = ws_armedRules s /\ (known s -> known s')
  end.

Lemma acted_return s t r : acted s t (inl (Returned r, s)).
Proof. split; [|done]. by intros Hk. Qed.

Lemma acted_drain s t s' :
  nonnil (ws_armedRules s) = true -> (known s -> known s') -> acted s t (inl (Suspended SuspendDrain, s')).
Proof. intros Ha Hk. split; [intros K; split; [by apply Hk|done]|]. intros _ Hn. by rewrite Hn in Ha. Qed.

Lemma drain_or_acted s t k : (nonnil (ws_armedRules s) = false -> acted s t k) -> acted s t (drain_or s k).
Proof. unfold drain_or. intros Hk. destruct (nonnil (ws_armedRules s)) eqn:Ha; [by apply acted_drain|auto]. Qed.

Lemma walk_evaluate_live s t server tag spec o :
  acted s t (walk_evaluate defaultDomainStrategy ExchangeAsync s server tag spec o).
Proof.
  unfold walk_evaluate. destruct (Transport server) as [tr|].
  - destruct (negb spec && _) eqn:Hd; [apply andb_true_iff in Hd as [_ Hd]; by apply acted_drain|].
    split; [by destruct (bool_decide _)|]. intros Hk.
    pose proof (known_launch s tag false tr (applyDNSRouteOptions (ws_effectiveOptions s) o) Hk) as [K1 K2 K3].
    rewrite launch_length in K1, K2, K3. destruct (bool_decide _); split; cbn; rewrite length_app; cbn.
    + intros tg f Hf. apply K1 in Hf. lia.
    + intros f [= <-]. lia.
    + intros a f Ha Hf. pose proof (K3 a f Ha Hf). lia.
    + intros tg f [[_ <-]|[_ Hf]]%lookup_insert_Some; [lia|]. apply K1 in Hf. lia.
    + intros f Hf. apply K2 in Hf. lia.
    + intros a f Ha Hf. pose proof (K3 a f Ha Hf). lia.
  - split; [by destruct (bool_decide _)|]. intros Hk. destruct (bool_decide _); [|done]. split; cbn; [apply Hk|done|apply Hk].
Qed.

Lemma walk_route_live s t server spec o :
  acted s t (walk_route defaultDomainStrategy allowFakeIP ExchangeAsync s server spec o).
Proof.
  unfold walk_route. destruct (resolveDNSRoute _ _ _ _) as [| |tr qo]; [done..|].
  destruct (nonnil (ws_armedRules s)) eqn:Ha.
  { destruct (spec && _); [|by apply acted_drain]. apply acted_drain; [done|]. intros Hk.
    by eapply known_grow, known_launch. }
  assert (Hnew : acted s t (inl (Suspended (SuspendPending (mkPending tr qo None)), s))) by (split; [by intros Hk|done]).
  destruct (ws_terminalFuture s) as [f|]; [|done]. destruct (Nat.eqb _ _); [|done].
  destruct (ws_futures s !! f) as [fu|] eqn:Hf; [|done]. split; [|done]. intros Hk. split; [done|].
  intros g [= <-]. by rewrite Hf.
Qed.

Lemma walk_respond_live s t r : acted s t (walk_respond done_ s t r).
Proof.
  unfold walk_respond. apply drain_or_acted. intros _.
  destruct (negb (bool_decide _)); [destruct (ws_namedResponses s !! _); apply acted_return|].
  destruct (if negb (hasBindings _) then _ else _) as [f|] eqn:Hf;
    [|destruct (anonymousResponse _ _ _); apply acted_return].
  destruct (negb (hasBindings r)); [|done]. split.
  - intros Hk. split; [done|]. apply unresolved_Some in Hf as [Hf _]. by eapply known_anonymous.
  - intros HT _. by rewrite unresolved_late in Hf.
Qed.

Lemma walk_action_live s t rule :
  acted s t (walk_action defaultRejectRcode defaultDomainStrategy message allowFakeIP followPredefinedCNAME ExchangeAsync
    done_ s t rule).
Proof.
  unfold walk_action. destruct (rt_action rule) as [[server spec o|server tag spec o| |o|c me nd|c an ns ex]|]; [..|done].
  - apply walk_route_live.
  - apply walk_evaluate_live.
  - apply walk_respond_live.
  - split; [done|]. by apply known_grow.
  - apply drain_or_acted. intros _. destruct (reject_result _ _ _ _ _); [apply acted_return|done].
  - apply drain_or_acted. intros _. apply acted_return.
Qed.

Lemma settle_armed t s : ws_armedRules (settleDNSFutures t s) = ws_armedRules s.
Proof. apply settle_fields. Qed.

Definition live t s (res : verdict * dnsRuleWalkState * InboundContext * nat) : Prop :=
  let '(v, s', m', t') := res in
  (t <= t')%nat /\ (forall p, v = Suspended p -> known s -> known s' /\ suspension_ok s' v) /\
  ((T <= t)%nat -> ws_armedRules s = [] -> waits v = false).

Lemma live_step t t' s s' res :
  (t <= t')%nat -> (known s -> known s') -> (ws_armedRules s = [] -> (T <= t)%nat -> ws_armedRules s' = []) ->
  live t' s' res -> live t s res.
Proof.
  destruct res as [[[v s2] m2] t2]. intros Ht Hk Ha (H1 & H2 & H3). split_and!; [lia|..].
  - intros p Hp K. by apply (H2 p); [|apply Hk].
  - intros HT Hn. apply H3; [lia|auto].
Qed.

Lemma known_next s : known s -> known (next_rule s).
Proof. by apply known_grow. Qed.

Section step.
Context (rest : list RuntimeRule) (IH : forall s m t, live t s (walkDNSRules rest s m t)).

Lemma match_and_act_live rule s s1 m t :
  (known s -> known s1) -> ws_armedRules s1 = ws_armedRules s ->
  live t s (let m1 := set_responses (ResetRuleCache m) (anonymousResponse done_ s1 (2 + t)) (ws_namedResponses s1) in
    let '(matched, m2) := Match (rt_rule rule) m1 in
    if negb matched then walkDNSRules rest (next_rule s1) m2 (4 + t)
    else match walk_action defaultRejectRcode defaultDomainStrategy message allowFakeIP followPredefinedCNAME
                 ExchangeAsync done_ s1 (3 + t) rule with
         | inl (v, s') => (v, s', m2, (4 + t)%nat)
         | inr s' => walkDNSRules rest (next_rule s') m2 (4 + t)
         end).
Proof.
  intros Hk Hs1. cbn zeta. destruct (Match _ _) as [matched m2]. destruct matched; cbn [negb].
  - pose proof (walk_action_live s1 (3 + t) rule) as Hact. destruct (walk_action _ _ _ _ _ _ _ _ _ _) as [[v s']|s'].
    + destruct Hact as [Hok Hw]. split_and!; [lia|intros p _ K; auto|]. intros HT Hn. apply Hw; [lia|congruence].
    + destruct Hact as [Ha Hk']. eapply live_step; [| |intros Hn _|apply IH]; [lia|by intros K; apply known_next; auto|]. cbn. congruence.
  - eapply live_step; [| |intros Hn _|apply IH]; [lia|by intros K; apply known_next; auto|]. cbn. congruence.
Qed.

Lemma race_live rule s m t :
  live t s (let '(pending, s2) := arm done_ (1 + t) (settleDNSFutures t s) rule in
    if nonnil pending then walkDNSRules rest (next_rule s2) m (4 + t)
    else
      let '(committed, s3, m3, t3) := sweep_loop (ws_armedRules s2) [] s2 m (2 + t) in
      match committed with
      | Some (Suspended p) => (Suspended p, set_armedRules s3 [], m3, t3)
      | Some v => (v, s3, m3, t3)
      | None => walkDNSRules rest (next_rule s3) m3 (2 + t3)
      end).
Proof.
  pose proof (known_arm (1 + t) (settleDNSFutures t s) rule) as Hk.
  destruct (arm done_ (1 + t) (settleDNSFutures t s) rule) as [pending s2] eqn:Harm.
  assert (Hk2 : known s -> known s2) by (intros K; by apply Hk, known_settle). clear Hk.
  destruct (nonnil pending) eqn:Hnp.
  { eapply live_step; [| |intros Hn HT|apply IH]; [lia|intros K; apply known_next; auto|]. exfalso.
    unfold arm in Harm. injection Harm as <- _. by rewrite pending_late, unresolved_late in Hnp by lia. }
  pose proof (sweep_loop_spec (ws_armedRules s2) [] s2 m (2 + t)) as Hsw.
  destruct (sweep_loop _ _ _ _ _) as [[[v s3] m3] t3]. pose proof Hsw as (Ht & [l Hl] & Hv).
  destruct v as [[r|[f| |p]]|]; try done.
  - by split_and!; [lia|..].
  - split_and!; [lia| |done]. intros q _ K. subst s3. split.
    + specialize (Hk2 K). split; [apply Hk2..|]. intros a f Ha. by apply not_elem_of_nil in Ha.
    + intros f Hpf. by rewrite Hv in Hpf.
  - eapply live_step; [| |intros Hn HT|apply IH]; [lia| |].
    + intros K. eapply known_next, swept_known; [done|auto].
    + cbn. eapply swept_late; [done|lia].
Qed.
End step.

Lemma walk_live rules s m t : live t s (walkDNSRules rules s m t).
Proof.
  revert s m t. induction rules as [|rule rules IH]; intros s m t; cbn -[arm].
  { destruct (nonnil (ws_armedRules s)) eqn:Ha; (split_and!; [lia|by intros p [= <-] K|]); [|done].
    intros _ Hn. by rewrite Hn in Ha. }
  destruct (rt_disabled rule). { eapply live_step; [| |intros Hn _|apply IH]; [lia|apply known_next|done]. }
  destruct (hasBindings (rt_rule rule)); [|by apply match_and_act_live]. destruct (rt_race rule); [by apply race_live|].
  destruct (await_future done_ (S t) (settleDNSFutures t s) (rt_rule rule)) as [f|] eqn:Haw.
  - split_and!; [lia| |intros HT _; by rewrite await_late in Haw by lia]. intros p _ K. split; [by apply known_settle|].
    cbn. unfold await_future in Haw. destruct (pending_named _ _ _ _) as [|g l] eqn:Hp.
    + destruct (MatchResponseAnonymous _); [|done]. apply unresolved_Some in Haw as [Haw _].
      by eapply known_anonymous; [apply known_settle|].
    + injection Haw as <-. eapply pending_known; [by apply known_settle|]. rewrite Hp. by left.
  - apply match_and_act_live; [done|apply known_settle|apply settle_armed].
Qed.

(** ** Resuming *)

Lemma wait_future_live fuel f fu t : (T < fuel + t)%nat -> (0 < fuel)%nat ->
  exists r, wait_future done_ cancelled fuel f fu t = Some r.
Proof.
  revert t. induction fuel as [|fuel IH]; intros t Hf Hp; [lia|]. cbn. destruct (done_ t f) eqn:Hd; [by eexists|].
  destruct (cancelled t); [by eexists|]. assert (Hlt : ~ (T <= t)%nat).
  { intros HT. by rewrite all_done in Hd. }
  apply IH; lia.
Qed.

Lemma finish_live fuel s t p : pending_ok s p -> (T < fuel + t)%nat -> (0 < fuel)%nat ->
  exists r, finishPendingExchange defaultDomainStrategy Exchange done_ cancelled fuel s t p = Some r.
Proof.
  intros Hp Hf Hpos. unfold finishPendingExchange. unfold pending_ok in Hp.
  destruct (pe_future p) as [f|]; [|by eexists]. destruct (Hp f eq_refl) as [fu ->]. by apply wait_future_live.
Qed.

(** ** Wake-ups *)

(** A future that was launched and whose send has not been received wakes the loop. *)
Lemma wake_ready_intro s seen t f :
  (f < length (ws_futures s))%nat -> f ∉ seen -> signalled t f = true -> wake_ready signalled s seen t = true.
Proof.
  intros Hl Hf Hs. unfold wake_ready. apply existsb_exists. exists f. rewrite bool_decide_eq_true. split; [|done].
  apply list_elem_of_In, list_elem_of_filter. split; [done|]. apply elem_of_seq. lia.
Qed.

Lemma wait_wake_live fuel s seen t f :
  (f < length (ws_futures s))%nat -> f ∉ seen -> (T < fuel + t)%nat -> (0 < fuel)%nat ->
  exists o, wait_wake signalled cancelled fuel s seen t = Some o /\
    forall seen' t', o = Some (seen', t') -> (t <= t')%nat /\ forall g, g ∈ seen' -> done_ t' g = true.
Proof.
  intros Hl Hs. revert t. induction fuel as [|fuel IH]; intros t Hf Hp; [lia|]. cbn [wait_wake].
  destruct (cancelled t); [by exists None|]. destruct (wake_ready _ s seen t) eqn:Hw.
  - eexists. split; [done|]. intros ? ? [= <- <-]. split; [done|]. intros g [Hg _]%list_elem_of_filter.
    by apply signalled_done.
  - assert (Hlt : ~ (T <= t)%nat). { intros HT. by rewrite (wake_ready_intro s seen t f) in Hw; [|..|apply all_signalled]. }
    destruct (IH (4 + t)%nat) as (o & Ho & Hn); [lia..|]. exists o. split; [done|]. intros seen' t' Ht.
    destruct (Hn _ _ Ht). split; [lia|done].
Qed.

(** What the loop waits for is a future it has not heard of. *)
Lemma waiting_future s1 t1 s2 m2 t2 t (seen : list nat) p :
  swept (ws_armedRules s1) [] s1 t1 (None, s2, m2, t2) -> known s1 -> ws_futures s2 = ws_futures s1 -> (t <= t1)%nat ->
  suspension_ok s1 (Suspended p) -> (forall g, g ∈ seen -> done_ t g = true) ->
  must_wait done_ s2 (1 + t2) p = true -> exists f, (f < length (ws_futures s2))%nat /\ f ∉ seen.
Proof.
  intros Hsw Hk Hfu Ht Hok Hseen Hw. pose proof Hsw as (Ht2 & _ & Hv).
  assert (Hnew : forall t' f, (t <= t')%nat -> done_ t' f = false -> f ∉ seen).
  { intros t' f Hle Hd Hin. apply Hseen in Hin. by rewrite (done_mono t t') in Hd. }
  rewrite Hfu. destruct p as [f| |q]; cbn in Hw; [| |done].
  - apply negb_true_iff in Hw. exists f. split; [done|]. apply (Hnew (S t2)); [lia|done].
  - destruct (ws_armedRules s2) as [|a l]; [done|].
    destruct (Hv a) as [Hn|(Hin & f & Hf & Hd)]; [by left|by apply not_elem_of_nil in Hn|].
    exists f. split; [by eapply known_armed|]. by apply (Hnew t1).
Qed.

Definition resumes (fuel : nat) (rules : list RuntimeRule) : Prop :=
  forall s m t (seen : list nat) p, known s -> suspension_ok s (Suspended p) -> (forall g, g ∈ seen -> done_ t g = true) ->
    (T + 3 <= fuel + t)%nat -> (3 <= fuel)%nat \/ (waits (Suspended p) = false /\ 2 <= fuel)%nat ->
    exists r, resumeExchangeWithRules fuel rules s m t seen p = Some r.

Lemma after_walk fuel rules s m t t0 (seen : list nat) :
  resumes fuel rules -> known s -> (forall g, g ∈ seen -> done_ t0 g = true) ->
  ((T <= S t0)%nat -> ws_armedRules s = []) -> (t0 <= t)%nat -> (T + 2 <= fuel + t0)%nat -> (2 <= fuel)%nat ->
  exists r, match walkDNSRules (drop (ws_ruleIndex s) rules) s m t with
            | (Returned r, _, _, _) => Some r
            | (Suspended p, s3, m3, t3) => resumeExchangeWithRules fuel rules s3 m3 (S t3) seen p
            end = Some r.
Proof.
  intros IH Hk Hseen Ha Ht Hf Hfuel. pose proof (walk_live (drop (ws_ruleIndex s) rules) s m t) as Hw.
  destruct (walkDNSRules _ _ _ _) as [[[[r|p] s3] m3] t3]; [by eexists|]. destruct Hw as (Ht3 & Hok & Hw).
  destruct (Hok p eq_refl Hk) as [Hk3 Hok3]. apply IH; [done|done| |lia|].
  { intros g Hg. apply (done_mono t0); [lia|auto]. }
  destruct (decide (T <= t0)%nat); [|left; lia]. right. split; [|lia]. apply Hw; [lia|]. apply Ha. lia.
Qed.

Lemma suspension_settled t s v : suspension_ok s v -> suspension_ok (settleDNSFutures t s) v.
Proof.
  destruct v as [|[f| |q]]; cbn; [done| |done|].
  - by rewrite settle_length.
  - intros Hq f Hf. apply lookup_lt_is_Some. rewrite settle_length. apply lookup_lt_is_Some. by apply Hq.
Qed.

Lemma resume_live fuel rules : resumes fuel rules.
Proof.
  induction fuel as [|fuel IH]; intros s m t seen p Hk Hok Hseen Hf Hfuel; [lia|]. cbn -[settleDNSFutures wait_wake].
  apply (known_settle t) in Hk. apply (suspension_settled t) in Hok. set (s1 := settleDNSFutures t s) in *.
  unfold sweepArmedDNSRules. pose proof (sweep_loop_spec (ws_armedRules s1) [] s1 m (1 + t)) as Hsw.
  destruct (sweep_loop _ _ _ _ _) as [[[v s2] m2] t2]. pose proof Hsw as (Ht & [l Hl] & Hv).
  assert (Hfu : ws_futures s2 = ws_futures s1) by (by rewrite Hl).
  destruct v as [[r|[f| |q]]|]; [by eexists|done|done| |].
  { apply finish_live; [|lia|lia]. intros f Hq. by rewrite Hv in Hq. }
  pose proof (swept_known _ _ _ _ _ Hsw Hk) as Hk2. pose proof (swept_late _ _ _ _ _ Hsw) as Hlate.
  destruct (waits (Suspended p)) eqn:Hwaits.
  2: { destruct p as [f| |q]; [done..|]. apply finish_live; [|lia|lia]. intros f Hq. rewrite Hfu. by apply Hok. }
  destruct Hfuel as [Hfuel|[? _]]; [|done].
  assert (Hnext : exists r, (if must_wait done_ s2 (1 + t2) p then
      match wait_wake signalled cancelled fuel s2 seen (2 + t2) with
      | None => None
      | Some None => Some (fail_with ctx_error)
      | Some (Some (seen', t3)) => resumeExchangeWithRules fuel rules s2 m2 (1 + t3) seen' p
      end
    else
      match walkDNSRules (drop (ws_ruleIndex s2) rules) s2 m2 (2 + t2) with
      | (Returned r, _, _, _) => Some r
      | (Suspended p, s3, m3, t3) => resumeExchangeWithRules fuel rules s3 m3 (S t3) seen p
      end) = Some r).
  2: { by destruct p. }
  destruct (must_wait done_ s2 (1 + t2) p) eqn:Hw; [|eapply after_walk with (t0 := t); try done; lia].
  destruct (waiting_future s1 (1 + t) s2 m2 t2 t seen p) as (f & Hlt & Hnew); try done; [lia|].
  destruct (wait_wake_live fuel s2 seen (2 + t2) f) as (o & -> & Ho); [done|done|lia|lia|].
  destruct o as [[seen' t3]|]; [|by eexists]. destruct (Ho _ _ eq_refl) as [Ht3 Hs3].
  apply IH; [done| | |lia|left].
  - destruct p; cbn; [by rewrite Hfu|done|done].
  - intros g Hg. apply (done_mono t3); [lia|auto].
  - enough (~ (T <= t)%nat) by lia. intros HT. destruct p; cbn in Hw; [by rewrite all_done in Hw by lia| |done].
    rewrite Hlate in Hw; [done|lia].
Qed.

Lemma known_initial options : known (initial_walk options).
Proof. split; cbn; [|done|]. - intros tag f Hf. by rewrite lookup_empty in Hf. - intros a f Ha. by apply not_elem_of_nil in Ha. Qed.

Lemma exchange_live fuel rules m options : (T + 3 <= fuel)%nat ->
  exists r, exchangeWithRules transport_Default defaultRejectRcode defaultDomainStrategy message allowFakeIP
     followPredefinedCNAME ExchangeAsync Exchange done_ signalled cancelled fuel rules m options = Some r.
Proof.
  intros Hf. unfold exchangeWithRules. pose proof (walk_live rules (initial_walk options) m 0) as Hw.
  destruct (walkDNSRules _ _ _ _) as [[[[r|p] s3] m3] t3]; [by eexists|]. destruct Hw as (Ht & Hok & _).
  destruct (Hok p eq_refl (known_initial options)) as [Hk Hp].
  apply resume_live; [done|done| |lia|left; lia]. intros g Hg. by apply not_elem_of_nil in Hg.
Qed.

Lemma exchange_correct rules m options fuel :
  calm done_ -> (forall t, cancelled t = false) ->
  Forall (fun rule => walk_ok rule = true) rules -> NoDup (omap evaluate_tag rules) ->
  IgnoreDestinationIPCIDRMatch m = false -> (T + 3 <= fuel)%nat ->
  exchangeWithRules transport_Default defaultRejectRcode defaultDomainStrategy message allowFakeIP
     followPredefinedCNAME ExchangeAsync Exchange done_ signalled cancelled fuel rules m options =
  Some (syncWalk transport_Default defaultRejectRcode defaultDomainStrategy message allowFakeIP
    followPredefinedCNAME ExchangeAsync Exchange rules (initial_sync options) m).
Proof.
  intros Hcalm Hcan Hok Hnd Hi Hf. destruct (exchange_live fuel rules m options Hf) as [r Hr]. rewrite Hr. f_equal.
  eapply exchange_sound; [exact done_mono|exact Hcalm|exact Hcan|exact Hok|exact Hnd|exact Hi|exact Hr].
Qed.
End live.

(** ** The schedule of the callbacks *)

Section schedule.
Context (progress : nat -> nat -> nat) (T : nat).
Context (progress_mono : forall t t' f, (t <= t')%nat -> (progress t f <= progress t' f)%nat).
Context (all_end : forall t f, (T <= t)%nat -> (length callback <= progress t f)%nat).

Lemma closed_mono : monotone (closed_at progress).
Proof. intros t t' f Ht. by apply performed_mono, progress_mono. Qed.

Lemma closed_late t f : (T <= t)%nat -> closed_at progress t f = true.
Proof. intros HT. by apply performed_all, all_end. Qed.

Lemma sent_late t f : (T <= t)%nat -> sent_at progress t f = true.
Proof. intros HT. by apply performed_all, all_end. Qed.

Lemma sent_closed t f : sent_at progress t f = true -> closed_at progress t f = true.
Proof. apply performed_order. Qed.
End schedule.
