(* ===== verification/DnsRecords.v ===== *)
(** * DNS messages: times to live, rotation of answers, client subnets, fixed responses

    The functions of [src/dns/client.go] and [src/dns/extension_edns0_subnet.go] that
    take messages apart. *)

From stdpp Require Import base gmap strings list.
From Stdlib Require Import ZArith Lia.
From S2P Require Import Prelude Net Metadata Codec.

Open Scope Z_scope.

Definition set_Ttl (ttl : Z) (rr : RR) : RR :=
  mkRR (mkRRHeader (hdr_Name (rr_Hdr rr)) (hdr_Rrtype (rr_Hdr rr)) (hdr_Class (rr_Hdr rr)) ttl) (rr_Data rr).

Definition rr_type (rr : RR) : Z := hdr_Rrtype (rr_Hdr rr).
Definition rr_ttl (rr : RR) : Z := hdr_Ttl (rr_Hdr rr).

Definition set_Answer (m : Msg) (answer : list RR) : Msg :=
  mkMsg (msg_Id m) (msg_Response m) (msg_Authoritative m) (msg_RecursionDesired m) (msg_RecursionAvailable m)
    (msg_Rcode m) (msg_Question m) answer (msg_Ns m) (msg_Extra m).

Definition set_Extra (m : Msg) (extra : list RR) : Msg :=
  mkMsg (msg_Id m) (msg_Response m) (msg_Authoritative m) (msg_RecursionDesired m) (msg_RecursionAvailable m)
    (msg_Rcode m) (msg_Question m) (msg_Answer m) (msg_Ns m) extra.

Definition set_Id (m : Msg) (id : Z) : Msg :=
  mkMsg id (msg_Response m) (msg_Authoritative m) (msg_RecursionDesired m) (msg_RecursionAvailable m)
    (msg_Rcode m) (msg_Question m) (msg_Answer m) (msg_Ns m) (msg_Extra m).

(** ** Times to live *)

Fixpoint negative_ttl_loop (ns : list RR) : option Z :=
  match ns with
  | [] => None
  | record :: rest =>
      match rr_Data record with
      | RR_SOA minttl => Some (if rr_ttl record <? minttl then rr_ttl record else minttl)
      | _ => negative_ttl_loop rest
      end
  end.

Definition extractNegativeTTL (response : Msg) : option Z := negative_ttl_loop (msg_Ns response).

Fixpoint ttl_loop (records : list RR) (timeToLive : Z) : Z :=
  match records with
  | [] => timeToLive
  | record :: rest =>
      if rr_type record =? TypeOPT then ttl_loop rest timeToLive
      else if (timeToLive =? 0) || (0 <? rr_ttl record) && (rr_ttl record <? timeToLive)
      then ttl_loop rest (rr_ttl record) else ttl_loop rest timeToLive
  end.

Definition computeTimeToLive (response : Msg) : Z :=
  match (if isnil (msg_Answer response) then extractNegativeTTL response else None) with
  | Some soaTTL => soaTTL
  | None => ttl_loop (msg_Extra response) (ttl_loop (msg_Ns response) (ttl_loop (msg_Answer response) 0))
  end.

Definition normalize_record (timeToLive : Z) (record : RR) : RR :=
  if rr_type record =? TypeOPT then record else set_Ttl timeToLive record.

Definition normalizeTTL (response : Msg) (timeToLive : Z) : Msg :=
  mkMsg (msg_Id response) (msg_Response response) (msg_Authoritative response) (msg_RecursionDesired response)
    (msg_RecursionAvailable response) (msg_Rcode response) (msg_Question response)
    (map (normalize_record timeToLive) (msg_Answer response)) (map (normalize_record timeToLive) (msg_Ns response))
    (map (normalize_record timeToLive) (msg_Extra response)).

(** ** Rotation *)

Definition reverseRotateSlice {A : Type} (slice : list A) (steps : Z) : list A :=
  if (length slice <=? 1)%nat then slice
  else
    let k := (length slice - Z.to_nat (steps `mod` Z.of_nat (length slice)))%nat in
    drop k slice ++ take k slice.

Definition removeAnswersOfType (answers : list RR) (rrType : Z) : list RR :=
  List.filter (fun ans => negb (rr_type ans =? rrType)) answers.

(** The two counters of a cached message. *)
Record dnsRotation : Type := mkRotation { ipv4Index : Z; ipv6Index : Z }.

(** The next value of a counter, which is also the rotation. *)
Definition nextRotation (index : Z) (length : Z) : Z := (index `mod` length + 1) `mod` length.

Definition is_A (rr : RR) : bool := match rr_Data rr with RR_A _ => true | _ => false end.
Definition is_AAAA (rr : RR) : bool := match rr_Data rr with RR_AAAA _ => true | _ => false end.

Definition applyRoundRobin (dm : dnsRotation) (answer : list RR) : dnsRotation * list RR :=
  let ipv4Answers := List.filter is_A answer in
  let ipv6Answers := List.filter is_AAAA answer in
  let new4 := nextRotation (ipv4Index dm) (Z.of_nat (length ipv4Answers)) in
  let '(dm1, answer1) :=
    if (1 <? length ipv4Answers)%nat
    then (mkRotation new4 (ipv6Index dm), removeAnswersOfType answer TypeA ++ reverseRotateSlice ipv4Answers new4)
    else (dm, answer) in
  let new6 := nextRotation (ipv6Index dm1) (Z.of_nat (length ipv6Answers)) in
  if (1 <? length ipv6Answers)%nat
  then (mkRotation (ipv4Index dm1) new6, removeAnswersOfType answer1 TypeAAAA ++ reverseRotateSlice ipv6Answers new6)
  else (dm1, answer1).

(** ** Client subnets *)

Definition EDNS0SUBNET : Z := 8.
Definition EDNS0PADDING : Z := 12.

Definition edns0_Option (o : EDNS0) : Z :=
  match o with EDNS0_SUBNET _ _ _ _ => EDNS0SUBNET | EDNS0_Other code => code end.

(** [netip.AddrFromSlice] *)
Definition AddrFromSlice (b : list Z) : option Addr :=
  if (length b =? 4)%nat then Some (Addr4 (be_value b))
  else if (length b =? 16)%nat then Some (Addr6 (be_value b) "") else None.

(** [netip.Addr.AsSlice] *)
Definition addr_AsSlice (a : Addr) : list Z :=
  match a with AddrInvalid => [] | Addr4 v => be_bytes 4 v | Addr6 v _ => be_bytes 16 v end.

Fixpoint subnet_in_options (options : list EDNS0) : option Prefix :=
  match options with
  | [] => None
  | EDNS0_SUBNET _ _ netmask address :: _ =>
      Some (match AddrFromSlice address with
            | None => zero_prefix
            | Some a => PrefixFrom (addr_Unmap a) netmask
            end)
  | EDNS0_Other _ :: rest => subnet_in_options rest
  end.

Fixpoint subnet_in_records (extra : list RR) : option Prefix :=
  match extra with
  | [] => None
  | record :: rest =>
      match rr_Data record with
      | RR_OPT options =>
          match subnet_in_options options with
          | Some p => Some p
          | None => subnet_in_records rest
          end
      | _ => subnet_in_records rest
      end
  end.

Definition clientSubnetFromMessage (message : Msg) : Prefix :=
  match subnet_in_records (msg_Extra message) with Some p => p | None => zero_prefix end.

Definition not_subnet (o : EDNS0) : bool := negb (edns0_Option o =? EDNS0SUBNET).

Definition remove_subnet_option (record : RR) : RR :=
  match rr_Data record with
  | RR_OPT options => mkRR (rr_Hdr record) (RR_OPT (List.filter not_subnet options))
  | _ => record
  end.

Definition has_subnet_option (record : RR) : bool :=
  match rr_Data record with RR_OPT options => existsb (fun o => negb (not_subnet o)) options | _ => false end.

Definition removeClientSubnet (message : Msg) : Msg :=
  if negb (existsb has_subnet_option (msg_Extra message)) then message
  else set_Extra message (map remove_subnet_option (msg_Extra message)).

Definition is_subnet (o : EDNS0) : bool := match o with EDNS0_SUBNET _ _ _ _ => true | EDNS0_Other _ => false end.

(** The loop [findExists] of [setClientSubnet] over the records from [i] on.  A record
    that is no OPT record resets [optRecord]. *)
Fixpoint find_option (options : list EDNS0) (j : nat) : option nat :=
  match options with
  | [] => None
  | o :: rest => if is_subnet o then Some j else find_option rest (S j)
  end.

Fixpoint find_exists (extra : list RR) (i : nat) (optRecord : option nat) : option nat * option nat :=
  match extra with
  | [] => (optRecord, None)
  | record :: rest =>
      match rr_Data record with
      | RR_OPT options =>
          match find_option options 0 with
          | Some j => (Some i, Some j)
          | None => find_exists rest (S i) (Some i)
          end
      | _ => find_exists rest (S i) None
      end
  end.

Definition subnet_option (clientSubnet : Prefix) : EDNS0 :=
  EDNS0_SUBNET EDNS0SUBNET (if addr_Is4 (prefix_addr clientSubnet) then 1 else 2)
    (wrap 8 (prefix_bits clientSubnet)) (addr_AsSlice (prefix_addr clientSubnet)).

(** Writing to the options of a record. *)
Definition update_options (f : list EDNS0 -> list EDNS0) (record : RR) : RR :=
  match rr_Data record with RR_OPT options => mkRR (rr_Hdr record) (RR_OPT (f options)) | _ => record end.

(** The family, the mask and the address are written to the option that is there. *)
Definition rewrite_option (clientSubnet : Prefix) (o : EDNS0) : EDNS0 :=
  match o, subnet_option clientSubnet with
  | EDNS0_SUBNET code _ _ _, EDNS0_SUBNET _ family netmask address => EDNS0_SUBNET code family netmask address
  | _, _ => o
  end.

Definition SetClientSubnet (message : Msg) (clientSubnet : Prefix) : Msg :=
  let extra := msg_Extra message in
  match find_exists extra 0 None with
  | (None, _) =>
      set_Extra message (extra ++ [mkRR (mkRRHeader "." TypeOPT 0 0) (RR_OPT [subnet_option clientSubnet])])
  | (Some i, None) => set_Extra message (alter (update_options (fun options => options ++ [subnet_option clientSubnet])) i extra)
  | (Some i, Some j) =>
      set_Extra message (alter (update_options (fun options => alter (rewrite_option clientSubnet) j options)) i extra)
  end.

Definition stripDNSPadding (response : Msg) : Msg :=
  set_Extra response
    (map (update_options (List.filter (fun o => negb (edns0_Option o =? EDNS0PADDING)))) (msg_Extra response)).

(** ** Fixed responses *)

Definition FixedResponseStatus (message : Msg) (rcode : Z) : Msg :=
  mkMsg (msg_Id message) true true true true rcode (msg_Question message) [] [] [].

(** The address record of one address, when the question asks for its family. *)
Definition address_record (question : Question) (timeToLive : Z) (address : Addr) : list RR :=
  if addr_Is4 address && (q_Qtype question =? TypeA)
  then [mkRR (mkRRHeader (q_Name question) TypeA ClassINET timeToLive) (RR_A (addr_AsSlice address))]
  else if addr_Is6 address && (q_Qtype question =? TypeAAAA)
  then [mkRR (mkRRHeader (q_Name question) TypeAAAA ClassINET timeToLive) (RR_AAAA (addr_AsSlice address))]
  else [].

Definition FixedResponse (id : Z) (question : Question) (addresses : list Addr) (timeToLive : Z) : Msg :=
  mkMsg id true true true true RcodeSuccess [question] (flat_map (address_record question timeToLive) addresses) [] [].

Definition FixedResponseCNAME (id : Z) (question : Question) (record : string) (timeToLive : Z) : Msg :=
  mkMsg id true true true true RcodeSuccess [question]
    [mkRR (mkRRHeader (q_Name question) TypeCNAME ClassINET timeToLive) (RR_CNAME record)] [] [].

Definition FixedResponseTXT (id : Z) (question : Question) (records : list string) (timeToLive : Z) : Msg :=
  mkMsg id true true true true RcodeSuccess [question]
    [mkRR (mkRRHeader (q_Name question) TypeA ClassINET timeToLive) (RR_TXT records)] [] [].

Definition FixedResponseMX (id : Z) (question : Question) (records : list (Z * string)) (timeToLive : Z) : Msg :=
  mkMsg id true true true true RcodeSuccess [question]
    (map (fun r => mkRR (mkRRHeader (q_Name question) TypeA ClassINET timeToLive) (RR_MX r.1 r.2)) records) [] [].

(** * Properties *)

(** ** Times to live *)

(** [r] is the least positive number of [ts], or zero if there is none. *)
Definition least_positive (ts : list Z) (r : Z) : Prop :=
  (r = 0 /\ Forall (fun x => x = 0) ts) \/ (0 < r /\ r ∈ ts /\ Forall (fun x => 0 < x -> r <= x) ts).

Definition is_opt (rr : RR) : bool := rr_type rr =? TypeOPT.

(** The times to live of the records that have one. *)
Definition ttls (records : list RR) : list Z := map rr_ttl (List.filter (fun rr => negb (is_opt rr)) records).

Definition all_records (m : Msg) : list RR := msg_Answer m ++ msg_Ns m ++ msg_Extra m.

Lemma ttl_loop_app l1 l2 t : ttl_loop (l1 ++ l2) t = ttl_loop l2 (ttl_loop l1 t).
Proof.
  revert t. induction l1 as [|r l1 IH]; intros t; cbn; [done|].
  destruct (rr_type r =? TypeOPT); [done|]. by destruct (_ || _).
Qed.

Lemma least_positive_cons t x l r : 0 <= t -> 0 <= x ->
  least_positive ((if (t =? 0) || (0 <? x) && (x <? t) then x else t) :: l) r -> least_positive (t :: x :: l) r.
Proof.
  intros Ht Hx [[-> Hl]|(Hr & Hin & Hl)]; [left|right].
  - split; [done|]. apply Forall_cons in Hl as [Hh Hl]. destruct (Z.eqb_spec t 0), (Z.ltb_spec 0 x), (Z.ltb_spec x t); cbn in Hh;
      repeat (apply Forall_cons; split; [lia|]); done.
  - split; [done|]. apply Forall_cons in Hl as [Hh Hl].
    destruct (Z.eqb_spec t 0), (Z.ltb_spec 0 x), (Z.ltb_spec x t); cbn in Hin, Hh;
      (split; [set_solver|]); repeat (apply Forall_cons; split; [lia|]); done.
Qed.

Lemma ttl_loop_least records t : 0 <= t -> Forall (fun rr => 0 <= rr_ttl rr) records ->
  least_positive (t :: ttls records) (ttl_loop records t).
Proof.
  intros Ht Hl. revert t Ht. induction Hl as [|rr records Hr _ IH]; intros t Ht; cbn.
  - destruct (decide (t = 0)) as [->|Hn]; [left; split; [done|by repeat constructor]|right].
    split; [lia|]. split; [by left|]. by repeat constructor.
  - unfold ttls, is_opt. cbn. destruct (rr_type rr =? TypeOPT); cbn; [by apply IH|].
    apply least_positive_cons; [done|done|].
    destruct ((t =? 0) || _) eqn:Hc; by apply IH.
Qed.

Lemma ttls_nonneg records : Forall (fun rr => 0 <= rr_ttl rr) records -> Forall (fun x => 0 <= x) (ttls records).
Proof.
  intros Hl. apply Forall_map. rewrite Forall_forall in *. intros rr Hr. apply Hl.
  apply list_elem_of_In in Hr. apply filter_In in Hr as [Hr _]. by apply list_elem_of_In.
Qed.

Lemma computeTimeToLive_least m :
  Forall (fun rr => 0 <= rr_ttl rr) (all_records m) -> (msg_Answer m = [] -> extractNegativeTTL m = None) ->
  least_positive (ttls (all_records m)) (computeTimeToLive m).
Proof.
  intros Hl Hn. unfold computeTimeToLive.
  replace (if isnil (msg_Answer m) then extractNegativeTTL m else None) with (@None Z).
  2: { destruct (msg_Answer m); [cbn; by rewrite Hn|done]. }
  rewrite <- !ttl_loop_app. fold (all_records m).
  destruct (ttl_loop_least (all_records m) 0 ltac:(done) Hl) as [[-> Ha]|(Hr & Hin & Ha)]; apply Forall_cons in Ha as [_ Ha].
  - by left.
  - right. split_and!; [done| |done]. apply elem_of_cons in Hin as [Hin|Hin]; [lia|done].
Qed.

Lemma normalize_ttls records t : Forall (fun x => x = t) (ttls (map (normalize_record t) records)).
Proof.
  unfold ttls in *. induction records as [|rr records IH]; [done|]. cbn [map List.filter].
  assert (Hn : normalize_record t rr = if is_opt rr then rr else set_Ttl t rr) by done. rewrite Hn.
  destruct (is_opt rr) eqn:Ho; [by rewrite Ho|].
  change (is_opt (set_Ttl t rr)) with (is_opt rr). rewrite Ho. cbn [negb map]. by constructor.
Qed.

(** ** Rotation *)

Lemma reverseRotateSlice_perm {A : Type} (l : list A) steps : reverseRotateSlice l steps ≡ₚ l.
Proof.
  unfold reverseRotateSlice. destruct (length l <=? 1)%nat; [done|]. cbn zeta.
  rewrite Permutation_app_comm. by rewrite take_drop.
Qed.

(** The address records of a message carry the type of their data. *)
Definition typed (rr : RR) : bool := eqb (is_A rr) (rr_type rr =? TypeA) && eqb (is_AAAA rr) (rr_type rr =? TypeAAAA).

Lemma filter_split_perm {A : Type} (f : A -> bool) (l : list A) :
  List.filter (fun x => negb (f x)) l ++ List.filter f l ≡ₚ l.
Proof.
  induction l as [|x l IH]; cbn; [done|]. destruct (f x); cbn; [|by rewrite IH].
  rewrite <- Permutation_middle. by rewrite IH.
Qed.

Lemma removeAnswers_A l : Forall typed l -> removeAnswersOfType l TypeA = List.filter (fun rr => negb (is_A rr)) l.
Proof.
  unfold removeAnswersOfType. induction 1 as [|rr l Hr _ IH]; cbn; [done|].
  apply andb_prop_elim in Hr as [Hr _]. apply Is_true_true, eqb_prop in Hr. by rewrite <- Hr, IH.
Qed.

Lemma removeAnswers_AAAA l : Forall typed l ->
  removeAnswersOfType l TypeAAAA = List.filter (fun rr => negb (is_AAAA rr)) l.
Proof.
  unfold removeAnswersOfType. induction 1 as [|rr l Hr _ IH]; cbn; [done|].
  apply andb_prop_elim in Hr as [_ Hr]. apply Is_true_true, eqb_prop in Hr. by rewrite <- Hr, IH.
Qed.

Lemma filter_filter_none {A : Type} (f g : A -> bool) (l : list A) :
  (forall x, g x = true -> f x = false) -> List.filter f (List.filter g l) = [].
Proof.
  intros Hfg. induction l as [|x l IH]; cbn; [done|]. destruct (g x) eqn:Hg; cbn; [by rewrite Hfg|done].
Qed.

Lemma filter_filter_all {A : Type} (f g : A -> bool) (l : list A) :
  (forall x, f x = true -> g x = true) -> List.filter f (List.filter g l) = List.filter f l.
Proof.
  intros Hfg. induction l as [|x l IH]; cbn; [done|]. destruct (g x) eqn:Hg; cbn; rewrite IH; [done|].
  destruct (f x) eqn:Hf; [by rewrite Hfg in Hg|done].
Qed.

Lemma filter_rotate {A : Type} (f : A -> bool) (l : list A) steps : Forall f l ->
  List.filter f (reverseRotateSlice l steps) = reverseRotateSlice l steps.
Proof.
  intros Hl. assert (Hr : Forall f (reverseRotateSlice l steps)) by (by rewrite reverseRotateSlice_perm).
  induction Hr as [|x r Hx _ IH]; cbn; [done|]. apply Is_true_true in Hx. by rewrite Hx, IH.
Qed.

Lemma Forall_filter {A : Type} (f : A -> bool) (l : list A) : Forall f (List.filter f l).
Proof. induction l as [|x l IH]; cbn; [done|]. destruct (f x) eqn:Hf; [|done]. constructor; [by rewrite Hf|done]. Qed.

Lemma filter_perm {A : Type} (f : A -> bool) (l l' : list A) : l ≡ₚ l' -> List.filter f l ≡ₚ List.filter f l'.
Proof.
  induction 1 as [|x l l' _ IH|x y l|l l' l'' _ IH _ IH']; cbn; [done| | |by etransitivity].
  - destruct (f x); [by rewrite IH|done].
  - destruct (f x), (f y); try done. constructor.
Qed.

(** The A records come out rotated by the new counter; the answers are permuted. *)
Lemma applyRoundRobin_spec dm answer : Forall typed answer ->
  let '(dm', answer') := applyRoundRobin dm answer in
  answer' ≡ₚ answer /\
  if (1 <? length (List.filter is_A answer))%nat
  then ipv4Index dm' = nextRotation (ipv4Index dm) (Z.of_nat (length (List.filter is_A answer))) /\
       List.filter is_A answer' = reverseRotateSlice (List.filter is_A answer) (ipv4Index dm')
  else ipv4Index dm' = ipv4Index dm /\ List.filter is_A answer' = List.filter is_A answer.
Proof.
  intros Ht. unfold applyRoundRobin.
  set (a4 := List.filter is_A answer). set (a6 := List.filter is_AAAA answer).
  assert (Hdisj : forall rr, is_AAAA rr = true -> is_A rr = false) by (intros rr; unfold is_A, is_AAAA; by destruct (rr_Data rr)).
  assert (H6 : forall answer1 k, answer1 ≡ₚ answer ->
    removeAnswersOfType answer1 TypeAAAA ++ reverseRotateSlice a6 k ≡ₚ answer /\
    List.filter is_A (removeAnswersOfType answer1 TypeAAAA ++ reverseRotateSlice a6 k) = List.filter is_A answer1).
  { intros answer1 k Hp. assert (Ht1 : Forall typed answer1) by (by rewrite Hp). rewrite removeAnswers_AAAA by done. split.
    - rewrite reverseRotateSlice_perm. unfold a6. rewrite <- (filter_perm is_AAAA answer1 answer Hp).
      by rewrite filter_split_perm.
    - rewrite List.filter_app. rewrite (filter_filter_all is_A).
      + assert (Hn : List.filter is_A (reverseRotateSlice a6 k) = []); [|by rewrite Hn, app_nil_r].
        apply Permutation_nil. symmetry. rewrite (filter_perm is_A _ _ (reverseRotateSlice_perm a6 k)).
        unfold a6. by rewrite filter_filter_none.
      + intros rr Hr. destruct (is_AAAA rr) eqn:H6; [by rewrite Hdisj in Hr|done]. }
  destruct (1 <? length a4)%nat eqn:H4; cbn zeta.
  - set (k4 := nextRotation _ _). set (answer1 := removeAnswersOfType answer TypeA ++ reverseRotateSlice a4 k4).
    assert (Hp : answer1 ≡ₚ answer).
    { unfold answer1. rewrite reverseRotateSlice_perm, removeAnswers_A by done. apply filter_split_perm. }
    assert (Hf : List.filter is_A answer1 = reverseRotateSlice a4 k4).
    { unfold answer1. rewrite removeAnswers_A, List.filter_app by done.
      rewrite filter_filter_none by (intros rr; by destruct (is_A rr)). cbn. apply filter_rotate, Forall_filter. }
    destruct (1 <? length a6)%nat; cbn; [|done].
    destruct (H6 answer1 (nextRotation (ipv6Index dm) (Z.of_nat (length a6))) Hp) as [H7 H8]. by rewrite H8.
  - destruct (1 <? length a6)%nat; cbn; [|done].
    by destruct (H6 answer (nextRotation (ipv6Index dm) (Z.of_nat (length a6))) ltac:(done)) as [H7 H8].
Qed.

(** Loading a cached message [n] times. *)
Fixpoint loads (n : nat) (dm : dnsRotation) (answer : list RR) : list (list RR) :=
  match n with
  | O => []
  | S n' => let '(dm', answer') := applyRoundRobin dm answer in answer' :: loads n' dm' answer
  end.

Lemma rotate_head {A : Type} (l : list A) s : (1 < length l)%nat -> 0 <= s < Z.of_nat (length l) ->
  head (reverseRotateSlice l s) = l !! Z.to_nat ((- s) `mod` Z.of_nat (length l)).
Proof.
  intros Hn Hs. unfold reverseRotateSlice. destruct (Nat.leb_spec (length l) 1); [lia|]. cbn zeta.
  rewrite (Z.mod_small s) by lia. destruct (decide (s = 0)) as [->|Hne].
  - rewrite Z.mod_0_l, Nat.sub_0_r, drop_all, firstn_all by lia. by destruct l.
  - replace (- s) with (- s + Z.of_nat (length l) - 1 * Z.of_nat (length l)) by lia.
    rewrite <- Zminus_mod_idemp_r, Z.mod_mul, Z.sub_0_r, Z.mod_small by lia.
    replace (Z.to_nat (- s + Z.of_nat (length l))) with (length l - Z.to_nat s)%nat by lia.
    rewrite <- (Nat.add_0_r (length l - Z.to_nat s)) at 3. rewrite <- lookup_drop.
    destruct (drop (length l - Z.to_nat s) l) eqn:Hd; [|done].
    apply (f_equal length) in Hd. rewrite length_drop in Hd. cbn in Hd. lia.
Qed.

Lemma mod_inj n a b : 0 < n -> Z.abs (a - b) < n -> a `mod` n = b `mod` n -> a = b.
Proof.
  intros Hn Hab He. assert (Hd : (a - b) `mod` n = 0) by (rewrite Zminus_mod, He, Z.sub_diag; by apply Z.mod_0_l; lia).
  apply Z.mod_divide in Hd as [q Hq]; [|lia]. assert (q = 0) by nia. lia.
Qed.

(** The first A record of the loads, as positions in the stored answer. *)
Lemma loads_heads n dm answer k j l : Forall typed answer -> l = List.filter is_A answer -> (1 < length l)%nat ->
  ipv4Index dm `mod` Z.of_nat (length l) = (k + Z.of_nat j) `mod` Z.of_nat (length l) ->
  map (fun a => head (List.filter is_A a)) (loads n dm answer) =
  map (fun j => l !! Z.to_nat ((- (k + Z.of_nat j)) `mod` Z.of_nat (length l))) (seq (S j) n).
Proof.
  intros Ht Hl Hn. revert dm j. induction n as [|n IH]; intros dm j Hk; cbn [loads seq map]; [done|].
  pose proof (applyRoundRobin_spec dm answer Ht) as Hs. rewrite <- Hl in Hs.
  destruct (applyRoundRobin dm answer) as [dm' answer'].
  destruct Hs as [_ Hs]. destruct (Nat.ltb_spec 1 (length l)); [|lia]. destruct Hs as [Hi Hf].
  assert (Hr : 0 <= ipv4Index dm' < Z.of_nat (length l)) by (rewrite Hi; unfold nextRotation; apply Z.mod_pos_bound; lia).
  assert (Hm : ipv4Index dm' `mod` Z.of_nat (length l) = (k + Z.of_nat (S j)) `mod` Z.of_nat (length l)).
  { rewrite Hi. unfold nextRotation. rewrite Hk, Zmod_mod, Zplus_mod_idemp_l. f_equal. lia. }
  cbn [map]. f_equal; [|by apply IH]. rewrite Hf, rotate_head by done. do 2 f_equal.
  rewrite <- (Z.sub_0_l (k + _)), <- (Z.sub_0_l (ipv4Index dm')), Zminus_mod, Hm. by rewrite <- Zminus_mod.
Qed.

(** The positions of a whole turn. *)
Lemma turn_positions n k : (0 < n)%nat ->
  map (fun j => Z.to_nat ((- (k + Z.of_nat j)) `mod` Z.of_nat n)) (seq 1 n) ≡ₚ seq 0 n.
Proof.
  intros Hn. apply submseteq_length_Permutation.
  - apply NoDup_submseteq.
    + apply NoDup_fmap_2_strong; [|apply NoDup_seq].
      intros a b Ha Hb He. apply elem_of_seq in Ha, Hb.
      assert (Hmod : (- (k + Z.of_nat a)) `mod` Z.of_nat n = (- (k + Z.of_nat b)) `mod` Z.of_nat n).
      { apply Z2Nat.inj; [apply Z.mod_pos_bound; lia..|done]. }
      apply mod_inj in Hmod; lia.
    + intros x Hx. apply list_elem_of_fmap in Hx as (a & -> & _). apply elem_of_seq. split; [lia|].
      pose proof (Z.mod_pos_bound (- (k + Z.of_nat a)) (Z.of_nat n) ltac:(lia)). lia.
  - by rewrite length_map, !length_seq.
Qed.

Lemma round_robin_turn dm answer : Forall typed answer -> (1 < length (List.filter is_A answer))%nat ->
  map (fun a => head (List.filter is_A a)) (loads (length (List.filter is_A answer)) dm answer) ≡ₚ
  map Some (List.filter is_A answer).
Proof.
  intros Ht Hn. set (l := List.filter is_A answer) in *.
  rewrite (loads_heads _ dm answer (ipv4Index dm) 0 l) by (try done; by rewrite Z.add_0_r).
  assert (Hl : map Some l = map (fun i => l !! i) (seq 0 (length l))).
  { apply list_eq. intros i. rewrite !list_lookup_fmap. destruct (decide (i < length l)%nat) as [Hi|Hi].
    - rewrite lookup_seq_lt by done. cbn. by destruct (lookup_lt_is_Some_2 l i Hi) as [x ->].
    - rewrite lookup_ge_None_2 by lia. by rewrite lookup_seq_ge by lia. }
  rewrite Hl, <- (turn_positions (length l) (ipv4Index dm)) by lia. by rewrite map_map.
Qed.

Lemma loads_perm n dm answer : Forall typed answer -> Forall (fun a => a ≡ₚ answer) (loads n dm answer).
Proof.
  intros Ht. revert dm. induction n as [|n IH]; intros dm; cbn; [done|].
  pose proof (applyRoundRobin_spec dm answer Ht) as Hs. destruct (applyRoundRobin dm answer) as [dm' answer'].
  constructor; [by destruct Hs|apply IH].
Qed.

(** ** Client subnets *)

(** A record without a subnet option. *)
Definition without_subnet (rr : RR) : Prop :=
  match rr_Data rr with RR_OPT options => Forall (fun o => is_subnet o = false) options | _ => True end.

Lemma find_option_spec options j :
  match find_option options j with
  | Some k => exists pre o post, options = pre ++ o :: post /\ k = (j + length pre)%nat /\ is_subnet o = true /\
                Forall (fun o => is_subnet o = false) pre
  | None => Forall (fun o => is_subnet o = false) options
  end.
Proof.
  revert j. induction options as [|o options IH]; intros j; cbn; [done|]. destruct (is_subnet o) eqn:Ho.
  - exists [], o, options. cbn. split_and!; [done|lia|done|done].
  - specialize (IH (S j)). destruct (find_option options (S j)) as [k|]; [|by constructor].
    destruct IH as (pre & o' & post & -> & -> & Ho' & Hpre). exists (o :: pre), o', post. cbn.
    split_and!; [done|lia|done|by constructor].
Qed.

Lemma find_exists_spec extra i opt :
  match find_exists extra i opt with
  | (_, None) => Forall without_subnet extra
  | (None, Some _) => False
  | (Some k, Some j) => exists pre rr options post, extra = pre ++ rr :: post /\ k = (i + length pre)%nat /\
      rr_Data rr = RR_OPT options /\ find_option options 0 = Some j /\ Forall without_subnet pre
  end /\
  match find_exists extra i opt with
  | (Some k, None) => opt = Some k \/ exists rr options, (i <= k)%nat /\ extra !! (k - i)%nat = Some rr /\ rr_Data rr = RR_OPT options
  | _ => True
  end.
Proof.
  revert i opt. induction extra as [|rr extra IH]; intros i opt; cbn; [by destruct opt; auto|].
  assert (Hnext : forall opt', without_subnet rr -> (opt' = None \/ opt' = Some i /\ exists options, rr_Data rr = RR_OPT options) ->
    match find_exists extra (S i) opt' with
    | (_, None) => Forall without_subnet (rr :: extra)
    | (None, Some _) => False
    | (Some k, Some j) => exists pre rr' options post, rr :: extra = pre ++ rr' :: post /\ k = (i + length pre)%nat /\
        rr_Data rr' = RR_OPT options /\ find_option options 0 = Some j /\ Forall without_subnet pre
    end /\
    match find_exists extra (S i) opt' with
    | (Some k, None) => opt = Some k \/
        exists rr' options, (i <= k)%nat /\ (rr :: extra) !! (k - i)%nat = Some rr' /\ rr_Data rr' = RR_OPT options
    | _ => True
    end).
  { intros opt' Hw Hopt. destruct (IH (S i) opt') as [H1 H2]. destruct (find_exists extra (S i) opt') as [[k|] [j|]]; try done.
    - split; [|done]. destruct H1 as (pre & rr' & options & post & -> & -> & H3 & H4 & H5).
      exists (rr :: pre), rr', options, post. cbn. split_and!; [done|lia|done|done|by constructor].
    - split; [by constructor|]. right. destruct H2 as [->|(rr' & options & Hle & Hlk & Hd)].
      + destruct Hopt as [?|[[= ->] [options Ho]]]; [done|]. exists rr, options. by rewrite Nat.sub_diag.
      + exists rr', options. split_and!; [lia| |done]. by replace (k - i)%nat with (S (k - S i)) by lia.
    - split; [by constructor|done]. }
  destruct (rr_Data rr) eqn:Hd; try (apply Hnext; [unfold without_subnet; by rewrite Hd|by left]).
  pose proof (find_option_spec option 0) as Hfo. destruct (find_option option 0) as [j|] eqn:Hf.
  - split; [|done]. exists [], rr, option, extra. cbn. split_and!; [done|lia|done|done|done].
  - apply Hnext; [unfold without_subnet; by rewrite Hd|]. right. split; [done|by exists option].
Qed.

Definition subnet_read (netmask : Z) (address : list Z) : Prefix :=
  match AddrFromSlice address with None => zero_prefix | Some a => PrefixFrom (addr_Unmap a) netmask end.

Lemma subnet_in_options_app pre post : Forall (fun o => is_subnet o = false) pre ->
  subnet_in_options (pre ++ post) = subnet_in_options post.
Proof. induction 1 as [|o pre Ho _ IH]; cbn; [done|]. by destruct o. Qed.

Lemma subnet_in_options_none options : Forall (fun o => is_subnet o = false) options -> subnet_in_options options = None.
Proof. intros Ho. rewrite <- (app_nil_r options). by rewrite subnet_in_options_app. Qed.

Lemma subnet_in_records_app pre post : Forall without_subnet pre ->
  subnet_in_records (pre ++ post) = subnet_in_records post.
Proof.
  induction 1 as [|rr pre Hr _ IH]; cbn; [done|]. unfold without_subnet in Hr. destruct (rr_Data rr); try done.
  by rewrite subnet_in_options_none.
Qed.

Lemma alter_middle {A : Type} (f : A -> A) pre x post : alter f (length pre) (pre ++ x :: post) = pre ++ f x :: post.
Proof. induction pre as [|y pre IH]; cbn; [done|by rewrite IH]. Qed.

(** The subnet that is set is the one that is read. *)
Lemma clientSubnet_set m p :
  clientSubnetFromMessage (SetClientSubnet m p) = subnet_read (wrap 8 (prefix_bits p)) (addr_AsSlice (prefix_addr p)).
Proof.
  unfold SetClientSubnet, clientSubnetFromMessage.
  destruct (find_exists_spec (msg_Extra m) 0 None) as [H1 H2].
  destruct (find_exists (msg_Extra m) 0 None) as [[i|] [j|]]; cbn; [| | |].
  - destruct H1 as (pre & rr & options & post & -> & -> & Hd & Hf & Hpre). cbn [Nat.add].
    pose proof (find_option_spec options 0) as Ho. rewrite Hf in Ho.
    destruct Ho as (opre & o & opost & -> & -> & Ho & Hopre). cbn [Nat.add].
    rewrite alter_middle, subnet_in_records_app by done. cbn. unfold update_options. rewrite Hd. cbn.
    rewrite alter_middle, subnet_in_options_app by done. by destruct o.
  - destruct H2 as [?|(rr & options & _ & Hlk & Hd)]; [done|]. rewrite Nat.sub_0_r in Hlk.
    rewrite <- (take_drop_middle _ _ _ Hlk) in H1 |- *. apply Forall_app in H1 as [Hpre [Hr _]%Forall_cons].
    assert (Hlen : length (take i (msg_Extra m)) = i) by (apply length_take_le; apply lookup_lt_Some in Hlk; lia).
    rewrite <- Hlen at 1. rewrite alter_middle, subnet_in_records_app by done. cbn. unfold update_options. rewrite Hd. cbn.
    unfold without_subnet in Hr. rewrite Hd in Hr. rewrite subnet_in_options_app by done. done.
  - done.
  - rewrite subnet_in_records_app by done. done.
Qed.

(** A valid prefix of an address of its own family. *)
Definition plain_prefix (p : Prefix) : Prop :=
  match prefix_addr p with
  | AddrInvalid => False
  | Addr4 v => in_width 32 v /\ 0 <= prefix_bits p <= 32
  | Addr6 v zone => in_width 128 v /\ Z.shiftr v 32 <> 65535 /\ zone = ""%string /\ 0 <= prefix_bits p <= 128
  end.

Lemma subnet_read_plain p : plain_prefix p -> subnet_read (wrap 8 (prefix_bits p)) (addr_AsSlice (prefix_addr p)) = p.
Proof.
  destruct p as [[|v|v zone] bits]; unfold plain_prefix, subnet_read, AddrFromSlice, in_width; cbn [prefix_addr prefix_bits addr_AsSlice].
  - done.
  - intros [Hv Hb]. rewrite length_be_bytes, be_value_bytes. cbn [Nat.eqb addr_Unmap].
    unfold wrap. rewrite (Z.mod_small bits) by lia. rewrite Z.mod_small by (change (256 ^ Z.of_nat 4) with (2 ^ 32); lia).
    unfold PrefixFrom. cbn. destruct (Z.ltb_spec bits 0); [lia|]. destruct (Z.ltb_spec 32 bits); [lia|done].
  - intros (Hv & Hm & -> & Hb). rewrite length_be_bytes, be_value_bytes. cbn [Nat.eqb].
    unfold wrap. rewrite (Z.mod_small bits) by lia. rewrite Z.mod_small by (change (256 ^ Z.of_nat 16) with (2 ^ 128); lia).
    unfold PrefixFrom, addr_Unmap. apply Z.eqb_neq in Hm. rewrite Hm. cbn.
    destruct (Z.ltb_spec bits 0); [lia|]. destruct (Z.ltb_spec 128 bits); [lia|done].
Qed.

Lemma not_subnet_is o : is_subnet o = true -> not_subnet o = false.
Proof. by destruct o. Qed.

Lemma clientSubnet_removed m : clientSubnetFromMessage (removeClientSubnet m) = zero_prefix.
Proof.
  assert (Hno : Forall without_subnet (msg_Extra (removeClientSubnet m))).
  { unfold removeClientSubnet. destruct (existsb has_subnet_option (msg_Extra m)) eqn:He; cbn.
    - apply Forall_map, Forall_true. intros rr. unfold remove_subnet_option, without_subnet.
      destruct (rr_Data rr) eqn:Hd; cbn; try (by rewrite Hd). apply Forall_forall. intros o Ho.
      apply list_elem_of_In, filter_In in Ho as [_ Ho]. destruct (is_subnet o) eqn:Hs; [|done].
      by rewrite not_subnet_is in Ho.
    - apply Forall_forall. intros rr Hr. unfold without_subnet. destruct (rr_Data rr) eqn:Hd; try done.
      apply Forall_forall. intros o Ho. destruct (is_subnet o) eqn:Hs; [|done]. exfalso.
      apply not_true_iff_false in He. apply He, existsb_exists. exists rr. split; [by apply list_elem_of_In|].
      unfold has_subnet_option. rewrite Hd. apply existsb_exists. exists o. split; [by apply list_elem_of_In|].
      by rewrite not_subnet_is. }
  unfold clientSubnetFromMessage. rewrite <- (app_nil_r (msg_Extra _)). by rewrite subnet_in_records_app.
Qed.

(** ** Fixed responses *)

Lemma FixedResponse_addresses AddrFromIP id question addresses ttl :
  (forall a, addr_IsValid a = true -> a ∈ addresses -> AddrFromIP (addr_AsSlice a) = a) ->
  q_Qtype question = TypeA \/ q_Qtype question = TypeAAAA ->
  DNSResponseAddresses AddrFromIP (Some (FixedResponse id question addresses ttl)) =
  List.filter (if q_Qtype question =? TypeA then addr_Is4 else addr_Is6) addresses.
Proof.
  intros Hinv Hq. cbn. induction addresses as [|a addresses IH]; cbn; [done|].
  rewrite flat_map_app, IH by (intros; apply Hinv; set_solver). unfold address_record.
  pose proof (Hinv a) as Ha. assert (Hin : a ∈ a :: addresses) by by left.
  destruct Hq as [->| ->]; destruct a; cbn -[be_bytes] in Ha |- *; try done;
    unfold rr_addresses; cbn -[be_bytes]; rewrite Ha by done; done.
Qed.
