(* ===== verification/DnsClient.v ===== *)
(** * The DNS client

    [src/dns/client.go]: cache keys, the response cache in memory with its expiry and
    optimistic window, and an exchange from [beginExchange] to [finishExchange], with
    the lock that lets one exchange per key run at a time.  The LRU cache is a library,
    given by its operations and their laws; the persistent cache is left out. *)

From stdpp Require Import base gmap strings list.
From Stdlib Require Import ZArith Lia.
From S2P Require Import Prelude Net GoStrings Metadata Codec RuleMatch RuleItems RuleOptions DnsMode DnsRecords.

Open Scope Z_scope.

Definition DomainStrategyPreferIPv6 : Z := 2.
Definition DomainStrategyIPv4Only : Z := 3.
Definition DomainStrategyIPv6Only : Z := 4.

Definition second : Z := 10 ^ 9.
Definition DNSTimeout : Z := 10 * second.

(** ** Transports *)

(** How an exchange with a server ends; an [RcodeError] is told apart by [errors.As]. *)
Inductive transportResult : Type :=
| TransportResponse (response : Msg)
| TransportRcode (rcode : Z)
| TransportError (err : error).

(** What the client uses of a transport. *)
Record ClientTransport : Type := mkClientTransport {
  ct_Tag : string;
  ct_Environment : option (list string);
  ct_Exchange : Msg -> transportResult
}.

(** ** The client *)

Record Client : Type := mkClient {
  c_timeout : Z;
  c_disableCache : bool;
  c_disableExpire : bool;
  c_optimisticTimeout : Z;
  c_cacheCapacity : Z;
  c_roundRobinCache : bool;
  c_minCacheTTL : Z;
  c_maxCacheTTL : Z;
  c_clientSubnet : Prefix
}.

(** The options are the fields of the client before they are adjusted. *)
Definition NewClient (options : Client) : Client :=
  mkClient (if c_timeout options =? 0 then DNSTimeout else c_timeout options) (c_disableCache options)
    (c_disableExpire options) (c_optimisticTimeout options) (Z.max (c_cacheCapacity options) 1024)
    (c_roundRobinCache options) (c_minCacheTTL options)
    (if (0 <? c_maxCacheTTL options) && (c_maxCacheTTL options <? c_minCacheTTL options)
     then c_minCacheTTL options else c_maxCacheTTL options)
    (c_clientSubnet options).

(** ** Cache keys *)

Record dnsCacheKey : Type := mkCacheKey {
  ck_Question : Question;
  ck_transportTag : string;
  ck_clientSubnet : Prefix;
  ck_environment : Z
}.

#[export] Instance dnsCacheKey_eq_dec : EqDecision dnsCacheKey.
Proof. solve_decision. Defined.

Definition zero_key : dnsCacheKey := mkCacheKey (mkQuestion "" 0 0) "" zero_prefix 0.

(** [hash/fnv.New64a] *)
Definition fnv_offset : Z := 14695981039346656037.
Definition fnv_prime : Z := 1099511628211.
Definition fnv_write (h : Z) (data : list Z) : Z := foldl (fun h b => wrap 64 (Z.lxor h b * fnv_prime)) h data.

Section client.
Context (c : Client).
(** The network manager, when there is one. *)
Context (NetworkEnvironment : option Z).

Definition environmentHash (transport : ClientTransport) : Z :=
  match ct_Environment transport with
  | None => 0
  | Some environment =>
      let networkEnvironment := match NetworkEnvironment with Some e => e | None => 0 end in
      if isnil environment then networkEnvironment
      else
        fnv_write (foldl (fun h entry => fnv_write (fnv_write h (bytes_of_string entry)) [0]) fnv_offset environment)
          (be_bytes 8 networkEnvironment)
  end.

(** The subnet a query is sent with, and cached under. *)
Definition effective_subnet (message : Msg) (options : DNSQueryOptions) : Prefix :=
  if qo_RemoveClientSubnet options then zero_prefix
  else if prefix_IsValid (qo_ClientSubnet options) then qo_ClientSubnet options
  else if prefix_IsValid (c_clientSubnet c) then c_clientSubnet c
  else clientSubnetFromMessage message.

Definition newCacheKey (transport : ClientTransport) (question : Question) (message : Msg) (options : DNSQueryOptions)
    : dnsCacheKey :=
  mkCacheKey question (ct_Tag transport) (effective_subnet message options) (environmentHash transport).

Definition finishCacheKey (transport : ClientTransport) (key : dnsCacheKey) : option dnsCacheKey :=
  let environment := environmentHash transport in
  if (environment =? ck_environment key) || (ck_environment key =? 0)
  then Some (mkCacheKey (ck_Question key) (ck_transportTag key) (ck_clientSubnet key) environment)
  else None.

Definition prepareExchangeMessage (message : Msg) (options : DNSQueryOptions) : Msg :=
  if qo_RemoveClientSubnet options then removeClientSubnet message
  else
    let clientSubnet :=
      if prefix_IsValid (qo_ClientSubnet options) then qo_ClientSubnet options else c_clientSubnet c in
    if prefix_IsValid clientSubnet then SetClientSubnet message clientSubnet else message.

(** ** Responses *)

Definition keep_hint (strategy : Z) (value : SVCBKeyValue) : bool :=
  match value with
  | SVCBIPv6Hint _ => negb (strategy =? DomainStrategyIPv4Only)
  | SVCBIPv4Hint _ => strategy =? DomainStrategyIPv4Only
  | SVCBOther key => negb (key =? (if strategy =? DomainStrategyIPv4Only then 6 else 4))
  end.

Definition filter_hints (strategy : Z) (rr : RR) : RR :=
  match rr_Data rr with
  | RR_HTTPS value => mkRR (rr_Hdr rr) (RR_HTTPS (List.filter (keep_hint strategy) value))
  | _ => rr
  end.

Definition applyResponseOptions (question : Question) (response : Msg) (options : DNSQueryOptions) : Msg * Z :=
  let strategy := qo_Strategy options in
  let response1 :=
    if (q_Qtype question =? TypeHTTPS) &&
       ((strategy =? DomainStrategyIPv4Only) || (strategy =? DomainStrategyIPv6Only))
    then set_Answer response (map (filter_hints strategy) (msg_Answer response)) else response in
  let ttl1 := Z.max (computeTimeToLive response1) (c_minCacheTTL c) in
  let ttl2 := if 0 <? c_maxCacheTTL c then Z.min ttl1 (c_maxCacheTTL c) else ttl1 in
  let timeToLive := match qo_RewriteTTL options with Some ttl => ttl | None => ttl2 end in
  (normalizeTTL response1 timeToLive, timeToLive).
End client.

(** ** The cache *)

(** [freelru.Cache]: a bounded map from keys to values with a time of expiry.  Adding an
    entry may drop others; reading one may change which. *)
Class LRU (C : Type) : Type := {
  lru_peek : C -> dnsCacheKey -> option (nat * Z);
  lru_get : dnsCacheKey -> C -> C;
  lru_add : dnsCacheKey -> nat -> Z -> C -> C;
  lru_remove : dnsCacheKey -> C -> C;
  lru_purge : C -> C
}.

Class LRULaws (C : Type) `{LRU C} : Prop := {
  peek_get : forall k c k', lru_peek (lru_get k c) k' = lru_peek c k';
  peek_add : forall k v e c k' x, lru_peek (lru_add k v e c) k' = Some x ->
    (k' = k /\ x = (v, e)) \/ (k' <> k /\ lru_peek c k' = Some x);
  peek_remove : forall k c k', lru_peek (lru_remove k c) k' = if decide (k' = k) then None else lru_peek c k';
  peek_purge : forall c k, lru_peek (lru_purge c) k = None
}.

(** A [dnsMsg]: the stored message and its counters, shared by all who load it. *)
Record dnsMsg : Type := mkDnsMsg { dm_msg : Msg; dm_rotation : dnsRotation }.

Section cache.
Context {C : Type} `{LRU C}.
Context (c : Client).

(** The cache holds references to messages; [cs_cache] is absent without a cache. *)
Record CacheState : Type := mkCacheState {
  cs_cache : option C;
  cs_heap : gmap nat dnsMsg;
  cs_fresh : nat
}.

Definition storeCache (now : Z) (key : dnsCacheKey) (message : Msg) (timeToLive : Z) (st : CacheState) : CacheState :=
  if timeToLive =? 0 then st
  else
    match cs_cache st with
    | None => st
    | Some cache =>
        let expire := if c_disableExpire c then 0 else now + second * timeToLive in
        mkCacheState (Some (lru_add key (cs_fresh st) expire cache))
          (<[cs_fresh st := mkDnsMsg message (mkRotation 0 0)]> (cs_heap st)) (S (cs_fresh st))
    end.

(** [getRoundRobin]: a copy of the message, rotated if the client rotates. *)
Definition getRoundRobin (reference : nat) (st : CacheState) : option (Msg * CacheState) :=
  match cs_heap st !! reference with
  | None => None
  | Some cached =>
      if c_roundRobinCache c then
        let '(rotation, answer) := applyRoundRobin (dm_rotation cached) (msg_Answer (dm_msg cached)) in
        Some (set_Answer (dm_msg cached) answer,
              mkCacheState (cs_cache st) (<[reference := mkDnsMsg (dm_msg cached) rotation]> (cs_heap st)) (cs_fresh st))
      else Some (dm_msg cached, st)
  end.

Definition with_cache_state (st : CacheState) (cache : C) : CacheState :=
  mkCacheState (Some cache) (cs_heap st) (cs_fresh st).

(** [loadResponse] without a persistent cache: the response, its remaining time to live
    in seconds, and whether it is stale. *)
Definition loadResponse (now : Z) (key : dnsCacheKey) (st : CacheState) : option (Msg * Z * bool) * CacheState :=
  match cs_cache st with
  | None => (None, st)
  | Some cache =>
      let st1 := with_cache_state st (lru_get key cache) in
      match lru_peek cache key with
      | None => (None, st1)
      | Some (reference, expireAt) =>
          if c_disableExpire c then
            match getRoundRobin reference st1 with
            | None => (None, st1)
            | Some (response, st2) => (Some (response, 0, false), st2)
            end
          else if expireAt <? now then
            if (0 <? c_optimisticTimeout c) && (now <? expireAt + c_optimisticTimeout c) then
              match getRoundRobin reference st1 with
              | None => (None, st1)
              | Some (response, st2) => (Some (normalizeTTL response 1, 0, true), st2)
              end
            else (None, with_cache_state st1 (lru_remove key (lru_get key cache)))
          else
            let nowTTL := Z.max ((expireAt - now) `quot` second) 0 in
            match getRoundRobin reference st1 with
            | None => (None, st1)
            | Some (response, st2) => (Some (normalizeTTL response (wrap 32 nowTTL), nowTTL, false), st2)
            end
      end
  end.

Definition ClearCache (st : CacheState) : CacheState :=
  match cs_cache st with None => st | Some cache => with_cache_state st (lru_purge cache) end.
End cache.
Arguments CacheState : clear implicits.

(** ** Exchanges *)

Definition ErrResponseRejected : error := ENew "response rejected".
Definition ErrResponseRejectedCached : error := EExtend ErrResponseRejected "cached".

(** [dnsExchangeKey] *)
Definition exchangeKey : Type := (dnsCacheKey * Z)%type.

Record exchangeOperation : Type := mkOperation {
  op_message : Msg;
  op_question : Question;
  op_messageId : Z;
  op_options : DNSQueryOptions;
  op_responseChecker : option (Msg -> bool);
  op_disableCache : bool;
  op_cacheKey : dnsCacheKey;
  op_lock : option exchangeKey
}.

Inductive beginResult : Type :=
| BeginDone (r : result Msg)
| BeginWait
| BeginReady (operation : exchangeOperation).

(** The cache, the keys of [cacheLock], and the keys of [backgroundRefresh]. *)
Record ExchangeState (C : Type) : Type := mkExchangeState {
  es_cache : CacheState C;
  es_lock : list exchangeKey;
  es_refresh : list dnsCacheKey
}.
Arguments mkExchangeState {C}.
Arguments es_cache {C}.
Arguments es_lock {C}.
Arguments es_refresh {C}.

Definition isSimpleRequest (message : Msg) : bool :=
  (length (msg_Question message) =? 1)%nat && isnil (msg_Ns message) &&
  match msg_Extra message with
  | [] => true
  | [record] =>
      (rr_type record =? TypeOPT) && (0 <? hdr_Class (rr_Hdr record)) && (rr_ttl record =? 0) &&
      match rr_Data record with RR_OPT options => forallb (fun o => edns0_Option o =? EDNS0SUBNET) options | _ => false end
  | _ => false
  end.

Section exchange.
Context {C : Type} `{LRU C}.
Context (c : Client) (NetworkEnvironment : option Z).
(** The store of rejected responses, when there is one. *)
Context (LoadRDRC : option (string -> string -> Z -> bool)).
(** miekg/dns: the OPT record of a message, and replacing it. *)
Context (IsEdns0 : Msg -> option RR) (SetEdns0 : Msg -> Z -> bool -> Msg).
Implicit Types (st : ExchangeState C).

Definition set_cache st (cache : CacheState C) : ExchangeState C := mkExchangeState cache (es_lock st) (es_refresh st).

Definition acquire st (k : exchangeKey) : ExchangeState C := mkExchangeState (es_cache st) (k :: es_lock st) (es_refresh st).

Definition release st (lock : option exchangeKey) : ExchangeState C :=
  match lock with
  | None => st
  | Some k => mkExchangeState (es_cache st) (List.filter (fun k' => negb (bool_decide (k' = k))) (es_lock st)) (es_refresh st)
  end.

(** [backgroundRefreshDNS] runs one refresh per key. *)
Definition start_refresh st (key : dnsCacheKey) : ExchangeState C :=
  if bool_decide (key ∈ es_refresh st) then st
  else mkExchangeState (es_cache st) (es_lock st) (key :: es_refresh st).

(** What follows the cache: loops between transports, and rejections on record. *)
Definition begin_transport (contextTransport : option string) (transport : ClientTransport)
    (operation : exchangeOperation) st : beginResult * ExchangeState C :=
  if bool_decide (contextTransport = Some (ct_Tag transport))
  then (BeginDone (Err (ENew ("DNS query loopback in transport[" +:+ ct_Tag transport +:+ "]"))), release st (op_lock operation))
  else
    match LoadRDRC with
    | Some load =>
        if negb (op_disableCache operation) && nonnone (op_responseChecker operation) &&
           load (ct_Tag transport) (q_Name (op_question operation)) (q_Qtype (op_question operation))
        then (BeginDone (Err ErrResponseRejectedCached), release st (op_lock operation))
        else (BeginReady operation, st)
    | None => (BeginReady operation, st)
    end.

(** [beginExchange]; where the code waits for the holder of the lock the result is
    [BeginWait], and it starts over. *)
Definition beginExchange (now : Z) (contextTransport : option string) (transport : ClientTransport) (message : Msg)
    (options : DNSQueryOptions) (responseChecker : option (Msg -> bool)) st : beginResult * ExchangeState C :=
  match msg_Question message with
  | [] => (BeginDone (Ok (FixedResponseStatus message RcodeFormatError)), st)
  | question :: _ =>
      if (q_Qtype question =? TypeA) && (qo_Strategy options =? DomainStrategyIPv6Only) ||
         (q_Qtype question =? TypeAAAA) && (qo_Strategy options =? DomainStrategyIPv4Only)
      then (BeginDone (Ok (FixedResponseStatus message RcodeSuccess)), st)
      else
        let simple := isSimpleRequest message in
        let message1 := prepareExchangeMessage c message options in
        let disableCache := negb simple || c_disableCache c || qo_DisableCache options in
        let cacheKey := newCacheKey c NetworkEnvironment transport question message1 options in
        let operation key lock :=
          mkOperation message1 question (msg_Id message1) options responseChecker disableCache key lock in
        if disableCache then begin_transport contextTransport transport (operation zero_key None) st
        else
          let k := (cacheKey, qo_Timeout options) in
          let loaded := bool_decide (k ∈ es_lock st) in
          let lock := if loaded then None else Some k in
          let st1 := if loaded then st else acquire st k in
          let '(response, cache') := loadResponse c now cacheKey (es_cache st1) in
          let st2 := set_cache st1 cache' in
          match response with
          | Some (response, _, isStale) =>
              if isStale && negb (qo_DisableOptimisticCache options)
              then (BeginDone (Ok (set_Id response (msg_Id message1))), release (start_refresh st2 cacheKey) lock)
              else if negb isStale
              then (BeginDone (Ok (set_Id response (msg_Id message1))), release st2 lock)
              else if loaded then (BeginWait, st2) else begin_transport contextTransport transport (operation cacheKey lock) st2
          | None => if loaded then (BeginWait, st2) else begin_transport contextTransport transport (operation cacheKey lock) st2
          end
  end.

Definition cacheable_rcode (rcode : Z) : bool := (rcode =? RcodeSuccess) || (rcode =? RcodeNameError).

(** The check of a response, when the rule limits addresses. *)
Definition rejected_response (responseChecker : option (Msg -> bool)) (response : Msg) : bool :=
  match responseChecker with
  | None => false
  | Some check => if negb (cacheable_rcode (msg_Rcode response)) then true else negb (check response)
  end.

(** The EDNS version of an OPT record, its UDP size and its DO bit. *)
Definition opt_Version (rr : RR) : Z := Z.land (Z.shiftr (rr_ttl rr) 16) 255.
Definition opt_UDPSize (rr : RR) : Z := hdr_Class (rr_Hdr rr).
Definition opt_Do (rr : RR) : bool := Z.testbit (rr_ttl rr) 15.

Definition match_edns (request response : Msg) : Msg :=
  match IsEdns0 response with
  | None => response
  | Some responseOpt =>
      match IsEdns0 request with
      | None => set_Extra response (List.filter (fun rr => negb (rr_type rr =? TypeOPT)) (msg_Extra response))
      | Some requestOpt =>
          if opt_Version requestOpt <? opt_Version responseOpt
          then SetEdns0 (set_Extra response (List.filter (fun rr => negb (rr_type rr =? TypeOPT)) (msg_Extra response)))
                 (opt_UDPSize responseOpt) (opt_Do responseOpt)
          else response
      end
  end.

(** [finishExchange]: the result, the cache, and whether the rejection is recorded. *)
Definition finishExchange (now : Z) (transport : ClientTransport) (operation : exchangeOperation) (response : Msg) st
    : result Msg * bool * ExchangeState C :=
  let disableCache := op_disableCache operation || negb (cacheable_rcode (msg_Rcode response)) in
  if rejected_response (op_responseChecker operation) response
  then (Err ErrResponseRejected, negb disableCache && nonnone LoadRDRC, st)
  else
    let '(response1, timeToLive) := applyResponseOptions c (op_question operation) response (op_options operation) in
    let st1 :=
      if disableCache then st
      else match finishCacheKey NetworkEnvironment transport (op_cacheKey operation) with
           | None => st
           | Some key => set_cache st (storeCache c now key response1 timeToLive (es_cache st))
           end in
    (Ok (match_edns (op_message operation) (set_Id response1 (op_messageId operation))), false, st1).

Definition exchangeToTransport (transport : ClientTransport) (message : Msg) : result Msg :=
  match ct_Exchange transport message with
  | TransportResponse response => Ok (stripDNSPadding response)
  | TransportRcode rcode => Ok (FixedResponseStatus message rcode)
  | TransportError err => Err err
  end.

(** The refresh of a stale response, run in the background. *)
Definition refreshDNS (now : Z) (transport : ClientTransport) (key : dnsCacheKey) (message : Msg)
    (options : DNSQueryOptions) (responseChecker : option (Msg -> bool)) st : ExchangeState C :=
  let finished st := mkExchangeState (es_cache st) (es_lock st)
                       (List.filter (fun k => negb (bool_decide (k = key))) (es_refresh st)) in
  match exchangeToTransport transport message with
  | Err _ => finished st
  | Ok response =>
      if rejected_response responseChecker response || negb (cacheable_rcode (msg_Rcode response)) then finished st
      else
        match finishCacheKey NetworkEnvironment transport key with
        | None => finished st
        | Some storeKey =>
            let '(response1, timeToLive) := applyResponseOptions c (ck_Question key) response options in
            finished (set_cache st (storeCache c now storeKey response1 timeToLive (es_cache st)))
        end
  end.

Definition set_Timeout (o : DNSQueryOptions) (timeout : Z) : DNSQueryOptions :=
  mkQueryOptions (qo_Transport o) (qo_Strategy o) (qo_LookupStrategy o) (qo_DisableCache o)
    (qo_DisableOptimisticCache o) (qo_RewriteTTL o) timeout (qo_ClientSubnet o) (qo_RemoveClientSubnet o).

(** [Exchange], run to its end when no other exchange holds the lock; [None] otherwise.
    [now'] is the time when the transport answers. *)
Definition Exchange (now now' : Z) (contextTransport : option string) (transport : ClientTransport) (message : Msg)
    (options : DNSQueryOptions) (responseChecker : option (Msg -> bool)) st : option (result Msg * ExchangeState C) :=
  let options1 := if qo_Timeout options =? 0 then set_Timeout options (c_timeout c) else options in
  match beginExchange now contextTransport transport message options1 responseChecker st with
  | (BeginDone r, st1) => Some (r, st1)
  | (BeginWait, _) => None
  | (BeginReady operation, st1) =>
      match exchangeToTransport transport (op_message operation) with
      | Err err => Some (Err err, release st1 (op_lock operation))
      | Ok response =>
          let '(r, _, st2) := finishExchange now' transport operation response st1 in
          Some (r, release st2 (op_lock operation))
      end
  end.
End exchange.
