(* ===== verification/DnsCache.v ===== *)
(** * Properties of the DNS client

    What the cache gives back, what a cache key stands for, and how concurrent
    exchanges share the lock. *)

From stdpp Require Import base gmap strings list.
From Stdlib Require Import ZArith Lia.
From S2P Require Import Prelude Net GoStrings Metadata Codec RuleMatch RuleItems RuleOptions DnsMode DnsRecords DnsClient.

Open Scope Z_scope.

(** ** Cache keys *)

Lemma plain_prefix_valid p : plain_prefix p -> prefix_IsValid p = true.
Proof. unfold plain_prefix, prefix_IsValid. destruct (prefix_addr p); [done|..]; intros; apply Z.leb_le; lia. Qed.

(** The configured subnets are prefixes of addresses of their own family. *)
Definition plain_options (c : Client) (options : DNSQueryOptions) : Prop :=
  (prefix_IsValid (qo_ClientSubnet options) = true -> plain_prefix (qo_ClientSubnet options)) /\
  (prefix_IsValid (c_clientSubnet c) = true -> plain_prefix (c_clientSubnet c)).

Lemma effective_subnet_sent c message options : plain_options c options ->
  effective_subnet c (prepareExchangeMessage c message options) options =
  clientSubnetFromMessage (prepareExchangeMessage c message options).
Proof.
  intros [Ho Hc]. unfold effective_subnet, prepareExchangeMessage.
  destruct (qo_RemoveClientSubnet options); [by rewrite clientSubnet_removed|].
  destruct (prefix_IsValid (qo_ClientSubnet options)) eqn:Hv.
  - rewrite Hv, clientSubnet_set. by rewrite subnet_read_plain by auto.
  - destruct (prefix_IsValid (c_clientSubnet c)) eqn:Hvc; [|done].
    rewrite clientSubnet_set. by rewrite subnet_read_plain by auto.
Qed.

(** ** Times to live *)

Definition no_rewrite (options : DNSQueryOptions) : bool := isnone (qo_RewriteTTL options).

Lemma applyResponseOptions_bounds options0 question response options :
  let c := NewClient options0 in
  0 <= c_minCacheTTL options0 -> no_rewrite options = true ->
  c_minCacheTTL c <= (applyResponseOptions c question response options).2 /\
  (0 < c_maxCacheTTL c -> (applyResponseOptions c question response options).2 <= c_maxCacheTTL c).
Proof.
  intros c Hmin Hr. unfold applyResponseOptions. unfold no_rewrite in Hr. destruct (qo_RewriteTTL options); [done|]. cbn [snd].
  set (t := computeTimeToLive _). unfold c. cbn.
  destruct (Z.ltb_spec 0 (c_maxCacheTTL options0)), (Z.ltb_spec (c_maxCacheTTL options0) (c_minCacheTTL options0)); cbn;
    repeat match goal with |- context[?a <? ?b] => destruct (Z.ltb_spec a b) end; lia.
Qed.

Lemma applyResponseOptions_ttls c question response options :
  let '(response1, ttl) := applyResponseOptions c question response options in
  Forall (fun x => x = ttl) (ttls (all_records response1)).
Proof.
  unfold applyResponseOptions, all_records. cbn. unfold ttls. rewrite !List.filter_app, !map_app, !Forall_app.
  split_and!; apply normalize_ttls.
Qed.

Section cache.
Context {C : Type} `{LRU C} `{!LRULaws C}.
Context (c : Client).
Implicit Types (st : CacheState C).

(** ** The cache *)

(** What was stored, the latest entry first. *)
Definition cacheLog : Type := list (dnsCacheKey * (Msg * Z * Z)).

Fixpoint latest (log : cacheLog) (key : dnsCacheKey) : option (Msg * Z * Z) :=
  match log with
  | [] => None
  | (k, entry) :: rest => if decide (k = key) then Some entry else latest rest key
  end.

(** The states of the cache that its operations lead to.  Answers are as the library
    unpacks them; a time to live of zero is not stored. *)
Inductive cacheRun : CacheState C -> cacheLog -> Prop :=
| run_start cache : (forall k, lru_peek cache k = None) -> cacheRun (mkCacheState (Some cache) ∅ 0) []
| run_store st log now key message ttl : cacheRun st log -> Forall typed (msg_Answer message) -> ttl <> 0 ->
    cacheRun (storeCache c now key message ttl st) ((key, (message, ttl, now)) :: log)
| run_load st log now key : cacheRun st log -> cacheRun (loadResponse c now key st).2 log
| run_clear st log : cacheRun st log -> cacheRun (ClearCache st) [].

(** The cell of a reference holds a message, whatever its counters. *)
Definition holds st (reference : nat) (message : Msg) : Prop :=
  exists rotation, cs_heap st !! reference = Some (mkDnsMsg message rotation).

Definition cache_ok st (log : cacheLog) : Prop :=
  (forall r, is_Some (cs_heap st !! r) -> (r < cs_fresh st)%nat) /\
  forall cache k r e, cs_cache st = Some cache -> lru_peek cache k = Some (r, e) ->
    exists message ttl t, latest log k = Some (message, ttl, t) /\ Forall typed (msg_Answer message) /\ holds st r message /\
      (c_disableExpire c = false -> e = t + second * ttl).

Lemma getRoundRobin_ok st log r message : cache_ok st log -> holds st r message -> Forall typed (msg_Answer message) ->
  exists response st', getRoundRobin c r st = Some (response, st') /\ cache_ok st' log /\
    exists answer, answer ≡ₚ msg_Answer message /\ response = set_Answer message answer.
Proof.
  intros [Hf Hok] [rotation Hr] Ht. unfold getRoundRobin. rewrite Hr. cbn.
  destruct (c_roundRobinCache c).
  - pose proof (applyRoundRobin_spec rotation (msg_Answer message) Ht) as Hs.
    destruct (applyRoundRobin rotation (msg_Answer message)) as [rotation' answer]. destruct Hs as [Hp _].
    eexists _, _. split; [done|]. split; [|by exists answer]. split; cbn.
    + intros r' Hr'. apply Hf. destruct (decide (r' = r)) as [->|Hne]; [by rewrite Hr|].
      by rewrite lookup_insert_ne in Hr'.
    + intros cache k r' e Hc Hp'. destruct (Hok cache k r' e Hc Hp') as (m' & ttl & t & H1 & H2 & [rot H3] & H4).
      exists m', ttl, t. split_and!; [done|done| |done]. unfold holds. cbn. destruct (decide (r' = r)) as [->|Hne].
      * rewrite lookup_insert_eq. rewrite Hr in H3. injection H3 as -> _. by eexists.
      * rewrite lookup_insert_ne by done. by exists rot.
  - eexists _, _. split; [done|]. split; [done|]. exists (msg_Answer message). split; [done|]. by destruct message.
Qed.

Lemma cache_ok_shrink st log cache' :
  cache_ok st log ->
  (forall cache k x, cs_cache st = Some cache -> lru_peek cache' k = Some x -> lru_peek cache k = Some x) ->
  is_Some (cs_cache st) -> cache_ok (with_cache_state st cache') log.
Proof.
  intros [Hf Hok] Hs [cache Hc]. split; [done|]. cbn. intros ? k r e [= <-] Hp. by eapply Hok, Hs.
Qed.

Lemma cacheRun_ok st log : cacheRun st log -> cache_ok st log.
Proof.
  induction 1 as [cache He|st log now key message ttl _ [Hf Hok] Ht Hz|st log now key _ Hok|st log _ Hok].
  - split; [intros r [x Hx]; cbn in Hx; by rewrite lookup_empty in Hx|]. cbn. intros ? k r e [= <-] Hp. by rewrite He in Hp.
  - unfold storeCache. apply Z.eqb_neq in Hz. rewrite Hz. destruct (cs_cache st) as [cache|] eqn:Hc.
    + split; cbn.
      * intros r Hr. destruct (decide (r = cs_fresh st)) as [->|Hne]; [lia|]. rewrite lookup_insert_ne in Hr by done.
        specialize (Hf r Hr). lia.
      * intros ? k r e [= <-] Hp. apply peek_add in Hp as [[-> [= -> ->]]|[Hne Hp]].
        -- exists message, ttl, now. rewrite decide_True by done. split_and!; [done|done| |by intros ->].
           unfold holds. cbn. rewrite lookup_insert_eq. by eexists.
        -- destruct (Hok cache k r e eq_refl Hp) as (m' & ttl' & t & H1 & H2 & [rot H3] & H4). exists m', ttl', t.
           rewrite decide_False by done. split_and!; [done|done| |done]. exists rot. cbn. rewrite lookup_insert_ne; [done|].
           intros <-. specialize (Hf (cs_fresh st) ltac:(by rewrite H3)). lia.
    + split; [done|]. intros cache k r e Hc'. congruence.
  - unfold loadResponse. destruct (cs_cache st) as [cache|] eqn:Hc; [|done].
    assert (Hok1 : cache_ok (with_cache_state st (lru_get key cache)) log).
    { apply cache_ok_shrink; [done| |by rewrite Hc]. intros cache0 k x Hc0. rewrite Hc in Hc0. injection Hc0 as <-. by rewrite peek_get. }
    destruct (lru_peek cache key) as [[r e]|] eqn:Hp; [|done].
    destruct Hok as [_ Hok]. destruct (Hok cache key r e Hc Hp) as (m' & ttl & t & _ & H2 & H3 & _).
    destruct (getRoundRobin_ok (with_cache_state st (lru_get key cache)) log r m' Hok1 H3 H2) as (resp & st' & Hg & Hok' & _).
    destruct (c_disableExpire c); [by rewrite Hg|]. destruct (e <? now).
    + destruct (_ && _); [by rewrite Hg|]. cbn. apply cache_ok_shrink; [done| |done].
      intros cache0 k x Hc0. cbn in Hc0. injection Hc0 as <-. rewrite peek_remove. by destruct (decide (k = key)).
    + by rewrite Hg.
  - unfold ClearCache. destruct (cs_cache st) as [cache|] eqn:Hc.
    + destruct Hok as [Hf _]. split; [done|]. cbn. intros ? k r e [= <-]. by rewrite peek_purge.
    + destruct Hok as [Hf _]. split; [done|]. intros cache k r e Hc'. congruence.
Qed.

(** A response of the cache: the stored message with its answers permuted and the times
    to live rewritten. *)
Definition presents (message : Msg) (ttl : option Z) (response : Msg) : Prop :=
  exists answer, answer ≡ₚ msg_Answer message /\
    response = match ttl with Some ttl => normalizeTTL (set_Answer message answer) ttl | None => set_Answer message answer end.

Lemma load_fresh st log now key response ttl' stale st' :
  cacheRun st log -> c_disableExpire c = false ->
  loadResponse c now key st = (Some (response, ttl', stale), st') ->
  exists message ttl t, latest log key = Some (message, ttl, t) /\
    if stale
    then t + second * ttl < now < t + second * ttl + c_optimisticTimeout c /\ presents message (Some 1) response
    else now <= t + second * ttl /\ ttl' = (t + second * ttl - now) `quot` second /\
         presents message (Some (wrap 32 ttl')) response.
Proof.
  intros Hrun Hd. pose proof (cacheRun_ok st log Hrun) as Hok0. unfold loadResponse.
  destruct (cs_cache st) as [cache|] eqn:Hc; [|done].
  assert (Hok1 : cache_ok (with_cache_state st (lru_get key cache)) log).
  { apply cache_ok_shrink; [done| |by rewrite Hc]. intros cache0 k x Hc0. rewrite Hc in Hc0. injection Hc0 as <-. by rewrite peek_get. }
  destruct (lru_peek cache key) as [[r e]|] eqn:Hp; [|done]. destruct Hok0 as [_ Hok].
  destruct (Hok cache key r e Hc Hp) as (message & ttl & t & H1 & H2 & H3 & H4). specialize (H4 Hd). subst e.
  destruct (getRoundRobin_ok (with_cache_state st (lru_get key cache)) log r message Hok1 H3 H2)
    as (resp & st2 & Hg & _ & answer & Hpm & ->).
  rewrite Hd. intros Hl. exists message, ttl, t. split; [done|]. destruct (Z.ltb_spec (t + second * ttl) now) as [Hlt|Hge].
  - destruct (Z.ltb_spec 0 (c_optimisticTimeout c)), (Z.ltb_spec now (t + second * ttl + c_optimisticTimeout c));
      cbn in Hl; try done. rewrite Hg in Hl. injection Hl as <- <- <- _. split; [lia|]. by exists answer.
  - rewrite Hg in Hl. injection Hl as <- <- <- _. split; [lia|].
    assert (Hq : 0 <= (t + second * ttl - now) `quot` second) by (apply Z.quot_pos; [lia|done]).
    rewrite Z.max_l by done. split; [done|]. by exists answer.
Qed.
End cache.

(** ** The lock *)

Section lock.
Context {C : Type} `{LRU C}.
Context (c : Client) (NetworkEnvironment : option Z) (LoadRDRC : option (string -> string -> Z -> bool)).
Context (IsEdns0 : Msg -> option RR) (SetEdns0 : Msg -> Z -> bool -> Msg).
Implicit Types (st : ExchangeState C).

Lemma release_acquired st k : k ∉ es_lock st -> es_lock (release (acquire st k) (Some k)) = es_lock st.
Proof.
  intros Hk. cbn. rewrite bool_decide_eq_true_2 by done. cbn.
  induction (es_lock st) as [|x l IH]; cbn; [done|]. apply not_elem_of_cons in Hk as [Hx Hl].
  rewrite bool_decide_eq_false_2 by done. cbn. by rewrite IH.
Qed.

Lemma release_lock st st' lock : es_lock st = es_lock st' -> es_lock (release st lock) = es_lock (release st' lock).
Proof. intros He. destruct lock; cbn; by rewrite He. Qed.

Lemma start_refresh_lock st key : es_lock (start_refresh st key) = es_lock st.
Proof. unfold start_refresh. by destruct (bool_decide _). Qed.

(** What an operation holds. *)
Definition lock_ok (op : exchangeOperation) : Prop :=
  op_lock op = if op_disableCache op then None else Some (op_cacheKey op, qo_Timeout (op_options op)).

Definition begun st (res : beginResult) st' : Prop :=
  match res with
  | BeginReady op => lock_ok op /\
      match op_lock op with
      | None => es_lock st' = es_lock st
      | Some k => (k ∉ es_lock st) /\ es_lock st' = k :: es_lock st
      end
  | _ => es_lock st' = es_lock st
  end.

Lemma begin_transport_begun ctx transport op st st1 :
  lock_ok op ->
  match op_lock op with
  | None => es_lock st1 = es_lock st
  | Some k => (k ∉ es_lock st) /\ es_lock st1 = k :: es_lock st
  end ->
  let '(res, st') := begin_transport LoadRDRC ctx transport op st1 in begun st res st'.
Proof.
  intros Hok Hl. unfold begin_transport.
  assert (Hrel : es_lock (release st1 (op_lock op)) = es_lock st).
  { destruct (op_lock op) as [k|]; [|done]. destruct Hl as [Hk Hl].
    rewrite (release_lock st1 (acquire st k)) by done. by apply release_acquired. }
  destruct (bool_decide _); [exact Hrel|]. destruct LoadRDRC as [load|]; [|by split].
  destruct (_ && load _ _ _); [exact Hrel|by split].
Qed.

Lemma beginExchange_begun now ctx transport message options checker st :
  let '(res, st') := beginExchange c NetworkEnvironment LoadRDRC now ctx transport message options checker st in
  begun st res st'.
Proof.
  unfold beginExchange. destruct (msg_Question message) as [|question qs]; [done|].
  destruct (_ || _); [done|]. cbn zeta.
  destruct (negb (isSimpleRequest message) || c_disableCache c || qo_DisableCache options) eqn:Hd.
  { by apply begin_transport_begun. }
  set (key := newCacheKey _ _ _ _ _ _). set (k := (key, qo_Timeout options)).
  case_bool_decide as Hin.
  - destruct (loadResponse _ _ _ _) as [[[[response ttl] stale]|] cache']; [|done].
    destruct (stale && negb _); [cbn; by rewrite start_refresh_lock|]. by destruct stale.
  - destruct (loadResponse _ _ _ _) as [response cache'].
    set (st2 := set_cache (acquire st k) cache').
    assert (Hl2 : es_lock st2 = k :: es_lock st) by done.
    assert (Hdone : forall st3, es_lock st3 = k :: es_lock st -> es_lock (release st3 (Some k)) = es_lock st).
    { intros st3 H3. rewrite (release_lock st3 (acquire st k)) by done. by apply release_acquired. }
    destruct response as [[[response ttl] stale]|]; [|by apply begin_transport_begun].
    destruct (stale && negb _); [apply Hdone; by rewrite start_refresh_lock|].
    destruct stale; cbn [negb]; [by apply begin_transport_begun|by apply Hdone].
Qed.

Lemma finish_lock now transport op response st :
  es_lock (finishExchange c NetworkEnvironment LoadRDRC IsEdns0 SetEdns0 now transport op response st).2 = es_lock st.
Proof.
  unfold finishExchange. destruct (rejected_response _ _); [done|]. destruct (applyResponseOptions _ _ _ _). cbn.
  destruct (_ || _); [done|]. by destruct (finishCacheKey _ _ _).
Qed.

Lemma refresh_lock now transport key message options checker st :
  es_lock (refreshDNS c NetworkEnvironment now transport key message options checker st) = es_lock st.
Proof.
  unfold refreshDNS. destruct (exchangeToTransport _ _); [|done]. destruct (_ || _); [done|].
  destruct (finishCacheKey _ _ _); [|done]. by destruct (applyResponseOptions _ _ _ _).
Qed.

(** ** Concurrent exchanges *)

Record System : Type := mkSystem { sys_state : ExchangeState C; sys_running : list exchangeOperation }.

Inductive clientStep : System -> System -> Prop :=
| step_begin s now ctx transport message options checker res st' :
    beginExchange c NetworkEnvironment LoadRDRC now ctx transport message options checker (sys_state s) = (res, st') ->
    clientStep s (mkSystem st' (match res with BeginReady op => op :: sys_running s | _ => sys_running s end))
| step_finish s now transport op before after response :
    sys_running s = before ++ op :: after ->
    clientStep s (mkSystem (release
      (finishExchange c NetworkEnvironment LoadRDRC IsEdns0 SetEdns0 now transport op response (sys_state s)).2
      (op_lock op)) (before ++ after))
| step_fail s op before after :
    sys_running s = before ++ op :: after ->
    clientStep s (mkSystem (release (sys_state s) (op_lock op)) (before ++ after))
| step_refresh s now transport key message options checker :
    clientStep s (mkSystem (refreshDNS c NetworkEnvironment now transport key message options checker (sys_state s))
      (sys_running s)).

Definition lock_invariant (s : System) : Prop :=
  NoDup (es_lock (sys_state s)) /\ es_lock (sys_state s) ≡ₚ omap op_lock (sys_running s) /\ Forall lock_ok (sys_running s).

Lemma filter_other k (l : list exchangeKey) : k ∉ l -> List.filter (fun k' => negb (bool_decide (k' = k))) l = l.
Proof.
  induction l as [|x l IH]; cbn; [done|]. intros [Hx Hl]%not_elem_of_cons.
  rewrite bool_decide_eq_false_2 by done. cbn. by rewrite IH.
Qed.

Lemma release_running st op (before after : list exchangeOperation) :
  NoDup (es_lock st) -> es_lock st ≡ₚ omap op_lock (before ++ op :: after) ->
  NoDup (es_lock (release st (op_lock op))) /\ es_lock (release st (op_lock op)) ≡ₚ omap op_lock (before ++ after).
Proof.
  intros Hnd Hp. rewrite omap_app in Hp. cbn in Hp. rewrite omap_app. destruct (op_lock op) as [k|]; cbn; [|done].
  rewrite <- Permutation_middle in Hp. pose proof Hnd as Hnd'. rewrite Hp in Hnd'. apply NoDup_cons in Hnd' as [Hk Hnd'].
  assert (Hf : List.filter (fun k' => negb (bool_decide (k' = k))) (es_lock st) ≡ₚ omap op_lock before ++ omap op_lock after).
  { rewrite (filter_perm _ _ _ Hp). cbn. rewrite bool_decide_eq_true_2 by done. cbn. by rewrite filter_other. }
  split; [|done]. by rewrite Hf.
Qed.

Lemma lock_invariant_step s s' : lock_invariant s -> clientStep s s' -> lock_invariant s'.
Proof.
  intros (Hnd & Hp & Hok) Hs. destruct Hs as [s now ctx transport message options checker res st' Hb
    |s now transport op before after response Hr|s op before after Hr|s now transport key message options checker].
  - pose proof (beginExchange_begun now ctx transport message options checker (sys_state s)) as Hbeg. rewrite Hb in Hbeg.
    destruct res as [r| |op]; cbn in Hbeg; unfold lock_invariant; cbn; [by rewrite Hbeg..|].
    destruct Hbeg as [Hlo Hl]. destruct (op_lock op) as [k|] eqn:Hk.
    + destruct Hl as [Hnin ->]. split_and!; [by apply NoDup_cons|by rewrite Hp|by constructor].
    + rewrite Hl. split_and!; [done|done|by constructor].
  - rewrite Hr in Hp, Hok. apply Forall_app in Hok as [H1 [_ H2]%Forall_cons].
    rewrite <- (finish_lock now transport op response) in Hnd, Hp.
    destruct (release_running _ op before after Hnd Hp) as [H3 H4]. split_and!; [done|done|by apply Forall_app].
  - rewrite Hr in Hp, Hok. apply Forall_app in Hok as [H1 [_ H2]%Forall_cons].
    destruct (release_running _ op before after Hnd Hp) as [H3 H4]. split_and!; [done|done|by apply Forall_app].
  - unfold lock_invariant. cbn. by rewrite refresh_lock.
Qed.

Lemma lock_invariant_reachable s s' : lock_invariant s -> rtc clientStep s s' -> lock_invariant s'.
Proof. intros Hi Hr. induction Hr as [|s1 s2 s3 H12 _ IH]; [done|]. apply IH. by eapply lock_invariant_step. Qed.
End lock.

(** ** What is asked *)

Section ready.
Context {C : Type} `{LRU C}.
Context (c : Client) (NetworkEnvironment : option Z) (LoadRDRC : option (string -> string -> Z -> bool)).

Lemma begin_transport_ready ctx transport op (st : ExchangeState C) op' st' :
  begin_transport LoadRDRC ctx transport op st = (BeginReady op', st') -> op' = op.
Proof.
  unfold begin_transport. destruct (bool_decide _); [done|]. destruct LoadRDRC as [load|]; [|by intros [= -> _]].
  destruct (_ && load _ _ _); [done|by intros [= -> _]].
Qed.

Lemma beginExchange_ready now ctx transport message options checker (st : ExchangeState C) op st' :
  beginExchange c NetworkEnvironment LoadRDRC now ctx transport message options checker st = (BeginReady op, st') ->
  op_message op = prepareExchangeMessage c message options /\ op_options op = options /\
  (op_disableCache op = false ->
   op_cacheKey op = newCacheKey c NetworkEnvironment transport (op_question op) (op_message op) options).
Proof.
  unfold beginExchange. destruct (msg_Question message) as [|question qs]; [done|]. destruct (_ || _); [done|]. cbn zeta.
  destruct (_ || _ || _); [by intros ->%begin_transport_ready|].
  destruct (loadResponse _ _ _ _) as [[[[response ttl] stale]|] cache'].
  - destruct (stale && _); [done|]. destruct (negb stale); [done|].
    destruct (bool_decide _); [done|by intros ->%begin_transport_ready].
  - destruct (bool_decide _); [done|by intros ->%begin_transport_ready].
Qed.
End ready.
