(* ===== verification/DnsLegacy.v ===== *)
(** * The legacy mode of the DNS router

    [matchDNS] and [exchangeLegacy] of [src/dns/router.go]: rules are matched before a
    response is there, and a response the rule does not accept sends the query to the
    next rule.  The DNS client is an interface here; [DnsClient.v] implements it. *)

From stdpp Require Import base gmap strings list.
From Stdlib Require Import ZArith Lia.
From S2P Require Import Prelude Net GoStrings Metadata RuleMatch RuleSpec RuleDefer RuleItems RuleOptions RuleBuild.
From S2P Require Import RuleBuilt RuleStarted DnsMode DnsWalk DnsScope DnsBuild DnsStarted DnsRecords DnsClient.

Open Scope Z_scope.

Definition isAddressQuery (message : Msg) : bool :=
  existsb (fun question => (q_Qtype question =? TypeA) || (q_Qtype question =? TypeAAAA) || (q_Qtype question =? TypeHTTPS))
    (msg_Question message).

(** The options of a route action in the legacy mode. *)
Definition legacy_options (disableCache : bool) (r : RuleActionDNSRouteOptions) (o : DNSQueryOptions) : DNSQueryOptions :=
  let subnet := if prefix_IsValid (ao_ClientSubnet r) then ao_ClientSubnet r else qo_ClientSubnet o in
  let remove := if prefix_IsValid (ao_ClientSubnet r) then false else qo_RemoveClientSubnet o in
  mkQueryOptions (qo_Transport o) (if negb (ao_Strategy r =? 0) then ao_Strategy r else qo_Strategy o) (qo_LookupStrategy o)
    (disableCache || qo_DisableCache o) (qo_DisableOptimisticCache o)
    (match ao_RewriteTTL r with Some ttl => Some ttl | None => qo_RewriteTTL o end)
    (if 0 <? ao_Timeout r then ao_Timeout r else qo_Timeout o)
    (if ao_RemoveClientSubnet r then zero_prefix else subnet)
    (if ao_RemoveClientSubnet r then true else remove).

(** What [matchDNS] returns: the server, the rule with its index, and the options. *)
Record legacyMatch : Type := mkLegacyMatch {
  lm_transport : option DNSTransport;
  lm_rule : option (nat * RuntimeRule);
  lm_options : DNSQueryOptions
}.

(** [errors.Is] follows the causes of an error. *)
Fixpoint errors_Is (e target : error) : bool :=
  bool_decide (e = target) ||
  match e with
  | ECause cause _ | EExtend cause _ => errors_Is cause target
  | ECauseError cause context => errors_Is cause target || errors_Is context target
  | _ => false
  end.

(** [ErrResponseRejectedCached] extends [ErrResponseRejected]. *)
Definition is_rejected (e : error) : bool := errors_Is e ErrResponseRejectedCached || errors_Is e ErrResponseRejected.

Section legacy.
Context `{Env}.
Context (transport_Default : DNSTransport) (defaultRejectRcode defaultDomainStrategy : Z).
Context (followPredefinedCNAME : Msg -> DNSQueryOptions -> Msg).
(** [adapter.DNSClient.Exchange] *)
Context (client_Exchange : DNSTransport -> Msg -> DNSQueryOptions -> option (Msg -> bool) -> result Msg).
Implicit Types (m : InboundContext) (options : DNSQueryOptions).

(** The metadata before a rule is matched. *)
Definition legacy_reset m : InboundContext := set_response (ResetRuleCache m) (ic_DNSResponse m) false.

(** The loop of [matchDNS] from rule [i] on, the first of [rules]. *)
Fixpoint matchDNS (allowFakeIP isAddressQuery : bool) (rules : list RuntimeRule) (i : nat) options m {struct rules}
    : legacyMatch * InboundContext :=
  match rules with
  | [] => (mkLegacyMatch (Some transport_Default) None options, m)
  | rule :: rest =>
      if rt_disabled rule || WithAddressLimit (rt_rule rule) && negb isAddressQuery
      then matchDNS allowFakeIP isAddressQuery rest (S i) options m
      else
        let '(matched, m1) := LegacyPreMatch (rt_rule rule) (legacy_reset m) in
        if negb matched then matchDNS allowFakeIP isAddressQuery rest (S i) options m1
        else
          match rt_action rule with
          | Some (ActionDNSRoute server _ r) =>
              match Transport server with
              | None => matchDNS allowFakeIP isAddressQuery rest (S i) options m1
              | Some transport =>
                  if is_fakeip transport && negb allowFakeIP
                  then matchDNS allowFakeIP isAddressQuery rest (S i) options m1
                  else (mkLegacyMatch (Some transport) (Some (i, rule))
                          (legacy_options (is_fakeip transport || ao_DisableCache r) r options), m1)
              end
          | Some (ActionDNSRouteOptions r) =>
              matchDNS allowFakeIP isAddressQuery rest (S i) (legacy_options (ao_DisableCache r) r options) m1
          | Some (ActionReject _ _ _) | Some (ActionPredefined _ _ _ _) =>
              (mkLegacyMatch None (Some (i, rule)) options, m1)
          | _ => matchDNS allowFakeIP isAddressQuery rest (S i) options m1
          end
  end.

Definition addressLimitResponseCheck (rule : option (nat * RuntimeRule)) m : option (Msg -> bool) :=
  match rule with
  | None => None
  | Some (_, rule) =>
      if WithAddressLimit (rt_rule rule) then Some (fun response => MatchAddressLimit (rt_rule rule) m response) else None
  end.

(** A rule that answers without a server. *)
Definition legacy_answer (message : Msg) (rule : option (nat * RuntimeRule)) options : option (result Msg) :=
  match rule with
  | None => None
  | Some (_, rule) =>
      match rt_action rule with
      | Some (ActionReject rcode method _) =>
          if bool_decide (method = "default"%string) then Some (Ok (dnsRejectResponse message rcode defaultRejectRcode))
          else if bool_decide (method = "drop"%string) then Some (Err ErrDrop) else None
      | Some (ActionPredefined rcode answer ns extra) =>
          match RuleActionPredefined_Response rcode answer ns extra message with
          | Some response => Some (Ok (followPredefinedCNAME response options))
          | None => Some (Err (EPanic "index out of range"))
          end
      | _ => None
      end
  end.

(** One round of the loop of [exchangeLegacy]; [next] is the round after a rejected
    response. *)
Definition legacy_round (next : nat -> InboundContext -> option (result Msg * option DNSTransport)) (message : Msg)
    (matched : legacyMatch * InboundContext) : option (result Msg * option DNSTransport) :=
  let '(found, m) := matched in
  match legacy_answer message (lm_rule found) (lm_options found) with
  | Some r => Some (r, None)
  | None =>
      match lm_transport found with
      | None => Some (Err (EPanic "nil transport"), None)
      | Some transport =>
          let responseCheck := addressLimitResponseCheck (lm_rule found) m in
          match client_Exchange transport message (finalizeExchangeOptions defaultDomainStrategy (lm_options found))
                  responseCheck with
          | Err err =>
              match lm_rule found with
              | Some (i, _) => if nonnone responseCheck && is_rejected err then next (S i) m else Some (Err err, Some transport)
              | None => Some (Err err, Some transport)
              end
          | Ok response => Some (Ok response, Some transport)
          end
      end
  end.

(** [exchangeLegacy] from rule [start] on; every round starts after the rule of the one
    before. *)
Fixpoint exchangeLegacy (fuel : nat) (rules : list RuntimeRule) (message : Msg) options (start : nat) m {struct fuel}
    : option (result Msg * option DNSTransport) :=
  match fuel with
  | O => None
  | S fuel' =>
      legacy_round (exchangeLegacy fuel' rules message options) message
        (matchDNS true (isAddressQuery message) (drop start rules) start options m)
  end.

(** ** Every round ends at a later rule *)

Lemma matchDNS_index allowFakeIP addr rules i options m :
  match lm_rule (matchDNS allowFakeIP addr rules i options m).1 with
  | Some (j, rule) => (i <= j)%nat /\ rules !! (j - i)%nat = Some rule
  | None => True
  end.
Proof.
  revert i options m. induction rules as [|rule rules IH]; intros i options m; cbn; [done|].
  assert (Hnext : forall options' m', match lm_rule (matchDNS allowFakeIP addr rules (S i) options' m').1 with
    | Some (j, rule') => (i <= j)%nat /\ (rule :: rules) !! (j - i)%nat = Some rule'
    | None => True
    end).
  { intros options' m'. specialize (IH (S i) options' m'). destruct (lm_rule _) as [[j rule']|]; [|done].
    destruct IH as [Hj Hl]. split; [lia|]. by replace (j - i)%nat with (S (j - S i)) by lia. }
  assert (Hhere : (i <= i)%nat /\ (rule :: rules) !! (i - i)%nat = Some rule) by (by rewrite Nat.sub_diag).
  destruct (rt_disabled rule || _); [apply Hnext|].
  destruct (LegacyPreMatch _ _) as [[] m1]; cbn; [|apply Hnext].
  destruct (rt_action rule) as [[]|]; try apply Hnext; try exact Hhere.
  destruct (Transport _); [|apply Hnext]. destruct (is_fakeip _ && _); [apply Hnext|exact Hhere].
Qed.

Lemma exchangeLegacy_returns fuel rules message options start m :
  (length rules - start < fuel)%nat -> exists r, exchangeLegacy fuel rules message options start m = Some r.
Proof.
  revert start m. induction fuel as [|fuel IH]; intros start m Hf; [lia|]. cbn.
  pose proof (matchDNS_index true (isAddressQuery message) (drop start rules) start options m) as Hi.
  destruct (matchDNS _ _ _ _ _ _) as [found m1]. unfold legacy_round. cbn in Hi.
  destruct (legacy_answer _ _ _); [by eexists|]. destruct (lm_transport found); [|by eexists].
  destruct (client_Exchange _ _ _ _); [by eexists|]. destruct (lm_rule found) as [[j rule]|]; [|by eexists].
  destruct (_ && _); [|by eexists]. destruct Hi as [Hj Hl]. apply IH.
  apply lookup_lt_Some in Hl. rewrite length_drop in Hl. lia.
Qed.
End legacy.

(** ** The first rule whose server gives an acceptable answer *)

(** What the router relies on: the client asks the server once, and a response its
    check refuses is an error; for one query, under the strategies that admit it. *)
Class CheckedClient (message : Msg) (admits : Z -> Prop)
    (client_Exchange : DNSTransport -> Msg -> DNSQueryOptions -> option (Msg -> bool) -> result Msg) : Type := {
  cl_answer : DNSTransport -> DNSQueryOptions -> result Msg;
  cl_present : DNSTransport -> DNSQueryOptions -> Msg -> Msg;
  cl_exchange : forall transport options check, admits (qo_Strategy options) ->
    client_Exchange transport message options check =
      try response <- cl_answer transport options;
      if rejected_response check response then Err ErrResponseRejected else Ok (cl_present transport options response);
  cl_error : forall transport options e, cl_answer transport options = Err e -> is_rejected e = false
}.

Section first.
Context `{Env}.
Context (transport_Default : DNSTransport) (defaultRejectRcode defaultDomainStrategy : Z).
Context (followPredefinedCNAME : Msg -> DNSQueryOptions -> Msg).
Context (message : Msg) (client_Exchange : DNSTransport -> Msg -> DNSQueryOptions -> option (Msg -> bool) -> result Msg).
Context (admits : Z -> Prop) `{!CheckedClient message admits client_Exchange}.
Implicit Types (m : InboundContext) (options : DNSQueryOptions).

#[local] Abbreviation finalize := (finalizeExchangeOptions defaultDomainStrategy).

Definition pre_match (rule : RuntimeRule) m : bool := (LegacyPreMatch (rt_rule rule) (legacy_reset m)).1.

(** Whether the rule, matched with the response of its own server, accepts it. *)
Definition accepts (rule : RuntimeRule) m (response : Msg) : bool :=
  MatchAddressLimit (rt_rule rule) m response &&
  (negb (WithAddressLimit (rt_rule rule)) || cacheable_rcode (msg_Rcode response)).

Definition ask (transport : DNSTransport) options : result Msg * option DNSTransport :=
  (try response <- cl_answer transport (finalize options); Ok (cl_present transport (finalize options) response),
   Some transport).

(** The rules in order, each routed query asked and matched with its response. *)
Fixpoint firstMatch (rules : list RuntimeRule) options m : result Msg * option DNSTransport :=
  match rules with
  | [] => ask transport_Default options
  | rule :: rest =>
      if rt_disabled rule || WithAddressLimit (rt_rule rule) && negb (isAddressQuery message)
      then firstMatch rest options m
      else
        match rt_action rule with
        | Some (ActionDNSRoute server _ r) =>
            match Transport server with
            | None => firstMatch rest options m
            | Some transport =>
                let options' := legacy_options (is_fakeip transport || ao_DisableCache r) r options in
                match cl_answer transport (finalize options') with
                | Ok response => if accepts rule m response then ask transport options' else firstMatch rest options m
                | Err _ => if pre_match rule m then ask transport options' else firstMatch rest options m
                end
            end
        | Some (ActionReject _ _ _) | Some (ActionPredefined _ _ _ _) =>
            match legacy_answer defaultRejectRcode followPredefinedCNAME message (Some (0%nat, rule)) options with
            | Some r => if pre_match rule m then (r, None) else firstMatch rest options m
            | None => firstMatch rest options m
            end
        | _ => firstMatch rest options m
        end
  end.

(** ** Conditions *)

(** A rule that pre-matching does not misjudge. *)
Definition prematch_ok (rule : RuntimeRule) : Prop :=
  deferrable false (rt_rule rule) = true /\ (forall resp, stable_rule resp false (rt_rule rule)) /\
  (WithAddressLimit (rt_rule rule) = false -> no_dest_cidr false (rt_rule rule) = true).

(** An action that is not about options alone, with a strategy that admits the query
    and a known method. *)
Definition action_ok (rule : RuntimeRule) : Prop :=
  match rt_action rule with
  | Some (ActionDNSRoute _ _ r) => ao_Strategy r = 0 \/ admits (ao_Strategy r)
  | Some (ActionDNSRouteOptions _) => False
  | Some (ActionReject _ method _) => method = "default"%string \/ method = "drop"%string
  | _ => True
  end.

(** Metadata that no rule tells apart. *)
Definition alike m m' : Prop := legacy_reset m = legacy_reset m'.

Lemma alike_ignore m m' : alike m m' -> IgnoreDestinationIPCIDRMatch m = IgnoreDestinationIPCIDRMatch m'.
Proof. intros Hm. exact (f_equal IgnoreDestinationIPCIDRMatch Hm). Qed.

Lemma prematch_alike rule m : IgnoreDestinationIPCIDRMatch m = false -> prematch_ok rule ->
  alike (LegacyPreMatch (rt_rule rule) (legacy_reset m)).2 m.
Proof.
  intros Hi (Hd & _). rewrite LegacyPreMatch_Match by done. cbn [snd].
  destruct (Match_same (rt_rule rule) (set_IgnoreDestinationIPCIDRMatch (legacy_reset m) true)) as [Hv _].
  apply item_view_fields in Hv as (Hc & Hr & Hn & _). revert Hc Hr Hn.
  destruct (Match _ _).2, m as [conn resp named from []]; cbn in *. intros -> -> ->. cbn in Hi.
  unfold alike, legacy_reset, ResetRuleCache, ResetRuleMatchCache. cbn. by rewrite Hi.
Qed.

Lemma MatchAddressLimit_alike rule m m' response : alike m m' ->
  MatchAddressLimit (rt_rule rule) m response = MatchAddressLimit (rt_rule rule) m' response.
Proof.
  intros Hr. unfold MatchAddressLimit. apply (f_equal (fun x => set_response x (Some response) true)) in Hr.
  change (set_response (ResetRuleCache m) (Some response) true =
          set_response (ResetRuleCache m') (Some response) true) in Hr. by rewrite Hr.
Qed.

(** Pre-matching and the check of the response together decide as matching does. *)
Lemma prematch_final rule m response : prematch_ok rule -> IgnoreDestinationIPCIDRMatch m = false ->
  (pre_match rule m = false -> MatchAddressLimit (rt_rule rule) m response = false) /\
  (WithAddressLimit (rt_rule rule) = false -> pre_match rule m = MatchAddressLimit (rt_rule rule) m response).
Proof.
  intros (Hd & Hst & Hn) Hi. unfold pre_match. set (m0 := set_response m (ic_DNSResponse m) false).
  assert (Hm : MatchAddressLimit (rt_rule rule) m response = MatchAddressLimit (rt_rule rule) m0 response) by done.
  rewrite Hm. change (legacy_reset m) with (ResetRuleCache m0).
  destruct (LegacyPreMatch_outcome (rt_rule rule) m0 response Hd (Hst response) Hi) as [(_ & Hf & Ht) Hz].
  split; [done|]. intros Hw. specialize (Hz (Hn Hw)).
  destruct (LegacyPreMatch (rt_rule rule) (ResetRuleCache m0)).1; symmetry; auto.
Qed.
(** The strategies the query is asked with. *)
Definition options_ok options : Prop := admits (qo_Strategy (finalize options)).

Lemma legacy_options_ok disable r options : options_ok options -> ao_Strategy r = 0 \/ admits (ao_Strategy r) ->
  options_ok (legacy_options disable r options).
Proof.
  unfold options_ok, finalizeExchangeOptions, legacy_options. cbn. intros Ho Hr.
  destruct (Z.eqb_spec (ao_Strategy r) 0) as [Hz|Hz]; cbn; [by destruct (qo_Strategy options =? 0)|].
  rewrite (proj2 (Z.eqb_neq _ _) Hz). cbn. destruct Hr; [lia|done].
Qed.

#[local] Abbreviation legacyRound := (legacy_round defaultRejectRcode defaultDomainStrategy followPredefinedCNAME client_Exchange).

(** A round that found rule [i] for a server. *)
Lemma legacy_round_route next rule i transport server ru r options m m0 :
  rt_action rule = Some (ActionDNSRoute server ru r) -> options_ok options -> alike m m0 ->
  prematch_ok rule -> IgnoreDestinationIPCIDRMatch m0 = false -> pre_match rule m0 = true ->
  legacyRound next message (mkLegacyMatch (Some transport) (Some (i, rule)) options, m) =
  match cl_answer transport (finalize options) with
  | Ok response => if accepts rule m0 response then Some (ask transport options) else next (S i) m
  | Err _ => Some (ask transport options)
  end.
Proof.
  intros Ha Ho Hm Hok Hi Hp. unfold legacy_round. cbn. rewrite Ha. rewrite cl_exchange by exact Ho.
  unfold ask, accepts. destruct (cl_answer transport (finalize options)) as [response|e] eqn:Ec; cbn.
  - destruct (prematch_final rule m0 response Hok Hi) as [_ Hf].
    destruct (WithAddressLimit (rt_rule rule)); cbn; [|by rewrite <- Hf, Hp].
    rewrite (MatchAddressLimit_alike rule m m0 response Hm).
    destruct (cacheable_rcode _), (MatchAddressLimit _ _ _); done.
  - rewrite (cl_error _ _ _ Ec). by destruct (nonnone _).
Qed.

(** Every round of the loop asks as the first-match reading says. *)
Lemma legacy_round_first next rules i options m m0 :
  Forall prematch_ok rules -> Forall action_ok rules -> options_ok options ->
  IgnoreDestinationIPCIDRMatch m0 = false -> alike m m0 ->
  (forall j m', (j < length rules)%nat -> alike m' m0 -> next (S (i + j)) m' = Some (firstMatch (drop (S j) rules) options m0)) ->
  legacyRound next message (matchDNS transport_Default true (isAddressQuery message) rules i options m) =
  Some (firstMatch rules options m0).
Proof.
  intros Hp Ha Ho Hi. revert i m. induction rules as [|rule rules IH]; intros i m Hm Hnext; cbn [matchDNS firstMatch].
  { unfold legacy_round. cbn. rewrite cl_exchange by exact Ho. unfold ask. by destruct (cl_answer _ _). }
  inversion_clear Hp as [|?? Hpr Hps]; inversion_clear Ha as [|?? Har Has].
  assert (Hskip : forall m', alike m' m0 ->
    legacyRound next message (matchDNS transport_Default true (isAddressQuery message) rules (S i) options m') =
    Some (firstMatch rules options m0)).
  { intros m' Hm'. apply IH; [done..|]. intros j m'' Hj Hm''.
    replace (S i + j)%nat with (i + S j)%nat by lia. apply (Hnext (S j) m''); [cbn; lia|done]. }
  destruct (rt_disabled rule || _); [by apply Hskip|].
  assert (Hme : alike (LegacyPreMatch (rt_rule rule) (legacy_reset m)).2 m0)
    by (red; rewrite <- Hm; apply prematch_alike; [by rewrite (alike_ignore _ _ Hm)|done]).
  assert (Hpm : (LegacyPreMatch (rt_rule rule) (legacy_reset m)).1 = pre_match rule m0) by (unfold pre_match; by rewrite Hm).
  destruct (LegacyPreMatch (rt_rule rule) (legacy_reset m)) as [b m1]. cbn in Hme, Hpm. subst b.
  destruct (pre_match rule m0) eqn:Epre; cbn [negb].
  - destruct (rt_action rule) as [[]|] eqn:Ea; try (by apply Hskip); unfold action_ok in Har; rewrite Ea in Har.
    + destruct (Transport _) as [transport|]; [|by apply Hskip]. rewrite andb_false_r.
      rewrite (legacy_round_route _ _ _ _ _ _ _ _ _ m0 Ea) by auto using legacy_options_ok.
      destruct (cl_answer _ _); [|done]. destruct (accepts _ _ _); [done|].
      rewrite <- (Nat.add_0_r i). rewrite Hnext by (cbn; done || lia). done.
    + done.
    + cbn. rewrite Ea. unfold legacy_answer.
      destruct Har as [-> | ->]; cbn; rewrite ?Ea; by repeat case_bool_decide.
    + cbn. rewrite Ea. by destruct (RuleActionPredefined_Response _ _ _ _ _).
  - rewrite Hskip by done. destruct (rt_action rule) as [[]|] eqn:Ea; try done.
    + destruct (Transport _) as [transport|]; [|done]. destruct (cl_answer _ _) as [response|e]; [|done].
      unfold accepts. by rewrite (proj1 (prematch_final rule m0 response Hpr Hi) Epre).
    + by destruct (legacy_answer _ _ _ _ _).
    + by destruct (legacy_answer _ _ _ _ _).
Qed.

Lemma exchangeLegacy_first fuel rules start options m m0 :
  Forall prematch_ok rules -> Forall action_ok rules -> options_ok options ->
  IgnoreDestinationIPCIDRMatch m0 = false -> alike m m0 -> (length rules - start < fuel)%nat ->
  exchangeLegacy transport_Default defaultRejectRcode defaultDomainStrategy followPredefinedCNAME client_Exchange
    fuel rules message options start m = Some (firstMatch (drop start rules) options m0).
Proof.
  intros Hp Ha Ho Hi. revert start m. induction fuel as [|fuel IH]; intros start m Hm Hf; [lia|]. cbn.
  apply legacy_round_first; try done; [by apply Forall_drop..|]. intros j m' Hj Hm'. rewrite length_drop in Hj.
  rewrite drop_drop. replace (start + S j)%nat with (S (start + j)) by lia. apply IH; [done|lia].
Qed.
End first.

(** ** Routers in the legacy mode *)

Lemma merge_disabled flags l : flag_disabled (foldl flags_merge flags l) = false ->
  flag_disabled flags = false /\ Forall (fun f => flag_disabled f = false) l.
Proof.
  revert flags. induction l as [|f l IH]; intros flags; cbn; [done|].
  intros [[H1 H2]%orb_false_iff H3]%IH. split; [done|by constructor].
Qed.

Section mode.
Context (md : option (string -> option RuleSetMetadata)) (overrides : gmap string RuleSetMetadata).

Lemma ruleSet_requirements_disabled d tags flags flags' : ruleSet_requirements md overrides d tags flags = Ok flags' ->
  flag_disabled flags' = false -> flag_disabled flags = false.
Proof.
  revert flags. induction tags as [|tag tags IH]; intros flags Hr Hd; cbn in Hr; [by injection Hr as <-|].
  simpl_result. apply IH in Hr; [|done]. by apply orb_false_iff in Hr as [Hr _].
Qed.

Lemma requirements_legacy o flags : dnsRuleModeRequirementsInRule md overrides o = Ok flags ->
  flag_disabled flags = false -> legacy_rule o = true.
Proof.
  revert flags. induction o as [ty d mode rules inv a IH] using DNSRule_nested_ind; intros flags Hr Hd. cbn in Hr |- *.
  unfold legacy_rule. cbn. destruct (is_default_type ty).
  - assert (Hf : defaultRuleDisablesLegacyDNSMode d a = false).
    { unfold dnsRuleModeRequirementsInDefaultRule in Hr. destruct (isnil _); [injection Hr as <-|].
      - by apply orb_false_iff in Hd as [Hd _].
      - destruct (isnone md); [done|]. apply ruleSet_requirements_disabled in Hr; [|done].
        by apply orb_false_iff in Hr as [Hr _]. }
    unfold defaultRuleDisablesLegacyDNSMode in Hf. change (hasResponseMatchFields d) with (response_options d) in Hf.
    by destruct (IsEnabled _), (response_options d).
  - destruct (bool_decide _); [|done]. simpl_result. apply merge_disabled in Hd as [_ Hd].
    apply result_mapiM_Forall2 in Heqr. apply forallb_Forall. revert IH Hd.
    induction Heqr as [|x y l l' [j Hj] _ IHl]; [done|]. intros [Hx Hl]%Forall_cons [Hy Hl']%Forall_cons.
    constructor; [|by apply IHl]. apply sub_rule_cause_Ok in Hj. exact (Hx y Hj Hy).
Qed.

Lemma legacy_mode_rules rules flags : resolveLegacyDNSMode md overrides rules = Ok (true, flags) ->
  Forall (fun o => legacy_rule o = true) rules.
Proof.
  unfold resolveLegacyDNSMode, dnsRuleModeRequirements. intros Hr. simpl_result.
  set (f := foldl _ _ _) in *. revert Hr. destruct (flag_disabled f) eqn:Hd; cbn; [by destruct (flag_neededFromStrategy f)|intros Hr].
  apply merge_disabled in Hd as [_ Hd]. clear Hr f.
  match goal with Hm : result_mapiM _ _ _ = Ok _ |- _ => apply result_mapiM_Forall2 in Hm; rename Hm into Hf end. revert Hd.
  induction Hf as [|x y l l' [j Hj] _ IHl]; [done|]. intros [Hy Hl']%Forall_cons. constructor; [|by apply IHl].
  cbn in Hj. destruct (dnsRuleModeRequirementsInRule md overrides x) eqn:Hx; [|done]. injection Hj as <-.
  by eapply requirements_legacy.
Qed.
End mode.

Section router.
Context `{Env} `{BuildContext}.

Lemma buildRules_legacy router os rules flags : buildRules router os = Ok (rules, true, flags) ->
  Forall (fun o => legacy_rule o = true) os.
Proof.
  unfold buildRules, prepareRules. intros Hr. simpl_result. cbn [fst snd] in *.
  match goal with Hm : resolveLegacyDNSMode _ _ _ = Ok ?p |- _ => destruct p; cbn in *; subst; by apply legacy_mode_rules in Hm end.
Qed.

(** The conditions on a rule with an address filter: it keeps its filters apart from
    its alternatives, and its rule-sets for the source have no logical rules. *)
Definition filter_ok (rule : RuntimeRule) : bool := deferrable false (rt_rule rule) && source_sets_plain (rt_rule rule).

(** The rules a router runs in the legacy mode. *)
Lemma legacy_prematch_ok router os rules rules' flags :
  (forall tag rs, ruleSets router tag = Some rs -> loaded rs) ->
  buildRules router os = Ok (rules, true, flags) -> statusChanges rules rules' ->
  forallb filter_ok rules' = true -> Forall prematch_ok rules'.
Proof.
  intros Hl Hb Hc Hok. pose proof (buildRules_legacy _ _ _ _ Hb) as Hlg. apply buildRules_runs in Hb as [Hf _].
  pose proof (runs_changes _ _ _ _ _ Hf Hc) as Hf'. apply forallb_Forall in Hok. revert Hlg Hok. clear -Hl Hf'.
  induction Hf' as [|[ty d mode subs inv a] rt os rules' (b & Hb & Hs & _) _ IH]; [done|].
  intros [Ho Hos]%Forall_cons [[Hd Hp]%andb_true_iff Hok]%Forall_cons. constructor; [|by apply IH].
  apply buildRule_inv in Hb as (Hn & _). pose proof (legacy_started _ _ _ _ _ _ Hl Ho Hn Hs) as Hst.
  split_and!; [done|intros; by apply legacy_stable_rule|intros Hw; by apply legacy_no_dest_cidr].
Qed.
End router.
