(* ===== verification/DnsSample.v ===== *)
(** * Concrete inputs for the theorems about DNS

    An environment with two servers, a router, a query, a cache and a client.  Nothing
    here models code; the witnesses of the theorems evaluate the model on these
    values. *)

From stdpp Require Import base gmap strings list.
From Stdlib Require Import ZArith Lia.
From S2P Require Import Prelude Net GoStrings Metadata Codec IPSet RuleMatch RuleSpec RuleDefer.
From S2P Require Import RuleItems RuleOptions RuleBuild RuleStarted Sample DnsMode DnsBuild DnsRecords DnsClient.

Open Scope Z_scope.

(** The sample environment with two DNS servers. *)
Definition dns_env : Env := {|
  env_GoUnicode := sample_unicode;
  IsAndroid := false;
  IsDomain := @IsDomain sample_env;
  IsIP := @IsIP sample_env;
  IsIPv6 := @IsIPv6 sample_env;
  IsPublicAddr := @IsPublicAddr sample_env;
  AddrFromIP := @AddrFromIP sample_env;
  NewMatcher := @NewMatcher sample_env;
  NewAdGuardMatcher := @NewAdGuardMatcher sample_env;
  BuildIPSet := @BuildIPSet sample_env;
  CanonicalName := @CanonicalName sample_env;
  IsDuplicate := @IsDuplicate sample_env;
  Compile := @Compile sample_env;
  DefaultNetworkInterface := None;
  NetworkInterfaces := [];
  Monitor := None;
  FinderInterfaces := [];
  WIFIState_SSID := "";
  WIFIState_BSSID := "";
  ClashMode := None;
  Transport := fun tag =>
    if bool_decide (tag = "remote"%string) then Some (mkDNSTransport "tls" None None)
    else if bool_decide (tag = "local"%string) then Some (mkDNSTransport "udp" None None) else None;
  OutboundByTag := fun _ => None
|}.

Definition new_router (rules : list DNSRule) : DNSRouter := mkDNSRouter (mkRouterMode rules false false false) [].

Definition default_transport : DNSTransport := mkDNSTransport "default" None None.

Definition dns_query : Msg := mkMsg 7 false false true false RcodeSuccess [mkQuestion "a.example." TypeA ClassINET] [] [] [].


(** ** A cache *)

(** An association list of all entries. *)
Definition sample_cache : Type := list (dnsCacheKey * (nat * Z)).

Definition without_key (k : dnsCacheKey) (l : sample_cache) : sample_cache :=
  List.filter (fun entry => negb (bool_decide (entry.1 = k))) l.

Fixpoint sample_peek (l : sample_cache) (k : dnsCacheKey) : option (nat * Z) :=
  match l with
  | [] => None
  | (k', v) :: rest => if decide (k = k') then Some v else sample_peek rest k
  end.

Definition sample_lru : LRU sample_cache := {|
  lru_peek := sample_peek;
  lru_get := fun _ l => l;
  lru_add := fun k v e l => (k, (v, e)) :: without_key k l;
  lru_remove := without_key;
  lru_purge := fun _ => []
|}.

Lemma peek_without k l k' : sample_peek (without_key k l) k' = if decide (k' = k) then None else sample_peek l k'.
Proof.
  induction l as [|[k1 v] l IH]; cbn; [by destruct (decide _)|]. change (List.filter _ l) with (without_key k l).
  case_bool_decide as Hk; cbn; [subst k1|]; rewrite IH; repeat destruct (decide _); congruence.
Qed.

Lemma sample_lru_laws : @LRULaws sample_cache sample_lru.
Proof.
  split; cbn.
  - done.
  - intros k v e l k' x. destruct (decide (k' = k)); [intros [= <-]; by left|]. rewrite peek_without.
    destruct (decide (k' = k)); [done|]. intros Hx. by right.
  - apply peek_without.
  - done.
Qed.

(** ** A client *)

Definition sample_client (disableCache : bool) : Client :=
  NewClient (mkClient 0 disableCache false 0 0 true 0 0 zero_prefix).

Definition sample_state : ExchangeState sample_cache := mkExchangeState (mkCacheState (Some []) ∅ 0) [] [].

(** The server [remote] answers 5.6.7.8, every other one 1.2.3.4. *)
Definition sample_server (transport : DNSTransport) : ClientTransport :=
  mkClientTransport (tr_Type transport) None (fun _ =>
    TransportResponse (sample_response (if bool_decide (tr_Type transport = "tls"%string) then [5; 6; 7; 8] else [1; 2; 3; 4]))).

(** A rule on an address of the response. *)
Definition address_rule (v : Z) (server : string) : DNSRule :=
  mkDNSRule RuleTypeDefault
    (mkRawDefaultDNSRule [] 0 [] [] false
      [] [] [] [] [] [] [] [] false [] [] [] [] [] [] [] [] [] [] [] [] [] [] false false [] [] []
      [] [] [] [] [] [] [] [] false None [host_prefix v] false false None [] [] [] false [] [] [] false false)
    "" [] false (sample_action "route" false server).
