(* ===== verification/DnsTheorems.v ===== *)
(** * Theorems about the DNS router

    The rules a router runs, the walk over them, and updates of rule-sets. *)

From stdpp Require Import base gmap strings list pretty.
From Stdlib Require Import ZArith Lia.
From S2P Require Import Prelude Net GoStrings Metadata Codec IPSet RuleMatch RuleSpec RuleDefer.
From S2P Require Import RuleItems RuleOptions RuleBuild RuleBuilt RuleStarted Sample.
From S2P Require Import DnsMode DnsWalk DnsScope DnsSim DnsBuild DnsStarted DnsLive DnsSample.

Open Scope Z_scope.

(** ** Concrete inputs *)

(** Evaluate under the tag [fast], then route by the response. *)
Definition dns_options (domain : string) (matchResponse : option DNSRuleMatchResponse) (acceptAny : bool)
    : RawDefaultDNSRule :=
  mkRawDefaultDNSRule [] 0 [] [] false
    [] [] [] [domain] [] [] [] [] false [] [] [] [] [] [] [] [] [] [] [] [] [] [] false false [] [] []
    [] [] [] [] [] [] [] [] false matchResponse [] false acceptAny None [] [] [] false [] [] [] false false.

Definition evaluate_action_options : DNSRuleActionOptions :=
  mkDNSRuleActionOptions "evaluate" false (mkDNSRouteAction "" false zero_AbstractDNSRoute)
    (mkDNSEvaluateAction "remote" "fast" false zero_AbstractDNSRoute) zero_AbstractDNSRoute
    (mkDNSRejectAction None "" false) (mkDNSPredefinedAction None [] [] []).

Definition dns_config : list DNSRule :=
  [mkDNSRule RuleTypeDefault (dns_options "a.example" None false) "" [] false evaluate_action_options;
   mkDNSRule RuleTypeDefault (dns_options "a.example" (Some (mkMatchResponse true "fast")) true) "" [] false
     (sample_action "route" false "local");
   sample_dns_rule "c.example" ["domains"%string] false].

Definition dns_domains : RuleSet (Rule Item) := sample_load dns_env [sample_headless ["b.example"%string] []].

Definition dns_ruleSets (tag : string) : option (RuleSet (Rule Item)) :=
  if bool_decide (tag = "domains"%string) then Some dns_domains else None.

Definition dns_started : result DNSRouter := @Router_Start dns_env (Some dns_ruleSets) (new_router dns_config).

Definition answer_async (n : nat) (transport : DNSTransport) (o : DNSQueryOptions) : result Msg :=
  Ok (sample_response [1; 2; 3; 4]).

(** The answers tell the servers apart. *)
Definition answer_now (transport : DNSTransport) (o : DNSQueryOptions) : result Msg :=
  Ok (sample_response (if bool_decide (tr_Type transport = "default"%string) then [9; 9; 9; 9] else [1; 1; 1; 1])).

(** The sample router once started; [Router_Start] accepts its rules. *)
Definition dns_running : DNSRouter := match dns_started with Ok r => r | Err _ => new_router [] end.

Section theorems.
Context `{Env} `{BuildContext}.

(** C3. The rules of a started router outside of the legacy mode, racing rules apart,
    mean the same under every schedule of the callbacks of the exchanges they launch:
    whenever the exchanges end, as long as none closes its future between the moment a
    rule settles the futures and the moment it looks for one to wait for, the
    concurrent walk returns, and returns what the rules say when every exchange is
    answered at once. This holds with any rules switched off through the API, for
    loaded rule-sets. *)
Theorem router_walk_schedule_independent router r r' rules
    transport_Default defaultRejectRcode defaultDomainStrategy message allowFakeIP
    followPredefinedCNAME ExchangeAsync Exchange progress cancelled T fuel m options :
  Router_Start router r = Ok r' -> rm_closing (dr_mode r) = false -> rm_legacyDNSMode (dr_mode r') = false ->
  (forall tag rs, ruleSets router tag = Some rs -> loaded rs) ->
  forallb (every_options tag_enabled) (rm_rawRules (dr_mode r)) = true ->
  forallb (fun o => negb (dnsRuleRace o)) (rm_rawRules (dr_mode r)) = true ->
  statusChanges (dr_rules r') rules ->
  (forall t t' f, (t <= t')%nat -> (progress t f <= progress t' f)%nat) -> calm (closed_at progress) ->
  (forall t f, (T <= t)%nat -> (length callback <= progress t f)%nat) -> (forall t, cancelled t = false) ->
  IgnoreDestinationIPCIDRMatch m = false -> (T + 3 <= fuel)%nat ->
  exchangeWithRules transport_Default defaultRejectRcode defaultDomainStrategy message allowFakeIP
    followPredefinedCNAME ExchangeAsync Exchange (closed_at progress) (sent_at progress) cancelled fuel rules m options =
  Some (syncWalk transport_Default defaultRejectRcode defaultDomainStrategy message allowFakeIP
    followPredefinedCNAME ExchangeAsync Exchange rules (initial_sync options) m).
Proof.
  intros Hs Hc Hlg Hl Ht Hrace Hch Hmono Hcalm Hdone Hcan Hi Hf.
  destruct (Router_Start_built _ _ _ Hs Hc) as [flags Hb]. rewrite Hlg in Hb.
  destruct (running_walk_ok _ _ _ _ _ Hl Hb Ht Hrace Hch) as [Hok Hnd].
  apply exchange_correct with (T := T); try done.
  - intros t f. by apply closed_late.
  - intros t f. by apply sent_late.
  - by apply closed_mono.
  - apply sent_closed.
Qed.

(** C4. Every query ends: for any rules, racing ones included, and however the
    callbacks of the exchanges the rules launched are interleaved with the walk, no
    wake-up is lost. Once the callbacks have run to their end, the loop, which blocks on
    the wake channel of one element and drops sends that find it full, returns a result;
    the number of rounds is bounded by the time the last callback takes. The exchanges
    are taken to call back. *)
Theorem exchange_always_returns transport_Default defaultRejectRcode defaultDomainStrategy message allowFakeIP
    followPredefinedCNAME ExchangeAsync Exchange progress cancelled T fuel rules m options :
  (forall t t' f, (t <= t')%nat -> (progress t f <= progress t' f)%nat) ->
  (forall t f, (T <= t)%nat -> (length callback <= progress t f)%nat) -> (T + 3 <= fuel)%nat ->
  exists r, exchangeWithRules transport_Default defaultRejectRcode defaultDomainStrategy message allowFakeIP
    followPredefinedCNAME ExchangeAsync Exchange (closed_at progress) (sent_at progress) cancelled fuel rules m options =
    Some r.
Proof.
  intros Hm He Hf. apply exchange_live with (T := T); [..|done].
  - intros t f. by apply closed_late.
  - intros t f. by apply sent_late.
  - by apply closed_mono.
  - apply sent_closed.
Qed.

(** In a router that started outside of the legacy mode, every tagged response a
    rule reads is produced by an earlier rule, every anonymous response by an earlier
    evaluate action without a tag, and no two rules produce the same tag. *)
Theorem responses_defined_before_use router r r' :
  Router_Start router r = Ok r' -> rm_closing (dr_mode r) = false -> rm_legacyDNSMode (dr_mode r') = false ->
  forallb (every_options tag_enabled) (rm_rawRules (dr_mode r)) = true ->
  NoDup (omap evaluate_tag (dr_rules r')) /\
  forall k rule, dr_rules r' !! k = Some rule ->
    (forall tag, tag ∈ MatchResponseTags (rt_rule rule) -> tag ∈ omap evaluate_tag (take k (dr_rules r'))) /\
    (MatchResponseAnonymous (rt_rule rule) = true -> exists j server spec options,
       (j < k)%nat /\ rt_action <$> dr_rules r' !! j = Some (Some (ActionEvaluate server "" spec options))).
Proof.
  intros Hs Hc Hlg Ht. destruct (Router_Start_built _ _ _ Hs Hc) as [flags Hb]. rewrite Hlg in Hb. split.
  - destruct (buildRules_runs _ _ _ _ _ Hb) as [Hf Hv]. destruct (Hv eq_refl) as [s Hl].
    apply validate_loop_Ok in Hl as [Hnd _]; [|apply NoDup_nil_2]. by rewrite <- (runs_tags _ _ _ _ Hf).
  - intros k rule Hk. by eapply running_scoped.
Qed.

(** C5. However many rule-sets are replaced while a router runs, each replacement
    accepted by [ValidateRuleSetMetadataUpdate]: the mode the router chose when it
    started still fits the summaries of all rule-sets. Rules that match responses never
    come to need the legacy mode, and rules of the legacy mode never come to rule it
    out. *)
Theorem updates_keep_mode (ruleSet : string -> option (RuleSet (Rule Item))) r r' sums :
  rm_closing (dr_mode r) = false -> rm_rawRules (dr_mode r) <> [] -> Router_Start (Some ruleSet) r = Ok r' ->
  updates (dr_mode r') (fun tag => rs_metadata <$> ruleSet tag) sums -> mode_fits (dr_mode r') sums.
Proof.
  intros Hc Hne Hs Hu. destruct (start_fits _ _ _ Hc Hs) as (Hm & Hst & Hcl & Hr).
  rewrite <- Hr in Hne. by eapply updates_fit.
Qed.

(** Outside of the legacy mode, a rule without [match_response] is rejected as soon
    as one of its rule-sets holds nothing but addresses, even if its other rule-sets
    could be matched before a response is there. *)
Theorem pure_ip_rule_set_rejected router overrides d action tag metadata :
  IsEnabled (do_MatchResponse d) = false -> tag ∈ do_RuleSet d ->
  lookupDNSRuleSetMetadata router overrides tag = Ok metadata ->
  ContainsIPCIDRRule metadata = true -> ContainsNonIPCIDRRule metadata = false ->
  is_ok (validateLegacyDNSModeDisabledDefaultRule router overrides d action) = false.
Proof.
  intros He Htag Hmd Hip Hnon. unfold validateLegacyDNSModeDisabledDefaultRule. rewrite He.
  destruct (_ && negb false); [done|].
  assert (Hr : is_ok (reject_pure_ip router overrides (do_RuleSet d)) = false).
  { induction (do_RuleSet d) as [|t tags IH]; [by apply not_elem_of_nil in Htag|]. cbn.
    apply elem_of_cons in Htag as [<-|Htag]; [by rewrite Hmd; cbn; rewrite Hip, Hnon|].
    destruct (lookupDNSRuleSetMetadata router overrides t); cbn; [|done]. destruct (_ && _); [done|auto]. }
  destruct (do_RuleSet d); [by apply not_elem_of_nil in Htag|]. cbn [negb nonnil andb].
  by destruct (reject_pure_ip _ _ _).
Qed.
End theorems.

(** The order of settling and looking matters: in an accepted configuration without
    racing rules, an exchange that ends between the two is not waited for, yet its
    response is missing when the rule bound to it is matched. The query is answered as
    if the rule were not there, by the default server, while the rules route it to the
    server [local]. *)
Theorem response_lost_after_settling :
  exists progress, monotone (closed_at progress) /\ (forall t f, (5 <= t)%nat -> (length callback <= progress t f)%nat) /\
  is_ok dns_started = true /\
  @exchangeWithRules dns_env default_transport (-1) 0 dns_query true (fun response _ => response) answer_async answer_now
    (closed_at progress) (sent_at progress) (fun _ => false) 8 (dr_rules dns_running) (sample_metadata "a.example") zero_DNSQueryOptions =
    Some (mkExchangeResult (Some (sample_response [9; 9; 9; 9])) (Some default_transport) None None) /\
  @syncWalk dns_env default_transport (-1) 0 dns_query true (fun response _ => response) answer_async answer_now
    (dr_rules dns_running) (initial_sync zero_DNSQueryOptions) (sample_metadata "a.example") =
    mkExchangeResult (Some (sample_response [1; 1; 1; 1])) (@Transport dns_env "local") None None.
Proof.
  exists (fun t _ => if (5 <=? t)%nat then 3%nat else 0%nat). split_and!.
  - apply closed_mono. intros t t' f Ht. destruct (Nat.leb_spec 5 t), (Nat.leb_spec 5 t'); lia.
  - intros t f Ht. destruct (Nat.leb_spec 5 t); [done|lia].
  - vm_compute. done.
  - vm_compute. done.
  - vm_compute. done.
Qed.

(** ** Witnesses *)

Section witnesses.
#[local] Existing Instance dns_env.
#[local] Existing Instance sample_build.

Lemma dns_ruleSets_loaded tag rs : ruleSets (Some dns_ruleSets) tag = Some rs -> loaded rs.
Proof.
  unfold ruleSets, dns_ruleSets. case_bool_decide; [|done]. intros [= <-]. apply sample_loaded; [done|].
  eexists; split; [reflexivity|]. eexists. reflexivity.
Defined.

Lemma dns_running_started : Router_Start (Some dns_ruleSets) (new_router dns_config) = Ok dns_running.
Proof. vm_compute. reflexivity. Defined.

(** The future is closed at the third round, the send on the wake channel comes four
    ticks later. *)
Definition late (t f : nat) : nat := if (12 <=? t)%nat then 3%nat else if (8 <=? t)%nat then 2%nat else 0%nat.

Lemma late_mono t t' f : (t <= t')%nat -> (late t f <= late t' f)%nat.
Proof. intros Ht. unfold late. destruct (Nat.leb_spec 12 t), (Nat.leb_spec 12 t'), (Nat.leb_spec 8 t), (Nat.leb_spec 8 t'); lia. Defined.

Lemma late_end t f : (12 <= t)%nat -> (length callback <= late t f)%nat.
Proof. intros Ht. unfold late. destruct (Nat.leb_spec 12 t); [cbn; lia|lia]. Defined.

Lemma late_calm : calm (closed_at late).
Proof.
  intros k f. unfold closed_at, late.
  destruct (Nat.leb_spec 12 (4 * k + 1)), (Nat.leb_spec 12 (4 * k)), (Nat.leb_spec 8 (4 * k + 1)), (Nat.leb_spec 8 (4 * k));
    try lia; by intros.
Defined.

Lemma router_walk_schedule_independent_witness :
  exchangeWithRules default_transport (-1) 0 dns_query true (fun response _ => response) answer_async answer_now
    (closed_at late) (sent_at late) (fun _ => false) 15 (alter ChangeStatus 2%nat (dr_rules dns_running)) (sample_metadata "a.example")
    zero_DNSQueryOptions =
  Some (syncWalk default_transport (-1) 0 dns_query true (fun response _ => response) answer_async answer_now
    (alter ChangeStatus 2%nat (dr_rules dns_running)) (initial_sync zero_DNSQueryOptions) (sample_metadata "a.example")).
Proof.
  apply (router_walk_schedule_independent (Some dns_ruleSets) (new_router dns_config) dns_running) with (T := 12%nat).
  - exact dns_running_started.
  - reflexivity.
  - vm_compute. reflexivity.
  - exact dns_ruleSets_loaded.
  - vm_compute. reflexivity.
  - vm_compute. reflexivity.
  - apply changes_step, changes_none.
  - exact late_mono.
  - exact late_calm.
  - exact late_end.
  - reflexivity.
  - reflexivity.
  - lia.
Defined.

Lemma exchange_always_returns_witness :
  exists r, exchangeWithRules default_transport (-1) 0 dns_query true (fun response _ => response) answer_async
    answer_now (closed_at late) (sent_at late) (fun _ => false) 15 (dr_rules dns_running) (sample_metadata "a.example") zero_DNSQueryOptions = Some r.
Proof.
  apply (exchange_always_returns _ _ _ _ _ _ _ _ _ _ 12).
  - exact late_mono.
  - exact late_end.
  - lia.
Defined.

Lemma responses_defined_before_use_witness :
  NoDup (omap evaluate_tag (dr_rules dns_running)) /\
  forall k rule, dr_rules dns_running !! k = Some rule ->
    (forall tag, tag ∈ MatchResponseTags (rt_rule rule) -> tag ∈ omap evaluate_tag (take k (dr_rules dns_running))) /\
    (MatchResponseAnonymous (rt_rule rule) = true -> exists j server spec options,
       (j < k)%nat /\ rt_action <$> dr_rules dns_running !! j = Some (Some (ActionEvaluate server "" spec options))).
Proof.
  apply (responses_defined_before_use (Some dns_ruleSets) (new_router dns_config)).
  - exact dns_running_started.
  - reflexivity.
  - vm_compute. reflexivity.
  - vm_compute. reflexivity.
Defined.

(** The rule-set of domains gains addresses. *)
Definition mixed_metadata : RuleSetMetadata := mkRuleSetMetadata false false true false true.

Lemma updates_keep_mode_witness :
  mode_fits (dr_mode dns_running) (replaced (fun tag => rs_metadata <$> dns_ruleSets tag) "domains" mixed_metadata).
Proof.
  apply (updates_keep_mode dns_ruleSets (new_router dns_config) dns_running).
  - reflexivity.
  - done.
  - exact dns_running_started.
  - apply updates_step; [apply updates_none|]. vm_compute. reflexivity.
Defined.

(** A rule with a set of domains and a set of addresses. *)
Lemma pure_ip_rule_set_rejected_witness :
  is_ok (validateLegacyDNSModeDisabledDefaultRule
    (Some (fun tag => if bool_decide (tag = "mixed"%string) then Some mixed_metadata else Some cidr_metadata)) ∅
    (sample_dns_options "a.example" ["mixed"%string; "addresses"%string] false) (sample_action "route" false "local")) = false.
Proof.
  apply (pure_ip_rule_set_rejected _ _ _ _ "addresses" cidr_metadata); try reflexivity. set_solver.
Defined.
End witnesses.
