(* ===== verification/DnsClientTheorems.v ===== *)
(** * Theorems about the DNS client and the legacy mode

    What the cache gives back and under which key, the lock of an exchange, client
    subnets, times to live and the rotation of answers; and the rules of the legacy
    mode over a client that asks its servers. *)

From stdpp Require Import base gmap strings list pretty.
From Stdlib Require Import ZArith Lia.
From S2P Require Import Prelude Net GoStrings Metadata Codec IPSet RuleMatch RuleSpec RuleDefer.
From S2P Require Import RuleItems RuleOptions RuleBuild RuleBuilt RuleStarted Sample.
From S2P Require Import DnsMode DnsWalk DnsScope DnsBuild DnsStarted DnsRecords DnsClient DnsCache DnsLegacy DnsSample.

Open Scope Z_scope.

(** ** A client without a cache, as the router of the legacy mode sees it *)

(** A query that a strategy does not answer without asking. *)
Definition admits_query (message : Msg) (strategy : Z) : Prop :=
  match msg_Question message with
  | [] => False
  | question :: _ =>
      (q_Qtype question =? TypeA) && (strategy =? DomainStrategyIPv6Only) ||
      (q_Qtype question =? TypeAAAA) && (strategy =? DomainStrategyIPv4Only) = false
  end.

Section uncached.
Context {C : Type} `{LRU C} (c : Client) (NetworkEnvironment : option Z) (LoadRDRC : option (string -> string -> Z -> bool)).
Context (IsEdns0 : Msg -> option RR) (SetEdns0 : Msg -> Z -> bool -> Msg).
Context (now now' : Z) (contextTransport : option string) (server : DNSTransport -> ClientTransport) (st : ExchangeState C).

(** [Exchange] of a client in state [st], its result only. *)
Definition client_result (transport : DNSTransport) (message : Msg) (options : DNSQueryOptions)
    (check : option (Msg -> bool)) : result Msg :=
  match Exchange c NetworkEnvironment LoadRDRC IsEdns0 SetEdns0 now now' contextTransport (server transport) message
          options check st with
  | Some (r, _) => r
  | None => Err (ENew "waiting")
  end.






End uncached.

(** ** Shared lemmas *)

Lemma omap_NoDup_inj {A B : Type} (f : A -> option B) (l : list A) i j x y b : NoDup (omap f l) ->
  l !! i = Some x -> l !! j = Some y -> f x = Some b -> f y = Some b -> i = j.
Proof.
  revert i j. induction l as [|a l IH]; intros i j Hn Hi Hj Hx Hy; [by rewrite lookup_nil in Hi|]. cbn in Hn.
  assert (Hl : forall k z, f a = Some b -> l !! k = Some z -> f z = Some b -> False).
  { intros k z Ha Hk Hz. rewrite Ha in Hn. apply NoDup_cons in Hn as [Hn _]. apply Hn, list_elem_of_omap.
    exists z. split; [by eapply list_elem_of_lookup_2|done]. }
  destruct i as [|i], j as [|j]; cbn in Hi, Hj; simplify_eq; try done.
  - by destruct (Hl j y Hx Hj Hy).
  - by destruct (Hl i x Hy Hi Hx).
  - f_equal. apply IH; try done. destruct (f a); [by apply NoDup_cons in Hn as [_ Hn]|done].
Qed.

(** The OPT records of a message. *)
Definition is_OPT (rr : RR) : bool := match rr_Data rr with RR_OPT _ => true | _ => false end.

Definition opt_records (message : Msg) : list RR := List.filter is_OPT (msg_Extra message).

(** The search of [setClientSubnet] forgets an OPT record when another record follows. *)
Lemma find_exists_last records last i opt : Forall without_subnet records -> is_OPT last = false ->
  find_exists (records ++ [last]) i opt = (None, None).
Proof.
  intros Hn Hl. unfold is_OPT in Hl. revert i opt.
  induction Hn as [|rr records Hr _ IH]; intros i opt; cbn; [by destruct (rr_Data last)|].
  unfold without_subnet in Hr. destruct (rr_Data rr); try apply IH.
  pose proof (find_option_spec option 0) as Hf. destruct (find_option option 0); [|apply IH].
  destruct Hf as (pre & o & post & -> & _ & Ho & _). apply Forall_app in Hr as [_ [Hr _]%Forall_cons]. congruence.
Qed.

(** ** Theorems *)

Section legacy.
Context `{Env} `{BuildContext}.


(** A query in the legacy mode always ends, whatever the rules, the client and the
    responses: every round starts after the rule of the round before. *)
Theorem legacy_exchange_returns transport_Default defaultRejectRcode defaultDomainStrategy followPredefinedCNAME
    client_Exchange rules message options m :
  exists r, exchangeLegacy transport_Default defaultRejectRcode defaultDomainStrategy followPredefinedCNAME client_Exchange
    (S (length rules)) rules message options 0 m = Some r.
Proof. apply exchangeLegacy_returns. lia. Qed.
End legacy.

Section cached.
Context {C : Type} `{LRU C} `{!LRULaws C}.

(** C38. What the in-memory cache of a client that lets entries expire ([disable_expire] off)
    gives back is the response that was stored last under the key, and not too old: a response
    that counts as fresh is within its time to live, its records carry the time that is left,
    and its answers are those of the response in some order; a stale one is past its time to
    live by less than the optimistic timeout and its records live for one second.  This holds
    after any sequence of stores, loads and purges; the cache file behind the client has no
    part in it. *)
Theorem cached_response_fresh c (st : CacheState C) log now key response timeToLive stale st' :
  cacheRun c st log -> c_disableExpire c = false ->
  loadResponse c now key st = (Some (response, timeToLive, stale), st') ->
  exists message ttl stored, latest log key = Some (message, ttl, stored) /\
    if stale
    then stored + second * ttl < now < stored + second * ttl + c_optimisticTimeout c /\ presents message (Some 1) response
    else now <= stored + second * ttl /\ timeToLive = (stored + second * ttl - now) `quot` second /\
         presents message (Some (wrap 32 timeToLive)) response.
Proof. intros. by eapply load_fresh. Qed.
End cached.

Section client.
Context {C : Type} `{LRU C}.

(** At any moment no two exchanges that may use the cache are running for one
    question, server, subnet, environment and timeout: the second waits for the first.
    The keys that are locked are those of the exchanges that run, so an exchange that
    ended, with a response or an error, has released its key. *)
Theorem one_exchange_per_key c NetworkEnvironment LoadRDRC IsEdns0 SetEdns0 (cache : CacheState C) s i j op op' :
  rtc (clientStep c NetworkEnvironment LoadRDRC IsEdns0 SetEdns0) (mkSystem (mkExchangeState cache [] []) []) s ->
  (es_lock (sys_state s) ≡ₚ omap op_lock (sys_running s)) /\
  (sys_running s !! i = Some op -> sys_running s !! j = Some op' ->
   op_disableCache op = false -> op_disableCache op' = false -> op_cacheKey op = op_cacheKey op' ->
   qo_Timeout (op_options op) = qo_Timeout (op_options op') -> i = j).
Proof.
  intros Hr. apply lock_invariant_reachable in Hr as (Hnd & Hp & Hok).
  2: { split_and!; [constructor|done|constructor]. }
  split; [done|]. intros Hi Hj Hd Hd' Hk Ht. rewrite Hp in Hnd.
  apply (omap_NoDup_inj op_lock (sys_running s) i j op op' (op_cacheKey op, qo_Timeout (op_options op))); try done.
  - rewrite Forall_lookup in Hok. rewrite (Hok i op Hi), Hd. done.
  - rewrite Forall_lookup in Hok. rewrite (Hok j op' Hj), Hd'. by rewrite Hk, Ht.
Qed.

(** A response is cached under the subnet its query was sent with: whatever the
    options and the subnet of the message, the key of an exchange that asks a server and
    may be cached holds the client subnet that the message it sends carries. *)
Theorem cached_under_sent_subnet c NetworkEnvironment LoadRDRC now ctx transport message options checker
    (st : ExchangeState C) op st' :
  plain_options c options ->
  beginExchange c NetworkEnvironment LoadRDRC now ctx transport message options checker st = (BeginReady op, st') ->
  op_disableCache op = false ->
  ck_clientSubnet (op_cacheKey op) = clientSubnetFromMessage (op_message op).
Proof.
  intros Hp (Hm & Ho & Hk)%beginExchange_ready Hd. rewrite (Hk Hd). cbn. rewrite Hm. by apply effective_subnet_sent.
Qed.

(** A response from the cache is not checked: as long as the cache has a fresh
    response for the query, an exchange answers with it whatever the check of the rule
    says about it. *)
Theorem cached_response_unchecked c NetworkEnvironment LoadRDRC now ctx transport message question options checker
    (st : ExchangeState C) response timeToLive cache' :
  head (msg_Question message) = Some question -> admits_query message (qo_Strategy options) ->
  isSimpleRequest message = true -> c_disableCache c = false -> qo_DisableCache options = false ->
  let key := newCacheKey c NetworkEnvironment transport question (prepareExchangeMessage c message options) options in
  loadResponse c now key (es_cache st) = (Some (response, timeToLive, false), cache') ->
  (beginExchange c NetworkEnvironment LoadRDRC now ctx transport message options (Some checker) st).1 =
  BeginDone (Ok (set_Id response (msg_Id (prepareExchangeMessage c message options)))).
Proof.
  intros Hq Ha Hs Hc Ho key Hl. unfold beginExchange. unfold admits_query in Ha.
  destruct (msg_Question message) as [|q qs]; [done|]. injection Hq as ->. rewrite Ha, Hs, Hc, Ho. cbn [negb orb].
  fold key. cbn zeta.
  assert (Hc' : es_cache (if bool_decide ((key, qo_Timeout options) ∈ es_lock st) then st
    else acquire st (key, qo_Timeout options)) = es_cache st) by (by destruct (bool_decide _)).
  by rewrite Hc', Hl.
Qed.
End client.

(** C39. The response a client hands out has one time to live on all its records, OPT
    records apart, and without a rewrite by a rule it is at least the minimum of the
    client, and at most its maximum if there is one; the maximum of a client is never
    below its minimum. *)
Theorem response_ttl_bounds settings question response options :
  0 <= c_minCacheTTL settings -> qo_RewriteTTL options = None ->
  let c := NewClient settings in
  let '(response', ttl) := applyResponseOptions c question response options in
  Forall (fun t => t = ttl) (ttls (all_records response')) /\ c_minCacheTTL c <= ttl /\
  (0 < c_maxCacheTTL c -> ttl <= c_maxCacheTTL c).
Proof.
  intros Hm Hr c. pose proof (applyResponseOptions_ttls c question response options) as Ht.
  pose proof (applyResponseOptions_bounds settings question response options Hm) as Hb.
  unfold no_rewrite in Hb. rewrite Hr in Hb. specialize (Hb eq_refl). fold c in Hb.
  destruct (applyResponseOptions c question response options). by destruct Hb.
Qed.

(** The time to live of a response is the least one of its records that is not
    zero, OPT records apart, in all three sections, and zero if every one is; unless it
    is a negative response with an SOA record, whose time to live it takes. *)
Theorem time_to_live_least response :
  Forall (fun rr => 0 <= rr_ttl rr) (all_records response) ->
  match (if isnil (msg_Answer response) then extractNegativeTTL response else None) with
  | Some ttl => computeTimeToLive response = ttl
  | None => least_positive (ttls (all_records response)) (computeTimeToLive response)
  end.
Proof.
  intros Hl. destruct (if isnil _ then _ else _) as [ttl|] eqn:He.
  - unfold computeTimeToLive. by rewrite He.
  - apply computeTimeToLive_least; [done|]. intros Hn. by rewrite Hn in He.
Qed.

(** Rotation is fair: every load of a cached message gives all its answers, and in
    as many loads in a row as it has IPv4 addresses, from any state of the counters,
    every one of them comes first exactly once. *)
Theorem round_robin_fair rotation answer :
  Forall typed answer -> (1 < length (List.filter is_A answer))%nat ->
  let n := length (List.filter is_A answer) in
  Forall (fun a => a ≡ₚ answer) (loads n rotation answer) /\
  map (fun a => head (List.filter is_A a)) (loads n rotation answer) ≡ₚ map Some (List.filter is_A answer).
Proof. intros Ht Hn n. split; [by apply loads_perm|by apply round_robin_turn]. Qed.

(** The client subnet that is set on a message is the one that is read from it,
    whatever options the message had, and none is read after it was removed. *)
Theorem client_subnet_roundtrip message p :
  plain_prefix p ->
  clientSubnetFromMessage (SetClientSubnet message p) = p /\
  clientSubnetFromMessage (removeClientSubnet (SetClientSubnet message p)) = zero_prefix.
Proof. intros Hp. split; [by rewrite clientSubnet_set, subnet_read_plain|apply clientSubnet_removed]. Qed.

(** Setting a client subnet adds an OPT record to a message although it has one
    already, when that one has no subnet and is followed by a record of another type,
    such as a signature. *)
Theorem second_opt_record message records last p :
  msg_Extra message = records ++ [last] -> Forall without_subnet records -> is_OPT last = false ->
  length (opt_records (SetClientSubnet message p)) = S (length (opt_records message)).
Proof.
  intros He Hn Hl. unfold SetClientSubnet, opt_records. rewrite He, find_exists_last by done. cbn.
  rewrite List.filter_app, length_app. cbn. lia.
Qed.

(** ** A router in the legacy mode *)

(** The options of a rule for one domain that only sets the time to live. *)
Definition rewrite_rule (domain : string) (ttl : Z) : DNSRule :=
  mkDNSRule RuleTypeDefault (sample_dns_options domain [] false) "" [] false
    (mkDNSRuleActionOptions "route-options" false (mkDNSRouteAction "" false zero_AbstractDNSRoute)
      (mkDNSEvaluateAction "" "" false zero_AbstractDNSRoute) (mkAbstractDNSRoute 0 0 false false (Some ttl) None false)
      (mkDNSRejectAction None "" false) (mkDNSPredefinedAction None [] [] [])).


Definition started_with (rules : list DNSRule) : DNSRouter :=
  match @Router_Start dns_env None (new_router rules) with Ok r => r | Err _ => new_router [] end.

Section concrete.
#[local] Existing Instance dns_env.
#[local] Existing Instance sample_build.
#[local] Existing Instance sample_lru.

(** The client of the samples without a cache. *)
Definition sample_exchange : DNSTransport -> Msg -> DNSQueryOptions -> option (Msg -> bool) -> result Msg :=
  client_result (sample_client true) None None (fun _ => None) (fun m _ _ => m) 0 0 None sample_server sample_state.

Definition sample_legacy (rules : list RuntimeRule) : option (result Msg * option DNSTransport) :=
  exchangeLegacy default_transport (-1) 0 (fun response _ => response) sample_exchange
    (S (length rules)) rules dns_query zero_DNSQueryOptions 0 (sample_metadata "a.example").

(** The times to live of the records of a response. *)
Definition response_ttls (r : option (result Msg * option DNSTransport)) : list Z :=
  match r with Some (Ok response, _) => ttls (all_records response) | _ => [] end.

(** In the legacy mode the options that a rule sets for the rules after it are lost
    once a response is rejected: the same rewrite of the times to live reaches the
    answer of the next rule when that rule is the first to be asked, and not when the
    server of a rule before it gave a response that the rule rejects. *)
Example legacy_route_options_lost :
  let domain_rule := sample_dns_rule "a.example" [] false in
  response_ttls (sample_legacy (dr_rules (started_with [rewrite_rule "a.example" 5; domain_rule; address_rule 16909060 "remote"]))) = [5] /\
  response_ttls (sample_legacy (dr_rules (started_with [rewrite_rule "a.example" 5; address_rule 16909060 "remote"; domain_rule]))) = [60].
Proof. split; vm_compute; reflexivity. Qed.

(** ** Witnesses *)



(** A cache that holds one response. *)
Definition sample_question : Question := mkQuestion "a.example." TypeA ClassINET.
Definition sample_transport : ClientTransport := sample_server default_transport.
Definition sample_key : dnsCacheKey :=
  newCacheKey (sample_client false) None sample_transport sample_question dns_query zero_DNSQueryOptions.
Definition filled : CacheState sample_cache :=
  storeCache (sample_client false) 0 sample_key (sample_response [1; 2; 3; 4]) 60 (es_cache sample_state).

Lemma cached_response_fresh_witness :
  let '(loaded, st') := loadResponse (sample_client false) (30 * second) sample_key filled in
  exists response, loaded = Some (response, 30, false) /\
  exists message ttl stored,
    latest [(sample_key, (sample_response [1; 2; 3; 4], 60, 0))] sample_key = Some (message, ttl, stored) /\
    (30 * second <= stored + second * ttl /\ 30 = (stored + second * ttl - 30 * second) `quot` second /\
     presents message (Some (wrap 32 30)) response).
Proof.
  set (p := loadResponse _ _ _ _). assert (Hp : p = loadResponse (sample_client false) (30 * second) sample_key filled) by reflexivity.
  vm_compute in p. cbv delta [p]. eexists. split; [reflexivity|].
  apply (@cached_response_fresh sample_cache sample_lru sample_lru_laws (sample_client false) filled _ (30 * second) sample_key
    _ 30 false) with (st' := p.2).
  - apply run_store; [apply run_start; reflexivity|repeat constructor|lia].
  - reflexivity.
  - rewrite <- Hp. reflexivity.
Defined.

(** Two exchanges for different questions. *)
Definition other_query : Msg := mkMsg 8 false false true false RcodeSuccess [mkQuestion "b.example." TypeA ClassINET] [] [] [].

Definition begin_sample (message : Msg) (st : ExchangeState sample_cache) : beginResult * ExchangeState sample_cache :=
  beginExchange (sample_client false) None None 0 None sample_transport message zero_DNSQueryOptions None st.

Definition begin_step (message : Msg) (s : @System sample_cache) : @System sample_cache :=
  mkSystem (begin_sample message (sys_state s)).2
    (match (begin_sample message (sys_state s)).1 with BeginReady op => op :: sys_running s | _ => sys_running s end).

Definition two_running : @System sample_cache := begin_step other_query (begin_step dns_query (mkSystem sample_state [])).

Lemma begin_step_step message s :
  clientStep (sample_client false) None None (fun _ => None) (fun m _ _ => m) s (begin_step message s).
Proof.
  apply (step_begin _ _ _ _ _ s 0 None sample_transport message zero_DNSQueryOptions None
    (begin_sample message (sys_state s)).1 (begin_sample message (sys_state s)).2), surjective_pairing.
Qed.

Lemma one_exchange_per_key_witness :
  length (sys_running two_running) = 2%nat /\ es_lock (sys_state two_running) ≡ₚ omap op_lock (sys_running two_running).
Proof.
  split; [vm_compute; reflexivity|].
  apply (one_exchange_per_key (sample_client false) None None (fun _ => None) (fun m _ _ => m) (es_cache sample_state)
    two_running 0 1 (mkOperation dns_query sample_question 0 zero_DNSQueryOptions None false sample_key None)
    (mkOperation dns_query sample_question 0 zero_DNSQueryOptions None false sample_key None)).
  apply (rtc_l _ _ _ _ (begin_step_step dns_query _)), rtc_once. apply (begin_step_step other_query).
Defined.

(** Options with a subnet for the server. *)
Definition subnet_options : DNSQueryOptions :=
  mkQueryOptions None 0 0 false false None 0 (mkPrefix (Addr4 16909056) 24) false.

Lemma cached_under_sent_subnet_witness :
  match (beginExchange (sample_client false) None None 0 None sample_transport dns_query subnet_options None sample_state).1 with
  | BeginReady op => ck_clientSubnet (op_cacheKey op) = clientSubnetFromMessage (op_message op)
  | _ => False
  end.
Proof.
  assert (Hb : exists op st', beginExchange (sample_client false) None None 0 None sample_transport dns_query subnet_options
    None sample_state = (BeginReady op, st') /\ op_disableCache op = false) by (eexists _, _; split; reflexivity).
  destruct Hb as (op & st' & Hb & Hd). rewrite Hb.
  apply (cached_under_sent_subnet (sample_client false) None None 0 None sample_transport dns_query subnet_options None
    sample_state op st'); [|exact Hb|exact Hd].
  split; [intros _; vm_compute; repeat split; discriminate|discriminate].
Defined.

Lemma cached_response_unchecked_witness :
  let st := mkExchangeState filled [] [] in
  exists response, (beginExchange (sample_client false) None None (30 * second) None sample_transport dns_query
    zero_DNSQueryOptions (Some (fun _ => false)) st).1 = BeginDone (Ok response).
Proof.
  eexists. eapply (cached_response_unchecked (sample_client false) None None (30 * second) None sample_transport dns_query
    sample_question zero_DNSQueryOptions (fun _ => false) (mkExchangeState filled [] [])); reflexivity.
Defined.
End concrete.

Lemma response_ttl_bounds_witness :
  let c := NewClient (mkClient 0 false false 0 0 false 120 90 zero_prefix) in
  (applyResponseOptions c (mkQuestion "a.example." TypeA ClassINET) (sample_response [1; 2; 3; 4]) zero_DNSQueryOptions).2 = 120 /\
  (c_minCacheTTL c <= 120 /\ (0 < c_maxCacheTTL c -> 120 <= c_maxCacheTTL c)).
Proof.
  intros c. split; [reflexivity|].
  destruct (response_ttl_bounds (mkClient 0 false false 0 0 false 120 90 zero_prefix) (mkQuestion "a.example." TypeA ClassINET)
    (sample_response [1; 2; 3; 4]) zero_DNSQueryOptions) as (_ & Hmin & Hmax).
  - cbn. lia.
  - reflexivity.
  - split; [exact Hmin|exact Hmax].
Defined.

(** Three addresses, one of them an IPv6 address. *)
Definition three_answers : list RR :=
  [mkRR (mkRRHeader "a.example." TypeA ClassINET 60) (RR_A [1; 2; 3; 4]);
   mkRR (mkRRHeader "a.example." TypeAAAA ClassINET 0) (RR_AAAA (replicate 16 1));
   mkRR (mkRRHeader "a.example." TypeA ClassINET 30) (RR_A [5; 6; 7; 8])].

Definition three_response : Msg := mkMsg 0 true false true true RcodeSuccess [] three_answers [] [].

Lemma time_to_live_least_witness :
  computeTimeToLive three_response = 30 /\ least_positive (ttls (all_records three_response)) 30.
Proof.
  split; [reflexivity|]. apply (time_to_live_least three_response). repeat constructor; cbn; lia.
Defined.

Lemma round_robin_fair_witness :
  map (fun a => head (List.filter is_A a)) (loads 2 (mkRotation 7 0) three_answers) ≡ₚ
  map Some (List.filter is_A three_answers).
Proof.
  apply (round_robin_fair (mkRotation 7 0) three_answers); [repeat constructor|cbn; lia].
Defined.

Lemma client_subnet_roundtrip_witness :
  clientSubnetFromMessage (SetClientSubnet dns_query (mkPrefix (Addr4 16909056) 24)) = mkPrefix (Addr4 16909056) 24.
Proof. apply client_subnet_roundtrip. vm_compute. repeat split; discriminate. Defined.

(** A query with an OPT record and a signature after it. *)
Definition signed_query : Msg :=
  mkMsg 7 false false true false RcodeSuccess [mkQuestion "a.example." TypeA ClassINET] [] []
    [mkRR (mkRRHeader "." TypeOPT 1232 0) (RR_OPT []); mkRR (mkRRHeader "key." 250 255 0) (RR_Other [])].

Lemma second_opt_record_witness :
  length (opt_records signed_query) = 1%nat /\
  length (opt_records (SetClientSubnet signed_query (mkPrefix (Addr4 16909056) 24))) = 2%nat.
Proof.
  split; [reflexivity|].
  apply (second_opt_record signed_query [mkRR (mkRRHeader "." TypeOPT 1232 0) (RR_OPT [])]
    (mkRR (mkRRHeader "key." 250 255 0) (RR_Other []))); [reflexivity|repeat constructor|reflexivity].
Defined.
