(* ===== verification/Lifecycle.v ===== *)
(** * Scopes of components

    [src/adapter/lifecycle.go] and [src/adapter/lifecycle_group.go]: a scope collects
    what has to be cleaned up, one child scope per component it starts, and runs it in
    reverse order when it is closed; a group owns components that come and go. *)

From stdpp Require Import base gmap strings list.
From Stdlib Require Import ZArith Lia.
From S2P Require Import Prelude.

Inductive StartStage : Type :=
| StartStateInitialize
| StartStateStart
| StartStatePostStart
| StartStateStarted.

#[export] Instance StartStage_eq_dec : EqDecision StartStage.
Proof. solve_decision. Defined.

Definition ListStartStages : list StartStage :=
  [StartStateInitialize; StartStateStart; StartStatePostStart; StartStateStarted].

Definition stage_index (s : StartStage) : nat :=
  match s with
  | StartStateInitialize => 0
  | StartStateStart => 1
  | StartStatePostStart => 2
  | StartStateStarted => 3
  end.

Definition StartStage_String (s : StartStage) : string :=
  match s with
  | StartStateInitialize => "initialize"
  | StartStateStart => "start"
  | StartStatePostStart => "post-start"
  | StartStateStarted => "finish-start"
  end.

(** Components are told apart by identity. *)
Definition Component : Type := nat.

(** What the list of cleanups holds: a function that was added, or the closing of the
    scope of a component. *)
Inductive Cleanup (A S : Type) : Type :=
| CleanupFunc (f : A)
| CleanupChild (name : string) (component : Component) (child : S).
Arguments CleanupFunc {A S}.
Arguments CleanupChild {A S}.

(** [Scope]; the children are those of the cleanups. *)
Inductive Scope (A : Type) : Type := mkScope (cancelled : bool) (cleanups : list (Cleanup A (Scope A))).
Arguments mkScope {A}.

Definition ErrCanceled : error := ENew "context canceled".
Definition ErrClosed : error := ENew "file already closed".

Section scope.
Context {A : Type}.
(** A component's [Start]: what it adds to its scope, and its result. *)
Context (component_Start : Component -> StartStage -> list A * result unit).
(** What a cleanup function returns. *)
Context (run : A -> option error).
(** sing's [E.IsClosed] and [E.IsCanceled], and how it joins errors and takes them apart. *)
Context (IsClosed IsCanceled : error -> bool) (Errors : list error -> option error) (Expand : option error -> list error).
Implicit Types (s : Scope A).

Definition NewScope : Scope A := mkScope false [].

Definition sc_cancelled s : bool := match s with mkScope cancelled _ => cancelled end.
Definition sc_cleanups s : list (Cleanup A (Scope A)) := match s with mkScope _ cleanups => cleanups end.

Definition Scope_Add (f : A) s : Scope A := mkScope (sc_cancelled s) (sc_cleanups s ++ [CleanupFunc f]).

Definition is_child (component : Component) (c : Cleanup A (Scope A)) : bool :=
  match c with CleanupChild _ component' _ => bool_decide (component' = component) | CleanupFunc _ => false end.

(** What a component adds goes to its own scope. *)
Definition add_all (fs : list A) s : Scope A := foldl (fun s f => Scope_Add f s) s fs.

Definition update_child (component : Component) (f : Scope A -> Scope A) (c : Cleanup A (Scope A)) : Cleanup A (Scope A) :=
  match c with
  | CleanupChild name component' child =>
      if decide (component' = component) then CleanupChild name component' (f child) else c
  | CleanupFunc _ => c
  end.

(** [Scope.Start] *)
Definition Scope_Start (name : string) (component : Component) (stage : StartStage) s : result unit * Scope A :=
  if sc_cancelled s then (Err ErrCanceled, s)
  else
    let cleanups :=
      if existsb (is_child component) (sc_cleanups s) then sc_cleanups s
      else sc_cleanups s ++ [CleanupChild name component NewScope] in
    let '(added, r) := component_Start component stage in
    (result_map_err (fun e => ECause e (StartStage_String stage +:+ " " +:+ name)) r,
     mkScope false (map (update_child component (add_all added)) cleanups)).

(** [Scope.Close]: the functions it runs, in order, and its error. *)
Fixpoint Scope_Close s : list A * option error :=
  match s with
  | mkScope _ cleanups =>
      let close (c : Cleanup A (Scope A)) : list A * option error :=
        match c with
        | CleanupFunc f => ([f], run f)
        | CleanupChild name _ child =>
            let '(ran, closeErr) := Scope_Close child in
            (ran, match closeErr with Some e => Some (ECause e ("close " +:+ name)) | None => None end)
        end in
      let closed := rev (map close cleanups) in
      (flat_map fst closed,
       Errors (List.filter (fun e => negb (IsClosed e) && negb (IsCanceled e)) (flat_map (fun c => Expand c.2) closed)))
  end.

(** The scope after [Close]. *)
Definition Scope_closed s : Scope A := mkScope true [].

(** ** Groups *)

(** [LifecycleGroup]; the context of its parent is [parentCancelled]. *)
Record LifecycleGroup : Type := mkGroup {
  lg_closed : bool;
  lg_scopes : gmap Component (Scope A);
  lg_order : list Component
}.

Definition NewLifecycleGroup : LifecycleGroup := mkGroup false ∅ [].

Definition Group_Start (parentCancelled : bool) (name : string) (component : Component) (stage : StartStage)
    (g : LifecycleGroup) : result unit * LifecycleGroup :=
  if lg_closed g then (Err ErrClosed, g)
  else if parentCancelled then (Err ErrCanceled, g)
  else
    let '(scope, order) :=
      match lg_scopes g !! component with
      | Some scope => (scope, lg_order g)
      | None => (NewScope, lg_order g ++ [component])
      end in
    let '(r, scope') := Scope_Start name component stage scope in
    (r, mkGroup (lg_closed g) (<[component := scope']> (lg_scopes g)) order).

(** [slices.Delete] of the first occurrence. *)
Fixpoint delete_first (component : Component) (l : list Component) : list Component :=
  match l with
  | [] => []
  | c :: rest => if decide (c = component) then rest else c :: delete_first component rest
  end.

Definition Group_Remove (component : Component) (g : LifecycleGroup) : list A * option error * LifecycleGroup :=
  match lg_scopes g !! component with
  | None => ([], None, g)
  | Some scope =>
      let '(ran, err) := Scope_Close scope in
      (ran, err, mkGroup (lg_closed g) (delete component (lg_scopes g)) (delete_first component (lg_order g)))
  end.

(** The loop of [Close] over the order from its end; a component without a scope would
    be a nil dereference. *)
Definition close_loop (scopes : gmap Component (Scope A)) (order : list Component) : list A * option error :=
  foldl (fun '(ran, err) component =>
    let '(ran', err') := match scopes !! component with Some scope => Scope_Close scope | None => ([], Some (EPanic "nil scope")) end in
    (ran ++ ran', Errors (Expand err ++ Expand err'))) ([], None) (rev order).

Definition Group_Close (g : LifecycleGroup) : list A * option error * LifecycleGroup :=
  let '(ran, err) := close_loop (lg_scopes g) (lg_order g) in
  (ran, err, mkGroup true ∅ []).
End scope.

(** * Properties *)

Section properties.
Context {A : Type}.
Context (component_Start : Component -> StartStage -> list A * result unit) (run : A -> option error).
Context (IsClosed IsCanceled : error -> bool) (Errors : list error -> option error) (Expand : option error -> list error).
Implicit Types (s : Scope A) (fs : list A).

#[local] Abbreviation close := (Scope_Close run IsClosed IsCanceled Errors Expand).

(** ** What a scope owns *)

(** A function of its own, or the functions of a component in the order they were
    added. *)
Definition owned : Type := (A + Component * list A)%type.

Definition owned_ran (o : owned) : list A := match o with inl f => [f] | inr (_, fs) => rev fs end.

Definition owner (o : owned) : option Component := match o with inl _ => None | inr (c, _) => Some c end.

(** A scope of functions only. *)
Definition flat fs : Scope A := mkScope false (map CleanupFunc fs).

Definition owns (c : Cleanup A (Scope A)) (o : owned) : Prop :=
  match o with
  | inl f => c = CleanupFunc f
  | inr (component, fs) => exists name, c = CleanupChild name component (flat fs)
  end.

Lemma add_all_flat fs' fs : add_all fs' (flat fs) = flat (fs ++ fs').
Proof.
  revert fs. induction fs' as [|f fs' IH]; intros fs; cbn; [by rewrite app_nil_r|].
  assert (Hf : Scope_Add f (flat fs) = flat (fs ++ [f])) by (unfold flat; by rewrite map_app).
  change (add_all fs' (Scope_Add f (flat fs)) = flat (fs ++ f :: fs')). by rewrite Hf, IH, <- app_assoc.
Qed.

(** What closing one cleanup runs. *)
Definition cleanup_ran (c : Cleanup A (Scope A)) : list A :=
  match c with CleanupFunc f => [f] | CleanupChild _ _ child => (close child).1 end.

Lemma close_ran cancelled cleanups : (close (mkScope cancelled cleanups)).1 = flat_map cleanup_ran (rev cleanups).
Proof.
  cbn [Scope_Close fst]. rewrite <- map_rev. induction (rev cleanups) as [|c l IH]; cbn; [done|]. rewrite IH. f_equal.
  destruct c as [f|name component child]; cbn; [done|]. by destruct (close child).
Qed.

Lemma close_flat fs : (close (flat fs)).1 = rev fs.
Proof.
  unfold flat. rewrite close_ran, <- map_rev. induction (rev fs) as [|f l IH]; cbn; [done|by rewrite IH].
Qed.

Lemma close_owned cancelled cleanups l : Forall2 owns cleanups l ->
  (close (mkScope cancelled cleanups)).1 = flat_map owned_ran (rev l).
Proof.
  intros Hl. rewrite close_ran. induction Hl as [|c o cleanups l Ho _ IH]; cbn; [done|].
  rewrite !flat_map_app, IH. f_equal. cbn. rewrite !app_nil_r. destruct o as [f|[component fs]]; cbn in *.
  - by subst.
  - destruct Ho as [name ->]. cbn -[Scope_Close]. apply close_flat.
Qed.

(** ** Scopes *)

(** The component [c] adds [fs]. *)
Definition own (c : Component) fs (l : list owned) : list owned :=
  if existsb (fun o => bool_decide (owner o = Some c)) l
  then map (fun o => match o with inr (c', fs') => if decide (c' = c) then inr (c', fs' ++ fs) else o | inl _ => o end) l
  else l ++ [inr (c, fs)].

Lemma owns_child c cleanups l : Forall2 owns cleanups l ->
  existsb (is_child c) cleanups = existsb (fun o => bool_decide (owner o = Some c)) l.
Proof.
  induction 1 as [|x o cleanups l Ho _ IH]; cbn; [done|]. rewrite IH. f_equal. destruct o as [f|[c' fs]]; cbn in *.
  - by subst.
  - destruct Ho as [name ->]. cbn. by apply bool_decide_ext; split; [intros ->|intros [= ->]].
Qed.

Lemma owns_update c fs cleanups l : Forall2 owns cleanups l ->
  Forall2 owns (map (update_child c (add_all fs)) cleanups)
    (map (fun o => match o with inr (c', fs') => if decide (c' = c) then inr (c', fs' ++ fs) else o | inl _ => o end) l).
Proof.
  induction 1 as [|x o cleanups l Ho _ IH]; cbn; [done|]. constructor; [|done]. destruct o as [f|[c' fs']]; cbn in *.
  - by subst.
  - destruct Ho as [name ->]. cbn. destruct (decide (c' = c)); cbn; exists name; [|done]. by rewrite add_all_flat.
Qed.

Lemma no_owner_update c fs (l : list owned) : existsb (fun o => bool_decide (owner o = Some c)) l = false ->
  map (fun o : owned => match o with inr (c', fs') => if decide (c' = c) then inr (c', fs' ++ fs) else o | inl _ => o end) l = l.
Proof.
  induction l as [|o l IH]; cbn; [done|]. intros [Ho Hl]%orb_false_iff. rewrite IH by done. f_equal.
  apply bool_decide_eq_false in Ho. destruct o as [f|[c' fs']]; [done|]. cbn in Ho. destruct (decide (c' = c)); congruence.
Qed.

(** Starting a component adds what it adds to its part of the scope, also if it fails. *)
Lemma Scope_Start_owns name c stage s l : sc_cancelled s = false -> Forall2 owns (sc_cleanups s) l ->
  let s' := (Scope_Start component_Start name c stage s).2 in
  sc_cancelled s' = false /\ Forall2 owns (sc_cleanups s') (own c (component_Start c stage).1 l).
Proof.
  intros Hc Hl. unfold Scope_Start. rewrite Hc. destruct (component_Start c stage) as [fs r]. cbn. split; [done|].
  unfold own. rewrite (owns_child c _ _ Hl). destruct (existsb _ l) eqn:He; [by apply owns_update|].
  rewrite map_app. cbn. rewrite decide_True by done. apply Forall2_app.
  - rewrite <- (no_owner_update c fs l He). by apply owns_update.
  - constructor; [|done]. exists name. cbn. change NewScope with (flat []). by rewrite add_all_flat.
Qed.

(** A sequence of calls on an open scope, and what it adds. *)
Inductive scopeOp : Type := OpAdd (f : A) | OpStart (name : string) (c : Component) (stage : StartStage).

Definition scope_op (o : scopeOp) s : Scope A :=
  match o with OpAdd f => Scope_Add f s | OpStart name c stage => (Scope_Start component_Start name c stage s).2 end.

Definition op_adds (o : scopeOp) : list A :=
  match o with OpAdd f => [f] | OpStart _ c stage => (component_Start c stage).1 end.

Definition own_op (l : list owned) (o : scopeOp) : list owned :=
  match o with OpAdd f => l ++ [inl f] | OpStart _ c stage => own c (component_Start c stage).1 l end.

Lemma scope_ops_own ops s l : sc_cancelled s = false -> Forall2 owns (sc_cleanups s) l ->
  let s' := foldl (fun s o => scope_op o s) s ops in
  sc_cancelled s' = false /\ Forall2 owns (sc_cleanups s') (foldl own_op l ops).
Proof.
  revert s l. induction ops as [|o ops IH]; intros s l Hc Hl; cbn; [done|]. destruct o as [f|name c stage]; cbn.
  - apply IH; [done|]. cbn. apply Forall2_app; [done|by repeat constructor].
  - destruct (Scope_Start_owns name c stage s l Hc Hl). by apply IH.
Qed.

(** The functions of the entries, in the order they were added to them. *)
Definition contents (l : list owned) : list A := flat_map (fun o => match o with inl f => [f] | inr (_, fs) => fs end) l.

Definition owners (l : list owned) : list Component := omap owner l.

Lemma ran_contents l : flat_map owned_ran (rev l) ≡ₚ contents l.
Proof.
  induction l as [|o l IH]; cbn; [done|]. rewrite flat_map_app, IH. cbn. rewrite app_nil_r.
  rewrite Permutation_app_comm. apply Permutation_app; [|done].
  destruct o as [f|[c fs]]; cbn; [done|]. symmetry. apply Permutation_rev.
Qed.

Lemma own_contents c fs l : NoDup (owners l) ->
  contents (own c fs l) ≡ₚ contents l ++ fs /\ NoDup (owners (own c fs l)).
Proof.
  intros Hn. unfold own. destruct (existsb _ l) eqn:He.
  - split.
    + revert Hn He. induction l as [|o l IH]; cbn; [done|]. intros Hn He. destruct o as [f|[c' fs']]; cbn in *.
      * by rewrite IH.
      * apply NoDup_cons in Hn as [Hc Hn]. case_bool_decide as Hb; cbn in He.
        -- injection Hb as ->. rewrite decide_True by done. rewrite no_owner_update.
           ++ fold (contents l). rewrite <- !app_assoc. f_equiv. apply Permutation_app_comm.
           ++ apply not_true_is_false. intros (o & Ho & Hbo)%existsb_exists. apply bool_decide_eq_true in Hbo.
              apply Hc, list_elem_of_omap. exists o. split; [by apply list_elem_of_In|done].
        -- destruct (decide (c' = c)); [congruence|]. cbn. rewrite IH by done. by rewrite app_assoc.
    + replace (owners _) with (owners l); [done|]. clear. unfold owners. induction l as [|[f|[c' fs']] l IH]; cbn; [done..|].
      rewrite <- IH. by destruct (decide (c' = c)).
  - unfold contents, owners. rewrite flat_map_app, omap_app. cbn. rewrite app_nil_r. split; [done|].
    apply NoDup_app. split_and!; [done| |apply NoDup_singleton].
    intros x Hx ->%list_elem_of_singleton. apply list_elem_of_omap in Hx as (o & Ho & Hox).
    apply not_true_iff_false in He. apply He, existsb_exists. exists o. split; [by apply list_elem_of_In|].
    by apply bool_decide_eq_true.
Qed.

Lemma own_ops_contents ops l : NoDup (owners l) ->
  contents (foldl own_op l ops) ≡ₚ contents l ++ flat_map op_adds ops /\ NoDup (owners (foldl own_op l ops)).
Proof.
  revert l. induction ops as [|o ops IH]; intros l Hn; cbn; [by rewrite app_nil_r|].
  assert (Ho : contents (own_op l o) ≡ₚ contents l ++ op_adds o /\ NoDup (owners (own_op l o))).
  { destruct o as [f|name c stage]; cbn; [|by apply own_contents].
    unfold contents, owners. rewrite flat_map_app, omap_app. cbn. by rewrite !app_nil_r. }
  destruct Ho as [Hp Hn']. destruct (IH _ Hn') as [H1 H2]. split; [|done]. by rewrite H1, Hp, app_assoc.
Qed.

(** Closing a scope runs everything that was added to it, once, components in reverse
    order of their first start. *)
Lemma scope_close_all ops : let s := foldl (fun s o => scope_op o s) NewScope ops in
  (close s).1 = flat_map owned_ran (rev (foldl own_op [] ops)) /\ (close s).1 ≡ₚ flat_map op_adds ops.
Proof.
  intros s. destruct (scope_ops_own ops NewScope [] eq_refl) as [_ Ho]; [constructor|]. fold s in Ho.
  assert (Hr : (close s).1 = flat_map owned_ran (rev (foldl own_op [] ops))) by (destruct s; by apply close_owned).
  split; [done|]. rewrite Hr, ran_contents. destruct (own_ops_contents ops []) as [-> _]; [constructor|done].
Qed.

(** ** Groups *)

Lemma NoDup_fmap_fst {K V : Type} (l : list (K * V)) k v v' : NoDup (map fst l) -> (k, v) ∈ l -> (k, v') ∈ l -> v = v'.
Proof.
  intros Hn Hv Hv'. apply list_elem_of_lookup in Hv as [i Hi], Hv' as [j Hj].
  assert (i = j) as ->; [|congruence]. eapply NoDup_lookup; [done| |]; rewrite list_lookup_fmap; [by rewrite Hi|by rewrite Hj].
Qed.

(** What a group owns: its components in the order they came, with their functions. *)
Definition groupOwned : Type := list (Component * list A).

Definition group_scope (scope : Scope A) (c : Component) fs : Prop :=
  exists name, scope = mkScope false [CleanupChild name c (flat fs)].

Definition group_owns (g : LifecycleGroup) (l : groupOwned) : Prop :=
  lg_closed g = false /\ lg_order g = map fst l /\ NoDup (map fst l) /\
  (forall c, c ∉ map fst l -> lg_scopes g !! c = None) /\
  forall c fs, (c, fs) ∈ l -> exists scope, lg_scopes g !! c = Some scope /\ group_scope scope c fs.

Definition group_own (c : Component) fs (l : groupOwned) : groupOwned :=
  if bool_decide (c ∈ map fst l) then map (fun o => if decide (o.1 = c) then (o.1, o.2 ++ fs) else o) l else l ++ [(c, fs)].

Definition group_disown (c : Component) (l : groupOwned) : groupOwned := List.filter (fun o => negb (bool_decide (o.1 = c))) l.

Lemma own_keys c fs (l : groupOwned) : map fst (map (fun o => if decide (o.1 = c) then (o.1, o.2 ++ fs) else o) l) = map fst l.
Proof. rewrite map_map. apply map_ext. intros o. by destruct (decide (o.1 = c)). Qed.

Lemma start_scope name c stage scope fs : group_scope scope c fs ->
  group_scope (Scope_Start component_Start name c stage scope).2 c (fs ++ (component_Start c stage).1).
Proof.
  intros [name' ->]. unfold Scope_Start. destruct (component_Start c stage) as [added r]. cbn.
  rewrite bool_decide_eq_true_2 by done. cbn. rewrite decide_True by done. exists name'. by rewrite add_all_flat.
Qed.

Lemma start_new_scope name c stage :
  group_scope (Scope_Start component_Start name c stage NewScope).2 c (component_Start c stage).1.
Proof.
  unfold Scope_Start. destruct (component_Start c stage) as [added r]. cbn. rewrite decide_True by done.
  exists name. change NewScope with (flat []). by rewrite add_all_flat.
Qed.

Lemma elem_keys (l : groupOwned) c fs : (c, fs) ∈ l -> c ∈ map fst l.
Proof. intros Hl. apply list_elem_of_fmap. by exists (c, fs). Qed.

Lemma Group_Start_owns name c stage g l : group_owns g l ->
  group_owns (Group_Start component_Start false name c stage g).2 (group_own c (component_Start c stage).1 l).
Proof.
  intros (Hc & Ho & Hn & Hout & Hin). unfold Group_Start, group_own. rewrite Hc. case_bool_decide as Hk.
  - apply list_elem_of_fmap in Hk as ([c0 fs] & -> & Hl). cbn. destruct (Hin _ _ Hl) as (scope & Hs & Hg).
    rewrite Hs. pose proof (start_scope name c0 stage scope fs Hg) as Hg'.
    destruct (Scope_Start component_Start name c0 stage scope) as [r scope']. cbn in *.
    unfold group_owns. cbn. rewrite own_keys. split_and!; [done..| |].
    + intros c Hc'. rewrite lookup_insert_ne; [by apply Hout|]. intros ->. by apply Hc', elem_keys with (fs := fs).
    + intros c fs' ([c1 fs1] & Heq & H1)%list_elem_of_fmap. cbn in Heq. destruct (decide (c1 = c0)) as [->|Hne].
      * injection Heq as -> ->. rewrite lookup_insert_eq. eexists. split; [done|].
        assert (fs1 = fs) as -> by (eapply NoDup_fmap_fst; done). done.
      * injection Heq as -> ->. rewrite lookup_insert_ne by done. by apply Hin.
  - rewrite (Hout c Hk). pose proof (start_new_scope name c stage) as Hg.
    destruct (Scope_Start component_Start name c stage NewScope) as [r scope']. cbn in *.
    unfold group_owns. cbn. rewrite map_app, Ho. cbn. split_and!; [done..| | |].
    + apply NoDup_app. split_and!; [done| |apply NoDup_singleton]. by intros x Hx ->%list_elem_of_singleton.
    + intros c' [Hc' Hne]%not_elem_of_app. rewrite lookup_insert_ne; [by apply Hout|]. intros ->. set_solver.
    + intros c' fs' [Hl|[= -> ->]%list_elem_of_singleton]%elem_of_app.
      * rewrite lookup_insert_ne; [by apply Hin|]. intros ->. by apply Hk, elem_keys with (fs := fs').
      * rewrite lookup_insert_eq. by eexists.
Qed.

#[local] Abbreviation remove := (Group_Remove run IsClosed IsCanceled Errors Expand).
#[local] Abbreviation close_group := (Group_Close run IsClosed IsCanceled Errors Expand).

Lemma close_group_scope scope c fs : group_scope scope c fs -> (close scope).1 = rev fs.
Proof. intros [name ->]. rewrite close_ran. cbn -[Scope_Close]. by rewrite close_flat, app_nil_r. Qed.

Lemma disown_absent c (l : groupOwned) : c ∉ map fst l -> group_disown c l = l.
Proof.
  intros Hc. apply List.forallb_filter_id, forallb_forall. intros o Ho. apply negb_true_iff, bool_decide_eq_false. intros <-.
  apply Hc, list_elem_of_fmap. exists o. split; [done|by apply list_elem_of_In].
Qed.

Lemma delete_first_keys c (l : groupOwned) : NoDup (map fst l) ->
  delete_first c (map fst l) = map fst (group_disown c l).
Proof.
  induction l as [|[c' fs] l IH]; cbn; [done|]. intros [Hc Hn]%NoDup_cons.
  destruct (decide (c' = c)) as [->|Hne].
  - rewrite bool_decide_eq_true_2 by done. cbn. change (List.filter _ l) with (group_disown c l). by rewrite disown_absent.
  - rewrite bool_decide_eq_false_2 by done. cbn. change (List.filter _ l) with (group_disown c l). by rewrite IH.
Qed.

Lemma disown_elem c (l : groupOwned) o : o ∈ group_disown c l <-> o ∈ l /\ o.1 <> c.
Proof.
  unfold group_disown. rewrite !list_elem_of_In, filter_In, negb_true_iff, bool_decide_eq_false. done.
Qed.

(** The functions of one component. *)
Definition functions (c : Component) (l : groupOwned) : list A :=
  flat_map (fun o => if decide (o.1 = c) then o.2 else []) l.

Lemma functions_absent c (l : groupOwned) : c ∉ map fst l -> functions c l = [].
Proof.
  induction l as [|[c1 fs1] l IH]; cbn; [done|]. intros [Hne Hc]%not_elem_of_cons. rewrite decide_False by done. by apply IH.
Qed.

Lemma functions_elem c fs (l : groupOwned) : NoDup (map fst l) -> (c, fs) ∈ l -> functions c l = fs.
Proof.
  induction l as [|[c' fs'] l IH]; cbn; [by intros _ []%not_elem_of_nil|]. fold (functions c l).
  intros [Hc Hn]%NoDup_cons [[= -> ->]|Hl]%elem_of_cons.
  - rewrite decide_True by done. by rewrite functions_absent, app_nil_r.
  - destruct (decide (c' = c)) as [->|Hne]; [by destruct Hc; apply elem_keys in Hl|]. by apply IH.
Qed.

(** Removing a component runs its functions, the last one first. *)
Lemma Group_Remove_owns c g l : group_owns g l ->
  (remove c g).1.1 = rev (functions c l) /\ group_owns (remove c g).2 (group_disown c l).
Proof.
  intros (Hc & Ho & Hn & Hout & Hin). unfold Group_Remove. destruct (lg_scopes g !! c) as [scope|] eqn:Hs.
  - assert (Hk : c ∈ map fst l) by (destruct (decide (c ∈ map fst l)) as [?|Hk]; [done|]; apply Hout in Hk; congruence).
    apply list_elem_of_fmap in Hk as ([c0 fs] & -> & Hl). cbn in *. destruct (Hin _ _ Hl) as (scope' & Hs' & Hg).
    rewrite Hs in Hs'. injection Hs' as <-. pose proof (close_group_scope _ _ _ Hg) as Hr.
    destruct (close scope) as [ran err]. cbn in *. rewrite (functions_elem _ fs) by done. split; [done|].
    unfold group_owns. cbn. rewrite Ho, delete_first_keys by done. split_and!; [done..| | |].
    + rewrite <- delete_first_keys by done. clear -Hn. induction (map fst l) as [|x k IH]; cbn; [done|].
      apply NoDup_cons in Hn as [Hx Hn]. destruct (decide (x = c0)); [done|]. apply NoDup_cons. split; [|by apply IH].
      intros Hin. apply Hx. clear -Hin. induction k as [|y k IH]; cbn in Hin; [done|].
      destruct (decide (y = c0)); [by right|]. apply elem_of_cons in Hin as [->|Hin]; [by left|right; auto].
    + intros c Hk. destruct (decide (c = c0)) as [->|Hne]; [by rewrite lookup_delete_eq|].
      rewrite lookup_delete_ne by done. apply Hout. intros ([c1 fs1] & -> & H1)%list_elem_of_fmap. apply Hk.
      apply list_elem_of_fmap. exists (c1, fs1). split; [done|]. by apply disown_elem.
    + intros c fs' [Hcl Hne]%disown_elem. cbn in Hne. rewrite lookup_delete_ne by done. by apply Hin.
  - assert (Hk : c ∉ map fst l).
    { intros ([c0 fs] & -> & Hl)%list_elem_of_fmap. destruct (Hin _ _ Hl) as (scope' & Hs' & _). cbn in Hs. congruence. }
    rewrite functions_absent, disown_absent by done. by split_and!.
Qed.

Definition group_contents (l : groupOwned) : list A := flat_map snd l.

Lemma group_own_contents c fs l : NoDup (map fst l) -> group_contents (group_own c fs l) ≡ₚ group_contents l ++ fs.
Proof.
  intros Hn. unfold group_own, group_contents. case_bool_decide as Hk; [|rewrite flat_map_app; cbn; by rewrite app_nil_r].
  revert Hn Hk. induction l as [|[c' fs'] l IH]; cbn; [by intros _ []%not_elem_of_nil|].
  intros [Hc Hn]%NoDup_cons Hk. destruct (decide (c' = c)) as [->|Hne]; cbn.
  - replace (map (fun o => if decide (o.1 = c) then (o.1, o.2 ++ fs) else o) l) with l.
    + rewrite <- !app_assoc. apply Permutation_app; [done|]. apply Permutation_app_comm.
    + symmetry. rewrite <- (map_id l) at 2. apply map_ext_in. intros o Ho. rewrite decide_False; [done|]. intros <-.
      apply Hc, list_elem_of_fmap. exists o. split; [done|by apply list_elem_of_In].
  - apply elem_of_cons in Hk as [?|Hk]; [done|]. rewrite IH by done. by rewrite app_assoc.
Qed.

Lemma group_disown_contents c l : functions c l ++ group_contents (group_disown c l) ≡ₚ group_contents l.
Proof.
  induction l as [|[c' fs'] l IH]; cbn; [done|]. fold (functions c l). change (List.filter _ l) with (group_disown c l).
  destruct (decide (c' = c)) as [->|Hne].
  - rewrite bool_decide_eq_true_2 by done. cbn. rewrite <- app_assoc. by rewrite IH.
  - rewrite bool_decide_eq_false_2 by done. cbn. change (flat_map snd l) with (group_contents l). rewrite <- IH.
    rewrite !app_assoc. apply Permutation_app; [apply Permutation_app_comm|done].
Qed.

(** A sequence of calls on a group. *)
Inductive groupOp : Type := GStart (name : string) (c : Component) (stage : StartStage) | GRemove (c : Component).

Definition group_op (o : groupOp) (g : LifecycleGroup) : list A * LifecycleGroup :=
  match o with
  | GStart name c stage => ([], (Group_Start component_Start false name c stage g).2)
  | GRemove c => let '(ran, _, g') := remove c g in (ran, g')
  end.

Fixpoint group_ops (ops : list groupOp) (g : LifecycleGroup) : list A * LifecycleGroup :=
  match ops with
  | [] => ([], g)
  | o :: rest =>
      let '(ran, g1) := group_op o g in
      let '(ran', g2) := group_ops rest g1 in (ran ++ ran', g2)
  end.

Definition group_adds (o : groupOp) : list A :=
  match o with GStart _ c stage => (component_Start c stage).1 | GRemove _ => [] end.

Definition group_own_op (l : groupOwned) (o : groupOp) : groupOwned :=
  match o with GStart _ c stage => group_own c (component_Start c stage).1 l | GRemove c => group_disown c l end.

Lemma group_op_owns o g l : group_owns g l ->
  group_owns (group_op o g).2 (group_own_op l o) /\
  (group_op o g).1 ++ group_contents (group_own_op l o) ≡ₚ group_contents l ++ group_adds o.
Proof.
  intros Hg. pose proof Hg as (_ & _ & Hn & _). destruct o as [name c stage|c]; cbn.
  - split; [by apply Group_Start_owns|by apply group_own_contents].
  - destruct (Group_Remove_owns c g l Hg) as [Hr Ho]. destruct (remove c g) as [[ran err] g']. cbn in *. split; [done|].
    rewrite Hr, app_nil_r, <- Permutation_rev. apply group_disown_contents.
Qed.

Lemma group_ops_owns ops g l : group_owns g l ->
  group_owns (group_ops ops g).2 (foldl group_own_op l ops) /\
  (group_ops ops g).1 ++ group_contents (foldl group_own_op l ops) ≡ₚ group_contents l ++ flat_map group_adds ops.
Proof.
  revert g l. induction ops as [|o ops IH]; intros g l Hg; cbn; [by rewrite app_nil_r|].
  destruct (group_op_owns o g l Hg) as [Hg1 Hp1]. destruct (group_op o g) as [ran g1]. cbn in *.
  destruct (IH g1 _ Hg1) as [Hg2 Hp2]. destruct (group_ops ops g1) as [ran' g2]. cbn in *. split; [done|].
  by rewrite <- app_assoc, Hp2, app_assoc, Hp1, app_assoc.
Qed.

Lemma close_loop_ran (scopes : gmap Component (Scope A)) (l0 : list A * option error) (l : groupOwned) : (forall c fs, (c, fs) ∈ l -> exists scope, scopes !! c = Some scope /\ group_scope scope c fs) ->
  (foldl (fun '(ran, err) component =>
    let '(ran', err') := match scopes !! component with Some scope => close scope | None => ([], Some (EPanic "nil scope")) end in
    (ran ++ ran', Errors (Expand err ++ Expand err'))) l0 (map fst l)).1 = l0.1 ++ flat_map (fun o => rev o.2) l.
Proof.
  revert l0. induction l as [|[c fs] l IH]; intros [ran err] Hl; cbn; [by rewrite app_nil_r|].
  destruct (Hl c fs) as (scope & -> & Hg); [by left|]. pose proof (close_group_scope _ _ _ Hg) as Hr.
  destruct (close scope) as [ran' err']. cbn in Hr. subst ran'. rewrite IH; [cbn; by rewrite app_assoc|].
  intros c' fs' Hin. apply Hl. by right.
Qed.

Lemma Group_Close_owns g l : group_owns g l -> (close_group g).1.1 = flat_map (fun o => rev o.2) (rev l).
Proof.
  intros (_ & Ho & _ & _ & Hin). unfold Group_Close, close_loop. rewrite Ho, <- map_rev.
  pose proof (close_loop_ran (lg_scopes g) ([], None) (rev l)) as Hr. cbn [fst app] in Hr.
  rewrite <- Hr; [by destruct (foldl _ _ _)|]. intros c fs Hl. apply Hin. by apply list_elem_of_In, in_rev, list_elem_of_In.
Qed.

Lemma rev_contents (l : groupOwned) : flat_map (fun o => rev o.2) (rev l) ≡ₚ group_contents l.
Proof.
  induction l as [|[c fs] l IH]; cbn; [done|]. rewrite flat_map_app, IH. cbn. rewrite app_nil_r, <- Permutation_rev.
  apply Permutation_app_comm.
Qed.

Lemma NewLifecycleGroup_owns : group_owns NewLifecycleGroup [].
Proof. split_and!; [done..|constructor|done|]. by intros c fs Hn%not_elem_of_nil. Qed.

(** Whatever came and went, closing the group leaves nothing behind. *)
Lemma group_close_all ops :
  let '(ran, g) := group_ops ops NewLifecycleGroup in
  (close_group g).1.1 = flat_map (fun o => rev o.2) (rev (foldl group_own_op [] ops)) /\
  ran ++ (close_group g).1.1 ≡ₚ flat_map group_adds ops.
Proof.
  destruct (group_ops_owns ops _ _ NewLifecycleGroup_owns) as [Hg Hp].
  destruct (group_ops ops NewLifecycleGroup) as [ran g]. cbn in *. pose proof (Group_Close_owns g _ Hg) as Hr.
  split; [done|]. by rewrite Hr, rev_contents.
Qed.
End properties.
