(* ===== verification/StartOrder.v ===== *)
(** * The order in which outbounds start

    [startOutbounds] of [src/adapter/outbound/manager.go]: rounds over the outbounds
    and endpoints that start what has its dependencies, until all are started or none
    can be, and then the search for what is wrong. *)

From stdpp Require Import base gmap strings list.
From Stdlib Require Import ZArith Lia.
From S2P Require Import Prelude Lifecycle.

(** An outbound or endpoint, with what the manager asks of it. *)
Record Outbound : Type := mkOutbound {
  ob_id : Component;
  ob_Tag : string;
  ob_Type : string;
  ob_Dependencies : list string;
  ob_isEndpoint : bool;
  ob_isLifecycle : bool
}.

#[export] Instance Outbound_eq_dec : EqDecision Outbound.
Proof. solve_decision. Defined.

Definition tags (l : list Outbound) : list string := map ob_Tag l.

Section start.
Context {W : Type}.
(** What starting one of them does. *)
Context (start : Outbound -> W -> result unit * W).
Context (outbounds : list Outbound).
Implicit Types (started : gset string) (s : W).

(** One round over the outbounds. *)
Fixpoint start_pass (l : list Outbound) started (canContinue : bool) s : result (gset string * bool) * W :=
  match l with
  | [] => (Ok (started, canContinue), s)
  | outboundToStart :: rest =>
      if bool_decide (ob_Tag outboundToStart ∈ started) then start_pass rest started canContinue s
      else if forallb (fun dependency => bool_decide (dependency ∈ started)) (ob_Dependencies outboundToStart) then
        match start outboundToStart s with
        | (Err err, s') => (Err err, s')
        | (Ok _, s') => start_pass rest ({[ob_Tag outboundToStart]} ∪ started) true s'
        end
      else start_pass rest started canContinue s
  end.

Definition circular (oTree : list string) (problem : string) : error :=
  ENew ("circular outbound dependency: " +:+ String.concat " -> " oTree +:+ " -> " +:+ problem).

Definition not_found (problem tag : string) : error :=
  ENew ("dependency[" +:+ problem +:+ "] not found for outbound[" +:+ tag +:+ "]").

(** [lintOutbound]; sing's [common.Find] gives a zero value when it finds nothing. *)
Fixpoint lintOutbound (fuel : nat) started (oTree : list string) (oCurrent : Outbound) : option error :=
  match fuel with
  | O => None
  | S fuel' =>
      let problem := default "" (List.find (fun it => negb (bool_decide (it ∈ started))) (ob_Dependencies oCurrent)) in
      if bool_decide (problem ∈ oTree) then Some (circular oTree problem)
      else
        match List.find (fun it => bool_decide (ob_Tag it = problem)) outbounds with
        | None => Some (not_found problem (ob_Tag oCurrent))
        | Some problemOutbound => lintOutbound fuel' started (oTree ++ [problem]) problemOutbound
        end
  end.

(** The rounds; [None] is out of fuel. *)
Fixpoint start_loop (fuel : nat) started s : option (result unit * W) :=
  match fuel with
  | O => None
  | S fuel' =>
      match start_pass outbounds started false s with
      | (Err err, s') => Some (Err err, s')
      | (Ok (started', canContinue), s') =>
          if (size started' =? length outbounds)%nat then Some (Ok tt, s')
          else if canContinue then start_loop fuel' started' s'
          else
            match List.find (fun it => negb (bool_decide (ob_Tag it ∈ started'))) outbounds with
            | None => Some (Err (EPanic "nil outbound"), s')
            | Some currentOutbound =>
                match lintOutbound (length outbounds) started' [ob_Tag currentOutbound] currentOutbound with
                | Some err => Some (Err err, s')
                | None => None
                end
            end
      end
  end.

Definition startOutbounds s : option (result unit * W) := start_loop (S (length outbounds)) ∅ s.

(** ** Properties *)

(** Starting the outbounds of a list one after the other, when all of them start. *)
Fixpoint starts (order : list Outbound) s : option W :=
  match order with
  | [] => Some s
  | o :: rest => match start o s with (Ok _, s') => starts rest s' | (Err _, _) => None end
  end.

(** Every outbound comes after its dependencies. *)
Definition dependencies_first (order : list Outbound) : Prop :=
  forall i o d, order !! i = Some o -> d ∈ ob_Dependencies o -> d ∈ tags (take i order).

(** What has been started so far. *)
Definition progress (order : list Outbound) started : Prop :=
  started = list_to_set (tags order) /\ NoDup (tags order) /\ order ⊆ outbounds /\ dependencies_first order.

(** An outbound that waits for another one. *)
Definition blocked started (o : Outbound) : Prop := exists d, d ∈ ob_Dependencies o /\ d ∉ started.

Lemma starts_app order order' s : starts (order ++ order') s = starts order s ≫= starts order'.
Proof. revert s. induction order as [|o order IH]; intros s; cbn; [done|]. by destruct (start o s) as [[[]|e] s']. Qed.

Lemma progress_step order started o : progress order started -> o ∈ outbounds -> ob_Tag o ∉ started ->
  forallb (fun dependency => bool_decide (dependency ∈ started)) (ob_Dependencies o) = true ->
  progress (order ++ [o]) ({[ob_Tag o]} ∪ started).
Proof.
  intros (-> & Hn & Hs & Hd) Ho Ht Hf. unfold tags in *. rewrite elem_of_list_to_set in Ht. split_and!.
  - unfold tags. rewrite map_app. cbn. set_solver.
  - unfold tags. rewrite map_app. apply NoDup_app. split_and!; [done| |apply NoDup_singleton]. by intros x Hx ->%list_elem_of_singleton.
  - set_solver.
  - intros i o' d Hi Hdep. apply lookup_app_Some in Hi as [Hi|[Hlen Hi]].
    + rewrite take_app_le by (apply lookup_lt_Some in Hi; lia). by eapply Hd.
    + apply list_lookup_singleton_Some in Hi as [Hz <-]. rewrite take_app_ge by lia.
      assert (i = length order) as -> by lia. rewrite Nat.sub_diag. cbn. rewrite app_nil_r.
      rewrite forallb_forall in Hf. apply list_elem_of_In, Hf, bool_decide_eq_true in Hdep. by apply elem_of_list_to_set in Hdep.
Qed.

Lemma not_blocked started o :
  forallb (fun dependency => bool_decide (dependency ∈ started)) (ob_Dependencies o) = false -> blocked started o.
Proof.
  intros Hf. destruct (decide (Forall (fun d => d ∈ started) (ob_Dependencies o))) as [Ha|Ha].
  - apply not_true_iff_false in Hf. destruct Hf. apply forallb_forall. intros d Hd. apply bool_decide_eq_true.
    rewrite Forall_forall in Ha. by apply Ha, list_elem_of_In.
  - apply not_Forall_Exists in Ha; [|intros x; apply _]. apply Exists_exists in Ha as (d & Hd & Hn). by exists d.
Qed.

(** How a round ends. *)
Definition pass_ended order started (l : list Outbound) (canContinue : bool) s (res : result (gset string * bool) * W) : Prop :=
  match res with
  | (Ok (started', canContinue'), s') =>
      exists order', starts order' s = Some s' /\ progress (order ++ order') started' /\
        canContinue' = canContinue || nonnil order' /\
        (order' = [] -> Forall (fun o => ob_Tag o ∈ started \/ blocked started o) l)
  | (Err err, s') =>
      exists order' o s1 started', starts order' s = Some s1 /\ progress (order ++ order') started' /\
        start o s1 = (Err err, s') /\ o ∈ outbounds /\ ~ blocked started' o
  end.

Lemma start_pass_ended l order started canContinue s : l ⊆ outbounds -> progress order started ->
  pass_ended order started l canContinue s (start_pass l started canContinue s).
Proof.
  revert order started canContinue s. induction l as [|o l IH]; intros order started cc s Hl Hp; cbn.
  { exists []. rewrite app_nil_r, orb_false_r. split_and!; [done..|]. constructor. }
  assert (Ho : o ∈ outbounds) by set_solver. assert (Hl' : l ⊆ outbounds) by set_solver.
  assert (Hskip : ob_Tag o ∈ started \/ blocked started o ->
    pass_ended order started (o :: l) cc s (start_pass l started cc s)).
  { intros Hb. specialize (IH order started cc s Hl' Hp). unfold pass_ended in *.
    destruct (start_pass l started cc s) as [[[started' cc']|e] s']; [|done].
    destruct IH as (order' & H1 & H2 & H3 & H4). exists order'. split_and!; try done. intros Hn. constructor; auto. }
  case_bool_decide as Ht; [by apply Hskip; left|].
  destruct (forallb _ _) eqn:Hf; [|by apply Hskip; right; apply not_blocked].
  assert (Hnb : ~ blocked started o).
  { intros (d & Hd & Hnd). apply Hnd. rewrite forallb_forall in Hf. by apply list_elem_of_In, Hf, bool_decide_eq_true in Hd. }
  destruct (start o s) as [[u|e] s1] eqn:Hst.
  - pose proof (progress_step order started o Hp Ho Ht Hf) as Hp'.
    specialize (IH (order ++ [o]) _ true s1 Hl' Hp'). unfold pass_ended in *.
    destruct (start_pass l _ true s1) as [[[started' cc']|e] s'].
    + destruct IH as (order' & H1 & H2 & H3 & H4). exists (o :: order'). cbn. rewrite Hst. rewrite <- app_assoc in H2. cbn in H2.
      split_and!; [done|done| |done]. cbn in H3. by rewrite H3, orb_true_r.
    + destruct IH as (order' & o' & s2 & started' & H1 & H2 & H3 & H4 & H5). exists (o :: order'), o', s2, started'.
      cbn. rewrite Hst. rewrite <- app_assoc in H2. by split_and!.
  - exists [], o, s, started. rewrite app_nil_r. by split_and!.
Qed.

(** ** What is reported when nothing more can start *)

Definition dependency_path (tree : list string) : Prop :=
  forall i a b, tree !! i = Some a -> tree !! S i = Some b -> exists o, o ∈ outbounds /\ ob_Tag o = a /\ b ∈ ob_Dependencies o.

(** A cycle of dependencies, or a dependency that does not exist. *)
Definition diagnosis (err : error) : Prop :=
  (exists tree problem, err = circular tree problem /\ problem ∈ tree /\ dependency_path (tree ++ [problem])) \/
  (exists o d, err = not_found d (ob_Tag o) /\ o ∈ outbounds /\ d ∈ ob_Dependencies o /\ d ∉ tags outbounds).

Lemma blocked_problem started o : blocked started o ->
  exists d, List.find (fun it => negb (bool_decide (it ∈ started))) (ob_Dependencies o) = Some d /\
    d ∈ ob_Dependencies o /\ d ∉ started.
Proof.
  intros (d & Hd & Hn). destruct (List.find _ _) as [d'|] eqn:Hf.
  - exists d'. apply find_some in Hf as [Hin Hb]. rewrite negb_true_iff, bool_decide_eq_false in Hb.
    split_and!; [done|by apply list_elem_of_In|done].
  - apply list_elem_of_In in Hd. apply (find_none _ _ Hf) in Hd. cbn in Hd.
    by rewrite negb_false_iff, bool_decide_eq_true in Hd.
Qed.

Lemma dependency_path_snoc tree o d : dependency_path (tree ++ [ob_Tag o]) -> o ∈ outbounds -> d ∈ ob_Dependencies o ->
  dependency_path ((tree ++ [ob_Tag o]) ++ [d]).
Proof.
  intros Hp Ho Hd i a b Ha Hb. apply lookup_app_Some in Hb as [Hb|[Hlen Hb]].
  - apply (Hp i); [|done]. rewrite lookup_app_l in Ha; [done|]. apply lookup_lt_Some in Hb. lia.
  - apply list_lookup_singleton_Some in Hb as [Hz <-]. rewrite length_app in *. cbn in *.
    assert (i = length tree) as -> by lia. rewrite lookup_app_l in Ha by (rewrite length_app; cbn; lia).
    rewrite lookup_app_r, Nat.sub_diag in Ha by lia. injection Ha as <-. by exists o.
Qed.

Lemma lintOutbound_diagnosis fuel started tree o :
  (forall o, o ∈ outbounds -> ob_Tag o ∉ started -> blocked started o) ->
  o ∈ outbounds -> ob_Tag o ∉ started -> NoDup (tree ++ [ob_Tag o]) -> tree ++ [ob_Tag o] ⊆ tags outbounds ->
  dependency_path (tree ++ [ob_Tag o]) -> (length outbounds <= fuel + length tree)%nat -> (0 < fuel)%nat ->
  exists err, lintOutbound fuel started (tree ++ [ob_Tag o]) o = Some err /\ diagnosis err.
Proof.
  intros Hst. revert tree o. induction fuel as [|fuel IH]; intros tree o Ho Ht Hn Hs Hp Hf Hpos; [lia|]. cbn.
  destruct (blocked_problem started o (Hst o Ho Ht)) as (d & -> & Hd & Hnd). cbn.
  pose proof (dependency_path_snoc tree o d Hp Ho Hd) as Hp'. case_bool_decide as Hin.
  { eexists. split; [done|]. left. by exists (tree ++ [ob_Tag o]), d. }
  destruct (List.find _ outbounds) as [o'|] eqn:Hfind.
  - apply find_some in Hfind as [Hin' Hb]. apply bool_decide_eq_true in Hb. apply list_elem_of_In in Hin'. subst d.
    assert (Hn' : NoDup ((tree ++ [ob_Tag o]) ++ [ob_Tag o'])).
    { apply NoDup_app. split_and!; [done| |apply NoDup_singleton]. by intros x Hx ->%list_elem_of_singleton. }
    assert (Hs' : (tree ++ [ob_Tag o]) ++ [ob_Tag o'] ⊆ tags outbounds).
    { intros x [Hx| ->%list_elem_of_singleton]%elem_of_app; [by apply Hs|]. apply list_elem_of_fmap. by exists o'. }
    pose proof (submseteq_length _ _ (NoDup_submseteq _ _ Hn' Hs')) as Hlen. unfold tags in Hlen.
    rewrite length_map, !length_app in Hlen. cbn in Hlen.
    apply IH; try done; [rewrite length_app; cbn; lia|lia].
  - eexists. split; [done|]. right. exists o, d. split_and!; [done..|]. intros (o' & -> & Ho')%list_elem_of_fmap.
    apply list_elem_of_In in Ho'. apply (find_none _ _ Hfind) in Ho'. by rewrite bool_decide_eq_false in Ho'.
Qed.

(** ** The rounds *)

(** How [startOutbounds] ends: all outbounds started in an order in which every one
    comes after its dependencies; or one of them failed to start; or nothing more can
    start and the error tells why. *)
Definition started_all s (res : result unit * W) : Prop :=
  exists order s1, starts order s = Some s1 /\ NoDup (tags order) /\ order ⊆ outbounds /\ dependencies_first order /\
  match res with
  | (Ok _, s') => s' = s1 /\ order ≡ₚ outbounds
  | (Err err, s') =>
      (exists o, o ∈ outbounds /\ start o s1 = (Err err, s') /\ forall d, d ∈ ob_Dependencies o -> d ∈ tags order) \/
      (s' = s1 /\ diagnosis err /\ (exists o, o ∈ outbounds /\ o ∉ order) /\
       forall o, o ∈ outbounds -> o ∉ order -> exists d, d ∈ ob_Dependencies o /\ d ∉ tags order)
  end.

Lemma NoDup_tag_inj o o' : NoDup (tags outbounds) -> o ∈ outbounds -> o' ∈ outbounds -> ob_Tag o = ob_Tag o' -> o = o'.
Proof.
  intros Hn Ho Ho' Ht. apply list_elem_of_lookup in Ho as [i Hi], Ho' as [j Hj].
  assert (i = j) as ->; [|congruence]. eapply NoDup_lookup; [done| |]; unfold tags; rewrite list_lookup_fmap;
    [by rewrite Hi|by rewrite Hj, Ht].
Qed.

Lemma progress_size order started : progress order started -> size started = length order.
Proof.
  intros (-> & Hn & _). rewrite size_list_to_set by done. unfold tags. apply length_map.
Qed.

Lemma progress_bound order started : progress order started -> (length order <= length outbounds)%nat.
Proof.
  intros (_ & Hn & Hs & _). apply submseteq_length, NoDup_submseteq; [|done]. by apply NoDup_fmap_1 in Hn.
Qed.

Lemma progress_all order started : progress order started -> size started = length outbounds -> order ≡ₚ outbounds.
Proof.
  intros Hp Hz. pose proof (progress_size _ _ Hp) as Hl. destruct Hp as (_ & Hn & Hs & _).
  apply submseteq_length_Permutation; [|lia]. apply NoDup_submseteq; [|done]. by apply NoDup_fmap_1 in Hn.
Qed.

(** A round that started nothing. *)
Lemma stuck_diagnosis order started : NoDup (tags outbounds) -> progress order started ->
  size started <> length outbounds -> Forall (fun o => ob_Tag o ∈ started \/ blocked started o) outbounds ->
  exists o err, List.find (fun it => negb (bool_decide (ob_Tag it ∈ started))) outbounds = Some o /\
    lintOutbound (length outbounds) started [ob_Tag o] o = Some err /\ diagnosis err /\
    o ∈ outbounds /\ ob_Tag o ∉ started.
Proof.
  intros Hn Hp Hz Hst. rewrite Forall_forall in Hst.
  destruct (List.find _ outbounds) as [o|] eqn:Hf.
  - apply find_some in Hf as [Hin Hb]. rewrite negb_true_iff, bool_decide_eq_false in Hb. apply list_elem_of_In in Hin.
    assert (Hlen : (0 < length outbounds)%nat) by (destruct outbounds; [by apply not_elem_of_nil in Hin|cbn; lia]).
    destruct (lintOutbound_diagnosis (length outbounds) started [] o) as (err & He & Hd); cbn; try done; try lia.
    + intros o' Ho' Ht'. by destruct (Hst o' Ho').
    + apply NoDup_singleton.
    + intros x ->%list_elem_of_singleton. apply list_elem_of_fmap. by exists o.
    + by exists o, err.
  - destruct Hz. apply Nat.le_antisymm; [rewrite (progress_size _ _ Hp); by eapply progress_bound|].
    rewrite <- (length_map ob_Tag). fold (tags outbounds). rewrite <- (size_list_to_set (C := gset string)) by done.
    apply subseteq_size. intros x (o & -> & Ho)%elem_of_list_to_set%list_elem_of_fmap. apply list_elem_of_In in Ho.
    apply (find_none _ _ Hf) in Ho. by rewrite negb_false_iff, bool_decide_eq_true in Ho.
Qed.

Lemma start_loop_all fuel order started s0 s : NoDup (tags outbounds) ->
  starts order s0 = Some s -> progress order started -> (length outbounds < fuel + length order)%nat ->
  exists res, start_loop fuel started s = Some res /\ started_all s0 res.
Proof.
  intros Hn. revert order started s. induction fuel as [|fuel IH]; intros order started s Hs Hp Hf.
  { pose proof (progress_bound _ _ Hp). lia. }
  cbn. pose proof (start_pass_ended outbounds order started false s ltac:(done) Hp) as He.
  destruct (start_pass outbounds started false s) as [[[started' cc]|err] s'].
  - destruct He as (order' & H1 & H2 & -> & H4). cbn [orb].
    assert (Hs' : starts (order ++ order') s0 = Some s') by (by rewrite starts_app, Hs).
    pose proof (progress_size _ _ H2) as Hz. pose proof H2 as (Hst & Hnd & Hsub & Hdf).
    destruct (Nat.eqb_spec (size started') (length outbounds)) as [Heq|Hne].
    { eexists. split; [done|]. exists (order ++ order'), s'. split_and!; try done. by eapply progress_all. }
    destruct (nonnil order') eqn:Hc.
    + apply (IH (order ++ order')); [done|done|]. rewrite length_app. destruct order'; [done|cbn; lia].
    + destruct order'; [|done]. rewrite app_nil_r in *. injection H1 as <-.
      assert (started' = started) as -> by (destruct Hp; congruence).
      destruct (stuck_diagnosis order started Hn Hp Hne (H4 eq_refl)) as (o & err & -> & -> & Hd & Ho & Hto).
      eexists. split; [done|]. exists order, s. split_and!; try done. right. split_and!; [done|done| |].
      { exists o. split; [done|]. intros Hin. apply Hto. rewrite Hst. apply elem_of_list_to_set, list_elem_of_fmap. by exists o. }
      intros o' Ho' Hno. specialize (H4 eq_refl). rewrite Forall_forall in H4.
      destruct (H4 o' Ho') as [Hin|(d & Hd' & Hnd')]; [|exists d; split; [done|]; by rewrite Hst, elem_of_list_to_set in Hnd'].
      destruct Hno. rewrite Hst in Hin. apply elem_of_list_to_set, list_elem_of_fmap in Hin as (o1 & Heq & Ho1).
      rewrite (NoDup_tag_inj o' o1); auto.
  - destruct He as (order' & o & s1 & started' & H1 & (Hst & Hnd & Hsub & Hdf) & H3 & H4 & H5). eexists. split; [done|].
    exists (order ++ order'), s1. split_and!; try done; [by rewrite starts_app, Hs|]. left. exists o. split_and!; [done..|].
    intros d Hd. destruct (decide (d ∈ started')) as [Hin|Hnin]; [by rewrite Hst, elem_of_list_to_set in Hin|].
    destruct H5. by exists d.
Qed.

Lemma startOutbounds_all s : NoDup (tags outbounds) -> exists res, startOutbounds s = Some res /\ started_all s res.
Proof.
  intros Hn. apply start_loop_all with (order := []); [done|done| |cbn; lia].
  split_and!; [done|constructor|set_solver|]. intros i o d Hi. by rewrite lookup_nil in Hi.
Qed.

(** Where an order exists, nothing gets stuck. *)
Lemma order_not_stuck order order' : order' ≡ₚ outbounds -> dependencies_first order' -> NoDup (tags outbounds) ->
  (forall o, o ∈ outbounds -> o ∉ order -> exists d, d ∈ ob_Dependencies o /\ d ∉ tags order) ->
  forall o, o ∈ outbounds -> o ∈ order.
Proof.
  intros Hp Hd Hn Hst o Ho. rewrite <- Hp in Ho. apply list_elem_of_lookup in Ho as [i Hi]. revert o Hi.
  induction i as [i IH] using lt_wf_ind; intros o Hi. destruct (decide (o ∈ order)) as [?|Hno]; [done|].
  assert (Ho : o ∈ outbounds) by (rewrite <- Hp; by eapply list_elem_of_lookup_2).
  destruct (Hst o Ho Hno) as (d & Hdep & Hnd). destruct Hnd. pose proof (Hd i o d Hi Hdep) as Ht.
  apply list_elem_of_fmap in Ht as (o' & -> & Ho'). apply list_elem_of_lookup in Ho' as [j Hj].
  apply lookup_take_Some in Hj as [Hj Hlt]. apply list_elem_of_fmap. exists o'. split; [done|]. by apply (IH j).
Qed.

(** What every start keeps, the rounds keep. *)
Lemma start_pass_keeps (P : W -> Prop) l started canContinue s :
  (forall o s, o ∈ outbounds -> P s -> P (start o s).2) -> l ⊆ outbounds -> P s -> P (start_pass l started canContinue s).2.
Proof.
  intros HP. revert started canContinue s. induction l as [|o l IH]; intros started cc s Hl Hs; cbn; [done|].
  assert (Hl' : l ⊆ outbounds) by set_solver. case_bool_decide; [by apply IH|]. destruct (forallb _ _); [|by apply IH].
  pose proof (HP o s ltac:(set_solver) Hs) as Hs'. destruct (start o s) as [[u|e] s']; [by apply IH|done].
Qed.

Lemma startOutbounds_keeps (P : W -> Prop) s r s' :
  (forall o s, o ∈ outbounds -> P s -> P (start o s).2) -> P s -> startOutbounds s = Some (r, s') -> P s'.
Proof.
  intros HP. unfold startOutbounds. generalize (S (length outbounds)) (∅ : gset string). intros fuel.
  revert s. induction fuel as [|fuel IH]; intros s started Hs; cbn; [done|].
  pose proof (start_pass_keeps P outbounds started false s HP ltac:(done) Hs) as Hp.
  destruct (start_pass outbounds started false s) as [[[started' cc]|e] s1]; cbn in Hp; [|by intros [= _ <-]].
  destruct (_ =? _)%nat; [by intros [= _ <-]|]. destruct cc; [by apply IH|].
  destruct (List.find _ _); [|by intros [= _ <-]]. destruct (lintOutbound _ _ _ _); [|done]. by intros [= _ <-].
Qed.
End start.
