(* ===== verification/Managers.v ===== *)
(** * The managers of outbounds and endpoints

    [src/adapter/outbound/manager.go] and [src/adapter/endpoint/manager.go]: the
    outbounds and endpoints by tag and in order, their lifecycle groups, and their
    replacement while the program runs.  The result of the registry, which creates a
    node, is an argument of the operations. *)

From stdpp Require Import base gmap strings list.
From Stdlib Require Import ZArith Lia.
From S2P Require Import Prelude Lifecycle StartOrder.

(** Both managers keep their nodes in the same way. *)
Record Nodes : Type := mkNodes { nd_list : list Outbound; nd_byTag : gmap string Outbound }.

(** [m.outbounds[i] = node] at the first node that is [old]; identity is by [ob_id]. *)
Fixpoint replace_first (old node : Outbound) (l : list Outbound) : list Outbound :=
  match l with
  | [] => []
  | item :: rest => if decide (ob_id item = ob_id old) then node :: rest else item :: replace_first old node rest
  end.

Fixpoint remove_first (old : Outbound) (l : list Outbound) : list Outbound :=
  match l with
  | [] => []
  | item :: rest => if decide (ob_id item = ob_id old) then rest else item :: remove_first old rest
  end.

Definition nodes_add (tag : string) (node : Outbound) (n : Nodes) : Nodes :=
  mkNodes (nd_list n ++ [node]) (<[tag := node]> (nd_byTag n)).

Definition nodes_replace (tag : string) (node : Outbound) (n : Nodes) : Nodes :=
  mkNodes (match nd_byTag n !! tag with
           | None => nd_list n ++ [node]
           | Some old => replace_first old node (nd_list n)
           end) (<[tag := node]> (nd_byTag n)).

Definition nodes_remove (tag : string) (old : Outbound) (n : Nodes) : Nodes :=
  mkNodes (remove_first old (nd_list n)) (delete tag (nd_byTag n)).

Section managers.
Context {A : Type}.
Context (component_Start : Component -> StartStage -> list A * result unit) (run : A -> option error).
Context (IsClosed IsCanceled : error -> bool) (Errors : list error -> option error) (Expand : option error -> list error).

#[local] Abbreviation Group := (LifecycleGroup (A := A)).
#[local] Abbreviation remove := (Group_Remove run IsClosed IsCanceled Errors Expand).

(** ** Lifecycle of one node *)

(** A nil group is a nil dereference. *)
Definition lifecycle_Start (cancelled : bool) (name : string) (node : Outbound) (stage : StartStage) (g : option Group)
    : result unit * option Group :=
  match g with
  | None => (Err (EPanic "nil lifecycle group"), None)
  | Some g => let '(r, g') := Group_Start component_Start cancelled name (ob_id node) stage g in (r, Some g')
  end.

(** The loop over the stages up to [last]; [stages] is the rest of [ListStartStages]. *)
Fixpoint start_stages (cancelled : bool) (name : string) (node : Outbound) (last : StartStage) (stages : list StartStage)
    (g : Group) : result unit * Group :=
  match stages with
  | [] => (Ok tt, g)
  | stage :: rest =>
      if (stage_index last <? stage_index stage)%nat then (Ok tt, g)
      else
        let '(r, g') := Group_Start component_Start cancelled name (ob_id node) stage g in
        match r with Ok _ => start_stages cancelled name node last rest g' | Err e => (Err e, g') end
  end.

Definition of_error (err : option error) : result unit := match err with Some e => Err e | None => Ok tt end.

(** Bringing a new node to the stage of its manager: what ran, what is returned if it
    fails, and the group.  A node that fails is removed again. *)
Definition catch_up (cancelled : bool) (name : string) (node : Outbound) (last : StartStage) (g : Group)
    : list A * option (result unit) * Group :=
  let '(r, g') := start_stages cancelled name node last ListStartStages g in
  match r with
  | Ok _ => ([], None, g')
  | Err err =>
      let '(ran, removeErr, g'') := remove (ob_id node) g' in
      (ran, Some (of_error (Errors (Expand (Some err) ++ Expand removeErr))), g'')
  end.

(** ** The endpoint manager *)

Record EndpointManager : Type := mkEndpointManager {
  em_lifecycle : option Group;
  em_stage : StartStage;
  em_nodes : Nodes
}.

Definition endpoint_name (node : Outbound) (tag : string) : string := "endpoint/" +:+ ob_Type node +:+ "[" +:+ tag +:+ "]".

Definition EndpointManager_StartEndpoint (cancelled : bool) (endpoint : Outbound) (m : EndpointManager)
    : result unit * EndpointManager :=
  let '(r, g) := lifecycle_Start cancelled (endpoint_name endpoint (ob_Tag endpoint)) endpoint StartStateStart (em_lifecycle m) in
  (r, mkEndpointManager g (em_stage m) (em_nodes m)).

Definition EndpointManager_Get (tag : string) (m : EndpointManager) : option Outbound := nd_byTag (em_nodes m) !! tag.

Fixpoint start_endpoints (cancelled : bool) (stage : StartStage) (l : list Outbound) (m : EndpointManager)
    : result unit * EndpointManager :=
  match l with
  | [] => (Ok tt, m)
  | endpoint :: rest =>
      let '(r, g) := lifecycle_Start cancelled (endpoint_name endpoint (ob_Tag endpoint)) endpoint stage (em_lifecycle m) in
      let m' := mkEndpointManager g (em_stage m) (em_nodes m) in
      match r with Ok _ => start_endpoints cancelled stage rest m' | Err e => (Err e, m') end
  end.

Definition EndpointManager_Start (cancelled : bool) (stage : StartStage) (m : EndpointManager) : result unit * EndpointManager :=
  let lifecycle := if decide (stage = StartStateInitialize) then Some NewLifecycleGroup else em_lifecycle m in
  let m' := mkEndpointManager lifecycle stage (em_nodes m) in
  if decide (stage = StartStateStart) then (Ok tt, m') else start_endpoints cancelled stage (nd_list (em_nodes m)) m'.

Definition EndpointManager_Create (tag : string) (created : result Outbound) (m : EndpointManager)
    : result unit * EndpointManager :=
  match created with
  | Err err => (Err err, m)
  | Ok endpoint =>
      match nd_byTag (em_nodes m) !! tag with
      | Some _ => (Err (ENew ("duplicate endpoint tag: " +:+ tag)), m)
      | None => (Ok tt, mkEndpointManager (em_lifecycle m) (em_stage m) (nodes_add tag endpoint (em_nodes m)))
      end
  end.

(** Providers start after the endpoints were started, whatever the stage. *)
Definition EndpointManager_Replace (cancelled : bool) (tag : string) (created : result Outbound) (m : EndpointManager)
    : list A * result unit * EndpointManager :=
  match created with
  | Err err => ([], Err err, m)
  | Ok node =>
      let last := if (stage_index (em_stage m) <? stage_index StartStateStart)%nat then StartStateStart else em_stage m in
      let '(ran, r, lifecycle) :=
        match em_lifecycle m with
        | None => ([], None, None)
        | Some g => let '(ran, r, g') := catch_up cancelled (endpoint_name node tag) node last g in (ran, r, Some g')
        end in
      match r with
      | Some r => (ran, r, mkEndpointManager lifecycle (em_stage m) (em_nodes m))
      | None =>
          let nodes := nodes_replace tag node (em_nodes m) in
          match nd_byTag (em_nodes m) !! tag, lifecycle with
          | Some old, Some g =>
              let '(ran', _, g') := remove (ob_id old) g in
              (ran ++ ran', Ok tt, mkEndpointManager (Some g') (em_stage m) nodes)
          | _, _ => (ran, Ok tt, mkEndpointManager lifecycle (em_stage m) nodes)
          end
      end
  end.

Definition EndpointManager_Remove (tag : string) (m : EndpointManager) : list A * result unit * EndpointManager :=
  match nd_byTag (em_nodes m) !! tag with
  | None => ([], Ok tt, m)
  | Some old =>
      let nodes := nodes_remove tag old (em_nodes m) in
      match em_lifecycle m with
      | Some g =>
          let '(ran, err, g') := remove (ob_id old) g in
          (ran, of_error err, mkEndpointManager (Some g') (em_stage m) nodes)
      | None => ([], Ok tt, mkEndpointManager None (em_stage m) nodes)
      end
  end.

(** ** The outbound manager *)

Record OutboundManager : Type := mkOutboundManager {
  om_lifecycle : option Group;
  om_stage : StartStage;
  om_defaultTag : string;
  om_nodes : Nodes;
  om_default : option Outbound
}.

Definition outbound_name (node : Outbound) (tag : string) : string := "outbound/" +:+ ob_Type node +:+ "[" +:+ tag +:+ "]".

Definition with_lifecycle (m : OutboundManager) (g : option Group) : OutboundManager :=
  mkOutboundManager g (om_stage m) (om_defaultTag m) (om_nodes m) (om_default m).

(** Both managers; starting outbounds starts endpoints too. *)
Definition managers : Type := (OutboundManager * EndpointManager)%type.

(** What [startOutbounds] does with one of its outbounds. *)
Definition start_one (cancelled : bool) (outbound : Outbound) (w : managers) : result unit * managers :=
  let '(m, e) := w in
  if ob_isEndpoint outbound then
    let '(r, e') := EndpointManager_StartEndpoint cancelled outbound e in (r, (m, e'))
  else if negb (ob_isLifecycle outbound) then (Ok tt, w)
  else
    let '(r, g) := lifecycle_Start cancelled (outbound_name outbound (ob_Tag outbound)) outbound StartStateStart (om_lifecycle m) in
    (r, (with_lifecycle m g, e)).

(** The loop of [Start] in the other stages. *)
Fixpoint start_outbounds_stage (cancelled : bool) (stage : StartStage) (l : list Outbound) (m : OutboundManager)
    : result unit * OutboundManager :=
  match l with
  | [] => (Ok tt, m)
  | outbound :: rest =>
      if negb (ob_isLifecycle outbound) then start_outbounds_stage cancelled stage rest m
      else
        let '(r, g) := lifecycle_Start cancelled (outbound_name outbound (ob_Tag outbound)) outbound stage (om_lifecycle m) in
        match r with
        | Ok _ => start_outbounds_stage cancelled stage rest (with_lifecycle m g)
        | Err e => (Err e, with_lifecycle m g)
        end
  end.

(** The default outbound, when the manager is initialized. *)
Definition choose_default (fallback : result Outbound) (e : EndpointManager) (m : OutboundManager) : result OutboundManager :=
  try m1 <- (if negb (empty_string (om_defaultTag m)) && isnone (om_default m) then
               match EndpointManager_Get (om_defaultTag m) e with
               | None => Err (ENew ("default outbound not found: " +:+ om_defaultTag m))
               | Some endpoint => Ok (mkOutboundManager (om_lifecycle m) (om_stage m) (om_defaultTag m) (om_nodes m) (Some endpoint))
               end
             else Ok m);
  if isnone (om_default m1) then
    match fallback with
    | Err err => Err (ECause err "create direct outbound for fallback")
    | Ok direct => Ok (mkOutboundManager (om_lifecycle m1) (om_stage m1) (om_defaultTag m1)
                         (nodes_add (ob_Tag direct) direct (om_nodes m1)) (Some direct))
    end
  else Ok m1.

(** [Start]; [None] is out of fuel. *)
Definition OutboundManager_Start (cancelled : bool) (fallback : result Outbound) (stage : StartStage) (w : managers)
    : option (result unit * managers) :=
  let '(m, e) := w in
  let initialize := bool_decide (stage = StartStateInitialize) in
  let m0 := mkOutboundManager (if initialize then Some NewLifecycleGroup else om_lifecycle m) stage (om_defaultTag m)
              (om_nodes m) (om_default m) in
  match (if initialize then choose_default fallback e m0 else Ok m0) with
  | Err err => Some (Err err, (m0, e))
  | Ok m1 =>
      if decide (stage = StartStateStart)
      then startOutbounds (start_one cancelled) (nd_list (om_nodes m1) ++ nd_list (em_nodes e)) (m1, e)
      else let '(r, m2) := start_outbounds_stage cancelled stage (nd_list (om_nodes m1)) m1 in Some (r, (m2, e))
  end.

(** [Outbound] *)
Definition OutboundManager_Outbound (tag : string) (w : managers) : option Outbound :=
  match nd_byTag (om_nodes w.1) !! tag with
  | Some outbound => Some outbound
  | None => EndpointManager_Get tag w.2
  end.

Definition OutboundManager_Create (tag : string) (created : result Outbound) (m : OutboundManager)
    : result unit * OutboundManager :=
  if empty_string tag then (Err ErrInvalid, m)
  else
    match created with
    | Err err => (Err err, m)
    | Ok outbound =>
        match nd_byTag (om_nodes m) !! tag with
        | Some _ => (Err (ENew ("duplicate outbound tag: " +:+ tag)), m)
        | None =>
            (Ok tt, mkOutboundManager (om_lifecycle m) (om_stage m) (om_defaultTag m) (nodes_add tag outbound (om_nodes m))
               (if bool_decide (tag = om_defaultTag m) || empty_string (om_defaultTag m) && isnone (om_default m)
                then Some outbound else om_default m))
        end
    end.

Definition same_node (a b : option Outbound) : bool :=
  match a, b with Some a, Some b => bool_decide (ob_id a = ob_id b) | None, None => true | _, _ => false end.

Definition OutboundManager_Replace (cancelled : bool) (tag : string) (created : result Outbound) (m : OutboundManager)
    : list A * result unit * OutboundManager :=
  match created with
  | Err err => ([], Err err, m)
  | Ok node =>
      let '(ran, r, lifecycle) :=
        match om_lifecycle m with
        | Some g =>
            if ob_isLifecycle node then
              let '(ran, r, g') := catch_up cancelled (outbound_name node tag) node (om_stage m) g in (ran, r, Some g')
            else ([], None, Some g)
        | None => ([], None, None)
        end in
      match r with
      | Some r => (ran, r, with_lifecycle m lifecycle)
      | None =>
          let old := nd_byTag (om_nodes m) !! tag in
          let nodes := nodes_replace tag node (om_nodes m) in
          let default' := if same_node (om_default m) old && nonnone old then Some node else om_default m in
          let published g := mkOutboundManager g (om_stage m) (om_defaultTag m) nodes default' in
          match old, lifecycle with
          | Some o, Some g =>
              if ob_isLifecycle o then
                let '(ran', _, g') := remove (ob_id o) g in (ran ++ ran', Ok tt, published (Some g'))
              else (ran, Ok tt, published (Some g))
          | _, _ => (ran, Ok tt, published lifecycle)
          end
      end
  end.

Definition OutboundManager_Remove (tag : string) (m : OutboundManager) : list A * result unit * OutboundManager :=
  match nd_byTag (om_nodes m) !! tag with
  | None => ([], Ok tt, m)
  | Some old =>
      let nodes := nodes_remove tag old (om_nodes m) in
      let default' := if same_node (om_default m) (Some old) then head (nd_list nodes) else om_default m in
      let removed g := mkOutboundManager g (om_stage m) (om_defaultTag m) nodes default' in
      match om_lifecycle m with
      | Some g =>
          if ob_isLifecycle old then
            let '(ran, err, g') := remove (ob_id old) g in (ran, of_error err, removed (Some g'))
          else ([], Ok tt, removed (Some g))
      | None => ([], Ok tt, removed None)
      end
  end.
End managers.
