(* ===== verification/ManagersOk.v ===== *)
(** * What the managers keep

    Tags and order agree, and the lifecycle group of a manager owns nothing but nodes
    that the manager has: whatever is replaced, removed or fails to start is closed. *)

From stdpp Require Import base gmap strings list.
From Stdlib Require Import ZArith Lia.
From S2P Require Import Prelude Lifecycle StartOrder Managers.

(** ** Nodes *)

Definition ids (l : list Outbound) : list Component := map ob_id l.

Definition nodes_ok (n : Nodes) : Prop :=
  NoDup (tags (nd_list n)) /\ NoDup (ids (nd_list n)) /\
  forall tag o, nd_byTag n !! tag = Some o <-> o ∈ nd_list n /\ ob_Tag o = tag.

(** A node the registry just created. *)
Definition fresh_node (tag : string) (node : Outbound) (n : Nodes) : Prop :=
  ob_Tag node = tag /\ ob_id node ∉ ids (nd_list n).

Lemma nodes_absent n tag : nodes_ok n -> nd_byTag n !! tag = None -> tag ∉ tags (nd_list n).
Proof.
  intros (_ & _ & Hb) Hn (o & -> & Ho)%list_elem_of_fmap.
  rewrite (proj2 (Hb (ob_Tag o) o)) in Hn by done. done.
Qed.

Lemma nodes_add_ok tag node n : nodes_ok n -> fresh_node tag node n -> nd_byTag n !! tag = None ->
  nodes_ok (nodes_add tag node n).
Proof.
  intros Hok [Ht Hi] Hn. pose proof (nodes_absent _ _ Hok Hn) as Hnt. destruct Hok as (H1 & H2 & H3).
  unfold nodes_ok, nodes_add, tags, ids in *. cbn. rewrite !map_app. cbn. split_and!.
  - apply NoDup_app. split_and!; [done| |apply NoDup_singleton]. rewrite Ht. by intros x Hx ->%list_elem_of_singleton.
  - apply NoDup_app. split_and!; [done| |apply NoDup_singleton]. by intros x Hx ->%list_elem_of_singleton.
  - intros tag' o. destruct (decide (tag' = tag)) as [->|Hne].
    + rewrite lookup_insert_eq. split; [intros [= <-]; split; [set_solver|done]|].
      intros [[Ho| ->%list_elem_of_singleton]%elem_of_app Hot]; [|done]. destruct Hnt. apply list_elem_of_fmap. by exists o.
    + rewrite lookup_insert_ne, H3 by done. split; [intros [? ?]; split; [set_solver|done]|].
      intros [[Ho| ->%list_elem_of_singleton]%elem_of_app Hot]; [done|congruence].
Qed.

(** The node of a tag, taken out of the list. *)
Lemma nodes_split n tag old : nodes_ok n -> nd_byTag n !! tag = Some old ->
  exists l1 l2, nd_list n = l1 ++ old :: l2 /\ ob_Tag old = tag /\ (ob_id old ∉ ids (l1 ++ l2)) /\ (tag ∉ tags (l1 ++ l2)) /\
    (forall node, replace_first old node (nd_list n) = l1 ++ node :: l2) /\ remove_first old (nd_list n) = l1 ++ l2.
Proof.
  intros (H1 & H2 & H3) Hb. apply H3 in Hb as [Ho Ht]. apply list_elem_of_split in Ho as (l1 & l2 & Hl).
  rewrite Hl in *. unfold tags, ids in *. rewrite map_app in H1, H2. cbn in H1, H2.
  apply NoDup_app in H1 as (_ & Hd1 & [Hn1 _]%NoDup_cons), H2 as (_ & Hd2 & [Hn2 _]%NoDup_cons).
  assert (Hnotin : forall (x : Outbound), x ∈ l1 -> ob_id x <> ob_id old).
  { intros x Hx Heq. apply (Hd2 (ob_id x)); [by apply list_elem_of_fmap; exists x|]. rewrite Heq. by left. }
  exists l1, l2. split_and!; [done|done| | | |].
  - rewrite map_app, elem_of_app. intros [Hi|Hi]; [|done]. apply (Hd2 _ Hi). by left.
  - rewrite map_app, elem_of_app. intros [Hi|Hi]; [|congruence]. apply (Hd1 _ Hi). rewrite Ht. by left.
  - intros node. clear -Hnotin. induction l1 as [|x l1 IH]; cbn; [by rewrite decide_True|].
    rewrite decide_False by (apply Hnotin; by left). rewrite IH; [done|]. intros y Hy. apply Hnotin. by right.
  - clear -Hnotin. induction l1 as [|x l1 IH]; cbn; [by rewrite decide_True|].
    rewrite decide_False by (apply Hnotin; by left). rewrite IH; [done|]. intros y Hy. apply Hnotin. by right.
Qed.

Lemma nodes_remove_ok tag old n : nodes_ok n -> nd_byTag n !! tag = Some old -> nodes_ok (nodes_remove tag old n).
Proof.
  intros Hok Hb. destruct (nodes_split n tag old Hok Hb) as (l1 & l2 & Hl & Ht & Hi & Htn & _ & Hr).
  destruct Hok as (H1 & H2 & H3). unfold nodes_ok, nodes_remove. cbn. rewrite Hr. rewrite Hl in H1, H2, H3.
  unfold tags, ids in *. rewrite map_app in *. cbn in *. split_and!.
  - rewrite ?map_app. apply NoDup_app in H1 as (? & Hd & [? ?]%NoDup_cons). apply NoDup_app. split_and!; [done| |done].
    intros x Hx Hx2. apply (Hd x Hx). by right.
  - rewrite ?map_app. apply NoDup_app in H2 as (? & Hd & [? ?]%NoDup_cons). apply NoDup_app. split_and!; [done| |done].
    intros x Hx Hx2. apply (Hd x Hx). by right.
  - intros tag' o. destruct (decide (tag' = tag)) as [->|Hne].
    + rewrite lookup_delete_eq. split; [done|]. intros [Ho Hot]. destruct Htn. rewrite <- map_app. apply list_elem_of_fmap. by exists o.
    + rewrite lookup_delete_ne, H3 by done. rewrite elem_of_app, elem_of_cons, elem_of_app. naive_solver.
Qed.

Lemma NoDup_middle {B : Type} (l1 l2 : list B) x y : NoDup (l1 ++ x :: l2) -> y ∉ l1 ++ l2 -> NoDup (l1 ++ y :: l2).
Proof.
  rewrite <- !Permutation_middle, !NoDup_cons. by intros [_ Hn] Hy.
Qed.

Lemma nodes_replace_ok tag node n : nodes_ok n -> fresh_node tag node n -> nodes_ok (nodes_replace tag node n).
Proof.
  intros Hok Hf. destruct (nd_byTag n !! tag) as [old|] eqn:Hb.
  2: { unfold nodes_replace. rewrite Hb. by apply nodes_add_ok. }
  destruct (nodes_split n tag old Hok Hb) as (l1 & l2 & Hl & Ht & Hi & Htn & Hr & _).
  destruct Hok as (H1 & H2 & H3), Hf as [Htag Hid]. unfold nodes_ok, nodes_replace. cbn. rewrite Hb, Hr.
  rewrite Hl in H1, H2, H3, Hid. unfold tags, ids in *. rewrite !map_app in *. cbn in *. split_and!.
  - eapply NoDup_middle; [exact H1|]. by rewrite Htag.
  - eapply NoDup_middle; [exact H2|]. rewrite elem_of_app, elem_of_cons in Hid. rewrite elem_of_app. tauto.
  - intros tag' o. destruct (decide (tag' = tag)) as [->|Hne].
    + rewrite lookup_insert_eq. split; [intros [= <-]; split; [set_solver|done]|].
      rewrite elem_of_app, elem_of_cons. intros [Ho Hot]. rewrite <- map_app in Htn.
      destruct Ho as [Ho|[->|Ho]]; [|done|]; destruct Htn; apply list_elem_of_fmap; exists o; (split; [done|set_solver]).
    + rewrite lookup_insert_ne, H3 by done. rewrite !elem_of_app, !elem_of_cons. naive_solver.
Qed.

Section groups.
Context {A : Type}.
Context (component_Start : Component -> StartStage -> list A * result unit) (run : A -> option error).
Context (IsClosed IsCanceled : error -> bool) (Errors : list error -> option error) (Expand : option error -> list error).
#[local] Abbreviation Group := (LifecycleGroup (A := A)).

(** ** Groups of nodes *)

(** The group owns the components [l], with their functions, all of them among [cs]. *)
Definition owns_within (g : Group) (l : groupOwned (A := A)) (cs : list Component) : Prop :=
  group_owns g l /\ map fst l ⊆ cs.

Lemma group_own_keys c fs (l : groupOwned (A := A)) :
  map fst (group_own c fs l) = if bool_decide (c ∈ map fst l) then map fst l else map fst l ++ [c].
Proof. unfold group_own. case_bool_decide; [apply own_keys|by rewrite map_app]. Qed.

Lemma Group_Start_within cancelled name c stage (g : Group) l cs : owns_within g l cs -> c ∈ cs ->
  exists l', owns_within (Group_Start component_Start cancelled name c stage g).2 l' cs.
Proof.
  intros [Hg Hs] Hc. destruct cancelled.
  - exists l. unfold Group_Start. rewrite (proj1 Hg). by split.
  - eexists. split; [by apply Group_Start_owns|]. rewrite group_own_keys. case_bool_decide; [done|]. set_solver.
Qed.

Lemma lifecycle_Start_within cancelled name node stage (g : Group) l cs : owns_within g l cs -> ob_id node ∈ cs ->
  exists g' l', (lifecycle_Start component_Start cancelled name node stage (Some g)).2 = Some g' /\ owns_within g' l' cs.
Proof.
  intros Hg Hc. destruct (Group_Start_within cancelled name _ stage g l cs Hg Hc) as [l' Hl']. cbn.
  destruct (Group_Start _ _ _ _ _ _) as [r g']. by exists g', l'.
Qed.

Lemma start_stages_within cancelled name node last stages (g : Group) l cs : owns_within g l cs -> ob_id node ∈ cs ->
  exists l', owns_within (start_stages component_Start cancelled name node last stages g).2 l' cs.
Proof.
  intros Hg Hc. revert g l Hg. induction stages as [|stage stages IH]; intros g l Hg; cbn -[Nat.ltb]; [by exists l|].
  destruct (_ <? _)%nat; [by exists l|]. destruct (Group_Start_within cancelled name _ stage g l cs Hg Hc) as [l' Hl'].
  destruct (Group_Start _ _ _ _ _ _) as [[u|e] g']; [by eapply IH|by exists l'].
Qed.

Lemma disown_within c (l : groupOwned (A := A)) cs : map fst l ⊆ c :: cs -> map fst (group_disown c l) ⊆ cs.
Proof.
  intros Hl x ([c' fs] & -> & [Ho Hne]%disown_elem)%list_elem_of_fmap. cbn in *.
  assert (Hx : c' ∈ c :: cs) by (apply Hl; by apply elem_keys in Ho). by apply elem_of_cons in Hx as [->|Hx].
Qed.

Lemma Group_Remove_within c (g : Group) l cs : owns_within g l (c :: cs) ->
  exists l', owns_within (Group_Remove run IsClosed IsCanceled Errors Expand c g).2 l' cs.
Proof.
  intros [Hg Hs]. eexists. split; [by apply Group_Remove_owns|]. by apply disown_within.
Qed.

(** A new node is owned if it could start, and not at all if it could not. *)
Lemma catch_up_within cancelled name node last (g : Group) l cs : owns_within g l cs ->
  let '(_, r, g') := catch_up component_Start run IsClosed IsCanceled Errors Expand cancelled name node last g in
  exists l', owns_within g' l' (match r with None => ob_id node :: cs | Some _ => cs end).
Proof.
  intros [Hg Hs]. unfold catch_up.
  destruct (start_stages_within cancelled name node last ListStartStages g l (ob_id node :: cs)) as [l' Hl'];
    [split; [done|set_solver]|by left|].
  destruct (start_stages _ _ _ _ _ _ _) as [[u|e] g']; [by exists l'|].
  destruct (Group_Remove_within (ob_id node) g' l' cs Hl') as [l'' Hl''].
  by destruct (Group_Remove _ _ _ _ _ _ _) as [[ran err] g'']; exists l''.
Qed.

(** ** The managers *)

#[local] Abbreviation EM := (EndpointManager (A := A)).
#[local] Abbreviation OM := (OutboundManager (A := A)).

(** Nodes of one kind; endpoints have a lifecycle. *)
Definition node_kind (endpoint : bool) (o : Outbound) : Prop :=
  ob_isEndpoint o = endpoint /\ (endpoint = true -> ob_isLifecycle o = true).

Definition kind_ok (endpoint : bool) (n : Nodes) : Prop := Forall (node_kind endpoint) (nd_list n).

(** The components that a group may own. *)
Definition own_id (o : Outbound) : list Component := if ob_isLifecycle o then [ob_id o] else [].
Definition live (n : Nodes) : list Component := flat_map own_id (nd_list n).

Definition lifecycle_ok (g : option Group) (n : Nodes) : Prop :=
  forall g', g = Some g' -> exists l, owns_within g' l (live n).

Definition endpoints_ok (m : EM) : Prop :=
  nodes_ok (em_nodes m) /\ kind_ok true (em_nodes m) /\ lifecycle_ok (em_lifecycle m) (em_nodes m).

(** The default is an outbound of the manager, or an endpoint. *)
Definition outbounds_ok (m : OM) : Prop :=
  nodes_ok (om_nodes m) /\ kind_ok false (om_nodes m) /\ lifecycle_ok (om_lifecycle m) (om_nodes m) /\
  forall o, om_default m = Some o -> o ∈ nd_list (om_nodes m) \/ ob_isEndpoint o = true.

(** What the registry gives for a tag: an error, or a new node of the right kind. *)
Definition created_ok (endpoint : bool) (tag : string) (created : result Outbound) (n : Nodes) : Prop :=
  forall node, created = Ok node -> fresh_node tag node n /\ node_kind endpoint node.

Lemma within_mono (g : Group) l cs cs' : owns_within g l cs -> cs ⊆ cs' -> owns_within g l cs'.
Proof. intros [Hg Hl] Hs. split; [done|]. by etrans. Qed.

Lemma live_add tag node n : live n ⊆ live (nodes_add tag node n).
Proof. unfold live. cbn. rewrite flat_map_app. set_solver. Qed.

Lemma live_elem o n : o ∈ nd_list n -> ob_isLifecycle o = true -> ob_id o ∈ live n.
Proof.
  intros Ho Hl. apply list_elem_of_In, in_flat_map. exists o. split; [by apply list_elem_of_In|].
  unfold own_id. rewrite Hl. by left.
Qed.

Lemma kind_add b tag node n : kind_ok b n -> node_kind b node -> kind_ok b (nodes_add tag node n).
Proof. intros Hk Hn. apply Forall_app. split; [done|by constructor]. Qed.

Lemma kind_replace b tag node n : nodes_ok n -> kind_ok b n -> node_kind b node -> kind_ok b (nodes_replace tag node n).
Proof.
  intros Hok Hk Hn. unfold kind_ok, nodes_replace. cbn. destruct (nd_byTag n !! tag) as [old|] eqn:Hb.
  - destruct (nodes_split n tag old Hok Hb) as (l1 & l2 & Hl & _ & _ & _ & -> & _). unfold kind_ok in Hk. rewrite Hl in Hk.
    apply Forall_app in Hk as [H1 [_ H2]%Forall_cons]. apply Forall_app. split; [done|by constructor].
  - apply Forall_app. split; [done|by constructor].
Qed.

Lemma kind_remove b tag old n : nodes_ok n -> kind_ok b n -> nd_byTag n !! tag = Some old -> kind_ok b (nodes_remove tag old n).
Proof.
  intros Hok Hk Hb. unfold kind_ok, nodes_remove in *. cbn.
  destruct (nodes_split n tag old Hok Hb) as (l1 & l2 & Hl & _ & _ & _ & _ & ->). rewrite Hl in Hk.
  apply Forall_app in Hk as [H1 [_ H2]%Forall_cons]. by apply Forall_app.
Qed.

(** The components without one of them. *)
Lemma live_remove tag old n : nodes_ok n -> nd_byTag n !! tag = Some old -> live n ⊆ own_id old ++ live (nodes_remove tag old n).
Proof.
  intros Hok Hb. destruct (nodes_split n tag old Hok Hb) as (l1 & l2 & Hl & _ & _ & _ & _ & Hr).
  unfold nodes_remove, live. cbn. rewrite Hr, Hl, !flat_map_app. cbn. set_solver.
Qed.

Definition old_id (tag : string) (n : Nodes) : list Component :=
  match nd_byTag n !! tag with Some old => own_id old | None => [] end.

Lemma live_replace tag node n : nodes_ok n -> own_id node ++ live n ⊆ old_id tag n ++ live (nodes_replace tag node n).
Proof.
  intros Hok. unfold nodes_replace, old_id, live. cbn. destruct (nd_byTag n !! tag) as [old|] eqn:Hb.
  - destruct (nodes_split n tag old Hok Hb) as (l1 & l2 & Hl & _ & _ & _ & -> & _). rewrite Hl, !flat_map_app. cbn. set_solver.
  - rewrite flat_map_app. cbn. set_solver.
Qed.

(** *** Endpoints *)

#[local] Abbreviation remove := (Group_Remove run IsClosed IsCanceled Errors Expand).
#[local] Abbreviation catch := (catch_up component_Start run IsClosed IsCanceled Errors Expand).

Lemma new_group_ok n : lifecycle_ok (Some NewLifecycleGroup) n.
Proof. intros g [= <-]. exists []. split; [apply NewLifecycleGroup_owns|set_solver]. Qed.

Lemma lifecycle_Start_ok cancelled name node stage g n : lifecycle_ok g n -> node ∈ nd_list n -> ob_isLifecycle node = true ->
  lifecycle_ok (lifecycle_Start component_Start cancelled name node stage g).2 n.
Proof.
  intros Hg Hn Hl. destruct g as [g|]; [|done]. destruct (Hg g eq_refl) as [l Hown].
  destruct (lifecycle_Start_within cancelled name node stage g l (live n)) as (g' & l' & -> & Hl'); [done|by apply live_elem|].
  intros ? [= <-]. by exists l'.
Qed.

Lemma endpoint_lifecycle o n : kind_ok true n -> o ∈ nd_list n -> ob_isLifecycle o = true.
Proof. intros Hk Ho. unfold kind_ok in Hk. rewrite Forall_forall in Hk. by apply (Hk o Ho). Qed.

Lemma EndpointManager_Create_ok tag created (m : EM) : endpoints_ok m -> created_ok true tag created (em_nodes m) ->
  endpoints_ok (EndpointManager_Create tag created m).2.
Proof.
  intros (Hn & Hk & Hl) Hc. unfold EndpointManager_Create. destruct created as [node|e]; [|done].
  destruct (Hc node eq_refl) as [Hf Hb]. destruct (nd_byTag (em_nodes m) !! tag) eqn:Ht; [done|]. cbn. split_and!; cbn.
  - by apply nodes_add_ok.
  - by apply kind_add.
  - intros g Hg. destruct (Hl g Hg) as [l Hl']. exists l. eapply within_mono; [done|apply live_add].
Qed.

Lemma StartEndpoint_ok cancelled endpoint (m : EM) : endpoints_ok m -> endpoint ∈ nd_list (em_nodes m) ->
  endpoints_ok (EndpointManager_StartEndpoint component_Start cancelled endpoint m).2.
Proof.
  intros (Hn & Hk & Hl) Hi. unfold EndpointManager_StartEndpoint.
  pose proof (lifecycle_Start_ok cancelled (endpoint_name endpoint (ob_Tag endpoint)) endpoint StartStateStart _ _ Hl Hi
    (endpoint_lifecycle _ _ Hk Hi)) as Hl'.
  by destruct (lifecycle_Start _ _ _ _ _ _) as [r g].
Qed.

Lemma EndpointManager_Start_ok cancelled stage (m : EM) : endpoints_ok m ->
  endpoints_ok (EndpointManager_Start component_Start cancelled stage m).2.
Proof.
  intros (Hn & Hk & Hl). unfold EndpointManager_Start.
  assert (Hl0 : lifecycle_ok (if decide (stage = StartStateInitialize) then Some NewLifecycleGroup else em_lifecycle m) (em_nodes m))
    by (destruct (decide _); [apply new_group_ok|done]).
  revert Hl0. generalize (if decide (stage = StartStateInitialize) then Some NewLifecycleGroup else em_lifecycle m). intros g Hg.
  destruct (decide (stage = StartStateStart)); [by split_and!|].
  assert (Hs : nd_list (em_nodes m) ⊆ nd_list (em_nodes m)) by done. revert Hs.
  generalize (nd_list (em_nodes m)) at 1 3. intros l. revert g Hg. induction l as [|endpoint l IH]; intros g Hg Hs; cbn; [by split_and!|].
  pose proof (lifecycle_Start_ok cancelled (endpoint_name endpoint (ob_Tag endpoint)) endpoint stage g _ Hg ltac:(set_solver)
    (endpoint_lifecycle endpoint _ Hk ltac:(set_solver))) as Hg'.
  destruct (lifecycle_Start _ _ _ _ _ _) as [[u|e] g']; [|by split_and!]. apply IH; [done|set_solver].
Qed.

(** The group after a node was published and the one it replaces was removed. *)
Lemma replaced_ok (g : Group) l tag node n : nodes_ok n -> owns_within g l (own_id node ++ live n) ->
  match nd_byTag n !! tag with
  | Some old => if ob_isLifecycle old then lifecycle_ok (Some (remove (ob_id old) g).2) (nodes_replace tag node n)
                else lifecycle_ok (Some g) (nodes_replace tag node n)
  | None => lifecycle_ok (Some g) (nodes_replace tag node n)
  end.
Proof.
  intros Hok Hl. pose proof (live_replace tag node n Hok) as Hi. pose proof (within_mono _ _ _ _ Hl Hi) as Hw. unfold old_id in Hw.
  destruct (nd_byTag n !! tag) as [old|]; [|intros ? [= <-]; by exists l]. unfold own_id in Hw.
  destruct (ob_isLifecycle old); [|intros ? [= <-]; by exists l].
  destruct (Group_Remove_within (ob_id old) g l _ Hw) as [l' Hl']. intros ? [= <-]. by exists l'.
Qed.

Lemma EndpointManager_Replace_ok cancelled tag created (m : EM) : endpoints_ok m -> created_ok true tag created (em_nodes m) ->
  endpoints_ok (EndpointManager_Replace component_Start run IsClosed IsCanceled Errors Expand cancelled tag created m).2.
Proof.
  intros (Hn & Hk & Hl) Hc. unfold EndpointManager_Replace. destruct created as [node|e]; [|done].
  destruct (Hc node eq_refl) as [Hf Hb]. set (last := if (_ <? _)%nat then _ else _). clearbody last.
  assert (Hn' : nodes_ok (nodes_replace tag node (em_nodes m))) by (by apply nodes_replace_ok).
  assert (Hk' : kind_ok true (nodes_replace tag node (em_nodes m))) by (by apply kind_replace).
  destruct (em_lifecycle m) as [g|] eqn:Hg.
  - destruct (Hl g eq_refl) as [l Hl0].
    pose proof (catch_up_within cancelled (endpoint_name node tag) node last g l
      (live (em_nodes m)) Hl0) as Hcu.
    destruct (catch cancelled (endpoint_name node tag) node last g) as [[ran [r|]] g'].
    + destruct Hcu as [l' Hl']. split_and!; [done|done|]. intros ? [= <-]. by exists l'.
    + destruct Hcu as [l' Hl']. assert (Hl'' : owns_within g' l' (own_id node ++ live (em_nodes m)))
        by (unfold own_id; by rewrite (proj2 Hb)). pose proof (replaced_ok g' l' tag node _ Hn Hl'') as Hr.
      destruct (nd_byTag (em_nodes m) !! tag) as [old|] eqn:Ht; [|by split_and!].
      rewrite (endpoint_lifecycle old (em_nodes m)) in Hr by (done || by apply Hn in Ht as [? _]).
      by destruct (remove (ob_id old) g') as [[ran' err] g'']; split_and!.
  - by destruct (nd_byTag (em_nodes m) !! tag); split_and!.
Qed.

Lemma EndpointManager_Remove_ok tag (m : EM) : endpoints_ok m ->
  endpoints_ok (EndpointManager_Remove run IsClosed IsCanceled Errors Expand tag m).2.
Proof.
  intros (Hn & Hk & Hl). unfold EndpointManager_Remove. destruct (nd_byTag (em_nodes m) !! tag) as [old|] eqn:Ht; [|done].
  pose proof (nodes_remove_ok tag old _ Hn Ht) as Hn'. pose proof (kind_remove true tag old _ Hn Hk Ht) as Hk'.
  destruct (em_lifecycle m) as [g|] eqn:Hg; [|by split_and!]. destruct (Hl g eq_refl) as [l Hl0].
  pose proof (within_mono _ _ _ _ Hl0 (live_remove tag old _ Hn Ht)) as Hw. unfold own_id in Hw.
  rewrite (endpoint_lifecycle old (em_nodes m)) in Hw by (done || by apply Hn in Ht as [? _]).
  destruct (Group_Remove_within (ob_id old) g l _ Hw) as [l' Hl'].
  destruct (remove (ob_id old) g) as [[ran err] g']. split_and!; [done|done|]. intros ? [= <-]. by exists l'.
Qed.

(** *** Outbounds *)

Lemma with_lifecycle_ok (m : OM) g : outbounds_ok m -> lifecycle_ok g (om_nodes m) -> outbounds_ok (with_lifecycle m g).
Proof. intros (Hn & Hk & _ & Hd) Hg. by split_and!. Qed.

Lemma OutboundManager_Create_ok tag created (m : OM) : outbounds_ok m -> created_ok false tag created (om_nodes m) ->
  outbounds_ok (OutboundManager_Create tag created m).2.
Proof.
  intros (Hn & Hk & Hl & Hd) Hc. unfold OutboundManager_Create. destruct (empty_string tag); [done|].
  destruct created as [node|e]; [|done]. destruct (Hc node eq_refl) as [Hf Hb].
  destruct (nd_byTag (om_nodes m) !! tag) eqn:Ht; [done|]. cbn. split_and!; cbn.
  - by apply nodes_add_ok.
  - by apply kind_add.
  - intros g Hg. destruct (Hl g Hg) as [l Hl']. exists l. eapply within_mono; [done|apply live_add].
  - intros o Ho. destruct (_ || _); [injection Ho as <-; left; set_solver|]. destruct (Hd o Ho); [left; set_solver|by right].
Qed.

Lemma start_one_ok cancelled o (w : managers (A := A)) :
  outbounds_ok w.1 -> endpoints_ok w.2 -> o ∈ nd_list (om_nodes w.1) ++ nd_list (em_nodes w.2) ->
  let w' := (start_one component_Start cancelled o w).2 in
  outbounds_ok w'.1 /\ endpoints_ok w'.2 /\ om_nodes w'.1 = om_nodes w.1 /\ em_nodes w'.2 = em_nodes w.2.
Proof.
  destruct w as [m e]. cbn. intros Hm He Ho. unfold start_one. destruct (ob_isEndpoint o) eqn:Hk.
  - assert (Hin : o ∈ nd_list (em_nodes e)).
    { apply elem_of_app in Ho as [Ho|Ho]; [|done]. destruct Hm as (_ & Hkind & _).
      unfold kind_ok in Hkind. rewrite Forall_forall in Hkind. destruct (Hkind o Ho) as [Heq _]. congruence. }
    pose proof (StartEndpoint_ok cancelled o e He Hin) as He'. unfold EndpointManager_StartEndpoint in *.
    by destruct (lifecycle_Start _ _ _ _ _ _) as [r g].
  - destruct (ob_isLifecycle o) eqn:Hlc; cbn [negb]; [|done].
    assert (Hin : o ∈ nd_list (om_nodes m)).
    { apply elem_of_app in Ho as [Ho|Ho]; [done|]. destruct He as (_ & Hkind & _).
      unfold kind_ok in Hkind. rewrite Forall_forall in Hkind. destruct (Hkind o Ho) as [Heq _]. congruence. }
    destruct Hm as (Hn & Hkind & Hl & Hd).
    pose proof (lifecycle_Start_ok cancelled (outbound_name o (ob_Tag o)) o StartStateStart _ _ Hl Hin Hlc) as Hl'.
    destruct (lifecycle_Start _ _ _ _ _ _) as [r g]. cbn in *. by split_and!.
Qed.

Lemma start_outbounds_stage_ok cancelled stage l (m : OM) : outbounds_ok m -> l ⊆ nd_list (om_nodes m) ->
  outbounds_ok (start_outbounds_stage component_Start cancelled stage l m).2.
Proof.
  revert m. induction l as [|o l IH]; intros m Hm Hs; cbn; [done|].
  destruct (ob_isLifecycle o) eqn:Hlc; cbn [negb]; [|apply IH; [done|set_solver]].
  pose proof Hm as (_ & _ & Hl & _).
  pose proof (lifecycle_Start_ok cancelled (outbound_name o (ob_Tag o)) o stage _ _ Hl ltac:(set_solver) Hlc) as Hl'.
  destruct (lifecycle_Start _ _ _ _ _ _) as [[u|e] g]; cbn in Hl'.
  - apply IH; [by apply with_lifecycle_ok|cbn; set_solver].
  - by apply with_lifecycle_ok.
Qed.

(** The fallback is a new outbound under a tag that is not taken. *)
Definition fallback_ok (fallback : result Outbound) (n : Nodes) : Prop :=
  forall node, fallback = Ok node ->
    fresh_node (ob_Tag node) node n /\ node_kind false node /\ nd_byTag n !! ob_Tag node = None.

Lemma choose_default_ok fallback (e : EM) (m m' : OM) : outbounds_ok m -> endpoints_ok e -> fallback_ok fallback (om_nodes m) ->
  choose_default fallback e m = Ok m' -> outbounds_ok m'.
Proof.
  intros (Hn & Hk & Hl & Hd) (Hen & Hek & _) Hf. unfold choose_default, EndpointManager_Get.
  assert (Hfall : forall d g, (forall o, d = Some o -> o ∈ nd_list (om_nodes m) \/ ob_isEndpoint o = true) ->
    lifecycle_ok g (om_nodes m) ->
    (if isnone d then
       match fallback with
       | Err err => Err (ECause err "create direct outbound for fallback")
       | Ok direct => Ok (mkOutboundManager g (om_stage m) (om_defaultTag m) (nodes_add (ob_Tag direct) direct (om_nodes m)) (Some direct))
       end
     else Ok (mkOutboundManager g (om_stage m) (om_defaultTag m) (om_nodes m) d)) = Ok m' -> outbounds_ok m').
  { intros d g Hd0 Hg0. destruct d as [o|]; cbn; [by intros [= <-]; split_and!|]. destruct fallback as [node|err]; [|done].
    destruct (Hf node eq_refl) as (Hfr & Hb & Ha). intros [= <-]. split_and!; cbn.
    - by apply nodes_add_ok.
    - by apply kind_add.
    - intros g' Hg'. destruct (Hg0 g' Hg') as [l Hl']. exists l. eapply within_mono; [done|apply live_add].
    - intros o [= <-]. left. set_solver. }
  destruct (negb _ && _) eqn:Hc; cbn [result_bind].
  - destruct (nd_byTag (em_nodes e) !! om_defaultTag m) as [endpoint|] eqn:Hend; cbn [result_bind]; [|done].
    apply (Hfall (Some endpoint)); [|done]. intros o [= <-]. right. apply Hen in Hend as [Hin _].
    unfold kind_ok in Hek. rewrite Forall_forall in Hek. by apply (Hek endpoint Hin).
  - destruct m as [g stage dt n d]. by apply Hfall.
Qed.

Lemma OutboundManager_Start_ok cancelled fallback stage (w w' : managers (A := A)) r :
  outbounds_ok w.1 -> endpoints_ok w.2 -> fallback_ok fallback (om_nodes w.1) ->
  OutboundManager_Start component_Start cancelled fallback stage w = Some (r, w') -> outbounds_ok w'.1 /\ endpoints_ok w'.2.
Proof.
  destruct w as [m e]. cbn. intros Hm He Hf. unfold OutboundManager_Start.
  set (m0 := mkOutboundManager _ _ _ _ _).
  assert (Hm0 : outbounds_ok m0).
  { destruct Hm as (H1 & H2 & H3 & H4). split_and!; [done|done| |done]. cbn. case_bool_decide; [apply new_group_ok|done]. }
  destruct (if bool_decide (stage = StartStateInitialize) then choose_default fallback e m0 else Ok m0) as [m1|err] eqn:Hc.
  2: { by intros [= _ <-]. }
  assert (Hm1 : outbounds_ok m1) by (destruct (bool_decide _); [by eapply choose_default_ok|by injection Hc as <-]).
  destruct (decide (stage = StartStateStart)).
  - intros Hs. eapply (startOutbounds_keeps _ _ (fun w => outbounds_ok w.1 /\ endpoints_ok w.2 /\ om_nodes w.1 = om_nodes m1 /\
      em_nodes w.2 = em_nodes e)) in Hs; [|  |by split_and!]; [tauto|].
    intros o w Ho (H1 & H2 & H3 & H4). rewrite <- H3, <- H4 in Ho |- *. by apply start_one_ok.
  - pose proof (start_outbounds_stage_ok cancelled stage (nd_list (om_nodes m1)) m1 Hm1 ltac:(done)) as Hm2.
    destruct (start_outbounds_stage _ _ _ _ _) as [r2 m2]. by intros [= _ <-].
Qed.

Lemma default_replace_ok tag node n d : nodes_ok n -> (forall o, d = Some o -> o ∈ nd_list n \/ ob_isEndpoint o = true) ->
  forall o, (if same_node d (nd_byTag n !! tag) && nonnone (nd_byTag n !! tag) then Some node else d) = Some o ->
  o ∈ nd_list (nodes_replace tag node n) \/ ob_isEndpoint o = true.
Proof.
  intros Hok Hd o. unfold nodes_replace. cbn. destruct (nd_byTag n !! tag) as [old|] eqn:Hb.
  - destruct (nodes_split n tag old Hok Hb) as (l1 & l2 & Hl & _ & _ & _ & -> & _).
    destruct (same_node d (Some old)) eqn:Hs; cbn; [intros [= <-]; left; set_solver|].
    intros ->. destruct (Hd o eq_refl) as [Ho|]; [|by right]. left. rewrite Hl in Ho. cbn in Hs. apply bool_decide_eq_false in Hs.
    assert (o <> old) by (by intros ->). set_solver.
  - rewrite andb_false_r. intros ->. destruct (Hd o eq_refl); [left; set_solver|by right].
Qed.

Lemma OutboundManager_Replace_ok cancelled tag created (m : OM) : outbounds_ok m -> created_ok false tag created (om_nodes m) ->
  outbounds_ok (OutboundManager_Replace component_Start run IsClosed IsCanceled Errors Expand cancelled tag created m).2.
Proof.
  intros (Hn & Hk & Hl & Hd) Hc. unfold OutboundManager_Replace. destruct created as [node|e]; [|done].
  destruct (Hc node eq_refl) as [Hf Hb].
  assert (Hn' : nodes_ok (nodes_replace tag node (om_nodes m))) by (by apply nodes_replace_ok).
  assert (Hk' : kind_ok false (nodes_replace tag node (om_nodes m))) by (by apply kind_replace).
  pose proof (default_replace_ok tag node _ _ Hn Hd) as Hd'.
  destruct (om_lifecycle m) as [g|] eqn:Hg; [|by destruct (nd_byTag (om_nodes m) !! tag); split_and!].
  destruct (Hl g eq_refl) as [l Hl0]. destruct (ob_isLifecycle node) eqn:Hlc.
  - pose proof (catch_up_within cancelled (outbound_name node tag) node (om_stage m) g l (live (om_nodes m)) Hl0) as Hcu.
    destruct (catch cancelled (outbound_name node tag) node (om_stage m) g) as [[ran [r|]] g'].
    + destruct Hcu as [l' Hl']. split_and!; [done|done| |done]. intros ? [= <-]. by exists l'.
    + destruct Hcu as [l' Hl']. assert (Hl'' : owns_within g' l' (own_id node ++ live (om_nodes m))) by (unfold own_id; by rewrite Hlc).
      pose proof (replaced_ok g' l' tag node _ Hn Hl'') as Hr. destruct (nd_byTag (om_nodes m) !! tag) as [old|]; [|by split_and!].
      destruct (ob_isLifecycle old); [|by split_and!]. by destruct (remove (ob_id old) g') as [[ran' err] g'']; split_and!.
  - assert (Hl'' : owns_within g l (own_id node ++ live (om_nodes m))) by (unfold own_id; by rewrite Hlc).
    pose proof (replaced_ok g l tag node _ Hn Hl'') as Hr. destruct (nd_byTag (om_nodes m) !! tag) as [old|]; [|by split_and!].
    destruct (ob_isLifecycle old); [|by split_and!]. by destruct (remove (ob_id old) g) as [[ran' err] g'']; split_and!.
Qed.

Lemma OutboundManager_Remove_ok tag (m : OM) : outbounds_ok m ->
  outbounds_ok (OutboundManager_Remove run IsClosed IsCanceled Errors Expand tag m).2.
Proof.
  intros (Hn & Hk & Hl & Hd). unfold OutboundManager_Remove. destruct (nd_byTag (om_nodes m) !! tag) as [old|] eqn:Ht; [|done].
  pose proof (nodes_remove_ok tag old _ Hn Ht) as Hn'. pose proof (kind_remove false tag old _ Hn Hk Ht) as Hk'.
  set (default' := if same_node _ _ then _ else _).
  assert (Hd' : forall o, default' = Some o -> o ∈ nd_list (nodes_remove tag old (om_nodes m)) \/ ob_isEndpoint o = true).
  { intros o. unfold default'. destruct (same_node _ _) eqn:Hs.
    - intros Ho. left. destruct (nd_list (nodes_remove _ _ _)); [done|]. injection Ho as <-. by left.
    - intros Ho. destruct (Hd o Ho) as [Hin|]; [left|by right]. rewrite Ho in Hs. cbn in Hs. apply bool_decide_eq_false in Hs.
      destruct (nodes_split _ tag old Hn Ht) as (l1 & l2 & Hli & _ & _ & _ & _ & Hr). unfold nodes_remove. cbn. rewrite Hr.
      rewrite Hli in Hin. assert (o <> old) by (by intros ->). set_solver. }
  clearbody default'. destruct (om_lifecycle m) as [g|] eqn:Hg; [|by split_and!]. destruct (Hl g eq_refl) as [l Hl0].
  pose proof (within_mono _ _ _ _ Hl0 (live_remove tag old _ Hn Ht)) as Hw. unfold own_id in Hw.
  destruct (ob_isLifecycle old); [|split_and!; [done|done| |done]; intros ? [= <-]; by exists l].
  destruct (Group_Remove_within (ob_id old) g l _ Hw) as [l' Hl'].
  destruct (remove (ob_id old) g) as [[ran err] g']. split_and!; [done|done| |done]. intros ? [= <-]. by exists l'.
Qed.

(** ** Everything that can happen to the managers *)

Inductive managersStep : managers (A := A) -> managers (A := A) -> Prop :=
| step_outbound_create m e tag created : created_ok false tag created (om_nodes m) ->
    managersStep (m, e) ((OutboundManager_Create tag created m).2, e)
| step_outbound_start w cancelled fallback stage r w' : fallback_ok fallback (om_nodes w.1) ->
    OutboundManager_Start component_Start cancelled fallback stage w = Some (r, w') -> managersStep w w'
| step_outbound_replace m e cancelled tag created : created_ok false tag created (om_nodes m) ->
    managersStep (m, e)
      ((OutboundManager_Replace component_Start run IsClosed IsCanceled Errors Expand cancelled tag created m).2, e)
| step_outbound_remove m e tag :
    managersStep (m, e) ((OutboundManager_Remove run IsClosed IsCanceled Errors Expand tag m).2, e)
| step_endpoint_create m e tag created : created_ok true tag created (em_nodes e) ->
    managersStep (m, e) (m, (EndpointManager_Create tag created e).2)
| step_endpoint_start m e cancelled stage :
    managersStep (m, e) (m, (EndpointManager_Start component_Start cancelled stage e).2)
| step_endpoint_replace m e cancelled tag created : created_ok true tag created (em_nodes e) ->
    managersStep (m, e)
      (m, (EndpointManager_Replace component_Start run IsClosed IsCanceled Errors Expand cancelled tag created e).2)
| step_endpoint_remove m e tag :
    managersStep (m, e) (m, (EndpointManager_Remove run IsClosed IsCanceled Errors Expand tag e).2).

Definition managers_ok (w : managers (A := A)) : Prop := outbounds_ok w.1 /\ endpoints_ok w.2.

Lemma managersStep_ok w w' : managers_ok w -> managersStep w w' -> managers_ok w'.
Proof.
  intros [Hm He] Hs. destruct Hs; unfold managers_ok in *; cbn [fst snd] in *.
  - split; [by apply OutboundManager_Create_ok|done].
  - by eapply OutboundManager_Start_ok.
  - split; [by apply OutboundManager_Replace_ok|done].
  - split; [by apply OutboundManager_Remove_ok|done].
  - split; [done|by apply EndpointManager_Create_ok].
  - split; [done|by apply EndpointManager_Start_ok].
  - split; [done|by apply EndpointManager_Replace_ok].
  - split; [done|by apply EndpointManager_Remove_ok].
Qed.

(** The managers before anything is created. *)
Definition new_managers (defaultTag : string) : managers (A := A) :=
  (mkOutboundManager None StartStateInitialize defaultTag (mkNodes [] ∅) None,
   mkEndpointManager None StartStateInitialize (mkNodes [] ∅)).

Lemma no_nodes_ok : nodes_ok (mkNodes [] ∅).
Proof. split_and!; [constructor|constructor|]. intros tag o. cbn. rewrite lookup_empty. split; [done|]. by intros [Hn%not_elem_of_nil _]. Qed.

Lemma new_managers_ok defaultTag : managers_ok (new_managers defaultTag).
Proof. split; split_and!; try done; try apply no_nodes_ok; constructor. Qed.

Lemma managers_reachable_ok defaultTag w : rtc managersStep (new_managers defaultTag) w -> managers_ok w.
Proof.
  intros Hr. assert (Hi : managers_ok (new_managers defaultTag)) by apply new_managers_ok.
  induction Hr as [|w1 w2 w3 H12 _ IH]; [done|]. apply IH. by eapply managersStep_ok.
Qed.

(** ** A replacement that fails *)

Lemma own_fresh c fs (l : groupOwned (A := A)) : c ∉ map fst l -> group_own c fs l = l ++ [(c, fs)].
Proof. intros Hc. unfold group_own. by rewrite bool_decide_eq_false_2. Qed.

Lemma own_last c fs fs' (l : groupOwned (A := A)) : c ∉ map fst l -> group_own c fs' (l ++ [(c, fs)]) = l ++ [(c, fs ++ fs')].
Proof.
  intros Hc. unfold group_own. rewrite bool_decide_eq_true_2 by (rewrite map_app; cbn; set_solver).
  rewrite map_app. cbn. rewrite decide_True by done. f_equal. rewrite <- (map_id l) at 2. apply map_ext_in. intros o Ho.
  rewrite decide_False; [done|]. intros <-. apply Hc, list_elem_of_fmap. exists o. split; [done|by apply list_elem_of_In].
Qed.

(** A new component of the group, and what it added so far. *)
Definition owns_new (g : Group) (l : groupOwned (A := A)) (c : Component) (fs : list A) : Prop :=
  (fs = [] /\ group_owns g l) \/ group_owns g (l ++ [(c, fs)]).

Lemma Group_Start_new name c stage (g : Group) l fs : c ∉ map fst l -> owns_new g l c fs ->
  owns_new (Group_Start component_Start false name c stage g).2 l c (fs ++ (component_Start c stage).1).
Proof.
  intros Hc [[-> Hg]|Hg]; right; apply (Group_Start_owns component_Start name c stage) in Hg.
  - by rewrite own_fresh in Hg.
  - by rewrite own_last in Hg.
Qed.

(** What a node adds in the stages it goes through. *)
Fixpoint stages_added (node : Component) (last : StartStage) (stages : list StartStage) : list A :=
  match stages with
  | [] => []
  | stage :: rest =>
      if (stage_index last <? stage_index stage)%nat then []
      else (component_Start node stage).1 ++
           match (component_Start node stage).2 with Ok _ => stages_added node last rest | Err _ => [] end
  end.

Lemma Group_Start_result name c stage (g : Group) : lg_closed g = false ->
  (forall scope, lg_scopes g !! c = Some scope -> sc_cancelled scope = false) ->
  is_ok (Group_Start component_Start false name c stage g).1 = is_ok (component_Start c stage).2.
Proof.
  intros Hc Hs. unfold Group_Start. rewrite Hc. unfold Scope_Start.
  destruct (lg_scopes g !! c) as [scope|] eqn:Hl; [rewrite (Hs scope eq_refl)|cbn]; destruct (component_Start c stage) as [fs [[]|e]]; done.
Qed.

Lemma owns_new_scope (g : Group) l c fs scope : c ∉ map fst l -> owns_new g l c fs -> lg_scopes g !! c = Some scope ->
  sc_cancelled scope = false.
Proof.
  intros Hc [[-> (_ & _ & _ & Hout & _)]|(_ & _ & _ & _ & Hin)] Hl; [by rewrite (Hout c Hc) in Hl|].
  destruct (Hin c fs) as (scope' & Hl' & name & ->); [set_solver|]. rewrite Hl in Hl'. by injection Hl' as ->.
Qed.

Lemma start_stages_new name node last stages (g : Group) l fs : ob_id node ∉ map fst l -> owns_new g l (ob_id node) fs ->
  owns_new (start_stages component_Start false name node last stages g).2 l (ob_id node)
    (fs ++ stages_added (ob_id node) last stages).
Proof.
  intros Hc. revert g fs. induction stages as [|stage stages IH]; intros g fs Hg; cbn -[Nat.ltb]; [by rewrite app_nil_r|].
  destruct (_ <? _)%nat; [by rewrite app_nil_r|].
  pose proof (Group_Start_new name (ob_id node) stage g l fs Hc Hg) as Hg'.
  assert (Hr : is_ok (Group_Start component_Start false name (ob_id node) stage g).1 = is_ok (component_Start (ob_id node) stage).2).
  { apply Group_Start_result; [destruct Hg as [[_ Hg]|Hg]; apply Hg|]. intros scope. by eapply owns_new_scope. }
  destruct (Group_Start component_Start false name (ob_id node) stage g) as [[u|e] g']; cbn in Hr, Hg';
    destruct (component_Start (ob_id node) stage) as [added [[]|e']]; cbn in Hr, Hg' |- *; try done.
  - rewrite app_assoc. by apply IH.
  - by rewrite app_nil_r.
Qed.

Lemma disown_last c fs (l : groupOwned (A := A)) : c ∉ map fst l -> group_disown c (l ++ [(c, fs)]) = l.
Proof.
  intros Hc. unfold group_disown. rewrite List.filter_app. cbn. rewrite bool_decide_eq_true_2 by done. cbn.
  rewrite app_nil_r. by apply disown_absent.
Qed.

Lemma functions_last c fs (l : groupOwned (A := A)) : c ∉ map fst l -> functions c (l ++ [(c, fs)]) = fs.
Proof.
  intros Hc. unfold functions. rewrite flat_map_app. cbn. rewrite decide_True by done. rewrite app_nil_r.
  change (flat_map _ l) with (functions c l). by rewrite functions_absent.
Qed.

Lemma remove_new (g : Group) l c fs : c ∉ map fst l -> owns_new g l c fs ->
  (remove c g).1.1 = rev fs /\ group_owns (remove c g).2 l.
Proof.
  intros Hc [[-> Hg]|Hg]; destruct (Group_Remove_owns run IsClosed IsCanceled Errors Expand c g _ Hg) as [Hr Ho].
  - by rewrite functions_absent, disown_absent in * by done.
  - by rewrite functions_last, disown_last in * by done.
Qed.

(** A node that can not start leaves the group as it was. *)
Lemma catch_up_result name node last (g : Group) l : group_owns g l -> ob_id node ∉ map fst l ->
  let '(ran, r, g') := catch false name node last g in
  match r with
  | Some _ => group_owns g' l /\ ran = rev (stages_added (ob_id node) last ListStartStages)
  | None => ran = [] /\ owns_new g' l (ob_id node) (stages_added (ob_id node) last ListStartStages)
  end.
Proof.
  intros Hg Hc. unfold catch_up.
  pose proof (start_stages_new name node last ListStartStages g l [] Hc (or_introl (conj eq_refl Hg))) as Hn. cbn [app] in Hn.
  destruct (start_stages component_Start false name node last ListStartStages g) as [[u|e] g']; [done|].
  destruct (remove_new g' l (ob_id node) _ Hc Hn) as [Hr Ho].
  by destruct (remove (ob_id node) g') as [[ran err] g'']; cbn in *.
Qed.

Lemma catch_up_error name node last (g g' : Group) ran r :
  (forall err removeErr, Errors (Expand (Some err) ++ Expand removeErr) <> None) ->
  catch false name node last g = (ran, Some r, g') -> exists e, r = Err e.
Proof.
  intros HE. unfold catch_up. destruct (start_stages _ _ _ _ _ _ _) as [[u|e] g0]; [done|].
  destruct (Group_Remove _ _ _ _ _ _ _) as [[ran1 err1] g1]. intros [= _ <- _].
  specialize (HE e err1). unfold of_error. destruct (Errors _); [by eexists|done].
Qed.

(** A new component changes nothing for the others. *)
Lemma owns_new_functions (g : Group) l c fs : owns_new g l c fs ->
  exists l', group_owns g l' /\ forall c', c' <> c -> functions c' l' = functions c' l.
Proof.
  intros [[_ Hg]|Hg]; eexists; (split; [exact Hg|]); [done|]. intros c' Hne. unfold functions.
  rewrite flat_map_app. cbn. rewrite decide_False by done. by rewrite app_nil_r.
Qed.

(** What the removal of the replaced outbound runs. *)
Definition old_functions (tag : string) (n : Nodes) (l : groupOwned (A := A)) : list A :=
  match nd_byTag n !! tag with
  | Some old => if ob_isLifecycle old then rev (functions (ob_id old) l) else []
  | None => []
  end.

(** The end of [Replace], once the new outbound is at the stage of the manager. *)
Lemma publish_ran tag node (m : OM) (g : Group) l l' ran ran' r (m' : OM) : group_owns g l' ->
  (forall old, nd_byTag (om_nodes m) !! tag = Some old -> functions (ob_id old) l' = functions (ob_id old) l) ->
  (let old := nd_byTag (om_nodes m) !! tag in
   let published g := mkOutboundManager g (om_stage m) (om_defaultTag m) (nodes_replace tag node (om_nodes m))
     (if same_node (om_default m) old && nonnone old then Some node else om_default m) in
   match old, Some g with
   | Some o, Some g =>
       if ob_isLifecycle o then let '(ran', _, g') := remove (ob_id o) g in (ran ++ ran', Ok tt, published (Some g'))
       else (ran, Ok tt, published (Some g))
   | _, _ => (ran, Ok tt, published (Some g))
   end) = (ran', r, m') ->
  r = Ok tt /\ nd_byTag (om_nodes m') !! tag = Some node /\ ran' = ran ++ old_functions tag (om_nodes m) l.
Proof.
  intros Hg Hfun. unfold old_functions. cbn zeta. destruct (nd_byTag (om_nodes m) !! tag) as [old|] eqn:Ho.
  - destruct (ob_isLifecycle old).
    + destruct (Group_Remove_owns run IsClosed IsCanceled Errors Expand (ob_id old) g l' Hg) as [Hr _].
      rewrite (Hfun old eq_refl) in Hr. destruct (remove (ob_id old) g) as [[ran0 err] g'']. cbn in Hr. subst ran0.
      intros [= <- <- <-]. cbn. by rewrite lookup_insert_eq.
    + intros [= <- <- <-]. cbn. by rewrite lookup_insert_eq, app_nil_r.
  - intros [= <- <- <-]. cbn. by rewrite lookup_insert_eq, app_nil_r.
Qed.
End groups.
