(* ===== verification/Box.v ===== *)
(** * Starting and closing the program

    [PreStart], [Start] and [Close] of [src/box.go]: the components in the order in
    which they go through their stages, in the scope that closes them. *)

From stdpp Require Import base gmap strings list.
From Stdlib Require Import ZArith Lia Sorted.
From S2P Require Import Prelude Lifecycle.

(** The components of a box; the services of the start are those without a manager. *)
Record Box : Type := mkBox {
  bx_network : Component;
  bx_endpoint : Component;
  bx_inbound : Component;
  bx_outbound : Component;
  bx_provider : Component;
  bx_service : Component;
  bx_certificateProvider : Component;
  bx_dnsTransport : Component;
  bx_dnsRouter : Component;
  bx_connection : Component;
  bx_router : Component;
  bx_httpClientService : string * Component;
  bx_internalService : list (string * Component)
}.

Lemma bool_decide_ext_if {T : Type} (P Q : Prop) `{Decision P} `{Decision Q} (x y : T) : P <-> Q ->
  (if bool_decide P then x else y) = (if bool_decide Q then x else y).
Proof. intros Hpq. by rewrite (bool_decide_ext P Q Hpq). Qed.

Section box.
Context {A : Type}.
Context (component_Start : Component -> StartStage -> list A * result unit) (run : A -> option error).
Context (IsClosed IsCanceled : error -> bool) (Errors : list error -> option error) (Expand : option error -> list error).
Context (s : Box).
(** The start of the logger, of the debug server and of the time service, when there is
    one, and the functions that close them. *)
Context (logger debugServer ntpService : option (result unit * A)).

(** What the start does in turn. *)
Inductive boxStep : Type :=
| StartService (cause : option string) (service : option (result unit * A))
| StartComponent (name : string) (component : Component) (stage : StartStage).

Definition startComponents (stage : StartStage) (components : list (string * Component)) : list boxStep :=
  map (fun c => StartComponent c.1 c.2 stage) components.

Definition startInternalServices (stage : StartStage) : list boxStep := startComponents stage (bx_internalService s).

Definition preStart : list boxStep :=
  [StartService (Some "start logger") logger; StartService None debugServer] ++
  startInternalServices StartStateInitialize ++
  startComponents StartStateInitialize
    [bx_httpClientService s; ("network", bx_network s); ("dns-transport", bx_dnsTransport s); ("dns-router", bx_dnsRouter s);
     ("connection", bx_connection s); ("router", bx_router s); ("outbound", bx_outbound s); ("endpoint", bx_endpoint s);
     ("provider", bx_provider s); ("certificate-provider", bx_certificateProvider s); ("inbound", bx_inbound s);
     ("service", bx_service s)] ++
  startComponents StartStateStart
    [("outbound", bx_outbound s); ("dns-transport", bx_dnsTransport s); ("network", bx_network s);
     ("connection", bx_connection s); bx_httpClientService s; ("provider", bx_provider s); ("router", bx_router s);
     ("dns-router", bx_dnsRouter s)].

Definition start : list boxStep :=
  preStart ++
  startInternalServices StartStateStart ++
  [StartService (Some "start ntp service") ntpService] ++
  startComponents StartStateStart
    [("endpoint", bx_endpoint s); ("certificate-provider", bx_certificateProvider s); ("inbound", bx_inbound s);
     ("service", bx_service s)] ++
  startComponents StartStatePostStart
    [("outbound", bx_outbound s); ("provider", bx_provider s); ("network", bx_network s);
     ("dns-transport", bx_dnsTransport s); ("dns-router", bx_dnsRouter s); ("connection", bx_connection s);
     ("router", bx_router s); ("endpoint", bx_endpoint s); ("certificate-provider", bx_certificateProvider s);
     ("inbound", bx_inbound s); ("service", bx_service s)] ++
  startInternalServices StartStatePostStart ++
  startComponents StartStateStarted
    [("network", bx_network s); ("dns-transport", bx_dnsTransport s); ("dns-router", bx_dnsRouter s);
     ("connection", bx_connection s); ("router", bx_router s); ("outbound", bx_outbound s); ("endpoint", bx_endpoint s);
     ("provider", bx_provider s); ("certificate-provider", bx_certificateProvider s); ("inbound", bx_inbound s);
     ("service", bx_service s)] ++
  startInternalServices StartStateStarted.

Definition with_cause (cause : option string) (r : result unit) : result unit :=
  match cause with Some c => result_map_err (fun e => ECause e c) r | None => r end.

Definition run_step (step : boxStep) (scope : Scope A) : result unit * Scope A :=
  match step with
  | StartService _ None => (Ok tt, scope)
  | StartService cause (Some (r, close)) =>
      (with_cause cause r, match r with Ok _ => Scope_Add close scope | Err _ => scope end)
  | StartComponent name component stage => Scope_Start component_Start name component stage scope
  end.

Fixpoint run_steps (steps : list boxStep) (scope : Scope A) : result unit * Scope A :=
  match steps with
  | [] => (Ok tt, scope)
  | step :: rest =>
      match run_step step scope with
      | (Ok _, scope') => run_steps rest scope'
      | (Err e, scope') => (Err e, scope')
      end
  end.

(** [Start], and [PreStart] with the steps of [preStart]: a failure closes the box.  The
    result, the functions that were run, and the scope. *)
Definition start_or_close (steps : list boxStep) (scope : Scope A) : result unit * list A * Scope A :=
  let '(r, scope') := run_steps steps scope in
  match r with
  | Ok _ => (Ok tt, [], scope')
  | Err e => (Err e, (Scope_Close run IsClosed IsCanceled Errors Expand scope').1, Scope_closed scope')
  end.

Definition Box_PreStart (scope : Scope A) : result unit * list A * Scope A := start_or_close preStart scope.
Definition Box_Start (scope : Scope A) : result unit * list A * Scope A := start_or_close start scope.

(** ** Properties *)

(** The stages a component goes through. *)
Definition step_stage (c : Component) (step : boxStep) : list StartStage :=
  match step with StartComponent _ c' stage => if decide (c' = c) then [stage] else [] | StartService _ _ => [] end.

Definition stages_of (c : Component) (steps : list boxStep) : list StartStage := flat_map (step_stage c) steps.

(** The components of a box, those of the services apart. *)
Definition box_components : list Component :=
  [(bx_httpClientService s).2; bx_network s; bx_dnsTransport s; bx_dnsRouter s; bx_connection s; bx_router s;
   bx_outbound s; bx_endpoint s; bx_provider s; bx_certificateProvider s; bx_inbound s; bx_service s].

(** What a step adds to the scope, and the calls on the scope it makes. *)
Definition step_op (step : boxStep) : list (scopeOp (A := A)) :=
  match step with
  | StartService _ (Some (Ok _, close)) => [OpAdd close]
  | StartService _ _ => []
  | StartComponent name c stage => [OpStart name c stage]
  end.

(** The calls that were made: those of all the steps, or of the steps up to the one that
    fails. *)
Lemma run_steps_ops steps scope :
  exists n, (run_steps steps scope).2 =
    foldl (fun sc o => scope_op component_Start o sc) scope (flat_map step_op (take n steps)) /\
    match (run_steps steps scope).1 with
    | Ok _ => take n steps = steps
    | Err e => exists m step before, n = S m /\ run_steps (take m steps) scope = (Ok tt, before) /\
        steps !! m = Some step /\ (run_step step before).1 = Err e
    end.
Proof.
  revert scope. induction steps as [|step steps IH]; intros scope; cbn; [by exists 0%nat|].
  assert (Hstep : (run_step step scope).2 = foldl (fun sc o => scope_op component_Start o sc) scope (step_op step))
    by (destruct step as [cause [[[u|e] close]|]|name c stage]; done).
  destruct (run_step step scope) as [[[]|e] scope'] eqn:Hrun; cbn in Hstep.
  - destruct (IH scope') as (n & Hn & Hok). exists (S n). cbn. rewrite foldl_app, <- Hstep. split; [done|].
    destruct (run_steps steps scope') as [[u|e] scope'']; [by f_equal|]. destruct Hok as (m & step' & before & -> & Hm & Hs & He).
    exists (S m), step', before. cbn. by rewrite Hrun.
  - exists 1%nat. cbn. rewrite take_0, app_nil_r, Hstep. split; [done|]. exists 0%nat, step, scope. by rewrite take_0, Hrun.
Qed.

Lemma stages_of_app c steps steps' : stages_of c (steps ++ steps') = stages_of c steps ++ stages_of c steps'.
Proof. apply flat_map_app. Qed.

(** One round over different components. *)
Lemma stages_of_components c stage l : NoDup (map snd l) ->
  stages_of c (startComponents stage l) = if bool_decide (c ∈ map snd l) then [stage] else [].
Proof.
  clear component_Start. unfold stages_of, startComponents. induction l as [|[name c'] l IH]; cbn; [done|]. intros [Hc Hn]%NoDup_cons.
  rewrite IH by done. destruct (decide (c' = c)) as [->|Hne].
  - rewrite bool_decide_eq_false_2 by done. by rewrite bool_decide_eq_true_2 by (by left).
  - cbn. apply bool_decide_ext_if. rewrite elem_of_cons. naive_solver.
Qed.

Lemma stages_of_others c stage l : c ∉ map snd l -> stages_of c (startComponents stage l) = [].
Proof.
  clear component_Start. unfold stages_of, startComponents. induction l as [|[name c'] l IH]; cbn; [done|]. intros [Hc Hl]%not_elem_of_cons.
  rewrite decide_False by done. by apply IH.
Qed.

(** The services go through all stages, in order. *)
Lemma start_stages_services c : NoDup (box_components ++ map snd (bx_internalService s)) ->
  c ∈ map snd (bx_internalService s) -> stages_of c start = ListStartStages.
Proof.
  clear component_Start. intros (_ & Hd & Hn)%NoDup_app Hc.
  assert (Hin : forall stage, stages_of c (startInternalServices stage) = [stage]).
  { intros stage. unfold startInternalServices. rewrite stages_of_components by done. by rewrite bool_decide_eq_true_2. }
  assert (Hnot : forall c', c' ∈ box_components -> c' <> c) by (intros c' Hc' ->; by apply (Hd c)).
  unfold start, preStart. rewrite !stages_of_app, !Hin.
  rewrite !stages_of_others; [done|..]; cbn; intros Hl;
    repeat (apply elem_of_cons in Hl as [Hl|Hl]; [by eapply Hnot; [|symmetry; exact Hl]; apply list_elem_of_In; cbn; tauto|]);
    by apply not_elem_of_nil in Hl.
Qed.

(** The managers go through all stages too; the HTTP client only through the first two. *)
Lemma start_stages_components c : NoDup (box_components ++ map snd (bx_internalService s)) -> c ∈ box_components ->
  stages_of c start = if decide (c = (bx_httpClientService s).2) then take 2 ListStartStages else ListStartStages.
Proof.
  clear component_Start. intros (Hb & Hd & _)%NoDup_app Hc. specialize (Hd c Hc).
  assert (Hin : forall stage, stages_of c (startInternalServices stage) = []) by (intros; by apply stages_of_others).
  unfold start, preStart. rewrite !stages_of_app, !Hin. unfold box_components in *.
  rewrite !NoDup_cons, !not_elem_of_cons in Hb. unfold stages_of, startComponents. cbn.
  destruct_and! Hb. repeat (apply elem_of_cons in Hc as [->|Hc]; [
    repeat first [rewrite decide_True by reflexivity | rewrite decide_False by congruence]; reflexivity |]).
  by apply not_elem_of_nil in Hc.
Qed.
End box.
