(* ===== verification/LifecycleTheorems.v ===== *)
(** * Theorems about the life of components

    The order in which outbounds start, what managers keep while nodes come and go,
    and what is cleaned up when. *)

From stdpp Require Import base gmap strings list.
From Stdlib Require Import ZArith Lia.
From S2P Require Import Prelude Lifecycle StartOrder Managers ManagersOk Box.

(** ** Theorems *)

(** C9. Starting outbounds with different tags always ends, and every outbound that is
    started is started after all its dependencies: it ends with all of them started,
    with the error of the one that failed, or, when nothing more can start, with an
    error that names a cycle of dependencies or a dependency that does not exist. If
    there is any order in which every outbound comes after its dependencies, the last
    does not happen. *)
Theorem outbounds_start_in_order {W : Type} (start : Outbound -> W -> result unit * W) outbounds s :
  NoDup (tags outbounds) ->
  exists r s', startOutbounds start outbounds s = Some (r, s') /\ started_all start outbounds s (r, s') /\
    ((exists order, order ≡ₚ outbounds /\ dependencies_first order) ->
     match r with Ok _ => True | Err e => exists o s1, o ∈ outbounds /\ start o s1 = (Err e, s') end).
Proof.
  intros Hn. destruct (startOutbounds_all start outbounds s Hn) as ([r s'] & Hr & Hs). exists r, s'. split_and!; [done|done|].
  intros (order' & Hp & Hd). destruct Hs as (order & s1 & _ & _ & _ & _ & Hres). destruct r as [u|e]; [done|].
  destruct Hres as [(o & Ho & Hst & _)|(_ & _ & (o & Ho & Hno) & Hstuck)]; [by exists o, s1|].
  destruct Hno. by eapply order_not_stuck.
Qed.

(** Two nodes with one tag make the start of outbounds dereference nil: the node
    that comes second is never started, and when all others are, no node is left that
    the search for an unstarted one could find. *)
Example duplicate_tag_panics :
  let node id endpoint := mkOutbound id "Compatible" "direct" [] endpoint true in
  startOutbounds (fun o (s : list Component) => (Ok tt, s ++ [ob_id o])) [node 1 false; node 2 true] [] =
  Some (Err (EPanic "nil outbound"), [1]).
Proof. vm_compute. reflexivity. Qed.

Section managers.
Context {A : Type}.
Context (component_Start : Component -> StartStage -> list A * result unit) (run : A -> option error).
Context (IsClosed IsCanceled : error -> bool) (Errors : list error -> option error) (Expand : option error -> list error).

(** C10. However outbounds and endpoints are created, started, replaced and removed, in
    any order and with any failures, the managers keep their tags and lists in step, and
    their lifecycle groups own nothing but components of nodes that they still have: whatever
    left was closed.  The default outbound is one that the outbound manager has, or else an
    endpoint; an endpoint may have been removed since, as the endpoint manager does not reset
    the default. *)
Theorem managers_consistent defaultTag (w : managers (A := A)) :
  rtc (managersStep component_Start run IsClosed IsCanceled Errors Expand) (new_managers defaultTag) w ->
  nodes_ok (om_nodes w.1) /\ nodes_ok (em_nodes w.2) /\
  lifecycle_ok (om_lifecycle w.1) (om_nodes w.1) /\ lifecycle_ok (em_lifecycle w.2) (em_nodes w.2) /\
  (forall o, om_default w.1 = Some o -> o ∈ nd_list (om_nodes w.1) \/ ob_isEndpoint o = true).
Proof. intros [(H1 & _ & H3 & H4) (H5 & _ & H7)]%managers_reachable_ok. done. Qed.

(** C11. Replacing an outbound is atomic: if the new one can not go through the stages
    of the manager, everything it added is run, the last first, and the outbounds, the
    default and what the lifecycle group owns are as before; otherwise the tag has the
    new outbound and everything the old one added is run, the last first. *)
Theorem replace_atomic tag node (m m' : OutboundManager (A := A)) g l ran r :
  (forall err removeErr, Errors (Expand (Some err) ++ Expand removeErr) <> None) ->
  nodes_ok (om_nodes m) -> om_lifecycle m = Some g -> group_owns g l -> ob_id node ∉ map fst l ->
  fresh_node tag node (om_nodes m) ->
  OutboundManager_Replace component_Start run IsClosed IsCanceled Errors Expand false tag (Ok node) m = (ran, r, m') ->
  match r with
  | Err _ => ran = rev (stages_added component_Start (ob_id node) (om_stage m) ListStartStages) /\
             om_nodes m' = om_nodes m /\ om_default m' = om_default m /\
             exists g', om_lifecycle m' = Some g' /\ group_owns g' l
  | Ok _ => nd_byTag (om_nodes m') !! tag = Some node /\ ran = old_functions tag (om_nodes m) l
  end.
Proof.
  intros HE Hn Hg Hl Hc [Ht Hid]. unfold OutboundManager_Replace. rewrite Hg.
  assert (Hold : forall old, nd_byTag (om_nodes m) !! tag = Some old -> ob_id old <> ob_id node).
  { intros old Hold Heq. apply Hid. rewrite <- Heq. apply list_elem_of_fmap. exists old. split; [done|]. by apply Hn in Hold as [? _]. }
  destruct (ob_isLifecycle node).
  - pose proof (catch_up_result component_Start run IsClosed IsCanceled Errors Expand (outbound_name node tag) node (om_stage m) g l Hl Hc)
      as Hcu.
    destruct (catch_up _ _ _ _ _ _ _ _ _ _) as [[ran0 [r0|]] g'] eqn:Hcatch.
    + destruct Hcu as [Hg' ->]. apply catch_up_error in Hcatch as [e ->]; [|done]. intros [= <- <- <-]. cbn.
      split_and!; [done..|]. by exists g'.
    + destruct Hcu as [-> (l' & Hg' & Hfun)%owns_new_functions].
      intros (-> & H1 & ->)%(publish_ran run IsClosed IsCanceled Errors Expand tag node m _ l l'); [done..|]. intros old Ho. by apply Hfun, Hold.
  - by intros (-> & H1 & ->)%(publish_ran run IsClosed IsCanceled Errors Expand tag node m _ l l).
Qed.

(** C12. A lifecycle group cleans up exactly once: whatever components were started
    and removed in it, with or without errors, the functions that ran when components
    were removed and when the group is closed are those that the components added, each
    once; closing runs the components that are left in reverse order, each with its last
    function first. A closed group starts nothing. *)
Theorem group_cleans_up_once ops :
  let '(ran, g) := group_ops component_Start run IsClosed IsCanceled Errors Expand ops NewLifecycleGroup in
  let '(closing, _, g') := Group_Close run IsClosed IsCanceled Errors Expand g in
  ran ++ closing ≡ₚ flat_map (group_adds component_Start) ops /\
  closing = flat_map (fun o => rev o.2) (rev (foldl (group_own_op component_Start) [] ops)) /\
  forall name c stage, Group_Start component_Start false name c stage g' = (Err ErrClosed, g').
Proof.
  pose proof (group_close_all component_Start run IsClosed IsCanceled Errors Expand ops) as Hc.
  destruct (group_ops _ _ _ _ _ _ _ _) as [ran g]. destruct Hc as [Hr Hp]. unfold Group_Close in *.
  by destruct (close_loop _ _ _ _ _ _ _) as [closing err].
Qed.

(** C13. When a step of the start fails, the program closes what it had started: the
    functions that run are those that the steps before the failing one, and the failing
    component itself, had added, each once, the components in reverse order of their
    first start; and nothing can be started any more. A start that succeeds closes
    nothing. *)
Theorem failed_start_closes s logger debugServer ntpService r ran scope :
  Box_Start component_Start run IsClosed IsCanceled Errors Expand s logger debugServer ntpService NewScope = (r, ran, scope) ->
  match r with
  | Ok _ => ran = []
  | Err e => exists m step before, let steps := start s logger debugServer ntpService in
      let ops := flat_map step_op (take (S m) steps) in
      run_steps component_Start (take m steps) NewScope = (Ok tt, before) /\ steps !! m = Some step /\
      (run_step component_Start step before).1 = Err e /\
      ran ≡ₚ flat_map (op_adds component_Start) ops /\
      ran = flat_map owned_ran (rev (foldl (own_op component_Start) [] ops)) /\
      forall name c stage, Scope_Start component_Start name c stage scope = (Err ErrCanceled, scope)
  end.
Proof.
  unfold Box_Start, start_or_close. generalize (start s logger debugServer ntpService). intros steps.
  destruct (run_steps_ops component_Start steps NewScope) as (n & Hn & Hm).
  destruct (run_steps _ _ _) as [[u|e] scope']; [by intros [= <- <- <-]|]. cbn [fst snd] in Hn, Hm. intros [= <- <- <-].
  destruct Hm as (m & step & before & -> & Hr & Hs & He). exists m, step, before.
  destruct (scope_close_all component_Start run IsClosed IsCanceled Errors Expand (flat_map step_op (take (S m) steps)))
    as [H1 H2]. rewrite <- Hn in H1, H2.
  cbn zeta. split_and!; done.
Qed.
End managers.

(** Every component of the program is initialized before it is started, and goes
    through its stages in order and once: the services and managers through all four,
    the HTTP client through the first two. *)
Theorem start_stages_in_order {A : Type} s (logger debugServer ntpService : option (result unit * A)) c :
  NoDup (box_components s ++ map snd (bx_internalService s)) -> c ∈ box_components s ++ map snd (bx_internalService s) ->
  stages_of c (start s logger debugServer ntpService) =
  if decide (c = (bx_httpClientService s).2) then [StartStateInitialize; StartStateStart] else ListStartStages.
Proof.
  intros Hn [Hc|Hc]%elem_of_app; [by rewrite start_stages_components|].
  rewrite start_stages_services by done. rewrite decide_False; [done|]. intros ->.
  apply NoDup_app in Hn as (_ & Hd & _). apply (Hd (bx_httpClientService s).2); [by left|done].
Qed.

(** ** Instances *)

(** Components add their number at every stage; component 9 fails to start. *)
Definition sample_Start (c : Component) (stage : StartStage) : list nat * result unit :=
  ([(10 * c + stage_index stage)%nat], if decide (c = 9%nat) then Err (ENew "failed") else Ok tt).
Definition sample_Errors (l : list error) : option error := head l.
Definition sample_Expand (e : option error) : list error := match e with Some e => [e] | None => [] end.
Definition sample_never (e : error) : bool := false.
Definition sample_run (f : nat) : option error := None.

Definition sample_node (id : Component) (tag : string) (dependencies : list string) : Outbound :=
  mkOutbound id tag "selector" dependencies false true.

Definition sample_box : Box :=
  mkBox 1 2 3 4 5 6 7 8 9 10 11 ("http-client", 12%nat) [("cache-file", 13%nat); ("clash-server", 14%nat)].

Lemma outbounds_start_in_order_witness :
  let outbounds := [sample_node 1 "auto" ["a"; "b"]; sample_node 2 "a" ["b"]; sample_node 3 "b" []] in
  NoDup (tags outbounds) /\
  exists r s', startOutbounds (fun o (s : list Component) => (Ok tt, s ++ [ob_id o])) outbounds [] = Some (r, s').
Proof.
  intros outbounds. assert (Hn : NoDup (tags outbounds)) by (apply (bool_decide_unpack _); vm_compute; exact I).
  split; [exact Hn|].
  destruct (outbounds_start_in_order (fun o (s : list Component) => (Ok tt, s ++ [ob_id o])) outbounds [] Hn)
    as (r & s' & H & _). by exists r, s'.
Defined.

Lemma managers_consistent_witness :
  let created := OutboundManager_Create (A := nat) "a" (Ok (sample_node 1 "a" [])) (new_managers "").1 in
  created.1 = Ok tt /\ nodes_ok (om_nodes created.2).
Proof.
  split; [reflexivity|].
  refine (proj1 (managers_consistent sample_Start sample_run sample_never sample_never sample_Errors sample_Expand ""
    ((OutboundManager_Create "a" (Ok (sample_node 1 "a" [])) (new_managers "").1).2, (new_managers "").2) _)).
  apply rtc_once, step_outbound_create. intros node [= <-]. split; [|done]. split; [done|]. apply not_elem_of_nil.
Defined.

(** A started outbound "a", whose replacement fails. *)
Definition sample_manager : OutboundManager (A := nat) :=
  let m := (OutboundManager_Create "a" (Ok (sample_node 1 "a" [])) (new_managers "").1).2 in
  match OutboundManager_Start sample_Start false (Err (ENew "unused")) StartStateInitialize (m, (new_managers "").2) with
  | Some (_, w) => w.1
  | None => m
  end.

Lemma replace_atomic_witness :
  let replaced := OutboundManager_Replace sample_Start sample_run sample_never sample_never sample_Errors sample_Expand false
    "a" (Ok (sample_node 9 "a" [])) sample_manager in
  replaced.1 = ([90%nat], Err (ECause (ENew "failed") "initialize outbound/selector[a]")) /\
  om_nodes replaced.2 = om_nodes sample_manager.
Proof.
  intros replaced. split; [vm_compute; reflexivity|].
  pose (g := default NewLifecycleGroup (om_lifecycle sample_manager)).
  assert (Hg : om_lifecycle sample_manager = Some g) by reflexivity.
  assert (Hl : group_owns g [(1%nat, [10%nat])]).
  { exact (Group_Start_owns sample_Start "outbound/selector[a]" 1%nat StartStateInitialize NewLifecycleGroup []
      NewLifecycleGroup_owns). }
  assert (Hn : nodes_ok (om_nodes sample_manager)).
  { apply (nodes_add_ok "a" (sample_node 1 "a" []) (mkNodes [] ∅)); [apply no_nodes_ok| |reflexivity].
    split; [done|]. apply not_elem_of_nil. }
  pose proof (replace_atomic sample_Start sample_run sample_never sample_never sample_Errors sample_Expand "a"
    (sample_node 9 "a" []) sample_manager replaced.2 g [(1%nat, [10%nat])] replaced.1.1 replaced.1.2) as H.
  apply H; [done|exact Hn|exact Hg|exact Hl| | |]; clear H.
  - intros Hin%list_elem_of_singleton. discriminate Hin.
  - split; [done|]. intros Hin%list_elem_of_singleton. discriminate Hin.
  - by rewrite <- !surjective_pairing.
Defined.

Lemma failed_start_closes_witness :
  let started := Box_Start sample_Start sample_run sample_never sample_never sample_Errors sample_Expand sample_box
    (Some (Ok tt, 100%nat)) None None NewScope in
  started.1 = (Err (ECause (ENew "failed") "initialize dns-router"), [90; 80; 10; 120; 140; 130; 100]%nat) /\
  Scope_Start sample_Start "network" 1%nat StartStateStart started.2 = (Err ErrCanceled, started.2).
Proof.
  intros started. assert (Hs : started.1.1 = Err (ECause (ENew "failed") "initialize dns-router")) by (vm_compute; reflexivity).
  split; [vm_compute; reflexivity|].
  pose proof (failed_start_closes sample_Start sample_run sample_never sample_never sample_Errors sample_Expand sample_box
    (Some (Ok tt, 100%nat)) None None started.1.1 started.1.2 started.2) as H.
  rewrite Hs in H. destruct H as (m & step & before & _ & _ & _ & _ & _ & H); [|apply H].
  rewrite <- Hs. by rewrite <- !surjective_pairing.
Defined.

Lemma start_stages_in_order_witness :
  NoDup (box_components sample_box ++ map snd (bx_internalService sample_box)) /\
  stages_of 11%nat (start (A := nat) sample_box None None None) = ListStartStages.
Proof.
  assert (Hn : NoDup (box_components sample_box ++ map snd (bx_internalService sample_box)))
    by (apply (bool_decide_unpack _); vm_compute; exact I).
  split; [exact Hn|]. apply (start_stages_in_order sample_box None None None 11%nat Hn).
  apply (bool_decide_unpack _); vm_compute; exact I.
Defined.
