(* ===== verification/GoSlice.v ===== *)
(** * Slices and code that may panic

    Indexing and slicing of Go byte slices, which panic outside of the slice, and a
    small program logic for fallible code: [safe c Q] says that [c] does not panic and
    that its value, if it has one, satisfies [Q]. *)

From stdpp Require Import base strings list.
From Stdlib Require Import ZArith Lia.
From S2P Require Import Prelude Codec.

Open Scope Z_scope.

Definition len {A : Type} (l : list A) : Z := Z.of_nat (length l).

Definition out_of_range : error := EPanic "runtime error: index out of range".
Definition slice_out_of_range : error := EPanic "runtime error: slice bounds out of range".

(** [s[i]] *)
Definition index {A : Type} (l : list A) (i : Z) : result A :=
  if i <? 0 then Err out_of_range
  else match l !! Z.to_nat i with Some a => Ok a | None => Err out_of_range end.

(** [s[i:]] *)
Definition from {A : Type} (l : list A) (i : Z) : result (list A) :=
  if (i <? 0) || (len l <? i) then Err slice_out_of_range else Ok (drop (Z.to_nat i) l).

(** [s[i:j]] *)
Definition between {A : Type} (l : list A) (i j : Z) : result (list A) :=
  if (i <? 0) || (j <? i) || (len l <? j) then Err slice_out_of_range
  else Ok (take (Z.to_nat (j - i)) (drop (Z.to_nat i) l)).

(** [uint16(hi)<<8 | uint16(lo)] *)
Definition u16 (hi lo : Z) : Z := Z.lor (wrap 16 (Z.shiftl hi 8)) lo.

(** [binary.BigEndian.Uint16] *)
Definition Uint16 (b : list Z) : result Z :=
  try lo <- index b 1; try hi <- index b 0; Ok (u16 hi lo).

(** [0, 1, ..., n-1], the values of [range n]. *)
Definition range (n : Z) : list Z := map Z.of_nat (seq 0 (Z.to_nat n)).

(** ** Code that does not panic *)

Definition panics (e : error) : bool := match e with EPanic _ => true | _ => false end.

Definition safe {A : Type} (c : result A) (Q : A -> Prop) : Prop :=
  match c with Ok a => Q a | Err e => panics e = false end.

Lemma safe_bind {A B : Type} (c : result A) (k : A -> result B) (Q : A -> Prop) (R : B -> Prop) :
  safe c Q -> (forall a, Q a -> safe (k a) R) -> safe (result_bind c k) R.
Proof. destruct c; cbn; auto. Qed.

Lemma safe_weaken {A : Type} (c : result A) (Q R : A -> Prop) : safe c Q -> (forall a, Q a -> R a) -> safe c R.
Proof. destruct c; cbn; auto. Qed.

Lemma safe_ok {A : Type} (a : A) (Q : A -> Prop) : Q a -> safe (Ok a) Q.
Proof. done. Qed.

Lemma safe_err {A : Type} e (Q : A -> Prop) : panics e = false -> safe (Err e) Q.
Proof. done. Qed.

Lemma len_nonneg {A : Type} (l : list A) : 0 <= len l.
Proof. unfold len. lia. Qed.

Lemma len_app {A : Type} (l k : list A) : len (l ++ k) = len l + len k.
Proof. unfold len. rewrite length_app. lia. Qed.

Lemma len_cons {A : Type} (a : A) (l : list A) : len (a :: l) = 1 + len l.
Proof. unfold len. cbn [length]. lia. Qed.

Lemma len_zero {A : Type} (l : list A) : len l = 0 -> l = [].
Proof. unfold len. destruct l; cbn; [done|lia]. Qed.

Lemma index_app_l {A : Type} (l k : list A) i : i < len l -> index (l ++ k) i = index l i.
Proof.
  unfold index, len. intros Hi. destruct (Z.ltb_spec i 0); [done|]. by rewrite lookup_app_l by lia.
Qed.

Lemma index_app_r {A : Type} (l k : list A) i : len l <= i -> index (l ++ k) i = index k (i - len l).
Proof.
  unfold index, len. intros Hi. destruct (Z.ltb_spec i 0); [lia|].
  destruct (Z.ltb_spec (i - Z.of_nat (length l)) 0); [lia|].
  rewrite lookup_app_r by lia. by replace (Z.to_nat i - length l)%nat with (Z.to_nat (i - Z.of_nat (length l))) by lia.
Qed.

Lemma from_app {A : Type} (l k : list A) i : i = len l -> from (l ++ k) i = Ok k.
Proof.
  intros ->. unfold from. rewrite len_app. pose proof (len_nonneg l). pose proof (len_nonneg k).
  destruct (Z.ltb_spec (len l) 0); [lia|]. destruct (Z.ltb_spec (len l + len k) (len l)); [lia|].
  cbn. f_equal. unfold len. by rewrite Nat2Z.id, drop_app_length.
Qed.

Lemma between_app {A : Type} (l m r : list A) i j :
  i = len l -> j = len l + len m -> between (l ++ m ++ r) i j = Ok m.
Proof.
  intros -> ->. unfold between. rewrite !len_app.
  pose proof (len_nonneg l). pose proof (len_nonneg m). pose proof (len_nonneg r).
  destruct (Z.ltb_spec (len l) 0); [lia|]. destruct (Z.ltb_spec (len l + len m) (len l)); [lia|].
  destruct (Z.ltb_spec (len l + (len m + len r)) (len l + len m)); [lia|].
  cbn. f_equal. replace (len l + len m - len l) with (len m) by ring.
  unfold len. by rewrite !Nat2Z.id, drop_app_length, take_app_length.
Qed.

Section safe_slices.
Context {A : Type} (P : A -> Prop).

Lemma safe_index (l : list A) i : Forall P l -> 0 <= i < len l -> safe (index l i) P.
Proof.
  unfold index, len. intros Hl Hi. destruct (Z.ltb_spec i 0); [lia|].
  destruct (lookup_lt_is_Some_2 l (Z.to_nat i)) as [a Ha]; [lia|].
  rewrite Ha. cbn. by eapply Forall_lookup_1.
Qed.

Lemma safe_from (l : list A) i :
  Forall P l -> 0 <= i <= len l -> safe (from l i) (fun r => Forall P r /\ len r = len l - i).
Proof.
  unfold from. intros Hl Hi. destruct (Z.ltb_spec i 0); [lia|]. destruct (Z.ltb_spec (len l) i); [lia|].
  cbn. split; [by apply Forall_drop|]. unfold len in *. rewrite length_drop. lia.
Qed.

Lemma safe_between (l : list A) i j :
  Forall P l -> 0 <= i <= j -> j <= len l -> safe (between l i j) (fun r => Forall P r /\ len r = j - i).
Proof.
  unfold between. intros Hl Hi Hj. destruct (Z.ltb_spec i 0); [lia|].
  destruct (Z.ltb_spec j i); [lia|]. destruct (Z.ltb_spec (len l) j); [lia|].
  cbn. split; [by apply Forall_take, Forall_drop|]. unfold len in *. rewrite length_take, length_drop. lia.
Qed.
End safe_slices.

Lemma u16_bytes hi lo : is_byte hi -> is_byte lo -> u16 hi lo = hi * 256 + lo.
Proof.
  unfold is_byte, u16. intros Hh Hl. rewrite wrap_small.
  - rewrite Z.lor_comm. rewrite lor_shiftl_add by lia. change (2 ^ 8) with 256. lia.
  - unfold in_width. rewrite Z.shiftl_mul_pow2 by lia. lia.
Qed.

Lemma u16_width hi lo : is_byte hi -> is_byte lo -> in_width 16 (u16 hi lo).
Proof. intros Hh Hl. rewrite u16_bytes by done. unfold is_byte in *. split; [lia|]. change (2 ^ 16) with 65536. lia. Qed.

Lemma safe_Uint16 b : Forall is_byte b -> 2 <= len b -> safe (Uint16 b) (in_width 16).
Proof.
  intros Hb Hl. unfold Uint16.
  eapply safe_bind; [apply (safe_index is_byte); [done|lia]|]. intros lo Hlo.
  eapply safe_bind; [apply (safe_index is_byte); [done|lia]|]. intros hi Hhi. by apply safe_ok, u16_width.
Qed.

Lemma safe_mapM {A B : Type} (f : A -> result B) (l : list A) (P : A -> Prop) (Q : B -> Prop) :
  Forall P l -> (forall a, P a -> safe (f a) Q) -> safe (result_mapM f l) (Forall Q).
Proof.
  intros Hl Hf. induction Hl as [|a l Ha Hl IH]; cbn [result_mapM]; [by constructor|].
  eapply safe_bind; [by apply Hf|]. intros b Hb. eapply safe_bind; [apply IH|].
  intros bs Hbs. apply safe_ok. by constructor.
Qed.

Lemma range_bounds n : Forall (fun i => 0 <= i < n) (range n).
Proof.
  unfold range. apply Forall_forall. intros i Hi. apply list_elem_of_fmap in Hi as (k & -> & Hk).
  apply elem_of_seq in Hk. lia.
Qed.
