(* ===== verification/Ja3.v ===== *)
(** * TLS client hellos

    [src/common/ja3]: the parser of a TLS record with a client hello.  Every index and
    slice of the source is one here, so that the parser could panic; [ja3_Compute_safe] shows
    that it does not and that its loop over the extensions ends. *)

From stdpp Require Import base strings list pretty.
From Stdlib Require Import ZArith Lia.
From S2P Require Import Prelude Codec GoSlice.

Open Scope Z_scope.

(** ** Errors *)

Inductive ParseError : Type :=
| LengthErr (check : Z)
| ContentTypeErr
| VersionErr (check : Z)
| HandshakeTypeErr
| SNITypeErr.

(** [ParseError.Error] *)
Definition ParseError_Error (e : ParseError) : string :=
  match e with
  | LengthErr check => "length check " +:+ pretty check +:+ " failed"
  | ContentTypeErr => "content type not matching"
  | VersionErr check => "version check " +:+ pretty check +:+ " failed"
  | HandshakeTypeErr => "handshake type not matching"
  | SNITypeErr => "SNI type not supported"
  end.

Definition parse_fails {A : Type} (e : ParseError) : result A := Err (ENew (ParseError_Error e)).

(** ** The parser *)

Definition recordLayerHeaderLen : Z := 5.
Definition handshakeHeaderLen : Z := 6.
Definition randomDataLen : Z := 32.
Definition sessionIDHeaderLen : Z := 1.
Definition cipherSuiteHeaderLen : Z := 2.
Definition compressMethodHeaderLen : Z := 1.
Definition extensionsHeaderLen : Z := 2.
Definition extensionHeaderLen : Z := 4.
Definition sniExtensionHeaderLen : Z := 5.
Definition ecExtensionHeaderLen : Z := 2.
Definition ecpfExtensionHeaderLen : Z := 1.
Definition versionExtensionHeaderLen : Z := 1.
Definition signatureAlgorithmsExtensionHeaderLen : Z := 2.
Definition contentType : Z := 22.
Definition handshakeType : Z := 1.
Definition sniExtensionType : Z := 0.
Definition sniNameDNSHostnameType : Z := 0.
Definition ecExtensionType : Z := 10.
Definition ecpfExtensionType : Z := 11.
Definition versionExtensionType : Z := 43.
Definition signatureAlgorithmsExtensionType : Z := 13.
Definition tlsVersionBitmask : Z := 65532. (* 0xFFFC *)
Definition tls13 : Z := 772. (* 0x0304 *)
Definition GreaseBitmask : Z := 3855. (* 0x0F0F *)

Record ClientHello : Type := mkClientHello {
  Version : Z;
  CipherSuites : list Z;
  Extensions : list Z;
  EllipticCurves : list Z;
  EllipticCurvePF : list Z;
  Versions : list Z;
  SignatureAlgorithms : list Z;
  ServerName : string
}.

Definition supported_version (version : Z) : bool :=
  (Z.land version tlsVersionBitmask =? 768) || (version =? tls13).

(** The variables of [parseExtensions]. *)
Record Parsed : Type := mkParsed {
  ps_sni : list Z;
  ps_extensions : list Z;
  ps_ellipticCurves : list Z;
  ps_ellipticCurvePF : list Z;
  ps_versions : list Z;
  ps_signatureAlgorithms : list Z
}.

Definition add_extension (exType : Z) (p : Parsed) : Parsed :=
  mkParsed (ps_sni p) (ps_extensions p ++ [exType]) (ps_ellipticCurves p) (ps_ellipticCurvePF p) (ps_versions p) (ps_signatureAlgorithms p).

Definition set_sni (v : list Z) (p : Parsed) : Parsed :=
  mkParsed v (ps_extensions p) (ps_ellipticCurves p) (ps_ellipticCurvePF p) (ps_versions p) (ps_signatureAlgorithms p).

Definition set_curves (v : list Z) (p : Parsed) : Parsed :=
  mkParsed (ps_sni p) (ps_extensions p) v (ps_ellipticCurvePF p) (ps_versions p) (ps_signatureAlgorithms p).

Definition set_formats (v : list Z) (p : Parsed) : Parsed :=
  mkParsed (ps_sni p) (ps_extensions p) (ps_ellipticCurves p) v (ps_versions p) (ps_signatureAlgorithms p).

Definition add_versions (v : list Z) (p : Parsed) : Parsed :=
  mkParsed (ps_sni p) (ps_extensions p) (ps_ellipticCurves p) (ps_ellipticCurvePF p) (ps_versions p ++ v) (ps_signatureAlgorithms p).

Definition add_algorithms (v : list Z) (p : Parsed) : Parsed :=
  mkParsed (ps_sni p) (ps_extensions p) (ps_ellipticCurves p) (ps_ellipticCurvePF p) (ps_versions p) (ps_signatureAlgorithms p ++ v).

(** Loops that read 16-bit values, with [first] and [second] the indices of their bytes. *)
Definition read_pair (s : list Z) (first second : Z) : result Z :=
  try hi <- index s first; try lo <- index s second; Ok (u16 hi lo).

Definition parse_sni (sex : list Z) (p : Parsed) : result Parsed :=
  if len sex <? sniExtensionHeaderLen then parse_fails (LengthErr 13)
  else
    try sniType <- index sex 2;
    try sniLen <- read_pair sex 3 4;
    try sex <- from sex sniExtensionHeaderLen;
    if negb (len sex =? sniLen) then parse_fails (LengthErr 14)
    else if sniType =? sniNameDNSHostnameType then Ok (set_sni sex p)
    else parse_fails SNITypeErr.

Definition parse_curves (sex : list Z) (p : Parsed) : result Parsed :=
  if len sex <? ecExtensionHeaderLen then parse_fails (LengthErr 15)
  else
    try ecsLen <- read_pair sex 0 1;
    let numCurves := ecsLen / 2 in
    try sex <- from sex ecExtensionHeaderLen;
    if negb (len sex =? ecsLen) then parse_fails (LengthErr 16)
    else try ellipticCurves <- result_mapM (fun i => read_pair sex (i * 2) (1 + i * 2)) (range numCurves); Ok (set_curves ellipticCurves p).

Definition parse_formats (sex : list Z) (p : Parsed) : result Parsed :=
  if len sex <? ecpfExtensionHeaderLen then parse_fails (LengthErr 17)
  else
    try numPF <- index sex 0;
    try sex <- from sex ecpfExtensionHeaderLen;
    if negb (len sex =? numPF) then parse_fails (LengthErr 18)
    else try ellipticCurvePF <- result_mapM (index sex) (range numPF); Ok (set_formats ellipticCurvePF p).

Definition read_uint16s (sex : list Z) (n : Z) : result (list Z) :=
  result_mapM (fun i => try b <- from sex (i * 2); Uint16 b) (range n).

Definition parse_versions (sex : list Z) (p : Parsed) : result Parsed :=
  if len sex <? versionExtensionHeaderLen then parse_fails (LengthErr 19)
  else
    try versionsLen <- index sex 0;
    try sex <- from sex versionExtensionHeaderLen;
    if len sex <? versionsLen then parse_fails (LengthErr 21)
    else try versions <- read_uint16s sex (versionsLen / 2); Ok (add_versions versions p).

Definition parse_algorithms (sex : list Z) (p : Parsed) : result Parsed :=
  if len sex <? signatureAlgorithmsExtensionHeaderLen then parse_fails (LengthErr 20)
  else
    try ssaLen <- Uint16 sex;
    try sex <- from sex signatureAlgorithmsExtensionHeaderLen;
    if len sex <? ssaLen then parse_fails (LengthErr 22)
    else try signatureAlgorithms <- read_uint16s sex (ssaLen / 2); Ok (add_algorithms signatureAlgorithms p).

Definition parse_extension (exType : Z) (sex : list Z) (p : Parsed) : result Parsed :=
  if exType =? sniExtensionType then parse_sni sex p
  else if exType =? ecExtensionType then parse_curves sex p
  else if exType =? ecpfExtensionType then parse_formats sex p
  else if exType =? versionExtensionType then parse_versions sex p
  else if exType =? signatureAlgorithmsExtensionType then parse_algorithms sex p
  else Ok p.

(** The loop over the extensions.  [exs[4+exLen:]] adds in 16 bits.  Out of fuel is
    written as a panic, which [ja3_Compute_safe] excludes. *)
Fixpoint extensions_loop (fuel : nat) (exs : list Z) (p : Parsed) : result Parsed :=
  match fuel with
  | O => Err (EPanic "loop does not end")
  | S fuel' =>
      if len exs =? 0 then Ok p
      else if len exs <? extensionHeaderLen then parse_fails (LengthErr 11)
      else
        try exType <- read_pair exs 0 1;
        try exLen <- read_pair exs 2 3;
        let p1 := add_extension exType p in
        if len exs <? extensionHeaderLen + exLen then parse_fails (LengthErr 12)
        else
          try sex <- between exs extensionHeaderLen (extensionHeaderLen + exLen);
          try p2 <- parse_extension exType sex p1;
          try exs' <- from exs (wrap 16 (4 + exLen));
          extensions_loop fuel' exs' p2
  end.

Definition zero_Parsed : Parsed := mkParsed [] [] [] [] [] [].

Definition parseExtensions (version : Z) (cipherSuites : list Z) (exs : list Z) : result ClientHello :=
  if len exs =? 0 then Ok (mkClientHello version cipherSuites [] [] [] [] [] "")
  else if len exs <? extensionsHeaderLen then parse_fails (LengthErr 9)
  else
    try exsLen <- read_pair exs 0 1;
    try exs <- from exs extensionsHeaderLen;
    if len exs <? exsLen then parse_fails (LengthErr 10)
    else
      try p <- extensions_loop (S (length exs)) exs zero_Parsed;
      Ok (mkClientHello version cipherSuites (ps_extensions p) (ps_ellipticCurves p) (ps_ellipticCurvePF p)
            (ps_versions p) (ps_signatureAlgorithms p) (string_of_bytes (ps_sni p))).

(** [uint32(hs[1])<<16 | uint32(hs[2])<<8 | uint32(hs[3])] *)
Definition u24 (a b c : Z) : Z := Z.lor (Z.lor (wrap 32 (Z.shiftl a 16)) (wrap 32 (Z.shiftl b 8))) c.

Definition parseHandshake (hs : list Z) : result ClientHello :=
  if len hs <? handshakeHeaderLen + randomDataLen + sessionIDHeaderLen then parse_fails (LengthErr 3)
  else
    try handshType <- index hs 0;
    if negb (handshType =? handshakeType) then parse_fails HandshakeTypeErr
    else
      try l1 <- index hs 1; try l2 <- index hs 2; try l3 <- index hs 3;
      try body <- from hs 4;
      if negb (len body =? u24 l1 l2 l3) then parse_fails (LengthErr 4)
      else
        try tlsVersion <- read_pair hs 4 5;
        if negb (supported_version tlsVersion) then parse_fails (VersionErr 2)
        else
          try sessionIDLen <- index hs 38;
          if len hs <? handshakeHeaderLen + randomDataLen + sessionIDHeaderLen + sessionIDLen then parse_fails (LengthErr 5)
          else
            try cs <- from hs (handshakeHeaderLen + randomDataLen + sessionIDHeaderLen + sessionIDLen);
            if len cs <? cipherSuiteHeaderLen then parse_fails (LengthErr 6)
            else
              try csLen <- read_pair cs 0 1;
              let numCiphers := csLen / 2 in
              if len cs <? cipherSuiteHeaderLen + csLen + compressMethodHeaderLen then parse_fails (LengthErr 7)
              else
                try cipherSuites <- result_mapM (fun i => read_pair cs (2 + Z.shiftl i 1) (3 + Z.shiftl i 1)) (range numCiphers);
                try compressMethodLen <- index cs (cipherSuiteHeaderLen + csLen);
                if len cs <? cipherSuiteHeaderLen + csLen + compressMethodHeaderLen + compressMethodLen then parse_fails (LengthErr 8)
                else
                  try exs <- from cs (cipherSuiteHeaderLen + csLen + compressMethodHeaderLen + compressMethodLen);
                  parseExtensions tlsVersion cipherSuites exs.

Definition parseSegment (segment : list Z) : result ClientHello :=
  if len segment <? recordLayerHeaderLen then parse_fails (LengthErr 1)
  else
    try contType <- index segment 0;
    if negb (contType =? contentType) then parse_fails ContentTypeErr
    else
      try tlsRecordVersion <- read_pair segment 1 2;
      if negb (supported_version tlsRecordVersion) then parse_fails (VersionErr 1)
      else
        try segmentLen <- read_pair segment 3 4;
        try rest <- from segment recordLayerHeaderLen;
        if len rest <? segmentLen then parse_fails (LengthErr 2)
        else
          try hs <- between segment recordLayerHeaderLen (recordLayerHeaderLen + segmentLen);
          parseHandshake hs.

Definition ja3_Compute (payload : list Z) : result ClientHello := parseSegment payload.

(** ** The parser does not panic *)

(** Splits a sequence of reads that cannot fail, leaving the facts about what they read. *)
Ltac slices :=
  repeat first
    [ progress unfold parse_fails
    | match goal with
      | |- safe (if ?b then _ else _) _ => destruct b eqn:?
      | |- safe (Err _) _ => apply safe_err; reflexivity
      | |- safe (result_bind (index _ _) _) _ =>
          eapply safe_bind; [apply (safe_index is_byte); [assumption|unfold is_byte in *; lia]|intros ? ?]
      | |- safe (result_bind (from _ _) _) _ =>
          eapply safe_bind; [apply (safe_from is_byte); [assumption|unfold is_byte in *; lia]|intros ? [? ?]]
      | |- safe (result_bind (between _ _ _) _) _ =>
          eapply safe_bind; [apply (safe_between is_byte); [assumption|unfold is_byte in *; lia|unfold is_byte in *; lia]|intros ? [? ?]]
      | |- safe (Ok _) _ => apply safe_ok
      end ].

Lemma safe_read_pair s i j :
  Forall is_byte s -> 0 <= i < len s -> 0 <= j < len s -> safe (read_pair s i j) (in_width 16).
Proof. intros Hs Hi Hj. unfold read_pair. slices. by apply u16_width. Qed.

Lemma safe_read_uint16s s n :
  Forall is_byte s -> n * 2 <= len s -> safe (read_uint16s s n) (Forall (in_width 16)).
Proof.
  intros Hs Hn. eapply safe_mapM; [apply range_bounds|]. cbn. intros i Hi. slices. apply safe_Uint16; [done|lia].
Qed.

Lemma safe_parse_extension exType sex p : Forall is_byte sex -> safe (parse_extension exType sex p) (fun _ => True).
Proof.
  intros Hs. unfold parse_extension, parse_sni, parse_curves, parse_formats, parse_versions, parse_algorithms,
    sniExtensionHeaderLen, ecExtensionHeaderLen, ecpfExtensionHeaderLen, versionExtensionHeaderLen, signatureAlgorithmsExtensionHeaderLen.
  repeat match goal with
  | |- safe (if ?b then _ else _) _ => destruct b eqn:?; [slices|]
  end; [..|done].
  all: try (eapply safe_bind; [apply safe_read_pair; [done|lia|lia]|intros ? [? ?]]; slices; done).
  - eapply safe_bind; [apply safe_read_pair; [done|lia|lia]|intros v [? ?]]. slices.
    eapply safe_bind; [|by intros]. eapply safe_mapM; [apply range_bounds|]. cbn. intros i Hi.
    pose proof (Z.mul_div_le v 2 ltac:(lia)). apply safe_read_pair; [done|lia|lia].
  - eapply safe_bind; [|by intros]. eapply safe_mapM; [apply range_bounds|]. cbn. intros i Hi. apply (safe_index is_byte); [done|lia].
  - eapply safe_bind; [|by intros]. pose proof (Z.mul_div_le a 2 ltac:(lia)). apply safe_read_uint16s; [done|lia].
  - eapply safe_bind; [apply safe_Uint16; [done|lia]|intros v [? ?]]. slices.
    pose proof (Z.mul_div_le v 2 ltac:(lia)). eapply safe_bind; [apply safe_read_uint16s; [done|lia]|by intros].
Qed.

(** The loop ends, and its 16-bit sum does not wrap, because what is left of the record
    is shorter than [2^16]. *)
Lemma safe_extensions_loop fuel exs p :
  Forall is_byte exs -> len exs < 65536 -> (length exs < fuel)%nat -> safe (extensions_loop fuel exs p) (fun _ => True).
Proof.
  revert exs p. induction fuel as [|fuel IH]; intros exs p Hb Hw Hf; [lia|].
  cbn [extensions_loop]. unfold extensionHeaderLen. slices; [done|].
  eapply safe_bind; [apply safe_read_pair; [done|lia|lia]|intros exType _].
  eapply safe_bind; [apply safe_read_pair; [done|lia|lia]|intros exLen [? ?]]. slices.
  eapply safe_bind; [by apply safe_parse_extension|intros p2 _].
  rewrite wrap_small by (unfold in_width; change (2 ^ 16) with 65536; lia). slices.
  apply IH; [done|lia|]. unfold len in *. lia.
Qed.

Lemma safe_parseExtensions version cipherSuites exs :
  Forall is_byte exs -> len exs < 65536 -> safe (parseExtensions version cipherSuites exs) (fun _ => True).
Proof.
  intros Hb Hw. unfold parseExtensions, extensionsHeaderLen. slices; [done|].
  eapply safe_bind; [apply safe_read_pair; [done|lia|lia]|intros exsLen _]. slices.
  eapply safe_bind; [apply safe_extensions_loop; [done|lia|lia]|done].
Qed.

Lemma safe_parseHandshake hs : Forall is_byte hs -> len hs < 65536 -> safe (parseHandshake hs) (fun _ => True).
Proof.
  intros Hb Hw. unfold parseHandshake, handshakeHeaderLen, randomDataLen, sessionIDHeaderLen, cipherSuiteHeaderLen, compressMethodHeaderLen.
  slices. eapply safe_bind; [apply safe_read_pair; [done|lia|lia]|intros version _]. slices.
  eapply safe_bind; [apply safe_read_pair; [done|lia|lia]|intros csLen [? ?]]. slices.
  pose proof (Z.mul_div_le csLen 2 ltac:(lia)).
  eapply safe_bind; [eapply safe_mapM; [apply range_bounds|]|].
  { intros i Hi. cbn beta in Hi. rewrite Z.shiftl_mul_pow2 by lia. change (2 ^ 1) with 2. apply safe_read_pair; [done|lia|lia]. }
  intros cipherSuites _. slices. unfold is_byte in *. apply safe_parseExtensions; [done|lia].
Qed.

Lemma ja3_Compute_safe payload : Forall is_byte payload -> safe (ja3_Compute payload) (fun _ => True).
Proof.
  intros Hb. unfold ja3_Compute, parseSegment, recordLayerHeaderLen. slices.
  eapply safe_bind; [apply safe_read_pair; [done|lia|lia]|intros version _]. slices.
  eapply safe_bind; [apply safe_read_pair; [done|lia|lia]|intros segmentLen [? Hs]]. change (2 ^ 16) with 65536 in Hs. slices.
  apply safe_parseHandshake; [done|lia].
Qed.
