(* ===== verification/Ja3Wire.v ===== *)
(** * The wire format of client hellos

    A client hello as RFC 8446 lays it out, and the proof that the parser of
    [src/common/ja3] reads from it what was written. *)

From stdpp Require Import base strings list.
From Stdlib Require Import ZArith Lia.
From S2P Require Import Prelude Codec GoSlice Ja3.

Open Scope Z_scope.

(** A vector with a length of [n] bytes. *)
Definition vec (n : nat) (body : list Z) : list Z := be_bytes n (len body) ++ body.

(** 16-bit values. *)
Definition pairs (l : list Z) : list Z := concat (map (be_bytes 2) l).

Inductive Extension : Type :=
| ServerNameExt (name : list Z)
| GroupsExt (l : list Z)
| PointFormatsExt (l : list Z)
| VersionsExt (l : list Z)
| AlgorithmsExt (l : list Z)
| OtherExt (type : Z) (body : list Z).

Definition ext_type (e : Extension) : Z :=
  match e with
  | ServerNameExt _ => 0 | GroupsExt _ => 10 | PointFormatsExt _ => 11 | VersionsExt _ => 43
  | AlgorithmsExt _ => 13 | OtherExt type _ => type
  end.

Definition ext_body (e : Extension) : list Z :=
  match e with
  | ServerNameExt name => vec 2 ([0] ++ vec 2 name)
  | GroupsExt l => vec 2 (pairs l)
  | PointFormatsExt l => vec 1 l
  | VersionsExt l => vec 1 (pairs l)
  | AlgorithmsExt l => vec 2 (pairs l)
  | OtherExt _ body => body
  end.

Definition ext_bytes (e : Extension) : list Z := be_bytes 2 (ext_type e) ++ vec 2 (ext_body e).

Record Hello : Type := mkHello {
  ch_version : Z;
  ch_random : list Z;
  ch_session : list Z;
  ch_suites : list Z;
  ch_compression : list Z;
  ch_extensions : list Extension
}.

Definition extensions_bytes (es : list Extension) : list Z :=
  if isnil es then [] else vec 2 (concat (map ext_bytes es)).

Definition hello_body (h : Hello) : list Z :=
  be_bytes 2 (ch_version h) ++ ch_random h ++ vec 1 (ch_session h) ++
  vec 2 (pairs (ch_suites h)) ++ vec 1 (ch_compression h) ++ extensions_bytes (ch_extensions h).

(** The handshake message, and the record around one. *)
Definition handshake (h : Hello) : list Z := [1] ++ vec 3 (hello_body h).

Definition record (m : list Z) : list Z := [22; 3; 3] ++ vec 2 m.

(** ** What a client hello says *)

Definition apply_ext (p : Parsed) (e : Extension) : Parsed :=
  match e with
  | ServerNameExt name => set_sni name p
  | GroupsExt l => set_curves l p
  | PointFormatsExt l => set_formats l p
  | VersionsExt l => add_versions l p
  | AlgorithmsExt l => add_algorithms l p
  | OtherExt _ _ => p
  end.

Definition apply_exts (es : list Extension) (p : Parsed) : Parsed :=
  foldl (fun p e => apply_ext (add_extension (ext_type e) p) e) p es.

Definition fingerprint (h : Hello) : ClientHello :=
  let p := apply_exts (ch_extensions h) zero_Parsed in
  mkClientHello (ch_version h) (ch_suites h) (ps_extensions p) (ps_ellipticCurves p) (ps_ellipticCurvePF p)
    (ps_versions p) (ps_signatureAlgorithms p) (string_of_bytes (ps_sni p)).

(** What fits the format: values in their widths, vectors below their limits. *)
Definition ext_wf (e : Extension) : Prop :=
  match e with
  | ServerNameExt name => True
  | GroupsExt l | AlgorithmsExt l => Forall (in_width 16) l
  | PointFormatsExt l => len l < 256
  | VersionsExt l => Forall (in_width 16) l /\ len (pairs l) < 256
  | OtherExt type body => in_width 16 type /\ type ∉ [0; 10; 11; 43; 13]
  end.

Record hello_wf (h : Hello) : Prop := mkHelloWf {
  wf_version : supported_version (ch_version h) = true /\ in_width 16 (ch_version h);
  wf_random : len (ch_random h) = 32;
  wf_session : len (ch_session h) < 256;
  wf_suites : Forall (in_width 16) (ch_suites h);
  wf_compression : len (ch_compression h) < 256;
  wf_extensions : Forall ext_wf (ch_extensions h);
  wf_length : len (handshake h) < 65536
}.

(** ** Reading at known places *)

Lemma index_at {A : Type} (l r : list A) a i : i = len l -> index (l ++ a :: r) i = Ok a.
Proof.
  intros ->. rewrite index_app_r by lia. by rewrite Z.sub_diag.
Qed.

Lemma read_pair_cons a b l : read_pair (a :: b :: l) 0 1 = Ok (u16 a b).
Proof. done. Qed.

Lemma u16_be_bytes v : in_width 16 v -> read_pair (be_bytes 2 v) 0 1 = Ok v.
Proof.
  intros [H0 H1]. cbn [be_bytes]. rewrite read_pair_cons. f_equal.
  rewrite u16_bytes by (apply Z.mod_pos_bound; lia). cbn.
  rewrite Z.div_1_r, (Z.mod_small (v / 256)) by (split; [apply Z.div_pos; lia|apply Z.div_lt_upper_bound; cbn in *; lia]).
  pose proof (Z.div_mod v 256). lia.
Qed.

Lemma index_mid {A : Type} (l m r : list A) i :
  0 <= i < len m -> index (l ++ m ++ r) (len l + i) = index m i.
Proof.
  intros Hi. rewrite index_app_r by lia. replace (len l + i - len l) with i by ring. apply index_app_l; lia.
Qed.

Lemma read_pair_at l v r i j :
  in_width 16 v -> i = len l -> j = len l + 1 -> read_pair (l ++ be_bytes 2 v ++ r) i j = Ok v.
Proof.
  intros Hv -> ->. rewrite <- (u16_be_bytes v Hv). unfold read_pair.
  rewrite <- (Z.add_0_r (len l)) at 1. by rewrite !index_mid by done.
Qed.

Lemma read_pair_head v r : in_width 16 v -> read_pair (be_bytes 2 v ++ r) 0 1 = Ok v.
Proof. intros Hv. by apply (read_pair_at [] v r). Qed.

Lemma index_byte_at l v r i : is_byte v -> i = len l -> index (l ++ be_bytes 1 v ++ r) i = Ok v.
Proof.
  intros Hv ->. cbn [be_bytes]. cbn [app]. rewrite index_at by done.
  cbn. by rewrite Z.div_1_r, Z.mod_small.
Qed.

Lemma index_byte_head v r : is_byte v -> index (be_bytes 1 v ++ r) 0 = Ok v.
Proof. intros Hv. by apply (index_byte_at [] v r). Qed.

Lemma result_mapM_range {B : Type} (get : Z -> result B) (l : list B) :
  (forall i a, l !! i = Some a -> get (Z.of_nat i) = Ok a) -> result_mapM get (range (len l)) = Ok l.
Proof.
  unfold range, len. rewrite Nat2Z.id. intros Hget.
  assert (Hk : forall i a, l !! i = Some a -> get (Z.of_nat (0 + i)) = Ok a) by apply Hget.
  clear Hget. revert Hk. generalize 0%nat as k. induction l as [|a l IH]; intros k Hk; [done|].
  cbn [length seq map result_mapM]. rewrite <- (Nat.add_0_r k) at 1. rewrite (Hk 0%nat a) by done. cbn [result_bind].
  rewrite IH; [done|]. intros i b Hb. rewrite Nat.add_succ_comm. by apply (Hk (S i)).
Qed.

Lemma len_be_bytes n v : len (be_bytes n v) = Z.of_nat n.
Proof. unfold len. by rewrite length_be_bytes. Qed.

Lemma len_pairs l : len (pairs l) = 2 * len l.
Proof.
  induction l as [|v l IH]; [done|]. unfold pairs in *. cbn [map concat].
  rewrite len_app, len_be_bytes, IH, len_cons. lia.
Qed.

Lemma len_vec n b : len (vec n b) = Z.of_nat n + len b.
Proof. unfold vec. by rewrite len_app, len_be_bytes. Qed.

Lemma pairs_split l i v : l !! i = Some v ->
  exists k r, pairs l = k ++ be_bytes 2 v ++ r /\ len k = 2 * Z.of_nat i.
Proof.
  intros Hv. exists (pairs (take i l)), (pairs (drop (S i) l)). split.
  - rewrite <- (take_drop_middle l i v Hv) at 1. unfold pairs. by rewrite map_app, concat_app.
  - rewrite len_pairs. unfold len. apply lookup_lt_Some in Hv. rewrite length_take. lia.
Qed.

Lemma div_pairs l : len (pairs l) / 2 = len l.
Proof. rewrite len_pairs, Z.mul_comm. by apply Z.div_mul. Qed.

(** The 16-bit values of [l] behind a prefix. *)
Lemma read_pairs_at pre l r (f g : Z -> Z) :
  Forall (in_width 16) l ->
  (forall i, 0 <= i -> f i = len pre + i * 2 /\ g i = len pre + i * 2 + 1) ->
  result_mapM (fun i => read_pair (pre ++ pairs l ++ r) (f i) (g i)) (range (len l)) = Ok l.
Proof.
  intros Hl Hfg. apply result_mapM_range. intros i v Hv.
  destruct (pairs_split l i v Hv) as (k & k' & -> & Hk).
  destruct (Hfg (Z.of_nat i)) as [Hf Hg]; [lia|]. rewrite Hf, Hg.
  rewrite <- !app_assoc, app_assoc. apply read_pair_at; [by eapply Forall_lookup_1|rewrite len_app; lia|rewrite len_app; lia].
Qed.

Lemma Uint16_be v r : in_width 16 v -> Uint16 (be_bytes 2 v ++ r) = Ok v.
Proof.
  intros Hv. pose proof (read_pair_at [] v r 0 1 Hv eq_refl eq_refl) as Hp. cbn [app] in Hp.
  revert Hp. unfold read_pair, Uint16.
  by destruct (index (be_bytes 2 v ++ r) 0), (index (be_bytes 2 v ++ r) 1).
Qed.

Lemma read_uint16s_pairs l r : Forall (in_width 16) l -> read_uint16s (pairs l ++ r) (len l) = Ok l.
Proof.
  intros Hl. apply result_mapM_range. intros i v Hv.
  destruct (pairs_split l i v Hv) as (k & k' & -> & Hk).
  rewrite <- !app_assoc, from_app by lia. cbn [result_bind]. apply Uint16_be. by eapply Forall_lookup_1.
Qed.

(** ** Extensions *)

Lemma from_vec_header n v b : from (be_bytes n v ++ b) (Z.of_nat n) = Ok b.
Proof. apply from_app. by rewrite len_be_bytes. Qed.

Ltac lens := rewrite ?len_app, ?len_cons, ?len_be_bytes, ?len_vec, ?len_pairs in *; cbn [len length] in *; change (len []) with 0 in *; try lia.

Lemma in_width_16 v : 0 <= v -> v < 65536 -> in_width 16 v.
Proof. by split. Qed.

Lemma parse_sni_wire name p : len name < 65536 -> parse_sni (ext_body (ServerNameExt name)) p = Ok (set_sni name p).
Proof.
  intros Hn. pose proof (len_nonneg name). unfold parse_sni, sniExtensionHeaderLen.
  set (h := be_bytes 2 (len ([0] ++ vec 2 name))). assert (Hh : len h = 2) by apply len_be_bytes.
  replace (ext_body (ServerNameExt name)) with ((h ++ [0]) ++ be_bytes 2 (len name) ++ name) by (unfold h, ext_body, vec; by rewrite <- app_assoc).
  destruct (Z.ltb_spec (len ((h ++ [0]) ++ be_bytes 2 (len name) ++ name)) 5) as [Hl|_]; [lens|].
  rewrite <- app_assoc at 1. cbn [app]. rewrite index_at by done. cbn [result_bind].
  rewrite read_pair_at by (first [by apply in_width_16 | lens]). cbn [result_bind].
  rewrite app_assoc, from_app by lens. cbn [result_bind]. by rewrite Z.eqb_refl.
Qed.

Lemma parse_curves_wire l p : Forall (in_width 16) l -> len (pairs l) < 65536 -> parse_curves (ext_body (GroupsExt l)) p = Ok (set_curves l p).
Proof.
  intros Hl Hn. pose proof (len_nonneg (pairs l)). unfold parse_curves, ecExtensionHeaderLen. cbn [ext_body]. unfold vec.
  destruct (Z.ltb_spec (len (be_bytes 2 (len (pairs l)) ++ pairs l)) 2) as [?|_]; [lens|].
  rewrite read_pair_head by (by apply in_width_16). cbn [result_bind].
  rewrite (from_vec_header 2). cbn [result_bind]. rewrite Z.eqb_refl. cbn [negb].
  rewrite div_pairs. rewrite <- (app_nil_r (pairs l)).
  pose proof (read_pairs_at [] l [] (fun i => i * 2) (fun i => 1 + i * 2) Hl) as Hr. cbn [app] in Hr. rewrite Hr; [done|intros i Hi; change (len (@nil Z)) with 0; lia].
Qed.

Lemma parse_formats_wire l p : len l < 256 -> parse_formats (ext_body (PointFormatsExt l)) p = Ok (set_formats l p).
Proof.
  intros Hn. pose proof (len_nonneg l). unfold parse_formats, ecpfExtensionHeaderLen. cbn [ext_body]. unfold vec.
  destruct (Z.ltb_spec (len (be_bytes 1 (len l) ++ l)) 1) as [?|_]; [lens|].
  rewrite index_byte_head by done. cbn [result_bind].
  rewrite (from_vec_header 1). cbn [result_bind]. rewrite Z.eqb_refl. cbn [negb].
  rewrite result_mapM_range; [done|]. intros i a Ha. unfold index. destruct (Z.ltb_spec (Z.of_nat i) 0); [lia|].
  by rewrite Nat2Z.id, Ha.
Qed.

Lemma parse_versions_wire l p :
  Forall (in_width 16) l -> len (pairs l) < 256 -> parse_versions (ext_body (VersionsExt l)) p = Ok (add_versions l p).
Proof.
  intros Hl Hn. pose proof (len_nonneg (pairs l)). unfold parse_versions, versionExtensionHeaderLen. cbn [ext_body]. unfold vec.
  destruct (Z.ltb_spec (len (be_bytes 1 (len (pairs l)) ++ pairs l)) 1) as [?|_]; [lens|].
  rewrite index_byte_head by done. cbn [result_bind].
  rewrite (from_vec_header 1). cbn [result_bind]. rewrite Z.ltb_irrefl, div_pairs.
  rewrite <- (app_nil_r (pairs l)). by rewrite read_uint16s_pairs.
Qed.

Lemma parse_algorithms_wire l p :
  Forall (in_width 16) l -> len (pairs l) < 65536 -> parse_algorithms (ext_body (AlgorithmsExt l)) p = Ok (add_algorithms l p).
Proof.
  intros Hl Hn. pose proof (len_nonneg (pairs l)). unfold parse_algorithms, signatureAlgorithmsExtensionHeaderLen. cbn [ext_body]. unfold vec.
  destruct (Z.ltb_spec (len (be_bytes 2 (len (pairs l)) ++ pairs l)) 2) as [?|_]; [lens|].
  rewrite Uint16_be by (by apply in_width_16). cbn [result_bind].
  rewrite (from_vec_header 2). cbn [result_bind]. rewrite Z.ltb_irrefl, div_pairs.
  rewrite <- (app_nil_r (pairs l)). by rewrite read_uint16s_pairs.
Qed.

Lemma parse_extension_wire e p :
  ext_wf e -> len (ext_body e) < 65536 -> parse_extension (ext_type e) (ext_body e) p = Ok (apply_ext p e).
Proof.
  intros Hwf Hl. destruct e as [name|l|l|l|l|type body]; cbn [ext_type apply_ext]; unfold parse_extension.
  - apply parse_sni_wire. cbn in Hl. lens.
  - apply parse_curves_wire; [done|]. cbn [ext_body] in Hl. lens.
  - by apply parse_formats_wire.
  - destruct Hwf. by apply parse_versions_wire.
  - apply parse_algorithms_wire; [done|]. cbn [ext_body] in Hl. lens.
  - destruct Hwf as [_ Ht]. rewrite !not_elem_of_cons in Ht. destruct Ht as (? & ? & ? & ? & ? & _).
    unfold sniExtensionType, ecExtensionType, ecpfExtensionType, versionExtensionType, signatureAlgorithmsExtensionType.
    by repeat match goal with |- context [?x =? ?y] => destruct (Z.eqb_spec x y); [congruence|] end.
Qed.

Lemma ext_type_width e : ext_wf e -> in_width 16 (ext_type e).
Proof. destruct e; cbn; intros; try (split; lia). by destruct H. Qed.

Lemma extensions_loop_wire es fuel p :
  Forall ext_wf es -> len (concat (map ext_bytes es)) < 65536 -> (length (concat (map ext_bytes es)) < fuel)%nat ->
  extensions_loop fuel (concat (map ext_bytes es)) p = Ok (apply_exts es p).
Proof.
  intros Hes. revert fuel p. induction Hes as [|e es He Hes IH]; intros fuel p Hw Hf; (destruct fuel as [|fuel]; [lia|]); [done|].
  cbn [map concat] in *. set (rest := concat (map ext_bytes es)) in *. pose proof (len_nonneg rest).
  pose proof (len_nonneg (ext_body e)). pose proof (ext_type_width e He).
  assert (Hlen : len (ext_bytes e ++ rest) = 4 + len (ext_body e) + len rest) by (unfold ext_bytes; lens).
  rewrite Hlen in Hw. cbn [extensions_loop]. rewrite Hlen. unfold extensionHeaderLen.
  destruct (Z.eqb_spec (4 + len (ext_body e) + len rest) 0); [lia|].
  destruct (Z.ltb_spec (4 + len (ext_body e) + len rest) 4); [lia|].
  replace (ext_bytes e ++ rest) with (be_bytes 2 (ext_type e) ++ be_bytes 2 (len (ext_body e)) ++ ext_body e ++ rest)
    by (unfold ext_bytes, vec; by rewrite <- !app_assoc).
  rewrite read_pair_head by done. cbn [result_bind].
  rewrite (read_pair_at (be_bytes 2 (ext_type e))) by (first [by apply in_width_16; lia | done]). cbn [result_bind].
  destruct (Z.ltb_spec (4 + len (ext_body e) + len rest) (4 + len (ext_body e))); [lia|].
  rewrite app_assoc, between_app by (rewrite ?len_app, ?len_be_bytes; done). cbn [result_bind].
  rewrite parse_extension_wire by (done || lia). cbn [result_bind].
  rewrite wrap_small by (apply in_width_16; lia). rewrite app_assoc, from_app by (rewrite ?len_app, ?len_be_bytes; done).
  cbn [result_bind]. rewrite IH; [done|lia|]. unfold len in *. rewrite !length_app in *. lia.
Qed.

(** ** Messages *)

Lemma u24_bytes a b c : is_byte a -> is_byte b -> is_byte c -> u24 a b c = a * 65536 + b * 256 + c.
Proof.
  unfold is_byte, u24. intros Ha Hb Hc.
  rewrite !wrap_small by (unfold in_width; rewrite Z.shiftl_mul_pow2 by lia; lia).
  rewrite Z.lor_comm, (Z.lor_comm (Z.shiftl a 16)), Z.lor_assoc.
  rewrite (lor_shiftl_add c b 8) by lia. change (2 ^ 8) with 256. rewrite lor_shiftl_add by (change (2 ^ 16) with 65536; lia). lia.
Qed.

Lemma u24_be n : 0 <= n < 2 ^ 24 ->
  u24 ((n / 65536) `mod` 256) ((n / 256) `mod` 256) (n `mod` 256) = n.
Proof.
  intros Hn. rewrite u24_bytes by (apply Z.mod_pos_bound; lia).
  pose proof (Z.div_mod n 256 ltac:(lia)). pose proof (Z.div_mod (n / 256) 256 ltac:(lia)) as Hd.
  rewrite Z.div_div in Hd by lia. change (256 * 256) with 65536 in Hd.
  rewrite (Z.mod_small (n / 65536)) by (split; [apply Z.div_pos; lia|apply Z.div_lt_upper_bound; cbn in *; lia]). lia.
Qed.

Lemma parseExtensions_wire version suites es :
  Forall ext_wf es -> len (extensions_bytes es) < 65536 ->
  parseExtensions version suites (extensions_bytes es) =
  let p := apply_exts es zero_Parsed in
  Ok (mkClientHello version suites (ps_extensions p) (ps_ellipticCurves p) (ps_ellipticCurvePF p)
    (ps_versions p) (ps_signatureAlgorithms p) (string_of_bytes (ps_sni p))).
Proof.
  intros Hes Hl. unfold parseExtensions, extensions_bytes in *. destruct es as [|e es]; [done|]. cbn [isnil] in *.
  set (b := concat (map ext_bytes (e :: es))) in *. pose proof (len_nonneg b). rewrite len_vec in *.
  destruct (Z.eqb_spec (Z.of_nat 2 + len b) 0); [lia|]. unfold extensionsHeaderLen.
  destruct (Z.ltb_spec (Z.of_nat 2 + len b) 2); [lia|]. unfold vec.
  rewrite read_pair_head by (apply in_width_16; lia). cbn [result_bind].
  rewrite (from_vec_header 2). cbn [result_bind]. rewrite Z.ltb_irrefl.
  unfold b. rewrite extensions_loop_wire by (done || (unfold b in *; lia)). done.
Qed.

(** The cipher suites and what follows them. *)
Definition suites_on (h : Hello) : list Z :=
  vec 2 (pairs (ch_suites h)) ++ vec 1 (ch_compression h) ++ extensions_bytes (ch_extensions h).

Lemma handshake_layout h :
  handshake h = [1] ++ be_bytes 3 (len (hello_body h)) ++ be_bytes 2 (ch_version h) ++ ch_random h ++
    be_bytes 1 (len (ch_session h)) ++ ch_session h ++ suites_on h.
Proof. unfold handshake, vec at 1, hello_body at 2, suites_on, vec at 1. by rewrite <- !app_assoc. Qed.

Lemma parse_suites_wire h (k : list Z -> list Z -> result ClientHello) :
  hello_wf h -> len (suites_on h) < 65536 ->
  (let cs := suites_on h in
   if len cs <? 2 then parse_fails (LengthErr 6)
   else
     try csLen <- read_pair cs 0 1;
     if len cs <? 2 + csLen + 1 then parse_fails (LengthErr 7)
     else
       try cipherSuites <- result_mapM (fun i => read_pair cs (2 + Z.shiftl i 1) (3 + Z.shiftl i 1)) (range (csLen / 2));
       try compressMethodLen <- index cs (2 + csLen);
       if len cs <? 2 + csLen + 1 + compressMethodLen then parse_fails (LengthErr 8)
       else try exs <- from cs (2 + csLen + 1 + compressMethodLen); k cipherSuites exs)
  = k (ch_suites h) (extensions_bytes (ch_extensions h)).
Proof.
  intros [_ _ _ Hs Hc _ _] Hw. set (s := ch_suites h) in *. set (c := ch_compression h) in *.
  set (es := extensions_bytes (ch_extensions h)).
  replace (suites_on h) with (be_bytes 2 (len (pairs s)) ++ pairs s ++ be_bytes 1 (len c) ++ c ++ es) in *
    by (unfold suites_on, vec; by rewrite <- !app_assoc).
  pose proof (len_nonneg (pairs s)). pose proof (len_nonneg c). pose proof (len_nonneg es). cbn zeta.
  assert (Hl : len (be_bytes 2 (len (pairs s)) ++ pairs s ++ be_bytes 1 (len c) ++ c ++ es) = 3 + len (pairs s) + len c + len es)
    by (rewrite !len_app, !len_be_bytes; lia).
  rewrite Hl in *. repeat match goal with |- context [?x <? 2] => destruct (Z.ltb_spec x 2); [lia|] end.
  rewrite read_pair_head by (apply in_width_16; lia). cbn [result_bind].
  destruct (Z.ltb_spec (3 + len (pairs s) + len c + len es) (2 + len (pairs s) + 1)); [lia|].
  rewrite div_pairs, read_pairs_at; [|done|intros i Hi; rewrite Z.shiftl_mul_pow2, len_be_bytes by lia; lia]. cbn [result_bind].
  rewrite app_assoc, index_byte_at by (first [done | rewrite len_app, len_be_bytes; lia]). cbn [result_bind].
  destruct (Z.ltb_spec (3 + len (pairs s) + len c + len es) (2 + len (pairs s) + 1 + len c)); [lia|].
  rewrite !app_assoc, from_app by (rewrite !len_app, !len_be_bytes; lia). done.
Qed.

(** What the parser finds at the fixed places of a handshake message. *)
Lemma handshake_places h :
  hello_wf h ->
  index (handshake h) 0 = Ok 1 /\
  (exists a b c, index (handshake h) 1 = Ok a /\ index (handshake h) 2 = Ok b /\ index (handshake h) 3 = Ok c /\ u24 a b c = len (hello_body h)) /\
  from (handshake h) 4 = Ok (hello_body h) /\ read_pair (handshake h) 4 5 = Ok (ch_version h) /\
  index (handshake h) 38 = Ok (len (ch_session h)) /\
  from (handshake h) (39 + len (ch_session h)) = Ok (suites_on h) /\
  len (handshake h) = 39 + len (ch_session h) + len (suites_on h).
Proof.
  intros [[Hv Hvw] Hr Hs _ _ _ Hl]. pose proof (len_nonneg (hello_body h)). pose proof (len_nonneg (ch_session h)).
  assert (Hn : len (handshake h) = 4 + len (hello_body h)) by (unfold handshake; rewrite len_app, len_vec; change (len [1]) with 1; lia).
  split_and!.
  - done.
  - eexists _, _, _. unfold handshake, vec. set (n := len (hello_body h)) in *. cbn [be_bytes app]. split_and!; [done..|].
    change (256 ^ Z.of_nat 2) with 65536. change (256 ^ Z.of_nat 1) with 256. change (256 ^ Z.of_nat 0) with 1.
    rewrite Z.div_1_r. apply u24_be. lia.
  - unfold handshake, vec. rewrite app_assoc. by apply from_app.
  - rewrite handshake_layout, app_assoc. by apply read_pair_at.
  - rewrite handshake_layout, !app_assoc, <- app_assoc, <- app_assoc.
    apply index_byte_at; [done|]. rewrite !len_app, !len_be_bytes, Hr. done.
  - rewrite handshake_layout, !app_assoc. apply from_app. rewrite !len_app, !len_be_bytes, Hr. change (len [1]) with 1. lia.
  - rewrite handshake_layout, !len_app, !len_be_bytes, Hr. change (len [1]) with 1. lia.
Qed.

Lemma parseHandshake_wire h : hello_wf h -> parseHandshake (handshake h) = Ok (fingerprint h).
Proof.
  intros Hwf. destruct (handshake_places h Hwf) as (H0 & (a & b & c & H1 & H2 & H3 & Hu) & H4 & Hv & Hs & Hc & Hl).
  pose proof Hwf as [[Hok _] _ _ _ _ He Hw]. pose proof (len_nonneg (ch_session h)). pose proof (len_nonneg (suites_on h)).
  unfold parseHandshake, handshakeHeaderLen, randomDataLen, sessionIDHeaderLen, cipherSuiteHeaderLen, compressMethodHeaderLen.
  destruct (Z.ltb_spec (len (handshake h)) (6 + 32 + 1)); [lia|].
  rewrite H0, H1, H2, H3, H4. cbn [result_bind]. change (1 =? handshakeType) with true. cbn [negb]. rewrite Hu, Z.eqb_refl. cbn [negb].
  rewrite Hv. cbn [result_bind]. rewrite Hok. cbn [negb]. rewrite Hs. cbn [result_bind].
  destruct (Z.ltb_spec (len (handshake h)) (6 + 32 + 1 + len (ch_session h))); [lia|].
  change (6 + 32 + 1) with 39. rewrite Hc. cbn [result_bind].
  etransitivity; [apply (parse_suites_wire h (parseExtensions (ch_version h))); [done|lia]|].
  rewrite parseExtensions_wire; [done|done|].
  enough (len (extensions_bytes (ch_extensions h)) <= len (suites_on h)) by lia.
  unfold suites_on. rewrite !len_app. pose proof (len_nonneg (vec 2 (pairs (ch_suites h)))). pose proof (len_nonneg (vec 1 (ch_compression h))). lia.
Qed.

(** A record whose header says [n] bytes. *)
Definition record_of (n : Z) (m : list Z) : list Z := [22; 3; 3] ++ be_bytes 2 n ++ m.

Lemma parseSegment_record n m : 0 <= n < 65536 ->
  parseSegment (record_of n m) = if len m <? n then parse_fails (LengthErr 2) else parseHandshake (take (Z.to_nat n) m).
Proof.
  intros Hn. pose proof (len_nonneg m). unfold parseSegment, recordLayerHeaderLen, record_of.
  set (h := [22; 3; 3]). assert (Hl : len (h ++ be_bytes 2 n ++ m) = 5 + len m) by (rewrite !len_app, len_be_bytes; change (len h) with 3; lia).
  rewrite Hl. destruct (Z.ltb_spec (5 + len m) 5); [lia|].
  change (index (h ++ be_bytes 2 n ++ m) 0) with (Ok 22).
  change (read_pair (h ++ be_bytes 2 n ++ m) 1 2) with (Ok 771). cbn [result_bind negb Z.eqb contentType].
  change (supported_version 771) with true. cbn [negb Pos.eqb].
  rewrite (read_pair_at h) by (first [apply in_width_16; lia | done]). cbn [result_bind].
  rewrite app_assoc, from_app by (rewrite len_app, len_be_bytes; done). cbn [result_bind].
  destruct (Z.ltb_spec (len m) n); [done|].
  rewrite <- (take_drop (Z.to_nat n) m) at 1. rewrite between_app; [done| |]; rewrite len_app, len_be_bytes; change (len h) with 3; [done|].
  unfold len in *. rewrite length_take. lia.
Qed.

Lemma record_record_of m : record m = record_of (len m) m.
Proof. done. Qed.

(** A client hello in a record is read as it was written. *)
Lemma ja3_Compute_wire h : hello_wf h -> ja3_Compute (record (handshake h)) = Ok (fingerprint h).
Proof.
  intros Hwf. pose proof (wf_length h Hwf). pose proof (len_nonneg (handshake h)). unfold ja3_Compute.
  rewrite record_record_of, parseSegment_record by lia. rewrite Z.ltb_irrefl.
  unfold len at 1. rewrite Nat2Z.id, take_ge by lia. by apply parseHandshake_wire.
Qed.

(** A message that is cut off is not read. *)
Lemma parseHandshake_cut h m r : hello_wf h -> handshake h = m ++ r -> r <> [] -> exists e, parseHandshake m = Err e.
Proof.
  intros Hwf Hm Hr. destruct (handshake_places h Hwf) as (H0 & (a & b & c & H1 & H2 & H3 & Hu) & H4 & _).
  assert (Hl : len (handshake h) = 4 + len (hello_body h)) by (unfold handshake; rewrite len_app, len_vec; change (len [1]) with 1; lia).
  assert (0 < len r) by (destruct r; [done|rewrite len_cons; pose proof (len_nonneg r); lia]).
  rewrite Hm, len_app in Hl. rewrite Hm in H0, H1, H2, H3. unfold parseHandshake, handshakeHeaderLen, randomDataLen, sessionIDHeaderLen.
  destruct (Z.ltb_spec (len m) (6 + 32 + 1)); [eexists; reflexivity|].
  rewrite index_app_l in H0, H1, H2, H3 by lia. rewrite H0, H1, H2, H3. cbn [result_bind].
  change (1 =? handshakeType) with true. cbn [negb]. rewrite Hu.
  pose proof (safe_from (fun _ => True) m 4 ltac:(by apply Forall_true) ltac:(lia)) as Hf.
  destruct (from m 4) as [body|e]; cbn [safe] in Hf; cbn [result_bind]; [|eexists; reflexivity]. destruct Hf as [_ Hf]. rewrite Hf.
  destruct (Z.eqb_spec (len m - 4) (len (hello_body h))); [lia|]. eexists; reflexivity.
Qed.
