(* ===== verification/RouteContext.v ===== *)
(** * The metadata of a routed connection

    The fields of [adapter.InboundContext] ([src/adapter/inbound.go]) that routing reads
    and writes besides those that rules look at, and the assignments to single fields. *)

From stdpp Require Import base gmap strings list.
From Stdlib Require Import ZArith Lia.
From S2P Require Import Prelude Net Metadata.

Open Scope Z_scope.

(** ** Records *)

(** A part of a QUIC client hello that came in an earlier packet. *)
Record qCryptoFragment : Type := mkFragment { qf_offset : Z; qf_length : Z; qf_payload : list Z }.

(** The fields under "sniffer" that rules do not look at. *)
Record SniffFields : Type := mkSniffFields {
  sf_SniffContext : list qCryptoFragment;
  sf_SnifferNames : list string;
  sf_SniffError : option error;
  sf_SniffDestination : Socksaddr
}.

(** The fields that route options set. *)
Record DialFields : Type := mkDialFields {
  df_UDPDisableDomainUnmapping : bool;
  df_UDPConnect : bool;
  df_UDPTimeout : Z;
  df_TLSFragment : bool;
  df_TLSFragmentFallbackDelay : Z;
  df_TLSRecordFragment : bool;
  df_TLSSpoof : string;
  df_TLSSpoofMethod : Z;
  df_NetworkStrategy : option Z;
  df_NetworkType : list Z;
  df_FallbackNetworkType : list Z;
  df_FallbackDelay : Z
}.

Record RouteContext : Type := mkRouteContext {
  rx_md : InboundContext;
  rx_sniff : SniffFields;
  rx_dial : DialFields;
  rx_InboundType : string;
  rx_InboundDetour : string;
  rx_LastInbound : string;
  rx_OriginDestination : Socksaddr;
  rx_RouteOriginalDestination : Socksaddr;
  rx_FakeIP : bool;
  rx_DestOverride : bool
}.

(** ** Fields of the connection *)

Definition with_conn (m : InboundContext) (c : ConnFields) : InboundContext :=
  mkInboundContext c (ic_DNSResponse m) (ic_NamedDNSResponses m) (ic_DestinationAddressMatchFromResponse m) (ic_cache m).

Definition with_md (x : RouteContext) (m : InboundContext) : RouteContext :=
  mkRouteContext m (rx_sniff x) (rx_dial x) (rx_InboundType x) (rx_InboundDetour x) (rx_LastInbound x)
    (rx_OriginDestination x) (rx_RouteOriginalDestination x) (rx_FakeIP x) (rx_DestOverride x).

Definition rx_conn (x : RouteContext) : ConnFields := ic_conn (rx_md x).

Definition map_conn (f : ConnFields -> ConnFields) (x : RouteContext) : RouteContext :=
  with_md x (with_conn (rx_md x) (f (rx_conn x))).

Definition conn_Inbound (v : string) (c : ConnFields) : ConnFields :=
  mkConnFields
    v (cf_IPVersion c) (cf_Network c) (cf_Source c) (cf_Destination c) (cf_User c) (cf_Outbound c) (cf_Protocol
    c) (cf_SniffHost c) (cf_Client c) (cf_CacheIPs c) (cf_Domain c) (cf_DestinationAddresses c) (cf_ProcessInfo
    c) (cf_ProcessInfoResolver c) (cf_SourceMACAddress c) (cf_SourceHostname c) (cf_QueryType c)
    (cf_QueryClientSubnet c) (cf_QueryDNSSEC c) (cf_PreMatch c).

Definition conn_IPVersion (v : Z) (c : ConnFields) : ConnFields :=
  mkConnFields
    (cf_Inbound c) v (cf_Network c) (cf_Source c) (cf_Destination c) (cf_User c) (cf_Outbound c) (cf_Protocol c)
    (cf_SniffHost c) (cf_Client c) (cf_CacheIPs c) (cf_Domain c) (cf_DestinationAddresses c) (cf_ProcessInfo c)
    (cf_ProcessInfoResolver c) (cf_SourceMACAddress c) (cf_SourceHostname c) (cf_QueryType c)
    (cf_QueryClientSubnet c) (cf_QueryDNSSEC c) (cf_PreMatch c).

Definition conn_Network (v : string) (c : ConnFields) : ConnFields :=
  mkConnFields
    (cf_Inbound c) (cf_IPVersion c) v (cf_Source c) (cf_Destination c) (cf_User c) (cf_Outbound c) (cf_Protocol
    c) (cf_SniffHost c) (cf_Client c) (cf_CacheIPs c) (cf_Domain c) (cf_DestinationAddresses c) (cf_ProcessInfo
    c) (cf_ProcessInfoResolver c) (cf_SourceMACAddress c) (cf_SourceHostname c) (cf_QueryType c)
    (cf_QueryClientSubnet c) (cf_QueryDNSSEC c) (cf_PreMatch c).

Definition conn_Destination (v : Socksaddr) (c : ConnFields) : ConnFields :=
  mkConnFields
    (cf_Inbound c) (cf_IPVersion c) (cf_Network c) (cf_Source c) v (cf_User c) (cf_Outbound c) (cf_Protocol c)
    (cf_SniffHost c) (cf_Client c) (cf_CacheIPs c) (cf_Domain c) (cf_DestinationAddresses c) (cf_ProcessInfo c)
    (cf_ProcessInfoResolver c) (cf_SourceMACAddress c) (cf_SourceHostname c) (cf_QueryType c)
    (cf_QueryClientSubnet c) (cf_QueryDNSSEC c) (cf_PreMatch c).

Definition conn_Protocol (v : string) (c : ConnFields) : ConnFields :=
  mkConnFields
    (cf_Inbound c) (cf_IPVersion c) (cf_Network c) (cf_Source c) (cf_Destination c) (cf_User c) (cf_Outbound c)
    v (cf_SniffHost c) (cf_Client c) (cf_CacheIPs c) (cf_Domain c) (cf_DestinationAddresses c) (cf_ProcessInfo
    c) (cf_ProcessInfoResolver c) (cf_SourceMACAddress c) (cf_SourceHostname c) (cf_QueryType c)
    (cf_QueryClientSubnet c) (cf_QueryDNSSEC c) (cf_PreMatch c).

Definition conn_SniffHost (v : string) (c : ConnFields) : ConnFields :=
  mkConnFields
    (cf_Inbound c) (cf_IPVersion c) (cf_Network c) (cf_Source c) (cf_Destination c) (cf_User c) (cf_Outbound c)
    (cf_Protocol c) v (cf_Client c) (cf_CacheIPs c) (cf_Domain c) (cf_DestinationAddresses c) (cf_ProcessInfo c)
    (cf_ProcessInfoResolver c) (cf_SourceMACAddress c) (cf_SourceHostname c) (cf_QueryType c)
    (cf_QueryClientSubnet c) (cf_QueryDNSSEC c) (cf_PreMatch c).

Definition conn_Client (v : string) (c : ConnFields) : ConnFields :=
  mkConnFields
    (cf_Inbound c) (cf_IPVersion c) (cf_Network c) (cf_Source c) (cf_Destination c) (cf_User c) (cf_Outbound c)
    (cf_Protocol c) (cf_SniffHost c) v (cf_CacheIPs c) (cf_Domain c) (cf_DestinationAddresses c) (cf_ProcessInfo
    c) (cf_ProcessInfoResolver c) (cf_SourceMACAddress c) (cf_SourceHostname c) (cf_QueryType c)
    (cf_QueryClientSubnet c) (cf_QueryDNSSEC c) (cf_PreMatch c).

Definition conn_CacheIPs (v : list Addr) (c : ConnFields) : ConnFields :=
  mkConnFields
    (cf_Inbound c) (cf_IPVersion c) (cf_Network c) (cf_Source c) (cf_Destination c) (cf_User c) (cf_Outbound c)
    (cf_Protocol c) (cf_SniffHost c) (cf_Client c) v (cf_Domain c) (cf_DestinationAddresses c) (cf_ProcessInfo
    c) (cf_ProcessInfoResolver c) (cf_SourceMACAddress c) (cf_SourceHostname c) (cf_QueryType c)
    (cf_QueryClientSubnet c) (cf_QueryDNSSEC c) (cf_PreMatch c).

Definition conn_Domain (v : string) (c : ConnFields) : ConnFields :=
  mkConnFields
    (cf_Inbound c) (cf_IPVersion c) (cf_Network c) (cf_Source c) (cf_Destination c) (cf_User c) (cf_Outbound c)
    (cf_Protocol c) (cf_SniffHost c) (cf_Client c) (cf_CacheIPs c) v (cf_DestinationAddresses c) (cf_ProcessInfo
    c) (cf_ProcessInfoResolver c) (cf_SourceMACAddress c) (cf_SourceHostname c) (cf_QueryType c)
    (cf_QueryClientSubnet c) (cf_QueryDNSSEC c) (cf_PreMatch c).

Definition conn_DestinationAddresses (v : list Addr) (c : ConnFields) : ConnFields :=
  mkConnFields
    (cf_Inbound c) (cf_IPVersion c) (cf_Network c) (cf_Source c) (cf_Destination c) (cf_User c) (cf_Outbound c)
    (cf_Protocol c) (cf_SniffHost c) (cf_Client c) (cf_CacheIPs c) (cf_Domain c) v (cf_ProcessInfo c)
    (cf_ProcessInfoResolver c) (cf_SourceMACAddress c) (cf_SourceHostname c) (cf_QueryType c)
    (cf_QueryClientSubnet c) (cf_QueryDNSSEC c) (cf_PreMatch c).

Definition conn_ProcessInfo (v : option ConnectionOwner) (c : ConnFields) : ConnFields :=
  mkConnFields
    (cf_Inbound c) (cf_IPVersion c) (cf_Network c) (cf_Source c) (cf_Destination c) (cf_User c) (cf_Outbound c)
    (cf_Protocol c) (cf_SniffHost c) (cf_Client c) (cf_CacheIPs c) (cf_Domain c) (cf_DestinationAddresses c) v
    (cf_ProcessInfoResolver c) (cf_SourceMACAddress c) (cf_SourceHostname c) (cf_QueryType c)
    (cf_QueryClientSubnet c) (cf_QueryDNSSEC c) (cf_PreMatch c).

Definition conn_ProcessInfoResolver (v : option (option ConnectionOwner)) (c : ConnFields) : ConnFields :=
  mkConnFields
    (cf_Inbound c) (cf_IPVersion c) (cf_Network c) (cf_Source c) (cf_Destination c) (cf_User c) (cf_Outbound c)
    (cf_Protocol c) (cf_SniffHost c) (cf_Client c) (cf_CacheIPs c) (cf_Domain c) (cf_DestinationAddresses c)
    (cf_ProcessInfo c) v (cf_SourceMACAddress c) (cf_SourceHostname c) (cf_QueryType c) (cf_QueryClientSubnet c)
    (cf_QueryDNSSEC c) (cf_PreMatch c).

Definition conn_SourceMACAddress (v : option (list Z)) (c : ConnFields) : ConnFields :=
  mkConnFields
    (cf_Inbound c) (cf_IPVersion c) (cf_Network c) (cf_Source c) (cf_Destination c) (cf_User c) (cf_Outbound c)
    (cf_Protocol c) (cf_SniffHost c) (cf_Client c) (cf_CacheIPs c) (cf_Domain c) (cf_DestinationAddresses c)
    (cf_ProcessInfo c) (cf_ProcessInfoResolver c) v (cf_SourceHostname c) (cf_QueryType c) (cf_QueryClientSubnet
    c) (cf_QueryDNSSEC c) (cf_PreMatch c).

Definition conn_SourceHostname (v : string) (c : ConnFields) : ConnFields :=
  mkConnFields
    (cf_Inbound c) (cf_IPVersion c) (cf_Network c) (cf_Source c) (cf_Destination c) (cf_User c) (cf_Outbound c)
    (cf_Protocol c) (cf_SniffHost c) (cf_Client c) (cf_CacheIPs c) (cf_Domain c) (cf_DestinationAddresses c)
    (cf_ProcessInfo c) (cf_ProcessInfoResolver c) (cf_SourceMACAddress c) v (cf_QueryType c)
    (cf_QueryClientSubnet c) (cf_QueryDNSSEC c) (cf_PreMatch c).

Definition conn_PreMatch (v : bool) (c : ConnFields) : ConnFields :=
  mkConnFields
    (cf_Inbound c) (cf_IPVersion c) (cf_Network c) (cf_Source c) (cf_Destination c) (cf_User c) (cf_Outbound c)
    (cf_Protocol c) (cf_SniffHost c) (cf_Client c) (cf_CacheIPs c) (cf_Domain c) (cf_DestinationAddresses c)
    (cf_ProcessInfo c) (cf_ProcessInfoResolver c) (cf_SourceMACAddress c) (cf_SourceHostname c) (cf_QueryType c)
    (cf_QueryClientSubnet c) (cf_QueryDNSSEC c) v.

(** ** The other fields *)

Definition with_sniff (x : RouteContext) (s : SniffFields) : RouteContext :=
  mkRouteContext (rx_md x) s (rx_dial x) (rx_InboundType x) (rx_InboundDetour x) (rx_LastInbound x)
    (rx_OriginDestination x) (rx_RouteOriginalDestination x) (rx_FakeIP x) (rx_DestOverride x).

Definition with_dial (x : RouteContext) (d : DialFields) : RouteContext :=
  mkRouteContext (rx_md x) (rx_sniff x) d (rx_InboundType x) (rx_InboundDetour x) (rx_LastInbound x)
    (rx_OriginDestination x) (rx_RouteOriginalDestination x) (rx_FakeIP x) (rx_DestOverride x).

Definition set_detour (detour last : string) (x : RouteContext) : RouteContext :=
  mkRouteContext (rx_md x) (rx_sniff x) (rx_dial x) (rx_InboundType x) detour last
    (rx_OriginDestination x) (rx_RouteOriginalDestination x) (rx_FakeIP x) (rx_DestOverride x).

Definition set_OriginDestination (v : Socksaddr) (x : RouteContext) : RouteContext :=
  mkRouteContext (rx_md x) (rx_sniff x) (rx_dial x) (rx_InboundType x) (rx_InboundDetour x) (rx_LastInbound x)
    v (rx_RouteOriginalDestination x) (rx_FakeIP x) (rx_DestOverride x).

Definition set_RouteOriginalDestination (v : Socksaddr) (x : RouteContext) : RouteContext :=
  mkRouteContext (rx_md x) (rx_sniff x) (rx_dial x) (rx_InboundType x) (rx_InboundDetour x) (rx_LastInbound x)
    (rx_OriginDestination x) v (rx_FakeIP x) (rx_DestOverride x).

Definition set_FakeIP (v : bool) (x : RouteContext) : RouteContext :=
  mkRouteContext (rx_md x) (rx_sniff x) (rx_dial x) (rx_InboundType x) (rx_InboundDetour x) (rx_LastInbound x)
    (rx_OriginDestination x) (rx_RouteOriginalDestination x) v (rx_DestOverride x).

Definition set_DestOverride (v : bool) (x : RouteContext) : RouteContext :=
  mkRouteContext (rx_md x) (rx_sniff x) (rx_dial x) (rx_InboundType x) (rx_InboundDetour x) (rx_LastInbound x)
    (rx_OriginDestination x) (rx_RouteOriginalDestination x) (rx_FakeIP x) v.

(** The names of the sniffers that ran, and their error. *)
Definition set_sniffed (names : list string) (err : option error) (x : RouteContext) : RouteContext :=
  with_sniff x (mkSniffFields (sf_SniffContext (rx_sniff x)) names err (sf_SniffDestination (rx_sniff x))).

Definition set_SniffContext (fragments : list qCryptoFragment) (x : RouteContext) : RouteContext :=
  with_sniff x (mkSniffFields fragments (sf_SnifferNames (rx_sniff x)) (sf_SniffError (rx_sniff x)) (sf_SniffDestination (rx_sniff x))).

Definition set_SniffDestination (v : Socksaddr) (x : RouteContext) : RouteContext :=
  with_sniff x (mkSniffFields (sf_SniffContext (rx_sniff x)) (sf_SnifferNames (rx_sniff x)) (sf_SniffError (rx_sniff x)) v).

(** * Actions of route rules

    The actions of [src/route/rule/rule_action.go] that are not about DNS, how they are
    built from the options of [src/option/rule_action.go], and what decoding the options
    rejects. *)

(** ** Options *)

Record RawRouteOptionsActionOptions : Type := mkRawRouteOptions {
  rro_OverrideAddress : string;
  rro_OverridePort : Z;
  rro_NetworkStrategy : option Z;
  rro_FallbackDelay : Z;
  rro_UDPDisableDomainUnmapping : bool;
  rro_UDPConnect : bool;
  rro_UDPTimeout : Z;
  rro_TLSFragment : bool;
  rro_TLSFragmentFallbackDelay : Z;
  rro_TLSRecordFragment : bool;
  rro_TLSSpoof : string;
  rro_TLSSpoofMethod : string
}.

#[export] Instance RawRouteOptions_eq_dec : EqDecision RawRouteOptionsActionOptions.
Proof. solve_decision. Defined.

Definition zero_RawRouteOptions : RawRouteOptionsActionOptions :=
  mkRawRouteOptions "" 0 None 0 false false 0 false 0 false "" "".

Record RouteActionOptions : Type := mkRouteActionOptions {
  rao_Outbound : string;
  rao_Options : RawRouteOptionsActionOptions
}.

Record RejectActionOptions : Type := mkRejectActionOptions { rjo_Method : string; rjo_NoDrop : bool }.

Record RouteActionSniff : Type := mkRouteActionSniff { rso_Sniffer : list string; rso_Timeout : Z }.

Record RouteActionResolve : Type := mkRouteActionResolve {
  rvo_Server : string;
  rvo_Timeout : Z;
  rvo_Strategy : Z;
  rvo_DisableCache : bool;
  rvo_DisableOptimisticCache : bool;
  rvo_RewriteTTL : option Z;
  rvo_ClientSubnet : option Prefix;
  rvo_MatchOnly : bool
}.

(** [option.RuleAction]; the options of [direct] are those of a dialer. *)
Record RuleActionFields : Type := mkRuleActionFields {
  act_Action : string;
  act_RouteOptions : RouteActionOptions;
  act_RouteOptionsOptions : RawRouteOptionsActionOptions;
  act_BypassOptions : RouteActionOptions;
  act_RejectOptions : RejectActionOptions;
  act_SniffOptions : RouteActionSniff;
  act_ResolveOptions : RouteActionResolve
}.

(** What decoding checks once the fields are read. *)
Definition RouteOptionsActionOptions_check (r : RawRouteOptionsActionOptions) : result unit :=
  if bool_decide (r = zero_RawRouteOptions) then Err (ENew "empty route option action")
  else if rro_TLSFragment r && rro_TLSRecordFragment r
  then Err (ENew "`tls_fragment` and `tls_record_fragment` are mutually exclusive")
  else Ok tt.

Definition RejectActionOptions_check (r : RejectActionOptions) : result RejectActionOptions :=
  let known := bool_decide (rjo_Method r = "default"%string) || bool_decide (rjo_Method r = "drop"%string) ||
               bool_decide (rjo_Method r = "reply"%string) in
  if negb (empty_string (rjo_Method r)) && negb known then Err (ENew ("unknown reject method: " +:+ rjo_Method r))
  else
    let method := if empty_string (rjo_Method r) then "default" else rjo_Method r in
    if bool_decide (method = "drop"%string) && rjo_NoDrop r then Err (ENew "no_drop is not available in current context")
    else Ok (mkRejectActionOptions method (rjo_NoDrop r)).

(** ** Actions *)

Record RuleActionRouteOptions : Type := mkRouteOptions {
  rp_OverrideAddress : Socksaddr;
  rp_OverridePort : Z;
  rp_NetworkStrategy : option Z;
  rp_NetworkType : list Z;
  rp_FallbackNetworkType : list Z;
  rp_FallbackDelay : Z;
  rp_UDPDisableDomainUnmapping : bool;
  rp_UDPConnect : bool;
  rp_UDPTimeout : Z;
  rp_TLSFragment : bool;
  rp_TLSFragmentFallbackDelay : Z;
  rp_TLSRecordFragment : bool;
  rp_TLSSpoof : string;
  rp_TLSSpoofMethod : Z
}.

(** The sniffers of [src/common/sniff]. *)
Inductive StreamSniffer : Type := TLSClientHello | HTTPHost | StreamDomainNameQuery | BitTorrent | SSH | RDP.

Inductive PacketSniffer : Type :=
| QUICClientHello | QUICShortHeader | DomainNameQuery | STUNMessage | UTP | UDPTracker | DTLSRecord | NTP.

Record RuleActionSniff : Type := mkActionSniff {
  sn_SnifferNames : list string;
  sn_StreamSniffers : list StreamSniffer;
  sn_PacketSniffers : list PacketSniffer;
  sn_Timeout : Z
}.

Record RuleActionResolve : Type := mkActionResolve {
  rv_Server : string;
  rv_Timeout : Z;
  rv_Strategy : Z;
  rv_DisableCache : bool;
  rv_DisableOptimisticCache : bool;
  rv_RewriteTTL : option Z;
  rv_ClientSubnet : Prefix;
  rv_MatchOnly : bool
}.

Inductive RuleAction : Type :=
| ActionRoute (Outbound : string) (options : RuleActionRouteOptions)
| ActionRouteOptions (options : RuleActionRouteOptions)
| ActionBypass (Outbound : string) (options : RuleActionRouteOptions)
| ActionDirect
| ActionRejectConnection (Method : string) (NoDrop : bool)
| ActionHijackDNS
| ActionSniff (action : RuleActionSniff)
| ActionSniffOverrideDestination
| ActionResolve (action : RuleActionResolve).

(** ** Construction *)

(** [RuleActionSniff.build]: the sniffers of the names, in order; the heuristic for
    short headers comes last. *)
Fixpoint build_loop (names : list string) (quicEnabled : bool) (stream : list StreamSniffer) (packet : list PacketSniffer)
    : result (bool * list StreamSniffer * list PacketSniffer) :=
  match names with
  | [] => Ok (quicEnabled, stream, packet)
  | name :: rest =>
      if bool_decide (name = "tls"%string) then build_loop rest quicEnabled (stream ++ [TLSClientHello]) packet
      else if bool_decide (name = "http"%string) then build_loop rest quicEnabled (stream ++ [HTTPHost]) packet
      else if bool_decide (name = "quic"%string) then build_loop rest true stream (packet ++ [QUICClientHello])
      else if bool_decide (name = "dns"%string)
      then build_loop rest quicEnabled (stream ++ [StreamDomainNameQuery]) (packet ++ [DomainNameQuery])
      else if bool_decide (name = "stun"%string) then build_loop rest quicEnabled stream (packet ++ [STUNMessage])
      else if bool_decide (name = "bittorrent"%string)
      then build_loop rest quicEnabled (stream ++ [BitTorrent]) (packet ++ [UTP; UDPTracker])
      else if bool_decide (name = "dtls"%string) then build_loop rest quicEnabled stream (packet ++ [DTLSRecord])
      else if bool_decide (name = "ssh"%string) then build_loop rest quicEnabled (stream ++ [SSH]) packet
      else if bool_decide (name = "rdp"%string) then build_loop rest quicEnabled (stream ++ [RDP]) packet
      else if bool_decide (name = "ntp"%string) then build_loop rest quicEnabled stream (packet ++ [NTP])
      else Err (ENew ("unknown sniffer: " +:+ name))
  end.

Definition RuleActionSniff_build (names : list string) (timeout : Z) : result RuleActionSniff :=
  try built <- build_loop names false [] [];
  let '(quicEnabled, stream, packet) := built in
  Ok (mkActionSniff names stream (if quicEnabled then packet ++ [QUICShortHeader] else packet) timeout).

(** [tlsspoof.ParseMethod]; the methods in the order of their declaration. *)
Definition ParseMethod (s : string) : result Z :=
  if empty_string s || bool_decide (s = "wrong-sequence"%string) then Ok 0
  else if bool_decide (s = "wrong-checksum"%string) then Ok 1
  else if bool_decide (s = "wrong-ack"%string) then Ok 2
  else if bool_decide (s = "wrong-md5"%string) then Ok 3
  else if bool_decide (s = "wrong-timestamp"%string) then Ok 4
  else Err (ENew ("tls_spoof: unknown method: " +:+ s)).

Section construction.
(** Whether the platform can spoof, and sing's [M.ParseSocksaddrHostPort]. *)
Context (PlatformSupported : bool) (ParseSocksaddrHostPort : string -> Z -> Socksaddr).

(** [tlsspoof.ParseOptions] *)
Definition ParseOptions (spoof method : string) : result (string * Z) :=
  if empty_string spoof
  then if negb (empty_string method) then Err (ENew "spoof_method requires spoof") else Ok ("", 0)
  else if negb PlatformSupported then Err (ENew "tls_spoof is not supported on this platform")
  else try parsedMethod <- ParseMethod method; Ok (spoof, parsedMethod).

Definition newRuleActionRouteOptions (options : RawRouteOptionsActionOptions) : result RuleActionRouteOptions :=
  try spoof <- ParseOptions (rro_TLSSpoof options) (rro_TLSSpoofMethod options);
  Ok (mkRouteOptions (ParseSocksaddrHostPort (rro_OverrideAddress options) 0) (rro_OverridePort options)
        (rro_NetworkStrategy options) [] [] (rro_FallbackDelay options) (rro_UDPDisableDomainUnmapping options)
        (rro_UDPConnect options) (rro_UDPTimeout options) (rro_TLSFragment options)
        (rro_TLSFragmentFallbackDelay options) (rro_TLSRecordFragment options) spoof.1 spoof.2).

(** [NewRuleAction]; [directDialer] is the result of creating the dialer of a [direct]
    action. *)
Definition NewRuleAction (directDialer : result unit) (action : RuleActionFields) : result (option RuleAction) :=
  let a := act_Action action in
  let resolve := act_ResolveOptions action in
  if empty_string a then Ok None
  else if bool_decide (a = "route"%string) then
    try routeOptions <- newRuleActionRouteOptions (rao_Options (act_RouteOptions action));
    Ok (Some (ActionRoute (rao_Outbound (act_RouteOptions action)) routeOptions))
  else if bool_decide (a = "route-options"%string) then
    try routeOptions <- newRuleActionRouteOptions (act_RouteOptionsOptions action);
    Ok (Some (ActionRouteOptions routeOptions))
  else if bool_decide (a = "bypass"%string) then
    try routeOptions <- newRuleActionRouteOptions (rao_Options (act_BypassOptions action));
    Ok (Some (ActionBypass (rao_Outbound (act_BypassOptions action)) routeOptions))
  else if bool_decide (a = "direct"%string) then try _ <- directDialer; Ok (Some ActionDirect)
  else if bool_decide (a = "reject"%string) then
    Ok (Some (ActionRejectConnection (rjo_Method (act_RejectOptions action)) (rjo_NoDrop (act_RejectOptions action))))
  else if bool_decide (a = "hijack-dns"%string) then Ok (Some ActionHijackDNS)
  else if bool_decide (a = "sniff"%string) then
    try sniff <- RuleActionSniff_build (rso_Sniffer (act_SniffOptions action)) (rso_Timeout (act_SniffOptions action));
    Ok (Some (ActionSniff sniff))
  else if bool_decide (a = "sniff-override-destination"%string) then Ok (Some ActionSniffOverrideDestination)
  else if bool_decide (a = "resolve"%string) then
    Ok (Some (ActionResolve (mkActionResolve (rvo_Server resolve) (rvo_Timeout resolve) (rvo_Strategy resolve)
      (rvo_DisableCache resolve) (rvo_DisableOptimisticCache resolve) (rvo_RewriteTTL resolve)
      (match rvo_ClientSubnet resolve with Some p => p | None => zero_prefix end) (rvo_MatchOnly resolve))))
  else Err (EPanic ("unknown rule action: " +:+ a)).
End construction.
