(* ===== verification/Quic.v ===== *)
(** * QUIC client hellos

    [src/common/sniff/quic.go] and [src/common/sniff/internal/qtls/qtls.go]: opening an
    initial packet, going through its frames, putting the parts of a client hello
    together, and guessing the client.  HKDF, AES and GCM are parameters ([QUICCrypto]). *)

From stdpp Require Import base strings list.
From Stdlib Require Import ZArith Lia.
From S2P Require Import Prelude Codec GoSlice Ja3 RouteContext.

Open Scope Z_scope.

(** ** Cryptography of other packages *)

Class QUICCrypto : Type := {
  (* hkdf.Extract and the bytes hkdf.Expand gives, with SHA-256 *)
  hkdf_Extract : list Z -> list Z -> list Z;
  hkdf_Expand : list Z -> list Z -> Z -> result (list Z);
  (* a block under a key *)
  aes_Encrypt : list Z -> list Z -> list Z;
  (* opening with key, nonce, ciphertext and additional data *)
  gcm_Open : list Z -> list Z -> list Z -> list Z -> result (list Z)
}.

(** Their documented behaviour: HKDF gives as many bytes as are asked for up to 255
    hashes, a block is encrypted to a block, and opening returns bytes or an error. *)
Class QUICCryptoLaws `{QUICCrypto} : Prop := {
  Expand_length secret info n : 0 <= n <= 255 * 32 ->
    exists out, hkdf_Expand secret info n = Ok out /\ len out = n /\ Forall is_byte out;
  Encrypt_length key block : len key = 16 -> len block = 16 -> len (aes_Encrypt key block) = 16;
  Open_safe key nonce ciphertext data : len key = 16 -> len nonce = 12 -> safe (gcm_Open key nonce ciphertext data) (Forall is_byte)
}.

(** ** qtls *)

Definition VersionDraft29 : Z := 4278190109. (* 0xff00001d *)
Definition Version1 : Z := 1.
Definition Version2 : Z := 1798521807. (* 0x6b3343cf *)

Definition SaltOld : list Z := [175; 191; 236; 40; 153; 147; 210; 76; 158; 151; 134; 241; 156; 97; 17; 224; 67; 144; 168; 153].
Definition SaltV1 : list Z := [56; 118; 44; 247; 245; 89; 52; 179; 77; 23; 154; 230; 164; 200; 12; 173; 204; 187; 127; 10].
Definition SaltV2 : list Z := [13; 237; 227; 222; 247; 0; 166; 219; 129; 147; 129; 190; 110; 38; 157; 203; 249; 189; 46; 217].

Definition BlockSize : nat := 16.

(** The bytes behind the first one of an integer. *)
Fixpoint uvarint_bytes (n : nat) (v : Z) (l : list Z) : result (Z * list Z) :=
  match n with
  | O => Ok (v, l)
  | S n' => try p <- ReadByte l; uvarint_bytes n' (wrap 64 (v * 256 + p.1)) p.2
  end.

(** A variable-length integer of 1, 2, 4 or 8 bytes. *)
Definition qtls_ReadUvarint : Reader Z := fun l =>
  try p <- ReadByte l;
  let firstByte := p.1 in
  let size := Z.shiftl 1 (Z.shiftr (Z.land firstByte 192) 6) in
  let b1 := Z.land firstByte 63 in
  if size =? 1 then Ok (b1, p.2)
  else if size =? 2 then uvarint_bytes 1 b1 p.2
  else if size =? 4 then uvarint_bytes 3 b1 p.2
  else uvarint_bytes 7 b1 p.2.

Section quic.
Context `{QUICCrypto}.

Definition HKDFExpandLabel (secret context : list Z) (label : string) (length : Z) : result (list Z) :=
  let b := be_bytes 2 (wrap 16 length) ++ [wrap 8 (6 + Z.of_nat (String.length label))] ++ bytes_of_string "tls13 " ++
           bytes_of_string label ++ [wrap 8 (len context)] ++ context in
  match hkdf_Expand secret b length with
  | Ok out => if len out =? length then Ok out else Err (EPanic "quic: HKDF-Expand-Label invocation failed unexpectedly")
  | Err _ => Err (EPanic "quic: HKDF-Expand-Label invocation failed unexpectedly")
  end.

(** [aes.NewCipher]: the key. *)
Definition NewCipher (key : list Z) : result (list Z) :=
  if bool_decide (length key ∈ [16; 24; 32]%nat) then Ok key else Err (ENew "crypto/aes: invalid key size").

(** [AEADAESGCMTLS13]: the key and the mask of the nonces. *)
Definition AEADAESGCMTLS13 (key nonceMask : list Z) : result (list Z * list Z) :=
  if negb (len nonceMask =? 12) then Err (EPanic "tls: internal error: wrong nonce length")
  else match NewCipher key with Ok key => Ok (key, nonceMask) | Err _ => Err (EPanic "crypto/aes: invalid key size") end.

(** [xorNonceAEAD.Open] with a nonce of 8 bytes. *)
Definition xorNonceAEAD_Open (aead : list Z * list Z) (nonce ciphertext additionalData : list Z) : result (list Z) :=
  gcm_Open aead.1 (take 4 aead.2 ++ zip_with Z.lxor (drop 4 aead.2) nonce) ciphertext additionalData.

(** ** Opening a packet *)

(** [io.CopyN(io.Discard, reader, n)] *)
Definition CopyN (n : Z) (l : list Z) : result (list Z) :=
  if n <=? len l then Ok (drop (Z.to_nat n) l) else Err EOF.

(** The header: the version, the connection id, the length of the header and of the
    packet, and the sample for the header protection. *)
Record Header : Type := mkHeader {
  hd_versionNumber : Z;
  hd_destConnID : list Z;
  hd_hdrLen : Z;
  hd_packetLen : Z;
  hd_pnBytes : list Z
}.

Definition bad_packet_type (packetType versionNumber : Z) : bool :=
  (packetType =? 0) && (versionNumber =? Version2) || (packetType =? 2) && negb (versionNumber =? Version2) || (2 <? packetType).

Definition read_header (packet : list Z) : result Header :=
  try p <- ReadByte packet;
  let typeByte := p.1 in
  if Z.land typeByte 64 =? 0 then Err (ENew "bad type byte")
  else
    try p <- ReadBE 4 p.2;
    let versionNumber := p.1 in
    if negb (versionNumber =? VersionDraft29) && negb (versionNumber =? Version1) && negb (versionNumber =? Version2)
    then Err (ENew "bad version")
    else if bad_packet_type (Z.shiftr (Z.land typeByte 48) 4) versionNumber then Err (ENew "bad packet type")
    else
      try p <- ReadByte p.2;
      let destConnIDLen := p.1 in
      if (destConnIDLen =? 0) || (20 <? destConnIDLen) then Err (ENew "bad destination connection id length")
      else
        try p <- ReadFull (Z.to_nat destConnIDLen) p.2;
        let destConnID := p.1 in
        try p <- ReadByte p.2;
        try reader <- CopyN p.1 p.2;
        try p <- qtls_ReadUvarint reader;
        try reader <- CopyN p.1 p.2;
        try p <- qtls_ReadUvarint reader;
        let packetLen := p.1 in
        let hdrLen := len packet - len p.2 in
        if len packet <? hdrLen + packetLen then Err ErrInvalid
        else
          try reader <- CopyN 4 p.2;
          try p <- ReadFull BlockSize reader;
          Ok (mkHeader versionNumber destConnID hdrLen packetLen p.1).

Definition salt_of (versionNumber : Z) : list Z :=
  if versionNumber =? Version1 then SaltV1 else if versionNumber =? Version2 then SaltV2 else SaltOld.

(** [s[i] ^= v] *)
Definition xor_at (i v : Z) (l : list Z) : result (list Z) :=
  try b <- index l i; Ok (<[Z.to_nat i := Z.lxor b v]> l).

(** Removing the header protection: the first byte and the four behind the header. *)
Definition unmask (mask : list Z) (hdrLen : Z) (packet : list Z) : result (list Z) :=
  try m0 <- index mask 0;
  try newPacket <- xor_at 0 (Z.land m0 15) packet;
  try _ <- between newPacket hdrLen (hdrLen + 4);
  try m1 <- index mask 1; try newPacket <- xor_at hdrLen m1 newPacket;
  try m2 <- index mask 2; try newPacket <- xor_at (hdrLen + 1) m2 newPacket;
  try m3 <- index mask 3; try newPacket <- xor_at (hdrLen + 2) m3 newPacket;
  try m4 <- index mask 4; xor_at (hdrLen + 3) m4 newPacket.

(** The packet number, big-endian in one to four bytes. *)
Definition packet_number (newPacket : list Z) (hdrLen packetNumberLength : Z) : result Z :=
  try b <- between newPacket hdrLen (hdrLen + packetNumberLength); Ok (be_value b).

Definition open_packet (packet : list Z) : result (list Z) :=
  try h <- read_header packet;
  let v2 := hd_versionNumber h =? Version2 in
  let hdrLen := hd_hdrLen h in
  let packetLen := hd_packetLen h in
  let initialSecret := hkdf_Extract (hd_destConnID h) (salt_of (hd_versionNumber h)) in
  try secret <- HKDFExpandLabel initialSecret [] "client in" 32;
  try hpKey <- HKDFExpandLabel secret [] (if v2 then "quicv2 hp" else "quic hp") 16;
  try block <- NewCipher hpKey;
  let mask := aes_Encrypt block (hd_pnBytes h) in
  try newPacket <- unmask mask hdrLen packet;
  try first <- index newPacket 0;
  let packetNumberLength := Z.land first 3 + 1 in
  if packetLen + hdrLen <? hdrLen + packetNumberLength then Err ErrInvalid
  else
    try packetNumber <- packet_number newPacket hdrLen packetNumberLength;
    let extHdrLen := hdrLen + packetNumberLength in
    try original <- between packet extHdrLen (hdrLen + 4);
    try head <- between newPacket 0 extHdrLen;
    try tail <- from newPacket (hdrLen + 4);
    try data <- between (head ++ original ++ tail) extHdrLen (packetLen + hdrLen);
    try key <- HKDFExpandLabel secret [] (if v2 then "quicv2 key" else "quic key") 16;
    try iv <- HKDFExpandLabel secret [] (if v2 then "quicv2 iv" else "quic iv") 12;
    try cipher <- AEADAESGCMTLS13 key iv;
    xorNonceAEAD_Open cipher (be_bytes 8 packetNumber) data head.
End quic.

(** ** Frames *)

Definition frameTypePadding : Z := 0.
Definition frameTypePing : Z := 1.
Definition frameTypeAck : Z := 2.
Definition frameTypeAck2 : Z := 3.
Definition frameTypeCrypto : Z := 6.
Definition frameTypeConnectionClose : Z := 28.

(** [n] integers that are skipped. *)
Fixpoint skip_uvarints (n : nat) (l : list Z) : result (list Z) :=
  match n with
  | O => Ok l
  | S n' => try p <- qtls_ReadUvarint l; skip_uvarints n' p.2
  end.

(** The loop over the ranges of an ACK frame: [count] of them, each of two integers.  A
    range takes two bytes at least, so the length of the input is enough fuel. *)
Fixpoint skip_ranges (fuel : nat) (count : Z) (l : list Z) : result (list Z) :=
  if count <=? 0 then Ok l
  else match fuel with
       | O => Err (EPanic "loop does not end")
       | S fuel' => try l <- skip_uvarints 2 l; skip_ranges fuel' (count - 1) l
       end.

(** [Seek(n, io.SeekCurrent)], which may go past the end. *)
Definition seek (n : Z) (l : list Z) : list Z := drop (Z.to_nat (Z.min n (len l))) l.

(** What a frame is: its type with what follows it consumed, and a part of the hello. *)
Definition read_frame (frameType : Z) (l : list Z) : result (list qCryptoFragment * list Z) :=
  if (frameType =? frameTypePadding) || (frameType =? frameTypePing) then Ok ([], l)
  else if (frameType =? frameTypeAck) || (frameType =? frameTypeAck2) then
    try l <- skip_uvarints 2 l;
    try p <- qtls_ReadUvarint l;
    try l <- skip_uvarints 1 p.2;
    try l <- skip_ranges (S (length l)) p.1 l;
    if frameType =? 3 then try l <- skip_uvarints 3 l; Ok ([], l) else Ok ([], l)
  else if frameType =? frameTypeCrypto then
    try p <- qtls_ReadUvarint l;
    let offset := p.1 in
    try p <- qtls_ReadUvarint p.2;
    let length := p.1 in
    if len p.2 <? length then Err ErrInvalid
    else
      try payload <- between p.2 0 length;
      Ok ([mkFragment offset length payload], seek length p.2)
  else if frameType =? frameTypeConnectionClose then
    try l <- skip_uvarints 2 l;
    try p <- qtls_ReadUvarint l;
    Ok ([], seek p.1 p.2)
  else Err ErrInvalid.

(** The types of the frames, and the parts of the hello. *)
Fixpoint read_frames (fuel : nat) (l : list Z) : result (list Z * list qCryptoFragment) :=
  match fuel with
  | O => Err (EPanic "loop does not end")
  | S fuel' =>
      match l with
      | [] => Ok ([], [])
      | frameType :: l =>
          try p <- read_frame frameType l;
          try q <- read_frames fuel' p.2;
          Ok (frameType :: q.1, p.1 ++ q.2)
      end
  end.

Definition frames_of (decrypted : list Z) : result (list Z * list qCryptoFragment) :=
  read_frames (S (length decrypted)) decrypted.

(** ** The client hello *)

Definition total_length (fragments : list qCryptoFragment) : Z :=
  foldl (fun n f => wrap 64 (n + qf_length f)) 0 fragments.

Definition starts_at (i : Z) (f : qCryptoFragment) : bool := (qf_offset f =? i) && (0 <? qf_length f).

(** The loop [find]: the part at [i], then the one behind it, until there is none.  Every
    part is used once at most, so their number is enough fuel; out of fuel is written as a
    panic, which [join_Ok] excludes. *)
Fixpoint join_fragments (fuel : nat) (fragments : list qCryptoFragment) (i : Z) : result (list Z) :=
  match fuel with
  | O => Err (EPanic "loop does not end")
  | S fuel' =>
      match List.find (starts_at i) fragments with
      | Some f =>
          try rest <- join_fragments fuel' fragments (wrap 64 (qf_offset f + qf_length f));
          Ok (qf_payload f ++ rest)
      | None => Ok []
      end
  end.

(** The record that is handed to the parser. *)
Definition hello_record (fragments : list qCryptoFragment) : result (list Z) :=
  try joined <- join_fragments (S (length fragments)) fragments 0;
  Ok ([22] ++ be_bytes 2 771 ++ be_bytes 2 (wrap 16 (total_length fragments)) ++ joined).

(** ** The client *)

Definition isZero (slices : list Z) : bool := forallb (Z.eqb 0) slices.

Definition count (slices : list Z) (value : Z) : Z := len (List.filter (Z.eqb value) slices).

Definition x25519Kyber768Draft00 : Z := 4588. (* 0x11EC *)
Definition extensionRenegotiationInfo : Z := 65281. (* 0xFF01 *)
Definition TLS_AES_256_GCM_SHA384 : Z := 4866. (* 0x1302 *)
Definition X25519 : Z := 29.
Definition ECDSAWithP256AndSHA256 : Z := 1027. (* 0x0403 *)

Definition isQUICGo (fingerprint : ClientHello) : bool :=
  existsb (Z.eqb x25519Kyber768Draft00) (EllipticCurves fingerprint) ||
  existsb (Z.eqb extensionRenegotiationInfo) (Extensions fingerprint).

(** [len(l) == n && l[0]&GreaseBitmask == 0x0A0A] *)
Definition starts_grease (l : list Z) (n : Z) : bool :=
  (len l =? n) && match l with v :: _ => Z.land v GreaseBitmask =? 2570 | [] => false end.

Definition is_single (l : list Z) (v : Z) : bool := bool_decide (l = [v]).

Definition is_Safari (fingerprint : ClientHello) : bool :=
  starts_grease (Versions fingerprint) 2 && starts_grease (EllipticCurves fingerprint) 5 ||
  is_single (CipherSuites fingerprint) TLS_AES_256_GCM_SHA384 && is_single (EllipticCurves fingerprint) X25519 &&
  is_single (SignatureAlgorithms fingerprint) ECDSAWithP256AndSHA256.

Definition quic_client (fingerprint : ClientHello) (frameTypeList : list Z) : result string :=
  if len frameTypeList =? 1 then Ok "firefox"%string
  else
    try first <- index frameTypeList 0;
    try others <- from frameTypeList 1;
    if (first =? frameTypeCrypto) && isZero others && is_Safari fingerprint then Ok "safari"%string
    else
      try last <- index frameTypeList (len frameTypeList - 1);
      try before <- between frameTypeList 0 (len frameTypeList - 1);
      if (last =? frameTypeCrypto) && isZero before then Ok "quic-go"%string
      else if (1 <? count frameTypeList frameTypeCrypto) || (0 <? count frameTypeList frameTypePing) then
        Ok (if isQUICGo fingerprint then "quic-go"%string else "chromium"%string)
      else Ok "unknown"%string.

(** * Sniffing QUIC packets does not panic

    The bounds of the slices of [src/common/sniff/quic.go], the ends of its loops, and
    what the parts of a client hello look like. *)

(** ** Readers *)

(** What a reader that consumed something leaves. *)
Definition left_of (l r : list Z) : Prop := Forall is_byte r /\ len r < len l.

Lemma left_of_trans l r s : left_of l r -> left_of r s -> left_of l s.
Proof. unfold left_of. intros [? ?] [? ?]. split; [done|lia]. Qed.

Lemma safe_ReadByte l : Forall is_byte l -> safe (ReadByte l) (fun p => is_byte p.1 /\ left_of l p.2).
Proof. intros Hl. destruct Hl as [|b l Hb Hl]; cbn; [done|]. split; [done|]. split; [done|]. rewrite len_cons. lia. Qed.

Lemma safe_ReadFull n l : Forall is_byte l ->
  safe (ReadFull n l) (fun p => Forall is_byte p.1 /\ Forall is_byte p.2 /\ len p.1 = Z.of_nat n /\ len l = Z.of_nat n + len p.2 /\ 0 <= len p.2).
Proof.
  intros Hl. unfold ReadFull. destruct (Nat.leb_spec n (length l)) as [Hn|_]; [|by destruct l].
  cbn. split_and!; [by apply Forall_take|by apply Forall_drop|..]; unfold len; rewrite ?length_take, ?length_drop; lia.
Qed.

Lemma safe_ReadBE n l : Forall is_byte l -> safe (ReadBE n l) (fun p => Forall is_byte p.2 /\ len l = Z.of_nat n + len p.2).
Proof.
  intros Hl. unfold ReadBE. eapply safe_bind; [by apply safe_ReadFull|]. intros p (_ & Hb & _ & Hn & _). by apply safe_ok.
Qed.

Lemma safe_CopyN n l : Forall is_byte l -> 0 <= n -> safe (CopyN n l) (fun r => Forall is_byte r /\ len l = n + len r).
Proof.
  intros Hl Hn. unfold CopyN. destruct (Z.leb_spec n (len l)); [|done]. cbn. split; [by apply Forall_drop|].
  unfold len in *. rewrite length_drop. lia.
Qed.

Lemma safe_uvarint_bytes n v l :
  Forall is_byte l -> 0 <= v < 64 * 256 ^ (7 - Z.of_nat n) -> (n <= 7)%nat ->
  safe (uvarint_bytes n v l) (fun p => 0 <= p.1 < 2 ^ 62 /\ Forall is_byte p.2 /\ len p.2 <= len l).
Proof.
  revert v l. induction n as [|n IH]; intros v l Hl Hv Hn; [by cbn in *|].
  cbn [uvarint_bytes]. eapply safe_bind; [by apply safe_ReadByte|]. intros [b r] [Hb [Hr Hlt]]. cbn [fst snd] in *.
  assert (Hp : 256 ^ (7 - Z.of_nat n) = 256 * 256 ^ (7 - Z.of_nat (S n))).
  { rewrite <- Z.pow_succ_r by lia. f_equal. lia. }
  assert (Hs : 64 * 256 ^ (7 - Z.of_nat n) <= 2 ^ 62).
  { change (2 ^ 62) with (64 * 256 ^ 7). apply Z.mul_le_mono_nonneg_l; [lia|]. apply Z.pow_le_mono_r; lia. }
  unfold is_byte in Hb. rewrite wrap_small.
  - eapply safe_weaken; [apply IH; [done|lia|lia]|]. cbn. intros p (? & ? & ?). split_and!; [lia..|done|lia].
  - unfold in_width. change (2 ^ 64) with (4 * 2 ^ 62). lia.
Qed.

Lemma safe_qtls_ReadUvarint l : Forall is_byte l -> safe (qtls_ReadUvarint l) (fun p => 0 <= p.1 < 2 ^ 62 /\ left_of l p.2).
Proof.
  intros Hl. unfold qtls_ReadUvarint. eapply safe_bind; [by apply safe_ReadByte|]. intros [b r] [Hb [Hr Hlt]]. cbn [fst snd] in *. cbn zeta.
  assert (H1 : 0 <= Z.land b 63 < 64).
  { change 63 with (Z.ones 6). rewrite Z.land_ones by lia. apply Z.mod_pos_bound. lia. }
  assert (Hk : forall k, (k <= 7)%nat -> safe (uvarint_bytes k (Z.land b 63) r) (fun p => 0 <= p.1 < 2 ^ 62 /\ left_of l p.2)).
  { intros k Hk. eapply safe_weaken; [apply safe_uvarint_bytes; [done| |done]|].
    - assert (1 <= 256 ^ (7 - Z.of_nat k)) by (apply Z.lt_pred_le, Z.pow_pos_nonneg; lia). nia.
    - intros p (? & ? & ?). split; [done|]. split; [done|lia]. }
  repeat (case_match; [try (apply Hk; lia)|]); [|apply Hk; lia].
  cbn. split; [change (2 ^ 62) with (64 * 256 ^ 7); lia|done].
Qed.

(** Splits readers as [slices] does slices. *)
Ltac readers :=
  repeat first
    [ progress slices
    | match goal with
      | |- safe (result_bind (ReadByte _) _) _ => eapply safe_bind; [apply safe_ReadByte; assumption|intros [? ?] [? [? ?]]; cbn [fst snd] in *]
      | |- safe (result_bind (ReadBE _ _) _) _ => eapply safe_bind; [apply safe_ReadBE; assumption|intros [? ?] [? ?]; cbn [fst snd] in *]
      | |- safe (result_bind (ReadFull _ _) _) _ => eapply safe_bind; [apply safe_ReadFull; assumption|intros [? ?] (? & ? & ? & ? & ?); cbn [fst snd] in *]
      | |- safe (result_bind (CopyN _ _) _) _ => eapply safe_bind; [apply safe_CopyN; [assumption|unfold is_byte in *; lia]|intros ? [? ?]]
      | |- safe (result_bind (qtls_ReadUvarint _) _) _ => eapply safe_bind; [apply safe_qtls_ReadUvarint; assumption|intros [? ?] [? [? ?]]; cbn [fst snd] in *]
      end ].

(** ** Opening a packet *)

Lemma safe_read_header packet : Forall is_byte packet ->
  safe (read_header packet) (fun h => 1 <= hd_hdrLen h /\ hd_hdrLen h + 20 <= len packet /\ 0 <= hd_packetLen h /\
    hd_hdrLen h + hd_packetLen h <= len packet /\ len (hd_pnBytes h) = 16).
Proof.
  intros Hp. unfold read_header, BlockSize. readers. cbn. unfold is_byte in *. split_and!; try lia.
Qed.

Lemma safe_xor_at i v l n : len l = n -> 0 <= i < n -> safe (xor_at i v l) (fun r => len r = n).
Proof.
  intros <- Hi. unfold xor_at. eapply safe_bind; [apply (safe_index (fun _ => True)); [by apply Forall_true|done]|].
  intros b _. apply safe_ok. unfold len. by rewrite length_insert.
Qed.

Lemma safe_index_True {A : Type} (l : list A) i : 0 <= i < len l -> safe (index l i) (fun _ => True).
Proof. apply safe_index. by apply Forall_true. Qed.

Lemma safe_between_True {A : Type} (l : list A) i j : 0 <= i <= j -> j <= len l -> safe (between l i j) (fun r => len r = j - i).
Proof. intros Hi Hj. eapply safe_weaken; [apply (safe_between (fun _ => True)); [by apply Forall_true|done|done]|]. by intros r [_ ?]. Qed.

Lemma safe_from_True {A : Type} (l : list A) i : 0 <= i <= len l -> safe (from l i) (fun r => len r = len l - i).
Proof. intros Hi. eapply safe_weaken; [apply (safe_from (fun _ => True)); [by apply Forall_true|done]|]. by intros r [_ ?]. Qed.

Lemma safe_unmask mask hdrLen packet :
  len mask = 16 -> 1 <= hdrLen -> hdrLen + 20 <= len packet -> safe (unmask mask hdrLen packet) (fun r => len r = len packet).
Proof.
  intros Hm Hh Hp. unfold unmask.
  repeat match goal with
  | |- safe (result_bind (index _ _) _) _ => eapply safe_bind; [apply safe_index_True; lia|intros ? _]
  | |- safe (result_bind (xor_at _ _ _) _) _ => eapply safe_bind; [apply (safe_xor_at _ _ _ (len packet)); [first [done|assumption]|lia]|intros ? ?; cbn beta in *]
  | |- safe (result_bind (between _ _ _) _) _ => eapply safe_bind; [apply safe_between_True; lia|intros ? _]
  end.
  apply safe_xor_at; [done|lia].
Qed.

Section open.
Context `{QUICCryptoLaws}.

Lemma safe_HKDFExpandLabel secret context label n :
  0 <= n <= 255 * 32 -> safe (HKDFExpandLabel secret context label n) (fun out => len out = n).
Proof.
  intros Hn. unfold HKDFExpandLabel. destruct (Expand_length secret (be_bytes 2 (wrap 16 n) ++ [wrap 8 (6 + Z.of_nat (String.length label))] ++
    bytes_of_string "tls13 " ++ bytes_of_string label ++ [wrap 8 (len context)] ++ context) n Hn) as (out & -> & Hl & _).
  rewrite <- Hl, Z.eqb_refl. done.
Qed.

Lemma safe_open_packet packet : Forall is_byte packet -> safe (open_packet packet) (Forall is_byte).
Proof.
  intros Hp. unfold open_packet. eapply safe_bind; [by apply safe_read_header|]. intros h (H1 & H2 & H3 & H4 & H5). cbn zeta.
  eapply safe_bind; [apply safe_HKDFExpandLabel; lia|intros secret _].
  eapply safe_bind; [apply safe_HKDFExpandLabel; lia|intros hpKey Hk; cbn beta in Hk].
  assert (Hc : forall key, len key = 16 -> NewCipher key = Ok key).
  { intros key Hl. unfold NewCipher, len in *. replace (length key) with 16%nat by lia. done. }
  rewrite Hc by done. cbn [result_bind].
  eapply safe_bind; [apply safe_unmask; [by apply Encrypt_length|lia|lia]|intros newPacket Hn; cbn beta in Hn].
  eapply safe_bind; [apply safe_index_True; lia|intros first _].
  assert (Hf : 0 <= Z.land first 3 < 4).
  { change 3 with (Z.ones 2). rewrite Z.land_ones by lia. apply Z.mod_pos_bound. lia. }
  destruct (Z.ltb_spec (hd_packetLen h + hd_hdrLen h) (hd_hdrLen h + (Z.land first 3 + 1))); [done|].
  eapply safe_bind. { unfold packet_number. eapply safe_bind; [apply safe_between_True; lia|]. intros b _. by apply safe_ok with (Q := fun _ => True). }
  intros number _.
  eapply safe_bind; [apply safe_between_True; lia|intros original Ho; cbn beta in Ho].
  eapply safe_bind; [apply safe_between_True; lia|intros head Hh; cbn beta in Hh].
  eapply safe_bind; [apply safe_from_True; lia|intros tail Ht; cbn beta in Ht].
  eapply safe_bind; [apply safe_between_True; [lia|rewrite !len_app; lia]|intros data _].
  eapply safe_bind; [apply safe_HKDFExpandLabel; lia|intros key Hkey; cbn beta in Hkey].
  eapply safe_bind; [apply safe_HKDFExpandLabel; lia|intros iv Hiv; cbn beta in Hiv].
  unfold AEADAESGCMTLS13. rewrite Hiv, Hc by done. cbn [Z.eqb Pos.eqb negb result_bind].
  unfold xorNonceAEAD_Open. apply Open_safe; [done|]. cbn [snd].
  unfold len in *. rewrite length_app, length_take, length_zip_with, length_drop, length_be_bytes. lia.
Qed.
End open.

(** ** Frames *)

Record fragment_wf (f : qCryptoFragment) : Prop := mkFragmentWf {
  fw_offset : 0 <= qf_offset f < 2 ^ 62;
  fw_length : qf_length f = len (qf_payload f);
  fw_short : len (qf_payload f) < 2 ^ 62;
  fw_bytes : Forall is_byte (qf_payload f)
}.

Lemma safe_skip_uvarints n l :
  Forall is_byte l -> safe (skip_uvarints n l) (fun r => Forall is_byte r /\ len r + Z.of_nat n <= len l).
Proof.
  revert l. induction n as [|n IH]; intros l Hl; [cbn; split; [done|lia]|].
  cbn [skip_uvarints]. readers. eapply safe_weaken; [by apply IH|]. cbn. intros r [? ?]. split; [done|lia].
Qed.

Ltac skips := eapply safe_bind; [apply safe_skip_uvarints; assumption|intros ? [? ?]].

Lemma safe_skip_ranges fuel count l :
  Forall is_byte l -> (length l < fuel)%nat -> safe (skip_ranges fuel count l) (fun r => Forall is_byte r /\ len r <= len l).
Proof.
  revert count l. induction fuel as [|fuel IH]; intros count l Hl Hf; [lia|].
  cbn [skip_ranges]. destruct (count <=? 0); [cbn; split; [done|lia]|]. skips.
  eapply safe_weaken; [apply IH; [done|unfold len in *; lia]|]. cbn. intros r [? ?]. split; [done|lia].
Qed.

Lemma seek_left n l : Forall is_byte l -> Forall is_byte (seek n l) /\ len (seek n l) <= len l.
Proof. intros Hl. split; [by apply Forall_drop|]. unfold seek, len. rewrite length_drop. lia. Qed.

Lemma safe_read_frame frameType l : Forall is_byte l ->
  safe (read_frame frameType l) (fun p => Forall fragment_wf p.1 /\ Forall is_byte p.2 /\ len p.2 <= len l).
Proof.
  intros Hl. unfold read_frame. destruct (_ || _); [cbn; split_and!; [constructor|done|lia]|].
  destruct (_ || _).
  { skips. readers. skips. eapply safe_bind; [apply safe_skip_ranges; [done|lia]|intros r [? ?]].
    case_match; [skips|]; cbn; (split_and!; [constructor|done|lia]). }
  destruct (_ =? _).
  { readers. cbn. destruct (seek_left z0 l1 ltac:(done)) as [? ?]. split_and!; [|done|lia]. constructor; [|constructor].
    constructor; cbn; [done|lia|lia|done]. }
  destruct (_ =? _); [|done].
  skips. readers. cbn. destruct (seek_left z l0 ltac:(done)) as [? ?]. split_and!; [constructor|done|lia].
Qed.

Lemma safe_read_frames fuel l : Forall is_byte l -> (length l < fuel)%nat ->
  safe (read_frames fuel l) (fun q => Forall fragment_wf q.2 /\ (q.1 = [] -> q.2 = [])).
Proof.
  revert l. induction fuel as [|fuel IH]; intros l Hl Hf; [lia|].
  cbn [read_frames]. destruct Hl as [|t l Ht Hl]; [cbn; split; [constructor|done]|].
  eapply safe_bind; [by apply safe_read_frame|intros p (Hp & Hb & Hn)].
  eapply safe_bind; [apply IH; [done|unfold len in *; cbn [length] in *; lia]|intros q [Hq _]].
  cbn. split; [by apply Forall_app|done].
Qed.

Lemma safe_frames_of l : Forall is_byte l -> safe (frames_of l) (fun q => Forall fragment_wf q.2 /\ (q.1 = [] -> q.2 = [])).
Proof. intros Hl. apply safe_read_frames; [done|lia]. Qed.

(** ** The client *)

Lemma index_Ok {A : Type} (l : list A) i : 0 <= i < len l -> exists a, index l i = Ok a.
Proof. intros Hi. pose proof (safe_index_True l i Hi) as Hs. unfold index in *. repeat case_match; try done. by eexists. Qed.

Lemma from_Ok {A : Type} (l : list A) i : 0 <= i <= len l -> exists r, from l i = Ok r.
Proof. intros Hi. pose proof (safe_from_True l i Hi) as Hs. unfold from in *. case_match; [done|]. by eexists. Qed.

Lemma between_Ok {A : Type} (l : list A) i j : 0 <= i <= j -> j <= len l -> exists r, between l i j = Ok r.
Proof. intros Hi Hj. pose proof (safe_between_True l i j Hi Hj) as Hs. unfold between in *. case_match; [done|]. by eexists. Qed.

(** A packet with a frame has a client. *)
Lemma quic_client_Ok fingerprint types : types <> [] -> exists client, quic_client fingerprint types = Ok client.
Proof.
  intros Ht. assert (0 < len types) by (destruct types; [done|rewrite len_cons; pose proof (len_nonneg types); lia]).
  destruct (index_Ok types 0) as [first Hf]; [lia|]. destruct (from_Ok types 1) as [others Ho]; [lia|].
  destruct (index_Ok types (len types - 1)) as [last Hl]; [lia|]. destruct (between_Ok types 0 (len types - 1)) as [before Hb]; [lia|lia|].
  unfold quic_client. rewrite Hf, Ho, Hl, Hb. cbn [result_bind]. repeat case_match; by eexists.
Qed.
