(* ===== verification/QuicHello.v ===== *)
(** * Putting a QUIC client hello together

    The parts of a client hello arrive in CRYPTO frames of one or more packets in any
    order.  [src/common/sniff/quic.go] joins the parts that follow each other from offset
    0 and writes the sum of all lengths into the record it hands to the parser.  Hence a
    complete hello is found in whatever order its parts came, an incomplete one is
    never taken for a complete one, and a part that came twice spoils the record. *)

From stdpp Require Import base strings list sorting.
From Stdlib Require Import ZArith Lia.
From S2P Require Import Prelude Codec GoSlice Ja3 Ja3Wire RouteContext Quic.

Open Scope Z_scope.

Implicit Types (f g : qCryptoFragment) (F G T : list qCryptoFragment).

(** ** Lengths *)

Fixpoint sum_length F : Z := match F with [] => 0 | f :: F => qf_length f + sum_length F end.

Lemma sum_length_app F G : sum_length (F ++ G) = sum_length F + sum_length G.
Proof. induction F as [|f F IH]; cbn; [lia|]. lia. Qed.

#[export] Instance sum_length_perm : Proper ((≡ₚ) ==> (=)) sum_length.
Proof. induction 1; cbn in *; lia. Qed.

Lemma sum_length_nonneg F : Forall fragment_wf F -> 0 <= sum_length F.
Proof.
  induction 1 as [|f F [_ Hl _ _] _ IH]; [done|]. cbn. pose proof (len_nonneg (qf_payload f)). lia.
Qed.

Lemma total_length_sum F : Forall fragment_wf F -> sum_length F < 2 ^ 64 -> total_length F = sum_length F.
Proof.
  intros HF Hs. unfold total_length. enough (Hg : forall n, 0 <= n -> n + sum_length F < 2 ^ 64 ->
    foldl (fun n f => wrap 64 (n + qf_length f)) n F = n + sum_length F) by (rewrite Hg by lia; lia).
  clear Hs. induction HF as [|f F [_ Hl _ _] HF IH]; intros n Hn Hw; [cbn; lia|].
  pose proof (len_nonneg (qf_payload f)). pose proof (sum_length_nonneg F HF). cbn in *.
  rewrite wrap_small by (unfold in_width; lia). rewrite IH by lia. lia.
Qed.

Definition positive F : list qCryptoFragment := List.filter (fun f => 0 <? qf_length f) F.

Lemma sum_length_positive F : Forall fragment_wf F -> sum_length (positive F) = sum_length F.
Proof.
  induction 1 as [|f F [_ Hl _ _] HF IH]; [done|]. unfold positive in *. cbn.
  pose proof (len_nonneg (qf_payload f)). destruct (Z.ltb_spec 0 (qf_length f)); cbn; lia.
Qed.

Lemma positive_app F G : positive (F ++ G) = positive F ++ positive G.
Proof. apply List.filter_app. Qed.

#[export] Instance positive_perm : Proper ((≡ₚ) ==> (≡ₚ)) positive.
Proof.
  induction 1; unfold positive in *; cbn; repeat case_match; try done.
  - by constructor.
  - apply Permutation_swap.
  - by etransitivity.
Qed.

Lemma elem_of_positive f F : f ∈ positive F <-> f ∈ F /\ 0 < qf_length f.
Proof. unfold positive. rewrite !list_elem_of_In, List.filter_In, Z.ltb_lt. done. Qed.

(** ** Joining *)

Lemma next_index f : fragment_wf f -> wrap 64 (qf_offset f + qf_length f) = qf_offset f + qf_length f.
Proof.
  intros [Ho Hl Hs _]. pose proof (len_nonneg (qf_payload f)). apply wrap_small. unfold in_width.
  change (2 ^ 64) with (4 * 2 ^ 62). lia.
Qed.

Lemma find_at i F f : List.find (starts_at i) F = Some f -> f ∈ F /\ qf_offset f = i /\ 0 < qf_length f.
Proof.
  intros Hf. apply List.find_some in Hf as [Hin Hs]. unfold starts_at in Hs. rewrite list_elem_of_In. split; [done|].
  apply andb_true_iff in Hs as [H1 H2]. split; [by apply Z.eqb_eq|by apply Z.ltb_lt].
Qed.

Lemma find_at_Some i F f : f ∈ F -> qf_offset f = i -> 0 < qf_length f -> exists g, List.find (starts_at i) F = Some g.
Proof.
  intros Hin Ho Hl. destruct (List.find (starts_at i) F) as [g|] eqn:Hf; [by exists g|].
  rewrite list_elem_of_In in Hin. pose proof (List.find_none _ _ Hf f Hin) as Hn. unfold starts_at in Hn.
  rewrite Ho, Z.eqb_refl in Hn. cbn in Hn. apply Z.ltb_ge in Hn. lia.
Qed.

(** What the loop writes, if it ends. *)
Fixpoint joined (fuel : nat) F (i : Z) : list Z :=
  match fuel with
  | O => []
  | S fuel' =>
      match List.find (starts_at i) F with
      | Some f => qf_payload f ++ joined fuel' F (wrap 64 (qf_offset f + qf_length f))
      | None => []
      end
  end.

Lemma joined_bytes fuel F i : Forall fragment_wf F -> Forall is_byte (joined fuel F i).
Proof.
  intros HF. revert i. induction fuel as [|fuel IH]; intros i; cbn; [constructor|].
  destruct (List.find (starts_at i) F) as [f|] eqn:Hf; [|constructor]. apply find_at in Hf as [Hin _].
  apply Forall_app. split; [|apply IH]. rewrite Forall_forall in HF. by apply HF.
Qed.

(** What is at or behind an offset. *)
Definition behind (i : Z) F : list qCryptoFragment := List.filter (fun f => i <=? qf_offset f) F.

(** A part that is used lies at the offset, and what is used after it lies behind it. *)
Lemma behind_step i F f : Forall fragment_wf F -> f ∈ F -> qf_offset f = i -> 0 < qf_length f ->
  (length (behind (i + qf_length f) F) < length (behind i F))%nat /\
  qf_length f + sum_length (behind (i + qf_length f) F) <= sum_length (behind i F).
Proof.
  intros HF Hin Ho Hl.
  assert (Hle : forall G, Forall fragment_wf G -> (length (behind (i + qf_length f) G) <= length (behind i G))%nat /\
    sum_length (behind (i + qf_length f) G) <= sum_length (behind i G)).
  { induction 1 as [|g G [_ Hg _ _] _ IH]; [cbn; lia|]. unfold behind in *. cbn. pose proof (len_nonneg (qf_payload g)).
    destruct (Z.leb_spec (i + qf_length f) (qf_offset g)), (Z.leb_spec i (qf_offset g)); cbn; lia. }
  revert HF. induction Hin as [f F|f g F Hin IH]; intros HF; inversion HF as [|? ? Hg HF']; subst.
  - destruct (Hle F HF'). unfold behind in *. cbn. destruct (Z.leb_spec (qf_offset f + qf_length f) (qf_offset f)); [lia|].
    destruct (Z.leb_spec (qf_offset f) (qf_offset f)); [cbn; lia|lia].
  - destruct (IH eq_refl Hl Hle HF'). destruct Hg as [_ Hg _ _]. unfold behind in *. cbn. pose proof (len_nonneg (qf_payload g)).
    destruct (Z.leb_spec (qf_offset f + qf_length f) (qf_offset g)), (Z.leb_spec (qf_offset f) (qf_offset g)); cbn; lia.
Qed.

Lemma joined_step fuel F i :
  joined (S fuel) F i =
  match List.find (starts_at i) F with
  | Some f => qf_payload f ++ joined fuel F (wrap 64 (qf_offset f + qf_length f))
  | None => []
  end.
Proof. done. Qed.

(** The loop ends: more fuel than there are parts left is enough. *)
Lemma join_Ok fuel F i : Forall fragment_wf F -> (length (behind i F) < fuel)%nat ->
  join_fragments fuel F i = Ok (joined fuel F i).
Proof.
  intros HF. revert i. induction fuel as [|fuel IH]; intros i Hf; [lia|].
  rewrite joined_step. cbn [join_fragments]. destruct (List.find (starts_at i) F) as [f|] eqn:Hfd; [|done].
  apply find_at in Hfd as (Hin & Ho & Hl). rewrite next_index by (rewrite Forall_forall in HF; by apply HF).
  destruct (behind_step i F f HF Hin Ho Hl). rewrite Ho, IH by lia. done.
Qed.

(** No part is used twice. *)
Lemma joined_length fuel F i : Forall fragment_wf F -> len (joined fuel F i) <= sum_length (behind i F).
Proof.
  intros HF. assert (Hn : forall i, 0 <= sum_length (behind i F)).
  { intros j. apply sum_length_nonneg. unfold behind. apply Forall_forall. intros f Hf. rewrite list_elem_of_In, List.filter_In, <- list_elem_of_In in Hf.
    rewrite Forall_forall in HF. apply HF, Hf. }
  revert i. induction fuel as [|fuel IH]; intros i; cbn; [apply Hn|].
  destruct (List.find (starts_at i) F) as [f|] eqn:Hfd; [|apply Hn].
  apply find_at in Hfd as (Hin & Ho & Hl). pose proof HF as HF'. rewrite Forall_forall in HF'. pose proof (HF' f Hin) as Hwf.
  rewrite next_index by done. rewrite len_app. destruct Hwf as [_ Hlen _ _]. rewrite <- Hlen.
  destruct (behind_step i F f HF Hin Ho Hl). specialize (IH (qf_offset f + qf_length f)). rewrite Ho in IH |- *. lia.
Qed.

(** ** Parts that make up a message *)

(** [T] lists the parts of [m] in order, from offset [o] on. *)
Inductive tiles : Z -> list qCryptoFragment -> list Z -> Prop :=
| tiles_nil o : tiles o [] []
| tiles_cons o f T m :
    qf_offset f = o -> 0 < qf_length f -> qf_length f = len (qf_payload f) ->
    tiles (o + qf_length f) T m -> tiles o (f :: T) (qf_payload f ++ m).

Lemma tiles_offset o T m f : tiles o T m -> f ∈ T -> o <= qf_offset f < o + len m.
Proof.
  induction 1 as [o|o g T m Ho Hp Hl HT IH]; intros Hf; [by apply not_elem_of_nil in Hf|].
  rewrite len_app. pose proof (len_nonneg m). apply elem_of_cons in Hf as [->|Hf]; [lia|]. specialize (IH Hf). lia.
Qed.

Lemma tiles_positive o T m f : tiles o T m -> f ∈ T -> 0 < qf_length f.
Proof.
  induction 1 as [o|o g T m Ho Hp Hl HT IH]; intros Hf; [by apply not_elem_of_nil in Hf|].
  apply elem_of_cons in Hf as [->|Hf]; [exact Hp|by apply IH].
Qed.

Lemma sum_length_pos G : G <> [] -> (forall f, f ∈ G -> 0 < qf_length f) -> 0 < sum_length G.
Proof.
  intros HG Hp. assert (Hn : forall G, (forall f, f ∈ G -> 0 < qf_length f) -> 0 <= sum_length G).
  { clear. induction G as [|f G IH]; intros Hp; [done|]. cbn. pose proof (Hp f ltac:(by left)).
    enough (0 <= sum_length G) by lia. apply IH. intros g Hg. apply Hp. by right. }
  destruct G as [|g G]; [done|]. cbn. pose proof (Hp g ltac:(by left)).
  enough (0 <= sum_length G) by lia. apply Hn. intros f Hf. apply Hp. by right.
Qed.

Lemma tiles_sum o T m : tiles o T m -> sum_length T = len m.
Proof. induction 1 as [o|o g T m Ho Hp Hl HT IH]; [done|]. cbn. rewrite len_app. lia. Qed.

Section joining.
Context F T (HF : Forall fragment_wf F).
Context (HFT : forall f, f ∈ F -> 0 < qf_length f -> f ∈ T).

(** Joining goes along the parts: [T'] are those from offset [o] on. *)
Lemma joined_along fuel o T' m :
  tiles o T' m -> (forall f, f ∈ T -> o <= qf_offset f -> f ∈ T') ->
  (exists r, m = joined fuel F o ++ r) /\
  ((forall f, f ∈ T -> f ∈ F) -> (forall f, f ∈ T' -> f ∈ T) -> (length T' < fuel)%nat -> joined fuel F o = m).
Proof.
  revert o T' m. induction fuel as [|fuel IH]; intros o T' m HT Hin; [split; [by exists m|lia]|].
  rewrite joined_step. destruct (List.find (starts_at o) F) as [f|] eqn:Hf.
  - apply find_at in Hf as (HfF & Ho & Hp). assert (Hf' : f ∈ T') by (apply Hin; [by apply HFT|lia]).
    destruct HT as [o|o g T' m Hg Hgp Hgl HT]; [by apply not_elem_of_nil in Hf'|].
    apply elem_of_cons in Hf' as [->|Hf']; [|pose proof (tiles_offset _ _ _ _ HT Hf'); lia].
    rewrite next_index by (rewrite Forall_forall in HF; by apply HF). rewrite Hg.
    destruct (IH (o + qf_length g) T' m HT) as [(r & Hr) Hall].
    { intros f HfT Hof. assert (f ∈ g :: T') as Hc by (apply Hin; [done|lia]). apply elem_of_cons in Hc as [->|Hc]; [lia|done]. }
    split; [exists r; by rewrite <- app_assoc, <- Hr|]. intros HTF HT'T Hl. f_equal. apply Hall; [done| |cbn in Hl; lia].
    intros f Hf'. apply HT'T. by right.
  - split; [by exists m|]. intros HTF HT'T _. destruct HT as [o|o g T' m Hg Hgp Hgl HT]; [done|]. exfalso.
    destruct (find_at_Some o F g) as [f Hf']; [|done|done|congruence]. apply HTF, HT'T. by left.
Qed.
End joining.

Lemma hello_record_Ok F : Forall fragment_wf F ->
  hello_record F =
    Ok ([22] ++ be_bytes 2 771 ++ be_bytes 2 (wrap 16 (total_length F)) ++ joined (S (length F)) F 0).
Proof.
  intros HF. unfold hello_record. rewrite join_Ok; [done|done|]. unfold behind.
  pose proof (List.filter_length_le (fun f => 0 <=? qf_offset f) F). lia.
Qed.

(** The parser on what was put together. *)
Definition hello_of F : result ClientHello := try buffer <- hello_record F; ja3_Compute buffer.

Lemma hello_record_of F : Forall fragment_wf F -> sum_length F < 65536 ->
  hello_record F = Ok (record_of (sum_length F) (joined (S (length F)) F 0)).
Proof.
  intros HF Hs. pose proof (sum_length_nonneg F HF). rewrite hello_record_Ok by done. rewrite total_length_sum by (done || lia).
  rewrite wrap_small by (by split). done.
Qed.

(** All parts, in any order and with empty ones in between, make up the message. *)
Lemma hello_complete F T m : Forall fragment_wf F -> positive F ≡ₚ T -> tiles 0 T m -> len m < 65536 -> hello_record F = Ok (record m).
Proof.
  intros HF HP HT Hm. assert (Hs : sum_length F = len m) by (rewrite <- sum_length_positive, HP by done; by eapply tiles_sum).
  rewrite hello_record_of by (done || lia). rewrite Hs. f_equal. rewrite record_record_of.
  assert (Hj : joined (S (length F)) F 0 = m); [|by rewrite Hj].
  destruct (joined_along F T HF) with (fuel := S (length F)) (o := 0) (T' := T) (m := m) as [_ Hj]; [|done|done|].
  - intros f Hf Hl. rewrite <- HP. by apply elem_of_positive.
  - apply Hj; [|done|]; [intros f Hf; rewrite <- HP in Hf; by apply elem_of_positive in Hf as [? _]|].
    rewrite <- HP. unfold positive. pose proof (List.filter_length_le (fun f => 0 <? qf_length f) F). lia.
Qed.

(** A part is missing: the parser refuses what is there. *)
Lemma hello_incomplete F G T h : Forall fragment_wf F -> hello_wf h -> positive F ++ G ≡ₚ T -> G <> [] ->
  tiles 0 T (handshake h) -> exists e, hello_of F = Err e.
Proof.
  intros HF Hwf HP HG HT. pose proof (wf_length h Hwf) as Hw. pose proof (sum_length_nonneg F HF).
  assert (HGs : 0 < sum_length G).
  { apply sum_length_pos; [done|]. intros f Hf. eapply tiles_positive; [done|]. rewrite <- HP. apply elem_of_app. by right. }
  assert (Hs : sum_length F + sum_length G = len (handshake h)).
  { rewrite <- (tiles_sum _ _ _ HT), <- HP, sum_length_app, sum_length_positive by done. done. }
  unfold hello_of. rewrite hello_record_of by (done || lia). cbn [result_bind]. unfold ja3_Compute. rewrite parseSegment_record by lia.
  destruct (Z.ltb_spec (len (joined (S (length F)) F 0)) (sum_length F)) as [|Hlen]; [eexists; reflexivity|].
  destruct (joined_along F T HF) with (fuel := S (length F)) (o := 0) (T' := T) (m := handshake h) as [(r & Hr) _]; [|done|done|].
  { intros f Hf Hl. rewrite <- HP. apply elem_of_app. left. by apply elem_of_positive. }
  rewrite <- (take_drop (Z.to_nat (sum_length F)) (joined _ F 0)), <- app_assoc in Hr.
  eapply parseHandshake_cut; [done|exact Hr|]. intros Hn. rewrite Hr in Hs. rewrite Hn, app_nil_r in Hs.
  unfold len in Hs. rewrite length_take in Hs. lia.
Qed.

(** ** Parts that came twice *)

Definition repeats F : Prop :=
  exists A f B g C, F = A ++ f :: B ++ g :: C /\ qf_offset f = qf_offset g /\ 0 < qf_length f /\ 0 < qf_length g.

Lemma repeats_app F G : repeats G -> repeats (F ++ G).
Proof. intros (A & f & B & g & C & -> & Hfg). exists (F ++ A), f, B, g, C. by rewrite <- app_assoc. Qed.

Lemma find_first i A f B g C : qf_offset f = qf_offset g -> 0 < qf_length f ->
  List.find (starts_at i) (A ++ f :: B ++ g :: C) = List.find (starts_at i) (A ++ f :: B ++ C).
Proof.
  intros Ho Hf. induction A as [|a A IH]; cbn; [|by rewrite IH]. destruct (starts_at i f) eqn:Hs; [done|].
  assert (Hg : starts_at i g = false).
  { unfold starts_at in *. rewrite <- Ho. destruct (Z.eqb_spec (qf_offset f) i); [|done]. cbn in Hs. apply Z.ltb_ge in Hs. lia. }
  induction B as [|b B IH]; cbn; [by rewrite Hg|]. by rewrite IH.
Qed.

(** The record says more bytes than it has. *)
Lemma hello_repeated F : Forall fragment_wf F -> repeats F -> sum_length F < 65536 ->
  hello_of F = parse_fails (LengthErr 2).
Proof.
  intros HF (A & f & B & g & C & -> & Ho & Hf & Hg) Hs. set (F' := A ++ f :: B ++ C).
  assert (Hj : forall fuel i, joined fuel (A ++ f :: B ++ g :: C) i = joined fuel F' i).
  { induction fuel as [|fuel IH]; intros i; [done|]. rewrite !joined_step, find_first by done. unfold F' in *.
    destruct (List.find _ _); [by rewrite IH|done]. }
  assert (HF' : Forall fragment_wf F') by (unfold F'; rewrite !Forall_app, !Forall_cons, !Forall_app, !Forall_cons in *; naive_solver).
  pose proof (sum_length_nonneg _ HF). unfold hello_of. rewrite hello_record_of, Hj by done. cbn [result_bind]. unfold ja3_Compute. rewrite parseSegment_record by lia.
  pose proof (joined_length (S (length (A ++ f :: B ++ g :: C))) F' 0 HF') as Hl.
  assert (Hb : behind 0 F' = F').
  { clear -HF'. unfold behind. induction HF' as [|a F [Ha _ _ _] _ IH]; cbn; [done|]. destruct (Z.leb_spec 0 (qf_offset a)); [by rewrite IH|lia]. }
  rewrite Hb in Hl. destruct (Z.ltb_spec (len (joined (S (length (A ++ f :: B ++ g :: C))) F' 0)) (sum_length (A ++ f :: B ++ g :: C))); [done|].
  exfalso. unfold F' in *. clear -Hl H0 Hg. rewrite !sum_length_app in *. cbn in *. rewrite !sum_length_app in *. cbn in *. lia.
Qed.

(** Neither the loop nor the parser panics. *)
Lemma hello_of_safe F : Forall fragment_wf F -> safe (hello_of F) (fun _ => True).
Proof.
  intros HF. unfold hello_of. rewrite hello_record_Ok by done. apply ja3_Compute_safe. rewrite !Forall_app. split_and!.
  - by repeat constructor.
  - apply be_bytes_bytes.
  - apply be_bytes_bytes.
  - by apply joined_bytes.
Qed.

(** Nothing was found yet: the parser refuses the empty record. *)
Lemma hello_empty : exists e, hello_of [] = Err e.
Proof. eexists. vm_compute. reflexivity. Qed.
