(* ===== verification/Sniff.v ===== *)
(** * Protocol sniffing

    [src/common/sniff]: the loop that reads a stream until a sniffer knows its protocol
    ([PeekStream]), the one over the sniffers of a packet ([PeekPacket]), and the
    sniffers that take bytes apart themselves.  A stream sniffer reads what was received
    so far, one chunk per buffer, as [io.MultiReader] does. *)

From stdpp Require Import base gmap strings list.
From Stdlib Require Import ZArith Lia.
From S2P Require Import Prelude Net Metadata Codec GoSlice Ja3 Ja3Wire RouteContext Quic QuicHello.

Open Scope Z_scope.

Definition ErrNeedMoreData : error := ENew "need more data".

(** The code of other packages that sniffers call. *)
Class SniffLibrary : Type := {
  (* errors, and sing's errors: joining, taking apart, and a cause with two errors *)
  errors_Is : error -> error -> bool;
  E_Errors : list error -> option error;
  E_Expand : option error -> list error;
  Cause1 : error -> error -> error;
  (* sing's rw.SkipN *)
  SkipN : nat -> list Z -> result (list Z);
  (* miekg/dns: the offset behind a name or record *)
  UnpackDomainName : list Z -> Z -> result Z;
  UnpackRR : list Z -> Z -> result Z;
  (* crypto/tls: the server name of the client hello *)
  HandshakeContext : list Z -> result string;
  (* badhttp: the host of the request; sing: its domain *)
  ReadRequest : list Z -> result string;
  ParseSocksaddr : string -> Socksaddr;
  (* the cryptography of QUIC *)
  sniff_crypto :: QUICCrypto
}.

Section sniffers.
Context `{SniffLibrary}.

Definition sniffed (protocol : string) (x : RouteContext) : option error * RouteContext :=
  (None, map_conn (conn_Protocol protocol) x).

Definition sniff_fails (e : error) (x : RouteContext) : option error * RouteContext := (Some e, x).

(** ** Streams *)

(** [Read] of [io.MultiReader] over readers of bytes: at most [n] bytes of the first
    reader that has some. *)
Fixpoint multi_Read (n : nat) (reader : list (list Z)) : result (list Z * list (list Z)) :=
  match reader with
  | [] => Err EOF
  | [] :: rest => multi_Read n rest
  | chunk :: rest => Ok (firstn n chunk, skipn n chunk :: rest)
  end.

Definition BitTorrent_header : list Z := bytes_of_string "BitTorrent protocol".

Definition sniff_BitTorrent (reader : list (list Z)) (x : RouteContext) : option error * RouteContext :=
  match multi_Read 1 reader with
  | Err err => sniff_fails (Cause1 ErrNeedMoreData err) x
  | Ok (first, rest) =>
      if negb (bool_decide (first = [19])) then sniff_fails ErrInvalid x
      else
        match multi_Read 19 rest with
        | Err err => sniff_fails (Cause1 ErrNeedMoreData err) x
        | Ok (protocol, _) =>
            if negb (bool_decide (protocol = firstn (length protocol) BitTorrent_header)) then sniff_fails ErrInvalid x
            else if (length protocol <? 19)%nat then sniff_fails ErrNeedMoreData x
            else sniffed "bittorrent" x
        end
  end.

(** One field of a header: its bytes, and whether its value is accepted. *)
Definition read_field (n : nat) (accept : Z -> bool) (k : list Z -> option error) (l : list Z) : option error :=
  match ReadBE n l with
  | Err err => Some (Cause1 ErrNeedMoreData err)
  | Ok (v, rest) => if accept v then k rest else Some ErrInvalid
  end.

Definition RDP_error (l : list Z) : option error :=
  read_field 1 (Z.eqb 3) (read_field 1 (Z.eqb 0) (read_field 2 (Z.eqb 19) (read_field 1 (Z.eqb 14)
    (read_field 1 (Z.eqb 224) (fun l =>
      match SkipN 5 l with
      | Err err => Some (Cause1 ErrNeedMoreData err)
      | Ok rest => read_field 1 (Z.eqb 1) (read_field 1 (fun _ => true) (read_field 1 (Z.eqb 8) (fun _ => None))) rest
      end))))) l.

Definition sniff_RDP (reader : list (list Z)) (x : RouteContext) : option error * RouteContext :=
  match RDP_error (concat reader) with
  | Some err => sniff_fails err x
  | None => sniffed "rdp" x
  end.

Definition SSH_prefix : list Z := bytes_of_string "SSH-2.0-".

(** [bufio.Reader.ReadLine], with the size of a default reader: a line that does not
    fit is cut, and the end of the input ends the last line. *)
Definition bufio_size : nat := 4096.

Definition drop_cr (l : list Z) : list Z :=
  match rev l with 13 :: rest => rev rest | _ => l end.

Fixpoint line_end (l : list Z) (i : nat) : option nat :=
  match l with [] => None | b :: rest => if b =? 10 then Some i else line_end rest (S i) end.

Definition ReadLine (l : list Z) : result (list Z) :=
  match line_end (firstn bufio_size l) 0 with
  | Some i => Ok (drop_cr (firstn i l))
  | None =>
      if (bufio_size <=? length l)%nat then Ok (drop_cr (firstn bufio_size l))
      else if isnil l then Err EOF else Ok l
  end.

Definition sniff_SSH (reader : list (list Z)) (x : RouteContext) : option error * RouteContext :=
  let l := concat reader in
  let prefix := firstn 8 l in
  if negb (bool_decide (prefix = firstn (length prefix) SSH_prefix)) then sniff_fails ErrInvalid x
  else if (length prefix <? 8)%nat then sniff_fails (Cause1 ErrNeedMoreData EOF) x
  else
    match ReadLine l with
    | Err err => sniff_fails err x
    | Ok firstLine =>
        (None, map_conn (conn_Client (string_of_bytes (skipn 8 firstLine))) (map_conn (conn_Protocol "ssh") x))
    end.

Definition sniff_TLSClientHello (reader : list (list Z)) (x : RouteContext) : option error * RouteContext :=
  match HandshakeContext (concat reader) with
  | Ok serverName => (None, map_conn (conn_SniffHost serverName) (map_conn (conn_Protocol "tls") x))
  | Err err => sniff_fails (if errors_Is err ErrUnexpectedEOF then Cause1 ErrNeedMoreData err else err) x
  end.

Definition sniff_HTTPHost (reader : list (list Z)) (x : RouteContext) : option error * RouteContext :=
  match ReadRequest (concat reader) with
  | Ok host => (None, map_conn (conn_SniffHost (sa_Fqdn (ParseSocksaddr host))) (map_conn (conn_Protocol "http") x))
  | Err err => sniff_fails (if errors_Is err ErrUnexpectedEOF then Cause1 ErrNeedMoreData err else err) x
  end.

(** ** DNS queries *)

Definition byte_at (l : list Z) (i : nat) : Z := nth i l 0.
Definition be_at (l : list Z) (i n : nat) : Z := be_value (firstn n (skipn i l)).

(** Every part of the header that is there. *)
Definition verifyDNSQueryHeader (header : list Z) : option error :=
  let b2 := byte_at header 2 in
  let b3 := byte_at header 3 in
  if (2 <? length header)%nat &&
     (negb (Z.land b2 128 =? 0) || negb (Z.land (Z.shiftr b2 3) 15 =? 0) || negb (Z.land b2 4 =? 0) || negb (Z.land b2 2 =? 0))
  then Some ErrInvalid
  else if (3 <? length header)%nat && (negb (Z.land b3 128 =? 0) || negb (Z.land b3 64 =? 0) || negb (Z.land b3 15 =? 0))
  then Some ErrInvalid
  else if (5 <? length header)%nat && (be_at header 4 2 =? 0) then Some ErrInvalid
  else if (7 <? length header)%nat && negb (be_at header 6 2 =? 0) then Some ErrInvalid
  else if (9 <? length header)%nat && negb (be_at header 8 2 =? 0) then Some ErrInvalid
  else None.

Definition dnsHeaderSize : Z := 12.

Fixpoint skip_questions (packet : list Z) (count : nat) (offset : Z) : result Z :=
  match count with
  | O => Ok offset
  | S count' =>
      try offset' <- UnpackDomainName packet offset;
      if Z.of_nat (length packet) <? offset' + 4 then Err ErrInvalid else skip_questions packet count' (offset' + 4)
  end.

Fixpoint skip_records (packet : list Z) (count : nat) (offset : Z) : result Z :=
  match count with
  | O => Ok offset
  | S count' => try offset' <- UnpackRR packet offset; skip_records packet count' offset'
  end.

Definition DomainNameQuery_error (packet : list Z) : option error :=
  if Z.of_nat (length packet) <? dnsHeaderSize then Some ErrInvalid
  else
    match verifyDNSQueryHeader packet with
    | Some err => Some err
    | None =>
        match (try offset <- skip_questions packet (Z.to_nat (be_at packet 4 2)) dnsHeaderSize;
               skip_records packet (Z.to_nat (be_at packet 10 2)) offset) with
        | Err err => Some err
        | Ok offset => if negb (offset =? Z.of_nat (length packet)) then Some ErrInvalid else None
        end
    end.

Definition sniff_DomainNameQuery (packet : list Z) (x : RouteContext) : option error * RouteContext :=
  match DomainNameQuery_error packet with
  | Some err => sniff_fails err x
  | None => sniffed "dns" x
  end.

Definition sniff_StreamDomainNameQuery (reader : list (list Z)) (x : RouteContext) : option error * RouteContext :=
  match ReadBE 2 (concat reader) with
  | Err err => sniff_fails (Cause1 ErrNeedMoreData err) x
  | Ok (len, rest) =>
      if len <? dnsHeaderSize then sniff_fails ErrInvalid x
      else
        match ReadFull (Z.to_nat len) rest with
        | Err err =>
            match verifyDNSQueryHeader rest with
            | Some headerErr => sniff_fails headerErr x
            | None => sniff_fails (Cause1 ErrNeedMoreData err) x
            end
        | Ok (buffer, _) => sniff_DomainNameQuery buffer x
        end
  end.

(** ** Packets *)

(** A packet sniffer that looks at the packet only. *)
Definition when (ok : bool) (protocol : string) (x : RouteContext) : option error * RouteContext :=
  if ok then sniffed protocol x else sniff_fails ErrInvalid x.

Definition sniff_STUNMessage (packet : list Z) : RouteContext -> option error * RouteContext :=
  when ((20 <=? length packet)%nat && (be_at packet 4 4 =? 554869826) &&
        (20 + be_at packet 2 2 <=? Z.of_nat (length packet))) "stun".

Definition sniff_DTLSRecord (packet : list Z) : RouteContext -> option error * RouteContext :=
  when ((13 <=? length packet)%nat && existsb (Z.eqb (byte_at packet 0)) [20; 21; 22; 23; 25] &&
        (byte_at packet 1 =? 254) && ((byte_at packet 2 =? 255) || (byte_at packet 2 =? 253))) "dtls".

Definition sniff_UDPTracker (packet : list Z) : RouteContext -> option error * RouteContext :=
  when ((16 <=? length packet)%nat && (be_at packet 0 8 =? 4497486125440) && (be_at packet 8 4 =? 0)) "bittorrent".

(** A delay is too long when it is more than 16 seconds of 65536 units. *)
Definition sniff_NTP (packet : list Z) : RouteContext -> option error * RouteContext :=
  let vn := Z.land (Z.shiftr (byte_at packet 0) 3) 7 in
  when ((48 <=? length packet)%nat && ((vn =? 3) || (vn =? 4)) && (Z.land (byte_at packet 0) 7 =? 3) &&
        (be_at packet 4 4 <=? 16 * 65536) && (be_at packet 8 4 <=? 16 * 65536)) "ntp".

(** The extensions of a uTP packet; [None] is out of fuel.  [Seek] may leave the packet. *)
Fixpoint UTP_extensions (fuel : nat) (extension : Z) (l : list Z) : option (option error) :=
  match fuel with
  | O => None
  | S fuel' =>
      if extension =? 0 then Some None
      else
        match l with
        | [] => Some (Some EOF)
        | extension' :: l1 =>
            if 4 <? extension' then Some (Some ErrInvalid)
            else
              match l1 with
              | [] => Some (Some EOF)
              | len :: l2 => UTP_extensions fuel' extension' (skipn (Z.to_nat len) l2)
              end
        end
  end.

Definition UTP_error (packet : list Z) : option error :=
  let version := Z.land (byte_at packet 0) 15 in
  let ty := Z.shiftr (byte_at packet 0) 4 in
  if (length packet <? 20)%nat then Some ErrInvalid
  else if negb (version =? 1) || (4 <? ty) then Some ErrInvalid
  else
    match UTP_extensions (S (length packet)) (byte_at packet 1) (skipn 20 packet) with
    | Some err => err
    | None => Some (EPanic "out of fuel")
    end.

Definition sniff_UTP (packet : list Z) (x : RouteContext) : option error * RouteContext :=
  match UTP_error packet with
  | Some err => sniff_fails err x
  | None => sniffed "bittorrent" x
  end.

(** The parts of a hello that is not complete are kept in the metadata for the next
    packet.  The error of a panic stands for the panic. *)
Definition sniff_QUICClientHello (packet : list Z) (x : RouteContext) : option error * RouteContext :=
  match (try decrypted <- open_packet packet; frames_of decrypted) with
  | Err err => sniff_fails err x
  | Ok (frameTypeList, found) =>
      let fragments := found ++ sf_SniffContext (rx_sniff x) in
      match hello_record fragments with
      | Err err => (Some err, set_SniffContext [] x)
      | Ok buffer =>
          let x1 := map_conn (conn_Protocol "quic") (set_SniffContext [] x) in
          match ja3_Compute buffer with
          | Err err =>
              if panics err then (Some err, x1)
              else (Some (Cause1 ErrNeedMoreData err), set_SniffContext fragments x1)
          | Ok fingerprint =>
              let x2 := map_conn (conn_SniffHost (ServerName fingerprint)) x1 in
              if negb (empty_string (cf_Client (rx_conn x2))) then (None, x2)
              else match quic_client fingerprint frameTypeList with
                   | Ok client => (None, map_conn (conn_Client client) x2)
                   | Err err => (Some err, x2)
                   end
          end
      end
  end.

Definition sniff_QUICShortHeader (packet : list Z) (x : RouteContext) : option error * RouteContext :=
  if isnil packet then sniff_fails (ENew "empty packet") x
  else if negb (Z.land (byte_at packet 0) 192 =? 64) then sniff_fails (ENew "not a QUIC short header packet") x
  else sniffed "quic" x.

(** ** Peeking *)

Definition run_StreamSniffer (s : StreamSniffer) : list (list Z) -> RouteContext -> option error * RouteContext :=
  match s with
  | TLSClientHello => sniff_TLSClientHello
  | HTTPHost => sniff_HTTPHost
  | StreamDomainNameQuery => sniff_StreamDomainNameQuery
  | BitTorrent => sniff_BitTorrent
  | SSH => sniff_SSH
  | RDP => sniff_RDP
  end.

Definition run_PacketSniffer (s : PacketSniffer) : list Z -> RouteContext -> option error * RouteContext :=
  match s with
  | QUICClientHello => sniff_QUICClientHello
  | QUICShortHeader => sniff_QUICShortHeader
  | DomainNameQuery => sniff_DomainNameQuery
  | STUNMessage => sniff_STUNMessage
  | UTP => sniff_UTP
  | UDPTracker => sniff_UDPTracker
  | DTLSRecord => sniff_DTLSRecord
  | NTP => sniff_NTP
  end.

(** Server-first protocols: SMTP, IMAP and POP3. *)
Definition Skip (x : RouteContext) : bool :=
  existsb (Z.eqb (sa_Port (cf_Destination (rx_conn x)))) [25; 465; 587; 143; 993; 110; 995].

(** What a read of the connection gives: bytes, or an error, which the deadline of the
    sniffing makes of a client that sends nothing; or no deadline can be set. *)
Inductive ReadEvent : Type := ReadData (data : list Z) | ReadError (e : error) | DeadlineError (e : error).

(** One round over the sniffers. *)
Fixpoint try_sniffers (sniffers : list StreamSniffer) (reader : list (list Z)) (sniffError : option error) (x : RouteContext)
    : option error * RouteContext :=
  match sniffers with
  | [] => (sniffError, x)
  | sniffer :: rest =>
      let '(err, x') := run_StreamSniffer sniffer reader x in
      match err with
      | None => (None, x')
      | Some e => try_sniffers rest reader (E_Errors (E_Expand sniffError ++ E_Expand (Some e))) x'
      end
  end.

Definition needs_more (err : option error) : bool :=
  match err with Some e => errors_Is e ErrNeedMoreData | None => false end.

(** The rounds of [PeekStream]: [first] is its first round.  The result is the error, the
    metadata, the buffer and the reads that are left; a client that sends nothing more
    ends the reading with [timeout]. *)
Fixpoint peek_rounds (timeout : error) (sniffers : list StreamSniffer) (buffers : list (list Z)) (first : bool)
    (sniffError : option error) (buffer : list Z) (x : RouteContext) (reads : list ReadEvent)
    : option error * RouteContext * list Z * list ReadEvent :=
  let read_fails e rest :=
    (if first then Some (ECause e "read payload") else sniffError, x, buffer, rest) in
  match reads with
  | [] => read_fails timeout []
  | ReadError e :: rest => read_fails e rest
  | DeadlineError e :: rest => (Some (ECause e "set read deadline"), x, buffer, rest)
  | ReadData data :: rest =>
      let buffer' := buffer ++ data in
      let '(err, x') := try_sniffers sniffers (buffers ++ [buffer']) None x in
      if needs_more err then peek_rounds timeout sniffers buffers false err buffer' x' rest
      else (err, x', buffer', rest)
  end.

Definition PeekStream (timeout : error) (sniffers : list StreamSniffer) (buffers : list (list Z)) (x : RouteContext)
    (reads : list ReadEvent) : option error * RouteContext * list Z * list ReadEvent :=
  peek_rounds timeout sniffers buffers true None [] x reads.

Fixpoint PeekPacket_loop (sniffers : list PacketSniffer) (packet : list Z) (sniffError : list error) (x : RouteContext)
    : option error * RouteContext :=
  match sniffers with
  | [] => (E_Errors sniffError, x)
  | sniffer :: rest =>
      let '(err, x') := run_PacketSniffer sniffer packet x in
      match err with
      | None => (None, x')
      | Some e => PeekPacket_loop rest packet (sniffError ++ [e]) x'
      end
  end.

Definition PeekPacket (packet : list Z) (sniffers : list PacketSniffer) (x : RouteContext) : option error * RouteContext :=
  PeekPacket_loop sniffers packet [] x.
End sniffers.

(** * Sniffing the packets of a QUIC connection

    [QUICClientHello] of [src/common/sniff/quic.go] over the packets of a connection, which
    pass the parts of an incomplete client hello to each other in the metadata. *)

(** The parts that are kept in the metadata. *)
Definition context (x : RouteContext) : list qCryptoFragment := sf_SniffContext (rx_sniff x).

(** The cryptography does as it is documented, and [Cause1] returns an error. *)
Class SniffLaws `{L : SniffLibrary} : Prop := {
  crypto_laws :: @QUICCryptoLaws (@sniff_crypto L);
  Cause1_error e : panics (Cause1 ErrNeedMoreData e) = false
}.

Section packets.
Context `{SniffLibrary}.

(** The parts of a hello in a packet. *)
Definition found_in (packet : list Z) (F : list qCryptoFragment) : Prop :=
  exists decrypted types, open_packet packet = Ok decrypted /\ frames_of decrypted = Ok (types, F).

(** The packets one after the other: the errors and the metadata. *)
Fixpoint sniff_packets (packets : list (list Z)) (x : RouteContext) : list (option error) * RouteContext :=
  match packets with
  | [] => ([], x)
  | packet :: rest =>
      let '(err, x1) := sniff_QUICClientHello packet x in
      let '(errs, x2) := sniff_packets rest x1 in
      (err :: errs, x2)
  end.

Lemma sniff_packets_snoc packets packet x errs x1 err x2 :
  sniff_packets packets x = (errs, x1) -> sniff_QUICClientHello packet x1 = (err, x2) ->
  sniff_packets (packets ++ [packet]) x = (errs ++ [err], x2).
Proof.
  revert x errs. induction packets as [|p packets IH]; intros x errs Hs Hp; cbn [sniff_packets app] in *; [by simplify_eq; rewrite Hp|].
  destruct (sniff_QUICClientHello p x) as [e x']. destruct (sniff_packets packets x') as [es x''] eqn:Hes. simplify_eq.
  by rewrite (IH x' es Hes Hp).
Qed.

Definition asks_more (err : option error) : Prop := exists e, err = Some (Cause1 ErrNeedMoreData e).

Definition sniff_panics (err : option error) : bool := match err with Some e => panics e | None => false end.

(** What was found so far is not a client hello. *)
Definition waiting (x : RouteContext) : Prop :=
  Forall fragment_wf (context x) /\ exists e, hello_of (context x) = Err e.

Lemma waiting_empty x : context x = [] -> waiting x.
Proof. intros Hx. unfold waiting. rewrite Hx. split; [constructor|apply hello_empty]. Qed.

(** Parts are left in the metadata as long as they do not make up a hello. *)
Lemma sniff_incomplete packet x F :
  found_in packet F -> Forall fragment_wf (F ++ context x) -> (exists e, hello_of (F ++ context x) = Err e) ->
  asks_more (sniff_QUICClientHello packet x).1 /\ context (sniff_QUICClientHello packet x).2 = F ++ context x.
Proof.
  intros (d & types & Ho & Hf) HF [e He]. pose proof (hello_of_safe _ HF) as Hs. rewrite He in Hs. cbn in Hs.
  unfold hello_of in He. unfold sniff_QUICClientHello; change (sf_SniffContext (rx_sniff x)) with (context x).
  rewrite Ho. cbn [result_bind]. rewrite Hf. rewrite hello_record_Ok in He |- * by done. cbn [result_bind] in He.
  rewrite He, Hs. split; [by exists e|done].
Qed.

Context `{!SniffLaws}.

Lemma found_wf packet F : Forall is_byte packet -> found_in packet F -> Forall fragment_wf F.
Proof.
  intros Hp (d & types & Ho & Hf). pose proof (safe_open_packet packet Hp) as Hs. rewrite Ho in Hs.
  pose proof (safe_frames_of d Hs) as Hq. rewrite Hf in Hq. apply Hq.
Qed.

Lemma found_all_wf packets Fs : Forall (Forall is_byte) packets -> Forall2 found_in packets Fs -> Forall fragment_wf (concat Fs).
Proof.
  intros Hb Hf. induction Hf as [|packet F packets Fs Hp Hf IH]; [constructor|].
  apply Forall_cons in Hb as [Hb Hbs]. cbn. apply Forall_app. split; [by eapply found_wf|by apply IH].
Qed.

(** Every packet leaves a waiting sniffer and no panic. *)
Lemma sniff_waiting packet x : Forall is_byte packet -> waiting x ->
  sniff_panics (sniff_QUICClientHello packet x).1 = false /\ waiting (sniff_QUICClientHello packet x).2.
Proof.
  intros Hp [Hw [e He]]. unfold sniff_QUICClientHello; change (sf_SniffContext (rx_sniff x)) with (context x).
  pose proof (safe_open_packet packet Hp) as Ho. destruct (open_packet packet) as [d|eo]; cbn [result_bind safe] in *; [|by split; [|split; [|exists e]]].
  pose proof (safe_frames_of d Ho) as Hf. destruct (frames_of d) as [[types F]|ef]; cbn [safe fst snd] in *; [|by split; [|split; [|exists e]]].
  destruct Hf as [HF Ht]. assert (HFx : Forall fragment_wf (F ++ context x)) by (by apply Forall_app).
  pose proof (hello_of_safe _ HFx) as Hs. destruct (hello_of (F ++ context x)) as [fingerprint|ej] eqn:Hj; unfold hello_of in Hj.
  all: rewrite hello_record_Ok in Hj |- * by done; cbn [result_bind] in Hj; rewrite Hj.
  2: { cbn in Hs. rewrite Hs. split; [apply Cause1_error|]. split; [done|]. exists ej. unfold hello_of.
       change (context _) with (F ++ context x). by rewrite hello_record_Ok. }
  destruct (negb (empty_string _)); [split; [done|by apply waiting_empty]|].
  assert (Hn : types <> []) by (intros Hn; rewrite (Ht Hn) in Hj, HFx; cbn [app] in Hj, HFx; unfold hello_of in He; rewrite hello_record_Ok in He by done; cbn [result_bind app] in He; congruence).
  destruct (quic_client_Ok fingerprint types Hn) as [client ->]. split; [done|by apply waiting_empty].
Qed.

Lemma packets_waiting packets x : Forall (Forall is_byte) packets -> waiting x ->
  Forall (fun err => sniff_panics err = false) (sniff_packets packets x).1.
Proof.
  intros Hp. revert x. induction Hp as [|packet packets Hb Hp IH]; intros x Hx; cbn; [constructor|].
  destruct (sniff_waiting packet x Hb Hx) as [He Hw]. destruct (sniff_QUICClientHello packet x) as [err x1]. cbn in *.
  specialize (IH x1 Hw). destruct (sniff_packets packets x1) as [errs x2]. by constructor.
Qed.

(** ** A client hello in several packets *)

Section hello.
Context (h : Hello) (Hwf : hello_wf h) (T : list qCryptoFragment) (HT : tiles 0 T (handshake h)).

Lemma packets_incomplete packets Fs x G :
  Forall2 found_in packets Fs -> Forall (Forall is_byte) packets -> Forall fragment_wf (context x) ->
  positive (context x ++ concat Fs) ++ G ≡ₚ T -> G <> [] ->
  Forall asks_more (sniff_packets packets x).1 /\ Forall fragment_wf (context (sniff_packets packets x).2) /\
  context (sniff_packets packets x).2 ≡ₚ context x ++ concat Fs.
Proof.
  intros Hfound. revert x. induction Hfound as [|packet F packets Fs Hf Hfound IH]; intros x Hb Hx HP HG.
  { cbn. split_and!; [constructor|done|by rewrite app_nil_r]. }
  apply Forall_cons in Hb as [Hb Hbs]. pose proof (found_wf packet F Hb Hf) as HF.
  assert (HFx : Forall fragment_wf (F ++ context x)) by (by apply Forall_app).
  destruct (sniff_incomplete packet x F Hf HFx) as [Hm Hc].
  { eapply (hello_incomplete _ (positive (concat Fs) ++ G) T h); [done|done| | |done].
    - rewrite <- HP. cbn [concat]. rewrite !positive_app. solve_Permutation.
    - destruct (positive (concat Fs)); [done|done]. }
  cbn [sniff_packets]. destruct (sniff_QUICClientHello packet x) as [err x1]. cbn [fst snd] in *.
  destruct (IH x1) as (Hms & Hw & Hp); [done|by rewrite Hc| |done|].
  { rewrite <- HP, Hc. cbn [concat]. rewrite !positive_app. solve_Permutation. }
  destruct (sniff_packets packets x1) as [errs x2]. cbn [fst snd] in *. split_and!; [by constructor|done|].
  rewrite Hp, Hc. cbn [concat]. solve_Permutation.
Qed.

Lemma packet_completes packet F x :
  found_in packet F -> Forall is_byte packet -> Forall fragment_wf (context x) -> positive (F ++ context x) ≡ₚ T -> F <> [] ->
  let '(err, x') := sniff_QUICClientHello packet x in
  err = None /\ context x' = [] /\ cf_Protocol (rx_conn x') = "quic"%string /\ cf_SniffHost (rx_conn x') = ServerName (fingerprint h).
Proof.
  intros Hf Hb Hx HP HF. pose proof (found_wf packet F Hb Hf) as HFw. destruct Hf as (d & types & Ho & Hf).
  assert (Hrec : hello_record (F ++ context x) = Ok (record (handshake h)))
    by (apply (hello_complete _ T); [by apply Forall_app|done|done|by apply wf_length]).
  pose proof (safe_open_packet packet Hb) as Hs. rewrite Ho in Hs. pose proof (safe_frames_of d Hs) as Hq. rewrite Hf in Hq.
  destruct Hq as [_ Ht]. cbn [fst snd] in Ht.
  unfold sniff_QUICClientHello; change (sf_SniffContext (rx_sniff x)) with (context x). rewrite Ho. cbn [result_bind]. rewrite Hf, Hrec, ja3_Compute_wire by done.
  destruct (negb (empty_string _)); [done|].
  destruct (quic_client_Ok (fingerprint h) types) as [client ->]; [|done]. intros ->. by apply HF, Ht.
Qed.
End hello.
End packets.
