(* ===== verification/Route.v ===== *)
(** * Routing of connections

    [src/route/route.go] with [processQUICSniff] of [router.go] and [searchProcessInfo] of
    [process_cache.go]: how the rules of the router choose an outbound for a connection or
    a flow of packets, and how a packet is judged before there is a connection
    ([PreMatch]).

    What arrives on a connection is a list of read events; sniffing takes events from it
    and leaves buffers, which are put in front of what is left. *)

From stdpp Require Import base gmap strings list.
From Stdlib Require Import ZArith Lia.
From S2P Require Import Prelude Net Metadata RuleMatch RuleItems DnsMode RouteContext Sniff.
From S2P Require Import Lifecycle StartOrder Managers.

Open Scope Z_scope.

Inductive PreMatchAction : Type :=
| PreMatchContinue
| PreMatchFlow
| PreMatchReject
| PreMatchDrop
| PreMatchBypass
| PreMatchHijackDNS.

#[export] Instance PreMatchAction_eq_dec : EqDecision PreMatchAction.
Proof. solve_decision. Defined.

(** ** What the router asks of others *)

(** sing: socket addresses and names. *)
Class RouteLibrary : Type := {
  socks_IsValid : Socksaddr -> bool;
  socks_IsIPv4 : Socksaddr -> bool;
  IsDomainName : string -> bool;
  (* the destinations of multiplexed connections *)
  mux_Destination : string;
  vmess_MuxDestination : string;
  uot_MagicAddress : string;
  uot_LegacyMagicAddress : string
}.

(** The interfaces an outbound may implement besides [Outbound]. *)
Class OutboundInterfaces : Type := {
  ob_Network : Outbound -> list string;
  asOutboundGroup : Outbound -> option (string -> option Outbound);
  asConnectionGroup : Outbound -> option (RouteContext -> option Outbound);
  asPreMatchGroup : Outbound -> option (RouteContext -> forall S : Type,
    (Outbound -> S -> option Outbound * PreMatchAction * S) -> S -> option Outbound * PreMatchAction * S);
  asFlowOutbound : Outbound -> option (string -> Addr -> PreMatchAction);
  asFlowResolver : Outbound -> option DNSQueryOptions
}.

(** The DNS router and the fake addresses of its transports. *)
Class RouteDNS : Type := {
  dns_Lookup : InboundContext -> string -> DNSQueryOptions -> result (list Addr);
  dns_LookupReverseMapping : Addr -> option string;
  FakeIPStore : option ((Addr -> bool) * (Addr -> option string))
}.

(** The owners of connections and the neighbors on the network.  A searcher is asked for
    the owner, or for everything about it. *)
Class Searchers : Type := {
  processSearcher : option (bool -> string -> Socksaddr -> Socksaddr -> result ConnectionOwner);
  processLookupOwner : bool;
  MyInterfaceAddress : list Addr;
  neighborResolver : option ((Addr -> option (list Z)) * (Addr -> option string))
}.

(** The cache of sniffed names: [Store], [LoadAndRefresh]. *)
Class QUICSniffCache (Q : Type) : Type := {
  quic_Store : Socksaddr * Socksaddr -> string -> Q -> Q;
  quic_LoadAndRefresh : Socksaddr * Socksaddr -> Q -> option string * Q
}.

(** A rule of the router, with its action and what the action remembers. *)
Record RouterRule (I : Type) : Type := mkRouterRule {
  rr_rule : Rule I;
  rr_action : RuleAction;
  rr_disabled : bool;
  rr_dropCounter : list Z
}.
Arguments mkRouterRule {I}.
Arguments rr_rule {I}.
Arguments rr_action {I}.
Arguments rr_disabled {I}.
Arguments rr_dropCounter {I}.

Definition NetworkTCP : string := "tcp".
Definition NetworkUDP : string := "udp".
Definition NetworkICMP : string := "icmp".

Definition upcase (a : Ascii.ascii) : Ascii.ascii :=
  let n := Ascii.nat_of_ascii a in
  if ((97 <=? n) && (n <=? 122))%nat then Ascii.ascii_of_nat (n - 32) else a.

(** [strings.ToUpper] of a network. *)
Fixpoint ToUpper (s : string) : string :=
  match s with EmptyString => EmptyString | String a s' => String (upcase a) (ToUpper s') end.

Definition zero_socks : Socksaddr := mkSocksaddr AddrInvalid 0 "".

#[export] Instance Socksaddr_eq_dec : EqDecision Socksaddr.
Proof. solve_decision. Defined.

Section router.
Context {I : Type} `{RuleItem I} `{Env} `{SniffLibrary} `{RouteLibrary} `{OutboundInterfaces} `{RouteDNS} `{Searchers}.
Context {Q : Type} `{QUICSniffCache Q}.
Context {A : Type} (rules : list (RouterRule I)) (w : managers (A := A)).
Implicit Types (x : RouteContext) (o : Outbound).

Definition Destination x : Socksaddr := cf_Destination (rx_conn x).
Definition set_Destination (d : Socksaddr) x : RouteContext := map_conn (conn_Destination d) x.

(** ** Preparing the metadata *)

Definition IsLoopback (a : Addr) : bool :=
  match addr_Unmap a with
  | Addr4 v => Z.shiftr v 24 =? 127
  | Addr6 v _ => v =? 1
  | AddrInvalid => false
  end.

Definition isLocalSource (source : Addr) : bool :=
  IsLoopback source || existsb (fun a => bool_decide (a = source)) MyInterfaceAddress ||
  existsb (fun i => existsb (fun p => bool_decide (prefix_addr p = source)) (if_Addresses i)) FinderInterfaces.

Definition searchProcessInfo x : RouteContext :=
  match processSearcher with
  | None => x
  | Some find =>
      if nonnone (cf_ProcessInfo (rx_conn x)) || negb (isLocalSource (sa_Addr (cf_Source (rx_conn x)))) then x
      else
        let origin := if socks_IsValid (rx_OriginDestination x) then rx_OriginDestination x
                      else if IsIP (Destination x) then Destination x else zero_socks in
        let network := cf_Network (rx_conn x) in
        let source := cf_Source (rx_conn x) in
        match find false network source origin with
        | Err _ => x
        | Ok info =>
            let x' := map_conn (conn_ProcessInfo (Some info)) x in
            if processLookupOwner
            then map_conn (conn_ProcessInfoResolver (Some (Some
                   (match find true network source origin with Ok full => full | Err _ => info end)))) x'
            else x'
        end
  end.

Definition searchNeighbor x : RouteContext :=
  match neighborResolver with
  | Some (LookupMAC, LookupHostname) =>
      let source := sa_Addr (cf_Source (rx_conn x)) in
      if isnone (cf_SourceMACAddress (rx_conn x)) && addr_IsValid source then
        let x' := match LookupMAC source with Some mac => map_conn (conn_SourceMACAddress (Some mac)) x | None => x end in
        match LookupHostname source with Some name => map_conn (conn_SourceHostname name) x' | None => x' end
      else x
  | None => x
  end.

Definition set_IPVersion_of_destination x : RouteContext :=
  if socks_IsIPv4 (Destination x) then map_conn (conn_IPVersion 4) x
  else if IsIPv6 (Destination x) then map_conn (conn_IPVersion 6) x
  else x.

Definition is_fake (a : Addr) : option (Addr -> option string) :=
  match FakeIPStore with
  | Some (Contains, Lookup) => if addr_IsValid a && Contains a then Some Lookup else None
  | None => None
  end.

Definition prepareMatchMetadata x : result RouteContext :=
  let x1 := searchNeighbor (searchProcessInfo x) in
  let d := Destination x1 in
  match is_fake (sa_Addr d) with
  | Some Lookup =>
      match Lookup (sa_Addr d) with
      | None => Err (ENew "missing fakeip record, try enable `experimental.cache_file`")
      | Some domain =>
          Ok (set_IPVersion_of_destination
            (if empty_string domain then x1
             else set_FakeIP true (set_Destination (mkSocksaddr AddrInvalid (sa_Port d) domain) (set_OriginDestination d x1))))
      end
  | None =>
      Ok (set_IPVersion_of_destination
        (if empty_string (cf_Domain (rx_conn x1)) then
           match dns_LookupReverseMapping (sa_Addr d) with
           | Some domain => map_conn (conn_Domain domain) x1
           | None => x1
           end
         else x1))
  end.

(** ** Outbounds *)

Definition isPassOutbound (tag : string) : bool :=
  if empty_string tag then false
  else
    match OutboundManager_Outbound tag w with
    | None => false
    | Some o =>
        if bool_decide (ob_Type o = "selector"%string) then
          match asOutboundGroup o with
          | None => false
          | Some selected =>
              match selected NetworkTCP with Some o' => bool_decide (ob_Type o' = "pass"%string) | None => false end
          end
        else bool_decide (ob_Type o = "pass"%string)
    end.

Definition not_supported (network tag : string) : error :=
  ENew (ToUpper network +:+ " is not supported by outbound: " +:+ tag).

(** The member a group uses for a connection. *)
Definition group_next (group : Outbound) (selected : string -> option Outbound) (network : string) x : option Outbound :=
  match asConnectionGroup group with
  | Some select => select (map_conn (conn_Network network) x)
  | None => selected network
  end.

(** [resolveOutbound]; [None] is out of fuel. *)
Fixpoint resolve_loop (fuel : nat) o (network : string) x (chain : list Outbound) : option (result (list Outbound)) :=
  match fuel with
  | O => None
  | S fuel' =>
      match asOutboundGroup o with
      | Some selected =>
          match group_next o selected network x with
          | None => Some (Err (not_supported network (ob_Tag o)))
          | Some next => resolve_loop fuel' next network x (chain ++ [next])
          end
      | None =>
          if bool_decide (network ∈ ob_Network o) then Some (Ok chain) else Some (Err (not_supported network (ob_Tag o)))
      end
  end.

Definition resolveOutbound (fuel : nat) (o : option Outbound) (network : string) x : option (result (list Outbound)) :=
  match o with
  | None => Some (Err (EPanic "nil outbound"))
  | Some o => resolve_loop fuel o network x [o]
  end.

(** ** Actions that change the metadata *)

Definition applyRouteOptionsOverride (ro : RuleActionRouteOptions) x : RouteContext :=
  let x1 := if socks_IsValid (rp_OverrideAddress ro)
            then set_Destination (mkSocksaddr (sa_Addr (rp_OverrideAddress ro)) (sa_Port (Destination x)) (sa_Fqdn (rp_OverrideAddress ro))) x
            else x in
  let x2 := if 0 <? rp_OverridePort ro
            then set_Destination (mkSocksaddr (sa_Addr (Destination x1)) (rp_OverridePort ro) (sa_Fqdn (Destination x1))) x1
            else x1 in
  if 0 <? rp_UDPTimeout ro then
    let d := rx_dial x2 in
    with_dial x2 (mkDialFields (df_UDPDisableDomainUnmapping d) (df_UDPConnect d) (rp_UDPTimeout ro) (df_TLSFragment d)
      (df_TLSFragmentFallbackDelay d) (df_TLSRecordFragment d) (df_TLSSpoof d) (df_TLSSpoofMethod d)
      (df_NetworkStrategy d) (df_NetworkType d) (df_FallbackNetworkType d) (df_FallbackDelay d))
  else x2.

(** The options of a rule, in [matchRule]. *)
Definition dial_options (ro : RuleActionRouteOptions) (d : DialFields) : DialFields :=
  mkDialFields
    (df_UDPDisableDomainUnmapping d || rp_UDPDisableDomainUnmapping ro)
    (df_UDPConnect d || rp_UDPConnect ro)
    (if 0 <? rp_UDPTimeout ro then rp_UDPTimeout ro else df_UDPTimeout d)
    (df_TLSFragment d || rp_TLSFragment ro)
    (if rp_TLSFragment ro then rp_TLSFragmentFallbackDelay ro else df_TLSFragmentFallbackDelay d)
    (df_TLSRecordFragment d || rp_TLSRecordFragment ro)
    (if empty_string (rp_TLSSpoof ro) then df_TLSSpoof d else rp_TLSSpoof ro)
    (if empty_string (rp_TLSSpoof ro) then df_TLSSpoofMethod d else rp_TLSSpoofMethod ro)
    (match rp_NetworkStrategy ro with Some s => Some s | None => df_NetworkStrategy d end)
    (if isnil (rp_NetworkType ro) then df_NetworkType d else rp_NetworkType ro)
    (if isnil (rp_FallbackNetworkType ro) then df_FallbackNetworkType d else rp_FallbackNetworkType ro)
    (if rp_FallbackDelay ro =? 0 then df_FallbackDelay d else rp_FallbackDelay ro).

Definition apply_route_options (ro : RuleActionRouteOptions) x : RouteContext :=
  let x1 := if (socks_IsValid (rp_OverrideAddress ro) || (0 <? rp_OverridePort ro)) &&
               negb (socks_IsValid (rx_RouteOriginalDestination x))
            then set_RouteOriginalDestination (Destination x) x else x in
  let x2 := if socks_IsValid (rp_OverrideAddress ro) then map_conn (conn_DestinationAddresses []) x1 else x1 in
  let x3 := applyRouteOptionsOverride ro x2 in
  with_dial x3 (dial_options ro (rx_dial x3)).

Definition isAllIPv4 (addresses : list Addr) : bool := forallb addr_Is4 addresses.
Definition isAllIPv6 (addresses : list Addr) : bool := forallb addr_Is6 addresses.

Definition resolve_options (action : RuleActionResolve) (transport : option DNSTransport) : DNSQueryOptions :=
  mkQueryOptions transport (rv_Strategy action) 0 (rv_DisableCache action) (rv_DisableOptimisticCache action)
    (rv_RewriteTTL action) (rv_Timeout action) (rv_ClientSubnet action) false.

Definition actionResolve (action : RuleActionResolve) x : result RouteContext :=
  if negb (IsDomain (Destination x)) then Ok x
  else
    try transport <- (if empty_string (rv_Server action) then Ok None
                      else match Transport (rv_Server action) with
                           | Some t => Ok (Some t)
                           | None => Err (ENew ("DNS server not found: " +:+ rv_Server action))
                           end);
    try addresses <- dns_Lookup (rx_md x) (sa_Fqdn (Destination x)) (resolve_options action transport);
    let x1 := map_conn (if rv_MatchOnly action then conn_CacheIPs addresses else conn_DestinationAddresses addresses) x in
    Ok (map_conn (conn_IPVersion (if isnil addresses then 0
                                  else if isAllIPv4 addresses then 4
                                  else if isAllIPv6 addresses then 6 else 0)) x1).

(** Whether there is a connection, a packet connection, or neither yet. *)
Inductive Input : Type := InputConn | InputPacketConn | InputPreMatch.

Definition actionSniffOverrideDestination (input : Input) x : RouteContext :=
  if negb (IsDomain (Destination x)) && IsDomainName (cf_SniffHost (rx_conn x)) then
    let d := Destination x in
    let overridden := mkSocksaddr AddrInvalid (sa_Port d) (cf_SniffHost (rx_conn x)) in
    match input with
    | InputConn => set_Destination overridden x
    | _ => set_DestOverride true (set_Destination overridden (set_OriginDestination d x))
    end
  else x.

(** ** Sniffing *)

Definition defaultPacketSniffers : list PacketSniffer :=
  [DomainNameQuery; QUICClientHello; STUNMessage; UTP; UDPTracker; DTLSRecord; NTP; QUICShortHeader].

Definition defaultStreamSniffers : list StreamSniffer :=
  [TLSClientHello; HTTPHost; StreamDomainNameQuery; BitTorrent; SSH; RDP].

Definition processQUICSniff x (q : Q) : RouteContext * Q :=
  if negb (bool_decide (cf_Protocol (rx_conn x) = "quic"%string)) then (x, q)
  else
    let x1 := set_SniffDestination (Destination x) x in
    let key := (cf_Source (rx_conn x), Destination x) in
    if negb (empty_string (cf_SniffHost (rx_conn x))) then (x1, quic_Store key (cf_SniffHost (rx_conn x)) q)
    else
      let '(host, q') := quic_LoadAndRefresh key q in
      (match host with Some h => map_conn (conn_SniffHost h) x1 | None => x1 end, q').

(** What a read of a packet connection gives; [PacketCancelled] is the end of the
    context while it is read. *)
Inductive PacketEvent : Type :=
| PacketData (data : list Z) (destination : Socksaddr)
| PacketTimeout
| PacketError (e : error)
| PacketCancelled (e : error).

(** The state of routing a connection. *)
Record Flow : Type := mkFlow {
  fl_x : RouteContext;
  fl_cache : Q;
  fl_buffers : list (list Z);
  fl_reads : list ReadEvent;
  fl_packetBuffers : list (list Z * Socksaddr);
  fl_packetReads : list PacketEvent
}.

Definition with_x (f : Flow) x : Flow :=
  mkFlow x (fl_cache f) (fl_buffers f) (fl_reads f) (fl_packetBuffers f) (fl_packetReads f).

Definition names_tried (action : RuleActionSniff) x : bool :=
  bool_decide (sf_SnifferNames (rx_sniff x) = sn_SnifferNames action).

(** An earlier attempt with the same sniffers failed for good. *)
Definition failed_before (action : RuleActionSniff) x : bool :=
  names_tried action x && nonnone (sf_SniffError (rx_sniff x)) && negb (needs_more (sf_SniffError (rx_sniff x))).

Definition quicMoreData (action : RuleActionSniff) x : bool :=
  names_tried action x && needs_more (sf_SniffError (rx_sniff x)).

Definition packet_sniffers (action : RuleActionSniff) : list PacketSniffer :=
  if isnil (sn_PacketSniffers action) then defaultPacketSniffers else sn_PacketSniffers action.

(** One packet: sniffed with all sniffers, or as the next part of a client hello. *)
Definition sniff_packet (action : RuleActionSniff) (packet : list Z) x : option error * RouteContext :=
  let '(err, x') := PeekPacket packet (if quicMoreData action x then [QUICClientHello] else packet_sniffers action) x in
  (err, set_sniffed (sn_SnifferNames action) err x').

(** The packets that were read before. *)
Fixpoint sniff_buffered (action : RuleActionSniff) (packets : list (list Z * Socksaddr)) x
    : option (option error) * RouteContext :=
  match packets with
  | [] => (None, x)
  | (packet, _) :: rest =>
      let '(err, x') := sniff_packet action packet x in
      if needs_more err then sniff_buffered action rest x' else (Some err, x')
  end.

(** The packets that are still to be read: the error of the sniffing or a fatal one, the
    packets that were read and what is left. *)
Fixpoint sniff_reads (action : RuleActionSniff) (timeout : error) (events : list PacketEvent)
    (packets : list (list Z * Socksaddr)) x
    : option error * option error * list (list Z * Socksaddr) * list PacketEvent * RouteContext :=
  match events with
  | [] => (Some timeout, None, packets, [], x)
  | PacketTimeout :: rest => (Some timeout, None, packets, rest, x)
  | PacketError e :: rest => (Some e, Some e, packets, rest, x)
  | PacketCancelled e :: rest => (None, Some e, packets, rest, x)
  | PacketData packet destination :: rest =>
      let '(err, x') := sniff_packet action packet x in
      let packets' := packets ++ [(packet, destination)] in
      if needs_more err then sniff_reads action timeout rest packets' x' else (err, None, packets', rest, x')
  end.

(** [finally] of [actionSniff] *)
Definition sniff_finally (err : option error) x (q : Q) : RouteContext * Q :=
  match err with None => processQUICSniff x q | Some _ => (x, q) end.

(** The error of a read that ran into its deadline. *)
Definition os_ErrDeadlineExceeded : error := ENew "i/o timeout".

(** [actionSniff] with what [matchRule] does with its buffers. *)
Definition actionSniff (input : Input) (action : RuleActionSniff) (f : Flow) : option error * Flow :=
  let x := fl_x f in
  if Skip x || negb (empty_string (cf_Protocol (rx_conn x))) || failed_before action x then (None, f)
  else
    match input with
    | InputConn =>
        if isnil (sn_StreamSniffers action) && negb (isnil (sn_PacketSniffers action)) then (None, f)
        else
          let sniffers := if isnil (sn_StreamSniffers action) then defaultStreamSniffers else sn_StreamSniffers action in
          let '(err, x', buffer, reads) := PeekStream os_ErrDeadlineExceeded sniffers (fl_buffers f) x (fl_reads f) in
          (None, mkFlow (set_sniffed (sn_SnifferNames action) err x') (fl_cache f)
                   (if isnil buffer then fl_buffers f else fl_buffers f ++ [buffer]) reads (fl_packetBuffers f) (fl_packetReads f))
    | InputPacketConn =>
        if isnil (sn_PacketSniffers action) && negb (isnil (sn_StreamSniffers action)) then (None, f)
        else
          match sniff_buffered action (fl_packetBuffers f) x with
          | (Some err, x1) =>
              let '(x2, q) := sniff_finally err x1 (fl_cache f) in
              (None, mkFlow x2 q (fl_buffers f) (fl_reads f) (fl_packetBuffers f) (fl_packetReads f))
          | (None, x1) =>
              let '(err, fatal, packets, rest, x2) := sniff_reads action os_ErrDeadlineExceeded (fl_packetReads f) [] x1 in
              let '(x3, q) := if nonnone fatal then (x2, fl_cache f) else sniff_finally err x2 (fl_cache f) in
              (fatal, mkFlow x3 q (fl_buffers f) (fl_reads f) (fl_packetBuffers f ++ packets) rest)
          end
    | InputPreMatch => (None, f)
    end.

(** ** matchRule *)

(** The options that apply when a rule matches. *)
Definition options_of (action : RuleAction) : option RuleActionRouteOptions :=
  match action with
  | ActionRoute _ ro | ActionRouteOptions ro => Some ro
  | ActionBypass outbound ro => if empty_string outbound then None else Some ro
  | _ => None
  end.

(** Actions that end the search for a rule. *)
Definition is_final (action : RuleAction) : bool :=
  match action with
  | ActionRoute _ _ | ActionRejectConnection _ _ | ActionHijackDNS => true
  | ActionBypass outbound _ => negb (empty_string outbound)
  | _ => false
  end.

(** What a rule that matches does to the connection. *)
Definition perform (input : Input) (action : RuleAction) (f : Flow) : option error * Flow :=
  let f1 := match options_of action with Some ro => with_x f (apply_route_options ro (fl_x f)) | None => f end in
  match action with
  | ActionSniff sniff => actionSniff input sniff f1
  | ActionSniffOverrideDestination =>
      (None, if empty_string (cf_SniffHost (rx_conn (fl_x f1))) then f1
             else with_x f1 (actionSniffOverrideDestination input (fl_x f1)))
  | ActionResolve resolve =>
      match actionResolve resolve (fl_x f1) with
      | Ok x => (None, with_x f1 x)
      | Err e => (Some e, f1)
      end
  | _ => (None, f1)
  end.

(** A rule that routes to a pass outbound is as if it had not matched. *)
Definition passes (action : RuleAction) : bool :=
  match action with ActionRoute outbound _ => isPassOutbound outbound | _ => false end.

(** The loop of [matchRule] from the rule with number [i] on. *)
Fixpoint match_rules (input : Input) (i : nat) (l : list (RouterRule I)) (f : Flow)
    : result (option (nat * RouterRule I)) * Flow :=
  match l with
  | [] => (Ok None, f)
  | currentRule :: rest =>
      if rr_disabled currentRule then match_rules input (S i) rest f
      else
        let '(matched, m) := Match (rr_rule currentRule) (ResetRuleCache (rx_md (fl_x f))) in
        let f1 := with_x f (with_md (fl_x f) m) in
        if negb matched || passes (rr_action currentRule) then match_rules input (S i) rest f1
        else
          match perform input (rr_action currentRule) f1 with
          | (Some fatalErr, f2) => (Err fatalErr, f2)
          | (None, f2) =>
              if is_final (rr_action currentRule) then (Ok (Some (i, currentRule)), f2)
              else match_rules input (S i) rest f2
          end
  end.

Definition matchRule (input : Input) (f : Flow) : result (option (nat * RouterRule I)) * Flow :=
  match prepareMatchMetadata (fl_x f) with
  | Err fatalErr => (Err fatalErr, f)
  | Ok x => match_rules input 0 rules (with_x f x)
  end.
End router.
