(* ===== verification/RouteFrame.v ===== *)
(** * What routing leaves alone

    Sniffing, resolving and the overriding of destinations neither read nor write the
    bookkeeping of the rule engine, the options for dialing, the flag of [PreMatch] and
    the destination before overriding: the frame of the metadata. *)

From stdpp Require Import base gmap strings list.
From Stdlib Require Import ZArith Lia.
From S2P Require Import Prelude Net Metadata RuleMatch RuleItems DnsMode RouteContext Sniff.
From S2P Require Import Lifecycle StartOrder Managers Route.

Open Scope Z_scope.

Record Frame : Type := mkFrame {
  fr_PreMatch : bool;
  fr_cache : RuleCache;
  fr_dial : DialFields;
  fr_RouteOriginalDestination : Socksaddr
}.

Definition frame (x : RouteContext) : Frame :=
  mkFrame (cf_PreMatch (rx_conn x)) (ic_cache (rx_md x)) (rx_dial x) (rx_RouteOriginalDestination x).

Definition reframe (k : Frame) (x : RouteContext) : RouteContext :=
  let x1 := map_conn (conn_PreMatch (fr_PreMatch k)) x in
  set_RouteOriginalDestination (fr_RouteOriginalDestination k)
    (with_dial (with_md x1 (with_cache (rx_md x1) (fr_cache k))) (fr_dial k)).

Lemma reframe_frame x : reframe (frame x) x = x.
Proof. by destruct x as [[[] ? ? ? ?] [] [] ? ? ? ? ? ? ?]. Qed.

Lemma frame_reframe k x : frame (reframe k x) = k.
Proof. by destruct k. Qed.

Lemma reframe_reframe k k' x : reframe k (reframe k' x) = reframe k x.
Proof. by destruct x as [[[] ? ? ? ?] [] [] ? ? ? ? ? ? ?]. Qed.

(** Operations that do not touch the frame, and those that also have a result. *)
Definition framed (op : RouteContext -> RouteContext) : Prop := forall k x, op (reframe k x) = reframe k (op x).

Definition framed_with {T : Type} (op : RouteContext -> T * RouteContext) : Prop :=
  forall k x, op (reframe k x) = ((op x).1, reframe k (op x).2).

Lemma framed_with_frame {T : Type} (op : RouteContext -> T * RouteContext) x : framed_with op -> frame (op x).2 = frame x.
Proof. intros Hop. pose proof (Hop (frame x) x) as He. rewrite reframe_frame in He. rewrite He. apply frame_reframe. Qed.

Lemma framed_frame op x : framed op -> frame (op x) = frame x.
Proof. intros Hop. pose proof (Hop (frame x) x) as He. rewrite reframe_frame in He. rewrite He. apply frame_reframe. Qed.

(** Two metadata that differ in the frame only. *)
Definition same_route (x y : RouteContext) : Prop := exists k, x = reframe k y.

#[export] Instance same_route_equivalence : Equivalence same_route.
Proof.
  split.
  - intros x. exists (frame x). by rewrite reframe_frame.
  - intros x y [k ->]. exists (frame y). by rewrite reframe_reframe, reframe_frame.
  - intros x y z [k ->] [k' ->]. exists k. by rewrite reframe_reframe.
Qed.

Lemma reframe_same k x y : reframe k x = reframe k y -> same_route x y.
Proof. intros He. exists (frame x). rewrite <- (reframe_frame x) at 1. rewrite <- (reframe_reframe _ k), He. apply reframe_reframe. Qed.

Lemma framed_same op x y : framed op -> same_route x y -> same_route (op x) (op y).
Proof. intros Hop [k ->]. exists k. apply Hop. Qed.

Lemma framed_with_same {T : Type} (op : RouteContext -> T * RouteContext) x y : framed_with op -> same_route x y ->
  (op x).1 = (op y).1 /\ same_route (op x).2 (op y).2.
Proof. intros Hop [k ->]. rewrite Hop. split; [done|]. by exists k. Qed.

Section framed.
Context `{Env} `{SniffLibrary} `{RouteLibrary} `{RouteDNS} `{Searchers}.
Context {Q : Type} `{QUICSniffCache Q}.

(** ** Sniffers *)

Ltac framed_cases := intros k x; repeat case_match; try done; by destruct x as [[[] ? ? ? ?] [] [] ? ? ? ? ? ? ?].

Lemma framed_sniffed protocol : framed_with (sniffed protocol).
Proof. unfold sniffed. framed_cases. Qed.

Lemma framed_run_StreamSniffer s reader : framed_with (run_StreamSniffer s reader).
Proof.
  destruct s; cbn; unfold sniff_TLSClientHello, sniff_HTTPHost, sniff_StreamDomainNameQuery, sniff_DomainNameQuery,
    sniff_BitTorrent, sniff_SSH, sniff_RDP, sniffed, sniff_fails; framed_cases.
Qed.

Lemma framed_run_PacketSniffer s packet : framed_with (run_PacketSniffer s packet).
Proof.
  destruct s; cbn; unfold sniff_QUICShortHeader, sniff_DomainNameQuery, sniff_STUNMessage, sniff_UTP, sniff_UDPTracker,
    sniff_DTLSRecord, sniff_NTP, when, sniffed, sniff_fails; try framed_cases.
  intros k x. unfold sniff_QUICClientHello. destruct x as [[[] ? ? ? ?] [] [] ? ? ? ? ? ? ?]. cbn. by repeat case_match.
Qed.

Lemma framed_try_sniffers sniffers reader err : framed_with (try_sniffers sniffers reader err).
Proof.
  revert err. induction sniffers as [|s sniffers IH]; intros err k x; cbn; [done|].
  rewrite framed_run_StreamSniffer. destruct (run_StreamSniffer s reader x) as [[e|] x']; cbn; [apply IH|done].
Qed.

Lemma framed_PeekPacket packet sniffers : framed_with (PeekPacket packet sniffers).
Proof.
  unfold PeekPacket. generalize (@nil error). induction sniffers as [|s sniffers IH]; intros errs k x; cbn; [done|].
  rewrite framed_run_PacketSniffer. destruct (run_PacketSniffer s packet x) as [[e|] x']; cbn; [apply IH|done].
Qed.

Lemma reframe_set_sniffed k names err x : set_sniffed names err (reframe k x) = reframe k (set_sniffed names err x).
Proof. by destruct x as [[[] ? ? ? ?] [] [] ? ? ? ? ? ? ?]. Qed.

Lemma framed_sniff_packet action packet : framed_with (sniff_packet action packet).
Proof.
  intros k x. unfold sniff_packet. replace (quicMoreData action (reframe k x)) with (quicMoreData action x)
    by (by destruct x as [[[] ? ? ? ?] [] [] ? ? ? ? ? ? ?]).
  rewrite framed_PeekPacket. destruct (PeekPacket _ _ x) as [err x']. cbn. by rewrite reframe_set_sniffed.
Qed.

Lemma framed_sniff_buffered action packets : framed_with (sniff_buffered action packets).
Proof.
  induction packets as [|[packet d] packets IH]; intros k x; cbn; [done|].
  rewrite framed_sniff_packet. destruct (sniff_packet action packet x) as [err x']. cbn. by destruct (needs_more err).
Qed.

Lemma peek_rounds_frame timeout sniffers buffers first err buffer x reads :
  frame (peek_rounds timeout sniffers buffers first err buffer x reads).1.1.2 = frame x.
Proof.
  revert first err buffer x. induction reads as [|[data|e|e] reads IH]; intros first err buffer x; cbn; [done| |done|done].
  pose proof (framed_with_frame (try_sniffers sniffers (buffers ++ [buffer ++ data]) None) x) as Hf.
  destruct (try_sniffers _ _ _ x) as [err' x']. cbn in Hf. rewrite <- Hf by apply framed_try_sniffers.
  by destruct (needs_more err').
Qed.

Lemma sniff_reads_frame action timeout events packets x : frame (sniff_reads action timeout events packets x).2 = frame x.
Proof.
  revert packets x. induction events as [|[data d| |e|e] events IH]; intros packets x; cbn; [done| |done..].
  pose proof (framed_with_frame (sniff_packet action data) x (framed_sniff_packet action data)) as Hf.
  destruct (sniff_packet action data x) as [err x']. cbn in Hf. rewrite <- Hf. by destruct (needs_more err).
Qed.

(** ** The other actions *)

Lemma framed_processQUICSniff (q : Q) : forall k x,
  processQUICSniff (reframe k x) q = (reframe k (processQUICSniff x q).1, (processQUICSniff x q).2).
Proof.
  intros k x. unfold processQUICSniff. destruct x as [[[] ? ? ? ?] [] [] ? ? ? ? ? ? ?]. cbn.
  repeat case_match; simplify_eq; done.
Qed.

Lemma framed_override input : framed (actionSniffOverrideDestination input).
Proof. intros k x. unfold actionSniffOverrideDestination. destruct x as [[[] ? ? ? ?] [] [] ? ? ? ? ? ? ?]. cbn. by repeat case_match. Qed.

Lemma framed_searchProcessInfo : framed searchProcessInfo.
Proof.
  intros k x. unfold searchProcessInfo. destruct x as [[[] ? ? ? ?] [] [] ? ? ? ? ? ? ?]. cbn.
  repeat (case_match; cbn in *; simplify_eq; try done).
Qed.

Lemma framed_searchNeighbor : framed searchNeighbor.
Proof.
  intros k x. unfold searchNeighbor. destruct x as [[[] ? ? ? ?] [] [] ? ? ? ? ? ? ?]. cbn.
  repeat (case_match; cbn in *; simplify_eq; try done).
Qed.

Lemma framed_IPVersion : framed set_IPVersion_of_destination.
Proof. intros k x. unfold set_IPVersion_of_destination. destruct x as [[[] ? ? ? ?] [] [] ? ? ? ? ? ? ?]. cbn. by repeat case_match. Qed.

(** An operation that may fail. *)
Definition result_frame (k : Frame) (r : result RouteContext) : result RouteContext :=
  match r with Ok x => Ok (reframe k x) | Err e => Err e end.

Lemma framed_prepareMatchMetadata k x : prepareMatchMetadata (reframe k x) = result_frame k (prepareMatchMetadata x).
Proof.
  assert (Hx : searchNeighbor (searchProcessInfo (reframe k x)) = reframe k (searchNeighbor (searchProcessInfo x)))
    by (rewrite framed_searchProcessInfo; apply framed_searchNeighbor).
  unfold prepareMatchMetadata. cbv zeta. rewrite Hx. set (x1 := searchNeighbor (searchProcessInfo x)). clearbody x1.
  change (Destination (reframe k x1)) with (Destination x1).
  change (cf_Domain (rx_conn (reframe k x1))) with (cf_Domain (rx_conn x1)).
  repeat (case_match; cbn [result_frame]; try done); rewrite <- framed_IPVersion;
    by destruct x1 as [[[] ? ? ? ?] [] [] ? ? ? ? ? ? ?].
Qed.

(** Resolving, when the lookup does not look at the frame. *)
Lemma framed_actionResolve action k x :
  (forall name options, dns_Lookup (rx_md (reframe k x)) name options = dns_Lookup (rx_md x) name options) ->
  actionResolve action (reframe k x) = result_frame k (actionResolve action x).
Proof.
  intros Hl. unfold actionResolve. change (Destination (reframe k x)) with (Destination x).
  destruct (IsDomain (Destination x)); cbn; [|done]. destruct (if empty_string _ then _ else _); cbn; [|done].
  rewrite Hl. destruct (dns_Lookup _ _ _) as [addresses|]; cbn; [|done].
  destruct x as [[[] ? ? ? ?] [] [] ? ? ? ? ? ? ?]. by destruct (rv_MatchOnly action).
Qed.

Lemma actionResolve_frame action x x' : actionResolve action x = Ok x' -> frame x' = frame x.
Proof.
  unfold actionResolve. destruct (IsDomain (Destination x)); cbn; [|by intros [= ->]].
  destruct (if empty_string _ then _ else _); cbn; [|done]. destruct (dns_Lookup _ _ _); cbn; [|done].
  intros [= <-]. by destruct (rv_MatchOnly action).
Qed.
End framed.
