(* ===== verification/RouteConn.v ===== *)
(** * Handing connections to outbounds

    [routeConnection], [routePacketConnection] and [PreMatch] of [src/route/route.go], and the
    packet connection of [src/route/fakeip_conn.go] that translates addresses. *)

From stdpp Require Import base gmap strings list.
From Stdlib Require Import ZArith Lia.
From S2P Require Import Prelude Net Metadata RuleMatch RuleItems DnsMode RouteContext Sniff.
From S2P Require Import Lifecycle StartOrder Managers Route.

Open Scope Z_scope.

(** sing's connections that give a buffer before what they wrap.  [ReadPacket] gives a packet
    and what is left of the connection, or fails. *)
Class CachedConns (C P : Type) : Type := {
  conn_of : list ReadEvent -> C;
  NewCachedConn : C -> list Z -> C;
  packetConn_of : list PacketEvent -> P;
  NewCachedPacketConn : P -> list Z -> Socksaddr -> P;
  ReadPacket : P -> option (list Z * Socksaddr * P)
}.

(** ** Packet connections with translated addresses *)

Record fakeIPNATPacketConn (P : Type) : Type := mkFakeIPNATPacketConn {
  nat_NetPacketConn : P;
  nat_origin : Socksaddr;
  nat_destination : Socksaddr;
  nat_directDestinations : gset Addr
}.
Arguments mkFakeIPNATPacketConn {P}.
Arguments nat_NetPacketConn {P}.
Arguments nat_origin {P}.
Arguments nat_destination {P}.
Arguments nat_directDestinations {P}.

Definition newFakeIPNATPacketConn {P : Type} (conn : P) (origin destination : Socksaddr) : fakeIPNATPacketConn P :=
  mkFakeIPNATPacketConn conn origin destination ∅.

Section translated.
Context {P : Type}.
Implicit Types (c : fakeIPNATPacketConn P) (destination : Socksaddr).

Definition rewriteReadDestination destination c : Socksaddr * fakeIPNATPacketConn P :=
  if bool_decide (sa_Addr destination = sa_Addr (nat_origin c))
  then (mkSocksaddr (sa_Addr (nat_destination c)) (sa_Port destination) (sa_Fqdn (nat_destination c)), c)
  else if addr_IsValid (sa_Addr destination)
  then (destination, mkFakeIPNATPacketConn (nat_NetPacketConn c) (nat_origin c) (nat_destination c)
                       ({[sa_Addr destination]} ∪ nat_directDestinations c))
  else (destination, c).

Definition rewriteWriteDestination destination c : Socksaddr :=
  if addr_IsValid (sa_Addr destination) && bool_decide (sa_Addr destination ∈ nat_directDestinations c) then destination
  else mkSocksaddr (sa_Addr (nat_origin c)) (sa_Port destination) "".

Definition UpdateDestination (destinationAddress : Addr) c : fakeIPNATPacketConn P :=
  mkFakeIPNATPacketConn (nat_NetPacketConn c) (nat_origin c)
    (mkSocksaddr destinationAddress (sa_Port (nat_destination c)) "") (nat_directDestinations c).

Definition with_NetPacketConn (conn : P) c : fakeIPNATPacketConn P :=
  mkFakeIPNATPacketConn conn (nat_origin c) (nat_destination c) (nat_directDestinations c).

(** [ReadPacket] of the connection, over that of what it wraps. *)
Definition nat_ReadPacket {C : Type} `{CachedConns C P} c : option (list Z * Socksaddr * fakeIPNATPacketConn P) :=
  match ReadPacket (nat_NetPacketConn c) with
  | None => None
  | Some (buffer, destination, conn) =>
      let '(destination', c') := rewriteReadDestination destination (with_NetPacketConn conn c) in
      Some (buffer, destination', c')
  end.
End translated.

(** The packet connection an outbound gets. *)
Inductive RoutedPacketConn (P : Type) : Type :=
| PlainPacketConn (conn : P)
| NATPacketConn (conn : fakeIPNATPacketConn P).
Arguments PlainPacketConn {P}.
Arguments NATPacketConn {P}.

Definition routed_ReadPacket {C P : Type} `{CachedConns C P} (c : RoutedPacketConn P)
    : option (list Z * Socksaddr * RoutedPacketConn P) :=
  match c with
  | PlainPacketConn conn => match ReadPacket conn with Some (b, d, conn') => Some (b, d, PlainPacketConn conn') | None => None end
  | NATPacketConn conn => match nat_ReadPacket conn with Some (b, d, conn') => Some (b, d, NATPacketConn conn') | None => None end
  end.

(** The inbounds a connection can be handed to: whether they take connections and
    packets. *)
Class InboundInterfaces : Type := {
  asTCPInjectable : string -> option bool;
  asUDPInjectable : string -> option bool
}.

(** What becomes of a connection: nothing, an inbound, the DNS router, or an outbound at
    the end of a chain of groups. *)
Inductive Outcome (I C : Type) : Type :=
| Failed (e : error)
| Injected (inbound : string) (x : RouteContext)
| Hijacked (conn : C) (x : RouteContext)
| Routed (rule : option (nat * RouterRule I)) (chain : list Outbound) (conn : C) (x : RouteContext).
Arguments Failed {I C}.
Arguments Injected {I C}.
Arguments Hijacked {I C}.
Arguments Routed {I C}.

Section router.
Context {I : Type} `{RuleItem I} `{Env} `{SniffLibrary} `{RouteLibrary} `{OutboundInterfaces} `{RouteDNS} `{Searchers}.
Context {Q : Type} `{QUICSniffCache Q}.
Context {A : Type} (rules : list (RouterRule I)) (w : managers (A := A)).
Context {C P : Type} `{CachedConns C P} `{InboundInterfaces}.
(** The time, and the trackers of the router. *)
Context (now : Z) (trackers : list (C -> RouteContext -> option (nat * RouterRule I) -> Outbound -> C)).
Context (packetTrackers : list (P -> RouteContext -> option (nat * RouterRule I) -> Outbound -> P)).
Implicit Types (x : RouteContext) (o : Outbound).

(** ** Connections *)

(** An inbound detour; [inbounds] are those that take this kind of connection. *)
Definition inject (inbounds : string -> option bool) (kind : string) x {T : Type} : Outcome I T :=
  let detour := rx_InboundDetour x in
  if bool_decide (rx_LastInbound x = detour) then Failed (ENew ("routing loop on detour: " +:+ detour))
  else
    match inbounds detour with
    | None => Failed (ENew ("inbound detour not found: " +:+ detour))
    | Some false => Failed (ENew ("inbound detour is not " +:+ kind +:+ " injectable: " +:+ detour))
    | Some true => Injected detour (set_detour "" (cf_Inbound (rx_conn x)) (map_conn (conn_Inbound detour) x))
    end.

Definition deprecated_destination (fqdn : string) : option error :=
  if bool_decide (fqdn = mux_Destination)
  then Some (ENew "global multiplex is deprecated since sing-box v1.7.0, enable multiplex in Inbound fields instead.")
  else if bool_decide (fqdn = vmess_MuxDestination)
  then Some (ENew "global multiplex (v2ray legacy) not supported since sing-box v1.7.0.")
  else if bool_decide (fqdn = uot_MagicAddress) then Some (ENew "global UoT not supported since sing-box v1.7.0.")
  else if bool_decide (fqdn = uot_LegacyMagicAddress) then Some (ENew "global UoT (legacy) not supported since sing-box v1.7.0.")
  else None.

(** The outbound of the rule that was selected, what rejects the connection, or the DNS
    router. *)
Inductive Selection : Type :=
| SelectOutbound (o : option Outbound)
| SelectReject (e : error) (counter : option (nat * list Z))
| SelectHijack.

Definition outbound_of (tag : string) : Selection :=
  match OutboundManager_Outbound tag w with
  | Some o => SelectOutbound (Some o)
  | None => SelectReject (ENew ("outbound not found: " +:+ tag)) None
  end.

Definition select (kind : string) (selectedRule : option (nat * RouterRule I)) : Selection :=
  match selectedRule with
  | None => SelectOutbound (om_default w.1)
  | Some (i, r) =>
      match rr_action r with
      | ActionRoute outbound _ => outbound_of outbound
      | ActionBypass outbound _ => if empty_string outbound then SelectOutbound None else outbound_of outbound
      | ActionRejectConnection method noDrop =>
          if bool_decide (method = "reply"%string)
          then SelectReject (ENew ("reject method `reply` is not supported for " +:+ kind +:+ " connections")) None
          else
            let '(res, counter) := RuleActionReject_Error method noDrop (rr_dropCounter r) now in
            SelectReject (match res with Err e => e | Ok _ => EPanic "no error" end) (Some (i, counter))
      | ActionHijackDNS => SelectHijack
      | _ => SelectOutbound None
      end
  end.

(** The buffers in front of what the connection still has. *)
Definition cached_conn (buffers : list (list Z)) (reads : list ReadEvent) : C :=
  foldl (fun conn buffer => NewCachedConn conn buffer) (conn_of reads) buffers.

Definition is_tun_dns x : bool :=
  bool_decide (rx_InboundType x = "tun"%string) && bool_decide (cf_Protocol (rx_conn x) = "dns"%string).

(** [routeConnection]: the outcome, the times of rejections of a rule, and the cache of
    sniffed names.  [fuel] bounds the groups a connection goes through; [None] is out of
    it. *)
Definition routeConnection (fuel : nat) x (q : Q) (reads : list ReadEvent)
    : option (Outcome I C * option (nat * list Z) * Q) :=
  if negb (empty_string (rx_InboundDetour x)) then Some (inject asTCPInjectable "TCP" x, None, q)
  else
    let x0 := map_conn (conn_Network NetworkTCP) x in
    match deprecated_destination (sa_Fqdn (Destination x0)) with
    | Some e => Some (Failed e, None, q)
    | None =>
        if is_tun_dns x0 then Some (Hijacked (conn_of reads) x0, None, q)
        else
          let '(res, f) := matchRule rules w InputConn (mkFlow x0 q [] reads [] []) in
          match res with
          | Err e => Some (Failed e, None, fl_cache f)
          | Ok selectedRule =>
              match select "TCP" selectedRule with
              | SelectReject e counter => Some (Failed e, counter, fl_cache f)
              | SelectHijack => Some (Hijacked (cached_conn (fl_buffers f) (fl_reads f)) (fl_x f), None, fl_cache f)
              | SelectOutbound selectedOutbound =>
                  match resolveOutbound fuel selectedOutbound NetworkTCP (fl_x f) with
                  | None => None
                  | Some (Err e) => Some (Failed e, None, fl_cache f)
                  | Some (Ok chain) =>
                      let conn := foldl (fun conn track => match selectedOutbound with
                                                           | Some o => track conn (fl_x f) selectedRule o
                                                           | None => conn
                                                           end)
                                    (cached_conn (fl_buffers f) (fl_reads f)) trackers in
                      Some (Routed selectedRule chain conn (fl_x f), None, fl_cache f)
                  end
              end
          end
    end.

(** ** Packet connections *)

Definition cached_packet_conn (packets : list (list Z * Socksaddr)) (reads : list PacketEvent) : P :=
  foldl (fun conn packet => NewCachedPacketConn conn packet.1 packet.2) (packetConn_of reads) (rev packets).

(** Hijacked packets keep their buffers: they are handed over with the connection. *)
Definition routePacketConnection (fuel : nat) x (q : Q) (reads : list PacketEvent)
    : option (Outcome I (RoutedPacketConn P) * option (nat * list Z) * Q) :=
  if negb (empty_string (rx_InboundDetour x)) then Some (inject asUDPInjectable "UDP" x, None, q)
  else
    let x0 := map_conn (conn_Network NetworkUDP) x in
    if is_tun_dns x0 then Some (Hijacked (PlainPacketConn (packetConn_of reads)) x0, None, q)
    else
      let '(res, f) := matchRule rules w InputPacketConn (mkFlow x0 q [] [] [] reads) in
      match res with
      | Err e => Some (Failed e, None, fl_cache f)
      | Ok selectedRule =>
          match select "UDP" selectedRule with
          | SelectReject e counter => Some (Failed e, counter, fl_cache f)
          | SelectHijack => Some (Hijacked (PlainPacketConn (cached_packet_conn (fl_packetBuffers f) (fl_packetReads f))) (fl_x f), None, fl_cache f)
          | SelectOutbound selectedOutbound =>
              match resolveOutbound fuel selectedOutbound NetworkUDP (fl_x f) with
              | None => None
              | Some (Err e) => Some (Failed e, None, fl_cache f)
              | Some (Ok chain) =>
                  let conn := foldl (fun conn track => match selectedOutbound with
                                                       | Some o => track conn (fl_x f) selectedRule o
                                                       | None => conn
                                                       end)
                                (cached_packet_conn (fl_packetBuffers f) (fl_packetReads f)) packetTrackers in
                  let conn' := if rx_FakeIP (fl_x f) || rx_DestOverride (fl_x f)
                               then NATPacketConn (newFakeIPNATPacketConn conn (rx_OriginDestination (fl_x f)) (Destination (fl_x f)))
                               else PlainPacketConn conn in
                  Some (Routed selectedRule chain conn' (fl_x f), None, fl_cache f)
              end
          end
      end.

(** ** Judging a packet before there is a connection *)

Record PreMatchResult : Type := mkPreMatchResult {
  pm_Action : PreMatchAction;
  pm_Outbound : option Outbound;
  pm_Destination : option (Addr * Z);
  pm_UDPTimeout : Z;
  pm_Tracked : option RouteContext
}.

Definition pre_result (action : PreMatchAction) (o : option Outbound) : PreMatchResult := mkPreMatchResult action o None 0 None.
Definition continueResult : PreMatchResult := pre_result PreMatchContinue None.

(** [selectPreMatchOutbound] at depth [9 - fuel]; the chain is empty if no outbound can
    take the packet. *)
Fixpoint select_prematch (fuel : nat) x (outbound : option Outbound) : list Outbound * PreMatchAction :=
  match fuel, outbound with
  | O, _ | _, None => ([], PreMatchContinue)
  | S fuel', Some o =>
      match asPreMatchGroup o with
      | Some selectPreMatch =>
          let '(selected, action, selectedChain) :=
            selectPreMatch x (list Outbound) (fun o' selectedChain =>
              let '(chain, action) := select_prematch fuel' x (Some o') in
              match last chain with
              | None => (None, action, selectedChain)
              | Some tail => (Some tail, action, chain)
              end) [] in
          if isnone selected || isnil selectedChain then ([], PreMatchContinue) else (o :: selectedChain, action)
      | None =>
          match asOutboundGroup o with
          | Some selected =>
              let '(chain, action) := select_prematch fuel' x (selected (cf_Network (rx_conn x))) in
              if isnil chain then ([], action) else (o :: chain, action)
          | None =>
              if negb (bool_decide (cf_Network (rx_conn x) ∈ ob_Network o)) then ([], PreMatchContinue)
              else
                match asFlowOutbound o with
                | None => ([], PreMatchContinue)
                | Some PreMatchFlow_ =>
                    match PreMatchFlow_ (cf_Network (rx_conn x)) (sa_Addr (Destination x)) with
                    | PreMatchContinue => ([], PreMatchContinue)
                    | flowAction => ([o], flowAction)
                    end
                end
          end
      end
  end.

Definition selectPreMatchOutbound x (outbound : option Outbound) : list Outbound * PreMatchAction :=
  select_prematch 9 x outbound.

(** [C.PortProtocols] and [C.ProtocolTimeouts], in nanoseconds. *)
Definition PortProtocols (port : Z) : string :=
  if port =? 53 then "dns" else if port =? 123 then "ntp" else if port =? 3478 then "stun" else if port =? 443 then "quic" else "".

Definition ProtocolTimeouts (protocol : string) : Z :=
  if existsb (String.eqb protocol) ["dns"; "ntp"; "stun"] then 10 * 10 ^ 9
  else if existsb (String.eqb protocol) ["quic"; "dtls"] then 30 * 10 ^ 9
  else 0.

Definition flow_timeout x : Z :=
  if negb (bool_decide (cf_Network (rx_conn x) = NetworkUDP)) then 0
  else if 0 <? df_UDPTimeout (rx_dial x) then df_UDPTimeout (rx_dial x)
  else
    let protocol := if empty_string (cf_Protocol (rx_conn x)) then PortProtocols (sa_Port (Destination x)) else cf_Protocol (rx_conn x) in
    if empty_string protocol then 0 else ProtocolTimeouts protocol.

(** The addresses of a domain, from the resolver of the outbound if there are none yet. *)
Definition flow_addresses o x : result RouteContext :=
  if isnil (cf_DestinationAddresses (rx_conn x)) then
    match asFlowResolver o with
    | Some options =>
        try addresses <- dns_Lookup (rx_md x) (sa_Fqdn (Destination x)) options;
        Ok (map_conn (conn_DestinationAddresses addresses) x)
    | None => Ok x
    end
  else Ok x.

(** [preMatchFlow] *)
Definition preMatchFlow x (packetDestination : Socksaddr) (outboundTag : string) : PreMatchResult :=
  match (if empty_string outboundTag then Some (om_default w.1)
         else match OutboundManager_Outbound outboundTag w with Some o => Some (Some o) | None => None end) with
  | None => continueResult
  | Some outbound =>
      let '(chain, flowAction) := selectPreMatchOutbound x outbound in
      match last chain with
      | None => continueResult
      | Some o =>
          if negb (bool_decide (flowAction = PreMatchFlow)) then pre_result flowAction (Some o)
          else
            let timeout := flow_timeout x in
            if IsDomain (Destination x) then
              if negb (rx_FakeIP x) && negb (rx_DestOverride x) then continueResult
              else
                match flow_addresses o x with
                | Err _ => pre_result PreMatchReject None
                | Ok x1 =>
                    match List.find (fun a => eqb (addr_Is4 a) (socks_IsIPv4 packetDestination))
                            (cf_DestinationAddresses (rx_conn x1)) with
                    | None => pre_result PreMatchReject None
                    | Some newDestination =>
                        match asFlowOutbound o with
                        | None => pre_result PreMatchContinue None
                        | Some flow =>
                            let action := flow (cf_Network (rx_conn x1)) newDestination in
                            if negb (bool_decide (action = PreMatchFlow)) then pre_result action (Some o)
                            else mkPreMatchResult PreMatchFlow (Some o) (Some (newDestination, sa_Port (Destination x1))) timeout (Some x1)
                        end
                    end
                end
            else
              mkPreMatchResult PreMatchFlow (Some o)
                (if bool_decide (Destination x = packetDestination) then None
                 else Some (sa_Addr (Destination x), sa_Port (Destination x))) timeout (Some x)
      end
  end.

Definition bypass_result (result : PreMatchResult) : PreMatchResult :=
  if negb (bool_decide (pm_Action result = PreMatchFlow)) then pre_result PreMatchBypass None
  else mkPreMatchResult PreMatchBypass (pm_Outbound result) (pm_Destination result) (pm_UDPTimeout result) (pm_Tracked result).

(** What sniffing does in the loop: go on with the metadata, or give up. *)
Definition prematch_sniff (action : RuleActionSniff) (firstPacket : list Z) x (q : Q) : option (RouteContext * Q) :=
  if bool_decide (cf_Network (rx_conn x) = NetworkICMP) then Some (x, q)
  else if negb (bool_decide (cf_Network (rx_conn x) = NetworkUDP)) || isnil firstPacket then None
  else if Skip x || negb (empty_string (cf_Protocol (rx_conn x))) then Some (x, q)
  else if isnil (sn_PacketSniffers action) && negb (isnil (sn_StreamSniffers action)) then Some (x, q)
  else if names_tried action x && nonnone (sf_SniffError (rx_sniff x)) then Some (x, q)
  else
    let '(sniffErr, x1) := PeekPacket firstPacket (packet_sniffers action) x in
    let x2 := set_sniffed (sn_SnifferNames action) sniffErr x1 in
    match sniffErr with
    | Some _ => if needs_more sniffErr then None else Some (x2, q)
    | None => Some (processQUICSniff x2 q)
    end.

(** The loop of [PreMatch]: the result, the rule that decided, the times of rejections,
    and the cache. *)
Fixpoint prematch_rules (firstPacket : list Z) (packetDestination : Socksaddr) (i : nat) (l : list (RouterRule I)) x (q : Q)
    : PreMatchResult * option (nat * RouterRule I) * option (nat * list Z) * Q :=
  match l with
  | [] => (preMatchFlow x packetDestination "", None, None, q)
  | currentRule :: rest =>
      if rr_disabled currentRule then prematch_rules firstPacket packetDestination (S i) rest x q
      else
        let '(matched, m) := Match (rr_rule currentRule) (ResetRuleCache (rx_md x)) in
        let x1 := with_md x m in
        let continue x q := prematch_rules firstPacket packetDestination (S i) rest x q in
        let decide_ result := (result, Some (i, currentRule), None, q) in
        if negb matched then continue x1 q
        else
          match rr_action currentRule with
          | ActionSniff action =>
              match prematch_sniff action firstPacket x1 q with
              | Some (x2, q2) => continue x2 q2
              | None => decide_ continueResult
              end
          | ActionSniffOverrideDestination =>
              continue (if empty_string (cf_SniffHost (rx_conn x1)) then x1
                        else actionSniffOverrideDestination InputPreMatch x1) q
          | ActionRouteOptions ro => continue (applyRouteOptionsOverride ro x1) q
          | ActionRoute outbound ro =>
              if isPassOutbound w outbound then continue x1 q
              else decide_ (preMatchFlow (applyRouteOptionsOverride ro x1) packetDestination outbound)
          | ActionBypass outbound ro =>
              let x2 := applyRouteOptionsOverride ro x1 in
              let changed := IsDomain (Destination x2) || negb (bool_decide (Destination x2 = packetDestination)) in
              if empty_string outbound
              then decide_ (if changed then continueResult else pre_result PreMatchBypass None)
              else if changed then decide_ (preMatchFlow x2 packetDestination outbound)
              else decide_ (bypass_result (preMatchFlow x2 packetDestination outbound))
          | ActionRejectConnection method noDrop =>
              let '(rejectErr, counter) := RuleActionReject_Error method noDrop (rr_dropCounter currentRule) now in
              ((match rejectErr with
                | Ok _ => if bool_decide (cf_Network (rx_conn x1) = NetworkICMP) then continueResult else pre_result PreMatchReject None
                | Err e => if bool_decide (e = ErrDrop) then pre_result PreMatchDrop None else pre_result PreMatchReject None
                end), Some (i, currentRule), Some (i, counter), q)
          | ActionHijackDNS =>
              decide_ (if negb (bool_decide (cf_Network (rx_conn x1) = NetworkUDP)) then continueResult
                       else pre_result PreMatchHijackDNS None)
          | ActionResolve action =>
              match actionResolve action x1 with
              | Err _ => decide_ (pre_result PreMatchReject None)
              | Ok x2 => continue x2 q
              end
          | ActionDirect => decide_ continueResult
          end
  end.

Definition PreMatch x (firstPacket : list Z) (q : Q)
    : PreMatchResult * option (nat * RouterRule I) * option (nat * list Z) * Q :=
  match prepareMatchMetadata (map_conn (conn_PreMatch true) x) with
  | Err _ => (continueResult, None, None, q)
  | Ok x1 => prematch_rules firstPacket (Destination x) 0 rules x1 q
  end.
End router.
