(* ===== verification/RouteOk.v ===== *)
(** * What routing guarantees

    The walk over the rules as a relation that reads rules by their meaning; groups of
    outbounds that end; what is left of a stream that was sniffed. *)

From stdpp Require Import base gmap strings list.
From Stdlib Require Import ZArith Lia.
From S2P Require Import Prelude Net Metadata RuleMatch RuleSpec RuleItems DnsMode RouteContext Sniff.
From S2P Require Import Lifecycle StartOrder Managers Route RouteFrame RouteConn.

Open Scope Z_scope.

Section walk.
Context {I : Type} `{RuleItem I, !RuleItemLaws I}.
Context `{Env} `{SniffLibrary} `{RouteLibrary} `{OutboundInterfaces} `{RouteDNS} `{Searchers}.
Context {Q : Type} `{QUICSniffCache Q}.
Context {A : Type} (rules : list (RouterRule I)) (w : managers (A := A)).
#[local] Abbreviation Flow := (Flow (Q := Q)).
Implicit Types (x : RouteContext) (f : Flow) (r : RouterRule I).

(** ** The bookkeeping of the engine *)

Definition cache_of f : RuleCache := ic_cache (rx_md (fl_x f)).

Lemma cache_of_frame x y : frame x = frame y -> ic_cache (rx_md x) = ic_cache (rx_md y).
Proof. by intros [= _ -> _ _]. Qed.

Lemma actionSniff_frame input action f : frame (fl_x (actionSniff input action f).2) = frame (fl_x f).
Proof.
  unfold actionSniff. destruct (_ || _); [done|]. destruct input; [| |done].
  - destruct (_ && _); [done|].
    pose proof (peek_rounds_frame os_ErrDeadlineExceeded
      (if isnil (sn_StreamSniffers action) then defaultStreamSniffers else sn_StreamSniffers action)
      (fl_buffers f) true None [] (fl_x f) (fl_reads f)) as Hf. unfold PeekStream.
    by destruct (peek_rounds _ _ _ _ _ _ _ _) as [[[err x'] buffer] reads].
  - destruct (_ && _); [done|].
    pose proof (framed_with_frame _ (fl_x f) (framed_sniff_buffered action (fl_packetBuffers f))) as Hb.
    assert (Hfin : forall err x q, frame (sniff_finally (Q := Q) err x q).1 = frame x).
    { intros [e|] x q; [done|]. cbn. pose proof (framed_processQUICSniff q (frame x) x) as Hp.
      rewrite reframe_frame in Hp. rewrite Hp. apply frame_reframe. }
    destruct (sniff_buffered _ _ _) as [[err|] x1]; cbn [fst snd] in Hb.
    + specialize (Hfin err x1 (fl_cache f)). destruct (sniff_finally _ _ _) as [x2 q]. cbn in *. congruence.
    + pose proof (sniff_reads_frame action os_ErrDeadlineExceeded (fl_packetReads f) [] x1) as Hr.
      destruct (sniff_reads _ _ _ _ _) as [[[[err fatal] packets] rest] x2]. cbn in Hr.
      specialize (Hfin err x2 (fl_cache f)). destruct (nonnone fatal); [cbn; congruence|].
      destruct (sniff_finally _ _ _) as [x3 q]. cbn in *. congruence.
Qed.

Lemma perform_cache input action f : cache_of (perform input action f).2 = cache_of f.
Proof.
  assert (Ho : forall ro, cache_of (with_x f (apply_route_options ro (fl_x f))) = cache_of f).
  { intros ro. unfold cache_of, apply_route_options, applyRouteOptionsOverride. cbn. by repeat case_match. }
  destruct action as [outbound ro|ro|outbound ro| | | |sniff| |resolve]; cbn; try done.
  - destruct (empty_string outbound); [done|apply Ho].
  - apply cache_of_frame, actionSniff_frame.
  - destruct (empty_string _); [done|]. apply cache_of_frame, framed_frame, framed_override.
  - destruct (actionResolve resolve (fl_x f)) as [x|e] eqn:Hr; [|done]. cbn. by apply cache_of_frame, (actionResolve_frame resolve).
Qed.

(** ** Rules by their meaning *)

Definition fresh x : InboundContext := ResetRuleCache (rx_md x).

(** The rule applies to the connection as it is. *)
Definition applies r f : bool :=
  negb (rr_disabled r) && sat (rr_rule r) (fresh (fl_x f)) && negb (passes w (rr_action r)).

(** The connection after an enabled rule was looked at: only bookkeeping changes. *)
Definition considered r f : Flow :=
  if rr_disabled r then f else with_x f (with_md (fl_x f) (Match (rr_rule r) (fresh (fl_x f))).2).

Lemma considered_conn r f : rx_conn (fl_x (considered r f)) = rx_conn (fl_x f).
Proof.
  unfold considered. destruct (rr_disabled r); [done|]. cbn.
  pose proof (Match_same (rr_rule r) (fresh (fl_x f))) as [Hv _]. exact (f_equal ic_conn Hv).
Qed.

Definition plain f : Prop := IgnoreDestinationIPCIDRMatch (rx_md (fl_x f)) = false.

Lemma considered_plain r f : plain f -> plain (considered r f).
Proof.
  unfold plain, considered. intros Hp. destruct (rr_disabled r); [done|]. cbn.
  pose proof (Match_same (rr_rule r) (fresh (fl_x f))) as [_ ->]. done.
Qed.

Lemma perform_plain input action f : plain f -> plain (perform input action f).2.
Proof.
  unfold plain, IgnoreDestinationIPCIDRMatch. intros Hp. pose proof (perform_cache input action f) as Hc.
  unfold cache_of in Hc. by rewrite Hc.
Qed.

Lemma prepared_plain f x : plain f -> prepareMatchMetadata (fl_x f) = Ok x -> plain (with_x f x).
Proof.
  intros Hi Hx. pose proof (framed_prepareMatchMetadata (frame (fl_x f)) (fl_x f)) as Hf. rewrite reframe_frame, Hx in Hf.
  injection Hf as Hf. apply (f_equal frame) in Hf. rewrite frame_reframe in Hf. apply cache_of_frame in Hf.
  unfold plain, IgnoreDestinationIPCIDRMatch in *. cbn. by rewrite Hf.
Qed.

(** The rules that are passed over, from one state of the connection to another. *)
Inductive passed_over (input : Input) : list (RouterRule I) -> Flow -> Flow -> Prop :=
| over_nil f : passed_over input [] f f
| over_skip r l f f' : applies r f = false -> passed_over input l (considered r f) f' -> passed_over input (r :: l) f f'
| over_perform r l f f1 f' : applies r f = true -> is_final (rr_action r) = false ->
    perform input (rr_action r) (considered r f) = (None, f1) -> passed_over input l f1 f' ->
    passed_over input (r :: l) f f'.

(** What the walk returns. *)
Definition walk_result (input : Input) (l : list (RouterRule I)) (i : nat) f (res : result (option (nat * RouterRule I))) (f' : Flow)
    : Prop :=
  match res with
  | Ok None => passed_over input l f f'
  | Ok (Some (j, r)) => exists l1 l2 f1, l = l1 ++ r :: l2 /\ j = (i + length l1)%nat /\ passed_over input l1 f f1 /\
      applies r f1 = true /\ is_final (rr_action r) = true /\ perform input (rr_action r) (considered r f1) = (None, f')
  | Err e => exists l1 r l2 f1, l = l1 ++ r :: l2 /\ passed_over input l1 f f1 /\
      applies r f1 = true /\ perform input (rr_action r) (considered r f1) = (Some e, f')
  end.

(** One rule further. *)
Lemma walk_result_cons input r l i f f1 res f' :
  (forall l' f'', passed_over input l' f1 f'' -> passed_over input (r :: l') f f'') ->
  walk_result input l (S i) f1 res f' -> walk_result input (r :: l) i f res f'.
Proof.
  intros Hr. destruct res as [[[j r']|]|e]; cbn.
  - intros (l1 & l2 & f2 & -> & -> & Hp & Hrest). exists (r :: l1), l2, f2. cbn. split_and!; [done|lia|by apply Hr|..]; tauto.
  - apply Hr.
  - intros (l1 & r' & l2 & f2 & -> & Hp & Hrest). exists (r :: l1), r', l2, f2. cbn. split_and!; [done|by apply Hr|..]; tauto.
Qed.

Lemma match_rules_walk input l i f : plain f ->
  walk_result input l i f (match_rules w input i l f).1 (match_rules w input i l f).2.
Proof.
  revert i f. induction l as [|r l IH]; intros i f Hp; cbn; [constructor|].
  assert (Hskip : applies r f = false -> walk_result input (r :: l) i f (match_rules w input (S i) l (considered r f)).1
    (match_rules w input (S i) l (considered r f)).2).
  { intros Ha. apply (walk_result_cons _ _ _ _ _ (considered r f)); [by intros; apply over_skip|].
    by apply IH, considered_plain. }
  destruct (rr_disabled r) eqn:Hd.
  { unfold considered in Hskip. rewrite Hd in Hskip. apply Hskip. unfold applies. by rewrite Hd. }
  destruct (Match_exact (rr_rule r) (fresh (fl_x f))) as [Hm _]; [by split|].
  pose proof (considered_plain r f Hp) as Hcp.
  assert (Hc : considered r f = with_x f (with_md (fl_x f) (Match (rr_rule r) (fresh (fl_x f))).2))
    by (unfold considered; by rewrite Hd).
  unfold fresh in *. destruct (Match (rr_rule r) _) as [matched m]. cbn [fst snd] in *. rewrite <- Hc.
  destruct (negb matched || passes w (rr_action r)) eqn:Hn.
  { apply Hskip. unfold applies, fresh. rewrite Hd, <- Hm. by destruct matched, (passes _ _). }
  assert (Ha : applies r f = true) by (unfold applies, fresh; rewrite Hd, <- Hm; by destruct matched, (passes _ _)).
  pose proof (perform_plain input (rr_action r) _ Hcp) as Hpp.
  destruct (perform input (rr_action r) (considered r f)) as [[e|] f2] eqn:Hperf.
  - exists [], r, l, f. split_and!; [done|constructor|done|done].
  - destruct (is_final (rr_action r)) eqn:Hfin.
    + exists [], l, f. split_and!; [done|cbn; lia|constructor|done..].
    + apply (walk_result_cons _ _ _ _ _ f2); [by intros; eapply over_perform|]. by apply IH.
Qed.

(** Looking at a rule changes nothing for the others. *)
Lemma applies_considered r r' f : applies r' (considered r f) = applies r' f.
Proof.
  unfold applies, considered. destruct (rr_disabled r); [done|]. cbn. do 2 f_equal. apply sat_view.
  pose proof (Match_same (rr_rule r) (fresh (fl_x f))) as [Hv _]. destruct (Match _ _) as [matched m]. cbn in *.
  destruct m as [conn resp named from cache]. unfold item_view in Hv. injection Hv as -> -> -> -> _ _. done.
Qed.

Lemma final_performs input action f : is_final action = true -> (perform input action f).1 = None.
Proof. destruct action as [| |outbound ro| | | | | |]; cbn; by try destruct (empty_string outbound). Qed.

Definition is_first (i : nat) (found : option (nat * RouterRule I)) : option (nat * RouterRule I) :=
  match found with Some (j, r) => Some ((i + j)%nat, r) | None => None end.

(** Rules that all decide: the first that applies. *)
Lemma final_rules input l i f : plain f -> Forall (fun r => is_final (rr_action r) = true) l ->
  (match_rules w input i l f).1 = Ok (is_first i (list_find (fun r => applies r f = true) l)).
Proof.
  intros Hp Hl. pose proof (match_rules_walk input l i f Hp) as Hw.
  assert (Hover : forall l' f1 f', Forall (fun r => is_final (rr_action r) = true) l' -> passed_over input l' f1 f' ->
    Forall (fun r => applies r f1 = false) l' /\ forall r, applies r f' = applies r f1).
  { intros l' f1 f' Hl' Ho. induction Ho as [|r l' f1 f' Ha _ IH|r l' f1 f2 f' _ Hf]; [done| |].
    - apply Forall_cons in Hl' as [_ Hl']. destruct (IH Hl') as [H1' H2']. split.
      + constructor; [done|]. eapply Forall_impl; [exact H1'|]. intros r' Hr'. cbn in Hr'. by rewrite applies_considered in Hr'.
      + intros r'. by rewrite H2', applies_considered.
    - apply Forall_cons in Hl' as [Hl' _]. congruence. }
  destruct (match_rules w input i l f) as [[[[j r]|]|e] f']; cbn in *.
  - destruct Hw as (l1 & l2 & f1 & -> & -> & Ho & Ha & _). apply Forall_app in Hl as [Hl _].
    destruct (Hover _ _ _ Hl Ho) as [Hn He]. rewrite He in Ha. do 2 f_equal.
    assert (Hfind : list_find (fun r => applies r f = true) (l1 ++ r :: l2) = Some (length l1, r)); [|by rewrite Hfind].
    apply list_find_Some. split_and!; [by rewrite lookup_app_r, Nat.sub_diag by lia|done|].
    intros k y Hk Hlt. rewrite lookup_app_l in Hk by done. rewrite Forall_lookup in Hn. by rewrite (Hn _ _ Hk).
  - destruct (Hover _ _ _ Hl Hw) as [Hn _]. replace (list_find _ l) with (@None (nat * RouterRule I)); [done|].
    symmetry. apply list_find_None. eapply Forall_impl; [exact Hn|]. intros r Hr. by rewrite Hr.
  - destruct Hw as (l1 & r & l2 & f1 & -> & _ & _ & Hperf). apply Forall_app in Hl as [_ [Hl _]%Forall_cons].
    pose proof (final_performs input _ (considered r f1) Hl) as Hn. by rewrite Hperf in Hn.
Qed.
End walk.

(** ** Groups of outbounds *)

Section groups.
Context `{OutboundInterfaces} (network : string) (x : RouteContext).
Implicit Types (o : Outbound).

(** The group [g] sends the connection to [o]. *)
Definition follows (g o : Outbound) : Prop :=
  exists selected, asOutboundGroup g = Some selected /\ group_next g selected network x = Some o.

(** What comes after an outbound in its chain: what the groups choose, down to an outbound
    that takes the connection. *)
Inductive chain_from : Outbound -> list Outbound -> Prop :=
| chain_end o : asOutboundGroup o = None -> network ∈ ob_Network o -> chain_from o []
| chain_group o next tail : follows o next -> chain_from next tail -> chain_from o (next :: tail).

Lemma resolve_loop_chain fuel o chain c :
  resolve_loop fuel o network x chain = Some (Ok c) -> exists tail, c = chain ++ tail /\ chain_from o tail.
Proof.
  revert o chain. induction fuel as [|fuel IH]; intros o chain; cbn; [done|].
  destruct (asOutboundGroup o) as [selected|] eqn:Hg.
  - destruct (group_next o selected network x) as [next|] eqn:Hn; [|done].
    intros (tail & -> & Ht)%IH. exists (next :: tail). rewrite <- app_assoc. split; [done|].
    constructor; [|done]. by exists selected.
  - case_bool_decide as Hw; [|done]. intros [= <-]. exists []. rewrite app_nil_r. split; [done|by constructor].
Qed.

(** Groups that choose among what was started before them. *)
Lemma resolve_loop_ends order fuel i o chain : NoDup (tags order) -> dependencies_first order ->
  (forall g next, g ∈ order -> follows g next -> next ∈ order /\ ob_Tag next ∈ ob_Dependencies g) ->
  order !! i = Some o -> (i < fuel)%nat -> exists r, resolve_loop fuel o network x chain = Some r.
Proof.
  intros Hn Hd Hf. revert i o chain. induction fuel as [|fuel IH]; intros i o chain Hi Hlt; [lia|]. cbn.
  destruct (asOutboundGroup o) as [selected|] eqn:Hg; [|case_bool_decide; eauto].
  destruct (group_next o selected network x) as [next|] eqn:Hnext; [|eauto].
  destruct (Hf o next) as [Hin Hdep]; [by apply list_elem_of_lookup_2 in Hi|by exists selected|].
  pose proof (Hd _ _ _ Hi Hdep) as (o' & Htag & Ho')%list_elem_of_fmap.
  apply list_elem_of_lookup in Ho' as [j Hj]. apply lookup_take_Some in Hj as [Hj Hlt'].
  apply list_elem_of_lookup in Hin as [j' Hj'].
  assert (j' = j) as ->.
  { apply (NoDup_lookup (tags order) j' j (ob_Tag next)); [done|..]; unfold tags; rewrite list_lookup_fmap.
    - by rewrite Hj'.
    - rewrite Hj. cbn. by rewrite Htag. }
  apply (IH j); [done|lia].
Qed.
End groups.

(** ** What was read is still there *)

Definition data_of (reads : list ReadEvent) : list Z :=
  flat_map (fun e => match e with ReadData data => data | _ => [] end) reads.

Definition packets_of (events : list PacketEvent) : list (list Z * Socksaddr) :=
  flat_map (fun e => match e with PacketData data destination => [(data, destination)] | _ => [] end) events.

Section data.
Context {I : Type} `{RuleItem I} `{Env} `{SniffLibrary} `{RouteLibrary} `{OutboundInterfaces} `{RouteDNS} `{Searchers}.
Context {Q : Type} `{QUICSniffCache Q}.
Context {A : Type} (rules : list (RouterRule I)) (w : managers (A := A)).
#[local] Abbreviation Flow := (Flow (Q := Q)).
Implicit Types (f : Flow).

Lemma peek_rounds_data timeout sniffers buffers first err buffer x reads :
  let '(_, _, buffer', rest) := peek_rounds timeout sniffers buffers first err buffer x reads in
  buffer' ++ data_of rest = buffer ++ data_of reads.
Proof.
  revert first err buffer x. induction reads as [|[data|e|e] reads IH]; intros first err buffer x; cbn; [done| |done|done].
  destruct (try_sniffers _ _ _ _) as [err' x']. rewrite app_assoc. destruct (needs_more err'); [|done]. apply IH.
Qed.

Lemma sniff_reads_data action timeout events packets x :
  let '(_, _, packets', rest, _) := sniff_reads action timeout events packets x in
  packets' ++ packets_of rest = packets ++ packets_of events.
Proof.
  revert packets x. induction events as [|[data d| |e|e] events IH]; intros packets x; cbn; [done| |done..].
  destruct (sniff_packet _ _ _) as [err x']. 
  assert (Happ : packets ++ packets_of (PacketData data d :: events) = (packets ++ [(data, d)]) ++ packets_of events)
    by (by rewrite <- app_assoc).
  cbn in Happ. rewrite Happ.
  destruct (needs_more err); [|done]. apply IH.
Qed.

(** What the client sent on a stream, and the packets that arrived. *)
Definition stream_of f : list Z := concat (fl_buffers f) ++ data_of (fl_reads f).
Definition all_packets f : list (list Z * Socksaddr) := fl_packetBuffers f ++ packets_of (fl_packetReads f).

Definition is_sniff (action : RuleAction) : bool := match action with ActionSniff _ => true | _ => false end.

(** A step keeps what arrived, and adds at most [n] buffers. *)
Definition keeps (n : nat) f f' : Prop :=
  stream_of f' = stream_of f /\ all_packets f' = all_packets f /\ (length (fl_buffers f') <= length (fl_buffers f) + n)%nat.

Lemma keeps_trans n n' f f1 f' : keeps n f f1 -> keeps n' f1 f' -> keeps (n + n') f f'.
Proof. intros (Ha & Hb & Hc) (Ha' & Hb' & Hc'). unfold keeps. split_and!; [congruence|congruence|lia]. Qed.

Lemma keeps_with_x n f x : keeps n f (with_x f x).
Proof. unfold keeps, stream_of, all_packets. cbn. split_and!; [done|done|lia]. Qed.

Lemma actionSniff_keeps input action f : keeps 1 f (actionSniff input action f).2.
Proof.
  assert (Hsame : keeps 1 f f) by (split_and!; [done|done|lia]).
  unfold actionSniff. destruct (_ || _); [done|]. destruct input; [| |done].
  - destruct (_ && _); [done|].
    pose proof (peek_rounds_data os_ErrDeadlineExceeded
      (if isnil (sn_StreamSniffers action) then defaultStreamSniffers else sn_StreamSniffers action)
      (fl_buffers f) true None [] (fl_x f) (fl_reads f)) as Hd. unfold PeekStream.
    destruct (peek_rounds _ _ _ _ _ _ _ _) as [[[err x'] buffer] reads]. unfold keeps, stream_of, all_packets. cbn in *.
    rewrite <- Hd. destruct buffer as [|b buffer]; cbn; [split_and!; [done|done|lia]|].
    rewrite concat_app, length_app. cbn. rewrite app_nil_r, <- app_assoc. split_and!; [done|done|lia].
  - destruct (_ && _); [done|]. destruct (sniff_buffered _ _ _) as [[err|] x1].
    + destruct (sniff_finally _ _ _) as [x2 q]. unfold keeps, stream_of, all_packets. cbn. split_and!; [done|done|lia].
    + pose proof (sniff_reads_data action os_ErrDeadlineExceeded (fl_packetReads f) [] x1) as Hd.
      destruct (sniff_reads _ _ _ _ _) as [[[[err fatal] packets] rest] x2]. cbn [app] in Hd.
      destruct (if nonnone fatal then _ else _) as [x3 q]. unfold keeps, stream_of, all_packets.
      cbn [snd fl_buffers fl_reads fl_packetBuffers fl_packetReads].
      rewrite <- (app_assoc (fl_packetBuffers f)), Hd. split_and!; [done|done|lia].
Qed.

Lemma perform_keeps input action f : keeps (if is_sniff action then 1 else 0) f (perform input action f).2.
Proof.
  assert (Hsame : keeps 0 f f) by (split_and!; [done|done|lia]).
  destruct action as [outbound ro|ro|outbound ro| | | |sniff| |resolve]; cbn; try done; try apply keeps_with_x.
  - destruct (empty_string outbound); [done|apply keeps_with_x].
  - apply actionSniff_keeps.
  - destruct (empty_string _); [done|apply keeps_with_x].
  - destruct (actionResolve resolve (fl_x f)); [apply keeps_with_x|done].
Qed.

(** The enabled rules that sniff. *)
Definition sniff_rules (l : list (RouterRule I)) : nat :=
  length (List.filter (fun r => negb (rr_disabled r) && is_sniff (rr_action r)) l).

Lemma match_rules_keeps input i l f : keeps (sniff_rules l) f (match_rules w input i l f).2.
Proof.
  revert i f. induction l as [|r l IH]; intros i f; cbn [match_rules]; [split_and!; [done|done|cbn; lia]|].
  assert (Hmono : forall f', keeps (sniff_rules l) f f' -> keeps (sniff_rules (r :: l)) f f').
  { intros f' (H1' & H2' & H3'). split_and!; [done|done|]. unfold sniff_rules in *. cbn. destruct (_ && _); cbn; lia. }
  destruct (rr_disabled r) eqn:Hd; [by apply Hmono|].
  destruct (Match _ _) as [matched m]. set (f1 := with_x f (with_md (fl_x f) m)).
  assert (Hf1 : keeps 0 f f1) by apply keeps_with_x.
  destruct (_ || _); [apply Hmono; by apply (keeps_trans 0 _ _ f1)|].
  pose proof (perform_keeps input (rr_action r) f1) as Hp.
  assert (Hstep : forall n f', keeps n (perform input (rr_action r) f1).2 f' -> (n <= sniff_rules l)%nat ->
    keeps (sniff_rules (r :: l)) f f').
  { intros n f' Hk Hn. pose proof (keeps_trans _ _ _ _ _ Hf1 (keeps_trans _ _ _ _ _ Hp Hk)) as (H1' & H2' & H3').
    split_and!; [done|done|]. unfold sniff_rules in *. cbn. rewrite Hd. cbn. destruct (is_sniff _); cbn; lia. }
  destruct (perform input (rr_action r) f1) as [[e|] f2]; cbn [fst snd] in *.
  - apply (Hstep 0%nat); [split_and!; [done|done|cbn; lia]|lia].
  - destruct (is_final _); [apply (Hstep 0%nat); [split_and!; [done|done|cbn; lia]|lia]|]. by apply (Hstep (sniff_rules l)).
Qed.

Lemma matchRule_keeps input f : keeps (sniff_rules rules) f (matchRule rules w input f).2.
Proof.
  unfold matchRule. destruct (prepareMatchMetadata (fl_x f)) as [x|e].
  - apply (keeps_trans 0 _ _ (with_x f x)); [apply keeps_with_x|apply match_rules_keeps].
  - split_and!; [done|done|cbn; lia].
Qed.
End data.

(** ** What the outbound reads *)

(** sing's cached connections: the buffer comes first. *)
Class CachedConnLaws (C P : Type) `{CachedConns C P} (delivers : C -> list Z) (packets : P -> list (list Z * Socksaddr)) : Prop := {
  delivers_conn reads : delivers (conn_of reads) = data_of reads;
  delivers_cached c b : delivers (NewCachedConn c b) = b ++ delivers c;
  packets_conn events : packets (packetConn_of events) = packets_of events;
  packets_cached c b d : packets (NewCachedPacketConn c b d) = (b, d) :: packets c;
  packets_read c : match packets c with
                   | [] => ReadPacket c = None
                   | p :: rest => exists c', ReadPacket c = Some (p, c') /\ packets c' = rest
                   end
}.

(** The first [n] packets that are read. *)
Fixpoint read_packets {X : Type} (read : X -> option (list Z * Socksaddr * X)) (n : nat) (c : X) : list (list Z * Socksaddr) :=
  match n with
  | O => []
  | S n' => match read c with None => [] | Some (p, c') => p :: read_packets read n' c' end
  end.

(** Where the outbound sees a packet go: what was sent to the original destination goes to
    the one the rules chose, in its address and domain. *)
Definition translated (x : RouteContext) (d : Socksaddr) : Socksaddr :=
  if (rx_FakeIP x || rx_DestOverride x) && bool_decide (sa_Addr d = sa_Addr (rx_OriginDestination x))
  then mkSocksaddr (sa_Addr (Destination x)) (sa_Port d) (sa_Fqdn (Destination x)) else d.

Section delivered.
Context {C P : Type} `{CachedConns C P} (delivers : C -> list Z) (packets : P -> list (list Z * Socksaddr)).
Context `{!CachedConnLaws C P delivers packets}.

Lemma cached_conn_delivers buffers reads : delivers (cached_conn buffers reads) = concat (rev buffers) ++ data_of reads.
Proof.
  unfold cached_conn. induction buffers as [|b buffers IH] using rev_ind; cbn; [apply delivers_conn|].
  rewrite foldl_app, rev_app_distr. cbn. by rewrite delivers_cached, IH, app_assoc.
Qed.

Lemma cached_packet_conn_packets buffers events :
  packets (cached_packet_conn buffers events) = buffers ++ packets_of events.
Proof.
  unfold cached_packet_conn. induction buffers as [|[b d] buffers IH]; cbn; [apply packets_conn|].
  rewrite foldl_app. cbn. by rewrite packets_cached, IH.
Qed.

Lemma read_plain n c : read_packets routed_ReadPacket n (PlainPacketConn c) = take n (packets c).
Proof.
  revert c. induction n as [|n IH]; intros c; [done|]. cbn. pose proof (packets_read c) as Hr. destruct (packets c) as [|[b d] rest].
  - by rewrite Hr.
  - destruct Hr as (c' & -> & <-). cbn. by rewrite IH.
Qed.

(** The destination of a translated packet depends on neither of the packets before. *)
Lemma rewriteReadDestination_spec d (c : fakeIPNATPacketConn P) :
  let '(d', c') := rewriteReadDestination d c in
  d' = (if bool_decide (sa_Addr d = sa_Addr (nat_origin c))
        then mkSocksaddr (sa_Addr (nat_destination c)) (sa_Port d) (sa_Fqdn (nat_destination c)) else d) /\
  nat_NetPacketConn c' = nat_NetPacketConn c /\ nat_origin c' = nat_origin c /\ nat_destination c' = nat_destination c.
Proof. unfold rewriteReadDestination. destruct (bool_decide _); [done|]. by destruct (addr_IsValid _). Qed.

Lemma read_nat n (c : fakeIPNATPacketConn P) :
  read_packets routed_ReadPacket n (NATPacketConn c) =
  take n (map (fun p => (p.1, if bool_decide (sa_Addr p.2 = sa_Addr (nat_origin c))
                              then mkSocksaddr (sa_Addr (nat_destination c)) (sa_Port p.2) (sa_Fqdn (nat_destination c)) else p.2))
            (packets (nat_NetPacketConn c))).
Proof.
  revert c. induction n as [|n IH]; intros c; [done|]. cbn. unfold nat_ReadPacket. pose proof (packets_read (nat_NetPacketConn c)) as Hr.
  destruct (packets (nat_NetPacketConn c)) as [|[b d] rest]; [by rewrite Hr|]. destruct Hr as (conn & -> & <-).
  pose proof (rewriteReadDestination_spec d (with_NetPacketConn conn c)) as Hs. destruct (rewriteReadDestination _ _) as [d' c'].
  destruct Hs as (-> & Hc & Ho & Hd). cbn in *. by rewrite IH, Hc, Ho, Hd.
Qed.

(** What an outbound reads from a connection of the router. *)
Lemma read_routed n x c :
  read_packets routed_ReadPacket n
    (if rx_FakeIP x || rx_DestOverride x then NATPacketConn (newFakeIPNATPacketConn c (rx_OriginDestination x) (Destination x)) else PlainPacketConn c) =
  take n (map (fun p => (p.1, translated x p.2)) (packets c)).
Proof.
  unfold translated. destruct (_ || _); [by rewrite read_nat|]. rewrite read_plain. f_equal. symmetry.
  erewrite map_ext; [apply map_id|]. by intros [].
Qed.
End delivered.

(** ** Replies *)

(** What changes a connection that translates addresses: a packet of the client is read, or
    the outbound tells the address it has resolved. *)
Inductive NATOp : Type := NATRead (destination : Socksaddr) | NATUpdate (address : Addr).

Definition nat_op {P : Type} (c : fakeIPNATPacketConn P) (op : NATOp) : fakeIPNATPacketConn P :=
  match op with
  | NATRead destination => (rewriteReadDestination destination c).2
  | NATUpdate address => UpdateDestination address c
  end.

Definition nat_run {P : Type} (ops : list NATOp) (c : fakeIPNATPacketConn P) : fakeIPNATPacketConn P := foldl nat_op c ops.

(** The addresses the client has sent packets to, the original one apart. *)
Definition sent_to (origin : Socksaddr) (ops : list NATOp) (a : Addr) : Prop :=
  exists d, NATRead d ∈ ops /\ sa_Addr d = a /\ addr_IsValid a = true /\ a <> sa_Addr origin.

Lemma nat_run_direct {P : Type} ops (c : fakeIPNATPacketConn P) :
  nat_origin (nat_run ops c) = nat_origin c /\
  forall a, a ∈ nat_directDestinations (nat_run ops c) <-> a ∈ nat_directDestinations c \/ sent_to (nat_origin c) ops a.
Proof.
  revert c. induction ops as [|op ops IH]; intros c; cbn.
  { split; [done|]. intros a. split; [by left|]. by intros [|(d & Hd%not_elem_of_nil & _)]. }
  destruct (IH (nat_op c op)) as [Ho Hd]. fold (nat_run ops (nat_op c op)).
  assert (Hop : nat_origin (nat_op c op) = nat_origin c /\ forall a, a ∈ nat_directDestinations (nat_op c op) <-> a ∈ nat_directDestinations c \/ sent_to (nat_origin c) [op] a).
  { unfold sent_to. destruct op as [d|a']; cbn; [|split; [done|]; set_solver]. unfold rewriteReadDestination.
    destruct (bool_decide_reflect (sa_Addr d = sa_Addr (nat_origin c))) as [Ho2|Ho2]; [|destruct (addr_IsValid (sa_Addr d)) eqn:Hv]; (split; [done|]); cbn; intros a.
    - split; [by left|]. intros [|(e & [= ->]%list_elem_of_singleton & <- & _ & ?)]; [done|congruence].
    - rewrite elem_of_union, elem_of_singleton. split.
      + intros [->|]; [right; exists d; split; [by left|done]|by left].
      + intros [|(e & [= ->]%list_elem_of_singleton & <- & _)]; [by right|by left].
    - split; [by left|]. intros [|(e & [= ->]%list_elem_of_singleton & <- & ? & _)]; [done|congruence]. }
  destruct Hop as [Ho' Hd']. split; [congruence|]. intros a. rewrite Hd, Hd', Ho'. unfold sent_to. set_solver.
Qed.

(** Trackers that hand on what they wrap. *)
Lemma tracked {C I T : Type} (view : C -> T) (trackers : list (C -> RouteContext -> option (nat * RouterRule I) -> Outbound -> C)) x rule o c :
  Forall (fun track => forall c x rule o, view (track c x rule o) = view c) trackers ->
  view (foldl (fun conn track => match o with Some o => track conn x rule o | None => conn end) c trackers) = view c.
Proof.
  intros Ht. revert c. induction Ht as [|track trackers Htr _ IH]; intros c; cbn; [done|]. rewrite IH. by destruct o.
Qed.
