(* ===== verification/RouteJudge.v ===== *)
(** * Judging a packet and routing its connection

    [PreMatch] walks the rules on the first packet of a flow; if the flow is not judged, a
    connection is made of it and [matchRule] walks them again.  Both walks go in step. *)

From stdpp Require Import base gmap strings list.
From Stdlib Require Import ZArith Lia.
From S2P Require Import Prelude Net Metadata RuleMatch RuleSpec RuleItems DnsMode RouteContext Sniff.
From S2P Require Import Lifecycle StartOrder Managers Route RouteFrame RouteConn RouteOk.

Open Scope Z_scope.

(** ** What stays during the walk *)

(** The network, and the error of the last attempt to sniff. *)
Definition steady (x : RouteContext) : string * option error := (cf_Network (rx_conn x), sf_SniffError (rx_sniff x)).

Lemma steady_eq x y : steady x = steady y ->
  cf_Network (rx_conn x) = cf_Network (rx_conn y) /\ sf_SniffError (rx_sniff x) = sf_SniffError (rx_sniff y).
Proof. by intros [= -> ->]. Qed.

Section steady.
Context `{Env} `{SniffLibrary} `{RouteLibrary} `{RouteDNS} `{Searchers}.
Context {Q : Type} `{QUICSniffCache Q}.
Implicit Types (x y : RouteContext).

Lemma steady_same x y : same_route x y -> steady x = steady y.
Proof. by intros [k ->]. Qed.

Lemma steady_run_PacketSniffer s packet x : steady (run_PacketSniffer s packet x).2 = steady x.
Proof.
  destruct s; cbn; unfold sniff_QUICClientHello, sniff_QUICShortHeader, sniff_DomainNameQuery, sniff_STUNMessage, sniff_UTP,
    sniff_UDPTracker, sniff_DTLSRecord, sniff_NTP, when, sniffed, sniff_fails; by repeat case_match.
Qed.

Lemma steady_PeekPacket packet sniffers x : steady (PeekPacket packet sniffers x).2 = steady x.
Proof.
  unfold PeekPacket. generalize (@nil error). revert x. induction sniffers as [|s sniffers IH]; intros x errs; cbn; [done|].
  pose proof (steady_run_PacketSniffer s packet x) as Hs. destruct (run_PacketSniffer s packet x) as [[e|] x']; cbn in *; [|done].
  by rewrite IH.
Qed.

Lemma steady_processQUICSniff x (q : Q) : steady (processQUICSniff x q).1 = steady x.
Proof.
  unfold processQUICSniff. destruct (negb _); [done|]. destruct (negb _); [done|].
  by destruct (quic_LoadAndRefresh _ _) as [[h|] q'].
Qed.

Lemma steady_override input x : steady (actionSniffOverrideDestination input x) = steady x.
Proof. unfold actionSniffOverrideDestination. destruct (_ && _); [|done]. by destruct input. Qed.

Lemma steady_options ro x : steady (applyRouteOptionsOverride ro x) = steady x.
Proof. unfold applyRouteOptionsOverride. by repeat case_match. Qed.

Lemma steady_actionResolve action x x' : actionResolve action x = Ok x' -> steady x' = steady x.
Proof.
  unfold actionResolve. destruct (IsDomain _); cbn; [|by intros [= ->]]. destruct (if empty_string _ then _ else _); cbn; [|done].
  destruct (dns_Lookup _ _ _); cbn; [|done]. intros [= <-]. by destruct (rv_MatchOnly action).
Qed.

Lemma steady_prepare x x' : prepareMatchMetadata x = Ok x' -> steady x' = steady x.
Proof.
  unfold prepareMatchMetadata. cbv zeta.
  assert (Hs : steady (searchNeighbor (searchProcessInfo x)) = steady x).
  { unfold searchNeighbor, searchProcessInfo. repeat (case_match; try done). }
  assert (Hv : forall y, steady (set_IPVersion_of_destination y) = steady y)
    by (intros; unfold set_IPVersion_of_destination; by repeat case_match).
  destruct (is_fake _); [destruct (o _); [|done]|]; intros [= <-]; rewrite Hv, <- Hs; by repeat case_match.
Qed.

(** Overriding, when the address stays. *)
Lemma same_route_options ro x y : socks_IsValid (rp_OverrideAddress ro) = false -> same_route x y ->
  same_route (applyRouteOptionsOverride ro x) (apply_route_options ro y).
Proof.
  intros Hv [k ->]. apply (reframe_same k). unfold apply_route_options, applyRouteOptionsOverride. rewrite Hv.
  destruct y as [[[] ? ? ? ?] [] [] ? ? ? ? ? ? ?]. cbn. by repeat case_match.
Qed.
End steady.

(** ** Both walks *)

Section judge.
Context {I : Type} `{RuleItem I, !RuleItemLaws I}.
Context `{Env} `{SniffLibrary} `{RouteLibrary} `{OutboundInterfaces} `{RouteDNS} `{Searchers}.
Context {Q : Type} `{QUICSniffCache Q}.
Context {A : Type} (w : managers (A := A)) (now : Z).
(** The first packet, where it goes, and what comes after it. *)
Context (packet : list Z) (destination : Socksaddr) (rest : list PacketEvent).
#[local] Abbreviation Flow := (Flow (Q := Q)).
Implicit Types (x y : RouteContext) (f : Flow) (r : RouterRule I).

(** The first packet has been read or has not. *)
Definition first_packet f : Prop :=
  (fl_packetBuffers f = [] /\ fl_packetReads f = PacketData packet destination :: rest) \/
  (fl_packetBuffers f = [(packet, destination)] /\ fl_packetReads f = rest).

Definition in_step x (q : Q) f : Prop :=
  same_route x (fl_x f) /\ q = fl_cache f /\ IgnoreDestinationIPCIDRMatch (rx_md x) = false /\ plain f /\
  first_packet f /\ cf_Network (rx_conn x) = NetworkUDP /\ needs_more (sf_SniffError (rx_sniff x)) = false.

(** A step that leaves the packets alone. *)
Lemma in_step_with x q f x' y' : in_step x q f -> same_route x' y' -> steady x' = steady x ->
  ic_cache (rx_md x') = ic_cache (rx_md x) -> ic_cache (rx_md y') = ic_cache (rx_md (fl_x f)) ->
  in_step x' q (with_x f y').
Proof.
  intros (_ & Hq & Hi & Hp & Hf & Hn & He) Hs [Hn' He']%steady_eq Hc Hc'. unfold in_step, plain, IgnoreDestinationIPCIDRMatch in *.
  rewrite Hn', He'. cbn. rewrite Hc, Hc'. by split_and!.
Qed.

Lemma considered_same r x : same_route (with_md x (Match (rr_rule r) (fresh x)).2) x.
Proof.
  pose proof (Match_same (rr_rule r) (fresh x)) as [Hv _]. destruct (Match (rr_rule r) (fresh x)) as [matched m]. cbn in *.
  exists (mkFrame (cf_PreMatch (rx_conn x)) (ic_cache m) (rx_dial x) (rx_RouteOriginalDestination x)).
  destruct m as [conn resp named from cache], x as [[[] ? ? ? ?] [] [] ? ? ? ? ? ? ?]. unfold item_view in Hv.
  injection Hv as -> -> -> ->. done.
Qed.

Lemma considered_in_step r x q f : in_step x q f ->
  in_step (with_md x (Match (rr_rule r) (fresh x)).2) q (with_x f (with_md (fl_x f) (Match (rr_rule r) (fresh (fl_x f))).2)).
Proof.
  intros (Hs & Hq & Hi & Hp & Hf & Hn & He). pose proof (considered_same r x) as Hx. pose proof (considered_same r (fl_x f)) as Hy.
  pose proof (steady_eq _ _ (steady_same _ _ Hx)) as [Hn' He']. unfold in_step, plain. split_and!.
  - etrans; [exact Hx|]. etrans; [exact Hs|]. by symmetry.
  - done.
  - cbn. by rewrite (proj2 (Match_same (rr_rule r) (fresh x))).
  - cbn. by rewrite (proj2 (Match_same (rr_rule r) (fresh (fl_x f)))).
  - done.
  - by rewrite Hn'.
  - by rewrite He'.
Qed.

(** ** Sniffing the first packet *)

Lemma sniff_finally_same err k y (q : Q) :
  sniff_finally err (reframe k y) q = (reframe k (sniff_finally err y q).1, (sniff_finally err y q).2).
Proof. destruct err; [done|]. apply framed_processQUICSniff. Qed.

Lemma steady_sniff_finally err y (q : Q) : steady (sniff_finally err y q).1 = steady y.
Proof. destruct err; [done|]. apply steady_processQUICSniff. Qed.

(** Nothing is sniffed. *)
Definition skips (action : RuleActionSniff) x : bool :=
  Skip x || negb (empty_string (cf_Protocol (rx_conn x))) || failed_before action x ||
  isnil (sn_PacketSniffers action) && negb (isnil (sn_StreamSniffers action)).

Lemma prematch_sniff_cases action x (q : Q) : packet <> [] -> cf_Network (rx_conn x) = NetworkUDP ->
  needs_more (sf_SniffError (rx_sniff x)) = false ->
  prematch_sniff action packet x q =
  if skips action x then Some (x, q)
  else
    let '(err, x2) := sniff_packet action packet x in
    if needs_more err then None else Some (sniff_finally err x2 q).
Proof.
  intros Hne Hn He. unfold prematch_sniff, skips, failed_before, sniff_packet, quicMoreData. rewrite Hn, He, andb_false_r.
  rewrite (bool_decide_eq_false_2 (NetworkUDP = NetworkICMP)), (bool_decide_eq_true_2 (NetworkUDP = NetworkUDP)) by done.
  replace (isnil packet) with false by (by destruct packet). cbn [negb orb]. rewrite andb_true_r.
  destruct (Skip x || negb (empty_string (cf_Protocol (rx_conn x)))); [done|]. cbn [orb].
  destruct (isnil (sn_PacketSniffers action) && _); [by destruct (names_tried action x && _)|].
  destruct (names_tried action x && _); [done|]. cbn. destruct (PeekPacket _ _ x) as [[e|] x1]; [|done]. by destruct (needs_more (Some e)).
Qed.

(** What [actionSniff] does with the first packet, wherever it is. *)
Lemma actionSniff_cases action f : first_packet f -> needs_more (sniff_packet action packet (fl_x f)).1 = false ->
  if skips action (fl_x f) then actionSniff InputPacketConn action f = (None, f)
  else exists f', actionSniff InputPacketConn action f = (None, f') /\ first_packet f' /\
    (fl_x f', fl_cache f') = sniff_finally (sniff_packet action packet (fl_x f)).1 (sniff_packet action packet (fl_x f)).2 (fl_cache f).
Proof.
  intros Hf Hm. unfold actionSniff, skips. destruct (Skip _ || _ || _); [done|]. cbn [orb].
  destruct (isnil _ && negb _); [done|]. destruct (sniff_packet action packet (fl_x f)) as [err y] eqn:Hp. cbn [fst snd] in *.
  destruct Hf as [[Hb Hr]|[Hb Hr]]; rewrite Hb; cbn [sniff_buffered]; rewrite ?Hr; cbn [sniff_reads]; rewrite Hp, Hm; cbn [nonnone];
    destruct (sniff_finally err y (fl_cache f)) as [x2 q2]; eexists; (split; [reflexivity|]);
    (split; [right; by rewrite ?Hr|done]).
Qed.

Lemma sniff_packet_steady action x :
  steady (sniff_packet action packet x).2 = (cf_Network (rx_conn x), (sniff_packet action packet x).1).
Proof.
  unfold sniff_packet. set (sniffers := if quicMoreData action x then _ else _).
  pose proof (steady_eq _ _ (steady_PeekPacket packet sniffers x)) as [Hn _]. destruct (PeekPacket packet sniffers x) as [err x1].
  cbn [fst snd] in *. rewrite <- Hn. done.
Qed.

Lemma sniff_in_step action x q f x2 q2 : packet <> [] -> in_step x q f -> prematch_sniff action packet x q = Some (x2, q2) ->
  exists f', actionSniff InputPacketConn action f = (None, f') /\ in_step x2 q2 f'.
Proof.
  intros Hne Hst. pose proof Hst as ([k Hx] & -> & Hi & Hp & Hf & Hn & He). rewrite prematch_sniff_cases by done.
  assert (Hsk : skips action x = skips action (fl_x f)) by (by subst x). rewrite Hsk. pose proof (actionSniff_cases action f Hf) as Ha.
  assert (Hpk : sniff_packet action packet x = ((sniff_packet action packet (fl_x f)).1, reframe k (sniff_packet action packet (fl_x f)).2))
    by (rewrite Hx; apply framed_sniff_packet).
  rewrite Hpk. destruct (needs_more (sniff_packet action packet (fl_x f)).1) eqn:Hm.
  { destruct (skips action (fl_x f)) eqn:Hs; [|done]. intros [= <- <-]. exists f. split; [|done].
    unfold actionSniff, skips in *. destruct (Skip _ || _ || _); [done|]. cbn in Hs. by rewrite Hs. }
  specialize (Ha eq_refl). destruct (skips action (fl_x f)); [intros [= <- <-]; by exists f|].
  destruct Ha as (f' & Ha & Hf' & Hfx). intros [= Hx2]. exists f'. split; [done|].
  pose proof (steady_sniff_finally (sniff_packet action packet (fl_x f)).1 (sniff_packet action packet (fl_x f)).2 (fl_cache f)) as Hsf.
  rewrite sniff_finally_same, <- Hfx in Hx2. rewrite <- Hfx in Hsf. injection Hx2 as <- <-. cbn [fst] in Hsf.
  rewrite sniff_packet_steady in Hsf. injection Hsf as Hn2 He2.
  pose proof (actionSniff_frame InputPacketConn action f) as Hff. rewrite Ha in Hff. apply cache_of_frame in Hff. cbn [snd] in Hff.
  unfold in_step. split_and!; [by exists k|done|by subst x| |done| |].
  - unfold plain, IgnoreDestinationIPCIDRMatch in *. by rewrite Hff.
  - change (cf_Network (rx_conn (fl_x f')) = NetworkUDP). rewrite Hn2. by subst x.
  - change (needs_more (sf_SniffError (rx_sniff (fl_x f'))) = false). by rewrite He2.
Qed.

(** ** The rules *)

(** The rule does not ask whether there is a connection yet. *)
Definition blind r : Prop :=
  forall b m, sat (rr_rule r) (with_conn m (conn_PreMatch b (ic_conn m))) = sat (rr_rule r) m.

(** The options of the rule do not replace the address of the connection. *)
Definition keeps_address r : Prop :=
  match rr_action r with ActionRouteOptions ro => socks_IsValid (rp_OverrideAddress ro) = false | _ => True end.

(** Lookups do not depend on the frame either. *)
Definition lookup_blind : Prop :=
  forall k x name options, dns_Lookup (rx_md (reframe k x)) name options = dns_Lookup (rx_md x) name options.

(** A bypass without an outbound is for packets only. *)
Definition bypasses (decided : option (nat * RouterRule I)) : bool :=
  match decided with
  | Some (_, r) => match rr_action r with ActionBypass outbound _ => empty_string outbound | _ => false end
  | None => false
  end.

Lemma blind_same r x y : blind r -> same_route x y -> sat (rr_rule r) (fresh x) = sat (rr_rule r) (fresh y).
Proof. intros Hb [k ->]. rewrite <- (Hb (fr_PreMatch k) (fresh y)). by apply sat_view. Qed.

(** What routing does, given what the packet was judged by. *)
Definition agrees (decided : option (nat * RouterRule I)) (res : result (option (nat * RouterRule I))) : Prop :=
  match res with
  | Ok selected => selected = decided
  | Err _ => exists i r action, decided = Some (i, r) /\ rr_action r = ActionResolve action
  end.

(** The actions that do not end the walk. *)
Lemma resolve_in_step action x q f : lookup_blind -> in_step x q f ->
  match actionResolve action x, actionResolve action (fl_x f) with
  | Ok x', Ok y' => in_step x' q (with_x f y')
  | Err _, Err _ => True
  | _, _ => False
  end.
Proof.
  intros Hl Hst. pose proof Hst as ([k Hx] & _).
  assert (Hr : actionResolve action x = result_frame k (actionResolve action (fl_x f)))
    by (rewrite Hx; apply framed_actionResolve; intros; apply Hl).
  destruct (actionResolve action (fl_x f)) as [y'|e] eqn:Hy; rewrite Hr; [|done]. cbn [result_frame] in *.
  apply (in_step_with x); [done|by exists k|by apply (steady_actionResolve action)|..];
    apply cache_of_frame; by apply (actionResolve_frame action).
Qed.

Lemma override_in_step x q f : in_step x q f ->
  in_step (if empty_string (cf_SniffHost (rx_conn x)) then x else actionSniffOverrideDestination InputPreMatch x) q
    (if empty_string (cf_SniffHost (rx_conn (fl_x f))) then f
     else with_x f (actionSniffOverrideDestination InputPacketConn (fl_x f))).
Proof.
  intros Hst. pose proof Hst as ([k Hx] & _). replace (cf_SniffHost (rx_conn x)) with (cf_SniffHost (rx_conn (fl_x f))) by (by subst x).
  destruct (empty_string _); [done|]. apply (in_step_with x); [done| |apply steady_override|..].
  - exists k. rewrite Hx. exact (framed_override InputPacketConn k (fl_x f)).
  - apply cache_of_frame, framed_frame, framed_override.
  - apply cache_of_frame, framed_frame, framed_override.
Qed.

Lemma options_in_step ro x q f : socks_IsValid (rp_OverrideAddress ro) = false -> in_step x q f ->
  in_step (applyRouteOptionsOverride ro x) q (with_x f (apply_route_options ro (fl_x f))).
Proof.
  intros Hv Hst. pose proof Hst as (Hs & _). apply (in_step_with x); [done|by apply same_route_options|apply steady_options|..].
  - unfold applyRouteOptionsOverride. by repeat case_match.
  - unfold apply_route_options, applyRouteOptionsOverride. by repeat case_match.
Qed.

(** ** The walk *)

Lemma prematch_walk (l : list (RouterRule I)) i x q f packetDestination res decided counter q' : packet <> [] -> lookup_blind ->
  Forall blind l -> Forall keeps_address l -> in_step x q f ->
  prematch_rules w now packet packetDestination i l x q = (res, decided, counter, q') ->
  pm_Action res <> PreMatchContinue -> bypasses decided = false ->
  agrees decided (match_rules w InputPacketConn i l f).1.
Proof.
  intros Hne Hl. revert i x q f. induction l as [|r l IH]; intros i x q f; cbn [prematch_rules match_rules].
  { intros _ _ _ [= _ <- _ _] _ _. done. }
  intros [Hb Hbl]%Forall_cons [Ha Hal]%Forall_cons Hst. destruct (rr_disabled r); [by eapply IH|].
  pose proof (considered_in_step r x q f Hst) as Hst1. pose proof Hst as (Hs & _ & Hi & Hp & _).
  destruct (Match_exact (rr_rule r) (fresh x)) as [Hm _]; [by split|].
  destruct (Match_exact (rr_rule r) (fresh (fl_x f))) as [Hm' _]; [by split|].
  rewrite (blind_same r x (fl_x f) Hb Hs), <- Hm' in Hm. unfold fresh in *.
  destruct (Match (rr_rule r) (ResetRuleCache (rx_md x))) as [matched m].
  destruct (Match (rr_rule r) (ResetRuleCache (rx_md (fl_x f)))) as [matched' m']. cbn [fst snd] in *. subst matched'.
  destruct matched; cbn [negb orb]; [|by eapply IH].
  set (x1 := with_md x m) in *. set (f1 := with_x f (with_md (fl_x f) m')) in *. clearbody x1 f1. clear Hst Hs Hi Hp Hm' Hb.
  unfold keeps_address in Ha. unfold passes, perform, is_final, options_of.
  destruct (rr_action r) as [outbound ro|ro|outbound ro| |method noDrop| |sniff| |resolve] eqn:Hact.
  - destruct (isPassOutbound w outbound); [by eapply IH|]. by intros [= _ <- _ _].
  - intros Hpre Hc Hd. eapply IH; [..|exact Hpre|exact Hc|exact Hd]; [done|done|]. by apply options_in_step.
  - intros Hpre Hc Hd. assert (decided = Some (i, r)) as ->
      by (destruct (empty_string outbound); [|destruct (_ || _)]; by injection Hpre as _ <- _ _).
    cbn in Hd. rewrite Hact in Hd. by rewrite Hd.
  - by intros [= <- _ _ _].
  - destruct (RuleActionReject_Error _ _ _ _) as [rejectErr counter']. by intros [= _ <- _ _].
  - by intros [= _ <- _ _].
  - destruct (prematch_sniff sniff packet x1 q) as [[x2 q2]|] eqn:Hsn; [|by intros [= <- _ _ _]].
    destruct (sniff_in_step sniff x1 q f1 x2 q2 Hne Hst1 Hsn) as (f2 & -> & Hst2). by eapply IH.
  - intros Hpre Hc Hd. eapply IH; [..|exact Hpre|exact Hc|exact Hd]; [done|done|]. by apply override_in_step.
  - pose proof (resolve_in_step resolve x1 q f1 Hl Hst1) as Hr.
    destruct (actionResolve resolve x1) as [x2|e], (actionResolve resolve (fl_x f1)) as [y2|e']; try done; [by eapply IH|].
    intros [= _ <- _ _] _ _. by exists i, r, resolve.
Qed.
End judge.
