(* ===== verification/RouteSample.v ===== *)
(** * Concrete inputs for the witnesses of routing

    Nothing here models code: the parameters of routing as concrete functions, and a few
    connections and rules. *)

From stdpp Require Import base gmap strings list.
From Stdlib Require Import ZArith Lia.
From S2P Require Import Prelude Net Metadata RuleMatch RuleItems DnsMode RouteContext GoSlice Quic Sniff.
From S2P Require Import Lifecycle StartOrder Managers Route RouteConn RouteOk Sample.

Open Scope Z_scope.

#[export] Instance sample_route_env : Env := sample_env.

(** Cryptography that hides nothing: the keys are zeros, and a packet is its plaintext
    followed by 16 bytes. *)
#[export] Instance sample_crypto : QUICCrypto := {|
  hkdf_Extract := fun _ _ => [];
  hkdf_Expand := fun _ _ n => Ok (repeat 0 (Z.to_nat n));
  aes_Encrypt := fun _ _ => repeat 0 16;
  gcm_Open := fun _ _ ciphertext _ =>
    if 16 <=? len ciphertext then Ok (map (fun b => b `mod` 256) (take (length ciphertext - 16) ciphertext)) else Err (ENew "cipher: message authentication failed")
|}.

#[export] Instance sample_sniff : SniffLibrary := {|
  errors_Is := fun e e' => bool_decide (e = e');
  E_Errors := fun l => last l;
  E_Expand := fun e => match e with Some e => [e] | None => [] end;
  Cause1 := fun e _ => e;
  SkipN := fun n l => if (n <=? length l)%nat then Ok (drop n l) else Err EOF;
  UnpackDomainName := fun _ _ => Err ErrInvalid;
  UnpackRR := fun _ _ => Err ErrInvalid;
  HandshakeContext := fun _ => Err ErrInvalid;
  ReadRequest := fun _ => Err ErrInvalid;
  ParseSocksaddr := fun s => mkSocksaddr AddrInvalid 0 s;
  sniff_crypto := sample_crypto
|}.

#[export] Instance sample_route_library : RouteLibrary := {|
  socks_IsValid := fun s => addr_IsValid (sa_Addr s) || negb (bool_decide (sa_Fqdn s = ""%string));
  socks_IsIPv4 := fun s => addr_Is4 (sa_Addr s);
  IsDomainName := fun s => negb (bool_decide (s = ""%string));
  mux_Destination := "mux";
  vmess_MuxDestination := "v1.mux";
  uot_MagicAddress := "uot";
  uot_LegacyMagicAddress := "legacy.uot"
|}.

Definition sample_direct : Outbound := mkOutbound 1%nat "direct" "direct" [] false false.
Definition sample_selector : Outbound := mkOutbound 2%nat "select" "selector" ["direct"] false true.

(** A selector has selected [sample_direct]; everything takes packets. *)
#[export] Instance sample_interfaces : OutboundInterfaces := {|
  ob_Network := fun _ => ["tcp"; "udp"];
  asOutboundGroup := fun o => if bool_decide (ob_Type o = "selector"%string) then Some (fun _ => Some sample_direct) else None;
  asConnectionGroup := fun _ => None;
  asPreMatchGroup := fun _ => None;
  asFlowOutbound := fun _ => Some (fun _ _ => PreMatchFlow);
  asFlowResolver := fun _ => None
|}.

(** a.example is 1.2.3.4 and has the fake address 198.18.0.1; every other name is 5.6.7.8. *)
#[export] Instance sample_route_dns : RouteDNS := {|
  dns_Lookup := fun _ name _ => Ok [if bool_decide (name = "a.example"%string) then Addr4 16909060 else Addr4 84281096];
  dns_LookupReverseMapping := fun _ => None;
  FakeIPStore := Some (fun a => bool_decide (a = Addr4 3323068417), fun _ => Some "a.example"%string)
|}.

#[export] Instance sample_searchers : Searchers := {|
  processSearcher := None;
  processLookupOwner := false;
  MyInterfaceAddress := [];
  neighborResolver := None
|}.

#[export] Instance sample_quic_cache : QUICSniffCache unit := {|
  quic_Store := fun _ _ q => q;
  quic_LoadAndRefresh := fun _ q => (None, q)
|}.

(** Connections as the bytes and packets they deliver. *)
#[export] Instance sample_conns : CachedConns (list Z) (list (list Z * Socksaddr)) := {|
  conn_of := data_of;
  NewCachedConn := fun c b => b ++ c;
  packetConn_of := packets_of;
  NewCachedPacketConn := fun c b d => (b, d) :: c;
  ReadPacket := fun c => match c with [] => None | p :: rest => Some (p, rest) end
|}.

#[export] Instance sample_conn_laws : CachedConnLaws (list Z) (list (list Z * Socksaddr)) (fun c => c) (fun c => c).
Proof. split; try done. intros [|p rest]; [done|]. by exists rest. Qed.

#[export] Instance sample_inbounds : InboundInterfaces := {| asTCPInjectable := fun _ => None; asUDPInjectable := fun _ => None |}.

(** Rules without items; they hold for every connection. *)
#[export] Instance unit_item : RuleItem unit := fun _ _ => true.
#[export] Instance unit_item_laws : RuleItemLaws unit.
Proof. done. Qed.

Definition sample_rule (action : RuleAction) : RouterRule unit :=
  mkRouterRule (RDefault KindRoute (mkDefaultRule [] [] [] [] [] [] [] false) None) action false [].

Definition no_options : RuleActionRouteOptions :=
  mkRouteOptions zero_socks 0 None [] [] 0 false false 0 false 0 false "" 0.

Definition override_options (domain : string) : RuleActionRouteOptions :=
  mkRouteOptions (mkSocksaddr AddrInvalid 0 domain) 0 None [] [] 0 false false 0 false 0 false "" 0.

Definition sample_resolve : RuleAction := ActionResolve (mkActionResolve "" 0 0 false false None zero_prefix false).

Definition sniff_with (names : list string) (stream : list StreamSniffer) : RuleAction :=
  ActionSniff (mkActionSniff names stream [] 0).

(** A connection to [destination] over [network]. *)
Definition sample_route (network : string) (destination : Socksaddr) : RouteContext :=
  mkRouteContext
    (mkInboundContext
       (mkConnFields "in" 0 network (mkSocksaddr (Addr4 167772161) 5353 "") destination "" "" "" "" "" [] "" [] None None None "" 0
          zero_prefix false false)
       None ∅ false (mkRuleCache false false false false false false 0 false))
    (mkSniffFields [] [] None zero_socks)
    (mkDialFields false false 0 false 0 false "" 0 None [] [] 0)
    "mixed" "" "" zero_socks zero_socks false false.

Definition sample_managers : managers (A := unit) :=
  (mkOutboundManager None StartStateStarted "" (mkNodes [sample_direct; sample_selector]
     (<["direct" := sample_direct]> (<["select" := sample_selector]> ∅))) (Some sample_direct),
   mkEndpointManager None StartStateStarted (mkNodes [] ∅)).
