(* ===== verification/RouteTheorems.v ===== *)
(** * Theorems about routing

    Which rule a connection goes to, what a packet is judged by before there is a
    connection, the groups of outbounds on the way, and what is left of the data. *)

From stdpp Require Import base gmap strings list.
From Stdlib Require Import ZArith Lia.
From S2P Require Import Prelude Net Metadata RuleMatch RuleSpec RuleItems DnsMode RouteContext Sniff.
From S2P Require Import Lifecycle StartOrder Managers Route RouteFrame RouteConn RouteOk RouteJudge RouteSample.

Open Scope Z_scope.

Section theorems.
Context {I : Type} `{RuleItem I, !RuleItemLaws I}.
Context `{Env} `{SniffLibrary} `{RouteLibrary} `{OutboundInterfaces} `{RouteDNS} `{Searchers}.
Context {Q : Type} `{QUICSniffCache Q}.
Context {A : Type} (rules : list (RouterRule I)) (w : managers (A := A)).

(** C14. The walk over the rules of the router follows the declarative reading of rules: it
    passes over every rule that is disabled, does not hold or leads to a pass outbound, does
    what the others say, in order, and ends with the first one that decides, or with the
    first error.  If every rule decides, the connection goes to the first enabled rule whose
    reading holds for it, or to none. *)
Theorem routed_by_meaning input (f : Flow (Q := Q)) x :
  IgnoreDestinationIPCIDRMatch (rx_md (fl_x f)) = false -> prepareMatchMetadata (fl_x f) = Ok x ->
  walk_result w input rules 0 (with_x f x) (matchRule rules w input f).1 (matchRule rules w input f).2 /\
  (Forall (fun r => is_final (rr_action r) = true) rules ->
   (matchRule rules w input f).1 = Ok (list_find (fun r => applies w r (with_x f x) = true) rules)).
Proof.
  intros Hi Hx. assert (Hp : plain (with_x f x)) by (by apply prepared_plain).
  unfold matchRule. rewrite Hx. split; [by apply match_rules_walk|]. intros Hl. rewrite final_rules by done.
  by destruct (list_find _ rules) as [[j r]|].
Qed.

(** C15. Judging the first packet of a flow agrees with routing its connection: if a rule
    decides about the packet (and is not a bypass for packets only), then routing the
    connection that starts with this packet selects the same rule, or none if none decided,
    or fails because the lookup of that rule fails.  Rules must not ask whether there is a
    connection yet, and route options must not replace the address. *)
Theorem judged_as_routed now packet destination rest x (q : Q) res decided counter q' :
  packet <> [] -> lookup_blind -> Forall blind rules -> Forall keeps_address rules ->
  IgnoreDestinationIPCIDRMatch (rx_md x) = false -> cf_Network (rx_conn x) = NetworkUDP ->
  sf_SniffError (rx_sniff x) = None ->
  PreMatch rules w now x packet q = (res, decided, counter, q') ->
  pm_Action res <> PreMatchContinue -> bypasses decided = false ->
  agrees decided (matchRule rules w InputPacketConn (mkFlow x q [] [] [] (PacketData packet destination :: rest))).1.
Proof.
  intros Hne Hl Hb Ha Hi Hn He. unfold PreMatch, matchRule. cbn [fl_x].
  set (k := mkFrame true (ic_cache (rx_md x)) (rx_dial x) (rx_RouteOriginalDestination x)).
  assert (Hk : map_conn (conn_PreMatch true) x = reframe k x) by (by destruct x as [[[] ? ? ? ?] [] [] ? ? ? ? ? ? ?]).
  rewrite Hk, framed_prepareMatchMetadata. pose proof (steady_prepare x) as Hs.
  pose proof (framed_prepareMatchMetadata (frame x) x) as Hf. rewrite reframe_frame in Hf.
  destruct (prepareMatchMetadata x) as [x1|e]; cbn [result_frame]; [|by intros [= <- _ _ _]].
  injection Hf as Hf. apply (f_equal frame) in Hf. rewrite frame_reframe in Hf. apply cache_of_frame in Hf.
  pose proof (steady_eq _ _ (Hs _ eq_refl)) as [Hn1 He1].
  eapply (prematch_walk w now packet destination rest); [done|done|done|done|].
  unfold in_step, plain, IgnoreDestinationIPCIDRMatch, first_packet in *. cbn -[frame].
  split_and!; [by exists k|done|done|by rewrite Hf|by left|by rewrite Hn1|by rewrite He1, He].
Qed.
End theorems.

(** Once the outbounds have started, a connection that goes through groups always
    reaches an end: every group chooses among its dependencies, which were started before
    it, so that the chain is no longer than there are outbounds.  A chain that is found
    consists of what the groups choose, down to an outbound that takes the network. *)
Theorem groups_end `{OutboundInterfaces} {W : Type} (start : Outbound -> W -> result unit * W) outbounds s s' network x o :
  NoDup (tags outbounds) -> startOutbounds start outbounds s = Some (Ok tt, s') -> o ∈ outbounds ->
  (forall g next, g ∈ outbounds -> follows network x g next -> next ∈ outbounds /\ ob_Tag next ∈ ob_Dependencies g) ->
  exists r, resolveOutbound (S (length outbounds)) (Some o) network x = Some r /\
    forall chain, r = Ok chain -> exists tail, chain = o :: tail /\ chain_from network x o tail.
Proof.
  intros Hn Hs Ho Hg. destruct (startOutbounds_all start outbounds s Hn) as ([r s1] & Hr & Hall). rewrite Hs in Hr.
  injection Hr as <- <-. destruct Hall as (order & s1 & _ & Hno & _ & Hd & _ & Hp).
  rewrite <- Hp in Ho. apply list_elem_of_lookup in Ho as [i Hi].
  destruct (resolve_loop_ends network x order (S (length outbounds)) i o [o]) as [r Hres]; [done|done| |done| |].
  - intros g next Hgo Hf. rewrite Hp in Hgo |- *. by apply Hg.
  - apply lookup_lt_Some in Hi. apply Permutation_length in Hp. lia.
  - exists r. split; [done|]. intros chain ->. by apply resolve_loop_chain in Hres as (tail & -> & Ht); exists tail.
Qed.

Section data.
Context {I : Type} `{RuleItem I}.
Context `{Env} `{SniffLibrary} `{RouteLibrary} `{OutboundInterfaces} `{RouteDNS} `{Searchers}.
Context {Q : Type} `{QUICSniffCache Q}.
Context {A : Type} (rules : list (RouterRule I)) (w : managers (A := A)).
Context {C P : Type} `{CachedConns C P} `{InboundInterfaces} (delivers : C -> list Z) (packets : P -> list (list Z * Socksaddr)).
Context `{!CachedConnLaws C P delivers packets}.
Context (now : Z) (trackers : list (C -> RouteContext -> option (nat * RouterRule I) -> Outbound -> C)).
Context (packetTrackers : list (P -> RouteContext -> option (nat * RouterRule I) -> Outbound -> P)).

(** C16. Sniffing takes nothing from the outbound: with at most one rule that sniffs in the
    configuration, what the outbound reads from a connection is what the client sent, in its
    order; and the packets of a packet connection arrive as they came, however often they were
    sniffed and also through the connection that translates addresses, which changes where
    those to the original destination go and nothing else. Trackers hand on what they wrap. *)
Theorem routed_data_intact fuel x (q : Q) counter q' :
  Forall (fun track => forall c x rule o, delivers (track c x rule o) = delivers c) trackers ->
  Forall (fun track => forall c x rule o, packets (track c x rule o) = packets c) packetTrackers ->
  (forall reads rule chain conn x', (sniff_rules rules <= 1)%nat ->
   routeConnection (P := P) rules w now trackers fuel x q reads = Some (Routed rule chain conn x', counter, q') ->
   delivers conn = data_of reads) /\
  (forall events rule chain conn x',
   routePacketConnection (C := C) rules w now packetTrackers fuel x q events = Some (Routed rule chain conn x', counter, q') ->
   forall n, read_packets routed_ReadPacket n conn = take n (map (fun p => (p.1, translated x' p.2)) (packets_of events))).
Proof.
  intros Ht Hpt. split.
  - intros reads rule chain conn x' Hone. unfold routeConnection.
    destruct (negb _); [unfold inject; by repeat case_match|]. destruct (deprecated_destination _); [done|]. destruct (is_tun_dns _); [done|].
    pose proof (matchRule_keeps rules w InputConn (mkFlow (map_conn (conn_Network NetworkTCP) x) q [] reads [] [])) as (Hstream & _ & Hlen).
    destruct (matchRule _ _ _ _) as [[selected|e] f]; [|done]. destruct (select _ _ _ _) as [o|e c|]; [|done..].
    destruct (resolveOutbound _ _ _ _) as [[ch|e]|]; [|done..]. intros [= _ _ <- _ _ _]. rewrite (tracked delivers) by done.
    rewrite (cached_conn_delivers delivers packets). unfold stream_of in Hstream. cbn [fl_buffers fl_reads concat app snd] in *. rewrite <- Hstream. f_equal.
    destruct (fl_buffers f) as [|b [|b' buffers]]; cbn in *; [done|done|lia].
  - intros events rule chain conn x'. unfold routePacketConnection.
    destruct (negb _); [unfold inject; by repeat case_match|]. destruct (is_tun_dns _); [done|].
    pose proof (matchRule_keeps rules w InputPacketConn (mkFlow (map_conn (conn_Network NetworkUDP) x) q [] [] [] events)) as (_ & Hpk & _).
    destruct (matchRule _ _ _ _) as [[selected|e] f]; [|done]. destruct (select _ _ _ _) as [o|e c|]; [|done..].
    destruct (resolveOutbound _ _ _ _) as [[ch|e]|]; [|done..]. intros [= _ _ <- <- _ _] n. unfold all_packets in Hpk. cbn [fl_packetBuffers fl_packetReads app snd] in Hpk.
    rewrite (read_routed delivers packets), (tracked packets) by done. by rewrite (cached_packet_conn_packets delivers packets), Hpk.
Qed.
End data.

(** C40. Replies find back: after whatever the client sent, to the original destination and to
    others, and whatever addresses the outbound told meanwhile, a reply from an address that
    the client itself sent packets to keeps its address, and one from any other address comes
    from the original destination, with its own port.  So a reply from where a packet of the
    client went comes from where the client sent it, unless the client also sent packets
    straight to the address that stands for the original destination. *)
Theorem replies_return {P : Type} (conn : P) (origin destination : Socksaddr) (ops : list NATOp) :
  let c := nat_run ops (newFakeIPNATPacketConn conn origin destination) in
  (forall source, sent_to origin ops (sa_Addr source) -> rewriteWriteDestination source c = source) /\
  (forall source, ~ sent_to origin ops (sa_Addr source) ->
     rewriteWriteDestination source c = mkSocksaddr (sa_Addr origin) (sa_Port source) "") /\
  (forall d, addr_IsValid (sa_Addr d) = true -> sa_Fqdn d = "" ->
     (sa_Addr d = sa_Addr origin -> ~ sent_to origin ops (sa_Addr (nat_destination c))) ->
     let '(went, c') := rewriteReadDestination d c in rewriteWriteDestination went c' = d).
Proof.
  intros c. destruct (nat_run_direct ops (newFakeIPNATPacketConn conn origin destination)) as [Ho Hd]. fold c in Ho, Hd. cbn in Ho, Hd.
  assert (Hin : forall a, a ∈ nat_directDestinations c <-> sent_to origin ops a) by (intros a; rewrite Hd; set_solver).
  assert (Hout : forall source, ~ sent_to origin ops (sa_Addr source) -> rewriteWriteDestination source c = mkSocksaddr (sa_Addr origin) (sa_Port source) "").
  { intros source Hn. unfold rewriteWriteDestination. rewrite (bool_decide_false (sa_Addr source ∈ _)) by (by rewrite Hin). by rewrite andb_false_r, Ho. }
  split_and!; [|done|].
  - intros source Hs. unfold rewriteWriteDestination. rewrite (bool_decide_true (sa_Addr source ∈ _)) by (by rewrite Hin). by destruct Hs as (? & _ & _ & -> & _).
  - intros d Hv Hf Hn. unfold rewriteReadDestination. rewrite Ho. destruct (bool_decide_reflect (sa_Addr d = sa_Addr origin)) as [Heq|Hne].
    + rewrite Hout by (by apply Hn). destruct d. cbn in *. by rewrite Heq, Hf.
    + rewrite Hv. unfold rewriteWriteDestination. cbn. by rewrite Hv, bool_decide_true by set_solver.
Qed.

(** ** Where the code falls short *)

(** With two rules that sniff, the outbound reads the second part of the stream before
    the first: every buffer is put in front of the ones before it. *)
Example sniffed_stream_reordered :
  let rules := [sample_rule (sniff_with ["ssh"] [SSH]); sample_rule (sniff_with ["rdp"] [RDP])] in
  match routeConnection (P := list (list Z * Socksaddr)) rules sample_managers 0 [] 2 (sample_route "tcp" (mkSocksaddr (Addr4 16909060) 80 ""))
          tt [ReadData [1; 2]; ReadData [3; 4]] with
  | Some (Routed _ _ conn _, _, _) => conn = [3; 4; 1; 2]
  | _ => False
  end.
Proof. vm_compute. reflexivity. Qed.

(** When a rule replaces the destination of a connection whose domain was resolved
    before, judging a packet keeps the addresses of the old domain and sends the flow to
    one of them; routing the connection forgets them. *)
Example judged_with_old_addresses :
  let rules := [sample_rule sample_resolve; sample_rule (ActionRouteOptions (override_options "b.example"));
                sample_rule (ActionRoute "direct" no_options)] in
  let x := sample_route "udp" (mkSocksaddr (Addr4 3323068417) 443 "") in
  let result := (PreMatch rules sample_managers 0 x [0] tt).1.1.1 in
  let f := (matchRule rules sample_managers InputPacketConn (mkFlow x tt [] [] [] [])).2 in
  pm_Action result = PreMatchFlow /\ pm_Destination result = Some (Addr4 16909060, 443) /\
  option_map (fun x => sa_Fqdn (Destination x)) (pm_Tracked result) = Some "b.example"%string /\
  sa_Fqdn (Destination (fl_x f)) = "b.example"%string /\ cf_DestinationAddresses (rx_conn (fl_x f)) = [].
Proof. vm_compute. by split_and!. Qed.

(** ** Instances *)

Lemma routed_by_meaning_witness :
  let rules := [sample_rule (ActionRoute "direct" no_options)] in
  let f := mkFlow (sample_route "tcp" (mkSocksaddr (Addr4 16909060) 80 "")) tt [] [] [] [] in
  (matchRule rules sample_managers InputConn f).1 = Ok (Some (0%nat, sample_rule (ActionRoute "direct" no_options))).
Proof.
  intros rules f.
  destruct (prepareMatchMetadata (fl_x f)) as [x|e] eqn:Hx; [|vm_compute in Hx; discriminate Hx].
  destruct (routed_by_meaning rules sample_managers InputConn f x) as [_ Hfin]; [reflexivity|exact Hx|].
  rewrite Hfin by (by repeat constructor). vm_compute in Hx. injection Hx as <-. vm_compute. reflexivity.
Defined.

Lemma judged_as_routed_witness :
  let rules := [sample_rule (sniff_with [] []); sample_rule (ActionRejectConnection "default" true)] in
  let x := sample_route "udp" (mkSocksaddr (Addr4 16909060) 443 "") in
  pm_Action (PreMatch rules sample_managers 0 x [0; 1] tt).1.1.1 = PreMatchReject /\
  (matchRule rules sample_managers InputPacketConn (mkFlow x tt [] [] [] [PacketData [0; 1] zero_socks])).1 =
  Ok (Some (1%nat, sample_rule (ActionRejectConnection "default" true))).
Proof.
  intros rules x. split; [vm_compute; reflexivity|].
  pose proof (judged_as_routed rules sample_managers 0 [0; 1] zero_socks [] x tt (pre_result PreMatchReject None)
    (Some (1%nat, sample_rule (ActionRejectConnection "default" true))) (Some (1%nat, [])) tt) as Hj.
  assert (Ha : agrees (Some (1%nat, sample_rule (ActionRejectConnection "default" true)))
    (matchRule rules sample_managers InputPacketConn (mkFlow x tt [] [] [] [PacketData [0; 1] zero_socks])).1).
  { apply Hj; unfold rules; try done; rewrite !Forall_cons, Forall_nil; by split_and!. }
  destruct (matchRule _ _ _ _) as [[selected|e] f] eqn:Hm; [cbn in *; by rewrite Ha|].
  destruct Ha as (i & r & action & [= <- <-] & Hr). discriminate Hr.
Defined.

Lemma groups_end_witness :
  startOutbounds (fun _ (s : unit) => (Ok tt, s)) [sample_selector; sample_direct] tt = Some (Ok tt, tt) /\
  exists r, resolveOutbound 3 (Some sample_selector) "tcp" (sample_route "tcp" zero_socks) = Some r.
Proof.
  split; [vm_compute; reflexivity|].
  destruct (groups_end (fun _ (s : unit) => (Ok tt, s)) [sample_selector; sample_direct] tt tt "tcp" (sample_route "tcp" zero_socks)
    sample_selector) as (r & Hr & _).
  - apply (bool_decide_unpack _). vm_compute. exact I.
  - vm_compute. reflexivity.
  - by left.
  - intros g next [->|[->|[]%elem_of_nil]%elem_of_cons]%elem_of_cons (selected & Hg & Hn); [|discriminate Hg].
    injection Hg as <-. injection Hn as <-. split; [right; by left|by left].
  - by exists r.
Defined.

Lemma replies_return_witness :
  let fake := mkSocksaddr (Addr4 3323068417) 443 "" in
  let other := mkSocksaddr (Addr4 16909060) 53 "" in
  let real := mkSocksaddr (Addr4 84215045) 443 "" in
  let c := nat_run [NATRead fake; NATUpdate (Addr4 84215045); NATRead other] (newFakeIPNATPacketConn tt fake (mkSocksaddr AddrInvalid 443 "b.example")) in
  rewriteWriteDestination other c = other /\ rewriteWriteDestination real c = fake /\ (rewriteReadDestination fake c).1 = real.
Proof.
  intros fake other real c.
  pose proof (replies_return tt fake (mkSocksaddr AddrInvalid 443 "b.example") [NATRead fake; NATUpdate (Addr4 84215045); NATRead other]) as (Hdirect & Hback & Hround).
  assert (Hn : ~ sent_to fake [NATRead fake; NATUpdate (Addr4 84215045); NATRead other] (Addr4 84215045)).
  { intros (d & Hin & Ha & _). repeat apply elem_of_cons in Hin as [Hin|Hin]; [| | |by apply not_elem_of_nil in Hin];
      [injection Hin as ->|discriminate Hin|injection Hin as ->]; discriminate Ha. }
  split_and!.
  - apply (Hdirect other). exists other. split_and!; [right; right; by left|reflexivity|reflexivity|discriminate].
  - exact (Hround fake eq_refl eq_refl (fun _ => Hn)).
  - vm_compute. reflexivity.
Defined.

(** A stream with one rule that sniffs; and packets with a destination that is replaced. *)
Lemma routed_data_intact_witness :
  let rules := [sample_rule (sniff_with ["ssh"] [SSH])] in
  let translating := [sample_rule (ActionRouteOptions (override_options "b.example")); sample_rule (ActionRoute "direct" no_options)] in
  let origin := mkSocksaddr (Addr4 3323068417) 443 "" in
  let other := mkSocksaddr (Addr4 16909060) 53 "" in
  match routeConnection (P := list (list Z * Socksaddr)) rules sample_managers 0 [] 2 (sample_route "tcp" (mkSocksaddr (Addr4 16909060) 80 ""))
          tt [ReadData [1; 2]; ReadData [3; 4]] with
  | Some (Routed _ _ conn _, _, _) => conn = [1; 2; 3; 4]
  | _ => False
  end /\
  match routePacketConnection (C := list Z) translating sample_managers 0 [] 2 (sample_route "udp" origin) tt [PacketData [1] origin; PacketData [2] other] with
  | Some (Routed _ _ conn _, _, _) =>
      read_packets routed_ReadPacket 2 conn = [([1], mkSocksaddr AddrInvalid 443 "b.example"); ([2], other)]
  | _ => False
  end.
Proof.
  intros rules translating origin other. split.
  - destruct (routeConnection _ _ _ _ _ _ _ _) as [[[[e|inbound x|conn x|rule chain conn x] counter] q]|] eqn:Hr;
      try (vm_compute in Hr; discriminate Hr).
    apply (proj1 (routed_data_intact rules sample_managers (fun c => c) (fun c : list (list Z * Socksaddr) => c) 0 [] [] 2
      (sample_route "tcp" (mkSocksaddr (Addr4 16909060) 80 "")) tt counter q ltac:(constructor) ltac:(constructor))
      [ReadData [1; 2]; ReadData [3; 4]] rule chain conn x); [vm_compute; lia|exact Hr].
  - destruct (routePacketConnection _ _ _ _ _ _ _ _) as [[[[e|inbound x|conn x|rule chain conn x] counter] q]|] eqn:Hr;
      try (vm_compute in Hr; discriminate Hr).
    rewrite (proj2 (routed_data_intact translating sample_managers (fun c => c) (fun c : list (list Z * Socksaddr) => c) 0 [] [] 2
      (sample_route "udp" origin) tt counter q ltac:(constructor) ltac:(constructor)) [PacketData [1] origin; PacketData [2] other] rule chain conn x Hr 2%nat).
    assert (Hx : rx_FakeIP x || rx_DestOverride x = true /\ rx_OriginDestination x = origin /\ Destination x = mkSocksaddr AddrInvalid 443 "b.example")
      by (vm_compute in Hr; injection Hr as _ _ _ <- _ _; vm_compute; done).
    destruct Hx as (H1 & H2 & H3). cbn [map packets_of take fst snd]. unfold translated. rewrite H1, H2, H3. vm_compute. reflexivity.
Defined.
