(* ===== verification/Heap.v ===== *)
(** * container/heap

    The functions of Go's [container/heap] over its interface, and their laws: they only
    swap elements, and they restore the order of the heap. *)

From stdpp Require Import base list.
From Stdlib Require Import ZArith Lia.
From S2P Require Import Prelude.

(** [heap.Interface] without [Push] and [Pop], which the container does itself. *)
Class HeapInterface (T : Type) : Type := {
  h_Len : T -> nat;
  h_Less : nat -> nat -> T -> bool;
  h_Swap : nat -> nat -> T -> T
}.

Section heap.
Context {T : Type} `{HeapInterface T}.

(** [(j - 1) / 2] truncates towards zero. *)
Definition parent (j : nat) : nat := (j - 1) / 2.

Fixpoint up_loop (fuel : nat) (j : nat) (h : T) : T :=
  match fuel with
  | O => h
  | S fuel' =>
      let i := parent j in
      if (i =? j)%nat || negb (h_Less j i h) then h else up_loop fuel' i (h_Swap i j h)
  end.

(** The parent is smaller, so [j] steps are enough. *)
Definition up (h : T) (j : nat) : T := up_loop (S j) j h.

Fixpoint down_loop (fuel : nat) (i n : nat) (h : T) : nat * T :=
  match fuel with
  | O => (i, h)
  | S fuel' =>
      let j1 := (2 * i + 1)%nat in
      if (n <=? j1)%nat then (i, h)
      else
        let j2 := (j1 + 1)%nat in
        let j := if (j2 <? n)%nat && h_Less j2 j1 h then j2 else j1 in
        if negb (h_Less j i h) then (i, h) else down_loop fuel' j n (h_Swap i j h)
  end.

(** The index grows and stays below [n]. *)
Definition down (h : T) (i0 n : nat) : bool * T :=
  let '(i, h') := down_loop (S n) i0 n h in ((i0 <? i)%nat, h').

Definition heap_Fix (i : nat) (h : T) : T :=
  let '(moved, h') := down h i (h_Len h) in if moved then h' else up h' i.

(** [Push] after the element was appended. *)
Definition heap_Push (h : T) : T := up h (h_Len h - 1).

(** [Pop] and [Remove] before the last element is taken off. *)
Definition heap_Pop (h : T) : T :=
  let n := (h_Len h - 1)%nat in (down (h_Swap 0 n h) 0 n).2.

Definition heap_Remove (i : nat) (h : T) : T :=
  let n := (h_Len h - 1)%nat in
  if negb (n =? i)%nat then
    let '(moved, h') := down (h_Swap i n h) i n in if moved then h' else up h' i
  else h.
End heap.

(** ** Laws

    [view] is the order of the elements and [prio] what [Less] compares; swapping only
    changes the order. *)

Section exchange.
Context {A : Type}.

Definition exchange (i j : nat) (l : list A) : list A :=
  match l !! i, l !! j with Some a, Some b => <[i := b]> (<[j := a]> l) | _, _ => l end.

Lemma length_exchange i j l : length (exchange i j l) = length l.
Proof. unfold exchange. repeat case_match; by rewrite ?length_insert. Qed.

Lemma lookup_exchange i j k l : (i < length l)%nat -> (j < length l)%nat ->
  exchange i j l !! k = if decide (k = i) then l !! j else if decide (k = j) then l !! i else l !! k.
Proof.
  intros Hi Hj. unfold exchange.
  destruct (lookup_lt_is_Some_2 l i Hi) as [a Ha], (lookup_lt_is_Some_2 l j Hj) as [b Hb]. rewrite Ha, Hb.
  repeat case_decide; subst; rewrite ?list_lookup_insert_eq by (rewrite ?length_insert; done); try done.
  - rewrite list_lookup_insert_ne by done. by rewrite list_lookup_insert_eq.
  - by rewrite !list_lookup_insert_ne.
Qed.

Lemma exchange_perm i j l : (i < length l)%nat -> (j < length l)%nat -> exchange i j l ≡ₚ l.
Proof.
  intros Hi Hj. apply Permutation_inj. split; [apply length_exchange|].
  exists (fun k => if decide (k = i) then j else if decide (k = j) then i else k). split.
  - intros k k'. repeat case_decide; congruence.
  - intros k. rewrite lookup_exchange by done. by repeat case_decide.
Qed.
End exchange.

Class HeapLaws (T A : Type) `{HeapInterface T} (view : T -> list A) (prio : T -> A -> Z) : Prop := {
  law_Len h : h_Len h = length (view h);
  law_Less h i j a b : view h !! i = Some a -> view h !! j = Some b -> h_Less i j h = (prio h a <? prio h b)%Z;
  law_Swap h i j : (i < length (view h))%nat -> (j < length (view h))%nat -> view (h_Swap i j h) = exchange i j (view h);
  law_prio h i j a : prio (h_Swap i j h) a = prio h a
}.

(** ** What swapping keeps *)

Section kept.
Context {T : Type} `{HeapInterface T} (P : T -> Prop).
Context (HP : forall h i j, (i < h_Len h)%nat -> (j < h_Len h)%nat -> P h -> P (h_Swap i j h)).
Context (HL : forall h i j, h_Len (h_Swap i j h) = h_Len h).

Lemma up_kept fuel j h : (j < h_Len h)%nat -> P h -> P (up_loop fuel j h).
Proof.
  revert j h. induction fuel as [|fuel IH]; intros j h Hj Hh; [done|]. cbn [up_loop]. destruct (_ || _); [done|].
  assert (parent j <= j)%nat by (unfold parent; pose proof (Nat.Div0.div_le_upper_bound (j - 1) 2 (j - 1)); lia).
  apply IH; [rewrite HL; lia|]. apply HP; [lia|done|done].
Qed.

Lemma down_kept fuel i n h : (n <= h_Len h)%nat -> (i < h_Len h)%nat -> P h -> P (down_loop fuel i n h).2 /\ h_Len (down_loop fuel i n h).2 = h_Len h.
Proof.
  revert i h. induction fuel as [|fuel IH]; intros i h Hn Hi Hh; [done|]. cbn [down_loop].
  destruct (Nat.leb_spec n (2 * i + 1)); [done|].
  set (j := if (2 * i + 1 + 1 <? n)%nat && h_Less (2 * i + 1 + 1) (2 * i + 1) h then (2 * i + 1 + 1)%nat else (2 * i + 1)%nat).
  assert (j < h_Len h)%nat by (unfold j; destruct (Nat.ltb_spec (2 * i + 1 + 1) n); cbn [andb]; [case_match; lia|lia]).
  destruct (negb (h_Less j i h)); [done|]. rewrite <- (HL h i j). apply IH; [by rewrite HL|by rewrite HL|]. by apply HP.
Qed.

Lemma sift_kept i n h : (n <= h_Len h)%nat -> (i < h_Len h)%nat -> P h ->
  P (let '(moved, h') := down h i n in if moved then h' else up h' i).
Proof.
  intros Hn Hi Hh. unfold down. destruct (down_kept (S n) i n h Hn Hi Hh) as [Hd Hl].
  destruct (down_loop (S n) i n h) as [i' h']. cbn [fst snd] in *. destruct (i <? i')%nat; [done|]. apply up_kept; [lia|done].
Qed.

Lemma heap_Push_kept h : (0 < h_Len h)%nat -> P h -> P (heap_Push h).
Proof. intros Hl Hh. unfold heap_Push. apply up_kept; [lia|done]. Qed.

Lemma heap_Fix_kept i h : (i < h_Len h)%nat -> P h -> P (heap_Fix i h).
Proof. intros Hi Hh. unfold heap_Fix. by apply sift_kept. Qed.

Lemma heap_Remove_kept i h : (i < h_Len h)%nat -> P h -> P (heap_Remove i h).
Proof.
  intros Hi Hh. unfold heap_Remove. destruct (negb _); [|done]. apply sift_kept; rewrite ?HL; [lia|lia|]. apply HP; [lia|lia|done].
Qed.

Lemma heap_Pop_kept h : (0 < h_Len h)%nat -> P h -> P (heap_Pop h).
Proof.
  intros Hl Hh. unfold heap_Pop, down.
  destruct (down_kept (S (h_Len h - 1)) 0 (h_Len h - 1) (h_Swap 0 (h_Len h - 1) h)) as [Hd _]; [rewrite HL; lia|rewrite HL; lia|apply HP; [lia|lia|done]|].
  by destruct (down_loop _ _ _ _).
Qed.
End kept.

(** ** The order of a heap

    [g] gives the priority at a position; [n] positions are in the heap. *)

Section order.
Implicit Types (g : nat -> Z) (i j c n : nat).

Lemma parent_lt c : (0 < c)%nat -> (parent c < c)%nat.
Proof. intros Hc. unfold parent. pose proof (Nat.Div0.div_le_mono (c - 1) (2 * (c - 1)) 2 ltac:(lia)). apply Nat.Div0.div_lt_upper_bound. lia. Qed.

Lemma parent_child c i : (0 < c)%nat -> parent c = i <-> c = (2 * i + 1)%nat \/ c = (2 * i + 2)%nat.
Proof.
  intros Hc. unfold parent. pose proof (Nat.div_mod_eq (c - 1) 2). pose proof (Nat.mod_upper_bound (c - 1) 2 ltac:(lia)). lia.
Qed.

Definition ordered g n : Prop := forall c, (0 < c < n)%nat -> (g (parent c) <= g c)%Z.

(** The children of [i] are not below its parent. *)
Definition grand g i n : Prop := forall c, (0 < c < n)%nat -> (0 < i)%nat -> parent c = i -> (g (parent i) <= g c)%Z.

(** Ordered but for [i] and its parent. *)
Definition ordered_above g i n : Prop :=
  (forall c, (0 < c < n)%nat -> c <> i -> (g (parent c) <= g c)%Z) /\ grand g i n.

(** Ordered but for [i], its parent and its children. *)
Definition ordered_around g i n : Prop :=
  (forall c, (0 < c < n)%nat -> c <> i -> parent c <> i -> (g (parent c) <= g c)%Z) /\ grand g i n.

Definition swapped g g' i j : Prop :=
  g' i = g j /\ g' j = g i /\ forall k, k <> i -> k <> j -> g' k = g k.

Lemma up_step g g' j n : (0 < j < n)%nat -> (g j < g (parent j))%Z -> swapped g g' (parent j) j ->
  ordered_above g j n -> ordered_above g' (parent j) n.
Proof.
  intros Hj Hlt (Hi & Hj' & Hk) [Ho Hg]. pose proof (parent_lt j ltac:(lia)). set (i := parent j) in *. split.
  - intros c Hc Hci. destruct (decide (c = j)) as [->|Hcj]; [fold i; lia|].
    pose proof (Ho c Hc Hcj). rewrite (Hk c) by done.
    destruct (decide (parent c = i)) as [Hp|Hp]; [rewrite Hp in *; lia|].
    destruct (decide (parent c = j)) as [Hp'|Hp']; [|by rewrite Hk].
    rewrite Hp', Hj'. apply Hg; [done|lia|done].
  - intros c Hc Hi0 Hp. pose proof (parent_lt i Hi0). pose proof (Ho i ltac:(lia) ltac:(lia)). rewrite (Hk (parent i)) by lia.
    destruct (decide (c = j)) as [->|Hcj]; [lia|]. rewrite (Hk c) by (pose proof (parent_lt c ltac:(lia)); lia).
    pose proof (Ho c Hc Hcj). rewrite Hp in *. lia.
Qed.

Lemma up_done g j n : ordered_above g j n -> (j = 0%nat \/ (g (parent j) <= g j)%Z) -> ordered g n.
Proof. intros [Ho _] Hj c Hc. destruct (decide (c = j)) as [->|]; [|by apply Ho]. destruct Hj; [lia|done]. Qed.

(** [j] is the lesser child of [i]. *)
Definition lesser_child g i j n : Prop :=
  (i < j < n)%nat /\ parent j = i /\ forall c, (0 < c < n)%nat -> parent c = i -> (g j <= g c)%Z.

Lemma down_step g g' i j n : lesser_child g i j n -> (g j < g i)%Z -> swapped g g' i j ->
  ordered_around g i n -> ordered_around g' j n /\ (g' (parent j) <= g' j)%Z.
Proof.
  intros (Hij & Hp & Hmin) Hlt (Hi & Hj & Hk) [Ho Hg]. rewrite Hp. split; [|lia]. split.
  - intros c Hc Hcj Hpj. pose proof (parent_lt c ltac:(lia)). destruct (decide (c = i)) as [->|Hci].
    + rewrite Hi, (Hk (parent i)) by lia. apply Hg; [lia|lia|done].
    + rewrite (Hk c) by done. destruct (decide (parent c = i)) as [Hpi|Hpi].
      * rewrite Hpi, Hi. by apply Hmin.
      * rewrite Hk by done. by apply Ho.
  - intros c Hc _ Hpc. pose proof (parent_lt c ltac:(lia)). rewrite Hp, Hi, (Hk c) by lia.
    rewrite <- Hpc at 1. apply Ho; [done|lia|lia].
Qed.

Lemma down_done g i n : ordered_around g i n -> (forall c, (0 < c < n)%nat -> parent c = i -> (g i <= g c)%Z) -> ordered_above g i n.
Proof.
  intros [Ho Hg] Hd. split; [|done]. intros c Hc Hci. destruct (decide (parent c = i)) as [Hp|Hp]; [rewrite Hp; by apply Hd|by apply Ho].
Qed.
End order.

(** ** What the functions do *)

Section laws.
Context {T A : Type} `{HeapInterface T} (view : T -> list A) (prio : T -> A -> Z) `{!HeapLaws T A view prio}.
Implicit Types (h : T) (i j n : nat).

Definition prio_at h i : Z := from_option (prio h) 0%Z (view h !! i).

(** The elements below [n] were moved around. *)
Definition shuffled n h h' : Prop :=
  view h' ≡ₚ view h /\ (forall a, prio h' a = prio h a) /\ forall k, (n <= k)%nat -> view h' !! k = view h !! k.

Lemma shuffled_refl n h : shuffled n h h.
Proof. done. Qed.

Lemma shuffled_trans n h h' h'' : shuffled n h h' -> shuffled n h' h'' -> shuffled n h h''.
Proof.
  intros (Hv & Hp & Hk) (Hv' & Hp' & Hk'). split_and!; [by rewrite Hv'|intros a; by rewrite Hp'|intros k Hn; by rewrite Hk', Hk].
Qed.

Lemma shuffled_length n h h' : shuffled n h h' -> length (view h') = length (view h).
Proof. intros (Hv & _). by rewrite Hv. Qed.

Lemma shuffled_Swap n h i j : (i < n)%nat -> (j < n)%nat -> (n <= length (view h))%nat -> shuffled n h (h_Swap i j h).
Proof.
  intros Hi Hj Hn. split_and!.
  - rewrite law_Swap by lia. apply exchange_perm; lia.
  - intros a. by rewrite (law_prio h).
  - intros k Hk. rewrite law_Swap, lookup_exchange by lia. by rewrite !decide_False by lia.
Qed.

Lemma swapped_Swap h i j : (i < length (view h))%nat -> (j < length (view h))%nat -> swapped (prio_at h) (prio_at (h_Swap i j h)) i j.
Proof.
  intros Hi Hj. assert (Hat : forall k, prio_at (h_Swap i j h) k = from_option (prio h) 0%Z (exchange i j (view h) !! k)).
  { intros k. unfold prio_at. rewrite law_Swap by done. destruct (exchange i j (view h) !! k); [apply (law_prio h)|done]. }
  unfold swapped. rewrite !Hat, !lookup_exchange by done. split_and!.
  - by rewrite decide_True.
  - case_decide as Heq; [by rewrite Heq|]. by rewrite decide_True.
  - intros k Hki Hkj. rewrite Hat, lookup_exchange by done. by rewrite !decide_False.
Qed.

Lemma Less_at h i j : (i < length (view h))%nat -> (j < length (view h))%nat -> h_Less i j h = (prio_at h i <? prio_at h j)%Z.
Proof.
  intros Hi Hj. destruct (lookup_lt_is_Some_2 (view h) i Hi) as [a Ha], (lookup_lt_is_Some_2 (view h) j Hj) as [b Hb].
  rewrite (law_Less h i j a b Ha Hb). unfold prio_at. by rewrite Ha, Hb.
Qed.

Lemma up_loop_ok fuel j n h : (j < fuel)%nat -> (j < n)%nat -> (n <= length (view h))%nat -> ordered_above (prio_at h) j n ->
  ordered (prio_at (up_loop fuel j h)) n /\ shuffled n h (up_loop fuel j h).
Proof.
  revert j h. induction fuel as [|fuel IH]; intros j h Hf Hj Hn Ho; [lia|].
  cbn [up_loop]. destruct (Nat.eqb_spec (parent j) j) as [Hp|Hp].
  { cbn. split; [|done]. apply (up_done _ j); [done|]. left. destruct j; [done|]. pose proof (parent_lt (S j)). lia. }
  assert (Hj0 : (0 < j)%nat) by (destruct j; [done|lia]). pose proof (parent_lt j Hj0).
  rewrite Less_at by lia. destruct (Z.ltb_spec (prio_at h j) (prio_at h (parent j))) as [Hlt|Hle]; cbn.
  - pose proof (shuffled_Swap n h (parent j) j ltac:(lia) ltac:(lia) Hn) as Hs.
    destruct (IH (parent j) (h_Swap (parent j) j h)) as [Ho' Hs']; [lia|lia|by rewrite (shuffled_length _ _ _ Hs)| |].
    { eapply up_step; [lia|done| |done]. apply swapped_Swap; lia. }
    split; [done|by eapply shuffled_trans].
  - split; [|done]. apply (up_done _ j); [done|by right].
Qed.

Lemma up_ok j n h : (j < n)%nat -> (n <= length (view h))%nat -> ordered_above (prio_at h) j n ->
  ordered (prio_at (up h j)) n /\ shuffled n h (up h j).
Proof. intros. unfold up. apply up_loop_ok; [lia|done..]. Qed.

(** The child [down] compares with. *)
Lemma lesser_child_ok i n h : (2 * i + 1 < n)%nat -> (n <= length (view h))%nat ->
  lesser_child (prio_at h) i (if (2 * i + 1 + 1 <? n)%nat && h_Less (2 * i + 1 + 1) (2 * i + 1) h then (2 * i + 1 + 1)%nat else (2 * i + 1)%nat) n.
Proof.
  intros Hi Hn. assert (Hp1 : parent (2 * i + 1) = i) by (apply parent_child; lia).
  assert (Hp2 : parent (2 * i + 1 + 1) = i) by (apply parent_child; lia).
  destruct (Nat.ltb_spec (2 * i + 1 + 1) n) as [H2|H2]; cbn [andb].
  - rewrite Less_at by lia. destruct (Z.ltb_spec (prio_at h (2 * i + 1 + 1)) (prio_at h (2 * i + 1))).
    + split_and!; [lia|lia|done|]. intros c Hc Hpc. apply parent_child in Hpc as [->| ->]; [lia|replace (2 * i + 2)%nat with (2 * i + 1 + 1)%nat by lia; lia|lia].
    + split_and!; [lia|lia|done|]. intros c Hc Hpc. apply parent_child in Hpc as [->| ->]; [lia|replace (2 * i + 2)%nat with (2 * i + 1 + 1)%nat by lia; lia|lia].
  - split_and!; [lia|lia|done|]. intros c Hc Hpc. apply parent_child in Hpc as [->| ->]; [lia|lia|lia].
Qed.

(** [down] either leaves everything as it is, and [i] is in order with its children, or
    restores the order; where [i] is in order with its parent, it always does. *)
Lemma down_loop_ok fuel i n h : (n < fuel + i)%nat -> (i < n)%nat -> (n <= length (view h))%nat -> ordered_around (prio_at h) i n ->
  let '(i', h') := down_loop fuel i n h in
  shuffled n h h' /\ (i <= i')%nat /\
  (i' = i -> h' = h /\ ordered_above (prio_at h) i n) /\
  ((i < i')%nat \/ i = 0%nat \/ (prio_at h (parent i) <= prio_at h i)%Z -> ordered (prio_at h') n).
Proof.
  revert i h. induction fuel as [|fuel IH]; intros i h Hf Hi Hn Ho; [lia|]. cbn [down_loop].
  destruct (Nat.leb_spec n (2 * i + 1)) as [Hl|Hl].
  { assert (Ha : ordered_above (prio_at h) i n).
    { apply down_done; [done|]. intros c Hc Hp. apply parent_child in Hp; lia. }
    split_and!; [done|lia|done|]. intros [?|[?|?]]; [lia|apply (up_done _ i); auto|apply (up_done _ i); auto]. }
  pose proof (lesser_child_ok i n h Hl Hn) as Hch.
  set (j := if (2 * i + 1 + 1 <? n)%nat && h_Less (2 * i + 1 + 1) (2 * i + 1) h then (2 * i + 1 + 1)%nat else (2 * i + 1)%nat) in *.
  destruct Hch as (Hij & Hp & Hmin). rewrite Less_at by lia. destruct (Z.ltb_spec (prio_at h j) (prio_at h i)) as [Hlt|Hle]; cbn [negb].
  - pose proof (shuffled_Swap n h i j ltac:(lia) ltac:(lia) Hn) as Hs.
    destruct (down_step (prio_at h) (prio_at (h_Swap i j h)) i j n) as [Ho' Hpar]; [done|done|apply swapped_Swap; lia|done|].
    specialize (IH j (h_Swap i j h) ltac:(lia) ltac:(lia) ltac:(by rewrite (shuffled_length _ _ _ Hs)) Ho').
    destruct (down_loop fuel j n (h_Swap i j h)) as [i' h']. destruct IH as (Hs' & Hle & _ & Hord).
    split_and!; [by eapply shuffled_trans|lia|lia|]. intros _. apply Hord. by right; right.
  - assert (Ha : ordered_above (prio_at h) i n).
    { apply down_done; [done|]. intros c Hc Hpc. specialize (Hmin c Hc Hpc). lia. }
    split_and!; [done|lia|done|]. intros [?|[?|?]]; [lia|apply (up_done _ i); auto|apply (up_done _ i); auto].
Qed.

(** [down], and [up] if nothing moved: any element may have been put at [i]. *)
Lemma sift_ok i n h : (i < n)%nat -> (n <= length (view h))%nat -> ordered_around (prio_at h) i n ->
  let h' := (let '(moved, h') := down h i n in if moved then h' else up h' i) in
  ordered (prio_at h') n /\ shuffled n h h'.
Proof.
  intros Hi Hn Ho. unfold down. pose proof (down_loop_ok (S n) i n h ltac:(lia) Hi Hn Ho) as Hd.
  destruct (down_loop (S n) i n h) as [i' h']. destruct Hd as (Hs & Hle & Hsame & Hord). cbn zeta.
  destruct (Nat.ltb_spec i i'); [split; [by apply Hord; left|done]|].
  destruct Hsame as [-> Ha]; [lia|]. by apply up_ok.
Qed.

Lemma ordered_around_of h h' i n m : (m <= n)%nat -> ordered (prio_at h) n -> (forall k, (k < m)%nat -> k <> i -> prio_at h' k = prio_at h k) ->
  (i < m)%nat -> ordered_around (prio_at h') i m.
Proof.
  intros Hm Ho Hk Hi. split.
  - intros c Hc Hci Hpi. pose proof (parent_lt c ltac:(lia)). rewrite !Hk by lia. apply Ho. lia.
  - intros c Hc Hi0 Hp. pose proof (parent_lt c ltac:(lia)). pose proof (parent_lt i Hi0). rewrite !Hk by lia.
    transitivity (prio_at h i); [apply Ho; lia|]. rewrite <- Hp. apply Ho. lia.
Qed.

(** The root has the least priority. *)
Lemma root_least n g : ordered g n -> forall c, (c < n)%nat -> (g 0%nat <= g c)%Z.
Proof.
  intros Ho c. induction c as [c IH] using lt_wf_ind. intros Hc. destruct c as [|c]; [lia|].
  pose proof (parent_lt (S c) ltac:(lia)). pose proof (Ho (S c) ltac:(lia)). specialize (IH (parent (S c)) ltac:(lia) ltac:(lia)). lia.
Qed.

Lemma heap_Push_ok h : (0 < length (view h))%nat -> ordered (prio_at h) (length (view h) - 1) ->
  ordered (prio_at (heap_Push h)) (length (view h)) /\ shuffled (length (view h)) h (heap_Push h).
Proof.
  intros Hl Ho. unfold heap_Push. rewrite (law_Len h). apply up_ok; [lia|lia|]. split.
  - intros c Hc Hn. apply Ho. lia.
  - intros c Hc _ Hp. apply parent_child in Hp; lia.
Qed.

(** The priority of the element at [i] has changed. *)
Lemma heap_Fix_ok h0 i h : (i < length (view h))%nat -> ordered (prio_at h0) (length (view h)) ->
  (forall k, k <> i -> prio_at h k = prio_at h0 k) ->
  ordered (prio_at (heap_Fix i h)) (length (view h)) /\ shuffled (length (view h)) h (heap_Fix i h).
Proof.
  intros Hi Ho Hk. unfold heap_Fix. rewrite (law_Len h). apply sift_ok; [done|done|].
  eapply (ordered_around_of h0); [done|done| |done]. intros k _. apply Hk.
Qed.

(** What is removed is last, and the rest is a heap. *)
Definition removed h i h' : Prop :=
  view h' ≡ₚ view h /\ (forall a, prio h' a = prio h a) /\ view h' !! (length (view h) - 1)%nat = view h !! i /\
  ordered (prio_at h') (length (view h) - 1).

Lemma swap_last_ok i h : (i < length (view h) - 1)%nat -> ordered (prio_at h) (length (view h)) ->
  ordered_around (prio_at (h_Swap i (length (view h) - 1) h)) i (length (view h) - 1) /\
  shuffled (length (view h)) h (h_Swap i (length (view h) - 1) h) /\
  view (h_Swap i (length (view h) - 1) h) !! (length (view h) - 1)%nat = view h !! i.
Proof.
  intros Hi Ho. set (n := (length (view h) - 1)%nat) in *. split_and!.
  - eapply (ordered_around_of h); [|exact Ho| |done]; [lia|]. intros k Hk Hki.
    destruct (swapped_Swap h i n) as (_ & _ & He); [lia|lia|]. apply He; lia.
  - apply shuffled_Swap; lia.
  - rewrite law_Swap, lookup_exchange by lia. rewrite decide_False by lia. by rewrite decide_True.
Qed.

Lemma removed_after_sift i h h1 h' : (0 < length (view h))%nat -> shuffled (length (view h)) h h1 ->
  view h1 !! (length (view h) - 1)%nat = view h !! i -> shuffled (length (view h) - 1) h1 h' ->
  ordered (prio_at h') (length (view h) - 1) -> removed h i h'.
Proof.
  intros Hl (Hv & Hp & _) Hlast (Hv' & Hp' & Hk') Ho. split_and!; [by rewrite Hv'|intros a; by rewrite Hp'|by rewrite Hk'|done].
Qed.

Lemma heap_Remove_ok i h : (i < length (view h))%nat -> ordered (prio_at h) (length (view h)) -> removed h i (heap_Remove i h).
Proof.
  intros Hi Ho. unfold heap_Remove. rewrite (law_Len h). destruct (Nat.eqb_spec (length (view h) - 1) i) as [Heq|Hn]; cbn [negb].
  - split_and!; [done|done|by rewrite Heq|]. intros c Hc. apply Ho. lia.
  - destruct (swap_last_ok i h ltac:(lia) Ho) as (Ha & Hs & Hl).
    destruct (sift_ok i (length (view h) - 1) (h_Swap i (length (view h) - 1) h)) as [Ho' Hs']; [lia|rewrite (shuffled_length _ _ _ Hs); lia|done|].
    eapply removed_after_sift; [lia|done|done|done|done].
Qed.

Lemma heap_Pop_ok h : (0 < length (view h))%nat -> ordered (prio_at h) (length (view h)) -> removed h 0 (heap_Pop h).
Proof.
  intros Hl Ho. unfold heap_Pop. rewrite (law_Len h). destruct (decide (length (view h) = 1%nat)) as [H1|H1].
  - rewrite H1. cbn. assert (Hs : shuffled 1 h (h_Swap 0 0 h)) by (apply shuffled_Swap; lia). destruct Hs as (Hv & Hp & _).
    split_and!; [done|done| |rewrite H1; intros c Hc; lia]. rewrite H1. cbn. rewrite law_Swap, lookup_exchange by lia. by repeat case_decide.
  - destruct (swap_last_ok 0 h ltac:(lia) Ho) as (Ha & Hs & Hlast). unfold down.
    pose proof (down_loop_ok (S (length (view h) - 1)) 0 (length (view h) - 1) (h_Swap 0 (length (view h) - 1) h)) as Hd.
    destruct (down_loop _ 0 _ _) as [i' h']. destruct Hd as (Hs' & _ & _ & Hord); [lia|lia|rewrite (shuffled_length _ _ _ Hs); lia|done|].
    cbn [snd]. eapply removed_after_sift; [lia|done|done|done|]. apply Hord. by right; left.
Qed.
End laws.
