(* ===== verification/ExpiringMap.v ===== *)
(** * The expiring map

    [src/common/expiringmap/map.go]: a map whose values live for a fixed time, with a heap
    of pointers to the entries and one goroutine that removes what has expired.  An entry
    is an address in a store, because the map and the heap share it and its [index] is
    written by the heap.  The mutex makes every operation one step; [now] is the time an
    operation reads. *)

From stdpp Require Import base gmap strings list.
From Stdlib Require Import ZArith Lia.
From S2P Require Import Prelude Heap.

Open Scope Z_scope.

Section expiring.
Context {K V : Type} `{Countable K}.

Record entry : Type := mkEntry { e_key : K; e_value : V; e_expiresAt : Z; e_index : Z }.

Definition set_index (i : Z) (e : entry) : entry := mkEntry (e_key e) (e_value e) (e_expiresAt e) i.

(** ** The heap of entries *)

Record entryHeap : Type := mkHeap { eh_items : list nat; eh_store : gmap nat entry }.

Definition expires (h : entryHeap) (p : nat) : Z := from_option e_expiresAt 0 (eh_store h !! p).

Definition index_at (items : list nat) (i : nat) (store : gmap nat entry) : gmap nat entry :=
  match items !! i with Some p => alter (set_index (Z.of_nat i)) p store | None => store end.

#[export] Instance entryHeap_interface : HeapInterface entryHeap := {|
  h_Len := fun h => length (eh_items h);
  h_Less := fun i j h =>
    match eh_items h !! i, eh_items h !! j with
    | Some p, Some q => expires h p <? expires h q
    | _, _ => false
    end;
  h_Swap := fun i j h =>
    let items := exchange i j (eh_items h) in
    mkHeap items (index_at items j (index_at items i (eh_store h)))
|}.

(** [Push] of an entry, before the heap is repaired. *)
Definition entryHeap_Push (p : nat) (h : entryHeap) : entryHeap :=
  mkHeap (eh_items h ++ [p]) (alter (set_index (Z.of_nat (length (eh_items h)))) p (eh_store h)).

(** [Pop]: the last entry. *)
Definition entryHeap_Pop (h : entryHeap) : option nat * entryHeap :=
  match last (eh_items h) with
  | Some p => (Some p, mkHeap (removelast (eh_items h)) (alter (set_index (-1)) p (eh_store h)))
  | None => (None, h)
  end.

(** ** The map *)

Record Map : Type := mkMap {
  m_entries : gmap K nat;
  m_mapPeak : Z;
  m_queue : entryHeap;
  m_lifetime : Z;
  m_wake : bool;
  m_closed : bool;
  m_next : nat
}.

Definition with_queue (m : Map) (entries : gmap K nat) (peak : Z) (q : entryHeap) : Map :=
  mkMap entries peak q (m_lifetime m) (m_wake m) (m_closed m) (m_next m).

Definition New (lifetime : Z) : result Map :=
  if lifetime <=? 0 then Err (EPanic "expiringmap: non-positive lifetime")
  else Ok (mkMap ∅ 0 (mkHeap [] ∅) lifetime false false 0).

(** A token in the channel, unless there is one. *)
Definition notify (m : Map) : Map :=
  mkMap (m_entries m) (m_mapPeak m) (m_queue m) (m_lifetime m) true (m_closed m) (m_next m).

Definition compact (m : Map) : Map :=
  let remaining := Z.of_nat (size (m_entries m)) in
  if remaining =? 0 then with_queue m ∅ 0 (m_queue m)
  else if (m_mapPeak m <? 1024) || (m_mapPeak m / 4 <? remaining) then m
  else with_queue m (m_entries m) remaining (m_queue m).

Definition lookup_entry (m : Map) (key : K) : option (nat * entry) :=
  match m_entries m !! key with
  | Some p => match eh_store (m_queue m) !! p with Some e => Some (p, e) | None => None end
  | None => None
  end.

Definition remove (item : entry) (m : Map) : Map :=
  let q := (entryHeap_Pop (heap_Remove (Z.to_nat (e_index item)) (m_queue m))).2 in
  compact (with_queue m (delete (e_key item) (m_entries m)) (m_mapPeak m) q).

Definition set_entry (p : nat) (e : entry) (q : entryHeap) : entryHeap := mkHeap (eh_items q) (<[p := e]> (eh_store q)).

(** A value that has not expired; one that has is removed. *)
Definition current (now : Z) (key : K) (m : Map) : option (nat * entry) * Map :=
  match lookup_entry m key with
  | Some (p, item) => if negb (now <? e_expiresAt item) then (None, remove item m) else (Some (p, item), m)
  | None => (None, m)
  end.

Definition storeIf (now : Z) (key : K) (value : V) (allow : option (option V -> bool)) (m : Map) : bool * Map :=
  let expiresAt := now + m_lifetime m in
  if m_closed m then (false, m)
  else
    let '(item, m1) := current now key m in
    let allowed := match allow with Some f => f (option_map (fun i => e_value i.2) item) | None => true end in
    if negb allowed then (false, m1)
    else
      match item with
      | Some (p, item) =>
          let q := heap_Fix (Z.to_nat (e_index item)) (set_entry p (mkEntry (e_key item) value expiresAt (e_index item)) (m_queue m1)) in
          (true, with_queue m1 (m_entries m1) (m_mapPeak m1) q)
      | None =>
          let wake := (length (eh_items (m_queue m1)) =? 0)%nat in
          let p := m_next m1 in
          let entries := <[key := p]> (m_entries m1) in
          let peak := Z.max (m_mapPeak m1) (Z.of_nat (size entries)) in
          let q := heap_Push (entryHeap_Push p (set_entry p (mkEntry key value expiresAt 0) (m_queue m1))) in
          let m2 := mkMap entries peak q (m_lifetime m1) (m_wake m1) (m_closed m1) (S p) in
          (true, if wake then notify m2 else m2)
      end.

Definition Store (now : Z) (key : K) (value : V) (m : Map) : bool * Map := storeIf now key value None m.

Definition StoreIf (now : Z) (key : K) (value : V) (allow : option V -> bool) (m : Map) : bool * Map :=
  storeIf now key value (Some allow) m.

Definition Load (now : Z) (key : K) (m : Map) : option V * Map :=
  if m_closed m then (None, m)
  else let '(item, m1) := current now key m in (option_map (fun i => e_value i.2) item, m1).

Definition LoadAndRefresh (now : Z) (key : K) (m : Map) : option V * Map :=
  let expiresAt := now + m_lifetime m in
  if m_closed m then (None, m)
  else
    let '(item, m1) := current now key m in
    match item with
    | Some (p, item) =>
        let q := heap_Fix (Z.to_nat (e_index item)) (set_entry p (mkEntry (e_key item) (e_value item) expiresAt (e_index item)) (m_queue m1)) in
        (Some (e_value item), with_queue m1 (m_entries m1) (m_mapPeak m1) q)
    | None => (None, m1)
    end.

Definition Len (m : Map) : Z := Z.of_nat (size (m_entries m)).

Definition Close (m : Map) : Map :=
  notify (if m_closed m then m
          else mkMap ∅ 0 (mkHeap [] (eh_store (m_queue m))) (m_lifetime m) (m_wake m) true (m_next m)).

(** The loop of [removeExpired]: the length of the queue is enough fuel. *)
Fixpoint expire_loop (fuel : nat) (now : Z) (removed : bool) (m : Map) : bool * Map :=
  match fuel with
  | O => (removed, m)
  | S fuel' =>
      match eh_items (m_queue m) with
      | root :: _ =>
          if negb (now <? expires (m_queue m) root) then
            let '(popped, q) := entryHeap_Pop (heap_Pop (m_queue m)) in
            let key := p ← popped; e ← eh_store q !! p; Some (e_key e) in
            let entries := match key with Some k => delete k (m_entries m) | None => m_entries m end in
            expire_loop fuel' now true (with_queue m entries (m_mapPeak m) q)
          else (removed, m)
      | [] => (removed, m)
      end
  end.

Definition removeExpired (now : Z) (m : Map) : Map :=
  let '(removed, m1) := expire_loop (length (eh_items (m_queue m))) now false m in
  if removed then compact m1 else m1.

(** ** The goroutine *)

Inductive Worker : Type :=
| Checking
| WaitWake
| WaitTimer (deadline : Z)
| Done.

(** One round of [run] at [now], up to where it waits. *)
Definition run_check (now : Z) (m : Map) : Map * Worker :=
  if m_closed m then (m, Done)
  else
    let m1 := removeExpired now m in
    match eh_items (m_queue m1) with
    | [] => (m1, WaitWake)
    | root :: _ => (m1, WaitTimer (expires (m_queue m1) root))
    end.

Definition take_wake (m : Map) : Map :=
  mkMap (m_entries m) (m_mapPeak m) (m_queue m) (m_lifetime m) false (m_closed m) (m_next m).
End expiring.

Arguments entry : clear implicits.
Arguments entryHeap : clear implicits.
Arguments Map K V {_ _}.
