(* ===== verification/ExpiringOk.v ===== *)
(** * The heap and the map of an expiring map agree

    The operations of [ExpiringMap] keep the heap ordered, every entry's index its place
    in the heap, and the map and the heap at the same entries; each is described by what
    it does to the contents. *)

From stdpp Require Import base gmap list.
From Stdlib Require Import ZArith Lia.
From S2P Require Import Prelude Heap ExpiringMap.

Open Scope Z_scope.

Section expiring_ok.
Context {K V : Type} `{Countable K}.
Implicit Types (q h : entryHeap K V) (p i j : nat) (m : Map K V) (e : entry K V).

(** ** The heap *)

Definition payload q p : option (K * V * Z) := option_map (fun e => (e_key e, e_value e, e_expiresAt e)) (eh_store q !! p).

Lemma payload_expires q q' p : payload q p = payload q' p -> expires q p = expires q' p.
Proof. unfold payload, expires. intros He. destruct (eh_store q !! p), (eh_store q' !! p); by simplify_eq/=. Qed.

Lemma payload_alter (items : list nat) (store : gmap nat (entry K V)) (n : Z) p p' :
  payload (mkHeap items (alter (set_index n) p store)) p' = payload (mkHeap items store) p'.
Proof.
  unfold payload. cbn. destruct (decide (p = p')) as [->|]; [rewrite lookup_alter_eq|by rewrite lookup_alter_ne].
  by destruct (store !! p').
Qed.

Lemma payload_items (items items' : list nat) (store : gmap nat (entry K V)) p : payload (mkHeap items store) p = payload (mkHeap items' store) p.
Proof. done. Qed.

Lemma payload_Swap i j q p : payload (h_Swap i j q) p = payload q p.
Proof.
  cbn. unfold index_at. destruct (exchange i j (eh_items q) !! j); rewrite ?payload_alter;
    (destruct (exchange i j (eh_items q) !! i); rewrite ?payload_alter; by rewrite (payload_items _ (eh_items q)); destruct q).
Qed.

#[export] Instance entryHeap_laws : HeapLaws (entryHeap K V) nat eh_items expires.
Proof.
  split; [done| |done|].
  - intros h i j a b Ha Hb. cbn. by rewrite Ha, Hb.
  - intros h i j a. apply payload_expires, payload_Swap.
Qed.

(** Every entry of the heap knows its place. *)
Definition indexed q : Prop := forall i p, eh_items q !! i = Some p -> exists e, eh_store q !! p = Some e /\ e_index e = Z.of_nat i.

Lemma indexed_Swap q i j : (i < length (eh_items q))%nat -> (j < length (eh_items q))%nat ->
  NoDup (eh_items q) -> indexed q -> indexed (h_Swap i j q).
Proof.
  intros Hi Hj Hnd Hx k p. cbn. pose proof (exchange_perm i j (eh_items q) Hi Hj) as Hperm.
  assert (Hnd' : NoDup (exchange i j (eh_items q))) by (by rewrite Hperm).
  intros Hk. assert (Hin : exists e, eh_store q !! p = Some e).
  { assert (p ∈ eh_items q) as Hp by (rewrite <- Hperm; by eapply list_elem_of_lookup_2).
    apply list_elem_of_lookup in Hp as [k' Hk']. destruct (Hx k' p Hk') as (e & He & _). by exists e. }
  destruct Hin as [e He]. unfold index_at.
  destruct (exchange i j (eh_items q) !! i) as [a|] eqn:Ha; [|apply lookup_ge_None in Ha; rewrite length_exchange in Ha; lia].
  destruct (exchange i j (eh_items q) !! j) as [b|] eqn:Hb; [|apply lookup_ge_None in Hb; rewrite length_exchange in Hb; lia].
  destruct (decide (p = b)) as [->|Hpb].
  - assert (k = j) as -> by (eapply NoDup_lookup; eauto). rewrite lookup_alter_eq.
    destruct (decide (a = b)) as [->|]; [rewrite lookup_alter_eq|rewrite lookup_alter_ne by done]; rewrite He; cbn; by eexists.
  - rewrite lookup_alter_ne by done. destruct (decide (p = a)) as [->|Hpa].
    + assert (k = i) as -> by (eapply NoDup_lookup; eauto). rewrite lookup_alter_eq, He. cbn. by eexists.
    + assert (k <> i /\ k <> j) as [Hki Hkj] by (split; intros ->; congruence).
      rewrite lookup_alter_ne by done. apply Hx. rewrite lookup_exchange in Hk by done. by rewrite !decide_False in Hk by done.
Qed.

Record heap_ok q : Prop := mkHeapOk {
  ho_nodup : NoDup (eh_items q);
  ho_indexed : indexed q;
  ho_ordered : ordered (prio_at eh_items expires q) (length (eh_items q))
}.

(** The same entries, in another order. *)
Definition same_entries q q' : Prop :=
  NoDup (eh_items q') /\ indexed q' /\ eh_items q' ≡ₚ eh_items q /\ forall p, payload q' p = payload q p.

Lemma same_entries_refl q : NoDup (eh_items q) -> indexed q -> same_entries q q.
Proof. done. Qed.

Lemma same_entries_Swap q0 q i j : (i < h_Len q)%nat -> (j < h_Len q)%nat -> same_entries q0 q -> same_entries q0 (h_Swap i j q).
Proof.
  intros Hi Hj (Hnd & Hx & Hp & Hpay). pose proof (exchange_perm i j (eh_items q) Hi Hj) as Hperm. split_and!.
  - cbn. by rewrite Hperm.
  - by apply indexed_Swap.
  - cbn. by rewrite Hperm.
  - intros p. by rewrite payload_Swap.
Qed.

Lemma Len_Swap q i j : h_Len (h_Swap i j q) = h_Len q.
Proof. apply length_exchange. Qed.

(** ** Taking entries off *)

Lemma removelast_take {A : Type} (l : list A) : removelast l = take (length l - 1) l.
Proof. rewrite removelast_firstn_len. by rewrite Nat.sub_1_r. Qed.

Lemma entryHeap_Pop_ok q i q1 p :
  (0 < length (eh_items q))%nat -> eh_items q !! i = Some p -> same_entries q q1 -> removed eh_items expires q i q1 ->
  exists q2, entryHeap_Pop q1 = (Some p, q2) /\ heap_ok q2 /\ eh_items q ≡ₚ p :: eh_items q2 /\ forall p', payload q2 p' = payload q p'.
Proof.
  intros Hl Hi (Hnd & Hx & Hperm & Hpay) (_ & _ & Hlast & Hord). unfold entryHeap_Pop.
  assert (Hlen : length (eh_items q1) = length (eh_items q)) by (by rewrite Hperm).
  rewrite Hi in Hlast. rewrite last_lookup, Hlen, <- Nat.sub_1_r, Hlast. eexists. split; [done|].
  assert (Hsplit : eh_items q1 = removelast (eh_items q1) ++ [p]).
  { rewrite removelast_take, Hlen. rewrite <- (take_drop (length (eh_items q) - 1) (eh_items q1)) at 1. f_equal.
    rewrite (drop_S _ p) by done. f_equal. apply drop_ge. lia. }
  rewrite Hsplit in Hnd. apply NoDup_app in Hnd as (Hnd & Hdis & _).
  assert (Hk : forall k p', removelast (eh_items q1) !! k = Some p' -> eh_items q1 !! k = Some p').
  { intros k p' Hk. rewrite Hsplit. by apply lookup_app_l_Some. }
  split_and!.
  - split; cbn.
    + done.
    + intros k p' Hk'. destruct (Hx k p' (Hk k p' Hk')) as (e & He & Hie). exists e. split; [|done]. cbn.
      rewrite lookup_alter_ne; [done|]. intros ->. apply (Hdis p'); [by eapply list_elem_of_lookup_2|by apply list_elem_of_singleton].
    + assert (Hrl : length (removelast (eh_items q1)) = (length (eh_items q) - 1)%nat).
      { rewrite removelast_take, length_take, Hlen. lia. }
      rewrite Hrl. intros c Hc. assert (Heq : forall c, (c < length (eh_items q) - 1)%nat ->
        prio_at eh_items expires (mkHeap (removelast (eh_items q1)) (alter (set_index (-1)) p (eh_store q1))) c = prio_at eh_items expires q1 c).
      { intros c' Hc'. unfold prio_at. cbn. destruct (lookup_lt_is_Some_2 (removelast (eh_items q1)) c') as [p' Hp']; [lia|].
        rewrite Hp', (Hk c' p' Hp'). cbn. apply payload_expires. rewrite payload_alter. by destruct q1. }
      pose proof (parent_lt c ltac:(lia)). rewrite !Heq by lia. by apply Hord.
  - cbn. rewrite <- Hperm. rewrite Hsplit at 1. by rewrite Permutation_app_comm.
  - intros p'. rewrite payload_alter, <- Hpay. by destruct q1.
Qed.

Lemma heap_take_off q i p : heap_ok q -> eh_items q !! i = Some p ->
  exists q2, entryHeap_Pop (heap_Remove i q) = (Some p, q2) /\ heap_ok q2 /\ eh_items q ≡ₚ p :: eh_items q2 /\ forall p', payload q2 p' = payload q p'.
Proof.
  intros [Hnd Hx Ho] Hi. pose proof (lookup_lt_Some _ _ _ Hi). eapply entryHeap_Pop_ok; [lia|done| |].
  - apply (heap_Remove_kept (same_entries q)); [apply same_entries_Swap|apply Len_Swap|done|done].
  - by apply (heap_Remove_ok eh_items expires).
Qed.

Lemma heap_take_root q p l : heap_ok q -> eh_items q = p :: l ->
  exists q2, entryHeap_Pop (heap_Pop q) = (Some p, q2) /\ heap_ok q2 /\ eh_items q ≡ₚ p :: eh_items q2 /\ forall p', payload q2 p' = payload q p'.
Proof.
  intros [Hnd Hx Ho] Hp. eapply (entryHeap_Pop_ok q 0); [rewrite Hp; cbn; lia|by rewrite Hp| |].
  - apply (heap_Pop_kept (same_entries q)); [apply same_entries_Swap|apply Len_Swap|cbn; rewrite Hp; cbn; lia|done].
  - apply (heap_Pop_ok eh_items expires); [rewrite Hp; cbn; lia|done].
Qed.
(** ** Changing and adding entries *)

Lemma payload_set_entry p e q p' :
  payload (set_entry p e q) p' = if decide (p' = p) then Some (e_key e, e_value e, e_expiresAt e) else payload q p'.
Proof.
  unfold payload, set_entry. cbn. case_decide; subst; [by rewrite lookup_insert_eq|by rewrite lookup_insert_ne].
Qed.

Lemma prio_at_set_entry p e q k : eh_items q !! k <> Some p ->
  prio_at eh_items expires (set_entry p e q) k = prio_at eh_items expires q k.
Proof.
  intros Hk. unfold prio_at. cbn. destruct (eh_items q !! k) as [p'|]; [|done]. cbn.
  apply payload_expires. rewrite payload_set_entry. by rewrite decide_False by congruence.
Qed.

Lemma heap_refresh q i p e : heap_ok q -> eh_items q !! i = Some p -> e_index e = Z.of_nat i ->
  let q' := heap_Fix i (set_entry p e q) in
  heap_ok q' /\ eh_items q' ≡ₚ eh_items q /\
  forall p', payload q' p' = if decide (p' = p) then Some (e_key e, e_value e, e_expiresAt e) else payload q p'.
Proof.
  intros [Hnd Hx Ho] Hi He. cbn zeta. pose proof (lookup_lt_Some _ _ _ Hi) as Hlt.
  assert (Hx' : indexed (set_entry p e q)).
  { intros k p' Hk. cbn in *. destruct (decide (p' = p)) as [->|].
    - exists e. rewrite lookup_insert_eq. split; [done|]. rewrite He. f_equal. eapply NoDup_lookup; eauto.
    - rewrite lookup_insert_ne by done. by apply Hx. }
  assert (Hs : same_entries (set_entry p e q) (heap_Fix i (set_entry p e q))).
  { apply (heap_Fix_kept (same_entries (set_entry p e q))); [apply same_entries_Swap|apply Len_Swap|done|done]. }
  destruct (heap_Fix_ok eh_items expires q i (set_entry p e q)) as [Ho' _]; [done|done| |].
  { intros k Hk. apply prio_at_set_entry. intros Hk'. apply Hk. eapply NoDup_lookup; eauto. }
  destruct Hs as (Hnd' & Hx'' & Hperm & Hpay). split_and!; [|by rewrite Hperm|intros p'; rewrite Hpay; apply payload_set_entry].
  split; [done|done|]. by rewrite Hperm.
Qed.

Lemma heap_insert q p e : heap_ok q -> p ∉ eh_items q ->
  let q' := heap_Push (entryHeap_Push p (set_entry p e q)) in
  heap_ok q' /\ eh_items q' ≡ₚ p :: eh_items q /\
  forall p', payload q' p' = if decide (p' = p) then Some (e_key e, e_value e, e_expiresAt e) else payload q p'.
Proof.
  intros [Hnd Hx Ho] Hp. cbn zeta. set (q1 := entryHeap_Push p (set_entry p e q)).
  assert (Hnd1 : NoDup (eh_items q1)).
  { cbn. apply NoDup_app. split_and!; [done| |apply NoDup_singleton]. intros p' Hp' ->%list_elem_of_singleton. done. }
  assert (Hlen : length (eh_items q1) = S (length (eh_items q))) by (cbn; rewrite length_app; cbn; lia).
  assert (Hpay1 : forall p', payload q1 p' = if decide (p' = p) then Some (e_key e, e_value e, e_expiresAt e) else payload q p').
  { intros p'. unfold q1, entryHeap_Push. rewrite payload_alter, <- payload_set_entry. done. }
  assert (Hx1 : indexed q1).
  { intros k p' Hk. cbn in Hk |- *. apply lookup_app_Some in Hk as [Hk|[Hge Hk]].
    - assert (p' <> p) by (intros ->; apply Hp; by eapply list_elem_of_lookup_2).
      rewrite lookup_alter_ne, lookup_insert_ne by done. by apply Hx.
    - destruct (k - length (eh_items q))%nat eqn:Hd; [|done]. cbn in Hk. simplify_eq.
      rewrite lookup_alter_eq, lookup_insert_eq. cbn. eexists. split; [done|]. cbn. lia. }
  assert (Hs : same_entries q1 (heap_Push q1)).
  { apply (heap_Push_kept (same_entries q1)); [apply same_entries_Swap|apply Len_Swap|cbn [h_Len entryHeap_interface]; lia|done]. }
  destruct (heap_Push_ok eh_items expires q1) as [Ho' _]; [lia| |].
  { rewrite Hlen. cbn [Nat.sub]. rewrite Nat.sub_0_r. intros c Hc. pose proof (parent_lt c ltac:(lia)).
    assert (Heq : forall k, (k < length (eh_items q))%nat -> prio_at eh_items expires q1 k = prio_at eh_items expires q k).
    { intros k Hk. unfold prio_at. cbn. rewrite lookup_app_l by done. destruct (lookup_lt_is_Some_2 (eh_items q) k Hk) as [p' Hp']. rewrite Hp'. cbn.
      apply payload_expires. rewrite Hpay1, decide_False; [done|]. intros ->. apply Hp. by eapply list_elem_of_lookup_2. }
    rewrite !Heq by lia. by apply Ho. }
  destruct Hs as (Hnd' & Hx'' & Hperm & Hpay). split_and!.
  - split; [done|done|]. by rewrite Hperm.
  - rewrite Hperm. cbn. by rewrite Permutation_app_comm.
  - intros p'. by rewrite Hpay.
Qed.

(** ** The map *)

Record good m : Prop := mkGood {
  g_heap : heap_ok (m_queue m);
  g_items : forall p, p ∈ eh_items (m_queue m) <-> exists k, m_entries m !! k = Some p;
  g_keys : forall k p, m_entries m !! k = Some p -> exists v t, payload (m_queue m) p = Some (k, v, t);
  g_fresh : forall p, p ∈ eh_items (m_queue m) -> (p < m_next m)%nat
}.

(** A value and when it expires. *)
Definition contents m (k : K) : option (V * Z) :=
  match m_entries m !! k with
  | Some p => option_map (fun x => (x.1.2, x.2)) (payload (m_queue m) p)
  | None => None
  end.

Lemma entries_inj m k k' p : good m -> m_entries m !! k = Some p -> m_entries m !! k' = Some p -> k = k'.
Proof. intros Hm Hk Hk'. destruct (g_keys m Hm k p Hk) as (v & t & Hp), (g_keys m Hm k' p Hk') as (v' & t' & Hp'). congruence. Qed.

Lemma lookup_entry_Some m k p e : good m -> lookup_entry m k = Some (p, e) ->
  m_entries m !! k = Some p /\ eh_store (m_queue m) !! p = Some e /\ e_key e = k /\
  (exists i, eh_items (m_queue m) !! i = Some p /\ e_index e = Z.of_nat i) /\ contents m k = Some (e_value e, e_expiresAt e).
Proof.
  intros Hm. unfold lookup_entry. destruct (m_entries m !! k) as [p'|] eqn:Hk; [|done].
  destruct (eh_store (m_queue m) !! p') as [e'|] eqn:He; [|done]. intros [= -> ->].
  destruct (g_keys m Hm k p Hk) as (v & t & Hp). assert (Hpay : payload (m_queue m) p = Some (e_key e, e_value e, e_expiresAt e)) by (unfold payload; by rewrite He).
  split_and!; [done|done|congruence| |unfold contents; by rewrite Hk, Hpay].
  assert (p ∈ eh_items (m_queue m)) as Hin by (apply (g_items m Hm); by exists k).
  apply list_elem_of_lookup in Hin as [i Hi]. exists i. split; [done|].
  destruct (ho_indexed _ (g_heap m Hm) i p Hi) as (e' & He' & Hie). congruence.
Qed.

Lemma lookup_entry_None m k : good m -> lookup_entry m k = None -> m_entries m !! k = None /\ contents m k = None.
Proof.
  intros Hm. unfold lookup_entry, contents. destruct (m_entries m !! k) as [p|] eqn:Hk; [|done].
  destruct (g_keys m Hm k p Hk) as (v & t & Hp). unfold payload in Hp. destruct (eh_store (m_queue m) !! p); by simplify_eq/=.
Qed.

Lemma compact_entries m : m_entries (compact m) = m_entries m.
Proof.
  unfold compact. destruct (Z.eqb_spec (Z.of_nat (size (m_entries m))) 0) as [Hs|]; [|by case_match].
  cbn. symmetry. apply map_size_empty_inv. lia.
Qed.

Lemma compact_rest m : m_queue (compact m) = m_queue m /\ m_next (compact m) = m_next m /\ m_lifetime (compact m) = m_lifetime m /\
  m_wake (compact m) = m_wake m /\ m_closed (compact m) = m_closed m.
Proof. unfold compact. by repeat case_match. Qed.

Lemma good_compact m : good m -> good (compact m).
Proof.
  intros [H1 H2 H3 H4]. pose proof (compact_entries m) as He. destruct (compact_rest m) as (Hq & Hn & _).
  split; rewrite ?He, ?Hq, ?Hn; done.
Qed.

Lemma contents_compact m k : contents (compact m) k = contents m k.
Proof. unfold contents. rewrite compact_entries. by destruct (compact_rest m) as (-> & _). Qed.

(** ** Operations *)

(** What the operations do not touch. *)
Definition same_rest m m' : Prop := m_lifetime m' = m_lifetime m /\ m_wake m' = m_wake m /\ m_closed m' = m_closed m.

Lemma good_without m k p q2 peak : good m -> m_entries m !! k = Some p ->
  heap_ok q2 -> eh_items (m_queue m) ≡ₚ p :: eh_items q2 -> (forall p', payload q2 p' = payload (m_queue m) p') ->
  let m' := with_queue m (delete k (m_entries m)) peak q2 in
  good m' /\ forall k', contents m' k' = if decide (k' = k) then None else contents m k'.
Proof.
  intros Hm Hk Hq Hperm Hpay. cbn zeta. pose proof (ho_nodup _ (g_heap m Hm)) as Hnd. rewrite Hperm, NoDup_cons in Hnd. destruct Hnd as [Hp _].
  split.
  - split; cbn.
    + done.
    + intros p'. split.
      * intros Hin. destruct (proj1 (g_items m Hm p')) as [k' Hk']; [rewrite Hperm; by right|].
        exists k'. rewrite lookup_delete_ne; [done|]. intros <-. simplify_eq. done.
      * intros [k' Hk']. apply lookup_delete_Some in Hk' as [Hne Hk']. assert (p' ∈ eh_items (m_queue m)) as Hin by (apply (g_items m Hm); by exists k').
        rewrite Hperm in Hin. apply elem_of_cons in Hin as [->|Hin]; [|done]. by destruct (entries_inj m k k' p Hm Hk Hk').
    + intros k' p' Hk'. apply lookup_delete_Some in Hk' as [_ Hk']. rewrite Hpay. by apply (g_keys m Hm).
    + intros p' Hin. apply (g_fresh m Hm). rewrite Hperm. by right.
  - intros k'. unfold contents. cbn. case_decide as Heq; [subst; by rewrite lookup_delete_eq|]. rewrite lookup_delete_ne by done.
    destruct (m_entries m !! k'); [by rewrite Hpay|done].
Qed.

Lemma remove_ok m k p e : good m -> lookup_entry m k = Some (p, e) ->
  good (remove e m) /\ same_rest m (remove e m) /\ forall k', contents (remove e m) k' = if decide (k' = k) then None else contents m k'.
Proof.
  intros Hm He. destruct (lookup_entry_Some m k p e Hm He) as (Hk & _ & <- & (i & Hi & Hie) & _).
  unfold remove. rewrite Hie, Nat2Z.id. destruct (heap_take_off (m_queue m) i p (g_heap m Hm) Hi) as (q2 & -> & Hq & Hperm & Hpay). cbn [snd].
  destruct (good_without m (e_key e) p q2 (m_mapPeak m) Hm Hk Hq Hperm Hpay) as [Hg Hc].
  split_and!; [by apply good_compact|by destruct (compact_rest (with_queue m (delete (e_key e) (m_entries m)) (m_mapPeak m) q2)) as (_ & _ & ? & ? & ?)|].
  intros k'. by rewrite contents_compact.
Qed.

(** A value that is there and has not expired. *)
Definition live (now : Z) (c : option (V * Z)) : option V :=
  match c with Some (v, t) => if now <? t then Some v else None | None => None end.

Lemma current_ok now k m : good m ->
  let '(item, m1) := current now k m in
  good m1 /\ same_rest m m1 /\ option_map (fun it : nat * entry K V => e_value it.2) item = live now (contents m k) /\
  (forall k', contents m1 k' = contents m k' \/ k' = k /\ contents m1 k = None /\ exists v t, contents m k = Some (v, t) /\ t <= now) /\
  match item with Some (p, e) => lookup_entry m1 k = Some (p, e) | None => m_entries m1 !! k = None end.
Proof.
  intros Hm. unfold current. destruct (lookup_entry m k) as [[p e]|] eqn:He.
  - destruct (lookup_entry_Some m k p e Hm He) as (Hk & _ & _ & _ & Hc). destruct (Z.ltb_spec now (e_expiresAt e)) as [Hlt|Hle]; cbn [negb].
    + split_and!; [done|done|rewrite Hc; cbn; by rewrite (proj2 (Z.ltb_lt _ _))|by left|done].
    + destruct (remove_ok m k p e Hm He) as (Hg & Hs & Hcs). split_and!; [done|done| | |].
      * rewrite Hc. cbn. by rewrite (proj2 (Z.ltb_ge _ _)).
      * intros k'. rewrite !Hcs. rewrite (decide_True (P := k = k)) by done. case_decide; [right|by left]. split_and!; [done|done|].
        by exists (e_value e), (e_expiresAt e).
      * pose proof (Hcs k) as Hn. rewrite decide_True in Hn by done. unfold contents in Hn. destruct (m_entries (remove e m) !! k) as [p'|] eqn:Hk'; [|done].
        destruct (g_keys _ Hg k p' Hk') as (v & t & Hp). by rewrite Hp in Hn.
  - destruct (lookup_entry_None m k Hm He) as [Hk Hc]. split_and!; [done|done|by rewrite Hc|by left|done].
Qed.

(** A new value for a key that is there. *)
Lemma refresh_ok m k p e v t : good m -> lookup_entry m k = Some (p, e) ->
  let m' := with_queue m (m_entries m) (m_mapPeak m) (heap_Fix (Z.to_nat (e_index e)) (set_entry p (mkEntry (e_key e) v t (e_index e)) (m_queue m))) in
  good m' /\ forall k', contents m' k' = if decide (k' = k) then Some (v, t) else contents m k'.
Proof.
  intros Hm He. destruct (lookup_entry_Some m k p e Hm He) as (Hk & _ & <- & (i & Hi & Hie) & _). cbn zeta.
  rewrite Hie, Nat2Z.id. destruct (heap_refresh (m_queue m) i p (mkEntry (e_key e) v t (Z.of_nat i)) (g_heap m Hm) Hi eq_refl) as (Hq & Hperm & Hpay).
  set (q' := heap_Fix i _) in *. cbn [e_key e_value e_expiresAt] in Hpay. split.
  - split; cbn.
    + done.
    + intros p'. rewrite Hperm. apply (g_items m Hm).
    + intros k' p' Hk'. rewrite Hpay. case_decide; [subst|by apply (g_keys m Hm)]. rewrite (entries_inj m k' (e_key e) p Hm Hk' Hk). by eexists _, _.
    + intros p'. rewrite Hperm. apply (g_fresh m Hm).
  - intros k'. unfold contents. cbn. destruct (m_entries m !! k') as [p'|] eqn:Hk'.
    + rewrite Hpay. case_decide as Heq; [subst|].
      * rewrite (entries_inj m k' (e_key e) p Hm Hk' Hk). by rewrite decide_True.
      * rewrite decide_False; [done|]. intros ->. congruence.
    + rewrite decide_False; [done|]. intros ->. congruence.
Qed.

(** A value for a new key. *)
Lemma insert_ok m k v t peak wake closed : good m -> m_entries m !! k = None ->
  let p := m_next m in
  let m' := mkMap (<[k := p]> (m_entries m)) peak (heap_Push (entryHeap_Push p (set_entry p (mkEntry k v t 0) (m_queue m))))
    (m_lifetime m) wake closed (S p) in
  good m' /\ forall k', contents m' k' = if decide (k' = k) then Some (v, t) else contents m k'.
Proof.
  intros Hm Hk. cbn zeta. set (p := m_next m). assert (Hp : p ∉ eh_items (m_queue m)) by (intros Hin; pose proof (g_fresh m Hm p Hin); unfold p in *; lia).
  destruct (heap_insert (m_queue m) p (mkEntry k v t 0) (g_heap m Hm) Hp) as (Hq & Hperm & Hpay). set (q' := heap_Push _) in *. cbn [e_key e_value e_expiresAt] in Hpay.
  assert (Hpk : forall k' p', m_entries m !! k' = Some p' -> p' <> p) by (intros k' p' Hk' ->; apply Hp, (g_items m Hm); by exists k').
  split.
  - split; cbn [m_queue m_entries m_next].
    + done.
    + intros p'. rewrite Hperm, elem_of_cons, (g_items m Hm). split.
      * intros [->|[k' Hk']]; [exists k; by rewrite lookup_insert_eq|]. exists k'. rewrite lookup_insert_ne; [done|]. intros ->. congruence.
      * intros [k' Hk']. apply lookup_insert_Some in Hk' as [[_ <-]|[_ Hk']]; [by left|right; by exists k'].
    + intros k' p' Hk'. rewrite Hpay. apply lookup_insert_Some in Hk' as [[<- <-]|[_ Hk']]; [rewrite decide_True by done; by eexists _, _|].
      rewrite decide_False by (by eapply Hpk). by apply (g_keys m Hm).
    + intros p'. rewrite Hperm, elem_of_cons. intros [->|Hin]; [lia|]. pose proof (g_fresh m Hm p' Hin). unfold p. lia.
  - intros k'. unfold contents. cbn [m_queue m_entries]. case_decide as Heq; [subst; rewrite lookup_insert_eq, Hpay; by rewrite decide_True|].
    rewrite lookup_insert_ne by done. destruct (m_entries m !! k') as [p'|] eqn:Hk'; [|done]. by rewrite Hpay, decide_False by (by eapply Hpk).
Qed.

(** ** Expiry *)

Definition unexpired (now : Z) (c : option (V * Z)) : option (V * Z) :=
  match c with Some (v, t) => if now <? t then Some (v, t) else None | None => None end.

Lemma items_contents m p : good m -> p ∈ eh_items (m_queue m) -> exists k v, m_entries m !! k = Some p /\
  payload (m_queue m) p = Some (k, v, expires (m_queue m) p) /\ contents m k = Some (v, expires (m_queue m) p).
Proof.
  intros Hm Hp. apply (g_items m Hm) in Hp as [k Hk]. destruct (g_keys m Hm k p Hk) as (v & t & Hpay).
  assert (Ht : expires (m_queue m) p = t) by (unfold payload, expires in *; destruct (eh_store (m_queue m) !! p); by simplify_eq/=).
  exists k, v. rewrite Ht. split_and!; [done|done|]. unfold contents. by rewrite Hk, Hpay.
Qed.

Lemma contents_items m k v t : good m -> contents m k = Some (v, t) -> exists p, p ∈ eh_items (m_queue m) /\ expires (m_queue m) p = t.
Proof.
  intros Hm. unfold contents. destruct (m_entries m !! k) as [p|] eqn:Hk; [|done]. intros Hc.
  assert (Hp : p ∈ eh_items (m_queue m)) by (apply (g_items m Hm); by exists k). exists p. split; [done|].
  unfold payload, expires in *. destruct (eh_store (m_queue m) !! p); by simplify_eq/=.
Qed.

(** The root expires first. *)
Lemma root_first m root l k v t : good m -> eh_items (m_queue m) = root :: l -> contents m k = Some (v, t) -> expires (m_queue m) root <= t.
Proof.
  intros Hm Hr Hc. destruct (contents_items m k v t Hm Hc) as (p & Hp & <-). apply list_elem_of_lookup in Hp as [i Hi].
  pose proof (root_least _ _ (ho_ordered _ (g_heap m Hm)) i (lookup_lt_Some _ _ _ Hi)) as Hle.
  unfold prio_at in Hle. rewrite Hi, Hr in Hle. done.
Qed.

Lemma expire_loop_ok fuel now removed m : good m -> (length (eh_items (m_queue m)) <= fuel)%nat ->
  let '(_, m') := expire_loop fuel now removed m in
  good m' /\ same_rest m m' /\ forall k, contents m' k = unexpired now (contents m k).
Proof.
  revert removed m. induction fuel as [|fuel IH]; intros removed m Hm Hf.
  { cbn. split_and!; [done|done|]. intros k. destruct (contents m k) as [[v t]|] eqn:Hc; [|done].
    destruct (contents_items m k v t Hm Hc) as (p & Hp & _). destruct (eh_items (m_queue m)); [by apply not_elem_of_nil in Hp|cbn in Hf; lia]. }
  cbn [expire_loop]. destruct (eh_items (m_queue m)) as [|root l] eqn:Hr.
  { split_and!; [done|done|]. intros k. destruct (contents m k) as [[v t]|] eqn:Hc; [|done].
    destruct (contents_items m k v t Hm Hc) as (p & Hp & _). rewrite Hr in Hp. by apply not_elem_of_nil in Hp. }
  destruct (Z.ltb_spec now (expires (m_queue m) root)) as [Hlt|Hle]; cbn [negb].
  { split_and!; [done|done|]. intros k. destruct (contents m k) as [[v t]|] eqn:Hc; [|done]. cbn.
    pose proof (root_first m root l k v t Hm Hr Hc). by rewrite (proj2 (Z.ltb_lt _ _)) by lia. }
  destruct (heap_take_root (m_queue m) root l (g_heap m Hm) Hr) as (q2 & -> & Hq & Hperm & Hpay).
  destruct (items_contents m root Hm) as (k0 & v0 & Hk0 & Hp0 & Hc0); [rewrite Hr; by left|].
  assert (Hkey : exists e, eh_store q2 !! root = Some e /\ e_key e = k0).
  { pose proof (Hpay root) as Hpr. rewrite Hp0 in Hpr. unfold payload in Hpr. destruct (eh_store q2 !! root) as [e|]; simplify_eq/=. by exists e. }
  destruct Hkey as (e & He & Hek). cbn [mbind option_bind]. rewrite He. cbn [mbind option_bind]. rewrite Hek.
  destruct (good_without m k0 root q2 (m_mapPeak m) Hm Hk0 Hq Hperm Hpay) as [Hg Hcs].
  specialize (IH true _ Hg). cbn [with_queue m_queue] in IH.
  assert (Hlen : (length (eh_items q2) <= fuel)%nat) by (rewrite Hr in Hperm; apply Permutation_length in Hperm; cbn in *; lia).
  specialize (IH Hlen). destruct (expire_loop fuel now true _) as [r m']. destruct IH as (Hg' & Hs' & Hc'). split_and!; [done|done|].
  intros k. rewrite Hc', Hcs. case_decide; [subst|done]. rewrite Hc0. cbn. by rewrite (proj2 (Z.ltb_ge _ _)).
Qed.

Lemma removeExpired_ok now m : good m ->
  good (removeExpired now m) /\ same_rest m (removeExpired now m) /\ forall k, contents (removeExpired now m) k = unexpired now (contents m k).
Proof.
  intros Hm. unfold removeExpired. pose proof (expire_loop_ok (length (eh_items (m_queue m))) now false m Hm ltac:(lia)) as Hl.
  destruct (expire_loop _ now false m) as [removed m1]. destruct Hl as (Hg & Hs & Hc). destruct removed; [|done].
  destruct (compact_rest m1) as (_ & _ & H1 & H2 & H3). unfold same_rest in *. split_and!; [by apply good_compact|..|intros k; by rewrite contents_compact];
    [rewrite H1|rewrite H2|rewrite H3]; apply Hs.
Qed.
End expiring_ok.
