(* ===== verification/ExpiringSpec.v ===== *)
(** * What an expiring map promises

    The specification is a map from keys to values with a time, from which nothing is ever
    removed; a value is there as long as its time has not come.  The second part is the
    goroutine that removes expired values, as a step relation with the operations of other
    goroutines in between. *)

From stdpp Require Import base gmap list relations.
From Stdlib Require Import ZArith Lia.
From S2P Require Import Prelude Heap ExpiringMap ExpiringOk.

Open Scope Z_scope.

Section spec.
Context {K V : Type} `{Countable K}.
Implicit Types (m : Map K V) (k : K) (v : V) (now : Z).

(** ** Operations *)

Inductive Op : Type :=
| OpStore k v (allow : option (option V -> bool))
| OpLoad k
| OpLoadAndRefresh k
| OpClose
| OpExpire.

Inductive Res : Type :=
| ResStored (b : bool)
| ResLoaded (o : option V)
| ResUnit.

Definition map_op now (op : Op) m : Res * Map K V :=
  match op with
  | OpStore k v allow => let '(b, m') := storeIf now k v allow m in (ResStored b, m')
  | OpLoad k => let '(o, m') := Load now k m in (ResLoaded o, m')
  | OpLoadAndRefresh k => let '(o, m') := LoadAndRefresh now k m in (ResLoaded o, m')
  | OpClose => (ResUnit, Close m)
  | OpExpire => (ResUnit, (run_check now m).1)
  end.

Record Spec : Type := mkSpec { sp_values : gmap K (V * Z); sp_lifetime : Z; sp_closed : bool }.

Definition spec_get now k (s : Spec) : option V := if sp_closed s then None else live now (sp_values s !! k).

Definition spec_set now k v (s : Spec) : Spec := mkSpec (<[k := (v, now + sp_lifetime s)]> (sp_values s)) (sp_lifetime s) (sp_closed s).

Definition spec_op now (op : Op) (s : Spec) : Res * Spec :=
  match op with
  | OpStore k v allow =>
      let allowed := match allow with Some f => f (spec_get now k s) | None => true end in
      if sp_closed s || negb allowed then (ResStored false, s) else (ResStored true, spec_set now k v s)
  | OpLoad k => (ResLoaded (spec_get now k s), s)
  | OpLoadAndRefresh k =>
      (ResLoaded (spec_get now k s), match spec_get now k s with Some v => spec_set now k v s | None => s end)
  | OpClose => (ResUnit, mkSpec (sp_values s) (sp_lifetime s) true)
  | OpExpire => (ResUnit, s)
  end.

Fixpoint run_ops {St : Type} (step : Z -> Op -> St -> Res * St) (ops : list (Z * Op)) (st : St) : list Res :=
  match ops with
  | [] => []
  | (now, op) :: ops => let '(r, st') := step now op st in r :: run_ops step ops st'
  end.

(** The clock does not run backwards. *)
Fixpoint clocked (clock : Z) (ops : list (Z * Op)) : Prop :=
  match ops with
  | [] => True
  | (now, _) :: ops => clock <= now /\ clocked now ops
  end.

(** ** What an operation does to the contents *)

(** From [m] to [m'] values may expire, and [changed] tells what else happens. *)
Definition fades now m m' (changed : K -> option (V * Z)) : Prop :=
  forall k, match changed k with
            | Some x => contents m' k = Some x
            | None => contents m' k = contents m k \/ contents m' k = None /\ exists v t, contents m k = Some (v, t) /\ t <= now
            end.

Definition only k (x : V * Z) : K -> option (V * Z) := fun k' => if decide (k' = k) then Some x else None.

Definition none : K -> option (V * Z) := fun _ => None.

(** The wake channel: a token stays, and a value in an empty queue leaves one. *)
Definition wakes m m' : Prop :=
  (m_wake m = true -> m_wake m' = true) /\ (eh_items (m_queue m) = [] -> eh_items (m_queue m') = [] \/ m_wake m' = true).

Lemma live_None_contents m k : good m -> contents m k = None -> m_entries m !! k = None.
Proof.
  intros Hm. unfold contents. destruct (m_entries m !! k) as [p|] eqn:Hk; [|done].
  destruct (g_keys m Hm k p Hk) as (v & t & Hp). by rewrite Hp.
Qed.

Lemma items_nil m : good m -> (forall k, contents m k = None) -> eh_items (m_queue m) = [].
Proof.
  intros Hm Hn. destruct (eh_items (m_queue m)) as [|p l] eqn:Hp; [done|].
  destruct (items_contents m p Hm) as (k & v & _ & _ & Hc); [rewrite Hp; by left|]. by rewrite Hn in Hc.
Qed.

Lemma nil_contents m k : good m -> eh_items (m_queue m) = [] -> contents m k = None.
Proof.
  intros Hm Hn. destruct (contents m k) as [[v t]|] eqn:Hc; [|done]. destruct (contents_items m k v t Hm Hc) as (p & Hp & _).
  rewrite Hn in Hp. by apply not_elem_of_nil in Hp.
Qed.

Lemma current_fades now k m : good m ->
  let '(item, m1) := current now k m in
  good m1 /\ same_rest m m1 /\ option_map (fun it : nat * entry K V => e_value it.2) item = live now (contents m k) /\ fades now m m1 none /\
  (eh_items (m_queue m) = [] -> eh_items (m_queue m1) = []) /\
  match item with Some (p, e) => lookup_entry m1 k = Some (p, e) | None => m_entries m1 !! k = None end.
Proof.
  intros Hm. pose proof (current_ok now k m Hm) as Hc. destruct (current now k m) as [item m1]. destruct Hc as (Hg & Hs & Hl & Hcs & Hi).
  assert (Hf : fades now m m1 none) by (intros k'; cbn; destruct (Hcs k') as [?|(-> & ? & ?)]; [by left|by right]).
  split_and!; [done|done|done|done| |done].
  intros Hn. apply items_nil; [done|]. intros k'. pose proof (nil_contents m k' Hm Hn) as Hk'. destruct (Hf k') as [->|[? _]]; done.
Qed.

Lemma storeIf_ok now k v allow m : good m -> m_closed m = false ->
  let '(b, m') := storeIf now k v allow m in
  good m' /\ m_lifetime m' = m_lifetime m /\ m_closed m' = false /\ wakes m m' /\
  b = match allow with Some f => f (live now (contents m k)) | None => true end /\
  fades now m m' (if b then only k (v, now + m_lifetime m) else none).
Proof.
  intros Hm Hcl. unfold storeIf, wakes. rewrite Hcl. pose proof (current_fades now k m Hm) as Hcur.
  destruct (current now k m) as [item m1]. destruct Hcur as (Hg & (Hl & Hw & Hc) & Hlive & Hf & Hnil & Hitem). rewrite Hlive.
  set (allowed := match allow with Some f => f (live now (contents m k)) | None => true end). destruct allowed; cbn [negb].
  2: { split_and!; [done|done|congruence|congruence| |done..]. intros Hn. left. by apply Hnil. }
  assert (Hfm : forall m', (forall k', contents m' k' = if decide (k' = k) then Some (v, now + m_lifetime m) else contents m1 k') ->
    fades now m m' (only k (v, now + m_lifetime m))).
  { intros m' Hm' k'. unfold only. rewrite Hm'. case_decide; [done|]. apply Hf. }
  destruct item as [[p e]|].
  - destruct (refresh_ok m1 k p e v (now + m_lifetime m) Hg Hitem) as [Hg' Hc']. split_and!; [done|done|cbn; congruence| | |done|by apply Hfm].
    + cbn. congruence.
    + intros Hn. exfalso. destruct (lookup_entry_Some m1 k p e Hg Hitem) as (_ & _ & _ & (i & Hi & _) & _). rewrite (Hnil Hn) in Hi. done.
  - destruct (insert_ok m1 k v (now + m_lifetime m) (Z.max (m_mapPeak m1) (Z.of_nat (size (<[k := m_next m1]> (m_entries m1)))))
      (m_wake m1) (m_closed m1) Hg Hitem) as [Hg' Hc'].
    set (m2 := mkMap _ _ _ _ _ _ _) in *.
    assert (Hn2 : good (notify m2) /\ forall k', contents (notify m2) k' = contents m2 k') by (split; [by destruct Hg'; split|done]).
    destruct (Nat.eqb_spec (length (eh_items (m_queue m1))) 0) as [H0|H0].
    + split_and!; [apply Hn2|done|cbn; congruence|done|by right|done|apply Hfm]. intros k'. rewrite (proj2 Hn2). apply Hc'.
    + split_and!; [done|done|cbn; congruence|cbn; congruence| |done|by apply Hfm]. intros Hn. rewrite (Hnil Hn) in H0. done.
Qed.

Lemma LoadAndRefresh_ok now k m : good m -> m_closed m = false ->
  let '(o, m') := LoadAndRefresh now k m in
  good m' /\ m_lifetime m' = m_lifetime m /\ m_closed m' = false /\ wakes m m' /\ o = live now (contents m k) /\
  fades now m m' (match o with Some v => only k (v, now + m_lifetime m) | None => none end).
Proof.
  intros Hm Hcl. unfold LoadAndRefresh, wakes. rewrite Hcl. pose proof (current_fades now k m Hm) as Hcur.
  destruct (current now k m) as [item m1]. destruct Hcur as (Hg & (Hl & Hw & Hc) & Hlive & Hf & Hnil & Hitem).
  destruct item as [[p e]|]; cbn [option_map] in Hlive.
  - destruct (refresh_ok m1 k p e (e_value e) (now + m_lifetime m) Hg Hitem) as [Hg' Hc']. split_and!; [done|done|cbn; congruence| | | |].
    + cbn. congruence.
    + intros Hn. exfalso. destruct (lookup_entry_Some m1 k p e Hg Hitem) as (_ & _ & _ & (i & Hi & _) & _). rewrite (Hnil Hn) in Hi. done.
    + done.
    + intros k'. unfold only. rewrite Hc'. case_decide; [done|]. apply Hf.
  - split_and!; [done|done|congruence|congruence| |done|done]. intros Hn. left. by apply Hnil.
Qed.

Lemma Load_ok now k m : good m -> m_closed m = false ->
  let '(o, m') := Load now k m in
  good m' /\ m_lifetime m' = m_lifetime m /\ m_closed m' = false /\ wakes m m' /\ o = live now (contents m k) /\ fades now m m' none.
Proof.
  intros Hm Hcl. unfold Load, wakes. rewrite Hcl. pose proof (current_fades now k m Hm) as Hcur.
  destruct (current now k m) as [item m1]. destruct Hcur as (Hg & (Hl & Hw & Hc) & Hlive & Hf & Hnil & _).
  split_and!; [done|done|congruence|congruence| |done|done]. intros Hn. left. by apply Hnil.
Qed.

Lemma run_check_map now m : m_closed m = false -> (run_check now m).1 = removeExpired now m.
Proof. intros Hcl. unfold run_check. rewrite Hcl. by destruct (eh_items _). Qed.

Lemma removeExpired_fades now m : good m -> fades now m (removeExpired now m) none.
Proof.
  intros Hm k. destruct (removeExpired_ok now m Hm) as (_ & _ & Hc). cbn. rewrite Hc.
  destruct (contents m k) as [[v t]|]; cbn; [|by left]. destruct (Z.ltb_spec now t); [by left|right]. split; [done|by exists v, t].
Qed.

(** ** Refinement *)

(** What differs from the specification has expired. *)
Definition refines now m (s : Spec) : Prop :=
  m_closed m = sp_closed s /\ m_lifetime m = sp_lifetime s /\
  (m_closed m = false -> good m /\ forall k, contents m k = sp_values s !! k \/
     contents m k = None /\ exists v t, sp_values s !! k = Some (v, t) /\ t <= now).

Lemma refines_live now now' m s k : refines now m s -> now <= now' -> m_closed m = false ->
  live now' (contents m k) = live now' (sp_values s !! k).
Proof.
  intros (_ & _ & Hr) Hn Hcl. destruct (Hr Hcl) as [_ Hc]. destruct (Hc k) as [->|(-> & v & t & -> & Ht)]; [done|].
  cbn. by rewrite (proj2 (Z.ltb_ge _ _)) by lia.
Qed.

Lemma refines_step now now' m s m' s' changed : refines now m s -> now <= now' -> m_closed m = false ->
  good m' -> m_closed m' = false -> m_lifetime m' = m_lifetime m -> fades now' m m' changed ->
  sp_closed s' = sp_closed s -> sp_lifetime s' = sp_lifetime s ->
  (forall k, sp_values s' !! k = match changed k with Some x => Some x | None => sp_values s !! k end) -> refines now' m' s'.
Proof.
  intros (Hcl & Hl & Hr) Hn Hopen Hg Hcl' Hl' Hf Hsc Hsl Hsv. destruct (Hr Hopen) as [Hm Hc].
  split_and!; [congruence|congruence|]. intros _. split; [done|]. intros k. rewrite Hsv. specialize (Hf k). destruct (changed k); [by left|].
  destruct (Hc k) as [He|(He & v & t & Hs & Ht)], Hf as [Hf|(Hf & v' & t' & Hf' & Ht')].
  - left. congruence.
  - right. split; [done|]. exists v', t'. split; [congruence|done].
  - right. split; [congruence|]. exists v, t. split; [done|lia].
  - congruence.
Qed.

Lemma refines_closed now m m' s : m_closed m = true -> m_closed m' = true -> m_lifetime m' = m_lifetime m ->
  sp_closed s = true -> m_lifetime m = sp_lifetime s -> refines now m' s.
Proof. intros. split_and!; [congruence|congruence|congruence]. Qed.

Lemma map_op_refines now now' op m s : refines now m s -> now <= now' ->
  (map_op now' op m).1 = (spec_op now' op s).1 /\ refines now' (map_op now' op m).2 (spec_op now' op s).2.
Proof.
  intros HR Hn. pose proof HR as (Hcl & Hl & Hr). destruct (m_closed m) eqn:Hopen.
  - destruct op as [k v allow|k|k| |]; cbn [map_op spec_op]; unfold storeIf, Load, LoadAndRefresh, run_check, Close, spec_get;
      rewrite ?Hopen, <- ?Hcl; cbn; (split; [done|]); by apply (refines_closed now' m).
  - destruct (Hr eq_refl) as [Hm Hc]. assert (Hlive : forall k, live now' (contents m k) = spec_get now' k s).
    { intros k. unfold spec_get. rewrite <- Hcl. by eapply refines_live. }
    destruct op as [k v allow|k|k| |]; cbn [map_op spec_op].
    + pose proof (storeIf_ok now' k v allow m Hm Hopen) as Ho. destruct (storeIf now' k v allow m) as [b m'].
      destruct Ho as (Hg & Hl' & Hcl' & _ & Hb & Hf). rewrite <- Hcl, <- Hlive. cbn [orb]. rewrite <- Hb. destruct b; cbn [negb fst snd].
      * split; [done|]. eapply (refines_step now now' m s); try done. intros k'. cbn. unfold only. rewrite <- Hl.
        case_decide; [subst; by rewrite lookup_insert_eq|by rewrite lookup_insert_ne].
      * split; [done|]. eapply (refines_step now now' m s); try done.
    + pose proof (Load_ok now' k m Hm Hopen) as Ho. destruct (Load now' k m) as [o m']. destruct Ho as (Hg & Hl' & Hcl' & _ & -> & Hf).
      cbn [fst snd]. rewrite Hlive. split; [done|]. by eapply (refines_step now now' m s).
    + pose proof (LoadAndRefresh_ok now' k m Hm Hopen) as Ho. destruct (LoadAndRefresh now' k m) as [o m'].
      destruct Ho as (Hg & Hl' & Hcl' & _ & -> & Hf). cbn [fst snd]. rewrite Hlive in *. split; [done|].
      destruct (spec_get now' k s) as [v|]; eapply (refines_step now now' m s); try done. intros k'. cbn. unfold only. rewrite <- Hl.
      case_decide; [subst; by rewrite lookup_insert_eq|by rewrite lookup_insert_ne].
    + cbn. split; [done|]. unfold Close. rewrite Hopen. cbn. split_and!; [done|done|done].
    + cbn [fst snd]. rewrite run_check_map by done. split; [done|]. destruct (removeExpired_ok now' m Hm) as (Hg & (Hl' & _ & Hcl') & _).
      apply (refines_step now now' m s _ s none); first [done | congruence | by apply removeExpired_fades].
Qed.

Lemma run_refines clock ops m s : refines clock m s -> clocked clock ops -> run_ops map_op ops m = run_ops spec_op ops s.
Proof.
  revert clock m s. induction ops as [|[now op] ops IH]; intros clock m s HR Hc; [done|].
  cbn in *. destruct Hc as [Hn Hc]. destruct (map_op_refines clock now op m s HR Hn) as [He HR'].
  destruct (map_op now op m) as [r m'], (spec_op now op s) as [r' s']. cbn in *. subst. f_equal. by eapply IH.
Qed.

Lemma New_refines clock lifetime m : New lifetime = Ok m -> refines clock m (mkSpec ∅ lifetime false).
Proof.
  unfold New. destruct (lifetime <=? 0); [done|]. intros [= <-]. split_and!; [done|done|]. intros _. split; [|by left].
  split; cbn.
  - split; cbn; [constructor|done|]. intros c Hc. lia.
  - intros p. split; [by intros Hp%not_elem_of_nil|by intros [k Hk]].
  - done.
  - by intros p Hp%not_elem_of_nil.
Qed.
End spec.

(** * The goroutine of an expiring map

    [run] of [src/common/expiringmap/map.go] and the operations of other goroutines as
    steps of one system.  The worker waits for the first value to expire or, with an empty
    queue, for a token in the wake channel.  An operation reads the clock before it takes
    the lock: its time may be one that has passed, by [delay] at most, and then the worker
    may sleep past the time of a value by as much. *)

Section run.
Context {K V : Type} `{Countable K}.
Context (delay : Z).
Implicit Types (m : Map K V) (now : Z).

(** [sy_pending]: operations that have released the lock and have not called [notify] yet. *)
Record system : Type := mkSystem { sy_map : Map K V; sy_worker : Worker; sy_pending : nat; sy_clock : Z }.

Definition with_wake (b : bool) m : Map K V :=
  mkMap (m_entries m) (m_mapPeak m) (m_queue m) (m_lifetime m) b (m_closed m) (m_next m).

(** The part of an operation under the lock, and whether it calls [notify] after it. *)
Definition op_locked now (op : Op) m : Map K V * bool :=
  let m' := (map_op now op (take_wake m)).2 in (with_wake (m_wake m) m', m_wake m').

(** A step of the goroutine, or of one that has still to notify it. *)
Inductive work : system -> system -> Prop :=
| work_check m n clock :
    work (mkSystem m Checking n clock) (mkSystem (run_check clock m).1 (run_check clock m).2 n clock)
| work_wake m w n clock :
    (w = WaitWake \/ exists d, w = WaitTimer d) -> m_wake m = true ->
    work (mkSystem m w n clock) (mkSystem (take_wake m) Checking n clock)
| work_timer m d n clock :
    d <= clock -> work (mkSystem m (WaitTimer d) n clock) (mkSystem m Checking n clock)
| work_notify m w n clock :
    work (mkSystem m w (S n) clock) (mkSystem (notify m) w n clock).

Inductive step : system -> system -> Prop :=
| step_work y y' : work y y' -> step y y'
| step_tick m w n clock now : clock <= now -> step (mkSystem m w n clock) (mkSystem m w n now)
| step_op m w n clock now op :
    op <> OpExpire -> now <= clock <= now + delay ->
    step (mkSystem m w n clock) (mkSystem (op_locked now op m).1 w (n + Nat.b2n (op_locked now op m).2) clock).

Definition reachable (lifetime : Z) (y : system) : Prop :=
  exists m0 clock0, New lifetime = Ok m0 /\ rtc step (mkSystem m0 Checking 0 clock0) y.

(** Nothing is left to do: no value has expired for [delay] or longer, or the map is closed
    and the goroutine has returned. *)
Definition settled (y : system) : Prop :=
  if m_closed (sy_map y) then sy_worker y = Done
  else forall k v t, contents (sy_map y) k = Some (v, t) -> sy_clock y < t + delay.

(** How long the goroutine can work before it waits again. *)
Definition worker_weight (clock : Z) (w : Worker) : nat :=
  match w with
  | Checking => 1
  | WaitTimer d => if d <=? clock then 2 else 0
  | WaitWake | Done => 0
  end.

Definition work_left (y : system) : nat :=
  3 * sy_pending y + 2 * Nat.b2n (m_wake (sy_map y)) + worker_weight (sy_clock y) (sy_worker y).

(** ** The invariant *)

Definition notified (y : system) : Prop := m_wake (sy_map y) = true \/ (0 < sy_pending y)%nat.

Definition attentive (y : system) : Prop :=
  let m := sy_map y in
  match sy_worker y with
  | Checking => True
  | WaitWake => notified y \/ m_closed m = false /\ eh_items (m_queue m) = []
  | WaitTimer d =>
      notified y \/
      m_closed m = false /\ (forall k v t, contents m k = Some (v, t) -> d <= t + delay) /\ d <= sy_clock y + m_lifetime m
  | Done => m_closed m = true
  end.

Definition bounded m (bound : Z) : Prop := forall k v t, contents m k = Some (v, t) -> t <= bound.

Definition invariant (y : system) : Prop :=
  (m_closed (sy_map y) = false -> good (sy_map y) /\ bounded (sy_map y) (sy_clock y + m_lifetime (sy_map y))) /\ attentive y.

Hypothesis delay_nonneg : 0 <= delay.

(** What an operation on an open map can do. *)
Lemma op_effect now op m : good m -> m_closed m = false -> op <> OpClose -> op <> OpExpire ->
  let m' := (map_op now op m).2 in
  good m' /\ m_lifetime m' = m_lifetime m /\ m_closed m' = false /\ wakes m m' /\
  forall k v t, contents m' k = Some (v, t) -> contents m k = Some (v, t) \/ t = now + m_lifetime m.
Proof.
  intros Hm Hcl Hc He. assert (Hfade : forall m' changed, fades now m m' changed ->
    (forall k x, changed k = Some x -> x.2 = now + m_lifetime m) -> forall k v t, contents m' k = Some (v, t) -> contents m k = Some (v, t) \/ t = now + m_lifetime m).
  { intros m' changed Hf Hch k v t Hk. specialize (Hf k). specialize (Hch k). destruct (changed k) as [x|].
    - right. rewrite Hf in Hk. simplify_eq. by rewrite <- (Hch (v, t)).
    - left. destruct Hf as [Hf|[Hf _]]; congruence. }
  destruct op as [k v allow|k|k| |]; cbn [map_op]; [| | |done|done].
  - pose proof (storeIf_ok now k v allow m Hm Hcl) as Ho. destruct (storeIf now k v allow m) as [b m']. destruct Ho as (? & ? & ? & ? & _ & Hf).
    cbn. split_and!; [done..|]. eapply Hfade; [done|]. destruct b; [|done]. intros k' x. unfold only. case_decide; [by intros [= <-]|done].
  - pose proof (Load_ok now k m Hm Hcl) as Ho. destruct (Load now k m) as [o m']. destruct Ho as (? & ? & ? & ? & _ & Hf).
    cbn. split_and!; [done..|]. by eapply Hfade.
  - pose proof (LoadAndRefresh_ok now k m Hm Hcl) as Ho. destruct (LoadAndRefresh now k m) as [o m']. destruct Ho as (? & ? & ? & ? & _ & Hf).
    cbn. split_and!; [done..|]. eapply Hfade; [done|]. destruct o; [|done]. intros k' x. unfold only. case_decide; [by intros [= <-]|done].
Qed.

Lemma closed_op now op m : m_closed m = true -> op <> OpClose -> op <> OpExpire -> (map_op now op m).2 = m.
Proof. intros Hcl. destruct op; cbn; unfold storeIf, Load, LoadAndRefresh; rewrite ?Hcl; done. Qed.

Lemma op_locked_open now op m : good m -> m_closed m = false -> op <> OpClose -> op <> OpExpire ->
  let '(m', notifies) := op_locked now op m in
  good m' /\ m_lifetime m' = m_lifetime m /\ m_closed m' = false /\ m_wake m' = m_wake m /\
  (eh_items (m_queue m) = [] -> eh_items (m_queue m') = [] \/ notifies = true) /\
  forall k v t, contents m' k = Some (v, t) -> contents m k = Some (v, t) \/ t = now + m_lifetime m.
Proof.
  intros Hm Hcl Hc He. assert (Hm0 : good (take_wake m)) by (by destruct Hm).
  destruct (op_effect now op (take_wake m) Hm0 Hcl Hc He) as (Hg & Hl & Hcl' & [_ Hnil] & Hcs).
  unfold op_locked. split_and!; [by destruct Hg|done..].
Qed.

Lemma op_locked_closed now op m : m_closed m = true -> op <> OpExpire ->
  m_closed (op_locked now op m).1 = true /\ m_wake (op_locked now op m).1 = m_wake m.
Proof.
  intros Hcl He. assert (op = OpClose \/ op <> OpClose) as [->|Hc] by (destruct op; auto); unfold op_locked.
  - cbn. unfold Close. cbn [m_closed take_wake]. by rewrite Hcl.
  - rewrite closed_op by done. done.
Qed.

Lemma invariant_op m w n clock now op : op <> OpExpire -> now <= clock <= now + delay -> invariant (mkSystem m w n clock) ->
  invariant (mkSystem (op_locked now op m).1 w (n + Nat.b2n (op_locked now op m).2) clock).
Proof.
  intros He Hnow [Hg Ha]. unfold invariant, attentive, notified in *. cbn in Hg, Ha. cbn [sy_map sy_worker sy_pending sy_clock].
  destruct (m_closed m) eqn:Hcl.
  { destruct (op_locked_closed now op m Hcl He) as [-> ->]. split; [done|]. destruct w; [done| | |done];
      (destruct Ha as [[?|?]|[? _]]; [by left; left|left; right; lia|done]). }
  destruct (Hg eq_refl) as [Hm Hb].
  assert (op = OpClose \/ op <> OpClose) as [->|Hc] by (destruct op; auto).
  { unfold op_locked, map_op, Close. cbn [m_closed take_wake]. rewrite Hcl. cbn. split; [done|]. destruct w; [done|left; right; lia..|done]. }
  pose proof (op_locked_open now op m Hm Hcl Hc He) as Ho. destruct (op_locked now op m) as [m' b]. cbn [fst snd].
  destruct Ho as (Hg' & Hl & Hcl' & Hw & Hnil & Hcs). rewrite Hl, Hw. split.
  { intros _. split; [done|]. intros k v t Hk. destruct (Hcs k v t Hk) as [Hk'| ->]; [by eapply Hb|lia]. }
  destruct w as [| |d|]; [done| | |done].
  - destruct Ha as [[?|?]|[_ Ha]]; [by left; left|left; right; lia|]. destruct (Hnil Ha) as [?| ->]; [by right|left; right; cbn; lia].
  - destruct Ha as [[?|?]|(_ & Hd & Hdl)]; [by left; left|left; right; lia|]. right. split_and!; [done| |done].
    intros k v t Hk. destruct (Hcs k v t Hk) as [Hk'| ->]; [by eapply Hd|lia].
Qed.

(** A check leaves no expired value and a worker that waits for the right time. *)
Lemma run_check_open now m : good m -> m_closed m = false ->
  let '(m', w) := run_check now m in
  good m' /\ same_rest m m' /\ (forall k, contents m' k = unexpired now (contents m k)) /\
  match w with
  | WaitWake => eh_items (m_queue m') = []
  | WaitTimer d => now < d /\ (forall k v t, contents m' k = Some (v, t) -> d <= t) /\ exists k v, contents m' k = Some (v, d)
  | Checking | Done => False
  end.
Proof.
  intros Hm Hcl. destruct (removeExpired_ok now m Hm) as (Hg & Hs & Hc). unfold run_check. rewrite Hcl.
  destruct (eh_items (m_queue (removeExpired now m))) as [|root l] eqn:Hr; [done|]. split_and!; [done|done|done| | |].
  - destruct (items_contents (removeExpired now m) root Hg) as (k & v & _ & _ & Hk); [rewrite Hr; by left|].
    rewrite Hc in Hk. destruct (contents m k) as [[v' t']|]; [|done]. cbn in Hk. destruct (Z.ltb_spec now t'); by simplify_eq.
  - intros k v t Hk. by eapply root_first.
  - destruct (items_contents (removeExpired now m) root Hg) as (k & v & _ & _ & Hk); [rewrite Hr; by left|]. by exists k, v.
Qed.

Lemma unexpired_Some now (c : option (V * Z)) v t : unexpired now c = Some (v, t) -> c = Some (v, t) /\ now < t.
Proof. destruct c as [[v' t']|]; [|done]. cbn. destruct (Z.ltb_spec now t'); [|done]. by intros [= -> ->]. Qed.

Lemma invariant_check m n clock : invariant (mkSystem m Checking n clock) ->
  invariant (mkSystem (run_check clock m).1 (run_check clock m).2 n clock).
Proof.
  intros [Hg _]. cbn in Hg. destruct (m_closed m) eqn:Hcl.
  { unfold run_check, invariant, attentive. rewrite Hcl. cbn. split; [congruence|done]. }
  destruct (Hg eq_refl) as [Hm Hb]. pose proof (run_check_open clock m Hm Hcl) as Ho.
  destruct (run_check clock m) as [m' w]. destruct Ho as (Hg' & (Hl & Hw & Hcl') & Hc & Hwait).
  assert (Hb' : bounded m' (clock + m_lifetime m)).
  { intros k v t. rewrite Hc. intros [Hk _]%unexpired_Some. by eapply Hb. }
  unfold invariant, attentive. cbn. rewrite Hl. split; [done|]. destruct w as [| |d|]; [done| | |done]; right.
  - split; [congruence|done].
  - destruct Hwait as (_ & Hd & k & v & Hk). split_and!; [congruence| |by eapply Hb'].
    intros k' v' t' Hk'. specialize (Hd k' v' t' Hk'). lia.
Qed.

Lemma invariant_work y y' : work y y' -> invariant y -> invariant y'.
Proof.
  intros [m n clock|m w n clock Hw Hk|m d n clock Hd|m w n clock] Hi.
  - by apply invariant_check.
  - destruct Hi as [Hg _]. split; [|done]. cbn in *. intros Hcl. destruct (Hg Hcl) as [Hm Hb]. split; [by destruct Hm|done].
  - by destruct Hi as [Hg _].
  - destruct Hi as [Hg Ha]. split.
    + cbn in *. intros Hcl. destruct (Hg Hcl) as [Hm Hb]. split; [by destruct Hm|done].
    + unfold attentive, notified in *. cbn in *. destruct w; [done|by left; left..|done].
Qed.

Lemma invariant_step y y' : step y y' -> invariant y -> invariant y'.
Proof.
  intros [? ? Hw|m w n clock now Hn|m w n clock now op He Hnow] Hi.
  - by eapply invariant_work.
  - destruct Hi as [Hg Ha]. split.
    + cbn in *. intros Hcl. destruct (Hg Hcl) as [Hm Hb]. split; [done|]. intros k v t Hk. specialize (Hb k v t Hk). lia.
    + unfold attentive, notified in *. cbn in *. destruct w as [| |d|]; try done.
      destruct Ha as [?|(? & ? & ?)]; [by left|right]. split_and!; [done..|lia].
  - by apply invariant_op.
Qed.

Lemma rtc_invariant (R : system -> system -> Prop) (P : system -> Prop) y y' :
  (forall a b, R a b -> P a -> P b) -> rtc R y y' -> P y -> P y'.
Proof. intros Hstep. induction 1; eauto. Qed.

Lemma reachable_invariant lifetime y : reachable lifetime y -> invariant y.
Proof.
  intros (m0 & clock0 & Hnew & Hsteps). eapply rtc_invariant; [apply invariant_step|done|].
  destruct (New_refines clock0 lifetime m0 Hnew) as (_ & _ & Hr). split; [|done]. cbn. intros Hcl. destruct (Hr Hcl) as [Hm Hc]. split; [done|].
  intros k v t Hk. destruct (Hc k) as [He|[He _]]; [rewrite Hk in He; cbn in He; by rewrite lookup_empty in He|congruence].
Qed.

(** ** The goroutine does its work *)

Lemma work_decreases y y' : invariant y -> work y y' -> (work_left y' < work_left y)%nat.
Proof.
  intros Hi Hw. destruct Hw as [m n clock|m w n clock _ Hk|m d n clock Hd|m w n clock]; unfold work_left; cbn [sy_map sy_worker sy_pending sy_clock].
  - destruct Hi as [Hg _]. cbn in Hg. destruct (m_closed m) eqn:Hcl; [unfold run_check; rewrite Hcl; cbn; lia|].
    destruct (Hg eq_refl) as [Hm _]. pose proof (run_check_open clock m Hm Hcl) as Ho. destruct (run_check clock m) as [m' w].
    cbn [fst snd]. destruct Ho as (_ & (_ & -> & _) & _ & Hwait). destruct w as [| |d|]; [done|cbn; lia| |done].
    cbn. destruct Hwait as (Hd & _). rewrite (proj2 (Z.leb_gt d clock)) by lia. lia.
  - rewrite Hk. cbn. lia.
  - cbn. rewrite (proj2 (Z.leb_le d clock)) by lia. lia.
  - cbn. destruct (m_wake m); cbn; lia.
Qed.

Lemma work_bounded n y y' : invariant y -> nsteps work n y y' -> (n + work_left y' <= work_left y)%nat.
Proof.
  intros Hi Hs. revert Hi. induction Hs as [|n y y1 y2 Hw Hs IH]; intros Hi; [lia|].
  pose proof (work_decreases y y1 Hi Hw). specialize (IH (invariant_work y y1 Hw Hi)). lia.
Qed.

(** What it does is removing expired values. *)
Definition collected (clock : Z) (c c' : option (V * Z)) : Prop := c' = c \/ c' = None /\ unexpired clock c = None.

Lemma work_contents y y' : invariant y -> work y y' ->
  sy_clock y' = sy_clock y /\ m_closed (sy_map y') = m_closed (sy_map y) /\
  (m_closed (sy_map y) = false -> forall k, collected (sy_clock y) (contents (sy_map y) k) (contents (sy_map y') k)).
Proof.
  intros Hi Hw. destruct Hw as [m n clock|m w n clock _ Hk|m d n clock Hd|m w n clock]; cbn [sy_map sy_worker sy_clock].
  2-4: split_and!; [done|done|]; intros _ k; by left.
  destruct Hi as [Hg _]. cbn in Hg. destruct (m_closed m) eqn:Hcl; [unfold run_check; by rewrite Hcl|].
  destruct (Hg eq_refl) as [Hm _]. pose proof (run_check_open clock m Hm Hcl) as Ho. destruct (run_check clock m) as [m' w].
  destruct Ho as (_ & (_ & _ & Hcl') & Hc & _). cbn [fst]. split_and!; [done|congruence|]. intros _ k. rewrite Hc. unfold collected.
  destruct (contents m k) as [[v t]|]; cbn; [|by left]. destruct (clock <? t); [by left|by right].
Qed.

Lemma work_closed y y' : invariant y -> rtc work y y' -> m_closed (sy_map y') = m_closed (sy_map y).
Proof.
  intros Hi Hs. revert Hi. induction Hs as [|y y1 y2 Hw Hs IH]; intros Hi; [done|].
  rewrite IH by (by eapply invariant_work). by apply work_contents.
Qed.

Lemma idle_settled y : invariant y -> (forall y', ~ work y y') -> settled y.
Proof.
  intros [Hg Ha] Hidle. destruct y as [m w n clock]. unfold settled, attentive, notified in *. cbn in *.
  destruct n as [|n]; [|exfalso; by eapply Hidle, work_notify].
  destruct w as [| |d|].
  - exfalso. by eapply Hidle, work_check.
  - destruct Ha as [[Hk|?]|[Hcl Hn]]; [exfalso; eapply Hidle, work_wake; [by left|done]|lia|].
    rewrite Hcl. intros k v t. rewrite (nil_contents m k); [done|by apply Hg|done].
  - destruct Ha as [[Hk|?]|(Hcl & Hd & _)]; [exfalso; eapply Hidle, work_wake; [by right; eexists|done]|lia|].
    rewrite Hcl. intros k v t Hk. specialize (Hd k v t Hk). destruct (Z.le_gt_cases d clock); [|lia]. exfalso. by eapply Hidle, work_timer.
  - by rewrite Ha.
Qed.

Lemma settles y y' : invariant y -> rtc work y y' -> (forall y'', ~ work y' y'') ->
  settled y' /\ sy_clock y' = sy_clock y /\
  (m_closed (sy_map y) = false ->
   m_closed (sy_map y') = false /\ forall k, collected (sy_clock y) (contents (sy_map y) k) (contents (sy_map y') k)).
Proof.
  intros Hi Hs Hidle.
  assert (Hall : invariant y' /\ sy_clock y' = sy_clock y /\ m_closed (sy_map y') = m_closed (sy_map y) /\
    (m_closed (sy_map y) = false -> forall k, collected (sy_clock y) (contents (sy_map y) k) (contents (sy_map y') k))).
  { clear Hidle. induction Hs as [|y y1 y2 Hw Hs IH]; [split_and!; [done..|]; intros _ k; by left|].
    destruct (IH (invariant_work y y1 Hw Hi)) as (Hi' & Hc & Hcl & Hv).
    destruct (work_contents y y1 Hi Hw) as (Hc1 & Hcl1 & Hv1). rewrite Hc1, Hcl1 in *. split_and!; [done|done|congruence|].
    intros Ho k. destruct (Hv Ho k) as [->|[-> Hu]]; [by apply Hv1|]. right. split; [done|].
    destruct (Hv1 Ho k) as [Heq|[_ Hn]]; [by rewrite <- Heq|done]. }
  destruct Hall as (Hi' & Hc & Hcl & Hv). split; [by apply idle_settled|]. split; [done|]. intros Ho. split; [congruence|auto].
Qed.
End run.
