(* ===== verification/QuicCache.v ===== *)
(** * The names of QUIC connections that the router remembers

    [processQUICSniff], [cacheQUICSniff], [lookupQUICSniff] and [refreshQUICSniff] of
    [src/route/router.go] over the expiring map, and [wrapQUICSniffIdleCache] of
    [src/route/route.go].  A QUIC connection whose client hello was not seen gets the name
    of the last one between the same addresses. *)

From stdpp Require Import base gmap strings list countable.
From Stdlib Require Import ZArith Lia.
From S2P Require Import Prelude Net Metadata RouteContext Route Heap ExpiringMap ExpiringOk ExpiringSpec.

Open Scope Z_scope.

#[export] Instance Socksaddr_eq_dec : EqDecision Socksaddr.
Proof. solve_decision. Defined.

#[export] Instance Socksaddr_countable : Countable Socksaddr.
Proof.
  apply (inj_countable' (fun s => (sa_Addr s, sa_Port s, sa_Fqdn s)) (fun t => mkSocksaddr t.1.1 t.1.2 t.2)). by intros [].
Defined.

Definition quicSniffCacheKey : Type := Socksaddr * Socksaddr.

(** Five minutes. *)
Definition quicSniffCacheTTL : Z := 5 * 60 * 1000000000.

Definition cacheQUICSniff (now : Z) (key : quicSniffCacheKey) (sniffHost : string) (m : Map quicSniffCacheKey string) : Map quicSniffCacheKey string :=
  (Store now key sniffHost m).2.

Definition lookupQUICSniff (now : Z) (key : quicSniffCacheKey) (m : Map quicSniffCacheKey string) : option string * Map quicSniffCacheKey string :=
  LoadAndRefresh now key m.

(** A newer name is kept. *)
Definition same_name (sniffHost : string) (current : option string) : bool :=
  match current with Some c => bool_decide (c = sniffHost) | None => true end.

Definition refreshQUICSniff (now : Z) (key : quicSniffCacheKey) (sniffHost : string) (m : Map quicSniffCacheKey string) : Map quicSniffCacheKey string :=
  (StoreIf now key sniffHost (same_name sniffHost) m).2.

(** The cache with the time that a call reads. *)
#[export] Instance expiring_cache : QUICSniffCache (Z * Map quicSniffCacheKey string) := {|
  quic_Store := fun key host q => (q.1, cacheQUICSniff q.1 key host q.2);
  quic_LoadAndRefresh := fun key q => let '(host, m) := lookupQUICSniff q.1 key q.2 in (host, (q.1, m))
|}.

Section cache.
Context `{RouteLibrary}.
Implicit Types (x : RouteContext) (m : Map quicSniffCacheKey string) (key : quicSniffCacheKey).

(** What is refreshed when a connection ends; [None] when its handler is not wrapped. *)
Definition wrapQUICSniffIdleCache x : option (quicSniffCacheKey * string) :=
  let host := cf_SniffHost (rx_conn x) in
  if negb (bool_decide (cf_Protocol (rx_conn x) = "quic"%string)) || empty_string host then None
  else
    let sniffed := sf_SniffDestination (rx_sniff x) in
    let destination :=
      if socks_IsValid sniffed then sniffed
      else if rx_DestOverride x && socks_IsValid (rx_OriginDestination x) then rx_OriginDestination x
      else Destination x in
    Some ((cf_Source (rx_conn x), destination), host).

(** What happens to the cache: a connection is sniffed, a connection ends, the goroutine
    of the map looks for expired names. *)
Inductive QuicEvent : Type :=
| Sniffed x
| ConnClosed x
| Collected.

Definition quic_event (now : Z) (ev : QuicEvent) m : Map quicSniffCacheKey string :=
  match ev with
  | Sniffed x => (processQUICSniff x (now, m)).2.2
  | ConnClosed x => match wrapQUICSniffIdleCache x with Some (key, host) => refreshQUICSniff now key host m | None => m end
  | Collected => (run_check now m).1
  end.

Fixpoint quic_run (history : list (Z * QuicEvent)) m : Map quicSniffCacheKey string :=
  match history with
  | [] => m
  | (now, ev) :: history => quic_run history (quic_event now ev m)
  end.

(** ** The name of one pair of addresses *)

Definition key_of x : quicSniffCacheKey := (cf_Source (rx_conn x), Destination x).

Definition is_quic x : bool := bool_decide (cf_Protocol (rx_conn x) = "quic"%string).

(** The name of [key] and until when it is remembered. *)
Definition remember key (now : Z) (ev : QuicEvent) (known : option (string * Z)) : option (string * Z) :=
  let set host := Some (host, now + quicSniffCacheTTL) in
  match ev with
  | Sniffed x =>
      if is_quic x && bool_decide (key_of x = key) then
        if negb (empty_string (cf_SniffHost (rx_conn x))) then set (cf_SniffHost (rx_conn x))
        else match live now known with Some host => set host | None => known end
      else known
  | ConnClosed x =>
      let host := cf_SniffHost (rx_conn x) in
      if is_quic x && negb (empty_string host) && bool_decide ((cf_Source (rx_conn x), sf_SniffDestination (rx_sniff x)) = key) &&
         same_name host (live now known)
      then set host else known
  | Collected => known
  end.

Fixpoint remembered key (history : list (Z * QuicEvent)) (known : option (string * Z)) : option (string * Z) :=
  match history with
  | [] => known
  | (now, ev) :: history => remembered key history (remember key now ev known)
  end.

(** A connection that was sniffed has the destination it had then. *)
Definition event_ok (ev : QuicEvent) : Prop :=
  match ev with ConnClosed x => socks_IsValid (sf_SniffDestination (rx_sniff x)) = true | _ => True end.

(** The clock does not run backwards. *)
Fixpoint in_time (clock : Z) (history : list (Z * QuicEvent)) : Prop :=
  match history with
  | [] => True
  | (now, ev) :: history => clock <= now /\ event_ok ev /\ in_time now history
  end.

(** ** The map keeps the name of every pair *)

Definition op_of (ev : QuicEvent) : option (Op (K := quicSniffCacheKey) (V := string)) :=
  match ev with
  | Sniffed x =>
      if negb (is_quic x) then None
      else if negb (empty_string (cf_SniffHost (rx_conn x))) then Some (OpStore (key_of x) (cf_SniffHost (rx_conn x)) None)
      else Some (OpLoadAndRefresh (key_of x))
  | ConnClosed x =>
      match wrapQUICSniffIdleCache x with Some (key, host) => Some (OpStore key host (Some (same_name host))) | None => None end
  | Collected => Some OpExpire
  end.

Lemma quic_event_op now ev m :
  quic_event now ev m = match op_of ev with Some op => (map_op now op m).2 | None => m end.
Proof.
  destruct ev as [x|x|]; cbn [quic_event op_of].
  - unfold processQUICSniff, is_quic. case_bool_decide; [|done]. cbn [negb]. destruct (empty_string _); cbn [negb].
    + cbn. unfold lookupQUICSniff. by destruct (LoadAndRefresh now _ m).
    + cbn. unfold cacheQUICSniff, Store. by destruct (storeIf now _ _ None m).
  - destruct (wrapQUICSniffIdleCache x) as [[key host]|]; [|done]. cbn. unfold refreshQUICSniff, StoreIf. by destruct (storeIf now _ _ _ m).
  - done.
Qed.

Lemma wrap_sniffed x : event_ok (ConnClosed x) ->
  wrapQUICSniffIdleCache x =
    if is_quic x && negb (empty_string (cf_SniffHost (rx_conn x)))
    then Some ((cf_Source (rx_conn x), sf_SniffDestination (rx_sniff x)), cf_SniffHost (rx_conn x)) else None.
Proof.
  intros Hok. cbn in Hok. unfold wrapQUICSniffIdleCache, is_quic. rewrite Hok.
  by destruct (bool_decide _), (empty_string _).
Qed.

Lemma remember_op key now ev s : event_ok ev -> sp_closed s = false -> sp_lifetime s = quicSniffCacheTTL ->
  let s' := match op_of ev with Some op => (spec_op now op s).2 | None => s end in
  sp_closed s' = false /\ sp_lifetime s' = quicSniffCacheTTL /\ sp_values s' !! key = remember key now ev (sp_values s !! key).
Proof.
  intros Hok Hcl Hl. assert (Hset : forall k v, sp_values (spec_set now k v s) !! key =
    if bool_decide (k = key) then Some (v, now + quicSniffCacheTTL) else sp_values s !! key).
  { intros k v. cbn. rewrite Hl. case_bool_decide as Hk; [subst; by rewrite lookup_insert_eq|by rewrite lookup_insert_ne]. }
  destruct ev as [x|x|]; cbn [op_of remember]; [| |done].
  - destruct (is_quic x); cbn [negb andb]; [|done]. destruct (empty_string _); cbn [negb spec_op].
    + unfold spec_get. rewrite Hcl. cbn [snd]. case_bool_decide as Hk.
      * rewrite Hk. destruct (live now _) as [v|]; [|done]. split_and!; [done|done|]. rewrite Hset. by rewrite bool_decide_eq_true_2.
      * destruct (live now _) as [v|]; [|done]. split_and!; [done|done|]. rewrite Hset. by rewrite bool_decide_eq_false_2.
    + rewrite Hcl. cbn [orb negb snd]. split_and!; [done|done|]. by rewrite Hset.
  - rewrite wrap_sniffed by done. destruct (is_quic x && _); cbn [andb]; [|done]. cbn [spec_op]. unfold spec_get. rewrite Hcl. cbn [orb].
    case_bool_decide as Hk; [rewrite Hk|]; cbn [andb].
    + destruct (same_name _ _); cbn [negb snd]; [|done]. split_and!; [done|done|]. rewrite Hset. by rewrite bool_decide_eq_true_2.
    + destruct (same_name _ _); cbn [negb snd]; [|done]. split_and!; [done|done|]. rewrite Hset. by rewrite bool_decide_eq_false_2.
Qed.

Definition keeps (clock : Z) m key (known : option (string * Z)) : Prop :=
  exists s, refines clock m s /\ sp_closed s = false /\ sp_lifetime s = quicSniffCacheTTL /\ sp_values s !! key = known.

Lemma keeps_event clock now ev m key known : event_ok ev -> keeps clock m key known -> clock <= now ->
  keeps now (quic_event now ev m) key (remember key now ev known).
Proof.
  intros Hok (s & HR & Hcl & Hl & Hk) Hn. destruct (remember_op key now ev s Hok Hcl Hl) as (Hcl' & Hl' & Hk'). rewrite Hk in Hk'.
  rewrite quic_event_op. destruct (op_of ev) as [op|].
  - destruct (map_op_refines clock now op m s HR Hn) as [_ HR']. by eexists.
  - exists s. split_and!; [|done..]. destruct HR as (? & ? & Hr). split_and!; [done..|]. intros Ho. destruct (Hr Ho) as [Hm Hc]. split; [done|].
    intros k. destruct (Hc k) as [?|(? & v & t & ? & ?)]; [by left|right]. split; [done|]. exists v, t. split; [done|lia].
Qed.

Lemma in_time_app_l clock history later : in_time clock (history ++ later) -> in_time clock history.
Proof. revert clock. induction history as [|[now ev] history IH]; intros clock; [done|]. cbn. intros (? & ? & ?). eauto. Qed.

Lemma keeps_run history clock m key known : keeps clock m key known -> in_time clock history ->
  exists now, keeps now (quic_run history m) key (remembered key history known) /\
    forall later, in_time clock (history ++ later) -> in_time now later.
Proof.
  revert clock m known. induction history as [|[now ev] history IH]; intros clock m known HK Hord; [by exists clock|].
  cbn in Hord. destruct Hord as (Hn & Hok & Hord). destruct (IH now _ _ (keeps_event clock now ev m key known Hok HK Hn) Hord) as (now' & HK' & Hl).
  exists now'. split; [done|]. intros later (_ & _ & Ho). by apply Hl.
Qed.

Lemma keeps_sniff clock now m x known : keeps clock m (key_of x) known -> clock <= now -> is_quic x = true ->
  cf_SniffHost (rx_conn x) = ""%string ->
  cf_SniffHost (rx_conn (processQUICSniff x (now, m)).1) = default ""%string (live now known).
Proof.
  intros (s & HR & Hcl & Hl & Hk) Hn Hq Hh. pose proof HR as (Hcl' & _ & Hr). rewrite Hcl in Hcl'. destruct (Hr Hcl') as [Hm _].
  pose proof (LoadAndRefresh_ok now (key_of x) m Hm Hcl') as Ho. pose proof (refines_live clock now m s (key_of x) HR Hn Hcl') as Hlive.
  unfold processQUICSniff. unfold is_quic in Hq. rewrite Hq, Hh. cbn. unfold lookupQUICSniff. change (cf_Source _, Destination x) with (key_of x).
  destruct (LoadAndRefresh now (key_of x) m) as [host m']. destruct Ho as (_ & _ & _ & _ & -> & _). rewrite Hlive, Hk.
  by destruct (live now known).
Qed.
End cache.
