(* ===== verification/QuicTheorems.v ===== *)
(** * Properties of QUIC sniffing

    What [QUICClientHello] and the parser behind it guarantee over the packets of a
    connection. *)

From stdpp Require Import base gmap strings list relations.
From Stdlib Require Import ZArith Lia.
From S2P Require Import Prelude Net Metadata Codec GoSlice Ja3 Ja3Wire RouteContext Quic QuicHello Sniff Route RouteSample.
From S2P Require Import Heap ExpiringMap ExpiringOk ExpiringSpec QuicCache.

Open Scope Z_scope.

(** ** Samples *)

#[export] Instance sample_crypto_laws : QUICCryptoLaws.
Proof.
  split.
  - intros secret info n Hn. exists (repeat 0 (Z.to_nat n)). unfold len. rewrite repeat_length. split_and!; [done|lia|].
    apply Forall_forall. intros b Hb. apply list_elem_of_In, repeat_spec in Hb as ->. done.
  - done.
  - intros key nonce ciphertext data _ _. cbn. case_match; [|done]. cbn.
    apply Forall_forall. intros b Hb. apply list_elem_of_fmap in Hb as (a & -> & _). by apply Z.mod_pos_bound.
Qed.

#[export] Instance sample_sniff_laws : SniffLaws.
Proof. split; [exact sample_crypto_laws|done]. Qed.

(** A client hello for a.example, in two parts. *)
Definition sample_hello : Hello :=
  mkHello 771 (repeat 0 32) [] [4865] [0] [ServerNameExt (bytes_of_string "a.example")].

Definition sample_parts : list qCryptoFragment :=
  [mkFragment 0 30 (take 30 (handshake sample_hello)); mkFragment 30 35 (drop 30 (handshake sample_hello))].

Definition crypto_frame (f : qCryptoFragment) : list Z := [frameTypeCrypto; qf_offset f; qf_length f] ++ qf_payload f.

(** An initial packet with these frames. *)
Definition sample_packet (frames : list Z) : list Z :=
  [192; 0; 0; 0; 1; 1; 9; 0; 0] ++ be_bytes 2 (16384 + 17 + len frames) ++ [0] ++ frames ++ repeat 0 16.

Definition sample_packets : list (list Z) := map (fun f => sample_packet (crypto_frame f)) sample_parts.

Definition sample_quic : RouteContext := sample_route "udp" (mkSocksaddr (Addr4 16909060) 443 "").

Lemma sample_hello_wf : hello_wf sample_hello.
Proof. split; try (vm_compute; done); repeat constructor; vm_compute; done. Qed.

Lemma sample_tiles : tiles 0 sample_parts (handshake sample_hello).
Proof.
  rewrite <- (take_drop 30 (handshake sample_hello)) at 1. rewrite <- (app_nil_r (drop 30 _)).
  constructor; [done..|]. constructor; [done..|]. constructor.
Qed.

Lemma sample_found : Forall2 found_in (rev sample_packets) (map (fun f => [f]) (rev sample_parts)).
Proof. repeat constructor; eexists _, _; (split; [vm_compute; reflexivity|vm_compute; reflexivity]). Qed.

Lemma sample_packets_bytes : Forall (Forall is_byte) (rev sample_packets).
Proof. vm_compute. repeat constructor; done. Qed.

(** ** Properties *)

(** C17. A QUIC client hello that is split into parts in any way, and whose parts come in
    any order in the packets of a connection, is put together: every packet before the
    last asks for more, and the last gives the server name the client wrote. *)
Theorem client_hello_sniffed `{SniffLibrary} `{!SniffLaws}
    (h : Hello) (T : list qCryptoFragment) (packets : list (list Z)) (packet : list Z)
    (Fs : list (list qCryptoFragment)) (F : list qCryptoFragment) (x : RouteContext) :
  hello_wf h -> tiles 0 T (handshake h) ->
  Forall2 found_in (packets ++ [packet]) (Fs ++ [F]) -> Forall (Forall is_byte) (packets ++ [packet]) ->
  positive (concat Fs ++ F) ≡ₚ T -> positive F <> [] -> context x = [] ->
  exists errs x',
    sniff_packets (packets ++ [packet]) x = (errs ++ [None], x') /\ Forall asks_more errs /\
    context x' = [] /\ cf_Protocol (rx_conn x') = "quic"%string /\ cf_SniffHost (rx_conn x') = ServerName (fingerprint h).
Proof.
  intros Hwf HT Hfound Hb HP HF Hx. apply Forall_app in Hb as [Hb Hbl]. apply Forall_cons in Hbl as [Hbl _].
  assert (Hlen : length packets = length Fs) by (apply Forall2_length in Hfound; rewrite !length_app in Hfound; cbn in Hfound; lia).
  apply Forall2_app_inv in Hfound as [Hfound Hlast]; [|done]. apply Forall2_cons in Hlast as [Hlast _].
  destruct (packets_incomplete h Hwf T HT packets Fs x (positive F)) as (Hm & Hw & Hc); [done|done|rewrite Hx; constructor| |done|].
  { rewrite Hx, <- HP. cbn [app]. by rewrite positive_app. }
  destruct (sniff_packets packets x) as [errs x1] eqn:Hs. cbn [fst snd] in *. rewrite Hx in Hc. cbn [app] in Hc.
  pose proof (packet_completes h Hwf T HT packet F x1 Hlast Hbl Hw) as Hdone.
  destruct (sniff_QUICClientHello packet x1) as [err x2] eqn:Hq. destruct Hdone as (-> & Hctx & Hpr & Hh).
  { rewrite <- HP, Hc, !positive_app. apply Permutation_app_comm. }
  { intros ->. done. }
  exists errs, x2. split_and!; [by eapply sniff_packets_snoc|done..].
Qed.

Lemma client_hello_sniffed_witness :
  exists errs x', sniff_packets (rev sample_packets) sample_quic = (errs ++ [None], x') /\
    Forall asks_more errs /\ cf_SniffHost (rx_conn x') = "a.example"%string.
Proof.
  destruct (client_hello_sniffed sample_hello sample_parts (take 1 (rev sample_packets)) (nth 1 (rev sample_packets) [])
    [drop 1 sample_parts] (take 1 sample_parts) sample_quic) as (errs & x' & Hs & Hm & _ & _ & Hh).
  - exact sample_hello_wf.
  - exact sample_tiles.
  - exact sample_found.
  - exact sample_packets_bytes.
  - apply (Permutation_app_comm (drop 1 sample_parts) (take 1 sample_parts)).
  - done.
  - done.
  - exists errs, x'. split; [exact Hs|]. split; [exact Hm|]. rewrite Hh. vm_compute. reflexivity.
Defined.

(** C18. Whatever the packets of a connection hold, sniffing them for QUIC does not
    panic: no slice of a packet, of a frame or of a client hello is out of range, every
    loop ends, and the client is only guessed from packets that have frames. *)
Theorem quic_never_panics `{SniffLibrary} `{!SniffLaws} (packets : list (list Z)) (x : RouteContext) :
  Forall (Forall is_byte) packets -> context x = [] ->
  Forall (fun err => sniff_panics err = false) (sniff_packets packets x).1.
Proof. intros Hp Hx. by apply packets_waiting, waiting_empty. Qed.

Lemma quic_never_panics_witness :
  Forall (fun err => sniff_panics err = false) (sniff_packets (rev sample_packets) sample_quic).1.
Proof. apply quic_never_panics; [exact sample_packets_bytes|reflexivity]. Defined.

(** A part of a client hello that came twice, as when a client repeats a packet that
    was not acknowledged, is counted twice in the length of the record but written once:
    whatever comes next, the server name is never found. *)
Theorem repeated_part_blocks `{SniffLibrary} `{!SniffLaws}
    (packets : list (list Z)) (Fs : list (list qCryptoFragment)) (x : RouteContext) :
  Forall (Forall is_byte) packets -> Forall2 found_in packets Fs -> Forall fragment_wf (context x) ->
  repeats (context x) -> sum_length (context x) + sum_length (concat Fs) < 65536 ->
  Forall asks_more (sniff_packets packets x).1.
Proof.
  intros Hb Hf. revert x Hb. induction Hf as [|packet F packets Fs Hp Hf IH]; intros x Hb Hx Hr Hs; [constructor|].
  apply Forall_cons in Hb as [Hb Hbs]. pose proof (found_wf packet F Hb Hp) as HF.
  assert (HFx : Forall fragment_wf (F ++ context x)) by (by apply Forall_app).
  assert (Hn : 0 <= sum_length (concat Fs)) by (by eapply sum_length_nonneg, found_all_wf).
  cbn [concat] in Hs. rewrite sum_length_app in Hs.
  destruct (sniff_incomplete packet x F Hp HFx) as [Hm Hc].
  { eexists. apply hello_repeated; [done|by apply repeats_app|]. rewrite sum_length_app. lia. }
  cbn [sniff_packets]. destruct (sniff_QUICClientHello packet x) as [err x1]. cbn [fst snd] in *.
  specialize (IH x1 Hbs). rewrite Hc in IH. destruct (sniff_packets packets x1) as [errs x2]. constructor; [done|].
  apply IH; [done|by apply repeats_app|]. rewrite sum_length_app. lia.
Qed.

(** The first packet twice, then the second one. *)
Lemma repeated_part_blocks_witness :
  let first := take 1 sample_parts ++ take 1 sample_parts in
  Forall asks_more (sniff_packets (take 1 (rev sample_packets)) (set_SniffContext first sample_quic)).1.
Proof.
  cbn zeta. apply (repeated_part_blocks _ [drop 1 sample_parts]).
  - apply Forall_take, sample_packets_bytes.
  - exact (Forall2_take _ _ _ 1 sample_found).
  - repeat constructor; vm_compute; done.
  - exists [], (mkFragment 0 30 (take 30 (handshake sample_hello))), [], (mkFragment 0 30 (take 30 (handshake sample_hello))), []. done.
  - vm_compute. reflexivity.
Defined.

(** * Properties of the expiring map and of the names it keeps *)

(** ** Samples *)

Definition sample_map : Map Z string := mkMap ∅ 0 (mkHeap [] ∅) 10 false false 0.

(** A value is stored at 3 by an operation that read the clock at 1, and its time came two
    ago when the goroutine has not looked yet. *)
Definition sample_system : system := mkSystem (op_locked 1 (OpStore 7 "a"%string None) sample_map).1 Checking 1 13.

Lemma sample_reachable : reachable 2 10 sample_system.
Proof.
  exists sample_map, 3. split; [done|]. eapply rtc_l; [|eapply rtc_once].
  - by apply (step_op 2 sample_map Checking 0 3 1 (OpStore 7 "a"%string None)).
  - by apply step_tick.
Qed.

Definition minutes (n : Z) : Z := n * 60 * 1000000000.

Definition sample_flow : RouteContext :=
  map_conn (conn_Protocol "quic"%string) (sample_route "udp" (mkSocksaddr (Addr4 16909060) 443 "")).

Definition named_flow : RouteContext := map_conn (conn_SniffHost "a.example"%string) sample_flow.

(** The same flow at its end, with another destination. *)
Definition ended_flow : RouteContext :=
  set_Destination (mkSocksaddr (Addr4 84281096) 443 "") (set_SniffDestination (Destination named_flow) named_flow).

Definition sample_history : list (Z * QuicEvent) :=
  [(0, Sniffed named_flow); (minutes 6, Collected); (minutes 10, ConnClosed ended_flow)].

(** ** Properties *)

(** C19. An expiring map behaves like a map of values with the time they expire: whatever is stored, loaded, refreshed,
    rejected by a condition, expired in the background or closed, every operation returns what the map without a heap,
    without removal and without a goroutine returns. *)
Theorem expiring_map_refines {K V : Type} `{Countable K} (lifetime clock : Z) (m : Map K V) (ops : list (Z * Op)) :
  New lifetime = Ok m -> clocked clock ops ->
  run_ops map_op ops m = run_ops spec_op ops (mkSpec ∅ lifetime false).
Proof. intros Hnew Hc. eapply run_refines; [by apply New_refines|done]. Qed.

Lemma expiring_map_refines_witness :
  let ops := [(1, OpStore 7 "a"%string None); (3, OpStore 8 "b"%string None); (9, OpLoadAndRefresh 7);
              (13, OpStore 8 "c"%string (Some (same_name "c"%string))); (14, OpExpire); (18, OpLoad 7); (19, OpLoad 7); (20, OpLoad 8)] in
  run_ops map_op ops sample_map = run_ops spec_op ops (mkSpec ∅ 10 false).
Proof. apply (expiring_map_refines 10 1); [done|vm_compute; intuition discriminate]. Defined.

(** C20. Expired values do not stay: operations read the clock and then take the lock at most [delay] later, in any order.
    In every state that operations, the goroutine and the clock can reach, the goroutine and the notifications under way do
    a bounded number of steps, and when they have none left, every value whose time came [delay] or longer ago is gone, no
    value whose time is still to come was removed and none was added; or, if the map is closed, the goroutine has
    returned. With operations that take the lock in the instant they read the clock, exactly the expired values are gone. *)
Theorem expired_values_collected {K V : Type} `{Countable K} (delay lifetime : Z) (y : system (K := K) (V := V)) :
  0 <= delay -> reachable delay lifetime y ->
  (forall n y', nsteps work n y y' -> (n <= work_left y)%nat) /\
  (forall y', rtc work y y' -> (forall y'', ~ work y' y'') ->
     (m_closed (sy_map y) = true -> sy_worker y' = Done) /\
     (m_closed (sy_map y) = false ->
      (forall k v t, contents (sy_map y') k = Some (v, t) -> sy_clock y < t + delay) /\
      forall k, contents (sy_map y') k = contents (sy_map y) k \/
        contents (sy_map y') k = None /\ unexpired (sy_clock y) (contents (sy_map y) k) = None)).
Proof.
  intros Hd Hr%(reachable_invariant delay Hd). split.
  - intros n y' Hs. pose proof (work_bounded delay Hd n y y' Hr Hs). lia.
  - intros y' Hs Hidle. destruct (settles delay Hd y y' Hr Hs Hidle) as (Hset & Hc & Hv). unfold settled in Hset. split.
    + intros Hcl. assert (Hcl' : m_closed (sy_map y') = true) by (by rewrite (work_closed delay Hd y y')). by rewrite Hcl' in Hset.
    + intros Hcl. destruct (Hv Hcl) as [Hcl' Hk]. rewrite Hcl', Hc in Hset. done.
Qed.

Lemma expired_values_collected_witness :
  (forall n y', nsteps work n sample_system y' -> (n <= 4)%nat) /\
  (forall y', rtc work sample_system y' -> (forall y'', ~ work y' y'') -> contents (sy_map y') 7 = None).
Proof.
  destruct (expired_values_collected 2 10 sample_system ltac:(lia) sample_reachable) as [Hb Hs]. split; [exact Hb|].
  intros y' Hy Hidle. destruct (Hs y' Hy Hidle) as [_ Hc]. destruct (Hc eq_refl) as [Hgone Hkept].
  destruct (contents (sy_map y') 7) as [[v t]|] eqn:Hk; [|reflexivity]. exfalso.
  specialize (Hgone 7 v t Hk). destruct (Hkept 7) as [Hsame|[Hn _]]; [|congruence].
  rewrite Hk in Hsame. vm_compute in Hsame. injection Hsame as _ ->. vm_compute in Hgone. discriminate Hgone.
Defined.

(** The router restores the names of QUIC connections as it means to: after every history of sniffed and ended
    connections, a QUIC connection without a name gets the name last given to its source and destination if less than five
    minutes have passed since it was sniffed, restored, or since a connection with it ended, and none otherwise.  A
    connection that ends is known by the destination it was sniffed with, wherever it was sent. *)
Theorem quic_names_remembered `{RouteLibrary} (clock now : Z) (m : Map quicSniffCacheKey string) (history : list (Z * QuicEvent)) (x : RouteContext) :
  New quicSniffCacheTTL = Ok m -> in_time clock (history ++ [(now, Sniffed x)]) ->
  is_quic x = true -> cf_SniffHost (rx_conn x) = ""%string ->
  cf_SniffHost (rx_conn (processQUICSniff x (now, quic_run history m)).1) = default ""%string (live now (remembered (key_of x) history None)).
Proof.
  intros Hnew Hord Hq Hh. assert (HK : keeps clock m (key_of x) None).
  { exists (mkSpec ∅ quicSniffCacheTTL false). split_and!; [by apply New_refines|done|done|apply lookup_empty]. }
  destruct (keeps_run history clock m (key_of x) None HK (in_time_app_l _ _ _ Hord)) as (now' & HK' & Hl).
  destruct (Hl _ Hord) as [Hn _]. by eapply keeps_sniff.
Qed.

Lemma quic_names_remembered_witness :
  let cache := quic_run sample_history (mkMap ∅ 0 (mkHeap [] ∅) quicSniffCacheTTL false false 0) in
  cf_SniffHost (rx_conn (processQUICSniff sample_flow (minutes 14, cache)).1) = "a.example"%string /\
  cf_SniffHost (rx_conn (processQUICSniff sample_flow (minutes 15, cache)).1) = ""%string.
Proof.
  split.
  - rewrite (quic_names_remembered 0 (minutes 14)); [vm_compute; reflexivity|done|vm_compute; intuition congruence|done|done].
  - rewrite (quic_names_remembered 0 (minutes 15)); [vm_compute; reflexivity|done|vm_compute; intuition congruence|done|done].
Defined.
