(* ===== verification/Provider.v ===== *)
(** * Providers of outbounds

    [src/adapter/provider/update.go] and the node handling of
    [src/adapter/provider/adapter.go]: a provider turns the nodes of a subscription into
    outbounds and endpoints of the managers, replaces what has changed when the
    subscription is read again, and removes what is gone.  Outbounds and endpoints are
    handled alike; a pair holds what is kept for the two kinds, and [false] selects
    outbounds, [true] endpoints. *)

From stdpp Require Import base gmap strings list pretty.
From Stdlib Require Import ZArith Lia.
From S2P Require Import Prelude Lifecycle StartOrder Managers.

Definition sel {X : Type} (endpoint : bool) (p : X * X) : X := if endpoint then p.2 else p.1.

Definition upd {X : Type} (endpoint : bool) (f : X -> X) (p : X * X) : X * X :=
  if endpoint then (p.1, f p.2) else (f p.1, p.2).

(** ** Options *)

(** The options of a node: the detour when they are a [DialerOptionsWrapper], the members
    when they are those of a group, and everything else. *)
Record NodeOptions (P : Type) : Type := mkNodeOptions {
  op_Detour : option string;
  op_Outbounds : option (list string);
  op_rest : P
}.
Arguments mkNodeOptions {P}.
Arguments op_Detour {P}.
Arguments op_Outbounds {P}.
Arguments op_rest {P}.

(** [option.Outbound] and [option.Endpoint]. *)
Record NodeOption (P : Type) : Type := mkNodeOption {
  no_Type : string;
  no_Tag : string;
  no_Options : option (NodeOptions P)
}.
Arguments mkNodeOption {P}.
Arguments no_Type {P}.
Arguments no_Tag {P}.
Arguments no_Options {P}.

#[export] Instance NodeOptions_eq_dec {P : Type} `{EqDecision P} : EqDecision (NodeOptions P).
Proof. solve_decision. Defined.

#[export] Instance NodeOption_eq_dec {P : Type} `{EqDecision P} : EqDecision (NodeOption P).
Proof. solve_decision. Defined.

Definition zero_option {P : Type} : NodeOption P := mkNodeOption "" "" None.

Record updateNode (P : Type) : Type := mkUpdateNode { un_tag : string; un_endpoint : bool; un_option : NodeOption P }.
Arguments mkUpdateNode {P}.
Arguments un_tag {P}.
Arguments un_endpoint {P}.
Arguments un_option {P}.

Section options.
Context {P : Type}.
Implicit Types (o : NodeOption P) (nodes : gmap string (updateNode P)).

(** What a node needs to be there. *)
Definition dependencies o : list string :=
  match no_Options o with
  | None => []
  | Some opts =>
      (match op_Detour opts with Some detour => if empty_string detour then [] else [detour] | None => [] end) ++
      default [] (op_Outbounds opts)
  end.

(** ** Tags *)

Definition renamed (baseTag : string) (n : N) : string := baseTag +:+ " (" +:+ pretty n +:+ ")".

(** [for n := 2; seen[tag]; n++]: a free tag is among one more than there are seen. *)
Fixpoint free_tag (fuel : nat) (baseTag tag : string) (n : N) (seen : gset string) : string :=
  match fuel with
  | O => tag
  | S fuel' => if bool_decide (tag ∈ seen) then free_tag fuel' baseTag (renamed baseTag n) (n + 1)%N seen else tag
  end.

(** [unnamed] is what stands before the index of a node without a tag. *)
Fixpoint tags_loop (providerTag unnamed : string) (i : N) (opts : list (NodeOption P)) (seen : gset string) : list string :=
  match opts with
  | [] => []
  | opt :: rest =>
      let baseTag := providerTag +:+ (if empty_string (no_Tag opt) then unnamed +:+ pretty i else "/" +:+ no_Tag opt) in
      let tag := free_tag (S (size seen)) baseTag baseTag 2 seen in
      tag :: tags_loop providerTag unnamed (i + 1)%N rest ({[tag]} ∪ seen)
  end.

Definition resolveOutboundTags (providerTag : string) (newOpts : list (NodeOption P)) : list string :=
  tags_loop providerTag "/" 0 newOpts ∅.

Definition resolveEndpointTags (providerTag : string) (newOpts : list (NodeOption P)) : list string :=
  tags_loop providerTag "/endpoint-" 0 newOpts ∅.

(** ** Detours to nodes of the same provider *)

Definition tagMapping (providerTag : string) (opts : list (NodeOption P)) : gmap string string :=
  foldl (fun m o => if empty_string (no_Tag o) then m else <[no_Tag o := providerTag +:+ "/" +:+ no_Tag o]> m) ∅ opts.

Definition rewrite_detour (mapping : gmap string string) o : NodeOption P :=
  match no_Options o with
  | Some opts =>
      match op_Detour opts with
      | Some detour =>
          match mapping !! detour with
          | Some newDetour =>
              mkNodeOption (no_Type o) (no_Tag o) (Some (mkNodeOptions (Some newDetour) (op_Outbounds opts) (op_rest opts)))
          | None => o
          end
      | None => o
      end
  | None => o
  end.

Definition RewriteDetourForProvider (providerTag : string) (opts others : list (NodeOption P)) : list (NodeOption P) :=
  map (rewrite_detour (tagMapping providerTag (opts ++ others))) opts.

(** ** The order of an update *)

Definition add_nodes (endpoint : bool) (tags : list string) (opts : list (NodeOption P)) nodes : gmap string (updateNode P) :=
  foldl (fun m '(tag, o) => <[tag := mkUpdateNode tag endpoint o]> m) nodes (zip tags opts).

(** Endpoints are added one by one, unless their tag is taken. *)
Fixpoint add_endpoints (tags : list string) (opts : list (NodeOption P)) nodes : result (gmap string (updateNode P)) :=
  match tags, opts with
  | tag :: tags, o :: opts =>
      match nodes !! tag with
      | Some _ => Err (ENew ("duplicate provider node tag: " +:+ tag))
      | None => add_endpoints tags opts (<[tag := mkUpdateNode tag true o]> nodes)
      end
  | _, _ => Ok nodes
  end.

Record visits : Type := mkVisits { vs_visiting : gset string; vs_visited : gset string; vs_ordered : list (updateNode P) }.

Section order.
(** [found] is the lookup in the managers, [owned] says what the provider has applied. *)
Context (nodes : gmap string (updateNode P)) (found owned : string -> bool).

(** The loop over the dependencies of a node; [visit] is the recursive call. *)
Fixpoint visit_dependencies (visit : string -> visits -> result visits) (deps : list string) (s : visits) : result visits :=
  match deps with
  | [] => Ok s
  | dep :: rest =>
      match nodes !! dep with
      | Some _ => try s' <- visit dep s; visit_dependencies visit rest s'
      | None =>
          if negb (found dep) then Err (ENew ("provider dependency not found: " +:+ dep))
          else if owned dep then Err (ENew ("provider dependency removed: " +:+ dep))
          else visit_dependencies visit rest s
      end
  end.

Definition circular_dependency (tag : string) : error := ENew ("circular provider dependency: " +:+ tag).

(** Every recursive call is for a node that was not being visited: one more than the
    number of nodes is enough fuel. *)
Fixpoint visit (fuel : nat) (tag : string) (s : visits) : result visits :=
  match fuel with
  | O => Err (EPanic "out of fuel")
  | S fuel' =>
      if bool_decide (tag ∈ vs_visited s) then Ok s
      else if bool_decide (tag ∈ vs_visiting s) then Err (circular_dependency tag)
      else
        match nodes !! tag with
        | None => Err (EPanic "no such node")
        | Some node =>
            try s' <- visit_dependencies (visit fuel') (dependencies (un_option node))
                        (mkVisits ({[tag]} ∪ vs_visiting s) (vs_visited s) (vs_ordered s));
            Ok (mkVisits (vs_visiting s' ∖ {[tag]}) ({[tag]} ∪ vs_visited s') (vs_ordered s' ++ [node]))
        end
  end.

Fixpoint visit_all (tags : list string) (s : visits) : result visits :=
  match tags with
  | [] => Ok s
  | tag :: rest => try s' <- visit (S (size nodes)) tag s; visit_all rest s'
  end.
End order.
End options.
Arguments visits : clear implicits.

(** ** The adapter *)

(** The nodes that are in use in their order and by tag, and the options they were made
    from.  A nil node has an entry with [None]. *)
Record Adapter (P : Type) : Type := mkAdapter {
  ad_providerTag : string;
  ad_nodes : list Outbound * list Outbound;
  ad_byTag : gmap string (option Outbound) * gmap string (option Outbound);
  ad_applied : gmap string (NodeOption P) * gmap string (NodeOption P)
}.
Arguments mkAdapter {P}.
Arguments ad_providerTag {P}.
Arguments ad_nodes {P}.
Arguments ad_byTag {P}.
Arguments ad_applied {P}.

Definition NewAdapter {P : Type} (providerTag : string) : Adapter P := mkAdapter providerTag ([], []) (∅, ∅) (∅, ∅).

(** The managers, and the number of the node that is created next. *)
Record World (A : Type) : Type := mkWorld { wd_managers : managers (A := A); wd_next : Component }.
Arguments mkWorld {A}.
Arguments wd_managers {A}.
Arguments wd_next {A}.

Section adapter.
Context {A P : Type} `{EqDecision P}.
Context (component_Start : Component -> StartStage -> list A * result unit) (run : A -> option error).
Context (IsClosed IsCanceled : error -> bool) (Errors : list error -> option error) (Expand : option error -> list error).
(** The registries: a new node of the kind for a tag, or an error. *)
Context (registry : Component -> bool -> string -> NodeOption P -> result Outbound).
Context (cancelled : bool).
Implicit Types (a : Adapter P) (w : World A) (node : updateNode P).

Definition Outbounds a : list Outbound := (ad_nodes a).1 ++ (ad_nodes a).2.

Definition adapter_Outbound (tag : string) a : option (option Outbound) :=
  match (ad_byTag a).1 !! tag with Some detour => Some detour | None => (ad_byTag a).2 !! tag end.

Definition activeTags (endpoint : bool) a : gset string := list_to_set (tags (sel endpoint (ad_nodes a))).

(** [a.outbound.Outbound] and [a.endpoint.Get]. *)
Definition get_node (endpoint : bool) (tag : string) w : option Outbound :=
  if endpoint then EndpointManager_Get tag (wd_managers w).2 else OutboundManager_Outbound tag (wd_managers w).

Definition replace_node (node : updateNode P) w : list A * result unit * World A :=
  let created := registry (wd_next w) (un_endpoint node) (un_tag node) (un_option node) in
  let '(m, e) := wd_managers w in
  if un_endpoint node then
    let '(ran, r, e') := EndpointManager_Replace component_Start run IsClosed IsCanceled Errors Expand cancelled (un_tag node) created e in
    (ran, r, mkWorld (m, e') (S (wd_next w)))
  else
    let '(ran, r, m') := OutboundManager_Replace component_Start run IsClosed IsCanceled Errors Expand cancelled (un_tag node) created m in
    (ran, r, mkWorld (m', e) (S (wd_next w))).

Definition remove_node (endpoint : bool) (tag : string) w : list A * result unit * World A :=
  let '(m, e) := wd_managers w in
  if endpoint then
    let '(ran, r, e') := EndpointManager_Remove run IsClosed IsCanceled Errors Expand tag e in (ran, r, mkWorld (m, e') (wd_next w))
  else
    let '(ran, r, m') := OutboundManager_Remove run IsClosed IsCanceled Errors Expand tag m in (ran, r, mkWorld (m', e) (wd_next w)).

(** The variables of the loop over the ordered nodes. *)
Record Progress : Type := mkProgress {
  pg_world : World A;
  pg_ran : list A;
  pg_byTag : gmap string (option Outbound) * gmap string (option Outbound);
  pg_applied : gmap string (NodeOption P) * gmap string (NodeOption P);
  pg_err : option error
}.

Definition update_node (active : gset string * gset string) node (g : Progress) : Progress :=
  let tag := un_tag node in
  let b := un_endpoint node in
  let is_active := bool_decide (tag ∈ sel b active) in
  let current := get_node b tag (pg_world g) in
  let use (c : option Outbound) := upd b (<[tag := c]>) (pg_byTag g) in
  if isnone current || negb is_active || negb (bool_decide (un_option node = default zero_option (sel b (pg_applied g) !! tag)))
  then
    let '(ran, r, w') := replace_node node (pg_world g) in
    match r with
    | Err err =>
        mkProgress w' (pg_ran g ++ ran) (if is_active then use current else pg_byTag g) (pg_applied g)
          (Errors (Expand (pg_err g) ++ Expand (Some (ECause err tag))))
    | Ok _ =>
        mkProgress w' (pg_ran g ++ ran) (use (get_node b tag w')) (upd b (<[tag := un_option node]>) (pg_applied g)) (pg_err g)
    end
  else mkProgress (pg_world g) (pg_ran g) (use current) (pg_applied g) (pg_err g).

(** [removeUseless] and [removeUselessEndpoints]; errors are logged. *)
Fixpoint remove_useless (endpoint : bool) (newTags : gset string) (l : list Outbound) w : list A * World A :=
  match l with
  | [] => ([], w)
  | node :: rest =>
      if bool_decide (ob_Tag node ∈ newTags) then remove_useless endpoint newTags rest w
      else
        let '(ran, _, w') := remove_node endpoint (ob_Tag node) w in
        let '(ran', w'') := remove_useless endpoint newTags rest w' in (ran ++ ran', w'')
  end.

(** The nodes in use, in the order of the subscription. *)
Definition in_order (byTag : gmap string (option Outbound)) (newTags : list string) : list Outbound :=
  omap (fun tag => mjoin (byTag !! tag)) newTags.

Definition prune (byTag : gmap string (option Outbound)) (applied : gmap string (NodeOption P)) : gmap string (NodeOption P) :=
  filter (fun '(tag, _) => is_Some (byTag !! tag)) applied.

Definition order_nodes (outTags epTags : list string) (outOpts epOpts : list (NodeOption P)) a w : result (list (updateNode P)) :=
  try nodes <- add_endpoints epTags epOpts (add_nodes false outTags outOpts ∅);
  try s <- visit_all nodes (fun dep => nonnone (get_node false dep w))
             (fun dep => nonnone ((ad_applied a).1 !! dep) || nonnone ((ad_applied a).2 !! dep))
             (outTags ++ epTags) (mkVisits ∅ ∅ []);
  Ok (vs_ordered s).

Definition UpdateNodes (outOpts epOpts : list (NodeOption P)) a w : list A * result unit * Adapter P * World A :=
  let outTags := resolveOutboundTags (ad_providerTag a) outOpts in
  let epTags := resolveEndpointTags (ad_providerTag a) epOpts in
  match order_nodes outTags epTags outOpts epOpts a w with
  | Err err => ([], Err err, a, w)
  | Ok ordered =>
      let active := (activeTags false a, activeTags true a) in
      let g := foldl (fun g node => update_node active node g) (mkProgress w [] (∅, ∅) (ad_applied a) None) ordered in
      let '(ran1, w1) := remove_useless false (list_to_set outTags) (ad_nodes a).1 (pg_world g) in
      let '(ran2, w2) := remove_useless true (list_to_set epTags) (ad_nodes a).2 w1 in
      let nodes := (in_order (pg_byTag g).1 outTags, in_order (pg_byTag g).2 epTags) in
      let applied := (prune (pg_byTag g).1 (pg_applied g).1, prune (pg_byTag g).2 (pg_applied g).2) in
      (pg_ran g ++ ran1 ++ ran2, of_error (pg_err g), mkAdapter (ad_providerTag a) nodes (pg_byTag g) applied, w2)
  end.

Definition close_message (endpoint : bool) (tag : string) : string :=
  "close " +:+ (if endpoint then "endpoint" else "outbound") +:+ " [" +:+ tag +:+ "]".

Fixpoint close_nodes (endpoint : bool) (l : list Outbound) (err : option error) w : list A * option error * World A :=
  match l with
  | [] => ([], err, w)
  | node :: rest =>
      let '(ran, r, w') := remove_node endpoint (ob_Tag node) w in
      let err' := match r with
                  | Ok _ => err
                  | Err e => Errors (Expand err ++ Expand (Some (ECause e (close_message endpoint (ob_Tag node)))))
                  end in
      let '(ran', err'', w'') := close_nodes endpoint rest err' w' in (ran ++ ran', err'', w'')
  end.

Definition Adapter_Close a w : list A * result unit * Adapter P * World A :=
  let '(ran1, err1, w1) := close_nodes false (ad_nodes a).1 None w in
  let '(ran2, err2, w2) := close_nodes true (ad_nodes a).2 err1 w1 in
  (ran1 ++ ran2, of_error err2, mkAdapter (ad_providerTag a) ([], []) (∅, ∅) (ad_applied a), w2).
End adapter.
Arguments Progress : clear implicits.
