(* ===== verification/ProviderOrder.v ===== *)
(** * Tags and order of an update

    The tags a provider gives are different, and the nodes of an update are ordered so that
    each comes after what it needs, if that is possible. *)

From stdpp Require Import base gmap strings list pretty relations.
From Stdlib Require Import ZArith Lia.
From S2P Require Import Prelude Lifecycle StartOrder Managers Provider.

Lemma size_le_of_Forall (l : list string) (X : gset string) : NoDup l -> Forall (.∈ X) l -> length l <= size X.
Proof.
  intros Hd Hl. rewrite <- (size_list_to_set (C := gset string) l Hd). apply subseteq_size. intros x Hx%elem_of_list_to_set.
  rewrite Forall_forall in Hl. by apply Hl.
Qed.

Lemma append_nil_r s : s +:+ "" = s.
Proof. induction s as [|a s IH]; [done|]. apply (f_equal (String a)), IH. Qed.

Lemma append_assoc s1 s2 s3 : (s1 +:+ s2) +:+ s3 = s1 +:+ s2 +:+ s3.
Proof. induction s1 as [|a s1 IH]; [done|]. apply (f_equal (String a)), IH. Qed.

Lemma append_length s1 s2 : String.length (s1 +:+ s2) = String.length s1 + String.length s2.
Proof. induction s1 as [|a s1 IH]; [done|]. apply (f_equal S), IH. Qed.

Section tags.
Context {P : Type}.

Fixpoint candidates (fuel : nat) (baseTag tag : string) (n : N) : list string :=
  match fuel with
  | O => []
  | S fuel' => tag :: candidates fuel' baseTag (renamed baseTag n) (n + 1)%N
  end.

Lemma free_tag_taken fuel baseTag tag n seen : free_tag fuel baseTag tag n seen ∈ seen -> Forall (.∈ seen) (candidates fuel baseTag tag n).
Proof.
  revert tag n. induction fuel as [|fuel IH]; intros tag n Hin; cbn in *; [constructor|].
  case_bool_decide as Ht; [|done]. constructor; [done|]. by apply IH.
Qed.

Lemma append_last_inj s s' c : s +:+ String c "" = s' +:+ String c "" -> s = s'.
Proof.
  revert s'. induction s as [|a s IH]; intros [|a' s']; cbn; intros Heq; [done|..].
  - injection Heq as _ Hs. by destruct s'.
  - injection Heq as _ Hs. by destruct s.
  - injection Heq as -> Hs. f_equal. by apply IH.
Qed.

Lemma renamed_inj baseTag n n' : renamed baseTag n = renamed baseTag n' -> n = n'.
Proof.
  unfold renamed. intros H%(inj (String.append baseTag)). cbn in H. injection H as H. apply append_last_inj in H. by apply (inj pretty).
Qed.

Lemma renamed_base baseTag n : renamed baseTag n <> baseTag.
Proof.
  unfold renamed. intros H. apply (f_equal String.length) in H. rewrite !append_length in H. cbn in H. lia.
Qed.

Lemma candidates_renamed fuel baseTag n : NoDup (candidates fuel baseTag (renamed baseTag n) (n + 1)%N) /\
  forall t, t ∈ candidates fuel baseTag (renamed baseTag n) (n + 1)%N -> exists k, (n <= k)%N /\ t = renamed baseTag k.
Proof.
  revert n. induction fuel as [|fuel IH]; intros n; cbn; [split; [constructor|by intros t Ht%not_elem_of_nil]|].
  destruct (IH (n + 1)%N) as [Hd Hin]. split.
  - constructor; [|done]. intros (k & Hk & Heq%renamed_inj)%Hin. lia.
  - intros t [->|(k & Hk & ->)%Hin]%elem_of_cons; [by exists n; split; [lia|]|exists k; split; [lia|done]].
Qed.

Lemma free_tag_fresh baseTag seen : free_tag (S (size seen)) baseTag baseTag 2 seen ∉ seen.
Proof.
  intros Hin%free_tag_taken. cbn [candidates] in Hin. change (2 + 1)%N with (2 + 1)%N in Hin.
  destruct (candidates_renamed (size seen) baseTag 2) as [Hd Hk].
  assert (Hnd : NoDup (baseTag :: candidates (size seen) baseTag (renamed baseTag 2) (2 + 1)%N)).
  { constructor; [|done]. intros (k & _ & Hb)%Hk. by eapply renamed_base. }
  assert (Hlen : forall f t n, length (candidates f baseTag t n) = f) by (induction f; intros; cbn; [done|by f_equal]).
  apply (size_le_of_Forall _ _ Hnd) in Hin. cbn in Hin. rewrite Hlen in Hin. lia.
Qed.

Lemma free_tag_prefix fuel baseTag tag n seen : (exists s, tag = baseTag +:+ s) -> exists s, free_tag fuel baseTag tag n seen = baseTag +:+ s.
Proof.
  revert tag n. induction fuel as [|fuel IH]; intros tag n Ht; cbn; [done|]. case_bool_decide; [|done]. apply IH. by eexists.
Qed.

Lemma resolve_loop_ok providerTag unnamed i (opts : list (NodeOption P)) seen :
  let tags := tags_loop providerTag unnamed i opts seen in
  length tags = length opts /\ NoDup tags /\ (forall t, t ∈ tags -> t ∉ seen).
Proof.
  revert i seen. induction opts as [|o opts IH]; intros i seen; cbn; [split_and!; [done|constructor|by intros t Ht%not_elem_of_nil]|].
  set (base := providerTag +:+ _). set (tag := if bool_decide (base ∈ seen) then _ else _).
  assert (Hfresh : tag ∉ seen) by apply (free_tag_fresh base seen). destruct (IH (i + 1)%N ({[tag]} ∪ seen)) as (Hl & Hd & Hs).
  split_and!; [by rewrite Hl| |].
  - constructor; [|done]. intros Hin. apply (Hs tag Hin). set_solver.
  - intros t [->|Ht]%elem_of_cons; [done|]. specialize (Hs t Ht). set_solver.
Qed.

Lemma resolve_loop_prefix providerTag unnamed i (opts : list (NodeOption P)) seen t :
  (exists s, unnamed = "/" +:+ s) -> t ∈ tags_loop providerTag unnamed i opts seen -> exists s, t = providerTag +:+ "/" +:+ s.
Proof.
  intros [u ->]. revert i seen. induction opts as [|o opts IH]; intros i seen; cbn -[free_tag String.append]; [by intros Ht%not_elem_of_nil|].
  set (rest := if empty_string (no_Tag o) then _ else _). intros [->|Ht]%elem_of_cons; [|by eapply IH].
  destruct (free_tag_prefix (S (size seen)) (providerTag +:+ rest) (providerTag +:+ rest) 2 seen) as [s Hs].
  { exists "". by rewrite append_nil_r. }
  rewrite Hs. assert (exists s', rest = "/" +:+ s') as [s' ->].
  { unfold rest. destruct (empty_string _); [|by eexists]. rewrite append_assoc. by eexists. }
  exists (s' +:+ s). by rewrite !append_assoc.
Qed.
End tags.

Lemma NoDup_split_unique {B : Type} (x : B) l1 l2 k1 k2 : NoDup (l1 ++ x :: l2) -> k1 ++ x :: k2 = l1 ++ x :: l2 -> k1 = l1.
Proof.
  revert k1. induction l1 as [|a l1 IH]; intros [|b k1]; cbn; intros Hnd Heq; simplify_eq; [done| | |].
  - apply NoDup_cons in Hnd as [Hx _]. exfalso. apply Hx. set_solver.
  - apply NoDup_cons in Hnd as [Hx _]. exfalso. apply Hx. set_solver.
  - f_equal. apply IH; [by apply NoDup_cons in Hnd as [_ ?]|done].
Qed.

Section order.
Context {P : Type} (nodes : gmap string (updateNode P)) (found owned : string -> bool).
(** A node is kept under its own tag. *)
Hypothesis Hnodes : forall tag node, nodes !! tag = Some node -> un_tag node = tag.
Implicit Types (node : updateNode P) (l : list (updateNode P)).

(** [tag] needs [dep], and both are nodes of the update. *)
Definition needs (tag dep : string) : Prop :=
  exists node, nodes !! tag = Some node /\ dep ∈ dependencies (un_option node) /\ is_Some (nodes !! dep).

(** A node needs something that is neither a node of the update nor can be relied on. *)
Definition unmet (tag : string) : Prop :=
  exists node dep, nodes !! tag = Some node /\ dep ∈ dependencies (un_option node) /\ nodes !! dep = None /\
    (found dep = false \/ owned dep = true).

Definition impossible : Prop := (exists tag, tc needs tag tag) \/ (exists tag, unmet tag).

Definition node_tags l : list string := map un_tag l.

(** Every node comes after what it needs, and what it needs elsewhere is there. *)
Definition well_ordered l : Prop :=
  forall l1 node l2, l = l1 ++ node :: l2 ->
    nodes !! un_tag node = Some node /\
    forall dep, dep ∈ dependencies (un_option node) ->
      match nodes !! dep with Some _ => dep ∈ node_tags l1 | None => found dep = true /\ owned dep = false end.

Lemma well_ordered_snoc l node : well_ordered l -> nodes !! un_tag node = Some node ->
  (forall dep, dep ∈ dependencies (un_option node) ->
     match nodes !! dep with Some _ => dep ∈ node_tags l | None => found dep = true /\ owned dep = false end) ->
  well_ordered (l ++ [node]).
Proof.
  intros Hl Hn Hd l1 node' l2 Heq. destruct l2 as [|x l2 _] using rev_ind.
  - apply app_inj_tail in Heq as [-> ->]. done.
  - rewrite app_comm_cons, app_assoc in Heq. apply app_inj_tail in Heq as [Heq _]. by apply (Hl l1 node' l2).
Qed.

Definition visits_ok (s : visits P) : Prop :=
  well_ordered (vs_ordered s) /\ NoDup (node_tags (vs_ordered s)) /\
  (forall t, t ∈ vs_visited s <-> t ∈ node_tags (vs_ordered s)) /\ vs_visiting s ## vs_visited s /\
  vs_visiting s ⊆ dom nodes.

(** From [s] to [s'] nodes were added. *)
Definition visits_after (s s' : visits P) : Prop :=
  visits_ok s' /\ vs_visiting s' = vs_visiting s /\ vs_ordered s `prefix_of` vs_ordered s'.

Lemma after_trans s s' s'' : visits_after s s' -> visits_after s' s'' -> visits_after s s''.
Proof. intros (_ & Hv & Hp) (Hok & Hv' & Hp'). split_and!; [done|congruence|by etrans]. Qed.

Lemma after_tags s s' t : visits_after s s' -> t ∈ node_tags (vs_ordered s) -> t ∈ node_tags (vs_ordered s').
Proof. intros (_ & _ & [l ->]) Ht. unfold node_tags in *. rewrite map_app. set_solver. Qed.

Definition visit_good (tag : string) (s : visits P) (r : result (visits P)) : Prop :=
  match r with
  | Ok s' => visits_after s s' /\ tag ∈ node_tags (vs_ordered s')
  | Err _ => impossible
  end.

(** Whatever is being visited needs the node that is visited now. *)
Definition path_to (s : visits P) (tag : string) : Prop := forall v, v ∈ vs_visiting s -> tc needs v tag.

Lemma visit_dependencies_ok (go : string -> visits P -> result (visits P)) (V : gset string) node deps s :
  (forall dep s, is_Some (nodes !! dep) -> visits_ok s -> path_to s dep -> vs_visiting s = V -> visit_good dep s (go dep s)) ->
  nodes !! un_tag node = Some node -> (forall v, v ∈ V -> v = un_tag node \/ tc needs v (un_tag node)) ->
  deps ⊆ dependencies (un_option node) -> visits_ok s -> vs_visiting s = V ->
  match visit_dependencies nodes found owned go deps s with
  | Ok s' => visits_after s s' /\ forall dep, dep ∈ deps ->
      match nodes !! dep with Some _ => dep ∈ node_tags (vs_ordered s') | None => found dep = true /\ owned dep = false end
  | Err _ => impossible
  end.
Proof.
  intros Hgo Hn Hpath. revert s. induction deps as [|dep deps IH]; intros s Hsub Hok HV; cbn.
  { split; [by split_and!|]. by intros dep Hd%not_elem_of_nil. }
  assert (Hdep : dep ∈ dependencies (un_option node)) by (apply Hsub; by left).
  destruct (nodes !! dep) as [node'|] eqn:Hnd.
  - assert (Hneed : needs (un_tag node) dep) by (exists node; eauto).
    assert (Hp : path_to s dep). { intros v Hv. rewrite HV in Hv. apply Hpath in Hv as [->|Hv]; [by constructor|by eapply tc_r]. }
    specialize (Hgo dep s (mk_is_Some _ _ Hnd) Hok Hp HV). destruct (go dep s) as [s1|e]; cbn; [|done].
    destruct Hgo as [Haft Ht]. pose proof Haft as (Hok1 & Hv1 & Hp1).
    specialize (IH s1 ltac:(set_solver) Hok1 ltac:(congruence)).
    destruct (visit_dependencies _ _ _ go deps s1) as [s2|e]; [|done]. destruct IH as [Haft2 Hd2].
    split; [by eapply after_trans|]. intros d [->|Hd]%elem_of_cons; [|by apply Hd2]. rewrite Hnd. by eapply after_tags.
  - destruct (found dep) eqn:Hf; cbn [negb].
    2: { right. exists (un_tag node), node, dep. auto. }
    destruct (owned dep) eqn:Ho. { right. exists (un_tag node), node, dep. auto. }
    specialize (IH s ltac:(set_solver) Hok HV). destruct (visit_dependencies _ _ _ go deps s) as [s2|e]; [|done].
    destruct IH as [Haft Hd2]. split; [done|]. intros d [->|Hd]%elem_of_cons; [by rewrite Hnd|by apply Hd2].
Qed.

Lemma visit_ok fuel tag s : is_Some (nodes !! tag) -> visits_ok s -> path_to s tag -> size nodes < fuel + size (vs_visiting s) ->
  visit_good tag s (visit nodes found owned fuel tag s).
Proof.
  revert tag s. induction fuel as [|fuel IH]; intros tag s [node Hn] Hok Hpath Hfuel.
  { exfalso. destruct Hok as (_ & _ & _ & _ & Hsub). apply subseteq_size in Hsub. rewrite size_dom in Hsub. lia. }
  cbn [visit]. pose proof Hok as (Hw & Hnd & Hvis & Hdis & Hsub). case_bool_decide as Hvd.
  { split; [by split_and!|]. by apply Hvis. }
  case_bool_decide as Hvg. { left. exists tag. by apply Hpath. }
  rewrite Hn. pose proof (Hnodes tag node Hn) as Htag. subst tag.
  set (s0 := mkVisits ({[un_tag node]} ∪ vs_visiting s) (vs_visited s) (vs_ordered s)).
  assert (Hok0 : visits_ok s0).
  { split_and!; [done..| |]; cbn; [set_solver|]. apply elem_of_dom_2 in Hn. set_solver. }
  assert (Hdeps : match visit_dependencies nodes found owned (visit nodes found owned fuel) (dependencies (un_option node)) s0 with
    | Ok s' => visits_after s0 s' /\ forall dep, dep ∈ dependencies (un_option node) ->
        match nodes !! dep with Some _ => dep ∈ node_tags (vs_ordered s') | None => found dep = true /\ owned dep = false end
    | Err _ => impossible
    end).
  { apply (visit_dependencies_ok _ (vs_visiting s0) node); [|done| |done|done|done].
    - intros dep s2 Hd Hok2 Hp2 HV. apply IH; [done..|]. rewrite HV. cbn. rewrite size_union by set_solver. rewrite size_singleton. lia.
    - intros v. cbn. intros [->%elem_of_singleton|Hv]%elem_of_union; [by left|right]. by apply Hpath. }
  destruct (visit_dependencies _ _ _ _ _ s0) as [s1|e]; cbn [result_bind]; [|done].
  destruct Hdeps as [(Hok1 & Hv1 & Hp1) Hd1]. pose proof Hok1 as (Hw1 & Hnd1 & Hvis1 & Hdis1 & Hsub1). cbn in Hv1, Hp1.
  assert (Hfresh : un_tag node ∉ node_tags (vs_ordered s1)) by (rewrite <- Hvis1; set_solver).
  split; [split_and!; [split_and!| |]|]; cbn.
  - by apply well_ordered_snoc.
  - unfold node_tags. rewrite map_app. apply NoDup_app. split_and!; [done| |apply NoDup_singleton].
    intros t Ht ->%list_elem_of_singleton. done.
  - intros t. unfold node_tags in *. rewrite map_app. cbn. set_solver.
  - set_solver.
  - set_solver.
  - rewrite Hv1. set_solver.
  - by apply prefix_app_r.
  - unfold node_tags. rewrite map_app. cbn. set_solver.
Qed.

Lemma visit_all_ok tags s : (forall t, t ∈ tags -> is_Some (nodes !! t)) -> visits_ok s -> vs_visiting s = ∅ ->
  match visit_all nodes found owned tags s with
  | Ok s' => visits_after s s' /\ forall t, t ∈ tags -> t ∈ node_tags (vs_ordered s')
  | Err _ => impossible
  end.
Proof.
  revert s. induction tags as [|t tags IH]; intros s Ht Hok Hv; cbn -[visit].
  { split; [by split_and!|]. by intros t Hn%not_elem_of_nil. }
  assert (Hg : visit_good t s (visit nodes found owned (S (size nodes)) t s)).
  { apply visit_ok; [apply Ht; by left|done| |lia]. intros v. rewrite Hv. set_solver. }
  destruct (visit _ _ _ _ t s) as [s1|e]; cbn [result_bind]; [|done]. destruct Hg as [Haft Hin]. pose proof Haft as (Hok1 & Hv1 & _).
  specialize (IH s1 ltac:(set_solver) Hok1 ltac:(congruence)). destruct (visit_all _ _ _ tags s1) as [s2|e]; [|done].
  destruct IH as [Haft2 Hin2]. split; [by eapply after_trans|]. intros t' [->|Ht']%elem_of_cons; [by eapply after_tags|by apply Hin2].
Qed.

Lemma no_visits_ok : visits_ok (mkVisits ∅ ∅ []).
Proof.
  split_and!; cbn; [|constructor|set_solver..]. by intros [|??] node l2 Heq.
Qed.

(** An order shows that nothing is in the way. *)
Lemma ordered_possible l : well_ordered l -> (forall t, is_Some (nodes !! t) -> t ∈ node_tags l) -> NoDup (node_tags l) -> ~ impossible.
Proof.
  intros Hw Hall Hnd.
  assert (Hsplit : forall t node, nodes !! t = Some node -> exists l1 l2, l = l1 ++ node :: l2 /\ un_tag node = t).
  { intros t node Ht. destruct (proj1 (list_elem_of_fmap _ _ _) (Hall t ltac:(by eexists))) as (n & -> & Hin).
    apply list_elem_of_split in Hin as (l1 & l2 & ->). destruct (Hw l1 n l2 eq_refl) as [Hn _]. rewrite Hn in Ht. simplify_eq. by exists l1, l2. }
  assert (Hbefore : forall t d, tc needs t d -> exists k1 k2 : list string, node_tags l = k1 ++ t :: k2 /\ d ∈ k1).
  { assert (Hone : forall t d, needs t d -> exists k1 k2 : list string, node_tags l = k1 ++ t :: k2 /\ d ∈ k1).
    { intros t d (node & Hn & Hd & [nd Hnd']). destruct (Hsplit t node Hn) as (l1 & l2 & Hl & <-). destruct (Hw l1 node l2 Hl) as [_ Hdep].
      specialize (Hdep d Hd). rewrite Hnd' in Hdep. exists (node_tags l1), (node_tags l2). split; [|done]. rewrite Hl. unfold node_tags. by rewrite map_app. }
    intros t d Htc. induction Htc as [t d Hn|t u d Hn Htc IH]; [by apply Hone|]. destruct (Hone t u Hn) as (l1 & l2 & Hl & Hu).
    destruct IH as (k1 & k2 & Hk & Hd). exists l1, l2. split; [done|]. apply list_elem_of_split in Hu as (m1 & m2 & ->).
    rewrite Hl in Hk, Hnd. rewrite <- app_assoc in Hk, Hnd. cbn in Hk, Hnd.
    assert (k1 = m1) as ->. { eapply NoDup_split_unique; [|symmetry; exact Hk]. exact Hnd. }
    set_solver. }
  intros [[t Ht]|[t (node & dep & Hn & Hd & Hnone & Hbad)]].
  - destruct (Hbefore t t Ht) as (l1 & l2 & Hl & Hin). rewrite Hl in Hnd. apply NoDup_app in Hnd as (_ & Hx & _). apply (Hx t Hin). by left.
  - destruct (Hsplit t node Hn) as (l1 & l2 & Hl & _). destruct (Hw l1 node l2 Hl) as [_ Hdep]. specialize (Hdep dep Hd). rewrite Hnone in Hdep.
    destruct Hdep, Hbad; congruence.
Qed.
End order.

Section plan.
Context {P : Type}.
Implicit Types (node : updateNode P) (l new : list (updateNode P)) (nodes : gmap string (updateNode P)).

Definition kind_nodes (endpoint : bool) (tags : list string) (opts : list (NodeOption P)) : list (updateNode P) :=
  zip_with (fun tag o => mkUpdateNode tag endpoint o) tags opts.

(** The nodes of an update, in the order of the subscription. *)
Definition new_nodes (providerTag : string) (outOpts epOpts : list (NodeOption P)) : list (updateNode P) :=
  kind_nodes false (resolveOutboundTags providerTag outOpts) outOpts ++
  kind_nodes true (resolveEndpointTags providerTag epOpts) epOpts.

Definition requires new (tag dep : string) : Prop :=
  exists node, node ∈ new /\ un_tag node = tag /\ dep ∈ dependencies (un_option node) /\ dep ∈ node_tags new.

(** An order exists: the tags differ, nothing needs itself in the end, and what is needed
    from elsewhere is there and not about to go. *)
Definition possible (found owned : string -> bool) new : Prop :=
  NoDup (node_tags new) /\ (forall tag, ~ tc (requires new) tag tag) /\
  forall node dep, node ∈ new -> dep ∈ dependencies (un_option node) -> dep ∈ node_tags new \/ found dep = true /\ owned dep = false.

Definition in_dependency_order new l : Prop :=
  l ≡ₚ new /\ forall l1 node l2 dep, l = l1 ++ node :: l2 -> dep ∈ dependencies (un_option node) -> dep ∈ node_tags new -> dep ∈ node_tags l1.

Lemma kind_tags b tags (opts : list (NodeOption P)) : length tags = length opts -> node_tags (kind_nodes b tags opts) = tags.
Proof.
  revert opts. induction tags as [|t tags IH]; intros [|o opts] Hl; try done. cbn in *. f_equal. apply IH. lia.
Qed.

(** A map that holds the nodes of a list by tag. *)
Definition holds nodes new : Prop := forall tag node, nodes !! tag = Some node <-> node ∈ new /\ un_tag node = tag.

Lemma holds_add nodes new node : holds nodes new -> nodes !! un_tag node = None -> holds (<[un_tag node := node]> nodes) (new ++ [node]).
Proof.
  intros Hh Hn t n. rewrite elem_of_app, list_elem_of_singleton. destruct (decide (t = un_tag node)) as [->|Hne].
  - rewrite lookup_insert_eq. split.
    + intros [= <-]. auto.
    + intros [[Hin| ->] Ht]; [|done]. rewrite (proj2 (Hh (un_tag node) n)) in Hn by done. done.
  - rewrite lookup_insert_ne by done. rewrite (Hh t n). split; [intros [? ?]; auto|]. intros [[?| ->] ?]; [auto|congruence].
Qed.

Lemma add_nodes_holds b tags opts nodes new : length tags = length opts -> NoDup tags -> holds nodes new ->
  (forall t, t ∈ tags -> nodes !! t = None) -> holds (add_nodes b tags opts nodes) (new ++ kind_nodes b tags opts).
Proof.
  revert opts nodes new. induction tags as [|t tags IH]; intros [|o opts] nodes new Hl Hnd Hh Hnone; try done; cbn in *.
  { by rewrite app_nil_r. }
  apply NoDup_cons in Hnd as [Ht Hnd]. change (mkUpdateNode t b o :: ?l) with ([mkUpdateNode t b o] ++ l). rewrite app_assoc.
  apply IH; [lia|done| |].
  - apply (holds_add nodes new (mkUpdateNode t b o)); [done|]. apply Hnone. by left.
  - intros t' Ht'. rewrite lookup_insert_ne by set_solver. apply Hnone. by right.
Qed.

Lemma add_endpoints_holds tags opts nodes new : length tags = length opts -> NoDup tags -> holds nodes new ->
  match add_endpoints tags opts nodes with
  | Ok nodes' => holds nodes' (new ++ kind_nodes true tags opts) /\ forall t, t ∈ tags -> t ∉ node_tags new
  | Err _ => exists t, t ∈ tags /\ t ∈ node_tags new
  end.
Proof.
  revert opts nodes new. induction tags as [|t tags IH]; intros [|o opts] nodes new Hl Hnd Hh; try done; cbn in *.
  { rewrite app_nil_r. split; [done|]. by intros t Ht%not_elem_of_nil. }
  apply NoDup_cons in Hnd as [Ht Hnd]. destruct (nodes !! t) as [n|] eqn:Hn.
  { exists t. split; [by left|]. apply Hh in Hn as [Hin <-]. by apply list_elem_of_fmap_2. }
  specialize (IH opts (<[t := mkUpdateNode t true o]> nodes) (new ++ [mkUpdateNode t true o]) ltac:(lia) Hnd (holds_add nodes new (mkUpdateNode t true o) Hh Hn)).
  assert (Hnt : t ∉ node_tags new). { intros (n & -> & Hin)%list_elem_of_fmap. rewrite (proj2 (Hh (un_tag n) n)) in Hn by done. done. }
  destruct (add_endpoints tags opts _) as [nodes'|e].
  - destruct IH as [Hh' Hd]. rewrite <- app_assoc in Hh'. split; [done|]. intros t' [->|Ht']%elem_of_cons; [done|].
    specialize (Hd t' Ht'). unfold node_tags in *. rewrite map_app in Hd. set_solver.
  - destruct IH as (t' & Hin & Hnew). exists t'. split; [by right|]. unfold node_tags in *. rewrite map_app in Hnew. cbn in Hnew. set_solver.
Qed.

Lemma holds_tags nodes new t : holds nodes new -> is_Some (nodes !! t) <-> t ∈ node_tags new.
Proof.
  intros Hh. split.
  - intros [n [Hin <-]%Hh]. by apply list_elem_of_fmap_2.
  - intros (n & -> & Hin)%list_elem_of_fmap. exists n. by apply Hh.
Qed.

Lemma holds_requires nodes new t d : holds nodes new -> needs nodes t d <-> requires new t d.
Proof.
  intros Hh. unfold needs, requires. setoid_rewrite (holds_tags nodes new d Hh). split.
  - intros (n & [Hin Ht]%Hh & Hd & Hd'). by exists n.
  - intros (n & Hin & Ht & Hd & Hd'). exists n. split; [by apply Hh|done].
Qed.

Lemma tc_mono {B : Type} (R R' : relation B) x y : (forall a b, R a b -> R' a b) -> tc R x y -> tc R' x y.
Proof. intros HR. induction 1; [by apply tc_once, HR|]. eapply tc_l; [by apply HR|done]. Qed.

Lemma holds_impossible nodes new found owned : holds nodes new -> NoDup (node_tags new) ->
  (impossible nodes found owned -> ~ possible found owned new) /\ (~ impossible nodes found owned -> possible found owned new).
Proof.
  intros Hh Hnd. split.
  - intros [[t Ht]|[t (n & d & [Hin _]%Hh & Hd & Hnone & Hbad)]] (_ & Hac & Hdep).
    + apply (Hac t). eapply tc_mono; [|done]. intros a b. by apply holds_requires.
    + destruct (Hdep n d Hin Hd) as [Ht'|[? ?]]; [|destruct Hbad; congruence]. apply (holds_tags nodes new d Hh) in Ht' as [? ?]. congruence.
  - intros Hno. split_and!; [done| |].
    + intros t Ht. apply Hno. left. exists t. eapply tc_mono; [|done]. intros a b. by apply holds_requires.
    + intros n d Hin Hd. destruct (nodes !! d) as [x|] eqn:Hx; [left; apply (holds_tags nodes new d Hh); by eexists|]. right.
      destruct (found d) eqn:Hf, (owned d) eqn:Ho; try done; exfalso; apply Hno; right; exists (un_tag n), n, d; (split_and!; [by apply Hh|done..|]); auto.
Qed.

Lemma well_ordered_plan nodes new l found owned : holds nodes new -> NoDup (node_tags new) -> well_ordered nodes found owned l ->
  NoDup (node_tags l) -> (forall t, t ∈ node_tags new -> t ∈ node_tags l) -> in_dependency_order new l.
Proof.
  intros Hh Hnd Hw Hndl Hall. assert (Hin : forall n, n ∈ l -> nodes !! un_tag n = Some n).
  { intros n (l1 & l2 & ->)%list_elem_of_split. by apply (Hw l1 n l2). }
  split.
  - apply NoDup_Permutation; [by apply (NoDup_fmap_1 un_tag)|by apply (NoDup_fmap_1 un_tag)|]. intros n. split; [by intros [? _]%Hin%Hh|].
    intros Hn. assert (Ht : un_tag n ∈ node_tags l) by (by apply Hall, list_elem_of_fmap_2).
    apply list_elem_of_fmap in Ht as (n' & Ht & Hn'). pose proof (Hin n' Hn') as Hl. rewrite <- Ht in Hl.
    rewrite (proj2 (Hh (un_tag n) n)) in Hl by done. by simplify_eq.
  - intros l1 n l2 d Hl Hd Hdn. destruct (Hw l1 n l2 Hl) as [_ Hdep]. specialize (Hdep d Hd).
    apply (holds_tags nodes new d Hh) in Hdn as [x Hx]. by rewrite Hx in Hdep.
Qed.
End plan.
