(* ===== verification/ProviderOk.v ===== *)
(** * What an update of a provider does

    The order of an update exists exactly when it can, and one pass over the nodes keeps,
    replaces or leaves each of them and touches nothing else. *)

From stdpp Require Import base gmap strings list pretty relations.
From Stdlib Require Import ZArith Lia.
From S2P Require Import Prelude Lifecycle StartOrder Managers ManagersOk Provider ProviderOrder.

Section order.
Context {A P : Type}.
Implicit Types (a : Adapter P) (w : World A).

Definition provider_found w (dep : string) : bool := nonnone (get_node false dep w).

Definition provider_owns a (dep : string) : bool := nonnone ((ad_applied a).1 !! dep) || nonnone ((ad_applied a).2 !! dep).

Lemma new_nodes_tags providerTag (outOpts epOpts : list (NodeOption P)) :
  node_tags (new_nodes providerTag outOpts epOpts) = resolveOutboundTags providerTag outOpts ++ resolveEndpointTags providerTag epOpts.
Proof.
  unfold new_nodes, node_tags. rewrite map_app. f_equal; apply kind_tags; apply resolve_loop_ok.
Qed.

Lemma order_nodes_ok a w outOpts epOpts :
  let outTags := resolveOutboundTags (ad_providerTag a) outOpts in
  let epTags := resolveEndpointTags (ad_providerTag a) epOpts in
  let new := new_nodes (ad_providerTag a) outOpts epOpts in
  match order_nodes outTags epTags outOpts epOpts a w with
  | Ok ordered => possible (provider_found w) (provider_owns a) new /\ in_dependency_order new ordered
  | Err _ => ~ possible (provider_found w) (provider_owns a) new
  end.
Proof.
  intros outTags epTags new. destruct (resolve_loop_ok (ad_providerTag a) "/" 0 outOpts ∅) as (Hlo & Hdo & _).
  destruct (resolve_loop_ok (ad_providerTag a) "/endpoint-" 0 epOpts ∅) as (Hle & Hde & _). fold outTags in Hlo, Hdo. fold epTags in Hle, Hde.
  change (tags_loop _ _ _ outOpts _) with outTags in Hlo, Hdo. change (tags_loop _ _ _ epOpts _) with epTags in Hle, Hde.
  assert (Hout : holds (add_nodes false outTags outOpts ∅) (kind_nodes false outTags outOpts)).
  { apply (add_nodes_holds false outTags outOpts ∅ []); [done..| |by intros; apply lookup_empty].
    intros t n. rewrite lookup_empty. split; [done|]. by intros [Hn%not_elem_of_nil _]. }
  unfold order_nodes. pose proof (add_endpoints_holds epTags epOpts _ _ Hle Hde Hout) as Hend.
  assert (Htags : node_tags new = outTags ++ epTags) by apply new_nodes_tags.
  destruct (add_endpoints _ _ _) as [nodes|e]; cbn [result_bind].
  2: { intros [Hnd _]. destruct Hend as (t & Ht & Ht'). rewrite kind_tags in Ht' by done. rewrite Htags in Hnd.
       apply NoDup_app in Hnd as (_ & Hx & _). by apply (Hx t). }
  destruct Hend as [Hh Hdis]. rewrite kind_tags in Hdis by done. change (holds nodes new) in Hh.
  assert (Hnd : NoDup (node_tags new)). { rewrite Htags. apply NoDup_app. split_and!; [done| |done]. intros t Ht Ht'. by apply (Hdis t). }
  destruct (holds_impossible nodes new (provider_found w) (provider_owns a) Hh Hnd) as [Hbad Hgood].
  assert (Hnodes : forall t n, nodes !! t = Some n -> un_tag n = t) by (by intros t n [_ ?]%Hh).
  assert (Hin : forall t, t ∈ outTags ++ epTags -> is_Some (nodes !! t)) by (intros t Ht; apply (holds_tags nodes new t Hh); by rewrite Htags).
  pose proof (visit_all_ok nodes (provider_found w) (provider_owns a) Hnodes (outTags ++ epTags) (mkVisits ∅ ∅ []) Hin (no_visits_ok _ _ _ Hnodes) eq_refl) as Hv.
  change (visit_all nodes (fun dep => nonnone (get_node false dep w)) _ _ _) with
    (visit_all nodes (provider_found w) (provider_owns a) (outTags ++ epTags) (mkVisits ∅ ∅ [])).
  destruct (visit_all _ _ _ _ _) as [s|e]; cbn [result_bind]; [|by apply Hbad].
  destruct Hv as [((Hw & Hnds & _) & _) Hall]. split.
  - apply Hgood. eapply ordered_possible; [done|done| |done]. intros t Ht%(holds_tags nodes new t Hh). apply Hall. by rewrite <- Htags.
  - by apply (well_ordered_plan nodes _ _ (provider_found w) (provider_owns a)); [..|by rewrite Htags].
Qed.
End order.

(** ** Replacing and removing single nodes *)

Section remove.
Context {A : Type}.
Context (component_Start : Component -> StartStage -> list A * result unit) (run : A -> option error).
Context (IsClosed IsCanceled : error -> bool) (Errors : list error -> option error) (Expand : option error -> list error).
Implicit Types (w : World A) (tag : string) (b : bool).

#[local] Abbreviation remove := (remove_node run IsClosed IsCanceled Errors Expand).

Definition nodes_of b w : Nodes := if b then em_nodes (wd_managers w).2 else om_nodes (wd_managers w).1.

(** What a manager has under a tag. *)
Definition own b tag w : option Outbound := nd_byTag (nodes_of b w) !! tag.

Definition world_ok w : Prop :=
  managers_ok (wd_managers w) /\ forall b o, o ∈ nd_list (nodes_of b w) -> ob_id o < wd_next w.

Lemma replaced_elem tag n (ns : Nodes) o : nodes_ok ns -> o ∈ nd_list (nodes_replace tag n ns) -> o = n \/ o ∈ nd_list ns.
Proof.
  intros Hok. unfold nodes_replace. cbn. destruct (nd_byTag ns !! tag) as [old|] eqn:Hb.
  - destruct (nodes_split ns tag old Hok Hb) as (l1 & l2 & Hl & _ & _ & _ & -> & _). rewrite Hl. set_solver.
  - set_solver.
Qed.

Definition removed_nodes tag (ns ns' : Nodes) : Prop :=
  nd_byTag ns' = delete tag (nd_byTag ns) /\ forall o, o ∈ nd_list ns' -> o ∈ nd_list ns.

Lemma removed_same tag ns : nd_byTag ns !! tag = None -> removed_nodes tag ns ns.
Proof. intros Hn. split; [by rewrite delete_id|done]. Qed.

Lemma removed_remove tag old ns : nodes_ok ns -> nd_byTag ns !! tag = Some old -> removed_nodes tag ns (nodes_remove tag old ns).
Proof.
  intros Hok Hb. split; [done|]. destruct (nodes_split ns tag old Hok Hb) as (l1 & l2 & Hl & _ & _ & _ & _ & Hr).
  intros o. cbn. rewrite Hr, Hl. set_solver.
Qed.

Lemma remove_node_ok b tag w : world_ok w ->
  let '(_, _, w') := remove b tag w in
  world_ok w' /\ wd_next w' = wd_next w /\ own b tag w' = None /\ (forall b' t, (b', t) <> (b, tag) -> own b' t w' = own b' t w).
Proof.
  intros [[Hm He] Hid]. destruct w as [[m e] next]. unfold remove_node. cbn [wd_managers wd_next fst snd] in *.
  assert (Hfin : forall m' e', managers_ok (m', e') -> nodes_of (negb b) (mkWorld (m', e') next) = nodes_of (negb b) (mkWorld (m, e) next) ->
    removed_nodes tag (nodes_of b (mkWorld (m, e) next)) (nodes_of b (mkWorld (m', e') next)) ->
    world_ok (mkWorld (m', e') next) /\ next = next /\ own b tag (mkWorld (m', e') next) = None /\
    (forall b' t, (b', t) <> (b, tag) -> own b' t (mkWorld (m', e') next) = own b' t (mkWorld (m, e) next))).
  { intros m' e' Hok Hother [Hby Hel]. unfold own. split_and!; [split; [done|]|done|by rewrite Hby, lookup_delete_eq|].
    - intros b' o Ho. destruct (decide (b' = b)) as [->|Hb]; [by apply (Hid b), Hel|].
      assert (b' = negb b) as -> by (by destruct b, b'). rewrite Hother in Ho. by apply (Hid (negb b)).
    - intros b' t Hne. destruct (decide (b' = b)) as [->|Hb]; [rewrite Hby, lookup_delete_ne by congruence; done|].
      assert (b' = negb b) as -> by (by destruct b, b'). by rewrite Hother. }
  destruct b.
  - pose proof (EndpointManager_Remove_ok component_Start run IsClosed IsCanceled Errors Expand tag e He) as Hok.
    assert (Hr : removed_nodes tag (em_nodes e) (em_nodes (EndpointManager_Remove run IsClosed IsCanceled Errors Expand tag e).2)).
    { unfold EndpointManager_Remove. destruct (nd_byTag (em_nodes e) !! tag) as [old|] eqn:Hb; [|by apply removed_same].
      destruct (em_lifecycle e) as [g|]; [destruct (Group_Remove _ _ _ _ _ _ _) as [[ran err] g']|]; (apply removed_remove; [apply He|done]). }
    destruct (EndpointManager_Remove _ _ _ _ _ _ _) as [[ran r] e']. by apply Hfin.
  - pose proof (OutboundManager_Remove_ok component_Start run IsClosed IsCanceled Errors Expand tag m Hm) as Hok.
    assert (Hr : removed_nodes tag (om_nodes m) (om_nodes (OutboundManager_Remove run IsClosed IsCanceled Errors Expand tag m).2)).
    { unfold OutboundManager_Remove. destruct (nd_byTag (om_nodes m) !! tag) as [old|] eqn:Hb; [|by apply removed_same].
      destruct (om_lifecycle m) as [g|]; [|apply removed_remove; [apply Hm|done]].
      destruct (ob_isLifecycle old); [destruct (Group_Remove _ _ _ _ _ _ _) as [[ran err] g']|]; (apply removed_remove; [apply Hm|done]). }
    destruct (OutboundManager_Remove _ _ _ _ _ _ _) as [[ran r] m']. by apply Hfin.
Qed.

(** A pass over nodes removes those that are not wanted. *)
Lemma remove_useless_ok b (wanted : gset string) l w : world_ok w ->
  let '(_, w') := remove_useless run IsClosed IsCanceled Errors Expand b wanted l w in
  world_ok w' /\ wd_next w' = wd_next w /\
  (forall t, t ∈ tags l -> t ∉ wanted -> own b t w' = None) /\
  (forall b' t, (b' = b -> t ∉ tags l \/ t ∈ wanted) -> own b' t w' = own b' t w).
Proof.
  revert w. induction l as [|o l IH]; intros w Hw; cbn; [split_and!; [done|done|by intros t Ht%not_elem_of_nil|done]|].
  case_bool_decide as Ho.
  - specialize (IH w Hw). destruct (remove_useless _ _ _ _ _ b wanted l w) as [ran w']. destruct IH as (Hw' & Hn & Hgone & Hkeep).
    split_and!; [done|done| |].
    + intros t [->|Ht]%elem_of_cons Hnw; [done|by apply Hgone].
    + intros b' t Hb. apply Hkeep. intros ->. specialize (Hb eq_refl). set_solver.
  - pose proof (remove_node_ok b (ob_Tag o) w Hw) as Hr. destruct (remove b (ob_Tag o) w) as [[ran1 r1] w1].
    destruct Hr as (Hw1 & Hn1 & Hgone1 & Hkeep1). specialize (IH w1 Hw1).
    destruct (remove_useless _ _ _ _ _ b wanted l w1) as [ran w']. destruct IH as (Hw' & Hn & Hgone & Hkeep).
    split_and!; [done|congruence| |].
    + intros t Ht Hnw. destruct (decide (t ∈ tags l)) as [Htl|Htl]; [by apply Hgone|].
      rewrite Hkeep by (intros _; by left). apply elem_of_cons in Ht as [->|Ht]; [done|]. done.
    + intros b' t Hb. rewrite Hkeep, Hkeep1; [done| |].
      * intros [= -> ->]. destruct (Hb eq_refl); set_solver.
      * intros ->. specialize (Hb eq_refl). set_solver.
Qed.

Lemma close_nodes_ok b l err w : world_ok w ->
  let '(_, _, w') := close_nodes run IsClosed IsCanceled Errors Expand b l err w in
  world_ok w' /\ wd_next w' = wd_next w /\
  (forall t, t ∈ tags l -> own b t w' = None) /\ (forall b' t, (b' = b -> t ∉ tags l) -> own b' t w' = own b' t w).
Proof.
  revert w err. induction l as [|o l IH]; intros w err Hw; cbn; [split_and!; [done|done|by intros t Ht%not_elem_of_nil|done]|].
  pose proof (remove_node_ok b (ob_Tag o) w Hw) as Hr. destruct (remove b (ob_Tag o) w) as [[ran1 r1] w1].
  destruct Hr as (Hw1 & Hn1 & Hgone1 & Hkeep1). set (err1 := match r1 with Ok _ => _ | Err _ => _ end). specialize (IH w1 err1 Hw1).
  destruct (close_nodes _ _ _ _ _ b l err1 w1) as [[ran e'] w']. destruct IH as (Hw' & Hn & Hgone & Hkeep).
  split_and!; [done|congruence| |].
  - intros t Ht. destruct (decide (t ∈ tags l)) as [Htl|Htl]; [by apply Hgone|].
    rewrite Hkeep by (intros _; done). apply elem_of_cons in Ht as [->|Ht]; done.
  - intros b' t Hb. rewrite Hkeep, Hkeep1; [done| |].
    + intros [= -> ->]. apply (Hb eq_refl). by left.
    + intros ->. specialize (Hb eq_refl). set_solver.
Qed.
End remove.

Section update.
Context {A P : Type} `{EqDecision P}.
Context (component_Start : Component -> StartStage -> list A * result unit) (run : A -> option error).
Context (IsClosed IsCanceled : error -> bool) (Errors : list error -> option error) (Expand : option error -> list error).
Context (registry : Component -> bool -> string -> NodeOption P -> result Outbound) (cancelled : bool).
(** sing's [E.Errors] gives an error if one of its arguments is one. *)
Hypothesis Errors_some : forall e e', e <> None \/ e' <> None -> Errors (Expand e ++ Expand e') <> None.
(** A registry gives a new node of its kind with the tag. *)
Hypothesis registry_ok : forall id b tag o node, registry id b tag o = Ok node -> ob_id node = id /\ ob_Tag node = tag /\ node_kind b node.
Implicit Types (a : Adapter P) (w : World A) (node : updateNode P) (tag : string) (b : bool).

#[local] Abbreviation replace := (replace_node component_Start run IsClosed IsCanceled Errors Expand registry cancelled).

Lemma catch_up_err name n last (g g' : LifecycleGroup (A := A)) ran r :
  catch_up component_Start run IsClosed IsCanceled Errors Expand cancelled name n last g = (ran, Some r, g') -> exists e, r = Err e.
Proof.
  unfold catch_up. destruct (start_stages _ _ _ _ _ _ _) as [[u|e] g0]; [done|].
  destruct (Group_Remove _ _ _ _ _ _ _) as [[ran1 err1] g1]. intros [= _ <- _].
  assert (HE : Errors (Expand (Some e) ++ Expand err1) <> None) by (apply Errors_some; by left). unfold of_error. destruct (Errors _); [by eexists|done].
Qed.

#[local] Ltac published := repeat case_match; simplify_eq/=; eexists; split; reflexivity.

Lemma OutboundManager_Replace_nodes tag created (m : OutboundManager (A := A)) :
  let '(_, r, m') := OutboundManager_Replace component_Start run IsClosed IsCanceled Errors Expand cancelled tag created m in
  match r with
  | Ok _ => exists n, created = Ok n /\ om_nodes m' = nodes_replace tag n (om_nodes m)
  | Err _ => om_nodes m' = om_nodes m
  end.
Proof.
  unfold OutboundManager_Replace. destruct created as [n|e]; [|done].
  destruct (om_lifecycle m) as [g|]; [|by published]. destruct (ob_isLifecycle n); [|by published].
  destruct (catch_up _ _ _ _ _ _ _ _ _ _ _) as [[ran [r|]] g'] eqn:Hc; [|by published]. by apply catch_up_err in Hc as [e ->].
Qed.

Lemma EndpointManager_Replace_nodes tag created (m : EndpointManager (A := A)) :
  let '(_, r, m') := EndpointManager_Replace component_Start run IsClosed IsCanceled Errors Expand cancelled tag created m in
  match r with
  | Ok _ => exists n, created = Ok n /\ em_nodes m' = nodes_replace tag n (em_nodes m)
  | Err _ => em_nodes m' = em_nodes m
  end.
Proof.
  unfold EndpointManager_Replace. destruct created as [n|e]; [|done]. destruct (em_lifecycle m) as [g|]; [|by published].
  destruct (catch_up _ _ _ _ _ _ _ _ _ _ _) as [[ran [r|]] g'] eqn:Hc; [|by published]. by apply catch_up_err in Hc as [e ->].
Qed.

Lemma created_fresh id b tag o w : world_ok w -> wd_next w = id -> created_ok b tag (registry id b tag o) (nodes_of b w).
Proof.
  intros [_ Hid] Hn node Hr. apply registry_ok in Hr as (Hi & Ht & Hk). split; [split; [done|]|done].
  intros (o' & Heq & Ho)%list_elem_of_fmap. apply (Hid b) in Ho. lia.
Qed.

(** One manager has replaced a node or left its nodes alone, the other is unchanged. *)
Lemma replaced_world b (m : OutboundManager (A := A)) (e : EndpointManager (A := A)) (m' : OutboundManager (A := A)) (e' : EndpointManager (A := A)) next (r : result unit) tag created :
  managers_ok (m', e') -> (forall n, created = Ok n -> ob_id n = next) ->
  (forall b o, o ∈ nd_list (nodes_of b (mkWorld (m, e) next)) -> ob_id o < S next) ->
  match r with
  | Ok _ => exists n, created = Ok n /\ nodes_of b (mkWorld (m', e') (S next)) = nodes_replace tag n (nodes_of b (mkWorld (m, e) next))
  | Err _ => nodes_of b (mkWorld (m', e') (S next)) = nodes_of b (mkWorld (m, e) next)
  end ->
  nodes_of (negb b) (mkWorld (m', e') (S next)) = nodes_of (negb b) (mkWorld (m, e) next) -> nodes_ok (nodes_of b (mkWorld (m, e) next)) ->
  world_ok (mkWorld (m', e') (S next)) /\ S next = S next /\
  (forall b' t, (b', t) <> (b, tag) -> own b' t (mkWorld (m', e') (S next)) = own b' t (mkWorld (m, e) next)) /\
  match r with
  | Ok _ => exists n, created = Ok n /\ own b tag (mkWorld (m', e') (S next)) = Some n
  | Err _ => own b tag (mkWorld (m', e') (S next)) = own b tag (mkWorld (m, e) next)
  end.
Proof.
  intros Hok Hcid Hold Hns Hother Hnok. unfold own. split_and!; [split; [done|]|done| |].
  - intros b' o Ho. destruct (decide (b' = b)) as [->|Hb].
    + destruct r as [u|err]; [|rewrite Hns in Ho; by apply (Hold b)]. destruct Hns as (n & Hn & Hns). rewrite Hns in Ho.
      apply replaced_elem in Ho as [->|Ho]; [rewrite (Hcid n Hn); cbn; lia|by apply (Hold b)|done].
    + assert (b' = negb b) as -> by (by destruct b, b'). rewrite Hother in Ho. by apply (Hold (negb b)).
  - intros b' t Hne. destruct (decide (b' = b)) as [->|Hb].
    + destruct r as [u|err]; [|by rewrite Hns]. destruct Hns as (n & Hn & ->). cbn. rewrite lookup_insert_ne by congruence. done.
    + assert (b' = negb b) as -> by (by destruct b, b'). by rewrite Hother.
  - destruct r as [u|err]; [|by rewrite Hns]. destruct Hns as (n & Hn & ->). exists n. split; [done|]. cbn. by rewrite lookup_insert_eq.
Qed.

Lemma replace_node_ok node w : world_ok w ->
  let '(_, r, w') := replace node w in
  world_ok w' /\ wd_next w' = S (wd_next w) /\
  (forall b t, (b, t) <> (un_endpoint node, un_tag node) -> own b t w' = own b t w) /\
  match r with
  | Ok _ => exists n, registry (wd_next w) (un_endpoint node) (un_tag node) (un_option node) = Ok n /\ own (un_endpoint node) (un_tag node) w' = Some n
  | Err _ => own (un_endpoint node) (un_tag node) w' = own (un_endpoint node) (un_tag node) w
  end.
Proof.
  intros Hw. pose proof (created_fresh (wd_next w) (un_endpoint node) (un_tag node) (un_option node) w Hw eq_refl) as Hc.
  destruct w as [[m e] next]. destruct Hw as [[Hm He] Hid]. unfold replace_node. cbn [wd_managers wd_next fst snd] in *.
  set (created := registry next (un_endpoint node) (un_tag node) (un_option node)) in *.
  assert (Hcid : forall n, created = Ok n -> ob_id n = next) by (by intros n [? _]%registry_ok). clearbody created.
  assert (Hold : forall b o, o ∈ nd_list (nodes_of b (mkWorld (m, e) next)) -> ob_id o < S next) by (intros b o Ho; specialize (Hid b o Ho); lia).
  destruct (un_endpoint node); cbn in Hc.
  - pose proof (EndpointManager_Replace_ok component_Start run IsClosed IsCanceled Errors Expand cancelled (un_tag node) created e He Hc) as Hok.
    pose proof (EndpointManager_Replace_nodes (un_tag node) created e) as Hns. destruct (EndpointManager_Replace _ _ _ _ _ _ _ _ _ _) as [[ran r] e'].
    cbn in Hok. apply (replaced_world true m e m e' next r (un_tag node) created); [by split|done..|]. by destruct He.
  - pose proof (OutboundManager_Replace_ok component_Start run IsClosed IsCanceled Errors Expand cancelled (un_tag node) created m Hm Hc) as Hok.
    pose proof (OutboundManager_Replace_nodes (un_tag node) created m) as Hns. destruct (OutboundManager_Replace _ _ _ _ _ _ _ _ _ _) as [[ran r] m'].
    cbn in Hok. apply (replaced_world false m e m' e next r (un_tag node) created); [by split|done..|]. by destruct Hm.
Qed.
End update.

(** * Updates of a provider

    One update decides each node on its own, and every update keeps the provider and the
    managers in step. *)

Lemma sel_upd_eq {X : Type} b (f : X -> X) (p : X * X) : sel b (upd b f p) = f (sel b p).
Proof. by destruct b. Qed.

Lemma sel_upd_ne {X : Type} b b' (f : X -> X) (p : X * X) : b <> b' -> sel b (upd b' f p) = sel b p.
Proof. by destruct b, b'. Qed.

Lemma sel_insert_eq {X : Type} b t (x : X) (p : gmap string X * gmap string X) : sel b (upd b (<[t := x]>) p) !! t = Some x.
Proof. rewrite sel_upd_eq. apply lookup_insert_eq. Qed.

Lemma sel_insert_ne {X : Type} b t b' t' (x : X) (p : gmap string X * gmap string X) : (b, t) <> (b', t') ->
  sel b (upd b' (<[t' := x]>) p) !! t = sel b p !! t.
Proof.
  intros Hne. destruct (decide (b = b')) as [->|Hb]; [|by rewrite sel_upd_ne]. rewrite sel_upd_eq. apply lookup_insert_ne. congruence.
Qed.

Section update.
Context {A P : Type} `{EqDecision P}.
Context (component_Start : Component -> StartStage -> list A * result unit) (run : A -> option error).
Context (IsClosed IsCanceled : error -> bool) (Errors : list error -> option error) (Expand : option error -> list error).
Context (registry : Component -> bool -> string -> NodeOption P -> result Outbound) (cancelled : bool).
Hypothesis Errors_some : forall e e', e <> None \/ e' <> None -> Errors (Expand e ++ Expand e') <> None.
Hypothesis registry_ok : forall id b tag o node, registry id b tag o = Ok node -> ob_id node = id /\ ob_Tag node = tag /\ node_kind b node.
Implicit Types (a : Adapter P) (w : World A) (node : updateNode P) (tag t : string) (b : bool).

#[local] Abbreviation update_node := (update_node component_Start run IsClosed IsCanceled Errors Expand registry cancelled).
#[local] Abbreviation Progress := (Progress A P).

(** The provider and the managers agree: what is in use is what the managers have, and its
    options are known. *)
Record provider_ok a w : Prop := mkProviderOk {
  po_world : world_ok w;
  po_own : forall b o, o ∈ sel b (ad_nodes a) -> own b (ob_Tag o) w = Some o;
  po_byTag : forall b t c, sel b (ad_byTag a) !! t = Some c <-> exists o, c = Some o /\ o ∈ sel b (ad_nodes a) /\ ob_Tag o = t;
  po_applied : forall b t, is_Some (sel b (ad_applied a) !! t) <-> t ∈ tags (sel b (ad_nodes a))
}.

(** What became of a node of the update: it was the same before and is kept, a new one is in
    use, or the attempt failed and what was in use before still is.  [use], [has] and
    [options] are what the provider and the manager have now. *)
Definition outcome a w node (use : option (option Outbound)) (has : option Outbound) (options : option (NodeOption P))
    (failed : bool) (next : Component) : Prop :=
  let b := un_endpoint node in
  let t := un_tag node in
  let old := sel b (ad_byTag a) !! t in
  let unchanged := is_Some old /\ sel b (ad_applied a) !! t = Some (un_option node) in
  (unchanged /\ use = old /\ has = own b t w /\ options = Some (un_option node)) \/
  (~ unchanged /\ exists id n, wd_next w <= id < next /\ registry id b t (un_option node) = Ok n /\
     use = Some (Some n) /\ has = Some n /\ options = Some (un_option node)) \/
  (~ unchanged /\ failed = true /\ use = old /\ has = own b t w /\ options = sel b (ad_applied a) !! t).

Lemma outcome_later a w node use has options failed failed' next next' : outcome a w node use has options failed next ->
  (failed = true -> failed' = true) -> next <= next' -> outcome a w node use has options failed' next'.
Proof.
  intros [Ho|[(Hu & id & n & Hid & Ho)|(Hu & Hf & Ho)]] Hff Hn; [by left|right; left|right; right]; (split; [done|]).
  - exists id, n. split; [lia|done].
  - split; [by apply Hff|done].
Qed.

Record pass a w (done : list (updateNode P)) (g : Progress) : Prop := mkPass {
  pa_world : world_ok (pg_world g);
  pa_next : wd_next w <= wd_next (pg_world g);
  pa_done : forall n, n ∈ done ->
    outcome a w n (sel (un_endpoint n) (pg_byTag g) !! un_tag n) (own (un_endpoint n) (un_tag n) (pg_world g))
      (sel (un_endpoint n) (pg_applied g) !! un_tag n) (nonnone (pg_err g)) (wd_next (pg_world g));
  pa_rest : forall b t, (forall n, n ∈ done -> (un_endpoint n, un_tag n) <> (b, t)) ->
    own b t (pg_world g) = own b t w /\ sel b (pg_byTag g) !! t = None /\ sel b (pg_applied g) !! t = sel b (ad_applied a) !! t
}.

Lemma active_old a w b t : provider_ok a w ->
  bool_decide (t ∈ sel b (activeTags false a, activeTags true a)) = true <-> is_Some (sel b (ad_byTag a) !! t).
Proof.
  intros Hok. rewrite bool_decide_eq_true. assert (Hs : sel b (activeTags false a, activeTags true a) = activeTags b a) by (by destruct b).
  rewrite Hs. unfold activeTags. rewrite elem_of_list_to_set. split.
  - intros (o & -> & Ho)%list_elem_of_fmap. exists (Some o). apply (po_byTag a w Hok). by exists o.
  - intros [c (o & -> & Ho & <-)%(po_byTag a w Hok)]. by apply list_elem_of_fmap_2.
Qed.

Lemma old_own a w b t c : provider_ok a w -> sel b (ad_byTag a) !! t = Some c -> c = own b t w /\ is_Some c.
Proof.
  intros Hok (o & -> & Ho & <-)%(po_byTag a w Hok). split; [|by eexists]. by rewrite (po_own a w Hok b o Ho).
Qed.

Lemma get_own b t w o : own b t w = Some o -> get_node b t w = Some o.
Proof. unfold own, nodes_of, get_node, OutboundManager_Outbound, EndpointManager_Get. destruct b; intros Ho; by rewrite Ho. Qed.

Lemma pass_step a w done g n (g' : Progress) : pass a w done g -> (forall n', n' ∈ done -> un_tag n' <> un_tag n) ->
  world_ok (pg_world g') -> wd_next (pg_world g) <= wd_next (pg_world g') -> (nonnone (pg_err g) = true -> nonnone (pg_err g') = true) ->
  (forall b t, (b, t) <> (un_endpoint n, un_tag n) -> own b t (pg_world g') = own b t (pg_world g) /\
     sel b (pg_byTag g') !! t = sel b (pg_byTag g) !! t /\ sel b (pg_applied g') !! t = sel b (pg_applied g) !! t) ->
  outcome a w n (sel (un_endpoint n) (pg_byTag g') !! un_tag n) (own (un_endpoint n) (un_tag n) (pg_world g'))
    (sel (un_endpoint n) (pg_applied g') !! un_tag n) (nonnone (pg_err g')) (wd_next (pg_world g')) ->
  pass a w (done ++ [n]) g'.
Proof.
  intros [Hw Hn Hd Hr] Hfresh Hw' Hn' Herr Hother Hout. split; [done|lia| |].
  - intros n' [Hin| ->%list_elem_of_singleton]%elem_of_app; [|done].
    destruct (Hother (un_endpoint n') (un_tag n')) as (-> & -> & ->); [intros [= _ Ht]; by apply (Hfresh n' Hin)|].
    eapply outcome_later; [by apply Hd|done|done].
  - intros b t Hne. destruct (Hother b t) as (-> & -> & ->); [intros [= -> ->]; apply (Hne n); [set_solver|done]|].
    apply Hr. intros n' Hin. apply Hne. set_solver.
Qed.

Lemma update_node_pass a w done g n : provider_ok a w -> pass a w done g -> (forall n', n' ∈ done -> un_tag n' <> un_tag n) ->
  pass a w (done ++ [n]) (update_node (activeTags false a, activeTags true a) n g).
Proof.
  intros Hok Hp Hfresh. pose proof Hp as [Hw Hnx _ Hrest]. destruct (Hrest (un_endpoint n) (un_tag n)) as (Hown & Huse & Happ).
  { intros n' Hin [= _ Ht]. by apply (Hfresh n' Hin). }
  unfold Provider.update_node. pose proof (active_old a w (un_endpoint n) (un_tag n) Hok) as Hact.
  set (active := bool_decide _) in *. set (b := un_endpoint n) in *. set (t := un_tag n) in *.
  assert (Hcur : active = true -> get_node b t (pg_world g) = own b t w /\ is_Some (own b t w) /\ sel b (ad_byTag a) !! t = Some (own b t w)).
  { intros [c Hc]%Hact. destruct (old_own a w b t c Hok Hc) as [-> Hs]. split_and!; [|done|done]. destruct Hs as [o Ho].
    rewrite Ho. apply get_own. by rewrite Hown. }
  destruct (isnone (get_node b t (pg_world g)) || negb active || _) eqn:Hcond.
  - assert (Hun : ~ (is_Some (sel b (ad_byTag a) !! t) /\ sel b (ad_applied a) !! t = Some (un_option n))).
    { intros [Hs%Hact Ha]. destruct (Hcur Hs) as (Hg & [o Ho] & _). rewrite Hg, Ho, Hs, Happ, Ha in Hcond. cbn in Hcond.
      rewrite bool_decide_eq_true_2 in Hcond by done. done. }
    pose proof (replace_node_ok component_Start run IsClosed IsCanceled Errors Expand registry cancelled Errors_some registry_ok n (pg_world g) Hw) as Hrep.
    destruct (replace_node _ _ _ _ _ _ _ _ n (pg_world g)) as [[ran r] w']. destruct Hrep as (Hw' & Hnx' & Hother & Hr). fold b t in Hother, Hr.
    destruct r as [u|err].
    + destruct Hr as (o & Hreg & Ho). apply (pass_step a w done g n); [done..|cbn; lia|done| |]; cbn; fold b t.
      * intros b' t' Hne. by rewrite Hother, !sel_insert_ne.
      * right. left. split; [done|]. exists (wd_next (pg_world g)), o. rewrite !sel_insert_eq, Ho, (get_own b t w' o Ho). split; [lia|done].
    + apply (pass_step a w done g n); [done..|cbn; lia| | |]; cbn; fold b t.
      * intros _. assert (HE : Errors (Expand (pg_err g) ++ Expand (Some (ECause err t))) <> None) by (apply Errors_some; by right).
        by destruct (Errors _).
      * intros b' t' Hne. rewrite Hother by done. destruct active; [by rewrite sel_insert_ne|done].
      * right. right. split; [done|]. assert (HE : Errors (Expand (pg_err g) ++ Expand (Some (ECause err t))) <> None) by (apply Errors_some; by right).
        fold b t. rewrite Hr, Hown, Happ. split; [by destruct (Errors _)|]. split; [|done]. destruct active.
        -- destruct (Hcur eq_refl) as (Hg & _ & ->). by rewrite Hg, sel_insert_eq.
        -- rewrite Huse. destruct (sel b (ad_byTag a) !! t) as [c|] eqn:Hc; [|done]. assert (Hf : false = true) by (apply Hact; by eexists). done.
  - apply orb_false_iff in Hcond as [[Hi Hna]%orb_false_iff Hopt%negb_false_iff]. apply negb_false_iff in Hna. apply bool_decide_eq_true in Hopt.
    destruct (Hcur Hna) as (Hg & Hs & Hold). apply (pass_step a w done g n); [done..| |]; cbn; fold b t.
    + intros b' t' Hne. by rewrite sel_insert_ne.
    + left. assert (Ha : sel b (ad_applied a) !! t = Some (un_option n)).
      { rewrite Happ in Hopt. destruct (proj2 (po_applied a w Hok b t)) as [o Ho]; [|rewrite Ho in *; cbn in Hopt; by rewrite Hopt].
        apply (po_byTag a w Hok) in Hold as (o & _ & Ho & <-). by apply list_elem_of_fmap_2. }
      fold b t. rewrite sel_insert_eq, Hg, Hold, Hown, Happ. split_and!; [by eexists|done..].
Qed.

Lemma update_pass a w l : provider_ok a w -> NoDup (node_tags l) ->
  pass a w l (foldl (fun g node => update_node (activeTags false a, activeTags true a) node g) (mkProgress w [] (∅, ∅) (ad_applied a) None) l).
Proof.
  intros Hok. induction l as [|n l IH] using rev_ind; intros Hnd.
  - split; cbn; [apply Hok|done|by intros n Hn%not_elem_of_nil|]. intros b t _. by destruct b.
  - unfold node_tags in Hnd. rewrite map_app in Hnd. apply NoDup_app in Hnd as (Hnd & Hx & _). rewrite foldl_app. cbn.
    apply update_node_pass; [done|by apply IH|]. intros n' Hin Ht. apply (Hx (un_tag n')); [by apply list_elem_of_fmap_2|]. rewrite Ht. by left.
Qed.

(** ** A whole update *)

Lemma outcome_use a w n use has options failed next c : provider_ok a w -> outcome a w n use has options failed next -> use = Some c ->
  exists o, c = Some o /\ has = Some o /\ ob_Tag o = un_tag n /\ is_Some options.
Proof.
  intros Hok Hout ->. assert (Hold : sel (un_endpoint n) (ad_byTag a) !! un_tag n = Some c ->
    exists o, c = Some o /\ own (un_endpoint n) (un_tag n) w = Some o /\ ob_Tag o = un_tag n /\ is_Some (sel (un_endpoint n) (ad_applied a) !! un_tag n)).
  { intros Hc. pose proof (old_own a w _ _ c Hok Hc) as [-> _]. apply (po_byTag a w Hok) in Hc as (o & Ho & Hin & Ht).
    exists o. rewrite Ho. split_and!; [done..|]. apply (po_applied a w Hok). rewrite <- Ht. by apply list_elem_of_fmap_2. }
  destruct Hout as [(Hu & Huse & -> & ->)|[(_ & id & o & _ & Hr & Huse & -> & ->)|(_ & _ & Huse & -> & ->)]].
  - destruct Hold as (o & -> & -> & Ht & _); [done|]. exists o. split_and!; [done..|by eexists].
  - simplify_eq. exists o. split_and!; [done|done|by apply registry_ok in Hr as (_ & ? & _)|by eexists].
  - by apply Hold.
Qed.

(** What a provider has that the outcome of a node says nothing of was never there. *)
Lemma outcome_unused a w n has options failed next : provider_ok a w -> outcome a w n None has options failed next -> options = None.
Proof.
  intros Hok [([[c Hc] _] & Huse & _)|[(_ & id & o & _ & _ & Huse & _)|(_ & _ & Huse & _ & ->)]]; [congruence|done|].
  destruct (sel _ (ad_applied a) !! _) as [o|] eqn:Ho; [|done]. assert (Ht : un_tag n ∈ tags (sel (un_endpoint n) (ad_nodes a)))
    by (apply (po_applied a w Hok); by eexists). apply list_elem_of_fmap in Ht as (o' & Ht & Hin).
  rewrite (proj2 (po_byTag a w Hok (un_endpoint n) (un_tag n) (Some o'))) in Huse; [done|]. by exists o'.
Qed.

Lemma new_nodes_kind providerTag (outOpts epOpts : list (NodeOption P)) b t :
  t ∈ sel b (resolveOutboundTags providerTag outOpts, resolveEndpointTags providerTag epOpts) <->
  exists n, n ∈ new_nodes providerTag outOpts epOpts /\ un_endpoint n = b /\ un_tag n = t.
Proof.
  assert (Hkind : forall b' tags opts (n : updateNode P), n ∈ kind_nodes b' tags opts -> un_endpoint n = b').
  { intros b' tags. induction tags as [|x tags IH]; intros [|o opts] n; cbn; try by intros Hn%not_elem_of_nil.
    intros [->|Hn]%elem_of_cons; [done|by eapply IH]. }
  assert (Hsel : forall b', sel b' (resolveOutboundTags providerTag outOpts, resolveEndpointTags providerTag epOpts) =
    node_tags (kind_nodes b' (sel b' (resolveOutboundTags providerTag outOpts, resolveEndpointTags providerTag epOpts)) (sel b' (outOpts, epOpts)))).
  { intros b'. rewrite kind_tags; [done|]. destruct b'; apply resolve_loop_ok. }
  rewrite Hsel. unfold new_nodes. split.
  - intros (n & -> & Hn)%list_elem_of_fmap. exists n. split_and!; [|by eapply Hkind|done]. destruct b; set_solver.
  - intros (n & [Hn|Hn]%elem_of_app & Hb & <-); pose proof (Hkind _ _ _ _ Hn) as Hk; rewrite Hk in Hb; subst b; by apply list_elem_of_fmap_2.
Qed.

Lemma prune_lookup (byTag : gmap string (option Outbound)) (applied : gmap string (NodeOption P)) t :
  prune byTag applied !! t = match byTag !! t with Some _ => applied !! t | None => None end.
Proof.
  unfold prune. destruct (byTag !! t) as [c|] eqn:Hc.
  - destruct (applied !! t) as [o|] eqn:Ho.
    + apply map_lookup_filter_Some. split; [done|]. by eexists.
    + apply map_lookup_filter_None. by left.
  - apply map_lookup_filter_None. right. intros o _. rewrite Hc. by intros [??].
Qed.

Lemma in_order_elem (byTag : gmap string (option Outbound)) newTags o :
  o ∈ in_order byTag newTags <-> exists t, t ∈ newTags /\ byTag !! t = Some (Some o).
Proof.
  unfold in_order. rewrite list_elem_of_omap. split; intros (t & Ht & Hb); exists t; (split; [done|]).
  - by destruct (byTag !! t) as [[o'|]|]; simplify_eq/=.
  - by rewrite Hb.
Qed.

(** What an update leaves when it could be ordered. *)
Record updated a w (new : list (updateNode P)) (r : result unit) a' w' : Prop := mkUpdated {
  ud_ok : provider_ok a' w';
  ud_tag : ad_providerTag a' = ad_providerTag a;
  ud_nodes : forall n, n ∈ new ->
    outcome a w n (sel (un_endpoint n) (ad_byTag a') !! un_tag n) (own (un_endpoint n) (un_tag n) w')
      (sel (un_endpoint n) (ad_applied a') !! un_tag n) (negb (is_ok r)) (wd_next w');
  ud_rest : forall b t, (forall n, n ∈ new -> (un_endpoint n, un_tag n) <> (b, t)) ->
    sel b (ad_byTag a') !! t = None /\ own b t w' = if bool_decide (t ∈ tags (sel b (ad_nodes a))) then None else own b t w
}.

(** The nodes in use after a pass are those of the tables, and the managers have them. *)
Lemma pass_provider_ok a w new g w' providerTag (newTags : list string * list string) : provider_ok a w -> pass a w new g -> world_ok w' ->
  (forall b t, t ∈ sel b newTags <-> exists n, n ∈ new /\ un_endpoint n = b /\ un_tag n = t) ->
  (forall n, n ∈ new -> own (un_endpoint n) (un_tag n) w' = own (un_endpoint n) (un_tag n) (pg_world g)) ->
  provider_ok (mkAdapter providerTag (in_order (pg_byTag g).1 newTags.1, in_order (pg_byTag g).2 newTags.2) (pg_byTag g)
                 (prune (pg_byTag g).1 (pg_applied g).1, prune (pg_byTag g).2 (pg_applied g).2)) w'.
Proof.
  intros Hok Hp Hw' Htags Hown.
  assert (Huse : forall b t c, sel b (pg_byTag g) !! t = Some c -> exists o, c = Some o /\ t ∈ sel b newTags /\ own b t w' = Some o /\ ob_Tag o = t /\
    is_Some (sel b (pg_applied g) !! t)).
  { intros b t c Hc. destruct (decide (t ∈ sel b newTags)) as [Hin|Hnin].
    - pose proof Hin as (n & Hn & <- & <-)%Htags. pose proof (pa_done a w new g Hp n Hn) as Hout.
      destruct (outcome_use a w n _ _ _ _ _ c Hok Hout Hc) as (o & -> & Ho & Ht & Ha). exists o. rewrite Hown by done. done.
    - destruct (pa_rest a w new g Hp b t) as (_ & Hnone & _); [|congruence]. intros n Hn [= <- <-]. apply Hnin, Htags. by exists n. }
  assert (Hsel : forall b, sel b (in_order (pg_byTag g).1 newTags.1, in_order (pg_byTag g).2 newTags.2) = in_order (sel b (pg_byTag g)) (sel b newTags)) by (by intros []).
  assert (Happ : forall b, sel b (prune (pg_byTag g).1 (pg_applied g).1, prune (pg_byTag g).2 (pg_applied g).2) = prune (sel b (pg_byTag g)) (sel b (pg_applied g))) by (by intros []).
  assert (Hby : forall b t c, sel b (pg_byTag g) !! t = Some c <-> exists o, c = Some o /\ o ∈ in_order (sel b (pg_byTag g)) (sel b newTags) /\ ob_Tag o = t).
  { intros b t c. split.
    - intros Hc. destruct (Huse b t c Hc) as (o & -> & Ht & _ & Ho & _). exists o. split_and!; [done| |done]. apply in_order_elem. by exists t.
    - intros (o & -> & (t' & Ht' & Hc)%in_order_elem & Ht). by destruct (Huse b t' _ Hc) as (o' & [= <-] & _ & _ & Ho & _); simplify_eq. }
  split; cbn; [done| | |].
  - intros b o. rewrite Hsel. intros Ho. assert (Hc : sel b (pg_byTag g) !! ob_Tag o = Some (Some o)) by (apply Hby; by exists o).
    by destruct (Huse b _ _ Hc) as (o' & [= <-] & _ & Hw & _).
  - intros b t c. rewrite Hsel. apply Hby.
  - intros b t. rewrite Hsel, Happ, prune_lookup. split.
    + intros Hs. destruct (sel b (pg_byTag g) !! t) as [c|] eqn:Hc; [|by destruct Hs]. apply Hby in Hc as (o & _ & Ho & <-). by apply list_elem_of_fmap_2.
    + intros (o & -> & Ho)%list_elem_of_fmap. assert (Hc : sel b (pg_byTag g) !! ob_Tag o = Some (Some o)) by (apply Hby; by exists o).
      rewrite Hc. by destruct (Huse b _ _ Hc) as (_ & _ & _ & _ & _ & ?).
Qed.

#[local] Abbreviation UpdateNodes := (UpdateNodes component_Start run IsClosed IsCanceled Errors Expand registry cancelled).

Lemma pass_perm a w l l' g : pass a w l g -> l ≡ₚ l' -> pass a w l' g.
Proof.
  intros [Hw Hn Hd Hr] Hp. split; [done|done| |].
  - intros n Hn'. apply Hd. by rewrite Hp.
  - intros b t Hne. apply Hr. intros n Hn'. apply Hne. by rewrite <- Hp.
Qed.

Lemma UpdateNodes_ok a w outOpts epOpts : provider_ok a w ->
  let new := new_nodes (ad_providerTag a) outOpts epOpts in
  let '(ran, r, a', w') := UpdateNodes outOpts epOpts a w in
  (possible (provider_found w) (provider_owns a) new /\ updated a w new r a' w') \/
  (~ possible (provider_found w) (provider_owns a) new /\ (exists e, r = Err e) /\ ran = [] /\ a' = a /\ w' = w).
Proof.
  intros Hok new. pose proof (order_nodes_ok a w outOpts epOpts) as Hord. cbn zeta in Hord. fold new in Hord. unfold Provider.UpdateNodes.
  set (outTags := resolveOutboundTags _ _) in *. set (epTags := resolveEndpointTags _ _) in *.
  destruct (order_nodes outTags epTags outOpts epOpts a w) as [ordered|e]; [|right; split_and!; [done|by eexists|done..]].
  destruct Hord as [Hposs [Hperm _]].
  assert (Hp : pass a w new (foldl (fun g node => update_node (activeTags false a, activeTags true a) node g) (mkProgress w [] (∅, ∅) (ad_applied a) None) ordered)).
  { eapply pass_perm; [|done]. apply update_pass; [done|]. unfold node_tags. rewrite Hperm. apply Hposs. }
  set (g := foldl _ _ ordered) in *. clearbody g.
  assert (Htags : forall b t, t ∈ sel b (outTags, epTags) <-> exists n, n ∈ new /\ un_endpoint n = b /\ un_tag n = t) by apply new_nodes_kind.
  pose proof (remove_useless_ok component_Start run IsClosed IsCanceled Errors Expand false (list_to_set outTags) (ad_nodes a).1 (pg_world g) (pa_world a w new g Hp)) as Hr1.
  destruct (remove_useless _ _ _ _ _ false _ _ (pg_world g)) as [ran1 w1]. destruct Hr1 as (Hw1 & Hn1 & Hgone1 & Hkeep1).
  pose proof (remove_useless_ok component_Start run IsClosed IsCanceled Errors Expand true (list_to_set epTags) (ad_nodes a).2 w1 Hw1) as Hr2.
  destruct (remove_useless _ _ _ _ _ true _ _ w1) as [ran2 w2]. destruct Hr2 as (Hw2 & Hn2 & Hgone2 & Hkeep2).
  assert (Hfin : forall b t, own b t w2 = if bool_decide (t ∈ tags (sel b (ad_nodes a))) && negb (bool_decide (t ∈ sel b (outTags, epTags)))
    then None else own b t (pg_world g)).
  { intros b t. destruct (bool_decide (t ∈ tags _) && _) eqn:Hc.
    - apply andb_true_iff in Hc as [Ht%bool_decide_eq_true Hn%negb_true_iff%bool_decide_eq_false]. destruct b; cbn in Ht, Hn.
      + apply Hgone2; [done|]. by rewrite elem_of_list_to_set.
      + rewrite Hkeep2 by done. apply Hgone1; [done|]. by rewrite elem_of_list_to_set.
    - assert (Hor : t ∉ tags (sel b (ad_nodes a)) \/ t ∈ sel b (outTags, epTags)).
      { apply andb_false_iff in Hc as [?%bool_decide_eq_false|?%negb_false_iff%bool_decide_eq_true]; auto. }
      rewrite Hkeep2, Hkeep1; [done| |]; intros ->; cbn in Hor; by rewrite elem_of_list_to_set. }
  assert (Hnew : forall n, n ∈ new -> own (un_endpoint n) (un_tag n) w2 = own (un_endpoint n) (un_tag n) (pg_world g)).
  { intros n Hn. rewrite Hfin, (bool_decide_eq_true_2 (un_tag n ∈ sel (un_endpoint n) (outTags, epTags))) by (apply Htags; by exists n). by rewrite andb_false_r. }
  left. split; [done|]. split; [by apply (pass_provider_ok a w new g w2 _ (outTags, epTags))|done| |]; cbn.
  - intros n Hn. pose proof (pa_done a w new g Hp n Hn) as Hout. rewrite Hnew by done.
    assert (Happ : sel (un_endpoint n) (prune (pg_byTag g).1 (pg_applied g).1, prune (pg_byTag g).2 (pg_applied g).2) !! un_tag n =
      sel (un_endpoint n) (pg_applied g) !! un_tag n).
    { transitivity (prune (sel (un_endpoint n) (pg_byTag g)) (sel (un_endpoint n) (pg_applied g)) !! un_tag n); [by destruct (un_endpoint n)|].
      rewrite prune_lookup. destruct (sel _ (pg_byTag g) !! un_tag n); [done|]. symmetry. by eapply outcome_unused. }
    rewrite Happ. eapply outcome_later; [done| |lia]. by destruct (pg_err g).
  - intros b t Hne. destruct (pa_rest a w new g Hp b t Hne) as (Hown & Hnone & _). split; [done|].
    rewrite Hfin, Hown, (bool_decide_eq_false_2 (t ∈ sel b (outTags, epTags))); [by rewrite andb_true_r|].
    intros (n & Hn & <- & <-)%Htags. by apply (Hne n).
Qed.

(** ** Updates one after the other *)

Lemma new_provider_ok providerTag w : world_ok w -> provider_ok (NewAdapter providerTag) w.
Proof.
  intros Hw. split; [done|..].
  - intros [] o Ho; by apply not_elem_of_nil in Ho.
  - intros b t c. assert (Hs : sel b (ad_byTag (NewAdapter (P := P) providerTag)) = ∅) by (by destruct b). rewrite Hs, lookup_empty.
    split; [done|]. intros (o & _ & Ho & _). destruct b; by apply not_elem_of_nil in Ho.
  - intros b t. assert (Hs : sel b (ad_applied (NewAdapter (P := P) providerTag)) = ∅) by (by destruct b). rewrite Hs, lookup_empty.
    split; [by intros [??]|]. destruct b; by intros Ho%not_elem_of_nil.
Qed.

(** What happens to a provider: an update, or something else that leaves its nodes alone. *)
Inductive provider_step : Adapter P * World A -> Adapter P * World A -> Prop :=
| step_update outOpts epOpts a w ran r a' w' :
    UpdateNodes outOpts epOpts a w = (ran, r, a', w') -> provider_step (a, w) (a', w')
| step_other a w w' :
    world_ok w' -> (forall b t, t ∈ tags (sel b (ad_nodes a)) -> own b t w' = own b t w) -> provider_step (a, w) (a, w').

Lemma step_provider_ok a w a' w' : provider_ok a w -> provider_step (a, w) (a', w') -> provider_ok a' w'.
Proof.
  intros Hok Hs. inversion Hs as [outOpts epOpts ? ? ran r ? ? Hu|? ? ? Hw' Hown]; subst.
  - pose proof (UpdateNodes_ok a w outOpts epOpts Hok) as H. rewrite Hu in H. destruct H as [[_ H]|(_ & _ & _ & -> & ->)]; [by apply (ud_ok a w _ _ _ _ H)|done].
  - destruct Hok as [_ Ho Hb Ha]. split; [done| |done|done]. intros b o Hin. rewrite Hown by (by apply list_elem_of_fmap_2). by apply Ho.
Qed.

Lemma reachable_provider_ok providerTag w0 a w : world_ok w0 -> rtc provider_step (NewAdapter providerTag, w0) (a, w) -> provider_ok a w.
Proof.
  intros Hw0 Hr. remember (NewAdapter providerTag, w0) as x eqn:Hx. remember (a, w) as y eqn:Hy.
  assert (Hi : provider_ok x.1 x.2) by (subst; by apply new_provider_ok). clear Hx. revert Hi.
  induction Hr as [|[a1 w1] [a2 w2] y H12 _ IH]; intros Hi; [by subst|]. apply IH; [done|]. by eapply step_provider_ok.
Qed.

(** Several updates. *)
Fixpoint update_all (updates : list (list (NodeOption P) * list (NodeOption P))) a w : Adapter P * World A :=
  match updates with
  | [] => (a, w)
  | (outOpts, epOpts) :: rest => let '(_, _, a', w') := UpdateNodes outOpts epOpts a w in update_all rest a' w'
  end.

(** What the provider has is named after it, and the rest is as it was. *)
Definition apart (w0 : World A) a w : Prop :=
  provider_ok a w /\ (forall b t, t ∉ tags (sel b (ad_nodes a)) -> own b t w = own b t w0) /\
  (forall b t, t ∈ tags (sel b (ad_nodes a)) -> exists s, t = ad_providerTag a +:+ "/" +:+ s).

Lemma used_tags a w b t : provider_ok a w -> t ∈ tags (sel b (ad_nodes a)) <-> is_Some (sel b (ad_byTag a) !! t).
Proof.
  intros Hok. split.
  - intros (o & -> & Ho)%list_elem_of_fmap. exists (Some o). apply (po_byTag a w Hok). by exists o.
  - intros [c (o & _ & Ho & <-)%(po_byTag a w Hok)]. by apply list_elem_of_fmap_2.
Qed.

Lemma apart_update w0 a w outOpts epOpts ran r a' w' : (forall b s, own b (ad_providerTag a +:+ "/" +:+ s) w0 = None) -> apart w0 a w ->
  UpdateNodes outOpts epOpts a w = (ran, r, a', w') -> ad_providerTag a' = ad_providerTag a /\ apart w0 a' w'.
Proof.
  intros Hfree (Hok & Hrest & Hname) Hu. pose proof (UpdateNodes_ok a w outOpts epOpts Hok) as H. rewrite Hu in H.
  destruct H as [[_ [Hok' Htag Hnodes Hgone]]|(_ & _ & _ & -> & ->)]; [|done]. set (new := new_nodes _ _ _) in *. split; [done|].
  assert (Hin : forall b t, (exists n, n ∈ new /\ un_endpoint n = b /\ un_tag n = t) \/ forall n, n ∈ new -> (un_endpoint n, un_tag n) <> (b, t)).
  { intros b t. destruct (decide (t ∈ sel b (resolveOutboundTags (ad_providerTag a) outOpts, resolveEndpointTags (ad_providerTag a) epOpts))) as [Ht|Ht].
    - left. by apply new_nodes_kind.
    - right. intros n Hn [= <- <-]. apply Ht, new_nodes_kind. by exists n. }
  split; [done|]. split.
  - intros b t Ht. assert (Hnone : sel b (ad_byTag a') !! t = None).
    { destruct (sel b (ad_byTag a') !! t) eqn:Hc; [|done]. exfalso. apply Ht, (used_tags a' w' b t Hok'). by eexists. }
    destruct (Hin b t) as [(n & Hn & <- & <-)|Hne].
    + pose proof (Hnodes n Hn) as Hout. rewrite Hnone in Hout.
      destruct Hout as [([[c Hc] _] & Huse & _)|[(_ & id & o & _ & _ & Huse & _)|(_ & _ & Huse & Hown & _)]]; [congruence|done|].
      rewrite Hown. apply Hrest. rewrite (used_tags a w _ _ Hok), <- Huse. by intros [??].
    + destruct (Hgone b t Hne) as [_ ->]. case_bool_decide as Hb; [|by apply Hrest]. destruct (Hname b t Hb) as [s ->]. by rewrite Hfree.
  - intros b t Ht%(used_tags a' w' b t Hok'). destruct (Hin b t) as [Hn|Hne]; [|destruct (Hgone b t Hne) as [Hnone _]; rewrite Hnone in Ht; by destruct Ht].
    apply new_nodes_kind in Hn. rewrite Htag. destruct b; eapply resolve_loop_prefix; try exact Hn; by eexists.
Qed.

Lemma apart_all w0 updates a w a' w' : (forall b s, own b (ad_providerTag a +:+ "/" +:+ s) w0 = None) -> apart w0 a w ->
  update_all updates a w = (a', w') -> ad_providerTag a' = ad_providerTag a /\ apart w0 a' w'.
Proof.
  revert a w. induction updates as [|[outOpts epOpts] updates IH]; intros a w Hfree Hap; cbn; [by intros [= <- <-]|].
  destruct (UpdateNodes outOpts epOpts a w) as [[[ran r] a1] w1] eqn:Hu. destruct (apart_update w0 a w outOpts epOpts ran r a1 w1 Hfree Hap Hu) as [Ht Hap1].
  intros Hrest. destruct (IH a1 w1) as [Ht' Hap']; [by rewrite Ht|done|done|]. split; [congruence|done].
Qed.

Lemma apart_close w0 a w : (forall b s, own b (ad_providerTag a +:+ "/" +:+ s) w0 = None) -> apart w0 a w ->
  let '(_, _, a', w') := Adapter_Close run IsClosed IsCanceled Errors Expand a w in
  Outbounds a' = [] /\ world_ok w' /\ forall b t, own b t w' = own b t w0.
Proof.
  intros Hfree (Hok & Hrest & Hname). unfold Adapter_Close.
  pose proof (close_nodes_ok component_Start run IsClosed IsCanceled Errors Expand false (ad_nodes a).1 None w (po_world a w Hok)) as H1.
  destruct (close_nodes _ _ _ _ _ false _ _ w) as [[ran1 e1] w1]. destruct H1 as (Hw1 & _ & Hgone1 & Hkeep1).
  pose proof (close_nodes_ok component_Start run IsClosed IsCanceled Errors Expand true (ad_nodes a).2 e1 w1 Hw1) as H2.
  destruct (close_nodes _ _ _ _ _ true _ _ w1) as [[ran2 e2] w2]. destruct H2 as (Hw2 & _ & Hgone2 & Hkeep2).
  split_and!; [done|done|]. intros b t. destruct (decide (t ∈ tags (sel b (ad_nodes a)))) as [Ht|Ht].
  - destruct (Hname b t Ht) as [s Hs]. rewrite Hs at 2. rewrite Hfree. destruct b; [by apply Hgone2|]. rewrite Hkeep2 by done. by apply Hgone1.
  - rewrite <- Hrest by done. rewrite Hkeep2, Hkeep1; [done|..]; by intros ->.
Qed.
End update.
