(* ===== verification/Group.v ===== *)
(** * Groups of outbounds

    [src/protocol/group]: the members that providers give to a group
    ([provider_members.go]), the selector ([selector.go]) and the choice of the fastest
    member ([urltest.go]).  An outbound is compared by its identity. *)

From stdpp Require Import base gmap strings list pretty.
From Stdlib Require Import ZArith Lia.
From S2P Require Import Prelude Lifecycle StartOrder.

Open Scope Z_scope.

(** What a group asks of other outbounds: the networks they take, and of groups the member
    selected for a network.  A load-balance group has members and no selection. *)
Class GroupInterfaces : Type := {
  gi_Network : Outbound -> list string;
  gi_Selected : Outbound -> option (string -> option Outbound);
  gi_LoadBalance : Outbound -> option (list string)
}.

(** ** Members from providers *)

Section members.
(** The lookup in the outbound manager, and what the providers have at the moment. *)
Context (Outbound_of : string -> option Outbound) (providers : gmap string (list Outbound)).
Context (exclude include : option (string -> bool)).

Fixpoint collect_direct (i : Z) (directTags : list string) : result (list Outbound) :=
  match directTags with
  | [] => Ok []
  | tag :: rest =>
      match Outbound_of tag with
      | None => Err (ENew ("outbound " +:+ pretty i +:+ " not found: " +:+ tag))
      | Some detour => try l <- collect_direct (i + 1) rest; Ok (detour :: l)
      end
  end.

Definition wanted (detour : Outbound) : bool :=
  negb (match exclude with Some f => f (ob_Tag detour) | None => false end) &&
  match include with Some f => f (ob_Tag detour) | None => true end.

(** The loop over the providers: the members it adds, and the cache. *)
Fixpoint collect_providers (updatedTag : string) (providerTags : list string) (cache : gmap string (list Outbound))
    : result (list Outbound * gmap string (list Outbound)) :=
  match providerTags with
  | [] => Ok ([], cache)
  | providerTag :: rest =>
      match (if bool_decide (providerTag = updatedTag) then None else cache !! providerTag) with
      | Some cachedOutbounds =>
          try r <- collect_providers updatedTag rest cache; Ok (cachedOutbounds ++ r.1, r.2)
      | None =>
          match providers !! providerTag with
          | None => Err (ENew ("outbound provider not found: " +:+ providerTag))
          | Some outbounds =>
              let cachedOutbounds := List.filter wanted outbounds in
              try r <- collect_providers updatedTag rest (<[providerTag := cachedOutbounds]> cache);
              Ok (cachedOutbounds ++ r.1, r.2)
          end
      end
  end.

Definition collectProviderOutbounds (updatedTag : string) (directTags providerTags : list string) (outboundsCache : gmap string (list Outbound))
    : result (list string * list Outbound * gmap string (list Outbound)) :=
  if negb (nonnone (providers !! updatedTag)) then Err (ENew ("outbound provider not found: " +:+ updatedTag))
  else
    try direct <- collect_direct 0 directTags;
    try r <- collect_providers updatedTag providerTags outboundsCache;
    let members := directTags ++ map ob_Tag r.1 in
    match members with
    | [] =>
        match Outbound_of "Compatible" with
        | None => Err (ENew "fallback outbound not found: Compatible")
        | Some detour => Ok ([ob_Tag detour], [detour], r.2)
        end
    | _ => Ok (members, direct ++ r.1, r.2)
    end.
End members.

(** [providerUpdateCheckScheduler]: whether a check runs, and whether another is due. *)
Record Scheduler : Type := mkScheduler { sd_running : bool; sd_pending : bool }.

(** [Schedule], up to where the goroutine is started. *)
Definition Schedule (c : Scheduler) : bool * Scheduler :=
  (negb (sd_running c), mkScheduler true true).

Definition check_begins (c : Scheduler) : Scheduler := mkScheduler (sd_running c) false.

(** After a check: whether there is another round. *)
Definition check_ends (c : Scheduler) : bool * Scheduler :=
  if negb (sd_pending c) then (false, mkScheduler false false) else (true, c).

(** ** The selector *)

(** The selection that is saved in the cache file. *)
Class SelectedStore (F : Type) : Type := {
  LoadSelected : string -> F -> string;
  StoreSelected : string -> string -> F -> F
}.

Record Selector : Type := mkSelector {
  sl_Tag : string;
  sl_Dependencies : list string;
  sl_tags : list string;
  sl_defaultTag : string;
  sl_outbounds : gmap string Outbound;
  sl_selected : option Outbound;
  sl_providerTags : list string;
  sl_useAllProviders : bool;
  sl_outboundsCache : gmap string (list Outbound);
  sl_exclude : option (string -> bool);
  sl_include : option (string -> bool)
}.

Definition NewSelector (tag : string) (outbounds : list string) (default : string) (providerTags : list string) (useAll : bool)
    (exclude include : option (string -> bool)) : Selector :=
  mkSelector tag outbounds outbounds default ∅ None providerTags useAll ∅ exclude include.

Section selector.
Context {F : Type} `{SelectedStore F}.
Context (Outbound_of : string -> option Outbound).
Implicit Types (s : Selector) (cacheFile : option F).

Definition outboundSelect cacheFile (outbounds : gmap string Outbound) (tags : list string) s : result (option Outbound) :=
  let stored := match cacheFile with
                | Some f => if empty_string (sl_Tag s) then "" else LoadSelected (sl_Tag s) f
                | None => ""
                end in
  match (if empty_string stored then None else outbounds !! stored) with
  | Some detour => Ok (Some detour)
  | None =>
      match (previous ← sl_selected s; outbounds !! ob_Tag previous) with
      | Some current => Ok (Some current)
      | None =>
          if negb (empty_string (sl_defaultTag s)) then
            match outbounds !! sl_defaultTag s with
            | Some detour => Ok (Some detour)
            | None => Err (ENew ("default outbound not found: " +:+ sl_defaultTag s))
            end
          else
            match tags with
            | [] => Err (EPanic "index out of range")
            | tag :: _ => Ok (outbounds !! tag)
            end
      end
  end.

Definition by_tag (l : list Outbound) : gmap string Outbound := foldl (fun m o => <[ob_Tag o := o]> m) ∅ l.

Definition with_members (tags : list string) (outbounds : gmap string Outbound) (selected : option Outbound) s : Selector :=
  mkSelector (sl_Tag s) (sl_Dependencies s) tags (sl_defaultTag s) outbounds selected (sl_providerTags s) (sl_useAllProviders s)
    (sl_outboundsCache s) (sl_exclude s) (sl_include s).

Definition with_providers (providerTags : list string) s : Selector :=
  mkSelector (sl_Tag s) (sl_Dependencies s) (sl_tags s) (sl_defaultTag s) (sl_outbounds s) (sl_selected s) providerTags
    (sl_useAllProviders s) (sl_outboundsCache s) (sl_exclude s) (sl_include s).

Definition with_cache (cache : gmap string (list Outbound)) s : Selector :=
  mkSelector (sl_Tag s) (sl_Dependencies s) (sl_tags s) (sl_defaultTag s) (sl_outbounds s) (sl_selected s) (sl_providerTags s)
    (sl_useAllProviders s) cache (sl_exclude s) (sl_include s).

(** The first provider that the manager does not have. *)
Fixpoint missing_provider (has : string -> bool) (i : Z) (tags : list string) : option error :=
  match tags with
  | [] => None
  | tag :: rest =>
      if has tag then missing_provider has (i + 1) rest
      else Some (ENew ("outbound provider " +:+ pretty i +:+ " not found: " +:+ tag))
  end.

(** [Start] in the start stage; [allProviders] are the tags of all providers in order.  The
    members of the manager are those under the tags that the group depends on. *)
Definition Selector_Start cacheFile (allProviders : list string) s : result unit * Selector :=
  match (if sl_useAllProviders s then None
         else missing_provider (fun tag => bool_decide (tag ∈ allProviders)) 0 (sl_providerTags s)) with
  | Some err => (Err err, s)
  | None =>
      let s1 := if sl_useAllProviders s then with_providers allProviders s else s in
      if (length (sl_Dependencies s1) + length (sl_providerTags s1) =? 0)%nat then (Err (ENew "missing outbound and provider tags"), s1)
      else
        let members :=
          try direct <- collect_direct Outbound_of 0 (sl_Dependencies s1);
          match sl_Dependencies s1 with
          | [] =>
              match Outbound_of "Compatible" with
              | None => Err (ENew "fallback outbound not found: Compatible")
              | Some detour => Ok ([ob_Tag detour], <[ob_Tag detour := detour]> ∅)
              end
          | tags => Ok (tags, foldl (fun m '(tag, o) => <[tag := o]> m) ∅ (zip tags direct))
          end in
        match members with
        | Err err => (Err err, s1)
        | Ok (tags, outbounds) =>
            match outboundSelect cacheFile outbounds tags s1 with
            | Err err => (Err err, s1)
            | Ok selected => (Ok tt, with_members tags outbounds selected s1)
            end
        end
  end.

(** [SelectOutbound]: what it returns, whether connections are interrupted. *)
Definition SelectOutbound (tag : string) (s : Selector) cacheFile : bool * bool * Selector * option F :=
  match sl_outbounds s !! tag with
  | None => (false, false, s, cacheFile)
  | Some detour =>
      let s' := with_members (sl_tags s) (sl_outbounds s) (Some detour) s in
      if bool_decide (sl_selected s = Some detour) then (true, false, s', cacheFile)
      else (true, true, s', if empty_string (sl_Tag s) then cacheFile else option_map (StoreSelected (sl_Tag s) tag) cacheFile)
  end.

(** [onProviderUpdated]: the error, whether connections are interrupted. *)
Definition Selector_onProviderUpdated cacheFile (providers : gmap string (list Outbound)) (tag : string) s : result unit * bool * Selector :=
  match collectProviderOutbounds Outbound_of providers (sl_exclude s) (sl_include s) tag (sl_Dependencies s) (sl_providerTags s) (sl_outboundsCache s) with
  | Err err => (Err (ECause err (sl_Tag s)), false, s)
  | Ok (tags, outbounds, outboundsCache) =>
      let outboundByTag := by_tag outbounds in
      match outboundSelect cacheFile outboundByTag tags s with
      | Err err => (Err err, false, s)
      | Ok detour =>
          let s' := with_cache outboundsCache (with_members tags outboundByTag detour s) in
          (Ok tt, negb (bool_decide (sl_selected s = detour)), s')
      end
  end.
End selector.

(** ** Delays *)

Record URLTestHistory : Type := mkHistory { uh_Time : Z; uh_Delay : Z }.

Definition HistoryStorage : Type := gmap string URLTestHistory.

Section realtag.
Context `{GroupInterfaces}.

(** [RealTag]; a group that is not a load-balance group is followed. *)
Fixpoint RealTag (fuel : nat) (detour : Outbound) (network : string) : string :=
  match fuel with
  | O => ""
  | S fuel' =>
      if nonnone (gi_LoadBalance detour) then ob_Tag detour
      else
        match gi_Selected detour with
        | None => ob_Tag detour
        | Some selected =>
            match selected network with
            | None => ""
            | Some next => RealTag fuel' next network
            end
        end
  end.
End realtag.

(** ** The fastest member *)

Record URLTestGroup : Type := mkURLTestGroup {
  ug_outbounds : list Outbound;
  ug_tolerance : Z;
  ug_fallback_enabled : bool;
  ug_fallback_maxDelay : Z;
  ug_selectedOutboundTCP : option Outbound;
  ug_selectedOutboundUDP : option Outbound
}.

Definition NetworkTCP : string := "tcp".
Definition NetworkUDP : string := "udp".

Section urltest.
Context `{GroupInterfaces}.
(** The number of groups that can be selected one in the other. *)
Context (depth : nat).
Implicit Types (g : URLTestGroup) (history : HistoryStorage).

Definition load_delay (network : string) history (detour : Outbound) : option Z :=
  option_map uh_Delay (history !! RealTag depth detour network).

Definition takes (network : string) (detour : Outbound) : bool := bool_decide (network ∈ gi_Network detour).

(** The best so far, and the best of those above the limit of a fallback group. *)
Record Choice : Type := mkChoice {
  ch_minDelay : Z;
  ch_minOutbound : option Outbound;
  ch_ignoredDelay : Z;
  ch_ignored : option Outbound
}.

Fixpoint select_loop (network : string) history g (outbounds : list Outbound) (c : Choice) : Choice :=
  match outbounds with
  | [] => c
  | detour :: rest =>
      if negb (takes network detour) then select_loop network history g rest c
      else
        match load_delay network history detour with
        | None => select_loop network history g rest c
        | Some delay =>
            if ug_fallback_enabled g && (0 <? ug_fallback_maxDelay g) && (ug_fallback_maxDelay g <? delay) then
              if (ch_ignoredDelay c =? 0) || (delay <? ch_ignoredDelay c)
              then select_loop network history g rest (mkChoice (ch_minDelay c) (ch_minOutbound c) delay (Some detour))
              else select_loop network history g rest c
            else
              let chosen := mkChoice delay (Some detour) (ch_ignoredDelay c) (ch_ignored c) in
              if ug_fallback_enabled g then (if delay =? 0 then select_loop network history g rest chosen else chosen)
              else if (ch_minDelay c =? 0) || (wrap 16 (delay + ug_tolerance g) <? ch_minDelay c)
              then select_loop network history g rest chosen
              else select_loop network history g rest c
        end
  end.

Definition selected_for (network : string) g : option Outbound :=
  if bool_decide (network = NetworkTCP) then ug_selectedOutboundTCP g
  else if bool_decide (network = NetworkUDP) then ug_selectedOutboundUDP g
  else None.

(** Where the search starts: the member in use, if its delay is known. *)
Definition initial_choice (network : string) history g : Choice :=
  match (if ug_fallback_enabled g then None else selected_for network g) with
  | Some selectedOutbound =>
      match load_delay network history selectedOutbound with
      | Some delay => mkChoice delay (Some selectedOutbound) 0 None
      | None => mkChoice 0 None 0 None
      end
  | None => mkChoice 0 None 0 None
  end.

Definition URLTestGroup_Select (network : string) history g : option Outbound * bool :=
  let c := select_loop network history g (ug_outbounds g) (initial_choice network history g) in
  match ch_minOutbound c with
  | Some minOutbound => (Some minOutbound, true)
  | None =>
      match ch_ignored c with
      | Some ignored => (Some ignored, true)
      | None => (List.find (takes network) (ug_outbounds g), false)
      end
  end.

Definition set_selected (network : string) (o : option Outbound) g : URLTestGroup :=
  mkURLTestGroup (ug_outbounds g) (ug_tolerance g) (ug_fallback_enabled g) (ug_fallback_maxDelay g)
    (if bool_decide (network = NetworkTCP) then o else ug_selectedOutboundTCP g)
    (if bool_decide (network = NetworkUDP) then o else ug_selectedOutboundUDP g).

(** One of the two halves of [performUpdateCheck]: whether a selection was replaced, whether
    one was made. *)
Definition update_check (network : string) history g : bool * bool * URLTestGroup :=
  let '(outbound, exists_) := URLTestGroup_Select network history g in
  let current := selected_for network g in
  if nonnone outbound && (isnone current || exists_ && negb (bool_decide (outbound = current)))
  then (nonnone current, true, set_selected network outbound g)
  else (false, false, g).

Definition performUpdateCheck history g : bool * bool * URLTestGroup :=
  let '(updated, selected, g1) := update_check NetworkTCP history g in
  let '(updated', selected', g2) := update_check NetworkUDP history g1 in
  (updated || updated', selected || selected', g2).

Definition containsOutbound (outbounds : list Outbound) (selected : option Outbound) : bool :=
  match selected with None => true | Some o => bool_decide (o ∈ outbounds) end.

Definition drop_selected (network : string) (outbounds : list Outbound) g : URLTestGroup :=
  if containsOutbound outbounds (selected_for network g) then g else set_selected network None g.

Definition fill_selected (network : string) history g : URLTestGroup :=
  match selected_for network g with
  | Some _ => g
  | None => match (URLTestGroup_Select network history g).1 with Some o => set_selected network (Some o) g | None => g end
  end.

Definition storeOutbounds (outbounds : list Outbound) g : URLTestGroup :=
  mkURLTestGroup outbounds (ug_tolerance g) (ug_fallback_enabled g) (ug_fallback_maxDelay g)
    (ug_selectedOutboundTCP g) (ug_selectedOutboundUDP g).

Definition replaced (before after : option Outbound) : bool := nonnone before && negb (bool_decide (after = before)).

(** [replaceOutbounds]: whether connections are interrupted, and the group. *)
Definition replaceOutbounds (outbounds : list Outbound) history g : bool * URLTestGroup :=
  let g1 := drop_selected NetworkUDP outbounds (drop_selected NetworkTCP outbounds (storeOutbounds outbounds g)) in
  let g2 := fill_selected NetworkUDP history (fill_selected NetworkTCP history g1) in
  (replaced (ug_selectedOutboundTCP g) (ug_selectedOutboundTCP g2) || replaced (ug_selectedOutboundUDP g) (ug_selectedOutboundUDP g2), g2).
End urltest.
