(* ===== verification/GroupOk.v ===== *)
(** * What groups choose

    The choice of the fastest member within the tolerance, the choice of a fallback group,
    and the selections that stay among the members. *)

From stdpp Require Import base gmap strings list pretty.
From Stdlib Require Import ZArith Lia.
From S2P Require Import Prelude Lifecycle StartOrder Group.

Open Scope Z_scope.

Section urltest.
Context `{GroupInterfaces} (depth : nat).
Implicit Types (g : URLTestGroup) (history : HistoryStorage) (o : Outbound).

(** The members that take the network and whose delay is known, with their delays. *)
Definition measured (network : string) history (l : list Outbound) : list (Outbound * Z) :=
  omap (fun o => if takes network o then option_map (pair o) (load_delay depth network history o) else None) l.

(** The loop over these. *)
Fixpoint pick g (l : list (Outbound * Z)) (c : Choice) : Choice :=
  match l with
  | [] => c
  | (detour, delay) :: rest =>
      if ug_fallback_enabled g && (0 <? ug_fallback_maxDelay g) && (ug_fallback_maxDelay g <? delay) then
        if (ch_ignoredDelay c =? 0) || (delay <? ch_ignoredDelay c)
        then pick g rest (mkChoice (ch_minDelay c) (ch_minOutbound c) delay (Some detour))
        else pick g rest c
      else
        let chosen := mkChoice delay (Some detour) (ch_ignoredDelay c) (ch_ignored c) in
        if ug_fallback_enabled g then (if delay =? 0 then pick g rest chosen else chosen)
        else if (ch_minDelay c =? 0) || (wrap 16 (delay + ug_tolerance g) <? ch_minDelay c) then pick g rest chosen
        else pick g rest c
  end.

Lemma select_loop_pick network history g l c : select_loop depth network history g l c = pick g (measured network history l) c.
Proof.
  revert c. induction l as [|o l IH]; intros c; [done|]. cbn. destruct (takes network o); cbn; [|done].
  destruct (load_delay depth network history o) as [d|]; cbn; [|done]. repeat case_match; done.
Qed.

Lemma measured_elem network history l o d : (o, d) ∈ measured network history l <->
  o ∈ l /\ takes network o = true /\ load_delay depth network history o = Some d.
Proof.
  unfold measured. rewrite list_elem_of_omap. split.
  - intros (o' & Hin & Heq). destruct (takes network o') eqn:Ht; [|done]. destruct (load_delay _ _ _ o') eqn:Hd; cbn in Heq; by simplify_eq.
  - intros (Hin & Ht & Hd). exists o. by rewrite Ht, Hd.
Qed.

(** ** The fastest member *)

(** Delays that are not 0 and can be compared within the width of a delay. *)
Definition comparable (tolerance : Z) (l : list (Outbound * Z)) : Prop :=
  forall o d, (o, d) ∈ l -> 0 < d /\ d + tolerance < 2 ^ 16.

(** What a choice was made of: nothing, or an outbound with a delay. *)
Definition choice_ok (c : Choice) : Prop := match ch_minOutbound c with None => ch_minDelay c = 0 | Some _ => 0 < ch_minDelay c end.

Lemma pick_fastest g l c : ug_fallback_enabled g = false -> 0 <= ug_tolerance g -> comparable (ug_tolerance g) l -> choice_ok c ->
  let c' := pick g l c in
  choice_ok c' /\ ch_ignored c' = ch_ignored c /\
  (ch_minOutbound c' = None <-> ch_minOutbound c = None /\ l = []) /\
  (forall o d, (o, d) ∈ l -> ch_minDelay c' <= d + ug_tolerance g) /\
  ((ch_minOutbound c' = ch_minOutbound c /\ ch_minDelay c' = ch_minDelay c) \/
   (exists o, ch_minOutbound c' = Some o /\ (o, ch_minDelay c') ∈ l /\ (ch_minOutbound c = None \/ ch_minDelay c' + ug_tolerance g < ch_minDelay c))).
Proof.
  intros Hfb Htol. revert c. induction l as [|[o d] l IH]; intros c Hcmp Hok c'.
  { unfold c'. cbn. split_and!; [done|done|by intuition|by intros o d Hn%not_elem_of_nil|by left]. }
  destruct (Hcmp o d) as [Hd Hw]; [by left|]. assert (Hcmp' : comparable (ug_tolerance g) l) by (intros o' d' Hin; apply (Hcmp o'); by right).
  unfold c'. clear c'. cbn [pick]. rewrite Hfb. cbn [andb]. unfold wrap. rewrite Z.mod_small by lia.
  destruct ((ch_minDelay c =? 0) || _) eqn:Hc.
  - destruct (IH (mkChoice d (Some o) (ch_ignoredDelay c) (ch_ignored c)) Hcmp' Hd) as (H1 & H2 & H3 & H4 & H5). cbn in H2, H3, H5.
    assert (Hle : ch_minDelay (pick g l (mkChoice d (Some o) (ch_ignoredDelay c) (ch_ignored c))) <= d).
    { destruct H5 as [[_ ->]|(o' & _ & _ & [?|?])]; [lia|done|lia]. }
    assert (Hfirst : ch_minOutbound c = None \/ d + ug_tolerance g < ch_minDelay c).
    { apply orb_true_iff in Hc as [Hz%Z.eqb_eq|?%Z.ltb_lt]; [left|by right]. unfold choice_ok in Hok. destruct (ch_minOutbound c); [lia|done]. }
    split_and!; [done|done| | |].
    + rewrite H3. split; [by intros [? _]|by intros [_ ?]].
    + intros o' d' [[= -> ->]|Hin]%elem_of_cons; [lia|by eapply H4].
    + right. destruct H5 as [[Ho Hdl]|(o' & Ho & Hin & _)].
      * exists o. split_and!; [done| |]; rewrite Hdl; [by left|done].
      * exists o'. split_and!; [done|by right|]. destruct Hfirst; [by left|right; lia].
  - apply orb_false_iff in Hc as [Hz%Z.eqb_neq Hge%Z.ltb_ge].
    assert (Hsome : ch_minOutbound c <> None). { intros Hn. unfold choice_ok in Hok. by rewrite Hn in Hok. }
    destruct (IH c Hcmp' Hok) as (H1 & H2 & H3 & H4 & H5). split_and!; [done|done| | |].
    + rewrite H3. split; [by intros [? _]|by intros [? _]].
    + intros o' d' [[= -> ->]|Hin]%elem_of_cons; [|by eapply H4]. destruct H5 as [[_ ->]|(o'' & _ & _ & [?|?])]; [lia|done|lia].
    + destruct H5 as [?|(o' & Ho & Hin & Hlt)]; [by left|right]. exists o'. split_and!; [done|by right|done].
Qed.

(** ** The first member that is fast enough *)

Definition within g (d : Z) : bool := negb ((0 <? ug_fallback_maxDelay g) && (ug_fallback_maxDelay g <? d)).

Lemma pick_fallback g l c : ug_fallback_enabled g = true -> (forall o d, (o, d) ∈ l -> 0 < d) -> ch_minOutbound c = None -> 0 <= ch_ignoredDelay c ->
  (ch_ignored c = None <-> ch_ignoredDelay c = 0) ->
  let c' := pick g l c in
  match List.find (fun x => within g x.2) l with
  | Some (o, d) => ch_minOutbound c' = Some o
  | None => ch_minOutbound c' = None /\
      match ch_ignored c' with
      | None => l = [] /\ ch_ignored c = None
      | Some o => (ch_ignored c = Some o /\ ch_ignoredDelay c' = ch_ignoredDelay c \/ (o, ch_ignoredDelay c') ∈ l) /\
          (ch_ignored c <> None -> ch_ignoredDelay c' <= ch_ignoredDelay c) /\ forall o' d', (o', d') ∈ l -> ch_ignoredDelay c' <= d'
      end
  end.
Proof.
  intros Hfb. revert c. induction l as [|[o d] l IH]; intros c Hpos Hnone Hge Hign c'.
  { unfold c'. cbn. split; [done|]. destruct (ch_ignored c) as [o|]; [|done]. split_and!; [by left|done|by intros o' d' Hn%not_elem_of_nil]. }
  assert (Hd : 0 < d) by (apply (Hpos o); by left). assert (Hpos' : forall o d, (o, d) ∈ l -> 0 < d) by (intros; eapply Hpos; by right).
  unfold c'. clear c'. cbn [pick List.find]. unfold within at 1. rewrite Hfb. cbn [andb snd]. destruct ((0 <? _) && _) eqn:Hw; cbn [negb].
  2: { rewrite (proj2 (Z.eqb_neq d 0)) by lia. done. }
  destruct ((ch_ignoredDelay c =? 0) || (d <? ch_ignoredDelay c)) eqn:Hc.
  - specialize (IH (mkChoice (ch_minDelay c) (ch_minOutbound c) d (Some o)) Hpos' Hnone ltac:(cbn; lia) ltac:(cbn; split; [done|lia])). cbn in IH.
    set (c' := pick g l _) in *. destruct (List.find _ l) as [[o' d']|]; [done|]. destruct IH as [IH1 IH2]. split; [done|].
    destruct (ch_ignored c') as [o'|]; [|by destruct IH2]. destruct IH2 as (Hin & Hle & Hall). specialize (Hle ltac:(done)).
    assert (Hmin : ch_ignored c <> None -> ch_ignoredDelay c' <= ch_ignoredDelay c).
    { intros Hi. apply orb_true_iff in Hc as [Hz%Z.eqb_eq|Hlt%Z.ltb_lt]; [|lia]. by apply Hign in Hz. }
    split_and!; [|done|].
    + right. destruct Hin as [[[= <-] ->]|Hin]; [by left|by right].
    + intros o'' d'' [[= -> ->]|Hin']%elem_of_cons; [done|by eapply Hall].
  - apply orb_false_iff in Hc as [Hz%Z.eqb_neq Hlt%Z.ltb_ge]. specialize (IH c Hpos' Hnone Hge Hign).
    set (c' := pick g l c) in *. destruct (List.find _ l) as [[o' d']|]; [done|]. destruct IH as [IH1 IH2]. split; [done|].
    assert (Hi : ch_ignored c <> None) by (by intros ?%Hign).
    destruct (ch_ignored c') as [o'|]; [|by destruct IH2]. destruct IH2 as (Hin & Hle & Hall). split_and!; [|done|].
    + destruct Hin as [?|Hin]; [by left|right; by right].
    + intros o'' d'' [[= -> ->]|Hin']%elem_of_cons; [specialize (Hle Hi); lia|by eapply Hall].
Qed.

(** ** Selections are members *)

Lemma pick_elem g l c o : (ch_minOutbound (pick g l c) = Some o -> ch_minOutbound c = Some o \/ exists d, (o, d) ∈ l) /\
  (ch_ignored (pick g l c) = Some o -> ch_ignored c = Some o \/ exists d, (o, d) ∈ l).
Proof.
  revert c. induction l as [|[x d] l IH]; intros c; cbn [pick]; [auto|].
  assert (Hstep : forall c', (ch_minOutbound c' = Some o -> ch_minOutbound c = Some o \/ o = x) -> (ch_ignored c' = Some o -> ch_ignored c = Some o \/ o = x) ->
    (ch_minOutbound (pick g l c') = Some o -> ch_minOutbound c = Some o \/ exists d0, (o, d0) ∈ (x, d) :: l) /\
    (ch_ignored (pick g l c') = Some o -> ch_ignored c = Some o \/ exists d0, (o, d0) ∈ (x, d) :: l)).
  { intros c' H1 H2. destruct (IH c') as [I1 I2]. split.
    - intros [Hm|[d0 Hin]]%I1; [|right; exists d0; by right]. apply H1 in Hm as [?| ->]; [by left|right; exists d; by left].
    - intros [Hm|[d0 Hin]]%I2; [|right; exists d0; by right]. apply H2 in Hm as [?| ->]; [by left|right; exists d; by left]. }
  repeat case_match; try (apply Hstep; cbn; intros Heq; simplify_eq; auto).
  cbn. split; [intros [= ->]; right; exists d; by left|auto].
Qed.

Lemma Select_elem network history g o : (URLTestGroup_Select depth network history g).1 = Some o ->
  o ∈ ug_outbounds g \/ selected_for network g = Some o.
Proof.
  unfold URLTestGroup_Select. rewrite select_loop_pick. set (c := initial_choice depth network history g).
  destruct (pick_elem g (measured network history (ug_outbounds g)) c o) as [H1 H2].
  assert (Hc : (ch_minOutbound c = Some o -> selected_for network g = Some o) /\ ch_ignored c = None).
  { unfold c, initial_choice. destruct (ug_fallback_enabled g); [done|]. destruct (selected_for network g) as [x|]; [|done].
    destruct (load_delay _ _ _ x); [|done]. cbn. split; [congruence|done]. }
  destruct Hc as [Hc1 Hc2]. destruct (ch_minOutbound (pick _ _ c)) as [x|].
  - cbn. intros [= ->]. destruct (H1 eq_refl) as [?|[d Hin]]; [right; by apply Hc1|left]. by apply measured_elem in Hin as (? & _).
  - destruct (ch_ignored (pick _ _ c)) as [x|]; cbn.
    + intros [= ->]. destruct (H2 eq_refl) as [?|[d Hin]]; [congruence|left]. by apply measured_elem in Hin as (? & _).
    + intros Hf. left. apply find_some in Hf as [Hin _]. by apply list_elem_of_In.
Qed.

Definition selections_ok g : Prop :=
  (forall o, ug_selectedOutboundTCP g = Some o -> o ∈ ug_outbounds g) /\ (forall o, ug_selectedOutboundUDP g = Some o -> o ∈ ug_outbounds g).

Definition a_network (network : string) : Prop := network = NetworkTCP \/ network = NetworkUDP.

Lemma selected_ok network g o : selections_ok g -> selected_for network g = Some o -> o ∈ ug_outbounds g.
Proof. intros [H1 H2]. unfold selected_for. repeat case_bool_decide; auto. done. Qed.

Lemma set_selected_ok network (o : option Outbound) g : a_network network -> selections_ok g -> (forall x, o = Some x -> x ∈ ug_outbounds g) ->
  selections_ok (set_selected network o g) /\ ug_outbounds (set_selected network o g) = ug_outbounds g.
Proof. intros Hn [H1 H2] Ho. split; [|done]. split; cbn; case_bool_decide; auto. Qed.

Lemma update_check_ok network history g : a_network network -> selections_ok g ->
  let g' := (update_check depth network history g).2 in selections_ok g' /\ ug_outbounds g' = ug_outbounds g.
Proof.
  intros Hn Hok. unfold update_check. pose proof (Select_elem network history g) as Hsel.
  destruct (URLTestGroup_Select depth network history g) as [o e]. case_match; [|done]. apply set_selected_ok; [done|done|].
  intros x ->. destruct (Hsel x eq_refl) as [?|?]; [done|]. by eapply selected_ok.
Qed.

Lemma performUpdateCheck_ok history g : selections_ok g ->
  let g' := (performUpdateCheck depth history g).2 in selections_ok g' /\ ug_outbounds g' = ug_outbounds g.
Proof.
  intros Hok. unfold performUpdateCheck. destruct (update_check_ok NetworkTCP history g (or_introl eq_refl) Hok) as [H1 H2].
  destruct (update_check depth NetworkTCP history g) as [[u s] g1]. cbn in H1, H2.
  destruct (update_check_ok NetworkUDP history g1 (or_intror eq_refl) H1) as [H3 H4].
  destruct (update_check depth NetworkUDP history g1) as [[u' s'] g2]. cbn in *. split; [done|congruence].
Qed.

Lemma fill_selected_ok network history g : a_network network -> selections_ok g ->
  selections_ok (fill_selected depth network history g) /\ ug_outbounds (fill_selected depth network history g) = ug_outbounds g.
Proof.
  intros Hn Hok. unfold fill_selected. destruct (selected_for network g) eqn:Hs; [done|]. destruct (URLTestGroup_Select _ _ _ g).1 as [o|] eqn:Ho; [|done].
  apply set_selected_ok; [done|done|]. intros x [= <-]. destruct (Select_elem network history g o Ho) as [?|?]; [done|congruence].
Qed.

Lemma drop_TCP_ok outbounds g : let g' := drop_selected NetworkTCP outbounds g in
  (forall o, ug_selectedOutboundTCP g' = Some o -> o ∈ outbounds) /\ ug_selectedOutboundUDP g' = ug_selectedOutboundUDP g /\ ug_outbounds g' = ug_outbounds g.
Proof.
  unfold drop_selected. change (selected_for NetworkTCP g) with (ug_selectedOutboundTCP g).
  destruct (containsOutbound outbounds (ug_selectedOutboundTCP g)) eqn:Hc; [|done]. split_and!; [|done..].
  intros o Ho. rewrite Ho in Hc. cbn in Hc. by apply bool_decide_eq_true in Hc.
Qed.

Lemma drop_UDP_ok outbounds g : let g' := drop_selected NetworkUDP outbounds g in
  (forall o, ug_selectedOutboundUDP g' = Some o -> o ∈ outbounds) /\ ug_selectedOutboundTCP g' = ug_selectedOutboundTCP g /\ ug_outbounds g' = ug_outbounds g.
Proof.
  unfold drop_selected. change (selected_for NetworkUDP g) with (ug_selectedOutboundUDP g).
  destruct (containsOutbound outbounds (ug_selectedOutboundUDP g)) eqn:Hc; [|done]. split_and!; [|done..].
  intros o Ho. rewrite Ho in Hc. cbn in Hc. by apply bool_decide_eq_true in Hc.
Qed.

(** After the members are replaced, no selection is one that left. *)
Lemma replaceOutbounds_ok outbounds history g : let g' := (replaceOutbounds depth outbounds history g).2 in selections_ok g' /\ ug_outbounds g' = outbounds.
Proof.
  unfold replaceOutbounds. cbn [snd].
  set (g1 := drop_selected NetworkUDP outbounds (drop_selected NetworkTCP outbounds (storeOutbounds outbounds g))).
  assert (H1 : selections_ok g1 /\ ug_outbounds g1 = outbounds).
  { destruct (drop_TCP_ok outbounds (storeOutbounds outbounds g)) as (Ha & Hb & Hc). set (g0 := drop_selected NetworkTCP _ _) in *.
    destruct (drop_UDP_ok outbounds g0) as (Hd & He & Hf). unfold selections_ok. fold g1 in Hd, He, Hf. rewrite Hf, Hc. split; [|done].
    split; [|done]. rewrite He. exact Ha. }
  destruct H1 as [H1 H1']. destruct (fill_selected_ok NetworkTCP history g1 (or_introl eq_refl) H1) as [H2 H2'].
  destruct (fill_selected_ok NetworkUDP history _ (or_intror eq_refl) H2) as [H3 H3']. split; [done|congruence].
Qed.

(** ** Whoever can be served is *)

Lemma Select_total network history g : (URLTestGroup_Select depth network history g).1 = None ->
  forall o, o ∈ ug_outbounds g -> takes network o = false.
Proof.
  unfold URLTestGroup_Select. set (c := select_loop _ _ _ _ _ _). destruct (ch_minOutbound c); [done|]. destruct (ch_ignored c); [done|]. cbn.
  intros Hf o Hin%list_elem_of_In. by apply (find_none _ _ Hf).
Qed.

Definition served (network : string) g : Prop :=
  (exists o, o ∈ ug_outbounds g /\ takes network o = true) -> exists o, selected_for network g = Some o.

Lemma selected_for_set network network' (o : option Outbound) g : a_network network -> a_network network' ->
  selected_for network' (set_selected network o g) = if bool_decide (network' = network) then o else selected_for network' g.
Proof. by intros [->| ->] [->| ->]. Qed.

Lemma served_set network network' o g : a_network network -> a_network network' -> served network' g -> served network' (set_selected network (Some o) g).
Proof. intros Hn Hn' Hs Hex. rewrite selected_for_set by done. case_bool_decide; [by exists o|by apply Hs]. Qed.

Lemma fill_served network network' history g : a_network network -> a_network network' -> network' = network \/ served network' g -> served network' (fill_selected depth network history g).
Proof.
  intros Hn Hn' Hor. unfold fill_selected. destruct (selected_for network g) as [x|] eqn:Hs.
  { destruct Hor as [->|?]; [|done]. intros _. by exists x. }
  destruct (URLTestGroup_Select depth network history g).1 as [x|] eqn:Hx.
  - destruct Hor as [->|?]; [|by apply served_set]. intros _. rewrite selected_for_set, bool_decide_true by done. by exists x.
  - destruct Hor as [->|?]; [|done]. intros (o & Hin & Ht). by rewrite (Select_total network history g Hx o Hin) in Ht.
Qed.

Lemma replaceOutbounds_served network outbounds history g : a_network network -> served network (replaceOutbounds depth outbounds history g).2.
Proof.
  intros Hn. unfold replaceOutbounds. cbn [snd]. destruct Hn as [->| ->].
  - apply fill_served; [by right|by left|]. right. apply fill_served; [by left|by left|by left].
  - apply fill_served; [by right|by right|by left].
Qed.

Lemma update_check_served network network' history g : a_network network -> a_network network' -> network' = network \/ served network' g ->
  served network' (update_check depth network history g).2.
Proof.
  intros Hn Hn' Hor. unfold update_check. pose proof (Select_total network history g) as Htot. destruct (URLTestGroup_Select depth network history g) as [[x|] e].
  - change (nonnone (Some x)) with true. cbn [andb]. destruct (isnone (selected_for network g) || _) eqn:Hc; cbn [snd].
    + destruct Hor as [->|?]; [|by apply served_set]. intros _. rewrite selected_for_set, bool_decide_true by done. by exists x.
    + destruct Hor as [->|?]; [|done]. intros _. apply orb_false_iff in Hc as [Hc _]. destruct (selected_for network g) as [y|]; [by exists y|done].
  - cbn. destruct Hor as [->|?]; [|done]. intros (o & Hin & Ht). by rewrite (Htot eq_refl o Hin) in Ht.
Qed.

Lemma performUpdateCheck_served network history g : a_network network -> served network (performUpdateCheck depth history g).2.
Proof.
  intros Hn. unfold performUpdateCheck. pose proof (update_check_served NetworkTCP network history g (or_introl eq_refl) Hn) as H1.
  destruct (update_check depth NetworkTCP history g) as [[u s] g1]. cbn [snd] in H1. pose proof (update_check_served NetworkUDP network history g1 (or_intror eq_refl) Hn) as H2.
  destruct (update_check depth NetworkUDP history g1) as [[u' s'] g2]. cbn [snd] in *. apply H2. destruct Hn as [->| ->]; [right; apply H1; by left|by left].
Qed.

(** A group that is updated and checked, with any histories. *)
Inductive GroupEvent : Type :=
| MembersReplaced (outbounds : list Outbound) (history : HistoryStorage)
| DelaysChecked (history : HistoryStorage).

Definition group_event g (ev : GroupEvent) : URLTestGroup :=
  match ev with
  | MembersReplaced outbounds history => (replaceOutbounds depth outbounds history g).2
  | DelaysChecked history => (performUpdateCheck depth history g).2
  end.

Lemma group_events_ok events g : selections_ok g -> let g' := foldl group_event g events in
  selections_ok g' /\ (events <> [] -> forall network, a_network network -> served network g').
Proof.
  revert g. induction events as [|ev events IH]; intros g Hok; cbn; [done|].
  assert (H1 : selections_ok (group_event g ev) /\ forall network, a_network network -> served network (group_event g ev)).
  { destruct ev as [outbounds history|history]; cbn.
    - split; [apply replaceOutbounds_ok|]. intros network. apply replaceOutbounds_served.
    - split; [by apply performUpdateCheck_ok|]. intros network. apply performUpdateCheck_served. }
  destruct H1 as [H1 H2]. destruct (IH _ H1) as [H3 H4]. split; [done|]. intros _. destruct events as [|ev' events]; [done|by apply H4].
Qed.
End urltest.
