(* ===== verification/GroupMembers.v ===== *)
(** * The members of groups

    What [collectProviderOutbounds] gives when every provider has told the group of its last
    change, what a selector selects, and the checks that updates start. *)

From stdpp Require Import base gmap strings list pretty relations.
From Stdlib Require Import ZArith Lia.
From S2P Require Import Prelude Lifecycle StartOrder Group.

Section members.
Context (Outbound_of : string -> option Outbound) (exclude include : option (string -> bool)).
(** An outbound is in the manager under its tag. *)
Hypothesis Outbound_tag : forall tag o, Outbound_of tag = Some o -> ob_Tag o = tag.
Implicit Types (providers cache : gmap string (list Outbound)).

#[local] Abbreviation wanted := (wanted exclude include).

Lemma collect_direct_ok i tags l : collect_direct Outbound_of i tags = Ok l -> Forall2 (fun tag o => Outbound_of tag = Some o) tags l.
Proof.
  revert i l. induction tags as [|t tags IH]; intros i l; cbn; [by intros [= <-]|]. destruct (Outbound_of t) as [o|] eqn:Ho; [|done].
  destruct (collect_direct Outbound_of (i + 1) tags) as [l'|e] eqn:Hl; cbn; [|done]. intros [= <-]. constructor; [done|by eapply IH].
Qed.

Lemma direct_tags tags l : Forall2 (fun tag o => Outbound_of tag = Some o) tags l -> map ob_Tag l = tags.
Proof. induction 1 as [|t o tags l Ho _ IH]; [done|]. cbn. by rewrite (Outbound_tag t o Ho), IH. Qed.

(** What a provider has for the group. *)
Definition offered providers (tag : string) : list Outbound := List.filter wanted (default [] (providers !! tag)).

(** The cache holds what providers have, except for [updated]. *)
Definition fresh_but providers (updated : string -> Prop) cache : Prop :=
  forall p l, cache !! p = Some l -> updated p \/ l = offered providers p.

Lemma collect_providers_ok providers updatedTag tags cache l cache' : fresh_but providers (eq updatedTag) cache ->
  collect_providers providers exclude include updatedTag tags cache = Ok (l, cache') ->
  l = flat_map (offered providers) tags /\ fresh_but providers (fun p => p = updatedTag /\ p ∉ tags) cache'.
Proof.
  assert (Hgen : forall done, fresh_but providers (fun p => p = updatedTag /\ p ∉ done) cache ->
    collect_providers providers exclude include updatedTag tags cache = Ok (l, cache') ->
    l = flat_map (offered providers) tags /\ fresh_but providers (fun p => p = updatedTag /\ p ∉ done ++ tags) cache').
  { revert cache l. induction tags as [|t tags IH]; intros cache l seen Hf; cbn.
    { intros [= <- <-]. by rewrite app_nil_r. }
    case_match eqn:Hc.
    - case_bool_decide; [done|]. destruct (Hf t _ Hc) as [[? _]| ->]; [done|].
      destruct (collect_providers providers exclude include updatedTag tags cache) as [[l1 c1]|e] eqn:Hr; cbn; [|done]. intros [= <- <-].
      destruct (IH cache l1 (seen ++ [t])) as [-> Hf']; [|done|].
      + intros p l0 Hp. destruct (Hf p l0 Hp) as [[-> Hn]|?]; [left; split; [done|set_solver]|by right].
      + split; [done|]. intros p l0 Hp. destruct (Hf' p l0 Hp) as [[-> Hn]|?]; [left; split; [done|set_solver]|by right].
    - destruct (providers !! t) as [nodes|] eqn:Hp; [|done]. set (cache1 := <[t := _]> cache).
      destruct (collect_providers providers exclude include updatedTag tags cache1) as [[l1 c1]|e] eqn:Hr; cbn; [|done]. intros [= <- <-].
      destruct (IH cache1 l1 (seen ++ [t])) as [-> Hf']; [|done|].
      + intros p l0. unfold cache1. destruct (decide (p = t)) as [->|Hne].
        * rewrite lookup_insert_eq. intros [= <-]. right. unfold offered. by rewrite Hp.
        * rewrite lookup_insert_ne by done. intros Hp0. destruct (Hf p l0 Hp0) as [[-> Hn]|?]; [left; split; [done|set_solver]|by right].
      + assert (Ho : offered providers t = List.filter wanted nodes) by (unfold offered; by rewrite Hp). rewrite Ho. split; [done|]. intros p l0 Hp0. destruct (Hf' p l0 Hp0) as [[-> Hn]|?]; [left; split; [done|set_solver]|by right]. }
  intros Hf Hr. destruct (Hgen [] ltac:(intros p l0 Hp; destruct (Hf p l0 Hp) as [<-|?]; [left; split; [done|set_solver]|by right]) Hr) as [-> Hf']. done.
Qed.

(** The members of a group by the outbounds it names and the providers it follows. *)
Definition members_of providers (directTags providerTags : list string) (tags : list string) (l : list Outbound) : Prop :=
  exists direct, Forall2 (fun tag o => Outbound_of tag = Some o) directTags direct /\
    let all := direct ++ flat_map (offered providers) providerTags in
    match all with
    | [] => exists o, Outbound_of "Compatible" = Some o /\ tags = ["Compatible"] /\ l = [o]
    | _ => tags = map ob_Tag all /\ l = all
    end.

Lemma collect_ok providers updatedTag directTags providerTags cache tags l cache' : fresh_but providers (eq updatedTag) cache -> updatedTag ∈ providerTags ->
  collectProviderOutbounds Outbound_of providers exclude include updatedTag directTags providerTags cache = Ok (tags, l, cache') ->
  members_of providers directTags providerTags tags l /\ fresh_but providers (fun _ => False) cache'.
Proof.
  intros Hf Hin. unfold collectProviderOutbounds. destruct (nonnone (providers !! updatedTag)); cbn [negb]; [|done].
  destruct (collect_direct Outbound_of 0 directTags) as [direct|e] eqn:Hd; cbn [result_bind]; [|done]. apply collect_direct_ok in Hd.
  destruct (collect_providers _ _ _ _ _ _) as [[l1 c1]|e] eqn:Hp; cbn [result_bind]; [|done].
  destruct (collect_providers_ok providers updatedTag providerTags cache l1 c1 Hf Hp) as [-> Hf'].
  assert (Hfresh : fresh_but providers (fun _ => False) c1) by (intros p l0 Hp0; destruct (Hf' p l0 Hp0) as [[-> ?]|?]; [done|by right]).
  cbn [fst snd]. rewrite <- (direct_tags directTags direct Hd) at 1. rewrite <- map_app.
  set (all := direct ++ flat_map (offered providers) providerTags). destruct all as [|o all'] eqn:Hall; cbn [map].
  - destruct (Outbound_of "Compatible") as [o|] eqn:Ho; [|done]. intros [= <- <- <-]. split; [|done]. exists direct. fold all. rewrite Hall. split; [done|].
    exists o. by rewrite (Outbound_tag _ _ Ho).
  - intros [= <- <- <-]. split; [|done]. exists direct. fold all. rewrite Hall. split; [done|]. split; [|done].
    change (ob_Tag o :: map ob_Tag all') with (map ob_Tag (o :: all')). rewrite <- Hall. unfold all. rewrite map_app. by rewrite (direct_tags directTags direct Hd).
Qed.
End members.

(** ** The selector *)

Lemma by_tag_Some l t o : by_tag l !! t = Some o -> o ∈ l /\ ob_Tag o = t.
Proof.
  unfold by_tag. assert (Hgen : forall m : gmap string Outbound, (forall t o, m !! t = Some o -> ob_Tag o = t) ->
    foldl (fun m o => <[ob_Tag o := o]> m) m l !! t = Some o -> (o ∈ l \/ m !! t = Some o) /\ ob_Tag o = t).
  { induction l as [|x l IH]; intros m Hm; cbn; [intros Ho; split; [by right|by apply Hm]|]. intros Ho. destruct (IH (<[ob_Tag x := x]> m)) as [Hor Ht]; [|done|].
    - intros t' o'. destruct (decide (t' = ob_Tag x)) as [->|Hne]; [rewrite lookup_insert_eq; by intros [= <-]|rewrite lookup_insert_ne by done; apply Hm].
    - split; [|done]. destruct Hor as [?|Hor]; [left; by right|]. destruct (decide (t = ob_Tag x)) as [->|Hne].
      + rewrite lookup_insert_eq in Hor. injection Hor as ->. left. by left.
      + rewrite lookup_insert_ne in Hor by done. by right. }
  intros Ho. destruct (Hgen ∅ ltac:(intros ??; by rewrite lookup_empty) Ho) as [[?|?] ?]; [done|by rewrite lookup_empty in *].
Qed.

Lemma by_tag_is_Some l t : t ∈ map ob_Tag l -> is_Some (by_tag l !! t).
Proof.
  unfold by_tag. assert (Hgen : forall m : gmap string Outbound, t ∈ map ob_Tag l \/ is_Some (m !! t) -> is_Some (foldl (fun m o => <[ob_Tag o := o]> m) m l !! t)).
  { induction l as [|x l IH]; intros m Hor; cbn; [destruct Hor as [Hn|?]; [by apply not_elem_of_nil in Hn|done]|]. apply IH.
    destruct (decide (t = ob_Tag x)) as [->|Hne]; [right; rewrite lookup_insert_eq; by eexists|]. rewrite lookup_insert_ne by done.
    destruct Hor as [Hin|?]; [|by right]. left. by apply elem_of_cons in Hin as [?|?]. }
  intros Hin. apply Hgen. by left.
Qed.

Section selector.
Context {F : Type} `{SelectedStore F} (Outbound_of : string -> option Outbound).
Hypothesis Outbound_tag : forall tag o, Outbound_of tag = Some o -> ob_Tag o = tag.
Implicit Types (s : Selector) (cacheFile : option F) (providers : gmap string (list Outbound)) (outbounds : gmap string Outbound).

(** Outbounds under their tags. *)
Definition keyed outbounds : Prop := forall t o, outbounds !! t = Some o -> ob_Tag o = t.

(** The selected outbound is a member. *)
Definition selected_ok s : Prop :=
  keyed (sl_outbounds s) /\ exists o, sl_selected s = Some o /\ sl_outbounds s !! ob_Tag o = Some o.

Lemma outboundSelect_ok cacheFile outbounds tags s d : keyed outbounds -> (forall t rest, tags = t :: rest -> is_Some (outbounds !! t)) ->
  outboundSelect cacheFile outbounds tags s = Ok d -> exists o, d = Some o /\ outbounds !! ob_Tag o = Some o.
Proof.
  intros Hk Htags. assert (Hfound : forall t o, outbounds !! t = Some o -> exists o', Some o = Some o' /\ outbounds !! ob_Tag o' = Some o').
  { intros t o Ho. exists o. split; [done|]. by rewrite (Hk t o Ho). }
  unfold outboundSelect. set (stored := match cacheFile with Some _ => _ | None => _ end). clearbody stored.
  destruct (if empty_string stored then None else outbounds !! stored) as [o|] eqn:Hs.
  { intros [= <-]. destruct (empty_string stored); [done|by eapply Hfound]. }
  destruct (previous ← sl_selected s; outbounds !! ob_Tag previous) as [o|] eqn:Hp.
  { intros [= <-]. destruct (sl_selected s) as [x|]; [|done]. cbn in Hp. by eapply Hfound. }
  destruct (negb (empty_string (sl_defaultTag s))).
  - destruct (outbounds !! sl_defaultTag s) as [o|] eqn:Hd; [|done]. intros [= <-]. by eapply Hfound.
  - destruct tags as [|t rest]; [done|]. intros [= <-]. destruct (Htags t rest eq_refl) as [o Ho]. rewrite Ho. by eapply Hfound.
Qed.

(** A provider has changed and tells the group, or a member is chosen. *)
Inductive SelectorEvent : Type :=
| ProviderChanged (tag : string) (nodes : list Outbound)
| Chosen (tag : string).

Definition SelectorState : Type := gmap string (list Outbound) * Selector * option F.

(** Updates that return no error. *)
Definition selector_event (ev : SelectorEvent) (st : SelectorState) : result SelectorState :=
  let '(providers, s, cacheFile) := st in
  match ev with
  | ProviderChanged tag nodes =>
      let providers' := <[tag := nodes]> providers in
      let '(r, _, s') := Selector_onProviderUpdated Outbound_of cacheFile providers' tag s in
      try _ <- r; Ok (providers', s', cacheFile)
  | Chosen tag => let '(_, _, s', cacheFile') := SelectOutbound tag s cacheFile in Ok (providers, s', cacheFile')
  end.

Fixpoint selector_run (events : list SelectorEvent) (st : SelectorState) : result SelectorState :=
  match events with
  | [] => Ok st
  | ev :: rest => try st' <- selector_event ev st; selector_run rest st'
  end.

Definition followed s (ev : SelectorEvent) : Prop := match ev with ProviderChanged tag _ => tag ∈ sl_providerTags s | Chosen _ => True end.

(** The settings of a selector do not change. *)
Definition same_settings s s' : Prop :=
  sl_Tag s' = sl_Tag s /\ sl_Dependencies s' = sl_Dependencies s /\ sl_providerTags s' = sl_providerTags s /\ sl_exclude s' = sl_exclude s /\
  sl_include s' = sl_include s /\ sl_defaultTag s' = sl_defaultTag s.

Definition members_current providers s : Prop :=
  exists l, members_of Outbound_of (sl_exclude s) (sl_include s) providers (sl_Dependencies s) (sl_providerTags s) (sl_tags s) l /\
    sl_outbounds s = by_tag l.

Definition cache_fresh providers s : Prop := fresh_but (sl_exclude s) (sl_include s) providers (fun _ => False) (sl_outboundsCache s).

Lemma updated_ok cacheFile providers tag nodes s b s' : cache_fresh providers s -> tag ∈ sl_providerTags s ->
  Selector_onProviderUpdated Outbound_of cacheFile (<[tag := nodes]> providers) tag s = (Ok tt, b, s') ->
  same_settings s s' /\ selected_ok s' /\ members_current (<[tag := nodes]> providers) s' /\ cache_fresh (<[tag := nodes]> providers) s'.
Proof.
  intros Hf Hin. unfold Selector_onProviderUpdated. destruct (collectProviderOutbounds _ _ _ _ _ _ _ _) as [[[tags l] cache']|e] eqn:Hc; [|done].
  destruct (outboundSelect cacheFile (by_tag l) tags s) as [d|e] eqn:Hs; [|done]. intros [= _ <-].
  apply (collect_ok Outbound_of _ _ Outbound_tag) in Hc as [Hm Hf']; [|intros p l0 Hp|done].
  2: { destruct (decide (p = tag)) as [->|Hne]; [by left|right]. destruct (Hf p l0 Hp) as [[]| ->]. unfold offered. by rewrite lookup_insert_ne. }
  assert (Hkey : keyed (by_tag l)) by (by intros t o [_ ?]%by_tag_Some).
  assert (Htags : forall t rest, tags = t :: rest -> is_Some (by_tag l !! t)).
  { intros t rest ->. apply by_tag_is_Some. destruct Hm as (direct & _ & Hm). destruct (direct ++ _) as [|x all]; [|destruct Hm as [Heq ->]; rewrite <- Heq; by left].
    destruct Hm as (o & Ho & [= -> ->] & ->). cbn. rewrite (Outbound_tag _ _ Ho). by left. }
  destruct (outboundSelect_ok cacheFile (by_tag l) tags s d Hkey Htags Hs) as (o & -> & Ho).
  split; [done|]. split; [split; [done|by exists o]|]. split; [by exists l|done].
Qed.

Lemma chosen_ok tag s cacheFile : selected_ok s ->
  let '(found, interrupted, s', cacheFile') := SelectOutbound tag s cacheFile in
  same_settings s s' /\ selected_ok s' /\ sl_tags s' = sl_tags s /\ sl_outbounds s' = sl_outbounds s /\ sl_outboundsCache s' = sl_outboundsCache s.
Proof.
  intros [Hk Hsel]. unfold SelectOutbound. destruct (sl_outbounds s !! tag) as [o|] eqn:Ho; [|done].
  assert (Hok : selected_ok (with_members (sl_tags s) (sl_outbounds s) (Some o) s)).
  { split; [done|]. exists o. split; [done|]. cbn. by rewrite (Hk tag o Ho). }
  case_bool_decide; done.
Qed.

Definition changes (events : list SelectorEvent) : Prop := exists tag nodes, ProviderChanged tag nodes ∈ events.

Lemma run_ok events providers s cacheFile providers' s' cacheFile' : cache_fresh providers s -> selected_ok s -> Forall (followed s) events ->
  selector_run events (providers, s, cacheFile) = Ok (providers', s', cacheFile') ->
  same_settings s s' /\ selected_ok s' /\ cache_fresh providers' s' /\ (members_current providers s \/ changes events -> members_current providers' s').
Proof.
  revert providers s cacheFile. induction events as [|ev events IH]; intros providers s cacheFile Hf Hok Hfol; cbn [selector_run].
  { intros [= <- <- <-]. split; [done|]. split_and!; [done|done|]. intros [?|(t & n & Hn%not_elem_of_nil)]; done. }
  apply Forall_cons in Hfol as [Hev Hfol]. destruct ev as [tag nodes|tag]; cbn [selector_event].
  - destruct (Selector_onProviderUpdated _ _ _ _ _) as [[[[]|e] b] s1] eqn:Hu; cbn [result_bind]; [|done].
    destruct (updated_ok cacheFile providers tag nodes s b s1 Hf Hev Hu) as (Hs1 & Hok1 & Hm1 & Hf1). intros Hr.
    destruct (IH _ s1 cacheFile Hf1 Hok1) as (Hs2 & Hok2 & Hf2 & Hm2); [|done|].
    { eapply Forall_impl; [done|]. intros [t n|t]; cbn; [|done]. by destruct Hs1 as (_ & _ & -> & _). }
    split; [by unfold same_settings in *; intuition congruence|]. split; [done|]. split; [done|]. intros _. apply Hm2. by left.
  - pose proof (chosen_ok tag s cacheFile Hok) as Hc. destruct (SelectOutbound tag s cacheFile) as [[[fd ir] s1] cf1]. cbn [result_bind].
    destruct Hc as (Hs1 & Hok1 & Ht1 & Ho1 & Hc1). pose proof Hs1 as (E0 & E1 & E2 & E3 & E4 & _). intros Hr.
    destruct (IH providers s1 cf1) as (Hs2 & Hok2 & Hf2 & Hm2); [|done| |done|].
    { unfold cache_fresh in *. by rewrite E3, E4, Hc1. }
    { eapply Forall_impl; [done|]. intros [t n|t]; cbn; [|done]. by rewrite E2. }
    split; [by unfold same_settings in *; intuition congruence|]. split; [done|]. split; [done|]. intros Hor. apply Hm2.
    destruct Hor as [(l & Hl & Hb)|(t & n & Hin)].
    + left. exists l. rewrite E1, E2, E3, E4, Ht1, Ho1. done.
    + right. exists t, n. by apply elem_of_cons in Hin as [?|?].
Qed.

(** What [Start] leaves. *)
Lemma Selector_Start_ok cacheFile allProviders s s' : sl_outboundsCache s = ∅ ->
  Selector_Start Outbound_of cacheFile allProviders s = (Ok tt, s') -> selected_ok s' /\ sl_outboundsCache s' = ∅ /\
  sl_providerTags s' = if sl_useAllProviders s then allProviders else sl_providerTags s.
Proof.
  intros Hcache. unfold Selector_Start. destruct (if sl_useAllProviders s then None else _) as [err|]; [done|]. set (s1 := if sl_useAllProviders s then _ else s).
  assert (Hs1 : sl_outboundsCache s1 = ∅ /\ sl_providerTags s1 = if sl_useAllProviders s then allProviders else sl_providerTags s) by (unfold s1; by destruct (sl_useAllProviders s)).
  clearbody s1. destruct (_ =? 0)%nat; [done|]. destruct (collect_direct Outbound_of 0 (sl_Dependencies s1)) as [direct|e] eqn:Hd; cbn [result_bind]; [|done].
  apply collect_direct_ok in Hd. set (members := match sl_Dependencies s1 with [] => _ | _ => _ end).
  assert (Hm : forall tags outbounds, members = Ok (tags, outbounds) -> keyed outbounds /\ forall t rest, tags = t :: rest -> is_Some (outbounds !! t)).
  { intros tags outbounds. unfold members. destruct (sl_Dependencies s1) as [|t0 deps] eqn:Hdep.
    - destruct (Outbound_of "Compatible") as [o|] eqn:Ho; [|done]. intros [= <- <-]. split.
      + intros t x. destruct (decide (t = ob_Tag o)) as [->|Hne]; [rewrite lookup_insert_eq; by intros [= <-]|by rewrite lookup_insert_ne, lookup_empty].
      + intros t rest [= <- <-]. rewrite lookup_insert_eq. by eexists.
    - intros [= <- <-]. assert (Hgen : forall l1 l2 m, Forall2 (fun tag o => Outbound_of tag = Some o) l1 l2 -> keyed m ->
        let m' := foldl (fun m '(tag, o) => <[tag := o]> m) m (zip l1 l2) in keyed m' /\ forall t, t ∈ l1 \/ is_Some (m !! t) -> is_Some (m' !! t)).
      { clear -Outbound_tag. induction l1 as [|t l1 IH]; intros l2 m Hall Hk; inversion Hall as [|? o ? l2' Ho Hall']; subst; cbn.
        - split; [done|]. intros t [Hn%not_elem_of_nil|?]; done.
        - destruct (IH l2' (<[t := o]> m) Hall') as [Hk' Hin].
          + intros t' o'. destruct (decide (t' = t)) as [->|Hne]; [rewrite lookup_insert_eq; intros [= <-]; by apply Outbound_tag|rewrite lookup_insert_ne by done; apply Hk].
          + split; [done|]. intros t' Hor. apply Hin. destruct (decide (t' = t)) as [->|Hne]; [right; rewrite lookup_insert_eq; by eexists|].
            rewrite lookup_insert_ne by done. destruct Hor as [[?|?]%elem_of_cons|?]; [done|by left|by right]. }
      destruct (Hgen (t0 :: deps) direct ∅ Hd ltac:(intros ??; by rewrite lookup_empty)) as [Hk Hin]. split; [done|]. intros t rest [= <- <-]. apply Hin. left. by left. }
  destruct members as [[tags outbounds]|e]; [|done]. destruct (Hm tags outbounds eq_refl) as [Hk Ht].
  destruct (outboundSelect cacheFile outbounds tags s1) as [d|e] eqn:Hs; [|done]. intros [= <-].
  destruct (outboundSelect_ok cacheFile outbounds tags s1 d Hk Ht Hs) as (o & -> & Ho). split; [split; [done|by exists o]|done].
Qed.

(** ** A chosen member *)

(** What the cache file says agrees with the choice. *)
Definition remembers (tag : string) s cacheFile : Prop :=
  match cacheFile with Some f => sl_Tag s = "" \/ LoadSelected (sl_Tag s) f = tag | None => True end.

Definition keeps_choice (tag : string) s cacheFile : Prop :=
  (exists o, sl_selected s = Some o /\ ob_Tag o = tag) /\ remembers tag s cacheFile.

Lemma outboundSelect_chosen cacheFile outbounds tags s tag d : keyed outbounds -> is_Some (outbounds !! tag) -> keeps_choice tag s cacheFile ->
  outboundSelect cacheFile outbounds tags s = Ok d -> exists o, d = Some o /\ ob_Tag o = tag.
Proof.
  intros Hk [x Hx] [(o & Ho & Ht) Hr]. unfold outboundSelect.
  set (stored := match cacheFile with Some _ => _ | None => _ end). assert (Hst : stored = "" \/ stored = tag).
  { unfold stored. destruct cacheFile as [f|]; [|by left]. destruct Hr as [Hr|Hr]; [rewrite Hr; by left|]. destruct (empty_string (sl_Tag s)); [by left|by right]. }
  assert (Hprev : (previous ← sl_selected s; outbounds !! ob_Tag previous) = Some x) by (by rewrite Ho; cbn; rewrite Ht).
  destruct (empty_string stored) eqn:He.
  - rewrite Hprev. intros [= <-]. exists x. by rewrite (Hk tag x Hx).
  - destruct Hst as [->| ->]; [done|]. rewrite Hx. intros [= <-]. exists x. by rewrite (Hk tag x Hx).
Qed.

Lemma chosen_updated cacheFile providers tag0 nodes s b s' tag : keeps_choice tag s cacheFile ->
  Selector_onProviderUpdated Outbound_of cacheFile (<[tag0 := nodes]> providers) tag0 s = (Ok tt, b, s') -> selected_ok s' -> tag ∈ sl_tags s' ->
  (forall t, t ∈ sl_tags s' -> is_Some (sl_outbounds s' !! t)) -> keeps_choice tag s' cacheFile.
Proof.
  intros Hkc. unfold Selector_onProviderUpdated. destruct (collectProviderOutbounds _ _ _ _ _ _ _ _) as [[[tags l] cache']|e]; [|done].
  destruct (outboundSelect cacheFile (by_tag l) tags s) as [d|e] eqn:Hs; [|done]. intros [= _ <-] _ Hin Hall. cbn in Hin, Hall.
  assert (Hkey : keyed (by_tag l)) by (by intros t o [_ ?]%by_tag_Some).
  destruct (outboundSelect_chosen cacheFile (by_tag l) tags s tag d Hkey (Hall tag Hin) Hkc Hs) as (o & -> & Ho).
  split; [by exists o|]. exact (proj2 Hkc).
Qed.

Lemma members_tags providers s t : members_current providers s -> t ∈ sl_tags s -> is_Some (sl_outbounds s !! t).
Proof.
  intros (l & (direct & _ & Hm) & ->) Hin. apply by_tag_is_Some. destruct (direct ++ _) as [|x all].
  - destruct Hm as (o & Ho & Heq & ->). rewrite Heq in Hin. cbn. by rewrite (Outbound_tag _ _ Ho).
  - destruct Hm as [Heq ->]. by rewrite <- Heq.
Qed.

Lemma choice_run events providers s cacheFile providers' s' cacheFile' tag : cache_fresh providers s -> selected_ok s -> keeps_choice tag s cacheFile ->
  Forall (fun ev => exists p nodes, ev = ProviderChanged p nodes /\ p ∈ sl_providerTags s) events ->
  (forall n providers1 s1 cacheFile1, selector_run (take n events) (providers, s, cacheFile) = Ok (providers1, s1, cacheFile1) -> tag ∈ sl_tags s1) ->
  selector_run events (providers, s, cacheFile) = Ok (providers', s', cacheFile') -> exists o, sl_selected s' = Some o /\ ob_Tag o = tag.
Proof.
  revert providers s. induction events as [|ev events IH]; intros providers s Hf Hok Hk Hev Hstay; cbn [selector_run].
  { intros [= _ <- _]. apply Hk. }
  apply Forall_cons in Hev as [(p & nodes & -> & Hp) Hev]. cbn [selector_event].
  destruct (Selector_onProviderUpdated _ _ _ _ _) as [[[[]|e] b] s1] eqn:Hu; cbn [result_bind]; [|done].
  destruct (updated_ok cacheFile providers p nodes s b s1 Hf Hp Hu) as (Hs1 & Hok1 & Hm1 & Hf1).
  assert (Hstep : forall n, selector_run (take (S n) (ProviderChanged p nodes :: events)) (providers, s, cacheFile) =
    selector_run (take n events) (<[p := nodes]> providers, s1, cacheFile)) by (intros n; cbn; by rewrite Hu).
  assert (Hin : tag ∈ sl_tags s1) by (eapply (Hstay 1%nat); rewrite Hstep; done).
  intros Hr. eapply (IH _ s1); [done|done| | | |done].
  - eapply chosen_updated; [done|exact Hu|done|done|]. intros t. by eapply members_tags.
  - eapply Forall_impl; [done|]. cbn. intros ev (p0 & n0 & -> & Hp0). exists p0, n0. split; [done|]. by destruct Hs1 as (_ & _ & -> & _).
  - intros n p1 s2 c1 Hr'. eapply (Hstay (S n)). by rewrite Hstep.
Qed.
End selector.

(** ** Updates that always succeed *)

Lemma collect_direct_total (Outbound_of : string -> option Outbound) i tags : Forall (fun t => is_Some (Outbound_of t)) tags ->
  exists l, collect_direct Outbound_of i tags = Ok l.
Proof.
  intros Hall. revert i. induction Hall as [|t tags [o Ho] _ IH]; intros i; cbn; [by eexists|]. rewrite Ho. destruct (IH (i + 1)%Z) as [l ->]. by eexists.
Qed.

Lemma collect_providers_total (providers : gmap string (list Outbound)) exclude include updatedTag tags cache :
  Forall (fun p => is_Some (providers !! p)) tags -> exists r, collect_providers providers exclude include updatedTag tags cache = Ok r.
Proof.
  intros Hall. revert cache. induction Hall as [|p tags [l Hl] _ IH]; intros cache; cbn; [by eexists|]. case_match.
  - destruct (IH cache) as [r ->]. by eexists.
  - rewrite Hl. destruct (IH (<[p := List.filter (wanted exclude include) l]> cache)) as [r ->]. by eexists.
Qed.

Section total.
Context {F : Type} `{SelectedStore F} (Outbound_of : string -> option Outbound).
Hypothesis Outbound_tag : forall tag o, Outbound_of tag = Some o -> ob_Tag o = tag.
Hypothesis Compatible_there : is_Some (Outbound_of "Compatible").
Implicit Types (s : Selector) (cacheFile : option F) (providers : gmap string (list Outbound)).

(** The outbounds that the group names are there, with its default, and so are the providers. *)
Definition well_set providers s : Prop :=
  Forall (fun t => is_Some (Outbound_of t)) (sl_Dependencies s) /\ (sl_defaultTag s = "" \/ sl_defaultTag s ∈ sl_Dependencies s) /\
  Forall (fun p => is_Some (providers !! p)) (sl_providerTags s).

Lemma well_set_insert providers s p l : well_set providers s -> well_set (<[p := l]> providers) s.
Proof.
  intros (H1 & H2 & H3). split_and!; [done|done|]. eapply Forall_impl; [done|]. cbn. intros p' Hp'.
  destruct (decide (p' = p)) as [->|Hne]; [rewrite lookup_insert_eq; by eexists|by rewrite lookup_insert_ne].
Qed.

Lemma updated_total cacheFile providers tag nodes s : well_set providers s -> cache_fresh providers s -> tag ∈ sl_providerTags s ->
  exists b s', Selector_onProviderUpdated Outbound_of cacheFile (<[tag := nodes]> providers) tag s = (Ok tt, b, s').
Proof.
  intros (Hdep & Hdef & Hprov)%(well_set_insert _ _ tag nodes) Hf Hin. unfold Selector_onProviderUpdated.
  destruct (collectProviderOutbounds _ _ _ _ _ _ _ _) as [[[tags l] cache']|e] eqn:Hc.
  - pose proof Hc as Hc'. apply (collect_ok Outbound_of _ _ Outbound_tag) in Hc' as [Hm _]; [|intros p l0 Hp|done].
    2: { destruct (decide (p = tag)) as [->|Hne]; [by left|right]. destruct (Hf p l0 Hp) as [[]| ->]. unfold offered. by rewrite lookup_insert_ne. }
    unfold outboundSelect. set (stored := if empty_string _ then None else _). destruct stored; [by do 2 eexists|].
    destruct (sl_selected s ≫= _); [by do 2 eexists|]. destruct Hm as (direct & Hdir & Hm). destruct (empty_string (sl_defaultTag s)) eqn:He; cbn [negb].
    + destruct tags as [|t tags]; [|by do 2 eexists]. destruct (direct ++ _); [by destruct Hm as (? & _ & ? & _)|by destruct Hm].
    + assert (Hd : sl_defaultTag s ∈ map ob_Tag direct).
      { rewrite (direct_tags Outbound_of Outbound_tag _ _ Hdir). destruct Hdef as [Hd|Hd]; [by rewrite Hd in He|done]. }
      assert (Hl : is_Some (by_tag l !! sl_defaultTag s)).
      { apply by_tag_is_Some. destruct direct as [|x direct]; [by apply not_elem_of_nil in Hd|]. destruct Hm as [_ ->]. rewrite map_app. apply elem_of_app. by left. }
      destruct Hl as [o ->]. by do 2 eexists.
  - exfalso. unfold collectProviderOutbounds in Hc. rewrite lookup_insert_eq in Hc. cbn [nonnone negb] in Hc.
    destruct (collect_direct_total Outbound_of 0 _ Hdep) as [direct Hd]. rewrite Hd in Hc. cbn [result_bind] in Hc.
    destruct (collect_providers_total (<[tag := nodes]> providers) (sl_exclude s) (sl_include s) tag _ (sl_outboundsCache s) Hprov) as [r Hr].
    rewrite Hr in Hc. cbn [result_bind] in Hc. destruct Compatible_there as [o Ho]. rewrite Ho in Hc. by destruct (sl_Dependencies s ++ map ob_Tag r.1).
Qed.

Lemma well_set_same providers s s' : same_settings s s' -> well_set providers s -> well_set providers s'.
Proof. unfold well_set. by intros (_ & -> & -> & _ & _ & ->). Qed.

Lemma run_total events providers s cacheFile : well_set providers s -> cache_fresh providers s -> selected_ok s -> Forall (followed s) events ->
  exists st, selector_run Outbound_of events (providers, s, cacheFile) = Ok st.
Proof.
  revert providers s cacheFile. induction events as [|ev events IH]; intros providers s cacheFile Hw Hf Hok Hfol; cbn [selector_run]; [by eexists|].
  apply Forall_cons in Hfol as [Hev Hfol]. assert (Hnext : forall s', same_settings s s' -> Forall (followed s') events).
  { intros s' (_ & _ & E & _). eapply Forall_impl; [done|]. intros [t n|t]; cbn; [by rewrite E|done]. }
  destruct ev as [tag nodes|tag]; cbn [selector_event].
  - destruct (updated_total cacheFile providers tag nodes s Hw Hf Hev) as (b & s1 & Hu). rewrite Hu. cbn [result_bind].
    destruct (updated_ok Outbound_of Outbound_tag cacheFile providers tag nodes s b s1 Hf Hev Hu) as (Hs1 & Hok1 & _ & Hf1).
    apply IH; [|done|done|by apply Hnext]. apply (well_set_same _ s); [done|]. by apply well_set_insert.
  - pose proof (chosen_ok tag s cacheFile Hok) as Hc. destruct (SelectOutbound tag s cacheFile) as [[[fd ir] s1] cf1]. cbn [result_bind].
    destruct Hc as (Hs1 & Hok1 & _ & _ & Hc1). apply IH; [by apply (well_set_same _ s)| |done|by apply Hnext].
    destruct Hs1 as (_ & _ & _ & E3 & E4 & _). unfold cache_fresh in *. by rewrite E3, E4, Hc1.
Qed.

(** What [Start] accepts has its outbounds and providers. *)
Lemma Selector_Start_set cacheFile allProviders s s' : Selector_Start Outbound_of cacheFile allProviders s = (Ok tt, s') ->
  Forall (fun t => is_Some (Outbound_of t)) (sl_Dependencies s') /\ sl_Dependencies s' = sl_Dependencies s /\ sl_defaultTag s' = sl_defaultTag s /\
  Forall (fun p => p ∈ allProviders) (sl_providerTags s').
Proof.
  unfold Selector_Start. destruct (if sl_useAllProviders s then None else _) as [err|] eqn:Hmiss; [done|]. set (s1 := if sl_useAllProviders s then _ else s).
  assert (Hs1 : sl_Dependencies s1 = sl_Dependencies s /\ sl_defaultTag s1 = sl_defaultTag s /\ Forall (fun p => p ∈ allProviders) (sl_providerTags s1)).
  { unfold s1. destruct (sl_useAllProviders s); [split_and!; [done|done|by apply Forall_forall]|]. split_and!; [done|done|].
    clear s1. revert Hmiss. generalize 0%Z. induction (sl_providerTags s) as [|p l IH]; intros i; cbn; [constructor|]. case_bool_decide; [|done]. intros Hm. constructor; [done|by eapply IH]. }
  clearbody s1. destruct (_ =? 0)%nat; [done|]. destruct (collect_direct Outbound_of 0 (sl_Dependencies s1)) as [direct|e] eqn:Hd; cbn [result_bind]; [|done].
  apply collect_direct_ok in Hd. destruct Hs1 as (E1 & E2 & E3). rewrite E1 in *. set (members := match sl_Dependencies s with [] => _ | _ => _ end).
  destruct members as [[tags outbounds]|e]; [|done]. destruct (outboundSelect cacheFile outbounds tags s1); [|done]. intros [= <-]. cbn. split_and!; [|done..].
  rewrite E1. clear -Hd. induction Hd as [|t o l1 l2 Ho _ IH]; constructor; [by eexists|done].
Qed.
End total.

(** ** Checks after updates *)

(** Where the goroutine of a scheduler is, how often a check was asked for, and how many of
    these calls came before the last check began. *)
Inductive Runner : Type := NotRunning | Starting | RunnerChecking.

Record Checks : Type := mkChecks { ck_scheduler : Scheduler; ck_runner : Runner; ck_asked : nat; ck_seen : nat }.

Inductive checks_step : Checks -> Checks -> Prop :=
| ask_first c asked seen : (Schedule c).1 = true ->
    checks_step (mkChecks c NotRunning asked seen) (mkChecks (Schedule c).2 Starting (S asked) seen)
| ask_again c runner asked seen : (Schedule c).1 = false ->
    checks_step (mkChecks c runner asked seen) (mkChecks (Schedule c).2 runner (S asked) seen)
| begin_check c asked seen :
    checks_step (mkChecks c Starting asked seen) (mkChecks (check_begins c) RunnerChecking asked asked)
| end_check c asked seen :
    checks_step (mkChecks c RunnerChecking asked seen)
      (mkChecks (check_ends c).2 (if (check_ends c).1 then Starting else NotRunning) asked seen).

Definition no_checks : Checks := mkChecks (mkScheduler false false) NotRunning 0 0.

Definition checks_ok (c : Checks) : Prop :=
  (sd_running (ck_scheduler c) = true <-> ck_runner c <> NotRunning) /\ (ck_seen c <= ck_asked c)%nat /\
  (sd_pending (ck_scheduler c) = false -> ck_seen c = ck_asked c) /\ (sd_pending (ck_scheduler c) = true -> ck_runner c <> NotRunning).

Lemma checks_step_ok c c' : checks_step c c' -> checks_ok c -> checks_ok c'.
Proof.
  intros [[running pending] asked seen Hs|[running pending] runner asked seen Hs|[running pending] asked seen|[running pending] asked seen];
    unfold checks_ok, Schedule, check_begins, check_ends in *; cbn in *; intros (H1 & H2 & H3 & H4).
  - split_and!; [done|lia|done|done].
  - destruct running; [|done]. split_and!; [done|lia|done|]. intros _. by apply H1.
  - split_and!; [|lia|done|done]. split; [done|]. intros _. by apply H1.
  - destruct pending; cbn.
    + split_and!; [|done..]. split; [done|]. intros _. by apply H1.
    + split_and!; [by intuition|lia|by intros _; apply H3|done].
Qed.

(** As long as a call has not been followed by a check, the goroutine is there to make it. *)
Lemma checks_reachable c : rtc checks_step no_checks c -> checks_ok c.
Proof.
  intros Hr. assert (Hok : checks_ok no_checks) by (unfold checks_ok; cbn; split_and!; done).
  induction Hr as [|c1 c2 c3 H12 _ IH]; [done|]. apply IH. by eapply checks_step_ok.
Qed.
