(* ===== verification/LoadBalance.v ===== *)
(** * Load balancing

    The strategies of [src/protocol/group/loadbalance.go], the test whether a member is
    alive, and the delay of a group.  Floating point numbers in [jumpHash] are positive
    fractions rounded to 53 bits. *)

From stdpp Require Import base gmap strings list.
From Stdlib Require Import ZArith Lia.
From S2P Require Import Prelude Net Metadata RuleMatch RuleItems Lifecycle StartOrder Group.

Open Scope Z_scope.

(** ** Members that are alive *)

Section alive.
Context `{GroupInterfaces} (Outbound_of : string -> option Outbound) (history : HistoryStorage).

(** The loop over the members of a nested group; [None] is out of fuel. *)
Fixpoint alive_any (go : option Outbound -> gset string -> option (bool * gset string)) (members : list string)
    (checked : gset string) : option (bool * gset string) :=
  match members with
  | [] => Some (false, checked)
  | memberTag :: rest =>
      match Outbound_of memberTag with
      | None => alive_any go rest checked
      | Some member =>
          match go (Some member) checked with
          | None => None
          | Some (alive, checked') => if alive then Some (true, checked') else alive_any go rest checked'
          end
      end
  end.

(** Every call that looks further adds a tag to [checked]: one more than there are tags is
    enough fuel.  [None] is out of fuel: the recursion does not end. *)
Fixpoint aliveForTestURL (fuel : nat) (network : string) (proxy : option Outbound) (checked : gset string)
    : option (bool * gset string) :=
  match fuel, proxy with
  | O, _ => None
  | S _, None => Some (false, checked)
  | S fuel', Some p =>
      if bool_decide (ob_Tag p ∈ checked) then Some (false, checked)
      else
        let checked' := {[ob_Tag p]} ∪ checked in
        match gi_LoadBalance p, gi_Selected p with
        | Some members, _ => alive_any (aliveForTestURL fuel' network) members checked'
        | None, Some selected => aliveForTestURL fuel' network (selected network) checked'
        | None, None => Some (nonnone (history !! ob_Tag p), checked')
        end
  end.
End alive.

(** ** Hashing *)

(** [n / d] to the nearest integer, ties to even. *)
Definition nearest (n d : Z) : Z :=
  let q := n / d in
  let r := n mod d in
  if 2 * r <? d then q else if d <? 2 * r then q + 1 else if Z.even q then q else q + 1.

(** A fraction [n / d] that is at least 1, rounded to a [float64]. *)
Definition round53 (n d : Z) : Z * Z :=
  let e := Z.log2 (n / d) - 52 in
  if e <=? 0 then (nearest (n * 2 ^ (- e)) d, 2 ^ (- e)) else (nearest n (d * 2 ^ e) * 2 ^ e, 1).

(** [int64(float64(b+1) * (float64(int64(1)<<31) / float64((key>>33)+1)))]; the integers are
    below 2^53 and exact. *)
Definition jump_step (b key : Z) : Z :=
  let q := round53 (2 ^ 31) (Z.shiftr key 33 + 1) in
  let p := round53 ((b + 1) * q.1) q.2 in
  p.1 / p.2.

Fixpoint jump_loop (fuel : nat) (key b j buckets : Z) : Z :=
  match fuel with
  | O => b
  | S fuel' =>
      if j <? buckets then
        let key' := wrap 64 (key * 2862933555777941757 + 1) in
        jump_loop fuel' key' j (jump_step j key') buckets
      else b
  end.

(** The conversion to [int32]. *)
Definition int32 (x : Z) : Z := wrap 32 (x + 2 ^ 31) - 2 ^ 31.

(** [j] grows with every round. *)
Definition jumpHash (key buckets : Z) : Z := jump_loop (S (Z.to_nat buckets)) key 0 0 buckets.

(** What the code uses of Go's and other libraries to make a key. *)
Class HashLibrary : Type := {
  hl_ParseIP : string -> bool;
  hl_EffectiveTLDPlusOne : string -> option string;
  hl_AddrString : Addr -> string;
  hl_Hash : string -> Z
}.

Section key.
Context `{HashLibrary} `{Env}.

Definition getKey (metadata : option ConnFields) : string :=
  match metadata with
  | None => ""
  | Some c =>
      let metadataHost :=
        if IsDomain (cf_Destination c) then sa_Fqdn (cf_Destination c)
        else if negb (empty_string (cf_SniffHost c)) then cf_SniffHost c
        else cf_Domain c in
      let of_host :=
        if empty_string metadataHost then None
        else if hl_ParseIP metadataHost then Some metadataHost
        else hl_EffectiveTLDPlusOne metadataHost in
      match of_host with
      | Some key => key
      | None =>
          let destinationAddr := match cf_DestinationAddresses c with a :: _ => a | [] => sa_Addr (cf_Destination c) end in
          if bool_decide (destinationAddr = AddrInvalid) then "" else hl_AddrString destinationAddr
      end
  end.

Definition getKeyWithSrcAndDst (metadata : option ConnFields) : string :=
  match metadata with Some c => hl_AddrString (sa_Addr (cf_Source c)) | None => "" end +:+ getKey metadata.
End key.

(** ** Strategies *)

(** [matcher] is asked when there is one; [alive] is [aliveForMetadata]. *)
Section strategies.
Context (alive : Outbound -> bool).
Implicit Types (outbounds : list Outbound) (matcher : option (Outbound -> bool)).

Definition accepts matcher (o : Outbound) : bool := match matcher with Some f => f o | None => true end.

(** [fallbackIdx] is an unsigned integer of 32 bits. *)
Definition nextFallback outbounds (touch : bool) matcher (fallbackIdx : Z) : option Outbound * Z :=
  let length := Z.of_nat (length outbounds) in
  if length =? 0 then (None, fallbackIdx)
  else
    let nextIndex := wrap 32 (fallbackIdx + 1) in
    match outbounds !! Z.to_nat (nextIndex mod length) with
    | None => (None, fallbackIdx)
    | Some outbound =>
        if negb (accepts matcher outbound) then (None, fallbackIdx)
        else (Some outbound, if isnone matcher || touch then nextIndex else fallbackIdx)
    end.

(** The loop of [strategyRoundRobin]: the first member from [idx] on that is alive, and how
    far it is. *)
Fixpoint round_robin_loop (fuel : nat) outbounds (idx i : Z) : option (Outbound * Z) :=
  match fuel with
  | O => None
  | S fuel' =>
      match outbounds !! Z.to_nat ((idx + i) mod Z.of_nat (length outbounds)) with
      | None => None
      | Some proxy => if alive proxy then Some (proxy, i + 1) else round_robin_loop fuel' outbounds idx (i + 1)
      end
  end.

(** The state is the index of the strategy and that of the fallback. *)
Definition strategyRoundRobin outbounds (touch : bool) matcher (st : Z * Z) : option Outbound * (Z * Z) :=
  let '(idx, fallbackIdx) := st in
  match round_robin_loop (length outbounds) outbounds idx 0 with
  | Some (proxy, i) =>
      if negb (accepts matcher proxy) then (None, st)
      else (Some proxy, (if touch then (idx + i) mod Z.of_nat (length outbounds) else idx, fallbackIdx))
  | None => let '(o, fallbackIdx') := nextFallback outbounds touch matcher fallbackIdx in (o, (idx, fallbackIdx'))
  end.

Definition maxRetry : nat := 5.

(** The tries of [strategyConsistentHashing]; an index out of range would be a panic. *)
Fixpoint consistent_loop (fuel : nat) outbounds (key : Z) : result (option Outbound) :=
  match fuel with
  | O => Ok None
  | S fuel' =>
      match outbounds !! Z.to_nat (jumpHash key (int32 (Z.of_nat (length outbounds)))) with
      | None => Err (EPanic "index out of range")
      | Some proxy => if alive proxy then Ok (Some proxy) else consistent_loop fuel' outbounds (wrap 64 (key + 1))
      end
  end.

Definition strategyConsistentHashing outbounds (touch : bool) matcher (key fallbackIdx : Z) : result (option Outbound * Z) :=
  match outbounds with
  | [] => Ok (None, fallbackIdx)
  | _ =>
      try found <- consistent_loop maxRetry outbounds key;
      match (match found with Some proxy => Some proxy | None => List.find alive outbounds end) with
      | Some proxy => Ok (if accepts matcher proxy then Some proxy else None, fallbackIdx)
      | None => Ok (nextFallback outbounds touch matcher fallbackIdx)
      end
  end.

(** sing's LRU cache from keys to indices, at the time of a call. *)
Class StickyCache (C : Type) : Type := {
  st_Peek : Z -> C -> option Z;
  st_Get : Z -> C -> C;
  st_Add : Z -> Z -> C -> C
}.

Context {C : Type} `{StickyCache C}.
(** The indices that are drawn one after the other: [key] plus the time is hashed. *)
Context (times : nat -> Z).

Definition selectIndex (draw : nat) (key length : Z) : Z := jumpHash (wrap 64 (key + times draw)) (int32 length).

(** The tries of [strategyStickySessionsWithIndex]: the index of a member that is alive, and
    how many indices were drawn. *)
Fixpoint sticky_loop (fuel : nat) outbounds (key nowIdx : Z) (draw : nat) : result (option (Outbound * Z) * nat) :=
  match fuel with
  | O => Ok (None, draw)
  | S fuel' =>
      match outbounds !! Z.to_nat nowIdx with
      | None => Err (EPanic "index out of range")
      | Some proxy =>
          if alive proxy then Ok (Some (proxy, nowIdx), draw)
          else sticky_loop fuel' outbounds key (selectIndex draw key (Z.of_nat (length outbounds))) (S draw)
      end
  end.

Definition strategyStickySessions outbounds matcher (key : Z) (cache : C) (draw : nat) : result (option Outbound * C * nat) :=
  let length := Z.of_nat (length outbounds) in
  if length =? 0 then Ok (None, cache, draw)
  else
    let has := st_Peek key cache in
    let cache1 := if isnone matcher then st_Get key cache else cache in
    let valid := match has with Some idx => idx <? length | None => false end in
    let '(idx, draw1) := match has with
                         | Some idx => if idx <? length then (idx, draw) else (selectIndex draw key length, S draw)
                         | None => (selectIndex draw key length, S draw)
                         end in
    try r <- sticky_loop (maxRetry - 1) outbounds key idx draw1;
    match r with
    | (Some (proxy, nowIdx), draw2) =>
        let cache2 := if negb valid || negb (nowIdx =? idx) then st_Add key nowIdx cache1
                      else if isnone matcher then cache1 else st_Get key cache1 in
        Ok (if accepts matcher proxy then Some proxy else None, cache2, draw2)
    | (None, draw2) =>
        let fbIdx := jumpHash key (int32 length) in
        match outbounds !! Z.to_nat fbIdx with
        | None => Err (EPanic "index out of range")
        | Some proxy => Ok (if accepts matcher proxy then Some proxy else None, st_Add key fbIdx cache1, draw2)
        end
    end.
End strategies.
