(* ===== verification/LoadBalanceOk.v ===== *)
(** * What load balancing guarantees

    The jump hash stays in range and moves few keys, the rotation is fair, sessions stick,
    and a group is alive when one of its leaves is. *)

From stdpp Require Import base gmap strings list relations.
From Stdlib Require Import ZArith Lia.
From S2P Require Import Prelude Net Metadata RuleMatch RuleItems Lifecycle StartOrder Group LoadBalance.

Open Scope Z_scope.

(** ** Rounding *)

Lemma nearest_ge n d : 0 < d -> n / d <= nearest n d.
Proof. intros Hd. unfold nearest. repeat case_match; lia. Qed.

Lemma nearest_above y n d : 0 < d -> y * d <= n -> y <= nearest n d.
Proof. intros Hd Hy. transitivity (n / d); [|by apply nearest_ge]. apply Z.div_le_lower_bound; lia. Qed.

(** Rounding does not go below an integer that fits. *)
Lemma round53_above y n d : 0 < d -> d <= n -> y < 2 ^ 53 -> y * d <= n -> 0 < (round53 n d).2 /\ y * (round53 n d).2 <= (round53 n d).1.
Proof.
  intros Hd Hn Hy53 Hy. unfold round53. set (e := Z.log2 (n / d) - 52). destruct (Z.leb_spec e 0) as [He|He]; cbn [fst snd].
  - assert (0 < 2 ^ (- e)) by (apply Z.pow_pos_nonneg; lia). split; [done|]. apply nearest_above; [done|]. nia.
  - split; [lia|]. assert (Hq : 0 < n / d) by (apply Z.div_str_pos; lia). assert (Hlog : 2 ^ (e + 52) <= n / d).
    { unfold e. replace (Z.log2 (n / d) - 52 + 52) with (Z.log2 (n / d)) by lia. by apply Z.log2_spec. }
    assert (Hp : 0 < 2 ^ e) by (apply Z.pow_pos_nonneg; lia). assert (Hn52 : 2 ^ 52 <= nearest n (d * 2 ^ e)).
    { apply nearest_above; [nia|]. rewrite Z.pow_add_r in Hlog by lia. assert (n / d * d <= n) by (rewrite Z.mul_comm; by apply Z.mul_div_le). nia. }
    assert (2 ^ 1 <= 2 ^ e) by (apply Z.pow_le_mono_r; lia). change (2 ^ 53) with (2 ^ 52 * 2) in Hy53. nia.
Qed.

(** ** The jump hash *)

Lemma jump_step_above b key : 0 <= b < 2 ^ 52 -> 0 <= key < 2 ^ 64 -> b + 1 <= jump_step b key.
Proof.
  intros Hb Hk. unfold jump_step. rewrite Z.shiftr_div_pow2 by lia.
  assert (Hs : 0 <= key / 2 ^ 33 < 2 ^ 31) by (split; [apply Z.div_pos; lia|apply Z.div_lt_upper_bound; lia]).
  destruct (round53_above 1 (2 ^ 31) (key / 2 ^ 33 + 1)) as [Hq2 Hq]; [lia..|]. set (q := round53 (2 ^ 31) (key / 2 ^ 33 + 1)) in *.
  destruct (round53_above (b + 1) ((b + 1) * q.1) q.2) as [Hp2 Hp]; [done|nia|lia|nia|]. apply Z.div_le_lower_bound; lia.
Qed.

Lemma wrap64_range x : 0 <= wrap 64 x < 2 ^ 64.
Proof. by apply Z.mod_pos_bound. Qed.

Lemma jump_loop_range fuel key b j buckets : 0 <= b < buckets -> 0 <= j -> buckets <= 2 ^ 31 -> 0 <= jump_loop fuel key b j buckets < buckets.
Proof.
  revert key b j. induction fuel as [|fuel IH]; intros key b j Hb Hj Hn; cbn -[Z.pow]; [done|]. destruct (Z.ltb_spec j buckets) as [Hlt|Hge]; [|done].
  apply IH; [lia| |done]. pose proof (jump_step_above j (wrap 64 (key * 2862933555777941757 + 1)) ltac:(lia) (wrap64_range _)). lia.
Qed.

(** The fuel is enough: the loop does not end by it. *)
Lemma jump_loop_enough fuel extra key b j buckets : 0 <= j -> buckets <= 2 ^ 31 -> buckets - j < Z.of_nat fuel ->
  jump_loop (fuel + extra) key b j buckets = jump_loop fuel key b j buckets.
Proof.
  revert key b j. induction fuel as [|fuel IH]; intros key b j Hj Hn Hf.
  - destruct extra as [|extra]; [done|]. cbn -[Z.pow]. by rewrite (proj2 (Z.ltb_ge j buckets)) by lia.
  - cbn -[Z.pow]. destruct (Z.ltb_spec j buckets) as [Hlt|Hge]; [|done]. pose proof (jump_step_above j (wrap 64 (key * 2862933555777941757 + 1)) ltac:(lia) (wrap64_range _)).
    apply IH; lia.
Qed.

Lemma jumpHash_range key buckets : 0 < buckets <= 2 ^ 31 -> 0 <= jumpHash key buckets < buckets.
Proof. intros Hb. apply jump_loop_range; lia. Qed.

(** A bucket more takes keys from others and leaves the rest where they are. *)
Lemma jump_loop_grow fuel key b j n : 0 <= j -> 0 <= n -> n + 1 <= 2 ^ 31 -> n + 1 - j < Z.of_nat fuel ->
  jump_loop fuel key b j (n + 1) = jump_loop fuel key b j n \/ jump_loop fuel key b j (n + 1) = n.
Proof.
  revert key b j. induction fuel as [|fuel IH]; intros key b j Hj Hn0 Hn Hf; cbn -[Z.pow]; [by left|].
  pose proof (jump_step_above j (wrap 64 (key * 2862933555777941757 + 1))) as Hstep. set (key' := wrap 64 _) in *.
  destruct (Z.ltb_spec j n) as [Hlt|Hge].
  - rewrite (proj2 (Z.ltb_lt j (n + 1))) by lia. specialize (Hstep ltac:(lia) (wrap64_range _)). apply IH; lia.
  - destruct (Z.ltb_spec j (n + 1)) as [Hlt'|Hge']; [|by left]. right. assert (j = n) as -> by lia. specialize (Hstep ltac:(lia) (wrap64_range _)).
    destruct fuel as [|fuel]; [done|]. cbn -[Z.pow]. by rewrite (proj2 (Z.ltb_ge _ _)) by lia.
Qed.

Lemma jumpHash_grow key n : 0 < n -> n + 1 <= 2 ^ 31 -> jumpHash key (n + 1) = jumpHash key n \/ jumpHash key (n + 1) = n.
Proof.
  intros Hn Hb. unfold jumpHash. replace (S (Z.to_nat (n + 1))) with (S (S (Z.to_nat n))) by lia.
  rewrite <- (jump_loop_enough (S (Z.to_nat n)) 1 key 0 0 n) by lia. replace (S (Z.to_nat n) + 1)%nat with (S (S (Z.to_nat n))) by lia.
  apply jump_loop_grow; lia.
Qed.

(** ** Rotation *)

Section round_robin.
Context (alive : Outbound -> bool).
Implicit Types (l : list Outbound) (idx : nat).

(** The members from [idx] on, and those of them that are alive. *)
Definition turn l idx : list Outbound := drop idx l ++ take idx l.

Definition queue l idx : list Outbound := List.filter alive (turn l idx).

Lemma turn_lookup l idx i : (idx < length l)%nat -> (i < length l)%nat ->
  l !! Z.to_nat ((Z.of_nat idx + Z.of_nat i) mod Z.of_nat (length l)) = turn l idx !! i.
Proof.
  intros Hi Hj. unfold turn. destruct (decide (idx + i < length l)%nat) as [Hlt|Hge].
  - rewrite Z.mod_small, lookup_app_l by (rewrite ?length_drop; lia). rewrite lookup_drop. f_equal. lia.
  - rewrite lookup_app_r by (rewrite length_drop; lia). rewrite length_drop, lookup_take_lt by lia. f_equal.
    rewrite <- (Z.mod_unique (Z.of_nat idx + Z.of_nat i) (Z.of_nat (length l)) 1 (Z.of_nat idx + Z.of_nat i - Z.of_nat (length l))); lia.
Qed.

(** Where the loop stops: at the first of the turn that is alive. *)
Lemma round_robin_loop_ok l idx fuel i : (idx < length l)%nat -> (i + fuel = length l)%nat -> Forall (fun o => alive o = false) (take i (turn l idx)) ->
  match queue l idx with
  | [] => round_robin_loop alive fuel l (Z.of_nat idx) (Z.of_nat i) = None
  | o :: _ => exists before after, turn l idx = before ++ o :: after /\ Forall (fun o => alive o = false) before /\ alive o = true /\
      round_robin_loop alive fuel l (Z.of_nat idx) (Z.of_nat i) = Some (o, Z.of_nat (length before) + 1)
  end.
Proof.
  intros Hidx. assert (Hlen : length (turn l idx) = length l) by (unfold turn; rewrite length_app, length_drop, length_take; lia).
  revert i. induction fuel as [|fuel IH]; intros i Hi Hdead.
  - rewrite take_ge in Hdead by lia. assert (Hq : queue l idx = []).
    { unfold queue. clear -Hdead. induction Hdead as [|o r Ho _ IH]; [done|]. cbn. by rewrite Ho. }
    by rewrite Hq.
  - cbn [round_robin_loop]. rewrite turn_lookup by lia. destruct (lookup_lt_is_Some_2 (turn l idx) i) as [o Ho]; [lia|]. rewrite Ho.
    destruct (alive o) eqn:Ha.
    + assert (Hsplit : turn l idx = take i (turn l idx) ++ o :: drop (S i) (turn l idx)) by (by rewrite take_drop_middle).
      assert (Hq : exists r, queue l idx = o :: r).
      { unfold queue. rewrite Hsplit, List.filter_app. clear -Hdead Ha. induction Hdead as [|x r Hx _ IH]; cbn; [rewrite Ha; by eexists|by rewrite Hx]. }
      destruct Hq as [r ->]. exists (take i (turn l idx)), (drop (S i) (turn l idx)). split_and!; [done|done|done|].
      rewrite length_take. f_equal. f_equal. lia.
    + replace (Z.of_nat i + 1) with (Z.of_nat (S i)) by lia. apply IH; [lia|]. rewrite (take_S_r _ _ o Ho). apply Forall_app. split; [done|by constructor].
Qed.

Lemma filter_dead l : Forall (fun o => alive o = false) l -> List.filter alive l = [].
Proof. induction 1 as [|o r Ho _ IH]; [done|]. cbn. by rewrite Ho. Qed.

(** The turn after a member was taken. *)
Lemma turn_app l x y idx : l = x ++ y -> length x = idx -> turn l idx = y ++ x.
Proof. intros -> <-. unfold turn. by rewrite drop_app_length, take_app_length. Qed.

Lemma turn_next l idx before o after : (idx < length l)%nat -> turn l idx = before ++ o :: after ->
  turn l ((idx + S (length before)) mod length l) = after ++ before ++ [o].
Proof.
  intros Hidx Ht. set (k := S (length before)). replace (before ++ o :: after) with ((before ++ [o]) ++ after) in Ht by (by rewrite <- app_assoc).
  assert (Hk : length (before ++ [o]) = k) by (rewrite length_app; cbn; lia). set (b := before ++ [o]) in *. clearbody b k.
  assert (Hlen : (k + length after = length l)%nat). { rewrite <- Hk, <- length_app, <- Ht. unfold turn. rewrite length_app, length_drop, length_take. lia. }
  assert (Hl : l = take idx l ++ drop idx l) by (by rewrite take_drop). unfold turn in Ht.
  assert (Hx : length (take idx l) = idx) by (rewrite length_take; lia). assert (Hy : length (drop idx l) = (length l - idx)%nat) by (by rewrite length_drop).
  set (x := take idx l) in *. set (y := drop idx l) in *. clearbody x y. destruct (decide (idx + k <= length l)%nat) as [Hle|Hgt].
  - assert (Hz : y = b ++ drop k y /\ after = drop k y ++ x).
    { rewrite <- (take_drop k y) in Ht. rewrite <- app_assoc in Ht. apply app_inj_1 in Ht as [H1 H2]; [|rewrite length_take; lia]. rewrite <- H1, take_drop. done. }
    destruct Hz as [Hz ->]. destruct (decide (idx + k = length l)%nat) as [Heq|Hne].
    + assert (Hnil : drop k y = []) by (apply drop_ge; lia). rewrite Hnil, app_nil_r in Hz. rewrite Hnil. rewrite Heq, Nat.Div0.mod_same. rewrite Hl, Hz. unfold turn. by rewrite drop_0, take_0, app_nil_r.
    + rewrite Nat.mod_small by lia. rewrite (turn_app l (x ++ b) (drop k y)); [by rewrite <- app_assoc|by rewrite <- app_assoc, <- Hz|rewrite length_app; lia].
  - assert (Hz : b = y ++ take (k - length y) x /\ after = drop (k - length y) x).
    { rewrite <- (take_drop (k - length y) x) in Ht. rewrite app_assoc in Ht. apply app_inj_1 in Ht as [H1 H2]; [done|]. rewrite length_app, length_take. lia. }
    destruct Hz as [-> ->]. replace ((idx + k) mod length l)%nat with (idx + k - length l)%nat.
    + rewrite (turn_app l (take (k - length y) x) (drop (k - length y) x ++ y)); [by rewrite <- app_assoc|by rewrite app_assoc, take_drop|rewrite length_take; lia].
    + apply Nat.mod_unique with 1%nat; lia.
Qed.

(** One call: the first of the queue is used and goes to its end. *)
Lemma strategyRoundRobin_ok l idx fb : (idx < length l)%nat ->
  match queue l idx with
  | [] => strategyRoundRobin alive l true None (Z.of_nat idx, fb) =
      ((nextFallback l true None fb).1, (Z.of_nat idx, (nextFallback l true None fb).2))
  | o :: rest => exists idx', (idx' < length l)%nat /\ strategyRoundRobin alive l true None (Z.of_nat idx, fb) = (Some o, (Z.of_nat idx', fb)) /\
      queue l idx' = rest ++ [o]
  end.
Proof.
  intros Hidx. pose proof (round_robin_loop_ok l idx (length l) 0 Hidx eq_refl (Forall_nil_2 _)) as Hloop. unfold strategyRoundRobin.
  destruct (queue l idx) as [|o rest] eqn:Hq.
  - change (Z.of_nat 0) with 0 in Hloop. rewrite Hloop. by destruct (nextFallback l true None fb).
  - destruct Hloop as (before & after & Ht & Hdead & Ha & Hr). change (Z.of_nat 0) with 0 in Hr. rewrite Hr. cbn [accepts negb].
    exists ((idx + S (length before)) mod length l)%nat. split; [apply Nat.mod_upper_bound; lia|]. split.
    + f_equal. f_equal. rewrite Nat2Z.inj_mod. f_equal. lia.
    + unfold queue in *. rewrite (turn_next l idx before o after Hidx Ht). rewrite Ht in Hq. rewrite !List.filter_app in *. cbn in *.
      rewrite (filter_dead before Hdead), Ha in *. cbn in *. by injection Hq as ->.
Qed.

(** Calls one after the other. *)
Fixpoint round_robin_calls (n : nat) l (st : Z * Z) : list (option Outbound) * (Z * Z) :=
  match n with
  | O => ([], st)
  | S n' => let '(o, st1) := strategyRoundRobin alive l true None st in let '(os, st2) := round_robin_calls n' l st1 in (o :: os, st2)
  end.

Lemma round_robin_calls_ok n l idx fb : (idx < length l)%nat -> (n <= length (queue l idx))%nat ->
  exists idx', (idx' < length l)%nat /\ round_robin_calls n l (Z.of_nat idx, fb) = (map Some (take n (queue l idx)), (Z.of_nat idx', fb)) /\
    queue l idx' = drop n (queue l idx) ++ take n (queue l idx).
Proof.
  revert idx. induction n as [|n IH]; intros idx Hidx Hn; cbn [round_robin_calls]; [exists idx; by rewrite drop_0, app_nil_r|].
  pose proof (strategyRoundRobin_ok l idx fb Hidx) as Hc. destruct (queue l idx) as [|o rest] eqn:Hq; [cbn in Hn; lia|].
  destruct Hc as (idx1 & Hidx1 & -> & Hq1). cbn in Hn. destruct (IH idx1 Hidx1) as (idx2 & Hidx2 & Hr & Hq2); [rewrite Hq1, length_app; cbn; lia|].
  rewrite Hr. rewrite Hq1 in *. rewrite take_app_le, drop_app_le in * by lia. exists idx2. split; [done|]. split; [done|]. rewrite Hq2. cbn. by rewrite <- app_assoc.
Qed.

Lemma round_robin_calls_app a b l st : round_robin_calls (a + b) l st =
  let '(os, st1) := round_robin_calls a l st in let '(os', st2) := round_robin_calls b l st1 in (os ++ os', st2).
Proof.
  revert st. induction a as [|a IH]; intros st; cbn [round_robin_calls Nat.add]; [by destruct (round_robin_calls b l st)|].
  destruct (strategyRoundRobin alive l true None st) as [o st1]. rewrite IH. destruct (round_robin_calls a l st1) as [os st2]. by destruct (round_robin_calls b l st2).
Qed.

(** Round after round. *)
Lemma round_robin_rounds rounds l idx fb : (idx < length l)%nat ->
  (round_robin_calls (rounds * length (queue l idx)) l (Z.of_nat idx, fb)).1 = concat (replicate rounds (map Some (queue l idx))).
Proof.
  revert idx. induction rounds as [|rounds IH]; intros idx Hidx; cbn [Nat.mul replicate concat]; [done|]. rewrite round_robin_calls_app.
  destruct (round_robin_calls_ok (length (queue l idx)) l idx fb Hidx) as (idx1 & Hidx1 & -> & Hq); [done|]. rewrite drop_all, firstn_all in Hq. cbn in Hq.
  rewrite firstn_all. specialize (IH idx1 Hidx1). rewrite Hq in IH. destruct (round_robin_calls (rounds * _) l (Z.of_nat idx1, fb)) as [os st]. cbn in *. by rewrite IH.
Qed.

Lemma queue_perm l idx : queue l idx ≡ₚ List.filter alive l.
Proof. unfold queue, turn. rewrite <- (take_drop idx l) at 3. rewrite !List.filter_app. apply Permutation_app_comm. Qed.
End round_robin.

(** What holds for any index. *)
Section any_index.
Context (alive : Outbound -> bool).
Implicit Types (l : list Outbound).

Lemma round_robin_loop_mod fuel l idx i : l <> [] ->
  round_robin_loop alive fuel l (idx mod Z.of_nat (length l)) i = round_robin_loop alive fuel l idx i.
Proof.
  intros Hl. revert i. induction fuel as [|fuel IH]; intros i; cbn [round_robin_loop]; [done|]. rewrite Zplus_mod_idemp_l.
  case_match; [|done]. case_match; [done|]. apply IH.
Qed.

Lemma strategyRoundRobin_mod l idx fb : l <> [] -> List.filter alive l <> [] ->
  strategyRoundRobin alive l true None (idx, fb) = strategyRoundRobin alive l true None (idx mod Z.of_nat (length l), fb).
Proof.
  intros Hl Hf. assert (Hn : 0 < Z.of_nat (length l)) by (destruct l; [done|cbn; lia]). unfold strategyRoundRobin. rewrite round_robin_loop_mod by done.
  pose proof (Z.mod_pos_bound idx _ Hn) as Hb. set (k := Z.to_nat (idx mod Z.of_nat (length l))).
  assert (Hk : (k < length l)%nat) by (unfold k; lia). pose proof (round_robin_loop_ok alive l k (length l) 0 Hk eq_refl (Forall_nil_2 _)) as Hloop.
  destruct (queue alive l k) as [|o rest] eqn:Hq.
  { destruct Hf. apply Permutation_nil. rewrite <- Hq. apply queue_perm. }
  destruct Hloop as (before & _ & _ & _ & _ & Hr). unfold k in Hr. rewrite Z2Nat.id in Hr by lia. change (Z.of_nat 0) with 0 in Hr.
  rewrite round_robin_loop_mod in Hr by done. rewrite Hr. cbn. by rewrite Zplus_mod_idemp_l.
Qed.

Lemma round_robin_calls_mod n l idx fb : l <> [] -> List.filter alive l <> [] ->
  (round_robin_calls alive n l (idx, fb)).1 = (round_robin_calls alive n l (idx mod Z.of_nat (length l), fb)).1.
Proof. intros Hl Hf. destruct n as [|n]; cbn [round_robin_calls]; [done|]. by rewrite strategyRoundRobin_mod. Qed.

Lemma nextFallback_member l touch fb : l <> [] -> exists o, (nextFallback l touch None fb).1 = Some o /\ o ∈ l.
Proof.
  intros Hl. unfold nextFallback. assert (Hn : 0 < Z.of_nat (length l)) by (destruct l; [done|cbn; lia]). rewrite (proj2 (Z.eqb_neq _ _)) by lia.
  pose proof (Z.mod_pos_bound (wrap 32 (fb + 1)) _ Hn). destruct (lookup_lt_is_Some_2 l (Z.to_nat (wrap 32 (fb + 1) mod Z.of_nat (length l)))) as [o Ho]; [lia|].
  rewrite Ho. exists o. split; [done|]. by eapply list_elem_of_lookup_2.
Qed.

(** When no member is alive, the calls still give members. *)
Lemma round_robin_dead n l idx fb : l <> [] -> List.filter alive l = [] ->
  Forall (fun r => exists o, r = Some o /\ o ∈ l) (round_robin_calls alive n l (idx, fb)).1.
Proof.
  intros Hl Hf. revert fb. induction n as [|n IH]; intros fb; cbn [round_robin_calls]; [constructor|].
  assert (Hloop : round_robin_loop alive (length l) l idx 0 = None).
  { assert (Hgen : forall fuel i, round_robin_loop alive fuel l idx i = None); [|apply Hgen]. induction fuel as [|fuel IH']; intros i; cbn [round_robin_loop]; [done|].
    destruct (l !! _) as [o|] eqn:Ho; [|done]. destruct (alive o) eqn:Ha; [|done]. apply list_elem_of_lookup_2 in Ho.
    assert (Hin : In o (List.filter alive l)) by (apply List.filter_In; split; [by apply list_elem_of_In|done]). by rewrite Hf in Hin. }
  unfold strategyRoundRobin. rewrite Hloop. destruct (nextFallback_member l true fb Hl) as (o & Ho & Hin).
  destruct (nextFallback l true None fb) as [r fb1]. cbn in Ho. subst r. specialize (IH fb1). destruct (round_robin_calls alive n l (idx, fb1)) as [os st]. cbn. constructor; [by exists o|done].
Qed.

(** ** Consistent hashing *)

Lemma int32_small x : 0 <= x < 2 ^ 31 -> int32 x = x.
Proof. intros Hx. unfold int32, wrap. rewrite Z.mod_small by lia. lia. Qed.

Lemma jumpHash_lookup key l : l <> [] -> Z.of_nat (length l) < 2 ^ 31 ->
  exists o, l !! Z.to_nat (jumpHash key (int32 (Z.of_nat (length l)))) = Some o.
Proof.
  intros Hl Hlen. assert (Hn : 0 < Z.of_nat (length l)) by (destruct l; [done|cbn; lia]). rewrite int32_small by lia.
  pose proof (jumpHash_range key (Z.of_nat (length l)) ltac:(lia)). apply lookup_lt_is_Some_2. lia.
Qed.

Lemma consistent_loop_ok fuel l key : l <> [] -> Z.of_nat (length l) < 2 ^ 31 ->
  exists r, consistent_loop alive fuel l key = Ok r /\ forall o, r = Some o -> o ∈ l /\ alive o = true.
Proof.
  intros Hl Hlen. revert key. induction fuel as [|fuel IH]; intros key; cbn [consistent_loop]; [by exists None|].
  destruct (jumpHash_lookup key l Hl Hlen) as [o Ho]. rewrite Ho. destruct (alive o) eqn:Ha; [|apply IH].
  exists (Some o). split; [done|]. intros o' [= <-]. split; [by eapply list_elem_of_lookup_2|done].
Qed.

(** A member that is alive if there is one, and a member in any case. *)
Lemma consistent_ok l touch key fb : l <> [] -> Z.of_nat (length l) < 2 ^ 31 ->
  exists o fb', strategyConsistentHashing alive l touch None key fb = Ok (Some o, fb') /\ o ∈ l /\ (List.filter alive l <> [] -> alive o = true /\ fb' = fb).
Proof.
  intros Hl Hlen. unfold strategyConsistentHashing. destruct l as [|x l0] eqn:Hx; [done|]. rewrite <- Hx in *. clear Hx.
  destruct (consistent_loop_ok maxRetry l key Hl Hlen) as (r & -> & Hr). cbn [result_bind]. destruct r as [o|].
  { destruct (Hr o eq_refl) as [Hin Ha]. by exists o, fb. }
  destruct (List.find alive l) as [o|] eqn:Hf.
  { apply find_some in Hf as [Hin%list_elem_of_In Ha]. by exists o, fb. }
  destruct (nextFallback_member l touch fb Hl) as (o & Ho & Hin). destruct (nextFallback l touch None fb) as [r fb1]. cbn in Ho. subst r.
  exists o, fb1. split_and!; [done|done|]. intros Hne. destruct (List.filter alive l) as [|y rest] eqn:Hy; [done|].
  assert (Hiny : In y (List.filter alive l)) by (rewrite Hy; by left). apply List.filter_In in Hiny as [Hiny Hay].
  by rewrite (find_none _ _ Hf y Hiny) in Hay.
Qed.

(** With one member more, a key stays where it is or goes to the new one. *)
Lemma consistent_grow l x touch key fb : l <> [] -> Z.of_nat (length l) + 1 < 2 ^ 31 -> Forall (fun o => alive o = true) (l ++ [x]) ->
  strategyConsistentHashing alive (l ++ [x]) touch None key fb = strategyConsistentHashing alive l touch None key fb \/
  strategyConsistentHashing alive (l ++ [x]) touch None key fb = Ok (Some x, fb).
Proof.
  intros Hl Hlen Hall. assert (Hn : 0 < Z.of_nat (length l)) by (destruct l; [done|cbn; lia]).
  assert (Hone : forall l', l' <> [] -> Z.of_nat (length l') < 2 ^ 31 -> Forall (fun o => alive o = true) l' -> exists o,
    l' !! Z.to_nat (jumpHash key (Z.of_nat (length l'))) = Some o /\ strategyConsistentHashing alive l' touch None key fb = Ok (Some o, fb)).
  { intros l' Hl' Hlen' Hall'. destruct (jumpHash_lookup key l' Hl' Hlen') as [o Ho]. exists o. split; [by rewrite int32_small in Ho by lia|].
    unfold strategyConsistentHashing. destruct l' as [|y l'']; [done|]. change maxRetry with 5%nat. cbn [consistent_loop]. rewrite Ho.
    by rewrite (Forall_lookup_1 _ _ _ _ Hall' Ho). }
  pose proof Hall as [Hall1 _]%Forall_app. destruct (Hone l Hl ltac:(lia) Hall1) as (o & Ho & ->).
  destruct (Hone (l ++ [x])) as (o' & Ho' & ->); [by destruct l|rewrite length_app; cbn; lia|done|].
  replace (Z.of_nat (length (l ++ [x]))) with (Z.of_nat (length l) + 1) in Ho' by (rewrite length_app; cbn; lia).
  pose proof (jumpHash_range key (Z.of_nat (length l)) ltac:(lia)). destruct (jumpHash_grow key (Z.of_nat (length l))) as [E|E]; [lia|lia| |]; rewrite E in Ho'.
  - left. rewrite lookup_app_l in Ho' by lia. congruence.
  - right. rewrite Nat2Z.id, lookup_app_r, Nat.sub_diag in Ho' by lia. by injection Ho' as ->.
Qed.
End any_index.

(** * Sessions and members that are alive

    Sticky sessions keep their member, and a group is alive exactly when a leaf that it leads
    to has answered. *)

(** ** Sessions *)

(** What a cache is: an entry is there after it was added, a read changes nothing that is
    found, and nothing is found that was not added. *)
Class StickyLaws (C : Type) `{StickyCache C} : Prop := {
  st_Peek_Add : forall k i c, st_Peek k (st_Add k i c) = Some i;
  st_Peek_Add_other : forall k i k' j c, st_Peek k' (st_Add k i c) = Some j -> (k' = k /\ j = i) \/ st_Peek k' c = Some j;
  st_Peek_Get : forall k k' c, st_Peek k' (st_Get k c) = st_Peek k' c
}.

Section sessions.
Context (alive : Outbound -> bool) {C : Type} `{StickyLaws C} (times : nat -> Z).
Implicit Types (l : list Outbound) (cache : C).

(** The indices in the cache are not negative. *)
Definition cache_ok cache : Prop := forall k i, st_Peek k cache = Some i -> 0 <= i.

Lemma cache_ok_Get k cache : cache_ok cache -> cache_ok (st_Get k cache).
Proof. intros Hok k' i. rewrite st_Peek_Get. apply Hok. Qed.

Lemma cache_ok_Add k i cache : 0 <= i -> cache_ok cache -> cache_ok (st_Add k i cache).
Proof. intros Hi Hok k' j [[_ ->]|Hj]%st_Peek_Add_other; [done|by eapply Hok]. Qed.

Definition in_list l (i : Z) : Prop := 0 <= i < Z.of_nat (length l).

Lemma in_list_lookup l i : in_list l i -> exists o, l !! Z.to_nat i = Some o.
Proof. intros Hi. unfold in_list in Hi. apply lookup_lt_is_Some_2. lia. Qed.

Lemma jumpHash_in_list key l : l <> [] -> Z.of_nat (length l) < 2 ^ 31 -> in_list l (jumpHash key (int32 (Z.of_nat (length l)))).
Proof.
  intros Hl Hlen. assert (0 < Z.of_nat (length l)) by (destruct l; [done|cbn; lia]). rewrite int32_small by lia. apply jumpHash_range. lia.
Qed.

Lemma sticky_loop_ok fuel l key i draw : l <> [] -> Z.of_nat (length l) < 2 ^ 31 -> in_list l i ->
  exists r draw', sticky_loop alive times fuel l key i draw = Ok (r, draw') /\
    forall o j, r = Some (o, j) -> in_list l j /\ l !! Z.to_nat j = Some o /\ alive o = true.
Proof.
  intros Hl Hlen. revert i draw. induction fuel as [|fuel IH]; intros i draw Hi; cbn [sticky_loop]; [by exists None, draw|].
  destruct (in_list_lookup l i Hi) as [o Ho]. rewrite Ho. destruct (alive o) eqn:Ha.
  - exists (Some (o, i)), draw. split; [done|]. by intros o' j [= <- <-].
  - apply IH. by apply jumpHash_in_list.
Qed.

(** A call gives a member, and the session is with this member from then on. *)
Lemma sticky_call_ok l key cache draw : l <> [] -> Z.of_nat (length l) < 2 ^ 31 -> cache_ok cache ->
  exists o i cache' draw', strategyStickySessions alive times l None key cache draw = Ok (Some o, cache', draw') /\
    in_list l i /\ l !! Z.to_nat i = Some o /\ st_Peek key cache' = Some i /\ cache_ok cache'.
Proof.
  intros Hl Hlen Hok. unfold strategyStickySessions. assert (Hn : 0 < Z.of_nat (length l)) by (destruct l; [done|cbn; lia]).
  rewrite (proj2 (Z.eqb_neq _ _)) by lia. cbn [isnone accepts].
  set (p := match st_Peek key cache with Some _ => _ | None => _ end).
  set (valid := match st_Peek key cache with Some _ => _ | None => false end).
  assert (Hp : in_list l p.1 /\ (valid = true -> st_Peek key cache = Some p.1)).
  { unfold p, valid. destruct (st_Peek key cache) as [i|] eqn:Hi; [|by split; [apply jumpHash_in_list|]]. destruct (Z.ltb_spec i (Z.of_nat (length l))).
    - split; [|done]. cbn. split; [by eapply Hok|done].
    - by split; [apply jumpHash_in_list|]. }
  clearbody p valid. destruct p as [i draw1]. cbn [fst] in Hp. destruct Hp as [Hi Hv].
  destruct (sticky_loop_ok (maxRetry - 1) l key i draw1 Hl Hlen Hi) as (r & draw2 & -> & Hr). cbn [result_bind].
  destruct r as [[o j]|].
  - destruct (Hr o j eq_refl) as (Hj & Ho & _). exists o, j. eexists _, draw2. split; [done|]. split_and!; [done|done| |].
    + destruct valid; cbn [negb orb].
      * destruct (Z.eqb_spec j i) as [->|]; cbn [negb]; [|apply st_Peek_Add]. rewrite st_Peek_Get. by apply Hv.
      * apply st_Peek_Add.
    + case_match; [apply cache_ok_Add; [apply Hj|]|]; by apply cache_ok_Get.
  - pose proof (jumpHash_in_list key l Hl Hlen) as Hj. destruct (in_list_lookup l _ Hj) as [o Ho]. rewrite Ho.
    exists o, (jumpHash key (int32 (Z.of_nat (length l)))). eexists _, draw2. split; [done|]. split_and!; [done|done|apply st_Peek_Add|].
    apply cache_ok_Add; [apply Hj|by apply cache_ok_Get].
Qed.

(** As long as the entry is there and the member alive, the session stays. *)
Lemma sticky_stays l key cache draw i o : in_list l i -> l !! Z.to_nat i = Some o -> alive o = true -> st_Peek key cache = Some i ->
  exists cache', strategyStickySessions alive times l None key cache draw = Ok (Some o, cache', draw) /\ st_Peek key cache' = Some i /\ (cache_ok cache -> cache_ok cache').
Proof.
  intros Hi Ho Ha Hp. unfold in_list in Hi. unfold strategyStickySessions. rewrite (proj2 (Z.eqb_neq _ _)) by lia. rewrite Hp. rewrite (proj2 (Z.ltb_lt _ _)) by lia.
  change (maxRetry - 1)%nat with 4%nat. cbn [sticky_loop]. rewrite Ho, Ha. cbn [result_bind negb orb isnone accepts]. rewrite Z.eqb_refl. cbn [negb].
  eexists. split; [done|]. split; [by rewrite st_Peek_Get|apply cache_ok_Get].
Qed.
End sessions.

(** ** Members that are alive *)

Section alive.
Context `{GroupInterfaces} (Outbound_of : string -> option Outbound) (history : HistoryStorage) (network : string).
Implicit Types (p q r : Outbound) (checked : gset string).

(** The outbounds that a connection through an outbound may go to. *)
Definition nexts p : list Outbound :=
  match gi_LoadBalance p, gi_Selected p with
  | Some members, _ => omap Outbound_of members
  | None, Some selected => option_list (selected network)
  | None, None => []
  end.

Definition leads_to : Outbound -> Outbound -> Prop := rtc (fun p q => q ∈ nexts p).

(** A leaf that has answered. *)
Definition answered p : Prop := gi_LoadBalance p = None /\ gi_Selected p = None /\ is_Some (history !! ob_Tag p).

(** Outbounds are known by their tags. *)
Definition known p : Prop := Outbound_of (ob_Tag p) = Some p.

Hypothesis Outbound_tag : forall t p, Outbound_of t = Some p -> ob_Tag p = t.
Hypothesis Selected_known : forall p selected q, gi_Selected p = Some selected -> selected network = Some q -> known q.
Context (tags : gset string).
Hypothesis tags_all : forall p, known p -> ob_Tag p ∈ tags.

Lemma nexts_known p q : q ∈ nexts p -> known q.
Proof.
  unfold nexts. destruct (gi_LoadBalance p) as [members|].
  - intros (t & _ & Ht)%list_elem_of_omap. unfold known. by rewrite (Outbound_tag t q Ht).
  - destruct (gi_Selected p) as [selected|] eqn:Hs; [|by intros ?%not_elem_of_nil]. destruct (selected network) as [x|] eqn:Hx; cbn; [|by intros ?%not_elem_of_nil].
    intros ->%list_elem_of_singleton. by eapply Selected_known.
Qed.

(** What was looked at since is done: no leaf that has answered, and all that follows. *)
Definition closed checked checked' : Prop :=
  forall q, known q -> ob_Tag q ∈ checked' -> ob_Tag q ∉ checked -> ~ answered q /\ forall r, r ∈ nexts q -> ob_Tag r ∈ checked'.

Definition search_ok p checked (res : bool * gset string) : Prop :=
  checked ⊆ res.2 /\ (res.1 = true -> exists q, leads_to p q /\ answered q) /\ (res.1 = false -> ob_Tag p ∈ res.2 /\ closed checked res.2).

Lemma closed_trans c1 c2 c3 : c2 ⊆ c3 -> closed c1 c2 -> closed c2 c3 -> closed c1 c3.
Proof.
  intros Hsub H1 H2 q Hq Hin Hn. destruct (decide (ob_Tag q ∈ c2)) as [Hc|Hc]; [|by apply H2].
  destruct (H1 q Hq Hc Hn) as [Ha Hr]. split; [done|]. intros r Hrr. by apply Hsub, Hr.
Qed.

Lemma alive_any_ok (go : option Outbound -> gset string -> option (bool * gset string)) members checked c0 : c0 ⊆ checked ->
  (forall p checked', known p -> c0 ⊆ checked' -> exists res, go (Some p) checked' = Some res /\ search_ok p checked' res) ->
  exists res, alive_any Outbound_of go members checked = Some res /\
  checked ⊆ res.2 /\ (res.1 = true -> exists p q, p ∈ omap Outbound_of members /\ leads_to p q /\ answered q) /\
  (res.1 = false -> (forall p, p ∈ omap Outbound_of members -> ob_Tag p ∈ res.2) /\ closed checked res.2).
Proof.
  intros Hsub Hgo. revert checked Hsub. induction members as [|t members IH]; intros checked Hsub; cbn.
  { eexists. split; [done|]. split_and!; [done|done|]. intros _. split; [by intros p ?%not_elem_of_nil|]. by intros q _ ? ?. }
  destruct (Outbound_of t) as [p|] eqn:Ht; cbn; [|by apply IH]. assert (Hk : known p) by (unfold known; by rewrite (Outbound_tag t p Ht)).
  destruct (Hgo p checked Hk Hsub) as ([b c1] & -> & H1 & H2 & H3). cbn in H1, H2, H3. destruct b.
  - eexists. split; [done|]. split_and!; [done| |done]. intros _. destruct (H2 eq_refl) as (q & Hq & Ha). exists p, q. split; [by left|done].
  - destruct (H3 eq_refl) as [Hin Hcl]. destruct (IH c1) as (res & -> & I1 & I2 & I3); [by transitivity checked|].
    exists res. split; [done|]. split_and!.
    + by transitivity c1.
    + intros Hb. destruct (I2 Hb) as (p' & q & Hp' & Hq). exists p', q. split; [by right|done].
    + intros Hb. destruct (I3 Hb) as [J1 J2]. split.
      * intros p' [->|Hp']%elem_of_cons; [by apply I1|by apply J1].
      * by eapply closed_trans.
Qed.

Lemma search_step p checked res : known p -> ob_Tag p ∉ checked -> ~ answered p -> {[ob_Tag p]} ∪ checked ⊆ res.2 ->
  (res.1 = true -> exists p' q, p' ∈ nexts p /\ leads_to p' q /\ answered q) ->
  (res.1 = false -> (forall p', p' ∈ nexts p -> ob_Tag p' ∈ res.2) /\ closed ({[ob_Tag p]} ∪ checked) res.2) -> search_ok p checked res.
Proof.
  intros Hk Hn Ha Hsub Ht Hf. split_and!; [set_solver| |].
  - intros Hb. destruct (Ht Hb) as (p' & q & Hp' & Hq & Hans). exists q. split; [by eapply rtc_l|done].
  - intros Hb. destruct (Hf Hb) as [Hall Hcl]. split; [set_solver|]. intros q Hq Hin Hnc. destruct (decide (ob_Tag q = ob_Tag p)) as [Heq|Hne].
    + assert (q = p) as -> by (unfold known in *; rewrite Heq in Hq; congruence). done.
    + apply Hcl; [done|done|set_solver].
Qed.

(** A leaf. *)
Lemma search_leaf p checked : known p -> gi_LoadBalance p = None -> gi_Selected p = None ->
  search_ok p checked (nonnone (history !! ob_Tag p), {[ob_Tag p]} ∪ checked).
Proof.
  intros Hk Hlb Hsel. split_and!; cbn; [set_solver| |].
  - intros Hh. exists p. split; [constructor|]. split_and!; [done|done|]. destruct (history !! ob_Tag p); [by eexists|done].
  - intros Hh. split; [set_solver|]. intros q Hq Hin Hn. assert (ob_Tag q = ob_Tag p) as Heq by set_solver.
    assert (q = p) as -> by (unfold known in *; rewrite Heq in Hq; congruence). split.
    + intros (_ & _ & [x Hx]). by rewrite Hx in Hh.
    + unfold nexts. rewrite Hlb, Hsel. by intros r ?%not_elem_of_nil.
Qed.

Lemma alive_ok fuel p checked : known p -> (size (tags ∖ checked) < fuel)%nat ->
  exists res, aliveForTestURL Outbound_of history fuel network (Some p) checked = Some res /\ search_ok p checked res.
Proof.
  revert p checked. induction fuel as [|fuel IH]; intros p checked Hk Hfuel; [lia|]. cbn [aliveForTestURL]. case_bool_decide as Hc.
  { eexists. split; [done|]. split_and!; [done|done|]. intros _. split; [done|]. by intros q _ ? ?. }
  assert (Hsize : forall c, {[ob_Tag p]} ∪ checked ⊆ c -> (size (tags ∖ c) < fuel)%nat).
  { intros c Hsub. assert (Hss : tags ∖ c ⊂ tags ∖ checked) by (pose proof (tags_all p Hk); set_solver). apply subset_size in Hss. lia. }
  destruct (gi_LoadBalance p) as [members|] eqn:Hlb; [|destruct (gi_Selected p) as [selected|] eqn:Hsel].
  - destruct (alive_any_ok (aliveForTestURL Outbound_of history fuel network) members ({[ob_Tag p]} ∪ checked) ({[ob_Tag p]} ∪ checked))
      as (res & -> & H1 & H2 & H3); [done| |].
    { intros p' c' Hk' Hsub. apply IH; [done|by apply Hsize]. }
    assert (Hnext : nexts p = omap Outbound_of members) by (unfold nexts; by rewrite Hlb).
    exists res. split; [done|]. apply search_step; rewrite ?Hnext; [done|done| |done|done|done]. intros [Hx _]. congruence.
  - assert (Hnext : nexts p = option_list (selected network)) by (unfold nexts; by rewrite Hlb, Hsel).
    assert (Hna : ~ answered p) by (intros (_ & Hx & _); congruence). destruct (selected network) as [q|] eqn:Hq; cbn [option_list] in Hnext.
    + destruct (IH q ({[ob_Tag p]} ∪ checked)) as (res & -> & H1 & H2 & H3); [by eapply Selected_known|by apply Hsize|].
      exists res. split; [done|]. apply search_step; rewrite ?Hnext; [done..| |].
      * intros Hb. destruct (H2 Hb) as (x & Hx & Ha). exists q, x. split; [by left|done].
      * intros Hb. destruct (H3 Hb) as [Hin Hcl]. split; [|done]. by intros p' ->%list_elem_of_singleton.
    + specialize (Hsize _ (reflexivity _)). destruct fuel as [|fuel]; [lia|]. cbn [aliveForTestURL]. eexists. split; [done|].
      apply search_step; rewrite ?Hnext; [done..|]. intros _. split; [by intros p' ?%not_elem_of_nil|by intros x _ ? ?].
  - eexists. split; [done|]. by apply search_leaf.
Qed.

Lemma alive_iff fuel p : known p -> (size tags < fuel)%nat ->
  exists alive checked, aliveForTestURL Outbound_of history fuel network (Some p) ∅ = Some (alive, checked) /\
    (alive = true <-> exists q, leads_to p q /\ answered q).
Proof.
  intros Hk Hfuel. destruct (alive_ok fuel p ∅ Hk) as ([b c] & -> & _ & H1 & H2); [by rewrite difference_empty_L|].
  exists b, c. split; [done|]. split; [done|].
  intros (q & Hq & Ha). destruct b; [done|]. destruct (H2 eq_refl) as [Hin Hcl]. cbn in Hin, Hcl. exfalso.
  assert (Hreach : known q /\ ob_Tag q ∈ c).
  { clear Ha H1 H2. induction Hq as [p|p p' q Hpp' _ IH]; [done|]. apply IH; [by eapply nexts_known|]. eapply Hcl; [exact Hk|done|set_solver|done]. }
  destruct Hreach as [Hkq Hqc]. destruct (Hcl q Hkq Hqc) as [Hna _]; [set_solver|]. done.
Qed.
End alive.
