(* ===== verification/GroupTheorems.v ===== *)
(** * Properties of outbound groups and providers

    The fastest member and the first that is fast enough, the members of selectors, load
    balancing, and the checks that updates start; then the updates of the nodes of a
    provider. *)

From stdpp Require Import base gmap strings list pretty relations.
From Stdlib Require Import ZArith Lia.
From S2P Require Import Prelude Lifecycle StartOrder Managers ManagersOk LifecycleTheorems Provider ProviderOrder ProviderOk.
From S2P Require Import Group GroupOk GroupMembers LoadBalance LoadBalanceOk.

Open Scope Z_scope.

(** ** Samples *)

Definition sample_member (id : nat) (tag : string) : Outbound := mkOutbound id tag "test" [] false false.

Definition member_a : Outbound := sample_member 1 "a".
Definition member_b : Outbound := sample_member 2 "b".
Definition member_c : Outbound := sample_member 3 "c".
Definition group_auto : Outbound := sample_member 4 "auto".
Definition group_balance : Outbound := sample_member 5 "balance".

(** A selector of [b], and a load-balance group with a member that is missing and itself. *)
#[local] Instance sample_groups : GroupInterfaces := {|
  gi_Network _ := [NetworkTCP; NetworkUDP];
  gi_Selected o := if bool_decide (o = group_auto) then Some (fun _ => Some member_b) else None;
  gi_LoadBalance o := if bool_decide (o = group_balance) then Some ["none"; "balance"; "auto"; "a"] else None
|}.

Definition sample_lookup (tag : string) : option Outbound :=
  List.find (fun o => bool_decide (ob_Tag o = tag)) [member_a; member_b; member_c; group_auto; group_balance; sample_member 6 "Compatible"].

Lemma sample_lookup_tag tag o : sample_lookup tag = Some o -> ob_Tag o = tag.
Proof. intros [_ Ht]%find_some. by apply bool_decide_eq_true in Ht. Qed.

Definition sample_history (a b : Z) : HistoryStorage := {["a" := mkHistory 0 a; "b" := mkHistory 0 b]}.

Definition sample_urltest (tolerance : Z) (selected : option Outbound) : URLTestGroup :=
  mkURLTestGroup [member_a; member_b; member_c] tolerance false 0 selected None.

(** The cache file of a sample holds one selection. *)
#[local] Instance sample_store : SelectedStore string := {| LoadSelected _ f := f; StoreSelected _ tag _ := tag |}.

Definition sample_selector : Selector := NewSelector "select" ["a"] "" ["p"] false None None.

(** A cache of sessions that is a map. *)
#[local] Instance sample_sessions : StickyCache (gmap Z Z) := {| st_Peek k c := c !! k; st_Get _ c := c; st_Add k i c := <[k := i]> c |}.

#[local] Instance sample_sessions_laws : StickyLaws (gmap Z Z).
Proof.
  split; cbn; [by intros; rewrite lookup_insert_eq| |done]. intros k i k' j c. destruct (decide (k' = k)) as [->|Hne].
  - rewrite lookup_insert_eq. intros [= ->]. by left.
  - rewrite lookup_insert_ne by done. by right.
Qed.

Definition all_but_b (o : Outbound) : bool := negb (bool_decide (ob_Tag o = "b")).

(** ** The fastest member *)

Section urltest.
Context `{GroupInterfaces} (depth : nat).
Implicit Types (g : URLTestGroup) (history : HistoryStorage).

(** C24. With the fallback disabled, a group that tests its members uses one that is within the tolerance of the fastest
    member whose delay is known, and leaves the member in use only for one that is faster by more than the tolerance;
    without any known delay it uses the first member that takes the network.  This is for known delays that are positive
    and, with the tolerance added, below 2^16: a zero delay or a sum that wraps around breaks it. *)
Theorem urltest_fastest network history g : ug_fallback_enabled g = false -> 0 <= ug_tolerance g ->
  (forall o d, o ∈ ug_outbounds g \/ selected_for network g = Some o -> load_delay depth network history o = Some d -> 0 < d /\ d + ug_tolerance g < 2 ^ 16) ->
  match URLTestGroup_Select depth network history g with
  | (Some o, true) =>
      exists d, load_delay depth network history o = Some d /\
        (forall o' d', o' ∈ ug_outbounds g -> takes network o' = true -> load_delay depth network history o' = Some d' -> d <= d' + ug_tolerance g) /\
        (forall used du, selected_for network g = Some used -> load_delay depth network history used = Some du -> o <> used -> d + ug_tolerance g < du)
  | (r, _) =>
      r = List.find (takes network) (ug_outbounds g) /\
      forall o, o ∈ ug_outbounds g -> takes network o = true -> load_delay depth network history o = None
  end.
Proof.
  intros Hfb Htol Hcmp. unfold URLTestGroup_Select. rewrite select_loop_pick. set (l := measured depth network history (ug_outbounds g)).
  assert (Hl : comparable (ug_tolerance g) l) by (intros o d (Hin & _ & Hd)%measured_elem; apply (Hcmp o); [by left|done]).
  set (c := initial_choice depth network history g).
  assert (Hc : choice_ok c /\ ch_ignored c = None /\ match ch_minOutbound c with
    | Some used => selected_for network g = Some used /\ load_delay depth network history used = Some (ch_minDelay c)
    | None => forall used, selected_for network g = Some used -> load_delay depth network history used = None end).
  { unfold c, initial_choice. rewrite Hfb. destruct (selected_for network g) as [used|] eqn:Hs; [|done].
    destruct (load_delay depth network history used) as [du|] eqn:Hd; [|split_and!; [done|done|]; cbn; by intros ? [= <-]].
    split_and!; [|done|done]. unfold choice_ok. cbn. apply (Hcmp used); [by right|done]. }
  destruct Hc as (Hc1 & Hc2 & Hc3). destruct (pick_fastest g l c Hfb Htol Hl Hc1) as (_ & Hign & Hnone & Hmin & Hwhich). set (c' := pick g l c) in *.
  destruct (ch_minOutbound c') as [o|].
  - exists (ch_minDelay c'). split_and!.
    + destruct Hwhich as [[Ho ->]|(o' & [= <-] & Hin & _)]; [|by apply measured_elem in Hin as (_ & _ & ?)]. rewrite <- Ho in Hc3. apply Hc3.
    + intros o' d' Hin Ht Hd'. apply (Hmin o'). by apply measured_elem.
    + intros used du Hs Hdu Hne. destruct Hwhich as [[Ho _]|(o' & _ & _ & Hlt)]; [rewrite <- Ho in Hc3; destruct Hc3 as [? _]; congruence|].
      destruct (ch_minOutbound c) as [x|]; [|by rewrite (Hc3 used Hs) in Hdu]. destruct Hc3 as [Hx Hdx], Hlt as [?|Hlt]; [done|]. assert (x = used) as -> by congruence.
      rewrite Hdx in Hdu. by injection Hdu as <-.
  - rewrite Hign, Hc2. enough (Hno : forall o, o ∈ ug_outbounds g -> takes network o = true -> load_delay depth network history o = None) by (by destruct (List.find _ _)). intros o Hin Ht. destruct (load_delay depth network history o) as [d|] eqn:Hd; [|done].
    destruct (proj1 Hnone eq_refl) as [_ Hnil]. assert (Hel : (o, d) ∈ l) by (by apply measured_elem). rewrite Hnil in Hel. by apply not_elem_of_nil in Hel.
Qed.

(** A fallback group uses the first member, in the order of the configuration, that is fast enough, and the fastest of the
    others when there is none. *)
Theorem urltest_fallback_first network history g : ug_fallback_enabled g = true ->
  (forall o d, o ∈ ug_outbounds g -> load_delay depth network history o = Some d -> 0 < d) ->
  let l := measured depth network history (ug_outbounds g) in
  match List.find (fun x => within g x.2) l with
  | Some (o, _) => URLTestGroup_Select depth network history g = (Some o, true)
  | None =>
      match l with
      | [] => URLTestGroup_Select depth network history g = (List.find (takes network) (ug_outbounds g), false)
      | _ => exists o d, URLTestGroup_Select depth network history g = (Some o, true) /\ (o, d) ∈ l /\ forall o' d', (o', d') ∈ l -> d <= d'
      end
  end.
Proof.
  intros Hfb Hpos l. unfold URLTestGroup_Select. rewrite select_loop_pick. fold l. assert (Hc : initial_choice depth network history g = mkChoice 0 None 0 None) by (unfold initial_choice; by rewrite Hfb).
  rewrite Hc. pose proof (pick_fallback g l (mkChoice 0 None 0 None) Hfb) as Hp. cbn in Hp. specialize (Hp ltac:(intros o d (Hin & _ & Hd)%measured_elem; by eapply Hpos) eq_refl ltac:(done) ltac:(done)).
  set (c' := pick g l _) in *. destruct (List.find _ l) as [[o d]|]; [by rewrite Hp|]. destruct Hp as [-> Hp].
  destruct (ch_ignored c') as [o|]; [|destruct Hp as [-> _]; done]. destruct Hp as ([[? _]|Hin] & _ & Hmin); [done|]. destruct l as [|y l']; [by apply not_elem_of_nil in Hin|].
  by exists o, (ch_ignoredDelay c').
Qed.

(** Whatever members a group is given and whatever delays are measured, the members it uses for TCP and UDP are members
    it has, and it uses one for each network that a member takes. *)
Theorem urltest_selection_member outbounds tolerance fallback maxDelay events :
  let g := foldl (group_event depth) (mkURLTestGroup outbounds tolerance fallback maxDelay None None) events in
  forall network, network = NetworkTCP \/ network = NetworkUDP ->
  match selected_for network g with
  | Some o => o ∈ ug_outbounds g
  | None => events <> [] -> forall o, o ∈ ug_outbounds g -> takes network o = false
  end.
Proof.
  intros g network Hn. destruct (group_events_ok depth events (mkURLTestGroup outbounds tolerance fallback maxDelay None None)) as [Hok Hserved]; [by split|].
  fold g in Hok, Hserved. destruct (selected_for network g) as [o|] eqn:Hs; [by eapply GroupOk.selected_ok|].
  intros Hne o Hin. destruct (takes network o) eqn:Ht; [|done]. destruct (Hserved Hne network Hn) as [x Hx]; [by exists o|congruence].
Qed.
End urltest.

Lemma urltest_fastest_witness :
  URLTestGroup_Select 3 NetworkTCP (sample_history 100 120) (sample_urltest 50 (Some member_b)) = (Some member_b, true) /\
  exists d, load_delay 3 NetworkTCP (sample_history 100 120) member_b = Some d /\ d <= 100 + 50.
Proof.
  split; [by vm_compute|]. assert (Hd : forall o d, load_delay 3 NetworkTCP (sample_history 100 120) o = Some d -> d = 100 \/ d = 120).
  { intros o d. unfold load_delay, sample_history. intros (h & Hh & ->)%fmap_Some.
    apply lookup_insert_Some in Hh as [[_ <-]|[_ Hh]]; [by left|]. apply lookup_singleton_Some in Hh as [_ <-]. by right. }
  pose proof (urltest_fastest 3 NetworkTCP (sample_history 100 120) (sample_urltest 50 (Some member_b)) eq_refl ltac:(done)
    ltac:(intros o d _ [-> | ->]%Hd; cbn; lia)) as H.
  change (URLTestGroup_Select 3 NetworkTCP (sample_history 100 120) (sample_urltest 50 (Some member_b))) with (Some member_b, true) in H.
  destruct H as (d & Hb & Hall & _). exists d. split; [done|]. apply (Hall member_a 100); [by left|by vm_compute|by vm_compute].
Defined.

Lemma urltest_selection_member_witness :
  let g := foldl (group_event 3) (mkURLTestGroup [member_a] 50 false 0 None None) [MembersReplaced [member_b; member_c] (sample_history 100 120)] in
  selected_for NetworkUDP g = Some member_b /\ member_b ∈ ug_outbounds g.
Proof.
  split; [by vm_compute|].
  exact (urltest_selection_member 3 [member_a] 50 false 0 [MembersReplaced [member_b; member_c] (sample_history 100 120)] NetworkUDP (or_intror eq_refl)).
Defined.

(** The sum of a delay and the tolerance is cut to 16 bits: a member that is slower than the one in use by 5.5 seconds is
    taken. *)
Example tolerance_overflows :
  URLTestGroup_Select 3 NetworkTCP (sample_history 100 5600) (sample_urltest 60000 (Some member_a)) = (Some member_b, true).
Proof. by vm_compute. Qed.

(** A delay of 0 is taken for none: a member that answers at once loses to a slower one behind it. *)
Example zero_delay_loses :
  URLTestGroup_Select 3 NetworkTCP (sample_history 0 5000) (sample_urltest 50 (Some member_a)) = (Some member_b, true).
Proof. by vm_compute. Qed.

(** ** Selectors *)

Section selector.
Context {F : Type} `{SelectedStore F} (Outbound_of : string -> option Outbound).
Implicit Types (cacheFile : option F) (providers : gmap string (list Outbound)).

(** C23. A selector that has started, with a default that is empty or one of the outbounds it names, takes every update of
    its providers and every choice.  Afterwards the selected outbound is one of its members, and, if a provider has told it
    of a change, the members are the outbounds it names and those that all of its providers offer at that moment, or the
    compatible one when there are none.  Before the first such change nothing is said of the members. *)
Theorem selector_members_current cacheFile allProviders tag outbounds default providerTags useAll exclude include s events providers :
  (forall t o, Outbound_of t = Some o -> ob_Tag o = t) -> is_Some (Outbound_of "Compatible") -> default = "" \/ default ∈ outbounds ->
  Selector_Start Outbound_of cacheFile allProviders (NewSelector tag outbounds default providerTags useAll exclude include) = (Ok tt, s) ->
  (forall p, p ∈ allProviders -> is_Some (providers !! p)) -> Forall (followed s) events ->
  exists providers' s' cacheFile', selector_run Outbound_of events (providers, s, cacheFile) = Ok (providers', s', cacheFile') /\
    (exists o, sl_selected s' = Some o /\ sl_outbounds s' !! ob_Tag o = Some o) /\
    (changes events -> members_current Outbound_of providers' s').
Proof.
  intros Htag Hcomp Hdef Hstart Hprov Hfol. destruct (Selector_Start_ok Outbound_of Htag cacheFile allProviders _ s (eq_refl : sl_outboundsCache (NewSelector tag outbounds default providerTags useAll exclude include) = ∅) Hstart) as (Hok & Hcache & _).
  destruct (Selector_Start_set Outbound_of cacheFile allProviders _ s Hstart) as (Hdep & Edep & Edef & Hall). cbn in Edep, Edef.
  assert (Hf : cache_fresh providers s) by (intros p l; by rewrite Hcache, lookup_empty).
  assert (Hw : well_set Outbound_of providers s).
  { split_and!; [done|by rewrite Edef, Edep|]. eapply Forall_impl; [done|]. cbn. intros p. apply Hprov. }
  destruct (run_total Outbound_of Htag Hcomp events providers s cacheFile Hw Hf Hok Hfol) as [[[providers' s'] cacheFile'] Hr].
  destruct (run_ok Outbound_of Htag events providers s cacheFile providers' s' cacheFile' Hf Hok Hfol Hr) as (_ & [_ Hsel] & _ & Hm).
  exists providers', s', cacheFile'. split_and!; [done|done|]. intros Hch. apply Hm. by right.
Qed.

(** A member that was chosen stays selected through updates as long as the selector has one of its tag. *)
Theorem selector_choice_kept cacheFile tag s s0 providers events providers' s' cacheFile' cacheFile1 interrupted :
  (forall t o, Outbound_of t = Some o -> ob_Tag o = t) -> (forall group t f, LoadSelected group (StoreSelected group t f) = t) ->
  cache_fresh providers s0 -> GroupMembers.selected_ok s0 -> sl_selected s0 <> sl_outbounds s0 !! tag ->
  SelectOutbound tag s0 cacheFile = (true, interrupted, s, cacheFile1) ->
  Forall (fun ev => exists p nodes, ev = ProviderChanged p nodes /\ p ∈ sl_providerTags s) events ->
  (forall n providers1 s1 cacheFile2, selector_run Outbound_of (take n events) (providers, s, cacheFile1) = Ok (providers1, s1, cacheFile2) -> tag ∈ sl_tags s1) ->
  selector_run Outbound_of events (providers, s, cacheFile1) = Ok (providers', s', cacheFile') -> exists o, sl_selected s' = Some o /\ ob_Tag o = tag.
Proof.
  intros Htag Hstore Hf Hok Hne Hsel Hev Hstay Hr. pose proof (chosen_ok tag s0 cacheFile Hok) as Hc. rewrite Hsel in Hc. destruct Hc as (Hs & Hok' & _ & _ & Hcache).
  eapply (choice_run Outbound_of Htag); [| | |exact Hev|exact Hstay|exact Hr].
  - destruct Hs as (_ & _ & _ & E3 & E4 & _). unfold cache_fresh in *. by rewrite E3, E4, Hcache.
  - done.
  - unfold SelectOutbound in Hsel. destruct (sl_outbounds s0 !! tag) as [o|] eqn:Ho; [|done]. rewrite bool_decide_false in Hsel by done.
    injection Hsel as _ <- <-. split; [exists o; split; [done|by apply Hok]|]. unfold remembers. cbn.
    destruct (empty_string (sl_Tag s0)) eqn:He; [|destruct cacheFile; cbn; [right; apply Hstore|done]]. destruct cacheFile; [|done]. left. by destruct (sl_Tag s0).
Qed.
End selector.

Lemma selector_members_current_witness :
  let s := (Selector_Start sample_lookup (Some "") ["p"] sample_selector).2 in
  let events := [ProviderChanged "p" [member_b; member_c]; Chosen "c"; ProviderChanged "p" [member_c]] in
  exists providers' s' cacheFile', selector_run sample_lookup events ({["p" := []]}, s, Some "") = Ok (providers', s', cacheFile') /\
    sl_selected s' = Some member_c /\ sl_tags s' = ["a"; "c"].
Proof.
  intros s events. destruct (selector_members_current sample_lookup (Some "") ["p"] "select" ["a"] "" ["p"] false None None s events {["p" := []]})
    as (providers' & s' & cacheFile' & Hr & _).
  - apply sample_lookup_tag.
  - by eexists.
  - by left.
  - by vm_compute.
  - intros p ->%list_elem_of_singleton. by eexists.
  - repeat constructor; by left.
  - exists providers', s', cacheFile'. split; [done|]. vm_compute in Hr. injection Hr as _ <- _. by vm_compute.
Defined.

(** A selection of the member that is in use is not saved: after it a selection saved before wins again. *)
Example reselection_not_saved :
  let s := with_members ["a"; "b"] (by_tag [member_a; member_b]) (Some member_a) sample_selector in
  let '(_, _, s1, cacheFile) := SelectOutbound "a" s (Some "b") in
  cacheFile = Some "b" /\ sl_selected s1 = Some member_a /\ outboundSelect cacheFile (by_tag [member_a; member_b]) ["a"; "b"] s1 = Ok (Some member_b).
Proof. by vm_compute. Qed.

(** ** Load balancing *)

(** Round robin is fair from any index: there is an order of the members that are alive in which connections use them,
    round after round; when no member is alive the connections still get members. *)
Theorem round_robin_members_fair (alive : Outbound -> bool) (l : list Outbound) (idx fallbackIdx : Z) : l <> [] ->
  let living := List.filter alive l in
  (living <> [] -> exists order, order ≡ₚ living /\ forall rounds,
    (round_robin_calls alive (rounds * length living) l (idx, fallbackIdx)).1 = concat (replicate rounds (map Some order))) /\
  (living = [] -> forall k, Forall (fun r => exists o, r = Some o /\ o ∈ l) (round_robin_calls alive k l (idx, fallbackIdx)).1).
Proof.
  intros Hl living. split; [|intros Hnil k; by apply round_robin_dead]. intros Hne. assert (Hlen : 0 < Z.of_nat (length l)) by (destruct l; [done|cbn; lia]).
  set (k := Z.to_nat (idx mod Z.of_nat (length l))). pose proof (Z.mod_pos_bound idx _ Hlen) as Hb. assert (Hk : (k < length l)%nat) by (unfold k; lia).
  exists (queue alive l k). split; [apply queue_perm|]. intros rounds. rewrite round_robin_calls_mod by done.
  unfold living. rewrite <- (Permutation_length (queue_perm alive l k)). rewrite <- (round_robin_rounds alive rounds l k fallbackIdx Hk). unfold k. by rewrite Z2Nat.id by lia.
Qed.

Lemma round_robin_members_fair_witness :
  exists order, order ≡ₚ [member_a; member_c] /\
    (round_robin_calls all_but_b 4 [member_a; member_b; member_c] (7, 0)).1 = map Some order ++ map Some order.
Proof.
  destruct (round_robin_members_fair all_but_b [member_a; member_b; member_c] 7 0 ltac:(done)) as [H _].
  destruct (H ltac:(done)) as (order & Ho & Hr). exists order. split; [exact Ho|]. rewrite <- (app_nil_r (map Some order)) at 2. exact (Hr 2%nat).
Defined.

(** C26. Consistent hashing never fails: it gives a member that is alive if there is one and a member in any case, without
    using up the fallback.  When every member is alive and one that is alive too is appended to the list, it takes some of
    the keys and the others stay where they were. *)
Theorem consistent_hashing_moves_little (alive : Outbound -> bool) (l : list Outbound) (touch : bool) (key fallbackIdx : Z) :
  l <> [] -> Z.of_nat (length l) + 1 < 2 ^ 31 ->
  (exists o fallbackIdx', strategyConsistentHashing alive l touch None key fallbackIdx = Ok (Some o, fallbackIdx') /\ o ∈ l /\
    ((exists o', o' ∈ l /\ alive o' = true) -> alive o = true /\ fallbackIdx' = fallbackIdx)) /\
  (forall added, Forall (fun o => alive o = true) (l ++ [added]) ->
    let before := strategyConsistentHashing alive l touch None key fallbackIdx in
    let after := strategyConsistentHashing alive (l ++ [added]) touch None key fallbackIdx in
    after = before \/ after = Ok (Some added, fallbackIdx)).
Proof.
  intros Hl Hlen. split; [|intros added Hall; by apply consistent_grow].
  destruct (consistent_ok alive l touch key fallbackIdx Hl) as (o & fb & Hr & Hin & Ha); [lia|]. exists o, fb. split_and!; [done|done|].
  intros (o' & Hin' & Ha'). apply Ha. intros Hnil. assert (In o' (List.filter alive l)) as Hx by (apply List.filter_In; split; [by apply list_elem_of_In|done]). by rewrite Hnil in Hx.
Qed.

Lemma consistent_hashing_moves_little_witness :
  exists o fb, strategyConsistentHashing all_but_b [member_b; member_a; member_b] true None 42 0 = Ok (Some o, fb) /\ all_but_b o = true.
Proof.
  destruct (consistent_hashing_moves_little all_but_b [member_b; member_a; member_b] true 42 0 ltac:(done) ltac:(cbn; lia)) as [(o & fb & Hr & _ & Ha) _].
  exists o, fb. split; [exact Hr|]. apply Ha. exists member_a. split; [right; by left|done].
Defined.

(** C27. A session sticks to its member while the list of members stays as it is: a connection that no matcher restricts
    always gets a member, and as long as this member is alive and the entry has not expired, the next connections with the
    same source and destination get the same member.  The entry is an index, so the list must be the same one. *)
Theorem sessions_stick {C : Type} `{StickyLaws C} (alive : Outbound -> bool) (times : nat -> Z) (l : list Outbound) (key : Z) (cache : C) (draw : nat) :
  l <> [] -> Z.of_nat (length l) < 2 ^ 31 -> cache_ok cache ->
  exists o cache' draw', strategyStickySessions alive times l None key cache draw = Ok (Some o, cache', draw') /\ o ∈ l /\ cache_ok cache' /\
    forall alive' cache'' draw'', alive' o = true -> st_Peek key cache'' = st_Peek key cache' ->
      exists cache3, strategyStickySessions alive' times l None key cache'' draw'' = Ok (Some o, cache3, draw'') /\ st_Peek key cache3 = st_Peek key cache'.
Proof.
  intros Hl Hlen Hok. destruct (sticky_call_ok alive times l key cache draw Hl Hlen Hok) as (o & i & cache' & draw' & Hr & Hi & Ho & Hp & Hok').
  exists o, cache', draw'. split_and!; [done|by eapply list_elem_of_lookup_2|done|]. intros alive' cache'' draw'' Ha Hsame. rewrite Hp in Hsame.
  destruct (sticky_stays alive' times l key cache'' draw'' i o Hi Ho Ha Hsame) as (cache3 & Hr3 & Hp3 & _). exists cache3. split; [done|congruence].
Qed.

Lemma sessions_stick_witness :
  exists (cache' : gmap Z Z) draw', strategyStickySessions all_but_b (fun n => Z.of_nat n) [member_b; member_a] None 42 (∅ : gmap Z Z) 0 = Ok (Some member_a, cache', draw') /\
    exists cache3, strategyStickySessions all_but_b (fun n => Z.of_nat n) [member_b; member_a] None 42 (<[7 := 0]> cache') 9 = Ok (Some member_a, cache3, 9%nat).
Proof.
  destruct (sessions_stick all_but_b (fun n => Z.of_nat n) [member_b; member_a] 42 (∅ : gmap Z Z) 0 ltac:(done) ltac:(cbn; lia) ltac:(by intros k i Hk))
    as (o & cache' & draw' & Hr & _ & _ & Hnext).
  assert (o = member_a) as -> by (vm_compute in Hr; by injection Hr as <- _ _). exists cache', draw'. split; [exact Hr|].
  destruct (Hnext all_but_b (<[7 := 0]> cache') 9%nat ltac:(by vm_compute) ltac:(cbn; by rewrite lookup_insert_ne)) as (cache3 & H3 & _). by exists cache3.
Defined.

(** C25. A member counts as alive exactly when a connection through it can reach an outbound that has answered a test: over
    all members of load-balance groups and the selected member of other groups, however they are nested and even when groups
    refer to each other in a circle: the search always ends.  One more than the number of tags is enough fuel.  Outbounds
    have different tags, and what a group has selected is one of them. *)
Theorem member_alive_by_leaf `{GroupInterfaces} (Outbound_of : string -> option Outbound) (history : HistoryStorage) (network : string)
    (tags : gset string) (p : Outbound) (fuel : nat) :
  (forall t o, Outbound_of t = Some o -> ob_Tag o = t) ->
  (forall o selected o', gi_Selected o = Some selected -> selected network = Some o' -> known Outbound_of o') ->
  (forall o, known Outbound_of o -> ob_Tag o ∈ tags) -> known Outbound_of p -> (size tags < fuel)%nat ->
  exists alive checked, aliveForTestURL Outbound_of history fuel network (Some p) ∅ = Some (alive, checked) /\
    (alive = true <-> exists o, leads_to Outbound_of network p o /\ answered history o).
Proof. intros Htag Hsel Htags Hp Hfuel. by apply (alive_iff Outbound_of history network Htag Hsel tags). Qed.

Lemma member_alive_by_leaf_witness :
  exists checked, aliveForTestURL sample_lookup {["b" := mkHistory 0 100]} 8 NetworkTCP (Some group_balance) ∅ = Some (true, checked) /\
  exists o, leads_to sample_lookup NetworkTCP group_balance o /\ answered {["b" := mkHistory 0 100]} o.
Proof.
  destruct (member_alive_by_leaf sample_lookup {["b" := mkHistory 0 100]} NetworkTCP {["a"; "b"; "c"; "auto"; "balance"; "Compatible"]} group_balance 8) as (alive & checked & Hs & Ha).
  - apply sample_lookup_tag.
  - intros o selected o'. cbn. case_bool_decide; [|done]. intros [= <-] [= <-]. by vm_compute.
  - intros o Ho%find_some. destruct Ho as [Hin _]. cbn in Hin. repeat destruct Hin as [<-|Hin]; try done; cbn; set_solver.
  - by vm_compute.
  - vm_compute; lia.
  - assert (alive = true) as -> by (vm_compute in Hs; by injection Hs as <- _). exists checked. split; [exact Hs|by apply Ha].
Defined.

(** ** Checks *)

(** A check that was asked for after an update of a provider is made: without further calls, the goroutine that is there
    begins a check after the last call. *)
Theorem no_check_lost c : rtc checks_step no_checks c ->
  exists c', rtc checks_step c c' /\ ck_asked c' = ck_asked c /\ ck_seen c' = ck_asked c.
Proof.
  intros Hr. destruct (checks_reachable c Hr) as (H1 & _ & H3 & H4). destruct c as [[running pending] runner asked seen]. cbn in *.
  destruct pending; [|exists (mkChecks (mkScheduler running false) runner asked seen); split_and!; [constructor|done|by apply H3]].
  specialize (H4 eq_refl). exists (mkChecks (mkScheduler running false) RunnerChecking asked asked). split_and!; [|done|done]. destruct runner; [done| |].
  - apply rtc_once. exact (begin_check (mkScheduler running true) asked seen).
  - eapply rtc_l; [exact (end_check (mkScheduler running true) asked seen)|]. apply rtc_once. exact (begin_check (mkScheduler running true) asked seen).
Qed.

(** * Properties of providers *)

Close Scope Z_scope.

(** ** Samples *)

(** Options are a number; a node with 99 can not be created. *)
Definition sample_registry (id : Component) (endpoint : bool) (tag : string) (o : NodeOption nat) : result Outbound :=
  match no_Options o with
  | Some (mkNodeOptions _ _ 99) => Err (ENew "invalid")
  | _ => Ok (mkOutbound id tag (no_Type o) (dependencies o) endpoint true)
  end.

Lemma sample_registry_ok id b tag o node : sample_registry id b tag o = Ok node -> ob_id node = id /\ ob_Tag node = tag /\ node_kind b node.
Proof. unfold sample_registry. repeat case_match; intros [= <-]; done. Qed.

Lemma sample_Errors_some e e' : e <> None \/ e' <> None -> sample_Errors (sample_Expand e ++ sample_Expand e') <> None.
Proof. destruct e, e'; cbn; intros [?|?]; done. Qed.

Definition sample_option (tag detour : string) (rest : nat) : NodeOption nat :=
  mkNodeOption "test" tag (Some (mkNodeOptions (Some detour) None rest)).

Definition sample_world : World nat := mkWorld (new_managers "") 1.

Lemma sample_world_ok : world_ok sample_world.
Proof. split; [apply new_managers_ok|]. by intros [] o Ho%not_elem_of_nil. Qed.

#[local] Abbreviation sample_update :=
  (UpdateNodes sample_Start sample_run sample_never sample_never sample_Errors sample_Expand sample_registry false).

(** Two outbounds and an endpoint between them. *)
Definition sample_outbounds (rest : nat) : list (NodeOption nat) := [sample_option "last" "p/middle" rest; sample_option "first" "" 1].
Definition sample_endpoints : list (NodeOption nat) := [sample_option "middle" "p/first" 1].

Definition sample_updated : Adapter nat * World nat :=
  let '(_, _, a, w) := sample_update (sample_outbounds 1) sample_endpoints (NewAdapter "p") sample_world in (a, w).

Section provider.
Context {A P : Type} `{EqDecision P}.
Context (component_Start : Component -> StartStage -> list A * result unit) (run : A -> option error).
Context (IsClosed IsCanceled : error -> bool) (Errors : list error -> option error) (Expand : option error -> list error).
Context (registry : Component -> bool -> string -> NodeOption P -> result Outbound) (cancelled : bool).

(** The nodes of a subscription are put in an order exactly when there is one: if no tag is given to an outbound and an
    endpoint, no node needs itself through others, and what is needed from outside is there and is not an older node of the
    same provider, then every node comes after all it needs; otherwise the update is refused. *)
Theorem provider_update_order (a : Adapter P) (w : World A) (outOpts epOpts : list (NodeOption P)) :
  let new := new_nodes (ad_providerTag a) outOpts epOpts in
  match order_nodes (resolveOutboundTags (ad_providerTag a) outOpts) (resolveEndpointTags (ad_providerTag a) epOpts) outOpts epOpts a w with
  | Ok ordered => possible (provider_found w) (provider_owns a) new /\ in_dependency_order new ordered
  | Err _ => ~ possible (provider_found w) (provider_owns a) new
  end.
Proof. apply order_nodes_ok. Qed.

(** C21. An update of a provider decides every node on its own: one whose options have not changed stays the same object,
    one that has changed is replaced by a new one, and where that fails what was in use before stays in use and is tried
    again; nodes that are gone are removed from the managers, and nothing else in them changes.  An update that can not be
    ordered changes nothing at all. *)
Theorem provider_update_nodes providerTag w0 (a a' : Adapter P) (w w' : World A) outOpts epOpts ran r :
  (forall e e', e <> None \/ e' <> None -> Errors (Expand e ++ Expand e') <> None) ->
  (forall id b tag o node, registry id b tag o = Ok node -> ob_id node = id /\ ob_Tag node = tag /\ node_kind b node) ->
  world_ok w0 ->
  rtc (provider_step component_Start run IsClosed IsCanceled Errors Expand registry cancelled) (NewAdapter providerTag, w0) (a, w) ->
  UpdateNodes component_Start run IsClosed IsCanceled Errors Expand registry cancelled outOpts epOpts a w = (ran, r, a', w') ->
  let new := new_nodes (ad_providerTag a) outOpts epOpts in
  (possible (provider_found w) (provider_owns a) new /\ updated registry a w new r a' w') \/
  (~ possible (provider_found w) (provider_owns a) new /\ (exists e, r = Err e) /\ ran = [] /\ a' = a /\ w' = w).
Proof.
  intros HE Hreg Hw0 Hr Hu. assert (Hok : provider_ok a w) by (by eapply reachable_provider_ok).
  pose proof (UpdateNodes_ok component_Start run IsClosed IsCanceled Errors Expand registry cancelled HE Hreg a w outOpts epOpts Hok) as H.
  by rewrite Hu in H.
Qed.

(** C22. A provider leaves nothing behind: if nothing was named "<provider>/..." before it, then after any updates and its
    close, with whatever failures, the managers have under every tag what they had before the provider. *)
Theorem provider_leaves_nothing providerTag (w0 w : World A) (a : Adapter P) updates :
  (forall e e', e <> None \/ e' <> None -> Errors (Expand e ++ Expand e') <> None) ->
  (forall id b tag o node, registry id b tag o = Ok node -> ob_id node = id /\ ob_Tag node = tag /\ node_kind b node) ->
  world_ok w0 -> (forall b s, own b (providerTag +:+ "/" +:+ s) w0 = None) ->
  update_all component_Start run IsClosed IsCanceled Errors Expand registry cancelled updates (NewAdapter providerTag) w0 = (a, w) ->
  let '(_, _, a', w') := Adapter_Close run IsClosed IsCanceled Errors Expand a w in
  Outbounds a' = [] /\ world_ok w' /\ forall b tag, own b tag w' = own b tag w0.
Proof.
  intros HE Hreg Hw0 Hfree Hu.
  destruct (apart_all component_Start run IsClosed IsCanceled Errors Expand registry cancelled HE Hreg w0 updates (NewAdapter providerTag) w0 a w)
    as [Htag Hap]; [done| |done|].
  - split; [by apply new_provider_ok|]. split; [done|]. intros [] t Ht; by apply not_elem_of_nil in Ht.
  - apply (apart_close component_Start run IsClosed IsCanceled Errors Expand w0 a w); [by rewrite Htag|done].
Qed.
End provider.

(** ** Instances *)

Lemma provider_update_nodes_witness :
  let '(a, w) := sample_updated in
  let '(ran, r, a', w') := sample_update (sample_outbounds 99) sample_endpoints a w in
  updated sample_registry a w (new_nodes "p" (sample_outbounds 99) sample_endpoints) r a' w' /\
  map (fun o => (ob_id o, ob_Tag o)) (Outbounds a') = [(3, "p/last"); (1, "p/first"); (2, "p/middle")].
Proof.
  destruct sample_updated as [a w] eqn:H1. destruct (sample_update (sample_outbounds 99) sample_endpoints a w) as [[[ran r] a'] w'] eqn:H2.
  assert (Hw : wd_next w = 4) by (vm_compute in H1; by injection H1 as <- <-).
  assert (Hw' : wd_next w' = 5) by (vm_compute in H1; injection H1 as <- <-; vm_compute in H2; by injection H2 as <- <- <- <-).
  split; [|vm_compute in H1; injection H1 as <- <-; vm_compute in H2; by injection H2 as <- <- <- <-].
  destruct (provider_update_nodes sample_Start sample_run sample_never sample_never sample_Errors sample_Expand sample_registry false
    "p" sample_world a a' w w' (sample_outbounds 99) sample_endpoints ran r sample_Errors_some sample_registry_ok sample_world_ok) as [[_ H]|(_ & _ & _ & _ & ->)].
  - apply rtc_once. unfold sample_updated in H1. destruct (sample_update (sample_outbounds 1) _ _ _) as [[[ran1 r1] a1] w1] eqn:Hu.
    injection H1 as <- <-. by eapply step_update.
  - exact H2.
  - assert (Ht : ad_providerTag a = "p") by (vm_compute in H1; by injection H1 as <- <-). by rewrite Ht in H.
  - congruence.
Defined.

Lemma provider_leaves_nothing_witness :
  let '(a, w) := update_all sample_Start sample_run sample_never sample_never sample_Errors sample_Expand sample_registry false
    [(sample_outbounds 1, sample_endpoints); (sample_outbounds 99, []); ([sample_option "new" "" 5], sample_endpoints)] (NewAdapter "p") sample_world in
  let '(_, _, _, w') := Adapter_Close sample_run sample_never sample_never sample_Errors sample_Expand a w in
  forall b tag, own b tag w' = own b tag sample_world.
Proof.
  destruct (update_all _ _ _ _ _ _ _ _ _ _ _) as [a w] eqn:Hu.
  pose proof (provider_leaves_nothing sample_Start sample_run sample_never sample_never sample_Errors sample_Expand sample_registry false
    "p" sample_world w a _ sample_Errors_some sample_registry_ok sample_world_ok ltac:(by intros [] s) Hu) as H.
  destruct (Adapter_Close _ _ _ _ _ a w) as [[[ran r] a'] w']. apply H.
Defined.
