(* ===== verification/Reference.v ===== *)
(** * References to outbounds and DNS servers

    [src/route/reference_rule.go] and [reference.go]: which rules can still match in the
    current mode, which outbounds and servers they and others may use, and which of these are
    told to keep idle connections. *)

From stdpp Require Import base gmap strings list.
From Stdlib Require Import ZArith Lia.
From S2P Require Import Prelude Net GoStrings Metadata RuleMatch RuleItems RuleOptions DnsMode RouteContext Sniff.
From S2P Require Import Lifecycle StartOrder Managers Group Route.

Open Scope Z_scope.

(** ** What a rule can do in a mode *)

Inductive staticMatch : Type := staticMatchUnknown | staticMatchNever | staticMatchAlways.

#[export] Instance staticMatch_eq_dec : EqDecision staticMatch.
Proof. solve_decision. Defined.

Definition staticMatch_invert (m : staticMatch) : staticMatch :=
  match m with
  | staticMatchNever => staticMatchAlways
  | staticMatchAlways => staticMatchNever
  | staticMatchUnknown => staticMatchUnknown
  end.

Section evaluate.
Context `{GoUnicode} (mode : string).

Definition evaluateClashMode (clashModes : list string) (invert otherConditions : bool) : staticMatch :=
  let m := if nonnil clashModes && negb (existsb (fun clashMode => EqualFold clashMode mode) clashModes) then staticMatchNever
           else if negb otherConditions then staticMatchAlways
           else staticMatchUnknown in
  if invert then staticMatch_invert m else m.

(** The loop of [evaluateLogical]. *)
Fixpoint evaluate_loop (logicalMode : string) (matches : list staticMatch) (m : staticMatch) : staticMatch :=
  match matches with
  | [] => m
  | ruleMatch :: rest =>
      if bool_decide (logicalMode = LogicalTypeAnd) && bool_decide (ruleMatch = staticMatchNever) then staticMatchNever
      else if bool_decide (logicalMode = LogicalTypeOr) && bool_decide (ruleMatch = staticMatchAlways) then staticMatchAlways
      else evaluate_loop logicalMode rest (if bool_decide (ruleMatch = staticMatchUnknown) then staticMatchUnknown else m)
  end.

Definition evaluateLogical (matches : list staticMatch) (logicalMode : string) (invert : bool) : staticMatch :=
  let m := evaluate_loop logicalMode matches (if bool_decide (logicalMode = LogicalTypeAnd) then staticMatchAlways else staticMatchNever) in
  if invert then staticMatch_invert m else m.

(** The options without modes and inversion. *)
Definition ro_conditions (o : RawDefaultRule) : RawDefaultRule :=
  mkRawDefaultRule
    (ro_Inbound o) (ro_IPVersion o) (ro_Network o) (ro_AuthUser o) (ro_Protocol o) (ro_Client o)
    (ro_Domain o) (ro_DomainSuffix o) (ro_DomainKeyword o) (ro_DomainRegex o) (ro_Geosite o)
    (ro_SourceGeoIP o) (ro_GeoIP o) (ro_SourceIPCIDR o) (ro_SourceIPIsPrivate o) (ro_IPCIDR o)
    (ro_IPIsPrivate o) (ro_SourcePort o) (ro_SourcePortRange o) (ro_Port o) (ro_PortRange o)
    (ro_ProcessName o) (ro_ProcessPath o) (ro_ProcessPathRegex o) (ro_PackageName o)
    (ro_PackageNameRegex o) (ro_User o) (ro_UserID o) [] (ro_NetworkType o) (ro_NetworkIsExpensive o)
    (ro_NetworkIsConstrained o) (ro_WIFISSID o) (ro_WIFIBSSID o) (ro_InterfaceAddress o)
    (ro_NetworkInterfaceAddress o) (ro_DefaultInterfaceAddress o) (ro_SourceMACAddress o)
    (ro_SourceHostname o) (ro_PreferredBy o) (ro_DNSServerAddress o) (ro_DNSSearchDomain o) (ro_RuleSet o)
    (ro_RuleSetIPCIDRMatchSource o) (ro_DomainMatchStrategy o) false
    (ro_Deprecated_RulesetIPCIDRMatchSource o).

Definition do_conditions (o : RawDefaultDNSRule) : RawDefaultDNSRule :=
  mkRawDefaultDNSRule
    (do_Inbound o) (do_IPVersion o) (do_QueryType o) (do_QueryClientSubnet o) (do_QueryDNSSEC o)
    (do_Network o) (do_AuthUser o) (do_Protocol o) (do_Domain o) (do_DomainSuffix o) (do_DomainKeyword o)
    (do_DomainRegex o) (do_SourceIPCIDR o) (do_SourceIPIsPrivate o) (do_SourcePort o)
    (do_SourcePortRange o) (do_Port o) (do_PortRange o) (do_ProcessName o) (do_ProcessPath o)
    (do_ProcessPathRegex o) (do_PackageName o) (do_PackageNameRegex o) (do_User o) (do_UserID o)
    (do_Outbound o) [] (do_NetworkType o) (do_NetworkIsExpensive o) (do_NetworkIsConstrained o)
    (do_WIFISSID o) (do_WIFIBSSID o) (do_InterfaceAddress o) (do_NetworkInterfaceAddress o)
    (do_DefaultInterfaceAddress o) (do_SourceMACAddress o) (do_SourceHostname o) (do_PreferredBy o)
    (do_DNSServerAddress o) (do_DNSSearchDomain o) (do_RuleSet o) (do_RuleSetIPCIDRMatchSource o)
    (do_MatchResponse o) (do_IPCIDR o) (do_IPIsPrivate o) (do_IPAcceptAny o) (do_ResponseRcode o)
    (do_ResponseAnswer o) (do_ResponseNs o) (do_ResponseExtra o) false (do_Geosite o) (do_SourceGeoIP o)
    (do_GeoIP o) (do_RuleSetIPCIDRAcceptEmpty o) (do_Deprecated_RulesetIPCIDRMatchSource o).

Fixpoint evaluateRule (r : RouteRule) : staticMatch :=
  match r with
  | mkRouteRule ty d lmode rules _ inv _ =>
      if bool_decide (ty = RuleTypeDefault) then
        evaluateClashMode (ro_ClashMode d) (ro_Invert d) (negb (RawDefaultRule_zero (ro_conditions d)))
      else if bool_decide (ty = RuleTypeLogical) then evaluateLogical (map evaluateRule rules) lmode inv
      else staticMatchUnknown
  end.

Fixpoint evaluateDNSRule (r : DNSRule) : staticMatch :=
  match r with
  | mkDNSRule ty d lmode rules inv _ =>
      if bool_decide (ty = RuleTypeDefault) then
        evaluateClashMode (do_ClashMode d) (do_Invert d) (negb (RawDefaultDNSRule_zero (do_conditions d)))
      else if bool_decide (ty = RuleTypeLogical) then evaluateLogical (map evaluateDNSRule rules) lmode inv
      else staticMatchUnknown
  end.

(** ** What rules refer to *)

(** What the actions of a rule refer to: outbounds, servers, and whether they end the search. *)
Record ActionReferences : Type := mkActionReferences { ar_outbounds : list string; ar_transports : list string; ar_final : bool }.

Definition no_references : ActionReferences := mkActionReferences [] [] false.

Definition action_references (isPassOutbound : string -> bool) (action : RuleActionFields) : ActionReferences :=
  let a := act_Action action in
  if bool_decide (a = "route"%string) then
    let outbound := rao_Outbound (act_RouteOptions action) in mkActionReferences [outbound] [] (negb (isPassOutbound outbound))
  else if bool_decide (a = "bypass"%string) then
    let outbound := rao_Outbound (act_BypassOptions action) in
    if empty_string outbound then no_references else mkActionReferences [outbound] [] true
  else if bool_decide (a = "direct"%string) || bool_decide (a = "reject"%string) || bool_decide (a = "hijack-dns"%string)
  then mkActionReferences [] [] true
  else if bool_decide (a = "resolve"%string) then mkActionReferences [] [rvo_Server (act_ResolveOptions action)] false
  else no_references.

Definition dns_action_references (action : DNSRuleActionOptions) : ActionReferences :=
  let a := da_Action action in
  if bool_decide (a = "route"%string) then mkActionReferences [] [dro_Server (da_RouteOptions action)] true
  else if bool_decide (a = "evaluate"%string) then mkActionReferences [] [deo_Server (da_EvaluateOptions action)] false
  else if bool_decide (a = "respond"%string) || bool_decide (a = "reject"%string) || bool_decide (a = "predefined"%string)
  then mkActionReferences [] [] true
  else no_references.

(** The loop of both collections: whether the rules leave nothing to the default, and what
    they add to the queues. *)
Fixpoint collect_references (l : list (staticMatch * ActionReferences)) : bool * list string * list string :=
  match l with
  | [] => (false, [], [])
  | (m, a) :: rest =>
      if bool_decide (m = staticMatchNever) then collect_references rest
      else if ar_final a && bool_decide (m = staticMatchAlways) then (true, ar_outbounds a, ar_transports a)
      else let '(shadowed, outbounds, transports) := collect_references rest in
           (shadowed, ar_outbounds a ++ outbounds, ar_transports a ++ transports)
  end.

(** A rule with the fields of its action. *)
Definition known_rule_type (r : RouteRule) : bool :=
  match r with mkRouteRule ty _ _ _ _ _ _ => bool_decide (ty = RuleTypeDefault) || bool_decide (ty = RuleTypeLogical) end.

Definition collectRuleReferences (isPassOutbound : string -> bool) (rules : list (RouteRule * RuleActionFields)) : bool * list string * list string :=
  collect_references (map (fun x => (evaluateRule x.1, if known_rule_type x.1 then action_references isPassOutbound x.2 else no_references)) rules).

Definition dns_rule_action (r : DNSRule) : ActionReferences :=
  match r with
  | mkDNSRule ty _ _ _ _ action =>
      if bool_decide (ty = RuleTypeDefault) || bool_decide (ty = RuleTypeLogical) then dns_action_references action else no_references
  end.

Definition collectDNSRuleReferences (rules : list DNSRule) : bool * list string :=
  let '(shadowed, _, transports) := collect_references (map (fun r => (evaluateDNSRule r, dns_rule_action r)) rules) in
  (shadowed, transports).
End evaluate.

(** [enabledRuleOptions] *)
Definition enabledRuleOptions {O : Type} (options : list O) (disabled : list bool) : list O :=
  if negb (length options =? length disabled)%nat then options
  else omap (fun x : O * bool => if x.2 then None else Some x.1) (zip options disabled).

(** ** The queues *)

(** [load] is the lookup in a manager, [next] what a node refers to. *)
Section queue.
Context {X : Type} (load : string -> option X) (next : X -> list string).

(** A queue with the tags that were referenced before; the nodes that are visited come last. *)
Fixpoint visit_queue (fuel : nat) (queue : list string) (referenced : gset string) (visited : list X) : option (gset string * list X) :=
  match queue with
  | [] => Some (referenced, visited)
  | tag :: rest =>
      match fuel with
      | O => None
      | S fuel' =>
          if empty_string tag || bool_decide (tag ∈ referenced) then visit_queue fuel' rest referenced visited
          else
            match load tag with
            | None => visit_queue fuel' rest referenced visited
            | Some node => visit_queue fuel' (rest ++ next node) ({[tag]} ∪ referenced) (visited ++ [node])
            end
      end
  end.
End queue.

(** ** Idle connections *)

(** An outbound, endpoint or DNS server that can be told to keep idle connections. *)
Inductive Keeper : Type := OutboundKeeper (id : Component) | TransportKeeper (id : nat).

#[export] Instance Keeper_eq_dec : EqDecision Keeper.
Proof. solve_decision. Defined.

#[export] Instance Keeper_countable : Countable Keeper.
Proof.
  refine (inj_countable' (fun k => match k with OutboundKeeper i => inl i | TransportKeeper i => inr i end)
    (fun s => match s with inl i => OutboundKeeper i | inr i => TransportKeeper i end) _). by intros [].
Qed.

(** ** What groups refer to *)

Definition Selector_Selected (s : Selector) : option Outbound := sl_selected s.

Definition Selector_References (s : Selector) : list string :=
  match sl_selected s with
  | Some selected => [ob_Tag selected]
  | None => take 1 (sl_tags s)
  end.

Definition URLTest_Selected `{GroupInterfaces} (depth : nat) (network : string) (history : HistoryStorage) (g : URLTestGroup) : option Outbound :=
  match (if bool_decide (network = "udp"%string) then ug_selectedOutboundUDP g else ug_selectedOutboundTCP g) with
  | Some o => Some o
  | None => (URLTestGroup_Select depth network history g).1
  end.

(** A group that was not started is [None]. *)
Definition URLTest_References (group : option URLTestGroup) : list string :=
  match group with
  | None => []
  | Some g =>
      match ug_selectedOutboundTCP g with Some o => [ob_Tag o] | None => [] end ++
      match ug_selectedOutboundUDP g with
      | Some o => if bool_decide (ug_selectedOutboundTCP g = Some o) then [] else [ob_Tag o]
      | None => []
      end
  end.

Definition LoadBalance_References (dependencies : list string) (group : option (list Outbound)) : list string :=
  match group with None => dependencies | Some outbounds => map ob_Tag outbounds end.

(** ** Servers in the options *)

(** The interfaces that the options of an outbound may have: a server for the names of the
    outbound, directly or with the options of its dialer, and an inner one.  The options
    themselves may be missing. *)
Record ResolverOptions : Type := mkResolverOptions {
  rs_DomainResolver : option (option string);
  rs_Dialer : option (option string);
  rs_Inner : option (option string)
}.

Definition appendDomainResolver (transports : list string) (rawOptions : ResolverOptions) : list string :=
  let domainResolver := match rs_DomainResolver rawOptions, rs_Dialer rawOptions with
                        | Some r, _ => r
                        | None, Some r => r
                        | None, None => None
                        end in
  let append (resolver : option string) (l : list string) := match resolver with
                                                             | Some server => if empty_string server then l else l ++ [server]
                                                             | None => l
                                                             end in
  let transports1 := append domainResolver transports in
  match rs_Inner rawOptions with
  | Some inner => append inner transports1
  | None => transports1
  end.

(** The queues [NewReferenceManager] starts with; the time service is [None] when it is not
    enabled. *)
Definition static_references (ntpDetour : option string) (outbounds endpoints : list ResolverOptions) : list string * list string :=
  (match ntpDetour with Some detour => if empty_string detour then [] else [detour] | None => [] end,
   foldl appendDomainResolver (foldl appendDomainResolver [] outbounds) endpoints).

(** ** The manager *)

Record Transport : Type := mkTransport {
  tp_id : nat;
  tp_Tag : string;
  tp_Dependencies : list string;
  tp_References : option (list string);
  tp_isKeeper : bool
}.

Record ReferenceManager : Type := mkReferenceManager {
  rm_keepIdle : gmap Keeper bool;
  rm_unreferencedTransports : option (gset string)
}.

(** [applyKeepIdle]: the new map, and what keepers are told. *)
Definition applyKeepIdle (m : ReferenceManager) (target : Keeper * bool) (st : gmap Keeper bool * list (Keeper * bool))
    : gmap Keeper bool * list (Keeper * bool) :=
  let '(keepIdle, told) := st in
  (<[target.1 := target.2]> keepIdle,
   if bool_decide (rm_keepIdle m !! target.1 = Some target.2) then told else told ++ [target]).

(** What the manager finds when it updates, besides outbounds and endpoints. *)
Record Surroundings : Type := mkSurroundings {
  su_mode : string;
  su_rules : list (RouteRule * RuleActionFields);
  su_ruleDisabled : list bool;
  su_dnsRules : list DNSRule;
  su_dnsRuleDisabled : list bool;
  su_transports : list Transport;
  su_defaultTransport : option string;
  su_defaultDomainResolver : string;
  su_referrers : list string;
  su_staticOutbounds : list string;
  su_staticTransports : list string;
  su_devicePaused : bool
}.

(** What is known of outbounds: [References], if they have the method, whether they keep idle
    connections and whether they are on demand. *)
Class ReferenceInterfaces : Type := {
  ri_References : Outbound -> option (list string);
  ri_isKeeper : Outbound -> bool;
  ri_OnDemand : Outbound -> bool
}.

Section update.
Context `{GoUnicode} `{OutboundInterfaces} `{ReferenceInterfaces} {A : Type} (w : managers (A := A)).
Implicit Types (s : Surroundings) (o : Outbound) (t : Transport).

Definition all_outbounds : list Outbound := nd_list (om_nodes w.1).
Definition all_endpoints : list Outbound := nd_list (em_nodes w.2).

Definition find_transport s (tag : string) : option Transport := List.find (fun t => bool_decide (tp_Tag t = tag)) (su_transports s).

Definition outbound_next o : list string := match ri_References o with Some l => l | None => ob_Dependencies o end.

(** Enough for every tag that is put in a queue. *)
Definition queue_fuel {X : Type} (next : X -> list string) (nodes : list X) (queue : list string) : nat :=
  length queue + length (flat_map next nodes).

(** The queues before they are worked off. *)
Definition initial_queues s : list string * list string :=
  let rules := enabledRuleOptions (su_rules s) (su_ruleDisabled s) in
  let dnsRules := enabledRuleOptions (su_dnsRules s) (su_dnsRuleDisabled s) in
  let '(dnsShadowed, dnsTransports) := collectDNSRuleReferences (su_mode s) dnsRules in
  let '(shadowed, outbounds, transports) := collectRuleReferences (su_mode s) (isPassOutbound w) rules in
  let transportQueue := su_staticTransports s ++ dnsTransports ++
    (if dnsShadowed then [] else match su_defaultTransport s with Some tag => [tag] | None => [] end) ++
    [su_defaultDomainResolver s] ++ transports in
  let outboundQueue := su_staticOutbounds s ++ outbounds ++
    (if shadowed then [] else match om_default w.1 with Some o => [ob_Tag o] | None => [] end) ++
    map ob_Tag (List.filter (fun o => negb (ri_OnDemand o)) all_endpoints) ++ su_referrers s in
  (transportQueue, outboundQueue).

(** The servers and outbounds that are referenced; [None] is out of fuel. *)
Definition referenced_sets s : option (gset string * gset string) :=
  let '(transportQueue, outboundQueue) := initial_queues s in
  match visit_queue (find_transport s) tp_Dependencies (queue_fuel tp_Dependencies (su_transports s) transportQueue) transportQueue ∅ [] with
  | None => None
  | Some (referencedTransports, visited) =>
      let queue := outboundQueue ++ flat_map (fun t => default [] (tp_References t)) visited in
      let nodes := all_outbounds ++ all_endpoints in
      match visit_queue (fun tag => OutboundManager_Outbound tag w) outbound_next (queue_fuel outbound_next nodes queue) queue ∅ [] with
      | None => None
      | Some (referencedOutbounds, _) => Some (referencedTransports, referencedOutbounds)
      end
  end.

(** Who is told what. *)
Definition idle_targets s (referencedTransports referencedOutbounds : gset string) : list (Keeper * bool) :=
  map (fun o => (OutboundKeeper (ob_id o), bool_decide (ob_Tag o ∈ referencedOutbounds))) (List.filter ri_isKeeper all_outbounds) ++
  map (fun o => (OutboundKeeper (ob_id o), bool_decide (ob_Tag o ∈ referencedOutbounds) && negb (su_devicePaused s)))
    (List.filter ri_OnDemand all_endpoints) ++
  map (fun t => (TransportKeeper (tp_id t), bool_decide (tp_Tag t ∈ referencedTransports))) (List.filter tp_isKeeper (su_transports s)).

(** Servers that keep nothing themselves and are not referenced; they are reset when they
    become so. *)
Definition unreferenced s (referencedTransports : gset string) : list string :=
  map tp_Tag (List.filter (fun t => negb (tp_isKeeper t) && negb (bool_decide (tp_Tag t ∈ referencedTransports))) (su_transports s)).

(** [update]: what keepers are told, which servers are reset, and the manager. *)
Definition update s (m : ReferenceManager) : option (list (Keeper * bool) * list string * ReferenceManager) :=
  match referenced_sets s with
  | None => None
  | Some (referencedTransports, referencedOutbounds) =>
      let '(keepIdle, told) := foldl (fun st target => applyKeepIdle m target st) (∅, []) (idle_targets s referencedTransports referencedOutbounds) in
      let idle := unreferenced s referencedTransports in
      let reset := match rm_unreferencedTransports m with
                   | Some before => List.filter (fun tag => negb (bool_decide (tag ∈ before))) idle
                   | None => []
                   end in
      Some (told, reset, mkReferenceManager keepIdle (Some (list_to_set idle)))
  end.

(** The keepers that close their connections at once. *)
Definition CloseIdleConnections (transports : list Transport) : list Keeper :=
  map (fun o => OutboundKeeper (ob_id o)) (List.filter ri_isKeeper all_outbounds) ++
  map (fun t => TransportKeeper (tp_id t)) (List.filter tp_isKeeper transports).
End update.
