(* ===== verification/ReferenceOk.v ===== *)
(** * What the collection of references finds

    The static reading of rules agrees with matching, the queues reach everything that is
    referred to, and keepers are told what changed. *)

From stdpp Require Import base gmap strings list.
From Stdlib Require Import ZArith Lia.
From S2P Require Import Prelude Net GoStrings Metadata RuleMatch RuleSpec RuleDefer RuleItems RuleOptions RuleBuild RuleBuilt RuleStarted.
From S2P Require Import DnsMode Lifecycle StartOrder Managers ManagersOk RouteContext Sniff Route RouteOk Reference.

Open Scope Z_scope.

(** ** Three values *)

(** A static match says the truth about a match. *)
Definition says (m : staticMatch) (b : bool) : Prop :=
  match m with staticMatchNever => b = false | staticMatchAlways => b = true | staticMatchUnknown => True end.

Lemma says_invert m b (inv : bool) : says m b -> says (if inv then staticMatch_invert m else m) (xorb inv b).
Proof. destruct inv, m, b; done. Qed.

(** One round of the loop. *)
Lemma evaluate_loop_and x rest m : evaluate_loop LogicalTypeAnd (x :: rest) m =
  match x with staticMatchNever => staticMatchNever | staticMatchUnknown => evaluate_loop LogicalTypeAnd rest staticMatchUnknown
  | staticMatchAlways => evaluate_loop LogicalTypeAnd rest m end.
Proof. by destruct x. Qed.

Lemma evaluate_loop_or x rest m : evaluate_loop LogicalTypeOr (x :: rest) m =
  match x with staticMatchAlways => staticMatchAlways | staticMatchUnknown => evaluate_loop LogicalTypeOr rest staticMatchUnknown
  | staticMatchNever => evaluate_loop LogicalTypeOr rest m end.
Proof. by destruct x. Qed.

Lemma evaluate_and matches bs m b0 : Forall2 says matches bs -> says m b0 -> m <> staticMatchNever ->
  says (evaluate_loop LogicalTypeAnd matches m) (b0 && forallb id bs).
Proof.
  intros Hall. revert m b0. induction Hall as [|x b matches bs Hx _ IH]; intros m b0 Hm Hn; [cbn; by rewrite andb_true_r|].
  rewrite evaluate_loop_and. cbn [forallb id]. destruct x; cbn in Hx; subst.
  - rewrite andb_assoc. by apply IH.
  - cbn. by rewrite andb_false_r.
  - by apply IH.
Qed.

Lemma evaluate_or matches bs m b0 : Forall2 says matches bs -> says m b0 -> m <> staticMatchAlways ->
  says (evaluate_loop LogicalTypeOr matches m) (b0 || existsb id bs).
Proof.
  intros Hall. revert m b0. induction Hall as [|x b matches bs Hx _ IH]; intros m b0 Hm Hn; [cbn; by rewrite orb_false_r|].
  rewrite evaluate_loop_or. cbn [existsb id]. destruct x; cbn in Hx; subst.
  - rewrite orb_assoc. by apply IH.
  - by apply IH.
  - cbn. by rewrite orb_true_r.
Qed.

Lemma evaluateLogical_says matches bs lmode inv : known_mode lmode = true -> Forall2 says matches bs ->
  says (evaluateLogical matches lmode inv) (xorb inv (if bool_decide (lmode = "and"%string) then forallb id bs else existsb id bs)).
Proof.
  intros Hk Hall. unfold evaluateLogical. apply says_invert. unfold known_mode in Hk. destruct (bool_decide_reflect (lmode = "and"%string)) as [->|Hne].
  - change "and"%string with LogicalTypeAnd. rewrite bool_decide_true by done. by apply (evaluate_and _ _ _ true).
  - rewrite (bool_decide_false _ Hne). assert (lmode = LogicalTypeOr) as ->.
    { destruct (bool_decide_reflect (lmode = LogicalTypeOr)) as [?|Ho]; [done|]. change LogicalTypeAnd with "and"%string in Hk. rewrite bool_decide_false in Hk by done. done. }
    by apply (evaluate_or _ _ _ false).
Qed.

Lemma forallb_id {A : Type} (f : A -> bool) l : forallb id (map f l) = forallb f l.
Proof. induction l as [|x l IH]; [done|]. cbn. by rewrite IH. Qed.

Lemma existsb_id {A : Type} (f : A -> bool) l : existsb id (map f l) = existsb f l.
Proof. induction l as [|x l IH]; [done|]. cbn. by rewrite IH. Qed.

(** ** Default rules *)

(** An item that a step adds is there in the end. *)
Lemma run_steps_keeps steps d d' b : run_steps steps d = Ok d' -> b ∈ items d -> b ∈ items d'.
Proof.
  revert d. induction steps as [|st steps IH]; intros d; cbn; [by intros [= <-]|]. destruct (step_cond st); [|by apply IH].
  destruct (step_item st) as [it|e]; cbn; [|done]. intros Hr Hb. apply (IH _ Hr). unfold add_item. cbn. destruct (step_slot st); set_solver.
Qed.

Lemma run_steps_adds steps d d' st b : run_steps steps d = Ok d' -> st ∈ steps -> step_cond st = true -> step_slot st = SlotItems -> step_item st = Ok b -> b ∈ items d'.
Proof.
  revert d. induction steps as [|st' steps IH]; intros d Hr Hin Hc Hs Hi; [by apply not_elem_of_nil in Hin|]. apply elem_of_cons in Hin as [->|Hin]; cbn in Hr.
  - rewrite Hc, Hi in Hr. cbn in Hr. apply (run_steps_keeps _ _ _ _ Hr). unfold add_item. rewrite Hs. cbn. set_solver.
  - destruct (step_cond st'); [|by eapply IH]. destruct (step_item st') as [it|e]; cbn in Hr; [|done]. by eapply IH.
Qed.

Ltac in_steps := repeat first [by left | right].

Section defaults.
Context `{Env} `{BuildContext}.

Lemma route_mode_step strategy o : mkStep (nonnil (ro_ClashMode o)) SlotItems (Ok (Plain (NewClashModeItem (ro_ClashMode o)))) ∈ NewDefaultRule_steps strategy o.
Proof. unfold NewDefaultRule_steps. apply elem_of_app. right. unfold NewDefaultRule_environment_steps. in_steps. Qed.

Lemma dns_mode_step o : mkStep (nonnil (do_ClashMode o)) SlotItems (Ok (Plain (NewClashModeItem (do_ClashMode o)))) ∈ NewDefaultDNSRule_steps o.
Proof. unfold NewDefaultDNSRule_steps. apply elem_of_app. right. unfold NewDefaultDNSRule_environment_steps. in_steps. Qed.

(** Only the modes are left. *)
Definition mode_only (modes : list string) (inv : bool) : abstractDefaultRule BuiltItem :=
  if nonnil modes then add_item SlotItems (Plain (ClashModeItem modes)) (empty_rule inv) else empty_rule inv.

Lemma route_zero_steps strategy s o : RawDefaultRule_zero (ro_conditions o) = true ->
  run_steps (NewDefaultRule_steps strategy (ro_with_strategy o s)) (empty_rule (ro_Invert o)) = Ok (mode_only (ro_ClashMode o) (ro_Invert o)) /\ ro_RuleSet o = [].
Proof.
  destruct o. unfold RawDefaultRule_zero, ro_conditions. cbn -[NewDefaultRule_steps]. intros Hz.
  repeat (apply andb_true_iff in Hz; let H := fresh "Z" in destruct Hz as [H Hz]).
  repeat match goal with
  | H : isnil ?l = true |- _ => destruct l; [clear H|discriminate H]
  | H : negb ?b = true |- _ => destruct b; [discriminate H|clear H]
  | H : (?z =? 0) = true |- _ => apply Z.eqb_eq in H; subst z
  end.
  split; [|done]. by destruct ro_ClashMode.
Qed.

Lemma dns_zero_steps o : RawDefaultDNSRule_zero (do_conditions o) = true ->
  run_steps (NewDefaultDNSRule_steps o) (empty_rule (do_Invert o)) = Ok (mode_only (do_ClashMode o) (do_Invert o)) /\ do_RuleSet o = [] /\ do_MatchResponse o = None.
Proof.
  destruct o. unfold RawDefaultDNSRule_zero, do_conditions. cbn -[NewDefaultDNSRule_steps]. intros Hz.
  repeat (apply andb_true_iff in Hz; let H := fresh "Z" in destruct Hz as [H Hz]).
  repeat match goal with
  | H : isnil ?l = true |- _ => destruct l; [clear H|discriminate H]
  | H : isnone ?l = true |- _ => destruct l; [discriminate H|clear H]
  | H : negb ?b = true |- _ => destruct b; [discriminate H|clear H]
  | H : (?z =? 0) = true |- _ => apply Z.eqb_eq in H; subst z
  end.
  split; [|done]. by destruct do_ClashMode.
Qed.

(** ** What matching says about modes *)

Context (mode : string).

(** The item reads the same modes as the static evaluation. *)
Definition modes_agree (modes : list string) : Prop := ClashModeItem_Match modes = existsb (fun clashMode => EqualFold clashMode mode) modes.

(** [strings.EqualFold] is symmetric. *)
Lemma EqualFold_sym s t : (forall s t, unicode_EqualFold s t = unicode_EqualFold t s) -> EqualFold s t = EqualFold t s.
Proof.
  intros Hsym. unfold EqualFold. rewrite (andb_comm (is_ascii t)). destruct (is_ascii s && is_ascii t); [|apply Hsym]. by apply bool_decide_ext.
Qed.

Lemma agree_current modes : (forall s t, unicode_EqualFold s t = unicode_EqualFold t s) -> ClashMode = Some mode -> modes_agree modes.
Proof.
  intros Hsym Hm. unfold modes_agree, ClashModeItem_Match. rewrite Hm. induction modes as [|x modes IH]; [done|]. cbn. by rewrite (EqualFold_sym mode x Hsym), IH.
Qed.

Lemma default_says modes inv other b d d' ri m : modes_agree modes -> (modes = [] -> other = false -> inv = false) ->
  registered b d -> started d d' -> invert d = inv -> (nonnil modes = true -> Plain (ClashModeItem modes) ∈ items d) ->
  (other = false -> d = mode_only modes inv /\ ri = None) -> says (evaluateClashMode mode modes inv other) (default_sat sat d' ri m).
Proof.
  intros Hag Hreg Hrg Hst Hinv Hitem Hother. pose proof Hst as (Ha & Hits & Hsa & Hsp & Hda & Hdc & Hdp & Hi). rewrite Hinv in Hi. unfold evaluateClashMode.
  destruct (nonnil modes && _) eqn:Hn.
  - apply andb_true_iff in Hn as [Hn Hne%negb_true_iff]. unfold modes_agree in Hag. rewrite Hne in Hag.
    assert (Hfalse : match_all_items (items d') m = false).
    { specialize (Hitem Hn). destruct (proj1 (list_elem_of_lookup _ _) Hitem) as [i Hb]. destruct (Forall2_lookup_l _ _ _ _ _ Hits Hb) as (it & Hit & Hs). cbn in Hs. injection Hs as <-.
      apply not_true_iff_false. intros Hall. unfold match_all_items in Hall. rewrite forallb_forall in Hall. specialize (Hall _ (proj1 (list_elem_of_In _ _) (list_elem_of_lookup_2 _ _ _ Hit))).
      change (ClashModeItem_Match modes = true) in Hall. congruence. }
    assert (Hdef : default_sat sat d' ri m = xorb inv false).
    { unfold default_sat. rewrite bool_decide_false; [by rewrite Hi, Hfalse|]. pose proof (started_registered _ _ _ Hst Hrg) as Hp. unfold registered in Hp. apply Permutation_length in Hp.
      rewrite length_app, length_map in Hp. unfold grouped in Hp. rewrite length_app in Hp. destruct (items d'); [done|]. cbn in Hp. lia. }
    rewrite Hdef. by apply says_invert.
  - destruct other; cbn [negb]; [by destruct inv|]. destruct (Hother eq_refl) as [-> ->]. apply andb_false_iff in Hn. unfold mode_only in *. destruct modes as [|x modes]; cbn [nonnil negb isnil] in *.
    + rewrite (Hreg eq_refl eq_refl) in *. cbn in Ha. apply Forall2_nil_inv_l in Ha. unfold default_sat. by rewrite Ha.
    + destruct Hn as [?|Hm%negb_false_iff]; [done|]. unfold modes_agree in Hag. rewrite Hm in Hag.
      destruct d' as [its sa sp da dc dp al i]. cbn in *. apply Forall2_nil_inv_l in Hsa, Hsp, Hda, Hdc, Hdp. subst sa sp da dc dp i.
      apply Forall2_cons_inv_l in Ha as (y & al' & _ & _ & ->). apply Forall2_cons_inv_l in Hits as (it & its' & Hit & Hnil%Forall2_nil_inv_l & ->). subst its'. cbn in Hit. injection Hit as <-.
      assert (Hdef : default_sat sat (mkDefaultRule [ClashModeItem (x :: modes)] [] [] [] [] [] (y :: al') inv) None m = xorb inv true).
      { unfold default_sat, match_all_items. cbn [allItems length items forallb invert]. rewrite bool_decide_false by done.
        change (item_Match (ClashModeItem (x :: modes)) m) with (ClashModeItem_Match (x :: modes)). rewrite Hag.
        unfold groups_ok, present, group_items. cbn. by destruct (IPCIDRMatchSource m). }
      rewrite Hdef. by destruct inv.
Qed.

(** ** Rules *)

(** Rules on which both readings can be compared: modes that are read alike, and no inverted
    rule without any condition. *)
Definition regular_default (modes : list string) (inv other : bool) : Prop := modes_agree modes /\ (modes = [] -> other = false -> inv = false).

Fixpoint regular (r : RouteRule) : Prop :=
  match r with
  | mkRouteRule ty d _ rules _ _ _ =>
      if bool_decide (ty = RuleTypeDefault) then regular_default (ro_ClashMode d) (ro_Invert d) (negb (RawDefaultRule_zero (ro_conditions d)))
      else if bool_decide (ty = RuleTypeLogical) then foldr (fun sub acc => regular sub /\ acc) True rules
      else True
  end.

Fixpoint regular_dns (r : DNSRule) : Prop :=
  match r with
  | mkDNSRule ty d _ rules _ _ =>
      if bool_decide (ty = RuleTypeDefault) then regular_default (do_ClashMode d) (do_Invert d) (negb (RawDefaultDNSRule_zero (do_conditions d)))
      else if bool_decide (ty = RuleTypeLogical) then foldr (fun sub acc => regular_dns sub /\ acc) True rules
      else True
  end.

(** No inverted rule without any condition. *)
Fixpoint no_bare_inversion (r : RouteRule) : bool :=
  match r with
  | mkRouteRule ty d _ rules _ _ _ =>
      if bool_decide (ty = RuleTypeDefault) then negb (isnil (ro_ClashMode d) && RawDefaultRule_zero (ro_conditions d) && ro_Invert d)
      else forallb no_bare_inversion rules
  end.

Fixpoint no_bare_inversion_dns (r : DNSRule) : bool :=
  match r with
  | mkDNSRule ty d _ rules _ _ =>
      if bool_decide (ty = RuleTypeDefault) then negb (isnil (do_ClashMode d) && RawDefaultDNSRule_zero (do_conditions d) && do_Invert d)
      else forallb no_bare_inversion_dns rules
  end.

(** The mode of the environment is the mode that is evaluated. *)
Definition mode_known : Prop := (forall s t, unicode_EqualFold s t = unicode_EqualFold t s) /\ ClashMode = Some mode.

Lemma regular_default_of modes inv zero : mode_known -> negb (isnil modes && zero && inv) = true -> regular_default modes inv (negb zero).
Proof. intros [Hsym Hm] Hn. split; [by apply agree_current|]. intros -> ->%negb_false_iff. by destruct inv. Qed.

Lemma regular_of o : mode_known -> no_bare_inversion o = true -> regular o.
Proof.
  intros Hm. induction o as [ty d lmode rules ls inv a IH] using RouteRule_nested_ind. cbn [regular no_bare_inversion].
  destruct (bool_decide _); [by apply regular_default_of|]. destruct (bool_decide _); [|done]. intros Hn%Is_true_eq_left%forallb_True. rewrite foldr_and.
  induction rules as [|r rules IHr]; [done|]. apply Forall_cons in IH as [? ?], Hn as [? ?]. constructor; [|by apply IHr]. by eauto using Is_true_eq_true.
Qed.

Lemma regular_dns_of o : mode_known -> no_bare_inversion_dns o = true -> regular_dns o.
Proof.
  intros Hm. induction o as [ty d lmode rules inv a IH] using DNSRule_nested_ind. cbn [regular_dns no_bare_inversion_dns].
  destruct (bool_decide _); [by apply regular_default_of|]. destruct (bool_decide _); [|done]. intros Hn%Is_true_eq_left%forallb_True. rewrite foldr_and.
  induction rules as [|r rules IHr]; [done|]. apply Forall_cons in IH as [? ?], Hn as [? ?]. constructor; [|by apply IHr]. by eauto using Is_true_eq_true.
Qed.

(** A started default rule, from its steps. *)
Lemma steps_say router kind steps modes inv other tags dep ms ae d b r m :
  regular_default modes inv other -> run_steps steps (empty_rule inv) = Ok d ->
  mkStep (nonnil modes) SlotItems (Ok (Plain (NewClashModeItem modes))) ∈ steps -> (other = false -> d = mode_only modes inv /\ tags = []) ->
  finish_rule_set kind tags dep ms ae d = Ok b -> Rule_Start router b = Ok r ->
  exists d' ri, r = RDefault kind d' ri /\ invert d' = inv /\ says (evaluateClashMode mode modes inv other) (default_sat sat d' ri m).
Proof.
  intros [Hag Hreg] Hrun Hstep Hother Hfin Hstart. assert (Hrg : registered false d) by (by eapply run_steps_registered; [apply registered_empty|]).
  assert (Hinv : invert d = inv) by (by rewrite (run_steps_invert _ _ _ Hrun)).
  assert (Hitem : nonnil modes = true -> Plain (ClashModeItem modes) ∈ items d) by (intros Hn; by eapply (run_steps_adds _ _ _ _ _ Hrun Hstep)).
  unfold finish_rule_set in Hfin. destruct (nonnil tags) eqn:Ht.
  - destruct dep; [done|]. injection Hfin as <-. cbn [Rule_Start] in Hstart. simpl_result. apply abstractDefaultRule_Start_started in Heqr0.
    eexists _, _. split; [done|]. pose proof Heqr0 as (_ & _ & _ & _ & _ & _ & _ & Hi'). split; [by rewrite Hi'|].
    apply (default_says modes _ other true (add_rule_set d)); [done|done|by apply registered_add_rule_set|done|done|done|].
    intros Ho. destruct (Hother Ho) as [_ ->]. done.
  - injection Hfin as <-. cbn [Rule_Start] in Hstart. simpl_result. apply abstractDefaultRule_Start_started in Heqr0.
    eexists _, None. split; [done|]. pose proof Heqr0 as (_ & _ & _ & _ & _ & _ & _ & Hi'). split; [by rewrite Hi'|].
    apply (default_says modes _ other false d); [done..|]. intros Ho. destruct (Hother Ho) as [Hd _]. done.
Qed.

Lemma known_mode_of (lmode : string) : negb (known_mode lmode) = false -> known_mode lmode = true.
Proof. by destruct (known_mode lmode). Qed.

Lemma evaluateRule_says NewRuleAction router o p c b r m : regular o -> NewRule NewRuleAction p o c = Ok b -> Rule_Start router b = Ok r ->
  says (evaluateRule mode o) (sat r m).
Proof.
  revert p c b r m. induction o as [ty d lmode rules ls inv a IH] using RouteRule_nested_ind; intros p c b r m Hreg Hnew Hstart.
  cbn [regular evaluateRule] in *. cbn [NewRule] in Hnew. destruct (bool_decide_reflect (ty = RuleTypeDefault)) as [Hd|Hd].
  - subst ty. change (is_default_type RuleTypeDefault) with true in Hnew. cbn iota in Hnew. set (d' := ro_with_strategy d _) in Hnew.
    destruct (RawDefaultRule_zero d' && _); [done|]. destruct (missing_outbound _ _); [done|]. unfold NewDefaultRule in Hnew. simpl_result.
    assert (Hzero : negb (RawDefaultRule_zero (ro_conditions d)) = false -> a1 = mode_only (ro_ClashMode d) (ro_Invert d) /\ ro_RuleSet d' = []).
    { intros Hz%negb_false_iff. destruct (route_zero_steps (resolveStrategy (ro_DomainMatchStrategy d')) (inheritStrategy p (ro_DomainMatchStrategy d)) d Hz) as [Hrun Hset].
      fold d' in Hrun. change (ro_Invert d') with (ro_Invert d) in Heqr1. rewrite Hrun in Heqr1. by injection Heqr1 as <-. }
    destruct (steps_say router KindRoute _ (ro_ClashMode d) (ro_Invert d) _ _ _ _ _ _ _ _ m Hreg Heqr1 (route_mode_step _ d') Hzero Hnew Hstart) as (d1 & ri & -> & _ & Hsay).
    exact Hsay.
  - destruct (bool_decide_reflect (ty = RuleTypeLogical)) as [Hl|Hl]; [|done]. subst ty. change (is_default_type RuleTypeLogical) with false in Hnew. cbn iota in Hnew.
    destruct (if isnil rules then _ else _) as [[]|]; [|done..].
    destruct (missing_outbound _ _); [done|]. unfold NewLogicalRule in Hnew. simpl_result. destruct (negb (known_mode lmode)) eqn:Hk; [done|]. simpl_result.
    cbn [Rule_Start] in Hstart. simpl_result. apply result_mapiM_Forall2 in Heqr1. apply result_mapM_Forall2 in Heqr2. cbn [sat].
    match type of Heqr2 with Forall2 _ _ ?l => rename l into started_rules end. rewrite foldr_and in Hreg. assert (Hall : Forall2 says (map (evaluateRule mode) rules) (map (fun rule => sat rule (unflagged m)) started_rules)).
    { clear -IH Hreg Heqr1 Heqr2. revert started_rules Heqr2 Hreg IH. induction Heqr1 as [|sub b rules l [j Hj] _ IHl]; intros l0 Hs Hreg IH.
      - apply Forall2_nil_inv_l in Hs. subst. constructor.
      - apply Forall2_cons_inv_l in Hs as (r & l1 & Hr & Hs & ->). apply Forall_cons in Hreg as [Hreg Hregs]. apply Forall_cons in IH as [IH IHs]. cbn. constructor; [|by apply IHl].
        cbn in Hj. simpl_result. apply sub_rule_cause_Ok in Hj. by eapply IH. }
    pose proof (evaluateLogical_says _ _ lmode inv (known_mode_of _ Hk) Hall) as Hsay. by rewrite forallb_id, existsb_id in Hsay.
Qed.

Lemma NewDNSRule_mode d lmode rules inv a cs lg b : NewDNSRule (mkDNSRule RuleTypeLogical d lmode rules inv a) cs lg = Ok b -> known_mode lmode = true.
Proof.
  cbn [NewDNSRule]. change (is_default_type RuleTypeLogical) with false. rewrite bool_decide_true by done. cbn iota.
  destruct (if isnil rules then _ else _) as [[]|]; [|done..]. destruct (nested_evaluate _ _); [done|]. intros Hr. simpl_result.
  destruct (missing_server _ _); [done|]. unfold NewLogicalDNSRule in Hr. by destruct (known_mode lmode).
Qed.

Lemma dns_steps_say router enabled tag steps modes inv other tags dep ms ae d b r m :
  regular_default modes inv other -> run_steps steps (empty_rule inv) = Ok d ->
  mkStep (nonnil modes) SlotItems (Ok (Plain (NewClashModeItem modes))) ∈ steps -> (other = false -> d = mode_only modes inv /\ tags = []) ->
  (other = false -> enabled = false) -> finish_rule_set (KindDNS enabled tag) tags dep ms ae d = Ok b -> Rule_Start router b = Ok r ->
  says (evaluateClashMode mode modes inv other) (sat r m).
Proof.
  intros Hreg Hrun Hstep Hother He Hfin Hstart. pose proof (fun m => steps_say router _ steps modes inv other tags dep ms ae d b r m Hreg Hrun Hstep Hother Hfin Hstart) as Hsays.
  destruct (Hsays m) as (d1 & ri & -> & Hi & Hsay). cbn [sat]. destruct enabled; [|exact Hsay]. destruct (response_of tag m) as [msg|].
  - destruct (Hsays (set_response m (Some msg) true)) as (d2 & ri2 & [= -> ->] & _ & Hsay2). exact Hsay2.
  - rewrite Hi. destruct other; [|by specialize (He eq_refl)]. unfold evaluateClashMode. cbn [negb]. by destruct (nonnil modes && _), inv.
Qed.

Lemma NewDefaultDNSRule_Ok o lg b : NewDefaultDNSRule o lg = Ok b ->
  exists d, run_steps (NewDefaultDNSRule_steps o) (empty_rule (do_Invert o)) = Ok d /\
    finish_rule_set (KindDNS (IsEnabled (do_MatchResponse o)) (ResponseTag (do_MatchResponse o))) (do_RuleSet o)
      (do_Deprecated_RulesetIPCIDRMatchSource o) (do_RuleSetIPCIDRMatchSource o) (do_RuleSetIPCIDRAcceptEmpty o) d = Ok b.
Proof.
  unfold NewDefaultDNSRule. destruct (run_steps _ _) as [d|e]; cbn [result_bind]; [|done]. destruct (_ && negb lg); [done|]. intros Hfin. by exists d.
Qed.

Lemma dns_default_says router o lg b r m :
  regular_default (do_ClashMode o) (do_Invert o) (negb (RawDefaultDNSRule_zero (do_conditions o))) ->
  NewDefaultDNSRule o lg = Ok b -> Rule_Start router b = Ok r ->
  says (evaluateClashMode mode (do_ClashMode o) (do_Invert o) (negb (RawDefaultDNSRule_zero (do_conditions o)))) (sat r m).
Proof.
  intros Hreg (d & Hrun & Hfin)%NewDefaultDNSRule_Ok Hstart. pose proof (dns_zero_steps o) as Hzero. pose proof (dns_mode_step o) as Hstep.
  revert Hreg Hrun Hfin Hzero Hstep. generalize (RawDefaultDNSRule_zero (do_conditions o)) as zero, (NewDefaultDNSRule_steps o) as steps.
  intros zero steps Hreg Hrun Hfin Hzero Hstep. eapply dns_steps_say; [exact Hreg|exact Hrun|exact Hstep| | |exact Hfin|exact Hstart].
  - intros Hz%negb_false_iff. destruct (Hzero Hz) as (Hrun' & Hset & _). rewrite Hrun' in Hrun. by injection Hrun as <-.
  - intros Hz%negb_false_iff. destruct (Hzero Hz) as (_ & _ & Hn). by rewrite Hn.
Qed.

Lemma evaluateDNSRule_says router o cs lg b r m : regular_dns o -> NewDNSRule o cs lg = Ok b -> Rule_Start router b = Ok r ->
  says (evaluateDNSRule mode o) (sat r m).
Proof.
  revert cs b r m. induction o as [ty d lmode rules inv a IH] using DNSRule_nested_ind; intros cs b r m Hreg Hnew Hstart.
  cbn [regular_dns evaluateDNSRule] in *. pose proof Hnew as Hinv%NewDNSRule_inv. destruct (bool_decide_reflect (ty = RuleTypeDefault)) as [->|Hd].
  { change (is_default_type RuleTypeDefault) with true in Hinv. cbn iota in Hinv. destruct Hinv as [Hdef _]. by eapply dns_default_says. }
  destruct (bool_decide_reflect (ty = RuleTypeLogical)) as [->|Hl]; [|done].
  change (is_default_type RuleTypeLogical) with false in Hinv. cbn iota in Hinv. destruct Hinv as (_ & rs & -> & Hr & _).
  assert (Hk : known_mode lmode = true) by (by eapply NewDNSRule_mode).
  cbn [Rule_Start] in Hstart. simpl_result. apply result_mapM_Forall2 in Heqr0. cbn [sat].
  match type of Heqr0 with Forall2 _ _ ?l => rename l into started_rules end. rewrite foldr_and in Hreg.
  assert (Hall : Forall2 says (map (evaluateDNSRule mode) rules) (map (fun rule => sat rule (unflagged m)) started_rules)).
  { clear -IH Hreg Hr Heqr0. revert started_rules Heqr0 Hreg IH. induction Hr as [|sub b rules rs Hj _ IHl]; intros l Hs Hreg IH.
    - apply Forall2_nil_inv_l in Hs. subst. constructor.
    - apply Forall2_cons_inv_l in Hs as (r & l1 & Hr & Hs & ->). apply Forall_cons in Hreg as [Hreg Hregs]. apply Forall_cons in IH as [IH IHs]. cbn. constructor; [by eapply IH|by apply IHl]. }
  pose proof (evaluateLogical_says _ _ lmode inv Hk Hall) as Hsay. by rewrite forallb_id, existsb_id in Hsay.
Qed.
End defaults.

(** ** Queues *)

Section queue.
Context {X : Type} (load : string -> option X) (next : X -> list string).

(** What a queue leads to. *)
Inductive reachable (roots : string -> Prop) : string -> Prop :=
| reach_root tag node : roots tag -> tag <> ""%string -> load tag = Some node -> reachable roots tag
| reach_next tag node tag' node' : reachable roots tag -> load tag = Some node -> tag' ∈ next node -> tag' <> ""%string ->
    load tag' = Some node' -> reachable roots tag'.

(** What a tag stands for, unless it is skipped. *)
Definition found (tag : string) : Prop := tag <> ""%string /\ is_Some (load tag).

Lemma reachable_found roots tag : reachable roots tag -> found tag.
Proof. by destruct 1; split; eauto. Qed.

Lemma reachable_ext (roots roots' : string -> Prop) tag : (forall t, roots t <-> roots' t) -> reachable roots tag <-> reachable roots' tag.
Proof.
  intros Hr. split; (induction 1 as [t x Ht|]; [eapply reach_root; [by apply Hr|done|done]|by eapply reach_next]).
Qed.

(** All of [next] that was not followed. *)
Definition unfollowed (tag_of : X -> string) (nodes : list X) (referenced : gset string) : list string :=
  flat_map next (List.filter (fun x => negb (bool_decide (tag_of x ∈ referenced))) nodes).

Lemma unfollowed_le tag_of nodes referenced tag :
  (length (unfollowed tag_of nodes ({[tag]} ∪ referenced)) <= length (unfollowed tag_of nodes referenced))%nat.
Proof.
  unfold unfollowed. induction nodes as [|y nodes IH]; [done|]. cbn.
  destruct (bool_decide_reflect (tag_of y ∈ {[tag]} ∪ referenced)), (bool_decide_reflect (tag_of y ∈ referenced)); cbn; rewrite ?length_app; [lia|lia|set_solver|lia].
Qed.

Lemma unfollowed_less tag_of nodes referenced x : x ∈ nodes -> tag_of x ∉ referenced ->
  (length (unfollowed tag_of nodes ({[tag_of x]} ∪ referenced)) + length (next x) <= length (unfollowed tag_of nodes referenced))%nat.
Proof.
  intros Hx Hr. pose proof (fun l => unfollowed_le tag_of l referenced (tag_of x)) as Hle.
  induction nodes as [|y nodes IH]; [by apply not_elem_of_nil in Hx|]. apply elem_of_cons in Hx as [<-|Hx].
  - specialize (Hle nodes). unfold unfollowed in *. cbn. rewrite bool_decide_true, bool_decide_false by set_solver. cbn. rewrite length_app. lia.
  - specialize (IH Hx). unfold unfollowed in *. cbn.
    destruct (bool_decide_reflect (tag_of y ∈ {[tag_of x]} ∪ referenced)), (bool_decide_reflect (tag_of y ∈ referenced)); cbn; rewrite ?length_app; [lia|lia|set_solver|lia].
Qed.

(** A tag that is skipped, or a node that is visited. *)
Lemma visit_queue_cons fuel tag rest referenced visited :
  (visit_queue load next (S fuel) (tag :: rest) referenced visited = visit_queue load next fuel rest referenced visited /\ (found tag -> tag ∈ referenced)) \/
  (exists node, load tag = Some node /\ tag <> ""%string /\ (tag ∉ referenced) /\
    visit_queue load next (S fuel) (tag :: rest) referenced visited =
    visit_queue load next fuel (rest ++ next node) ({[tag]} ∪ referenced) (visited ++ [node])).
Proof.
  cbn. unfold found, empty_string. destruct (bool_decide_reflect (tag = ""%string)) as [->|Hne]; cbn; [left; split; [done|by intros [? _]]|].
  destruct (bool_decide_reflect (tag ∈ referenced)) as [Hr|Hr]; [by left|].
  destruct (load tag) as [node|]; [right; by exists node|left]. split; [done|]. by intros [_ [? ?]].
Qed.

(** The loop ends. *)
Lemma visit_queue_ends tag_of nodes : (forall tag x, load tag = Some x -> x ∈ nodes /\ tag_of x = tag) ->
  forall fuel queue referenced visited, (length queue + length (unfollowed tag_of nodes referenced) <= fuel)%nat ->
  is_Some (visit_queue load next fuel queue referenced visited).
Proof.
  intros Hload. induction fuel as [|fuel IH]; intros [|tag rest] referenced visited Hf; cbn [length] in Hf; [by eexists|lia|by eexists|].
  destruct (visit_queue_cons fuel tag rest referenced visited) as [[-> _]|(node & Hl & _ & Hr & ->)]; [apply IH; lia|]. apply IH.
  destruct (Hload _ _ Hl) as [Hin <-]. pose proof (unfollowed_less tag_of _ _ _ Hin Hr). rewrite length_app. lia.
Qed.

Lemma queue_fuel_enough tag_of nodes queue : (forall tag x, load tag = Some x -> x ∈ nodes /\ tag_of x = tag) ->
  is_Some (visit_queue load next (queue_fuel next nodes queue) queue ∅ []).
Proof.
  intros Hload. apply (visit_queue_ends tag_of nodes Hload). unfold queue_fuel, unfollowed. apply Nat.add_le_mono_l.
  clear. induction nodes as [|x nodes IH]; [done|]. cbn. rewrite bool_decide_false by set_solver. cbn. rewrite !length_app. lia.
Qed.

(** Nothing but what is reachable. *)
Lemma visit_queue_sound (R : string -> Prop) : (forall tag node tag', R tag -> load tag = Some node -> tag' ∈ next node -> found tag' -> R tag') ->
  forall fuel queue referenced visited referenced' visited', visit_queue load next fuel queue referenced visited = Some (referenced', visited') ->
  (forall tag, tag ∈ queue -> found tag -> R tag) -> (forall tag, tag ∈ referenced -> R tag) -> forall tag, tag ∈ referenced' -> R tag.
Proof.
  intros Hnext. induction fuel as [|fuel IH]; intros [|tag rest] referenced visited referenced' visited' Hv Hq Hr; try (by injection Hv as <- <-); [done|].
  destruct (visit_queue_cons fuel tag rest referenced visited) as [[E _]|(node & Hl & Hne & _ & E)]; rewrite E in Hv; apply (IH _ _ _ _ _ Hv); [|done|..].
  - intros tag' Hin. apply Hq. set_solver.
  - assert (Ht : R tag) by (apply Hq; [by left|by split; eauto]). intros tag' [Hin|Hin]%elem_of_app; [apply Hq; set_solver|by eapply Hnext].
  - assert (Ht : R tag) by (apply Hq; [by left|by split; eauto]). intros tag' [->%elem_of_singleton|Hin]%elem_of_union; [done|by apply Hr].
Qed.

(** All of it; the nodes that were visited are those of the tags. *)
Lemma visit_queue_complete fuel queue referenced visited referenced' visited' :
  visit_queue load next fuel queue referenced visited = Some (referenced', visited') ->
  (forall tag, tag ∈ queue -> found tag -> tag ∈ referenced') /\ referenced ⊆ referenced' /\
  (forall tag node tag', tag ∈ referenced' -> tag ∉ referenced -> load tag = Some node -> tag' ∈ next node -> found tag' -> tag' ∈ referenced').
Proof.
  revert queue referenced visited. induction fuel as [|fuel IH]; intros [|tag rest] referenced visited Hv; cbn in Hv.
  1,3: injection Hv as <- <-; split_and!; [by intros ? ?%not_elem_of_nil|done|done].
  { done. }
  change (visit_queue load next (S fuel) (tag :: rest) referenced visited = Some (referenced', visited')) in Hv.
  destruct (visit_queue_cons fuel tag rest referenced visited) as [[E Hf]|(node & Hl & Hne & Hnr & E)]; rewrite E in Hv; apply IH in Hv as (Hq & Hsub & Hnext).
  - split_and!; [|done|done]. intros tag' [->|Hin]%elem_of_cons Hfound; [by apply Hsub, Hf|by apply Hq].
  - split_and!; [|set_solver|].
    + intros tag' [->|Hin]%elem_of_cons Hfound; [set_solver|apply Hq; set_solver].
    + intros t x t' Hin Hnot Hl' Ht' Hfound. destruct (decide (t = tag)) as [->|Hne']; [|apply (Hnext t x); [done|set_solver|done..]].
      rewrite Hl in Hl'. injection Hl' as <-. apply Hq; [set_solver|done].
Qed.

Lemma visit_queue_visited fuel queue referenced visited referenced' visited' :
  visit_queue load next fuel queue referenced visited = Some (referenced', visited') ->
  (forall node, node ∈ visited <-> exists tag, tag ∈ referenced /\ load tag = Some node) ->
  forall node, node ∈ visited' <-> exists tag, tag ∈ referenced' /\ load tag = Some node.
Proof.
  revert queue referenced visited. induction fuel as [|fuel IH]; intros [|tag rest] referenced visited Hv Hin; try (by injection Hv as <- <-); [done|].
  destruct (visit_queue_cons fuel tag rest referenced visited) as [[E _]|(node & Hl & _ & _ & E)]; rewrite E in Hv; apply (IH _ _ _ Hv); [done|].
  intros node'. rewrite elem_of_app, list_elem_of_singleton, Hin. split.
  - intros [(t & Ht & Hl')| ->]; [exists t|exists tag]; (split; [set_solver|done]).
  - intros (t & [->%elem_of_singleton|Ht]%elem_of_union & Hl'); [right; congruence|left; eauto].
Qed.

Lemma visit_queue_reachable fuel queue referenced visited : visit_queue load next fuel queue ∅ [] = Some (referenced, visited) ->
  (forall tag, tag ∈ referenced <-> reachable (fun t => t ∈ queue) tag) /\
  (forall node, node ∈ visited <-> exists tag, reachable (fun t => t ∈ queue) tag /\ load tag = Some node).
Proof.
  intros Hv. assert (Hr : forall tag, tag ∈ referenced <-> reachable (fun t => t ∈ queue) tag).
  { intros tag. split.
    - revert tag. apply (visit_queue_sound _) with (1 := fun t x t' Ht Hl Hin '(conj Hne (ex_intro _ x' Hl')) => reach_next _ t x t' x' Ht Hl Hin Hne Hl') (2 := Hv); [|set_solver].
      intros tag Hin [Hne [x Hl]]. by eapply reach_root.
    - apply visit_queue_complete in Hv as (Hq & _ & Hnext). induction 1 as [tag x Hin Hne Hl|tag x tag' x' _ IH Hl Hin Hne Hl'].
      + apply Hq; [done|by split; eauto].
      + apply (Hnext tag x); [done|set_solver|done|done|by split; eauto]. }
  split; [done|]. intros node. rewrite (visit_queue_visited _ _ _ _ _ _ Hv); [by setoid_rewrite Hr|]. set_solver.
Qed.
End queue.
