(* ===== verification/ReferenceTheorems.v ===== *)
(** * Theorems about references

    The static reading of rules against matching, what the queues reach, and what keepers
    are told, against what connections use. *)

From stdpp Require Import base gmap strings list.
From Stdlib Require Import ZArith Lia.
From S2P Require Import Prelude Net GoStrings Metadata RuleMatch RuleSpec RuleDefer RuleItems RuleOptions RuleBuild RuleBuilt RuleStarted.
From S2P Require Import DnsMode Lifecycle StartOrder Managers ManagersOk RouteContext Sniff Group Route RouteFrame RouteConn RouteOk Sample RouteSample Reference ReferenceOk.

Open Scope Z_scope.

(** ** Rules that are passed over *)

Section used.
Context `{Env} `{BuildContext} `{SniffLibrary} `{RouteLibrary} `{OutboundInterfaces} `{RouteDNS} `{Searchers}.
Context {Q : Type} `{QUICSniffCache Q}.
Context {A : Type} (w : managers (A := A)) (mode : string) (router : string -> option (RuleSet (Rule Item))) (Hmode : mode_known mode).
Implicit Types (f : Flow (Q := Q)) (r : RouterRule Item) (x : RouteRule * RuleActionFields).

(** A rule of the router and the options it was made of. *)
Definition configured x r : Prop :=
  known_rule_type x.1 = true /\ no_bare_inversion x.1 = true /\ act_Action x.2 <> "direct"%string /\
  (exists newAction p c b, NewRule newAction p x.1 c = Ok b /\ Rule_Start router b = Ok (rr_rule r)) /\
  (exists supported parse dialer, NewRuleAction supported parse dialer x.2 = Ok (Some (rr_action r))).

(** The outbound of an action that decides. *)
Definition target_of (action : RuleAction) : option string :=
  match action with
  | ActionRoute outbound _ => Some outbound
  | ActionBypass outbound _ => if empty_string outbound then None else Some outbound
  | _ => None
  end.

Lemma action_references_of supported parse dialer fields action : NewRuleAction supported parse dialer fields = Ok (Some action) -> act_Action fields <> "direct"%string ->
  ar_final (action_references (isPassOutbound w) fields) = is_final action && negb (passes w action) /\
  (forall tag, target_of action = Some tag -> tag ∈ ar_outbounds (action_references (isPassOutbound w) fields)).
Proof.
  unfold NewRuleAction, action_references. intros Ha Hd. rewrite (bool_decide_false (act_Action fields = "direct"%string)) in * by done.
  destruct (empty_string (act_Action fields)); [done|].
  repeat match type of Ha with context [bool_decide (act_Action fields = ?s)] =>
    destruct (bool_decide_reflect (act_Action fields = s)) as [E|?]; [rewrite ?E in *|] end; simpl_result; try done; cbn.
  1: split; [done|]; intros tag [= <-]; by left.
  destruct (empty_string (rao_Outbound _)) eqn:He; cbn; split; try done. intros tag [= <-]. by left.
Qed.

Lemma enabled_cons {O : Type} (o : O) d os ds : length os = length ds ->
  enabledRuleOptions (o :: os) (d :: ds) = if d then enabledRuleOptions os ds else o :: enabledRuleOptions os ds.
Proof. intros Hl. unfold enabledRuleOptions. cbn [length]. rewrite (proj2 (Nat.eqb_eq (S (length os)) (S (length ds))) ltac:(lia)), (proj2 (Nat.eqb_eq _ _) Hl). cbn. by destruct d. Qed.

(** What is collected for the rules that are enabled. *)
Definition collected (opts : list (RouteRule * RuleActionFields)) (l : list (RouterRule Item)) : bool * list string * list string :=
  collectRuleReferences mode (isPassOutbound w) (enabledRuleOptions opts (map rr_disabled l)).

(** One rule with its options. *)
Lemma collected_cons x r opts l : Forall2 configured opts l -> configured x r ->
  collected (x :: opts) (r :: l) =
  if rr_disabled r || bool_decide (evaluateRule mode x.1 = staticMatchNever) then collected opts l
  else let a := action_references (isPassOutbound w) x.2 in
       if ar_final a && bool_decide (evaluateRule mode x.1 = staticMatchAlways) then (true, ar_outbounds a, ar_transports a)
       else ((collected opts l).1.1, ar_outbounds a ++ (collected opts l).1.2, ar_transports a ++ (collected opts l).2).
Proof.
  intros Hl%Forall2_length (Hk & _). unfold collected. cbn [map]. rewrite enabled_cons by (by rewrite length_map).
  destruct (rr_disabled r); cbn [orb]; [done|]. unfold collectRuleReferences. cbn [map collect_references]. rewrite Hk.
  destruct (bool_decide _); [done|]. destruct (_ && _); [done|]. by destruct (collect_references _) as [[? ?] ?].
Qed.

(** The static reading of a rule is right. *)
Lemma configured_says x r m : configured x r -> says (evaluateRule mode x.1) (sat (rr_rule r) m).
Proof. intros (_ & Hreg%(regular_of _ _ Hmode) & _ & (newAction & p & c & b & Hn & Hs) & _). by eapply evaluateRule_says. Qed.

(** A rule that is passed over leaves the others in the collection. *)
Lemma collected_over x r opts l f : Forall2 configured opts l -> configured x r ->
  applies w r f = false \/ is_final (rr_action r) = false ->
  (collected (x :: opts) (r :: l)).1.1 = (collected opts l).1.1 /\ (collected opts l).1.2 ⊆ (collected (x :: opts) (r :: l)).1.2.
Proof.
  intros Hl Hx Hover. rewrite collected_cons by done. destruct (rr_disabled r) eqn:Hd; cbn [orb]; [done|].
  pose proof (configured_says x r (fresh (fl_x f)) Hx) as Hsay. destruct Hx as (_ & _ & Hdir & _ & (supported & parse & dialer & Ha)).
  destruct (action_references_of _ _ _ _ _ Ha Hdir) as [Hfin _]. destruct (evaluateRule mode x.1); cbn -[collected] in *; [|done|].
  - rewrite andb_false_r. cbn. split; [done|set_solver].
  - rewrite andb_true_r, Hfin. unfold applies in Hover. rewrite Hd, Hsay in Hover. cbn [negb andb] in Hover.
    destruct (is_final (rr_action r)), (passes w (rr_action r)); cbn in *; try (by destruct Hover); (split; [done|set_solver]).
Qed.

Lemma passed_over_collected input l1 f f1 : passed_over w input l1 f f1 ->
  forall opts l2, Forall2 configured opts (l1 ++ l2) -> exists opts1 opts2, opts = opts1 ++ opts2 /\ Forall2 configured opts2 l2 /\
    (collected opts (l1 ++ l2)).1.1 = (collected opts2 l2).1.1 /\ (collected opts2 l2).1.2 ⊆ (collected opts (l1 ++ l2)).1.2.
Proof.
  assert (Hone : forall r l f f1, (forall opts l2, Forall2 configured opts (l ++ l2) -> exists opts1 opts2, opts = opts1 ++ opts2 /\ Forall2 configured opts2 l2 /\
    (collected opts (l ++ l2)).1.1 = (collected opts2 l2).1.1 /\ (collected opts2 l2).1.2 ⊆ (collected opts (l ++ l2)).1.2) ->
    applies w r f = false \/ is_final (rr_action r) = false ->
    forall opts l2, Forall2 configured opts (r :: l ++ l2) -> exists opts1 opts2, opts = opts1 ++ opts2 /\ Forall2 configured opts2 l2 /\
    (collected opts (r :: l ++ l2)).1.1 = (collected opts2 l2).1.1 /\ (collected opts2 l2).1.2 ⊆ (collected opts (r :: l ++ l2)).1.2).
  { intros r l f' _ IH Hover opts l2 (x & opts' & Hx & Ho & ->)%Forall2_cons_inv_r. destruct (IH opts' l2 Ho) as (opts1 & opts2 & -> & Hc & Hs & Hsub).
    destruct (collected_over x r _ _ f' Ho Hx Hover) as [Hs' Hsub']. exists (x :: opts1), opts2. split_and!; [done|done|congruence|by etrans]. }
  induction 1 as [f|r l f f' Ha _ IH|r l f f1 f' Ha Hf _ _ IH]; intros opts l2 Hopts.
  - exists [], opts. by split_and!.
  - eapply (Hone r l f f'); [exact IH|by left|exact Hopts].
  - eapply (Hone r l f f'); [exact IH|by right|exact Hopts].
Qed.

(** The walk over the rules and the collection. *)
Lemma walk_collected input opts l f : plain f -> Forall2 configured opts l ->
  match (match_rules w input 0 l f).1 with
  | Ok None => (collected opts l).1.1 = false
  | Ok (Some (_, r)) => forall tag, target_of (rr_action r) = Some tag -> tag ∈ (collected opts l).1.2
  | Err _ => True
  end.
Proof.
  intros Hp Hl. pose proof (match_rules_walk w input l 0 f Hp) as Hw. destruct (match_rules w input 0 l f) as [[[[j r]|]|e] f']; cbn -[collected] in *; [| |done].
  - destruct Hw as (l1 & l2 & f1 & -> & _ & Hov & Ha & Hf & _). intros tag Ht. destruct (passed_over_collected _ _ _ _ Hov _ _ Hl) as (opts1 & opts2 & -> & Hl2 & _ & Hsub).
    apply Hsub. apply Forall2_cons_inv_r in Hl2 as (x & opts' & Hx & Ho & ->). rewrite collected_cons by done.
    pose proof (configured_says x r (fresh (fl_x f1)) Hx) as Hsay. destruct Hx as (_ & _ & Hdir & _ & (supported & parse & dialer & Hact)). apply action_references_of in Hact as [_ Hout]; [|done].
    unfold applies in Ha. apply andb_true_iff in Ha as [[Hd%negb_true_iff Hs]%andb_true_iff _]. rewrite Hd. cbn [orb].
    rewrite bool_decide_false; [|intros E; rewrite E in Hsay; cbn in Hsay; congruence]. cbn zeta. destruct (_ && _); cbn; [by apply Hout|]. apply elem_of_app. left. by apply Hout.
  - rewrite <- (app_nil_r l) in Hl. destruct (passed_over_collected _ _ _ _ Hw _ _ Hl) as (opts1 & opts2 & -> & Hl2 & Hs & _). apply Forall2_nil_inv_r in Hl2. subst opts2.
    rewrite !app_nil_r in Hs. rewrite app_nil_r. exact Hs.
Qed.
End used.

(** ** What is referenced *)

Section referenced.
Context `{GoUnicode} `{OutboundInterfaces} `{ReferenceInterfaces} {A : Type} (w : managers (A := A)).
Implicit Types (s : Surroundings) (o : Outbound).

(** The servers that rules, options or other servers lead to. *)
Definition referenced_transport s : string -> Prop :=
  reachable (find_transport s) tp_Dependencies (fun tag => tag ∈ (initial_queues w s).1).

(** The outbounds that rules, inbounds, services or such servers lead to, through what groups
    select and what outbounds depend on. *)
Definition referenced_outbound s : string -> Prop :=
  reachable (fun tag => OutboundManager_Outbound tag w) outbound_next
    (fun tag => tag ∈ (initial_queues w s).2 \/ exists t server, referenced_transport s t /\ find_transport s t = Some server /\ tag ∈ default [] (tp_References server)).

Lemma outbound_loaded tag o : managers_ok w -> OutboundManager_Outbound tag w = Some o ->
  o ∈ all_outbounds w ++ all_endpoints w /\ ob_Tag o = tag.
Proof.
  intros [[(_ & _ & Hn) _] [(_ & _ & He) _]]. unfold OutboundManager_Outbound, EndpointManager_Get, all_outbounds, all_endpoints.
  destruct (nd_byTag (om_nodes w.1) !! tag) as [o'|] eqn:E.
  - intros [= ->]. apply Hn in E as [? ?]. split; [set_solver|done].
  - intros [? ?]%He. split; [set_solver|done].
Qed.

Lemma transport_loaded s tag t : find_transport s tag = Some t -> t ∈ su_transports s /\ tp_Tag t = tag.
Proof. unfold find_transport. intros [Hin Ht]%List.find_some. split; [by apply list_elem_of_In|]. by apply bool_decide_eq_true in Ht. Qed.

Lemma referenced_sets_reachable s : managers_ok w -> exists transports outbounds, referenced_sets w s = Some (transports, outbounds) /\
  (forall tag, tag ∈ transports <-> referenced_transport s tag) /\ (forall tag, tag ∈ outbounds <-> referenced_outbound s tag).
Proof.
  intros Hw. unfold referenced_sets, referenced_outbound, referenced_transport. destruct (initial_queues w s) as [tq oq]. cbn [fst snd].
  destruct (queue_fuel_enough (find_transport s) tp_Dependencies tp_Tag (su_transports s) tq (fun tag x => transport_loaded s tag x)) as [[transports visited] E]. rewrite E.
  set (queue := oq ++ _). destruct (queue_fuel_enough (fun tag => OutboundManager_Outbound tag w) outbound_next ob_Tag (all_outbounds w ++ all_endpoints w) queue
    (fun tag x => outbound_loaded tag x Hw)) as [[outbounds visited'] E']. rewrite E'. exists transports, outbounds. split; [done|].
  apply visit_queue_reachable in E as [Ht Hv]. apply visit_queue_reachable in E' as [Ho _]. split; [done|].
  intros tag. rewrite Ho. apply reachable_ext. intros t. unfold queue. rewrite elem_of_app. apply or_iff_compat_l.
  rewrite list_elem_of_In, in_flat_map. setoid_rewrite <- list_elem_of_In. setoid_rewrite Hv. naive_solver.
Qed.

(** ** What keepers are told *)

(** What keepers were told last. *)
Definition tell (kept : gmap Keeper bool) (told : list (Keeper * bool)) : gmap Keeper bool := foldl (fun k target => <[target.1 := target.2]> k) kept told.

Lemma tell_other kept told k : k ∉ told.*1 -> tell kept told !! k = kept !! k.
Proof.
  revert kept. induction told as [|[k' b] told IH]; intros kept Hk; [done|]. cbn in *. rewrite IH by set_solver. apply lookup_insert_ne. set_solver.
Qed.

Lemma tell_told kept told k b : NoDup told.*1 -> (k, b) ∈ told -> tell kept told !! k = Some b.
Proof.
  revert kept. induction told as [|[k' b'] told IH]; intros kept Hn Hin; [by apply not_elem_of_nil in Hin|]. cbn in *. apply NoDup_cons in Hn as [Hk Hn].
  apply elem_of_cons in Hin as [[= <- <-]|Hin]; [|by apply IH]. rewrite tell_other by done. apply lookup_insert_eq.
Qed.

Lemma tell_in kept told k b : tell kept told !! k = Some b -> (k, b) ∈ told \/ kept !! k = Some b.
Proof.
  revert kept. induction told as [|[k' b'] told IH]; intros kept Hl; [by right|]. cbn in Hl. apply IH in Hl as [Hl|Hl]; [left; set_solver|].
  apply lookup_insert_Some in Hl as [[-> ->]|[_ Hl]]; [left; set_solver|by right].
Qed.

(** The targets that are told something new. *)
Definition news (m : ReferenceManager) (targets : list (Keeper * bool)) : list (Keeper * bool) :=
  List.filter (fun target => negb (bool_decide (rm_keepIdle m !! target.1 = Some target.2))) targets.

Lemma apply_targets m targets keepIdle told :
  foldl (fun st target => applyKeepIdle m target st) (keepIdle, told) targets = (tell keepIdle targets, told ++ news m targets).
Proof.
  revert keepIdle told. induction targets as [|t targets IH]; intros keepIdle told; [cbn; by rewrite app_nil_r|]. cbn. rewrite IH. f_equal.
  destruct (bool_decide _); cbn; [done|]. by rewrite <- app_assoc.
Qed.

Lemma news_in m targets t : t ∈ news m targets <-> t ∈ targets /\ rm_keepIdle m !! t.1 <> Some t.2.
Proof. unfold news. rewrite !list_elem_of_In, filter_In, negb_true_iff, bool_decide_eq_false. done. Qed.

Lemma news_NoDup m targets : NoDup targets.*1 -> NoDup (news m targets).*1.
Proof.
  unfold news. induction targets as [|t targets IH]; [done|]. cbn. intros [Ht Hn]%NoDup_cons. destruct (bool_decide _); cbn; [by apply IH|].
  constructor; [|by apply IH]. intros (t' & Heq & Hin)%list_elem_of_fmap. apply Ht, list_elem_of_fmap. exists t'. split; [done|]. by apply news_in in Hin as [? _].
Qed.

Lemma update_keeps s m kept told reset m' : update w s m = Some (told, reset, m') -> managers_ok w -> rm_keepIdle m ⊆ kept ->
  exists transports outbounds, (forall tag, tag ∈ transports <-> referenced_transport s tag) /\ (forall tag, tag ∈ outbounds <-> referenced_outbound s tag) /\
  let targets := idle_targets w s transports outbounds in
  rm_keepIdle m' = tell ∅ targets /\
  rm_unreferencedTransports m' = Some (list_to_set (unreferenced s transports)) /\
  (NoDup targets.*1 -> rm_keepIdle m' ⊆ tell kept told /\ forall k b, (k, b) ∈ targets -> tell kept told !! k = Some b).
Proof.
  intros Hu Hw Hk. unfold update in Hu. destruct (referenced_sets_reachable s Hw) as (transports & outbounds & E & Ht & Ho). rewrite E in Hu.
  rewrite apply_targets in Hu. injection Hu as <- <- <-. exists transports, outbounds. split; [done|]. split; [done|]. cbn zeta. split_and!; [done|done|].
  set (targets := idle_targets w s transports outbounds). intros Hn.
  assert (Hall : forall k b, (k, b) ∈ targets -> tell kept (news m targets) !! k = Some b).
  { intros k b Hin. destruct (decide (rm_keepIdle m !! k = Some b)) as [Hm|Hm]; [|apply tell_told; [by apply news_NoDup|by apply news_in]].
    rewrite tell_other; [by eapply lookup_weaken|]. intros ([k' b'] & Hk' & Hin')%list_elem_of_fmap. cbn in Hk'. subst k'. apply news_in in Hin' as [Hin' Hne]. cbn in Hne.
    assert (Hb : tell ∅ targets !! k = Some b) by (by apply tell_told). rewrite (tell_told ∅ targets k b' Hn Hin') in Hb. congruence. }
  split; [|done]. cbn. apply map_subseteq_spec. intros k b [Hin|Hl]%tell_in; [by apply Hall|by rewrite lookup_empty in Hl].
Qed.
End referenced.

(** ** What connections use *)

(** The managers are in order, no tag is empty, and the default is an outbound that can be
    found. *)
Record in_service `{OutboundInterfaces} `{ReferenceInterfaces} {A : Type} (w : managers (A := A)) : Prop := {
  service_ok : managers_ok w;
  service_tags : OutboundManager_Outbound "" w = None;
  service_default : forall o, om_default w.1 = Some o -> OutboundManager_Outbound (ob_Tag o) w = Some o
}.

(** Along a chain, every group names the outbound behind it among its references (or
    dependencies), and it can be found. *)
Fixpoint refer_along `{ReferenceInterfaces} {A : Type} (w : managers (A := A)) (chain : list Outbound) : Prop :=
  match chain with
  | g :: (next :: _) as rest =>
      ob_Tag next ∈ outbound_next g /\ OutboundManager_Outbound (ob_Tag next) w = Some next /\ refer_along w rest
  | _ => True
  end.

Section connections.
Context `{Env} `{BuildContext} `{SniffLibrary} `{RouteLibrary} `{OutboundInterfaces} `{RouteDNS} `{Searchers} `{ReferenceInterfaces}.
Context {Q : Type} `{QUICSniffCache Q}.
Context {A : Type} (w : managers (A := A)) (s : Surroundings) (router : string -> option (RuleSet (Rule Item))) (rules : list (RouterRule Item)).
Implicit Types (f : Flow (Q := Q)) (o : Outbound) (x : RouteContext).

(** The manager looks at the rules of this router, in its mode. *)
Definition watches : Prop :=
  mode_known (su_mode s) /\ Forall2 (configured router) (su_rules s) rules /\ su_ruleDisabled s = map rr_disabled rules.

Lemma queue_collected tag : su_ruleDisabled s = map rr_disabled rules ->
  tag ∈ (collected w (su_mode s) (su_rules s) rules).1.2 -> tag ∈ (initial_queues w s).2.
Proof.
  intros Hd. unfold initial_queues, collected. rewrite Hd. destruct (collectDNSRuleReferences _ _) as [sh ts].
  destruct (collectRuleReferences _ _ _) as [[shadowed outbounds] transports]. cbn. set_solver.
Qed.

Lemma queue_default o : su_ruleDisabled s = map rr_disabled rules ->
  (collected w (su_mode s) (su_rules s) rules).1.1 = false -> om_default w.1 = Some o -> ob_Tag o ∈ (initial_queues w s).2.
Proof.
  intros Hd. unfold initial_queues, collected. rewrite Hd. destruct (collectDNSRuleReferences _ _) as [sh ts].
  destruct (collectRuleReferences _ _ _) as [[shadowed outbounds] transports]. cbn. intros -> ->. set_solver.
Qed.

Lemma selected_referenced now kind input f rule o : in_service w -> watches -> plain f -> (matchRule rules w input f).1 = Ok rule ->
  select w now kind rule = SelectOutbound (Some o) -> referenced_outbound w s (ob_Tag o) /\ OutboundManager_Outbound (ob_Tag o) w = Some o.
Proof.
  intros Hsv (Hm & Hl & Hd) Hp Hmatch Hsel. assert (Hload : OutboundManager_Outbound (ob_Tag o) w = Some o /\ ob_Tag o ∈ (initial_queues w s).2).
  { unfold matchRule in Hmatch. destruct (prepareMatchMetadata (fl_x f)) as [x|e] eqn:Hx; [|done].
    pose proof (walk_collected w _ router Hm input _ _ _ (prepared_plain f x Hp Hx) Hl) as Hwalk. rewrite Hmatch in Hwalk. unfold select in Hsel. destruct rule as [[i r]|].
    - assert (Hof : forall tag, target_of (rr_action r) = Some tag -> outbound_of w tag = SelectOutbound (Some o) ->
        OutboundManager_Outbound (ob_Tag o) w = Some o /\ ob_Tag o ∈ (initial_queues w s).2).
      { intros tag Ht. unfold outbound_of. destruct (OutboundManager_Outbound tag w) as [o'|] eqn:Ho; [|done]. intros [= ->].
        destruct (outbound_loaded w _ _ (service_ok w Hsv) Ho) as [_ <-]. split; [done|]. by apply queue_collected; [|apply Hwalk]. }
      destruct (rr_action r) as [t ro|ro|t ro| |method nodrop| | | |]; try done; cbn [target_of] in Hof.
      + by eapply Hof.
      + destruct (empty_string t); [done|by eapply Hof].
      + destruct (bool_decide _); [done|]. by destruct (RuleActionReject_Error _ _ _ _).
    - injection Hsel as Hdef. split; [by apply service_default|]. by apply queue_default. }
  destruct Hload as [Hload Hin]. split; [|done]. eapply reach_root; [by left| |exact Hload]. intros E. rewrite E, service_tags in Hload by done. done.
Qed.

Lemma chain_referenced o tail : in_service w -> refer_along w (o :: tail) ->
  referenced_outbound w s (ob_Tag o) -> OutboundManager_Outbound (ob_Tag o) w = Some o -> Forall (fun o' => referenced_outbound w s (ob_Tag o')) tail.
Proof.
  intros Hsv. revert o. induction tail as [|next tail IH]; intros o Hc Hr Hload; [done|].
  destruct Hc as (Hin & Hload' & Hc). assert (Hr' : referenced_outbound w s (ob_Tag next)).
  { eapply reach_next; [exact Hr|exact Hload|exact Hin| |exact Hload']. intros E. rewrite E, service_tags in Hload' by done. done. }
  constructor; [done|by apply (IH next)].
Qed.

Lemma resolved_referenced now kind input f rule selected fuel network x chain : in_service w -> watches -> plain f -> (matchRule rules w input f).1 = Ok rule ->
  select w now kind rule = SelectOutbound selected -> resolveOutbound fuel selected network x = Some (Ok chain) ->
  forall before o after, chain = before ++ o :: after -> refer_along w (before ++ [o]) -> referenced_outbound w s (ob_Tag o).
Proof.
  intros Hsv Hwt Hp Hmatch Hsel Hres. destruct selected as [o|]; [|done]. destruct (selected_referenced _ _ _ _ _ _ Hsv Hwt Hp Hmatch Hsel) as [Hr Hload].
  apply resolve_loop_chain in Hres as (tail & -> & _). intros before o' after Hch Hal. destruct before as [|o1 before]; cbn in Hch, Hal.
  - by injection Hch as <- _.
  - injection Hch as <- _. pose proof (chain_referenced o (before ++ [o']) Hsv Hal Hr Hload) as Hall. rewrite Forall_app, Forall_singleton in Hall. by destruct Hall.
Qed.

Context {C P : Type} `{CachedConns C P} `{InboundInterfaces}.

Lemma routeConnection_resolves now trackers fuel x (q : Q) reads rule chain conn x' counter q' : IgnoreDestinationIPCIDRMatch (rx_md x) = false ->
  routeConnection (P := P) rules w now trackers fuel x q reads = Some (Routed rule chain conn x', counter, q') ->
  exists f kind input network x1 selected, plain f /\ (matchRule rules w input f).1 = Ok rule /\ select w now kind rule = SelectOutbound selected /\
    resolveOutbound fuel selected network x1 = Some (Ok chain).
Proof.
  intros Hi. unfold routeConnection. destruct (negb _).
  { unfold inject. destruct (bool_decide _); [done|]. by destruct (asTCPInjectable _) as [[]|]. }
  destruct (deprecated_destination _); [done|]. destruct (is_tun_dns _); [done|]. destruct (matchRule _ _ _ _) as [[selected|e] f'] eqn:Hm; [|done].
  destruct (select w now "TCP" selected) as [o| |] eqn:Hs; [|done|done]. destruct (resolveOutbound _ _ _ _) as [[c|e]|] eqn:Hr; [|done|done].
  intros [= <- <- _ _ _ _]. eexists _, _, _, _, _, _. split_and!; [|by rewrite Hm|exact Hs|exact Hr]. done.
Qed.

Lemma routePacketConnection_resolves now trackers fuel x (q : Q) reads rule chain conn x' counter q' : IgnoreDestinationIPCIDRMatch (rx_md x) = false ->
  routePacketConnection (C := C) rules w now trackers fuel x q reads = Some (Routed rule chain conn x', counter, q') ->
  exists f kind input network x1 selected, plain f /\ (matchRule rules w input f).1 = Ok rule /\ select w now kind rule = SelectOutbound selected /\
    resolveOutbound fuel selected network x1 = Some (Ok chain).
Proof.
  intros Hi. unfold routePacketConnection. destruct (negb _).
  { unfold inject. destruct (bool_decide _); [done|]. by destruct (asUDPInjectable _) as [[]|]. }
  destruct (is_tun_dns _); [done|]. destruct (matchRule _ _ _ _) as [[selected|e] f'] eqn:Hm; [|done].
  destruct (select w now "UDP" selected) as [o| |] eqn:Hs; [|done|done]. destruct (resolveOutbound _ _ _ _) as [[c|e]|] eqn:Hr; [|done|done].
  intros [= <- <- _ _ _ _]. eexists _, _, _, _, _, _. split_and!; [|by rewrite Hm|exact Hs|exact Hr]. done.
Qed.
End connections.

(** ** Theorems *)

(** The static reading says how the engine matches. *)
Definition foretells (m : staticMatch) (matched : bool) : Prop :=
  (m = staticMatchNever -> matched = false) /\ (m = staticMatchAlways -> matched = true).

Lemma says_foretells m b : says m b -> foretells m b.
Proof. by destruct m, b. Qed.

(** C31. What the reference manager takes a rule to do in the current mode is what the rule
    does: a route or DNS rule that is evaluated as never matching, or as always matching,
    does so for every connection or query once it is built and started, nested logical rules
    and inversion included.  Inverted rules without any condition are excepted. *)
Theorem static_match_sound `{Env} `{BuildContext} mode router m : mode_known mode -> complete m ->
  (forall newAction p o c b r, no_bare_inversion o = true -> NewRule newAction p o c = Ok b -> Rule_Start router b = Ok r ->
    foretells (evaluateRule mode o) (Match r m).1) /\
  (forall o c legacy b r, no_bare_inversion_dns o = true -> NewDNSRule o c legacy = Ok b -> Rule_Start router b = Ok r ->
    foretells (evaluateDNSRule mode o) (Match r m).1).
Proof.
  intros Hm Hc. split.
  - intros newAction p o c b r Hn Hb Hs. rewrite (proj1 (Match_exact r m Hc)). apply says_foretells. by eapply evaluateRule_says; [apply regular_of| |].
  - intros o c legacy b r Hn Hb Hs. rewrite (proj1 (Match_exact r m Hc)). apply says_foretells. by eapply evaluateDNSRule_says; [apply regular_dns_of| |].
Qed.

(** C30. The queues of the reference manager are always worked off, and what they mark is the
    least set that contains what rules, options, inbounds and services name and that is
    closed under dependencies and the selections of groups: no cycle among dependencies
    keeps the update from ending, nothing that is used is missed, and nothing else counts. *)
Theorem references_are_closure `{GoUnicode} `{OutboundInterfaces} `{ReferenceInterfaces} {A : Type} (w : managers (A := A)) s : managers_ok w ->
  exists transports outbounds, referenced_sets w s = Some (transports, outbounds) /\
  (forall tag, tag ∈ transports <-> referenced_transport w s tag) /\ (forall tag, tag ∈ outbounds <-> referenced_outbound w s tag).
Proof. apply referenced_sets_reachable. Qed.

(** Keepers are who they are: no two of them have the same identity. *)
Definition keepers_distinct {A : Type} (w : managers (A := A)) (s : Surroundings) : Prop :=
  NoDup (ids (all_outbounds w ++ all_endpoints w)) /\ NoDup (map tp_id (su_transports s)).

Lemma NoDup_sub {T K : Type} (key : T -> K) (p : T -> bool) l : NoDup (map key l) -> NoDup (map key (List.filter p l)).
Proof.
  induction l as [|x l IH]; [done|]. cbn. intros [Hx Hn]%NoDup_cons. destruct (p x); cbn; [|by apply IH]. constructor; [|by apply IH].
  intros (y & Hy & Hin)%list_elem_of_fmap. apply Hx, list_elem_of_fmap. exists y. split; [done|]. apply list_elem_of_In, filter_In in Hin as [Hin _]. by apply list_elem_of_In.
Qed.

Lemma targets_distinct `{OutboundInterfaces} `{ReferenceInterfaces} {A : Type} (w : managers (A := A)) s ts os :
  keepers_distinct w s -> NoDup (idle_targets w s ts os).*1.
Proof.
  intros [Ho Ht]. unfold idle_targets. rewrite !fmap_app. change (fmap fst) with (map (@fst Keeper bool)). rewrite !map_map. cbn [fst].
  unfold ids in Ho. rewrite map_app in Ho. apply NoDup_app in Ho as (Hout & Hdisj & Hend).
  assert (Hin : forall p l id, OutboundKeeper id ∈ map (fun o => OutboundKeeper (ob_id o)) (List.filter p l) -> id ∈ map ob_id l).
  { intros p l id (o & [= ->] & Hin)%list_elem_of_fmap. apply list_elem_of_fmap. exists o. split; [done|]. apply list_elem_of_In, filter_In in Hin as [Hin _]. by apply list_elem_of_In. }
  assert (Hnd : forall p l, NoDup (map ob_id l) -> NoDup (map (fun o => OutboundKeeper (ob_id o)) (List.filter p l))).
  { intros p l Hl. rewrite <- (map_map ob_id OutboundKeeper). apply NoDup_fmap_2; [by intros ? ? [= ->]|]. by apply NoDup_sub. }
  apply NoDup_app. split_and!; [by apply Hnd| |apply NoDup_app; split_and!; [by apply Hnd| |]].
  - intros k (o & -> & Hk)%list_elem_of_fmap [Hk'|(t & ? & _)%list_elem_of_fmap]%elem_of_app; [|done]. eapply Hdisj; [|by eapply Hin].
    apply (Hin ri_isKeeper), list_elem_of_fmap. by exists o.
  - by intros k (o & -> & _)%list_elem_of_fmap (t & ? & _)%list_elem_of_fmap.
  - rewrite <- (map_map tp_id TransportKeeper). apply NoDup_fmap_2; [by intros ? ? [= ->]|]. by apply NoDup_sub.
Qed.

(** C28. What a connection is sent through is kept open: after an update in the current mode,
    the outbound of the rule (or the default) that [routeConnection] or
    [routePacketConnection] selects is referenced, and so is every outbound behind it on the
    chain as long as the groups before it name what they select among their references; those
    of them that keep idle connections were last told to keep them.  So no rule that a
    connection can reach is taken for shadowed.  Rules with a [direct] action and inverted
    rules without a condition are excepted, and outbounds and transports are told apart by
    their identities. *)
Theorem used_outbounds_kept `{Env} `{BuildContext} `{SniffLibrary} `{RouteLibrary} `{OutboundInterfaces} `{RouteDNS} `{Searchers} `{ReferenceInterfaces}
    {Q : Type} `{QUICSniffCache Q} {A C P : Type} `{CachedConns C P} `{InboundInterfaces} (w : managers (A := A)) s router rules
    now trackers packetTrackers fuel x (q : Q) chain m kept told reset m' :
  in_service w -> watches s router rules -> IgnoreDestinationIPCIDRMatch (rx_md x) = false -> keepers_distinct w s ->
  rm_keepIdle m ⊆ kept -> update w s m = Some (told, reset, m') ->
  (exists reads rule conn x' counter q', routeConnection (P := P) rules w now trackers fuel x q reads = Some (Routed rule chain conn x', counter, q')) \/
  (exists reads rule conn x' counter q', routePacketConnection (C := C) rules w now packetTrackers fuel x q reads = Some (Routed rule chain conn x', counter, q')) ->
  forall before o after, chain = before ++ o :: after -> refer_along w (before ++ [o]) -> referenced_outbound w s (ob_Tag o) /\
    (o ∈ all_outbounds w -> ri_isKeeper o = true -> tell kept told !! OutboundKeeper (ob_id o) = Some true).
Proof.
  intros Hsv Hwt Hi Hdist Hk Hu Hroute before o after Hch Hal.
  assert (Hall : referenced_outbound w s (ob_Tag o)).
  { destruct Hroute as [(reads & rule & conn & x' & counter & q' & Hr)|(reads & rule & conn & x' & counter & q' & Hr)].
    - eapply routeConnection_resolves in Hr as (f & kind & input & network & x1 & o1 & Hp & Hmatch & Hsel & Hres); [|exact Hi]. by eapply resolved_referenced.
    - eapply routePacketConnection_resolves in Hr as (f & kind & input & network & x1 & o1 & Hp & Hmatch & Hsel & Hres); [|exact Hi]. by eapply resolved_referenced. }
  split; [done|]. intros Hin Hkeep.
  destruct (update_keeps w s m kept told reset m' Hu (service_ok w Hsv) Hk) as (ts & os & _ & Hos & _ & _ & Hn).
  apply (proj2 (Hn (targets_distinct w s ts os Hdist))). unfold idle_targets. apply elem_of_app. left. apply list_elem_of_fmap. exists o.
  split; [by rewrite bool_decide_true by (by apply Hos)|]. apply list_elem_of_In, filter_In. split; [by apply list_elem_of_In|done].
Qed.

(** ** A sequence of updates *)

Section updates.
Context `{GoUnicode} `{OutboundInterfaces} `{ReferenceInterfaces} {A : Type}.
Implicit Types (w : managers (A := A)) (s : Surroundings) (st : ReferenceManager * gmap Keeper bool).

(** Updates, with what keepers were told last. *)
Fixpoint updates (events : list (managers (A := A) * Surroundings)) st : option (ReferenceManager * gmap Keeper bool) :=
  match events with
  | [] => Some st
  | (w, s) :: rest =>
      match update w s st.1 with
      | Some (told, _, m) => updates rest (m, tell st.2 told)
      | None => None
      end
  end.

Definition new_reference_manager : ReferenceManager := mkReferenceManager ∅ None.

(** The state of the manager and of keepers after an update. *)
Definition in_force w s st : Prop :=
  (forall o, o ∈ all_outbounds w -> ri_isKeeper o = true ->
    exists b, st.2 !! OutboundKeeper (ob_id o) = Some b /\ (b = true <-> referenced_outbound w s (ob_Tag o))) /\
  (forall o, o ∈ all_endpoints w -> ri_OnDemand o = true ->
    exists b, st.2 !! OutboundKeeper (ob_id o) = Some b /\ (b = true <-> referenced_outbound w s (ob_Tag o) /\ su_devicePaused s = false)) /\
  (forall t, t ∈ su_transports s -> tp_isKeeper t = true ->
    exists b, st.2 !! TransportKeeper (tp_id t) = Some b /\ (b = true <-> referenced_transport w s (tp_Tag t))) /\
  (exists idle, rm_unreferencedTransports st.1 = Some idle /\
    forall tag, tag ∈ idle <-> exists t, t ∈ su_transports s /\ tp_isKeeper t = false /\ tp_Tag t = tag /\ ~ referenced_transport w s tag).

Lemma filtered {T : Type} (p : T -> bool) l x : x ∈ List.filter p l <-> x ∈ l /\ p x = true.
Proof. by rewrite !list_elem_of_In, filter_In. Qed.

Lemma in_targets {T : Type} (key : T -> Keeper) (keep : T -> bool) (p : T -> bool) l x : x ∈ l -> p x = true ->
  (key x, keep x) ∈ map (fun y => (key y, keep y)) (List.filter p l).
Proof. intros Hx Hp. apply list_elem_of_fmap. exists x. split; [done|]. by apply filtered. Qed.

Lemma update_in_force w s st : managers_ok w -> keepers_distinct w s -> rm_keepIdle st.1 ⊆ st.2 ->
  exists told reset m, update w s st.1 = Some (told, reset, m) /\ rm_keepIdle m ⊆ tell st.2 told /\ in_force w s (m, tell st.2 told).
Proof.
  intros Hw Hd Hk. destruct (update w s st.1) as [[[told reset] m]|] eqn:Hu.
  2: { exfalso. unfold update in Hu. destruct (referenced_sets_reachable w s Hw) as (ts & os & E & _). rewrite E in Hu. by destruct (foldl _ _ _). }
  exists told, reset, m. split; [done|]. destruct (update_keeps w s st.1 st.2 told reset m Hu Hw Hk) as (ts & os & Ht & Ho & _ & Hidle & Hn).
  destruct (Hn (targets_distinct w s ts os Hd)) as [Hsub Htell]. split; [done|]. unfold in_force. cbn [fst snd]. split_and!.
  - intros o Hin Hkeep. eexists. split; [apply Htell, elem_of_app; left; by apply (in_targets (fun o => OutboundKeeper (ob_id o)) (fun o => bool_decide (ob_Tag o ∈ os)))|].
    by rewrite bool_decide_eq_true.
  - intros o Hin Hkeep. eexists. split; [apply Htell, elem_of_app; right; apply elem_of_app; left; by apply (in_targets (fun o => OutboundKeeper (ob_id o)) (fun o => bool_decide (ob_Tag o ∈ os) && negb (su_devicePaused s)))|].
    by rewrite andb_true_iff, bool_decide_eq_true, negb_true_iff, Ho.
  - intros t Hin Hkeep. eexists. split; [apply Htell, elem_of_app; right; apply elem_of_app; right; by apply (in_targets (fun t => TransportKeeper (tp_id t)) (fun t => bool_decide (tp_Tag t ∈ ts)))|].
    by rewrite bool_decide_eq_true.
  - eexists. split; [exact Hidle|]. intros tag. rewrite elem_of_list_to_set. unfold unreferenced. rewrite list_elem_of_fmap. split.
    + intros (t & -> & [Hin [Hp Hr%negb_true_iff%bool_decide_eq_false]%andb_true_iff]%filtered). exists t. rewrite <- Ht. by apply negb_true_iff in Hp.
    + intros (t & Hin & Hp & <- & Hr). exists t. split; [done|]. apply filtered. split; [done|]. rewrite Hp, bool_decide_false; [done|]. by rewrite Ht.
Qed.

Lemma updates_app events w s st : updates (events ++ [(w, s)]) st =
  match updates events st with
  | Some st' => match update w s st'.1 with Some (told, _, m) => Some (m, tell st'.2 told) | None => None end
  | None => None
  end.
Proof. revert st. induction events as [|[w' s'] events IH]; intros st; [done|]. cbn. destruct (update w' s' st.1) as [[[told reset] m]|]; [apply IH|done]. Qed.

Lemma updates_keep events st : Forall (fun e => managers_ok e.1 /\ keepers_distinct e.1 e.2) events -> rm_keepIdle st.1 ⊆ st.2 ->
  exists st', updates events st = Some st' /\ rm_keepIdle st'.1 ⊆ st'.2.
Proof.
  revert st. induction events as [|[w s] events IH]; intros st Hall Hk; [by exists st|]. apply Forall_cons in Hall as [[Hw Hd] Hall]. cbn.
  destruct (update_in_force w s st Hw Hd Hk) as (told & reset & m & -> & Hsub & _). by apply (IH (m, tell st.2 told)).
Qed.

(** C29. However often the mode, the selections of groups, the rules or the outbounds change,
    after the last update every keeper was last told what holds now: an outbound or server
    keeps its idle connections exactly if it is referenced, an endpoint on demand if it is
    referenced and the device is awake, although only changes are passed on.  The servers
    that are remembered as idle are those without a keeper that are not referenced. *)
Theorem keepers_follow_references (events : list (managers (A := A) * Surroundings)) w s :
  Forall (fun e => managers_ok e.1 /\ keepers_distinct e.1 e.2) (events ++ [(w, s)]) ->
  exists st, updates (events ++ [(w, s)]) (new_reference_manager, ∅) = Some st /\ in_force w s st.
Proof.
  intros [Hall [[Hw Hd] _]%Forall_cons]%Forall_app. destruct (updates_keep events (new_reference_manager, ∅) Hall (map_empty_subseteq ∅)) as (st & Hst & Hk).
  destruct (update_in_force w s st Hw Hd Hk) as (told & reset & m & Hu & _ & Hf). exists (m, tell st.2 told). split; [|done].
  by rewrite updates_app, Hst, Hu.
Qed.
End updates.

(** ** Instances *)

#[local] Instance mode_env : Env := {|
  env_GoUnicode := sample_unicode; IsAndroid := false; IsDomain := @IsDomain sample_env; IsIP := @IsIP sample_env; IsIPv6 := @IsIPv6 sample_env;
  IsPublicAddr := @IsPublicAddr sample_env; AddrFromIP := @AddrFromIP sample_env; NewMatcher := @NewMatcher sample_env;
  NewAdGuardMatcher := @NewAdGuardMatcher sample_env; BuildIPSet := sample_ip_set; CanonicalName := fun s => s; IsDuplicate := @IsDuplicate sample_env;
  Compile := @Compile sample_env; DefaultNetworkInterface := None; NetworkInterfaces := []; Monitor := None; FinderInterfaces := []; WIFIState_SSID := "";
  WIFIState_BSSID := ""; ClashMode := Some "rule"%string; RuleItems.Transport := fun _ => None; OutboundByTag := fun _ => None
|}.

#[local] Instance mode_build : BuildContext := sample_build.

(** Selectors refer to what they select; everything keeps idle connections. *)
#[local] Instance sample_references : ReferenceInterfaces := {|
  ri_References := fun o => if bool_decide (ob_Type o = "selector"%string) then Some ["direct"%string] else None;
  ri_isKeeper := fun _ => true;
  ri_OnDemand := fun _ => false
|}.

(** A rule for some modes that routes to an outbound. *)
Definition mode_options (modes : list string) (inv : bool) : RawDefaultRule :=
  mkRawDefaultRule [] 0 [] [] [] [] [] [] [] [] [] [] [] [] false [] false [] [] [] [] [] [] [] [] [] [] [] modes
    [] false false [] [] [] [] [] [] [] [] [] [] [] false 0 inv false.

Definition mode_rule (modes : list string) : RouteRule :=
  mkRouteRule RuleTypeDefault (mode_options modes false) "" [] 0 false (mkRuleActionOptions "route" "select" []).

Definition mode_fields (outbound : string) : RuleActionFields :=
  mkRuleActionFields "route" (mkRouteActionOptions outbound zero_RawRouteOptions) zero_RawRouteOptions (mkRouteActionOptions "" zero_RawRouteOptions)
    (mkRejectActionOptions "" false) (mkRouteActionSniff [] 0) (mkRouteActionResolve "" 0 0 false false None None false).

(** The rules of the router: the first one is for another mode. *)
Definition mode_item (modes : list string) : Rule Item :=
  RDefault KindRoute (mkDefaultRule [ClashModeItem modes] [] [] [] [] [] [OfItem (ClashModeItem modes)] false) None.

Definition mode_rules : list (RouterRule Item) :=
  [mkRouterRule (mode_item ["global"%string]) (ActionRoute "direct" no_options) false []; mkRouterRule (mode_item ["rule"%string]) (ActionRoute "select" no_options) false []].

Definition mode_surroundings : Surroundings :=
  mkSurroundings "rule" [(mode_rule ["global"%string], mode_fields "direct"); (mode_rule ["rule"%string], mode_fields "select")] [false; false] [] []
    [mkTransport 1 "dns" [] None true] (Some "dns"%string) "" [] [] [] false.

Lemma mode_managers_ok : managers_ok sample_managers.
Proof.
  assert (Hn : nodes_ok (mkNodes [sample_direct; sample_selector] (<["direct"%string := sample_direct]> (<["select"%string := sample_selector]> ∅)))).
  { split_and!; [apply (bool_decide_unpack _); vm_compute; exact I..|]. intros tag o. cbn [nd_byTag nd_list]. rewrite !lookup_insert_Some, lookup_empty.
    rewrite !elem_of_cons, elem_of_nil. split; [naive_solver|]. intros [[->|[->|[]]] <-]; [by left|right; split; [done|by left]]. }
  split; [split_and!; [done| |done|]|split_and!; [|by constructor|done]].
  - by repeat constructor.
  - intros o [= <-]. left. by left.
  - split_and!; [constructor..|]. intros tag o. cbn. rewrite lookup_empty. split; [done|]. by intros [?%not_elem_of_nil _].
Defined.

Lemma mode_in_service : in_service sample_managers.
Proof.
  constructor; [apply mode_managers_ok|reflexivity|by intros o [= <-]].
Defined.

Lemma mode_refer_along : refer_along sample_managers [sample_selector; sample_direct].
Proof. split_and!; [apply (bool_decide_unpack _); vm_compute; exact I|vm_compute; reflexivity|exact I]. Defined.

Lemma mode_watches : watches mode_surroundings (fun _ => None) mode_rules.
Proof.
  split_and!; [split; [|reflexivity]|repeat constructor|reflexivity].
  - intros a b. cbn. by apply bool_decide_ext.
  - done.
  - exists (fun _ => Ok tt), 0, true. eexists. split; vm_compute; reflexivity.
  - exists false, (fun _ _ => zero_socks), (Ok tt). vm_compute. reflexivity.
  - done.
  - exists (fun _ => Ok tt), 0, true. eexists. split; vm_compute; reflexivity.
  - exists false, (fun _ _ => zero_socks), (Ok tt). vm_compute. reflexivity.
Defined.

Lemma static_match_sound_witness :
  (Match (mode_item ["global"%string]) (sample_metadata "a.example")).1 = false /\ (Match (mode_item ["rule"%string]) (sample_metadata "a.example")).1 = true.
Proof.
  destruct (static_match_sound "rule" (fun _ => None) (sample_metadata "a.example") (proj1 mode_watches) ltac:(by split)) as [Hr _]. split.
  - apply (proj1 (Hr (fun _ => Ok tt) 0 (mode_rule ["global"%string]) true _ (mode_item ["global"%string]) eq_refl eq_refl eq_refl)). vm_compute. reflexivity.
  - apply (proj2 (Hr (fun _ => Ok tt) 0 (mode_rule ["rule"%string]) true _ (mode_item ["rule"%string]) eq_refl eq_refl eq_refl)). vm_compute. reflexivity.
Defined.

Lemma references_are_closure_witness : referenced_outbound sample_managers mode_surroundings "direct".
Proof.
  destruct (references_are_closure sample_managers mode_surroundings mode_managers_ok) as (ts & os & E & _ & Ho).
  assert (Hin : match referenced_sets sample_managers mode_surroundings with Some (_, os) => bool_decide ("direct"%string ∈ os) | None => false end = true)
    by (vm_compute; reflexivity).
  rewrite E in Hin. apply Ho. by apply bool_decide_eq_true in Hin.
Defined.

Lemma mode_keepers_distinct : keepers_distinct sample_managers mode_surroundings.
Proof. split; apply (bool_decide_unpack _); vm_compute; exact I. Defined.

(** A connection goes through the selector. *)
Lemma mode_routed : exists (reads : list ReadEvent) rule conn x' counter q',
  routeConnection (C := list Z) (P := list (list Z * Socksaddr)) mode_rules sample_managers 0 [] 3 (sample_route "tcp" (mkSocksaddr (Addr4 16909060) 80 "")) tt reads =
  Some (Routed rule [sample_selector; sample_direct] conn x', counter, q').
Proof.
  assert (Hr : match routeConnection (C := list Z) (P := list (list Z * Socksaddr)) mode_rules sample_managers 0 [] 3 (sample_route "tcp" (mkSocksaddr (Addr4 16909060) 80 "")) tt [] with
               | Some (Routed _ chain _ _, _, _) => bool_decide (chain = [sample_selector; sample_direct])
               | _ => false
               end = true) by (vm_compute; reflexivity).
  exists []. destruct (routeConnection _ _ _ _ _ _ _ _) as [[[[e|inbound x|conn x|rule chain conn x] counter] q]|]; try discriminate Hr.
  apply bool_decide_eq_true in Hr. subst chain. by exists rule, conn, x, counter, q.
Qed.

Lemma used_outbounds_kept_witness :
  match update sample_managers mode_surroundings new_reference_manager with
  | Some (told, _, _) => tell ∅ told !! OutboundKeeper 1%nat = Some true
  | None => False
  end.
Proof.
  destruct (update sample_managers mode_surroundings new_reference_manager) as [[[told reset] m]|] eqn:Hu; [|vm_compute in Hu; discriminate Hu].
  assert (Hall : sample_direct ∈ all_outbounds sample_managers) by (by left).
  exact (proj2 (used_outbounds_kept (C := list Z) (P := list (list Z * Socksaddr)) sample_managers mode_surroundings (fun _ => None) mode_rules 0 [] [] 3
    (sample_route "tcp" (mkSocksaddr (Addr4 16909060) 80 "")) tt [sample_selector; sample_direct] new_reference_manager ∅ told reset m
    mode_in_service mode_watches eq_refl mode_keepers_distinct (map_empty_subseteq ∅) Hu (or_introl mode_routed) [sample_selector] sample_direct [] eq_refl mode_refer_along) Hall eq_refl).
Defined.

Lemma keepers_follow_references_witness :
  exists st, updates [(sample_managers, mode_surroundings); (sample_managers, mode_surroundings)] (new_reference_manager, ∅) = Some st /\
    in_force sample_managers mode_surroundings st.
Proof.
  apply (keepers_follow_references [(sample_managers, mode_surroundings)]).
  repeat (constructor; [split; [apply mode_managers_ok|apply mode_keepers_distinct]|]). constructor.
Defined.

(** ** Where both readings differ *)

(** An inverted rule without any condition matches everything, and is taken to match nothing:
    its outbound is not referenced. *)
Lemma bare_inversion_unreferenced :
  let rule := mkRouteRule RuleTypeDefault (mode_options [] true) "" [] 0 false (mkRuleActionOptions "route" "select" []) in
  (exists b r, NewRule (fun _ => Ok tt) 0 rule true = Ok b /\ Rule_Start (fun _ => None) b = Ok r /\ forall m, (Match r m).1 = true) /\
  collectRuleReferences "rule" (fun _ => false) [(rule, mode_fields "select")] = (false, [], []).
Proof. split; [|vm_compute; reflexivity]. eexists _, _. split; [vm_compute; reflexivity|]. split; [vm_compute; reflexivity|done]. Qed.

(** A [direct] action hides later rules from the collection, although routing goes on. *)
Lemma direct_action_shadows :
  let direct := mkRuleActionFields "direct" (mkRouteActionOptions "" zero_RawRouteOptions) zero_RawRouteOptions (mkRouteActionOptions "" zero_RawRouteOptions)
    (mkRejectActionOptions "" false) (mkRouteActionSniff [] 0) (mkRouteActionResolve "" 0 0 false false None None false) in
  NewRuleAction false (fun _ _ => zero_socks) (Ok tt) direct = Ok (Some ActionDirect) /\ is_final ActionDirect = false /\
  collectRuleReferences "rule" (fun _ => false) [(mode_rule ["rule"%string], direct); (mode_rule ["rule"%string], mode_fields "select")] = (true, [], []).
Proof. split_and!; vm_compute; reflexivity. Qed.

(** ** Groups *)

(** A selector refers to what it selects, and so does a group of tested outbounds once it has a
    selection for the network. *)
Lemma group_selection_referenced `{GroupInterfaces} :
  (forall s o, Selector_Selected s = Some o -> ob_Tag o ∈ Selector_References s) /\
  (forall depth network history g o, URLTest_Selected depth network history g = Some o ->
    (if bool_decide (network = "udp"%string) then ug_selectedOutboundUDP g else ug_selectedOutboundTCP g) <> None ->
    ob_Tag o ∈ URLTest_References (Some g)).
Proof.
  split.
  - unfold Selector_Selected, Selector_References. intros s o ->. by left.
  - unfold URLTest_Selected, URLTest_References. intros depth network history g o Hs Hn. destruct (bool_decide (network = "udp"%string)).
    + destruct (ug_selectedOutboundUDP g) as [u|]; [|done]. injection Hs as ->. apply elem_of_app.
      case_bool_decide as E; [left; rewrite E; by left|right; by left].
    + destruct (ug_selectedOutboundTCP g) as [t|]; [|done]. injection Hs as ->. by left.
Qed.

(** Before that it uses a member it does not refer to. *)
Lemma urltest_unreferenced_before_selection `{GroupInterfaces} network history o : takes network o = true ->
  let g := mkURLTestGroup [o] 0 false 0 None None in
  URLTest_Selected 1 network history g = Some o /\ URLTest_References (Some g) = [].
Proof.
  intros Ht g. split; [|done]. unfold URLTest_Selected. assert (Hsel : (if bool_decide (network = "udp"%string) then ug_selectedOutboundUDP g else ug_selectedOutboundTCP g) = None)
    by (by destruct (bool_decide _)). rewrite Hsel. unfold URLTestGroup_Select.
  assert (Hi : initial_choice 1 network history g = mkChoice 0 None 0 None) by (unfold initial_choice, selected_for; cbn; by repeat destruct (bool_decide _)).
  rewrite Hi. cbn [ug_outbounds g select_loop]. rewrite Ht. cbn [negb]. destruct (load_delay 1 network history o); cbn [ug_fallback_enabled g andb ch_minDelay Z.eqb orb ch_minOutbound ch_ignored List.find fst]; [done|].
  by rewrite Ht.
Qed.
