(* ===== verification/FakeIP.v ===== *)
(** * Fake addresses

    [src/dns/transport/fakeip] and [src/adapter/fakeip_metadata.go]: domains are given addresses of
    a range, one after the other, and the position in the range is saved ahead of its use.
    The storage is an interface; [MemoryStorage] is here, the cache file has a file of its
    own. *)

From stdpp Require Import base gmap strings list.
From Stdlib Require Import ZArith Lia.
From S2P Require Import Prelude Net Codec Metadata DnsRecords.

Open Scope Z_scope.

(** ** Addresses of a range *)

(** The loop of [broadcastAddress] over the bits of the 16 bytes, from bit [i] on. *)
Fixpoint set_bits (n : nat) (i : Z) (raw : Z) : Z :=
  match n with
  | O => raw
  | S n' => set_bits n' (i + 1) (Z.lor raw (Z.shiftl 1 (127 - i)))
  end.

Definition broadcastAddress (prefix : Prefix) : Addr :=
  let addr := prefix_addr prefix in
  let bits := if addr_Is4 addr then prefix_bits prefix + 96 else prefix_bits prefix in
  let raw := set_bits (Z.to_nat (128 - bits)) bits (addr_As16 addr) in
  if addr_Is4 addr then Addr4 (raw `mod` 2 ^ 32) else Addr6 raw "".

Definition nextAddress (addressRange : Prefix) (last current : Addr) : Addr :=
  let address := addr_Next current in
  if bool_decide (address = last) || negb (prefix_Contains addressRange address)
  then addr_Next (addr_Next (prefix_addr addressRange)) else address.

(** ** The saved position *)

Record FakeIPMetadata : Type := mkFakeIPMetadata {
  fm_Inet4Range : Prefix;
  fm_Inet6Range : Prefix;
  fm_Inet4Current : Addr;
  fm_Inet6Current : Addr
}.

#[export] Instance FakeIPMetadata_eq_dec : EqDecision FakeIPMetadata.
Proof. solve_decision. Defined.

(** [MarshalBinary] of [netip.Addr] and [netip.Prefix]. *)
Definition addr_MarshalBinary (a : Addr) : list Z :=
  match a with
  | AddrInvalid => []
  | Addr4 v => be_bytes 4 v
  | Addr6 v z => be_bytes 16 v ++ bytes_of_string z
  end.

Definition prefix_MarshalBinary (p : Prefix) : list Z :=
  addr_MarshalBinary (addr_WithZone (prefix_addr p) "") ++ [wrap 8 (prefix_bits p)].

Definition addr_UnmarshalBinary (b : list Z) : result Addr :=
  if (length b =? 0)%nat then Ok AddrInvalid
  else if (length b =? 4)%nat then Ok (Addr4 (be_value b))
  else if (length b =? 16)%nat then Ok (Addr6 (be_value b) "")
  else if (16 <? length b)%nat then Ok (Addr6 (be_value (take 16 b)) (string_of_bytes (drop 16 b)))
  else Err (ENew "unexpected slice size").

Definition prefix_UnmarshalBinary (b : list Z) : result Prefix :=
  match last b with
  | None => Err (ENew "unexpected slice size")
  | Some bits => try addr <- addr_UnmarshalBinary (take (length b - 1) b); Ok (PrefixFrom addr bits)
  end.

Definition MarshalBinary (m : FakeIPMetadata) : list Z :=
  flat_map (fun data : list Z => be_bytes 2 (wrap 16 (Z.of_nat (length data))) ++ data)
    [prefix_MarshalBinary (fm_Inet4Range m); prefix_MarshalBinary (fm_Inet6Range m);
     addr_MarshalBinary (fm_Inet4Current m); addr_MarshalBinary (fm_Inet6Current m)].

(** One round of the loop of [UnmarshalBinary]; [common.Must] panics. *)
Definition unmarshal_element {A : Type} (unmarshal : list Z -> result A) (l : list Z) : result (A * list Z) :=
  match ReadBE 2 l with
  | Err _ => Err (EPanic "EOF")
  | Ok (length, l1) =>
      try element <- ReadFull (Z.to_nat length) l1;
      try a <- unmarshal element.1;
      Ok (a, element.2)
  end.

Definition UnmarshalBinary (data : list Z) : result FakeIPMetadata :=
  try r4 <- unmarshal_element prefix_UnmarshalBinary data;
  try r6 <- unmarshal_element prefix_UnmarshalBinary r4.2;
  try c4 <- unmarshal_element addr_UnmarshalBinary r6.2;
  try c6 <- unmarshal_element addr_UnmarshalBinary c4.2;
  Ok (mkFakeIPMetadata r4.1 r6.1 c4.1 c6.1).

(** ** Storage *)

(** [adapter.FakeIPStorage].  What happens to writes of the storage, if it has any, is given
    by an outcome of type [W]. *)
Class FakeIPStorage (T W : Type) : Type := {
  FakeIPMetadata_ : T -> option FakeIPMetadata;
  FakeIPSaveMetadata : W -> FakeIPMetadata -> T -> result unit * T;
  FakeIPStoreAsync : Addr -> string -> T -> T;
  FakeIPLoad : Addr -> T -> option string;
  FakeIPLoadDomain : string -> bool -> T -> option Addr;
  FakeIPReset : W -> T -> result unit * T
}.

Record MemoryStorage : Type := mkMemoryStorage {
  ms_addressCache : gmap Addr string;
  ms_domainCache4 : gmap string Addr;
  ms_domainCache6 : gmap string Addr
}.

Definition NewMemoryStorage : MemoryStorage := mkMemoryStorage ∅ ∅ ∅.

Definition Memory_FakeIPStore (address : Addr) (domain : string) (s : MemoryStorage) : MemoryStorage :=
  let forget (cache : gmap string Addr) := match ms_addressCache s !! address with Some oldDomain => delete oldDomain cache | None => cache end in
  mkMemoryStorage (<[address := domain]> (ms_addressCache s))
    (if addr_Is4 address then <[domain := address]> (forget (ms_domainCache4 s)) else ms_domainCache4 s)
    (if addr_Is4 address then ms_domainCache6 s else <[domain := address]> (forget (ms_domainCache6 s))).

Definition Memory_FakeIPLoad (address : Addr) (s : MemoryStorage) : option string := ms_addressCache s !! address.

Definition Memory_FakeIPLoadDomain (domain : string) (isIPv6 : bool) (s : MemoryStorage) : option Addr :=
  if negb isIPv6 then ms_domainCache4 s !! domain else ms_domainCache6 s !! domain.

Definition Memory_FakeIPReset (s : MemoryStorage) : MemoryStorage := mkMemoryStorage ∅ ∅ ∅.

#[export] Instance memory_storage : FakeIPStorage MemoryStorage unit := {|
  FakeIPMetadata_ := fun _ => None;
  FakeIPSaveMetadata := fun _ _ s => (Ok tt, s);
  FakeIPStoreAsync := Memory_FakeIPStore;
  FakeIPLoad := Memory_FakeIPLoad;
  FakeIPLoadDomain := Memory_FakeIPLoadDomain;
  FakeIPReset := fun _ s => (Ok tt, Memory_FakeIPReset s)
|}.

(** ** The store *)

Definition reservedAddressCount : Z := 1024.

Record FakeIPStore : Type := mkStore {
  fs_inet4Range : Prefix;
  fs_inet6Range : Prefix;
  fs_inet4Last : Addr;
  fs_inet6Last : Addr;
  fs_inet4Current : Addr;
  fs_inet6Current : Addr;
  fs_reservedCount : Z
}.

Definition NewStore (inet4Range inet6Range : Prefix) : FakeIPStore :=
  mkStore inet4Range inet6Range
    (if prefix_IsValid inet4Range then broadcastAddress inet4Range else AddrInvalid)
    (if prefix_IsValid inet6Range then broadcastAddress inet6Range else AddrInvalid) AddrInvalid AddrInvalid 0.

Definition with_current (current4 current6 : Addr) (reserved : Z) (s : FakeIPStore) : FakeIPStore :=
  mkStore (fs_inet4Range s) (fs_inet6Range s) (fs_inet4Last s) (fs_inet6Last s) current4 current6 reserved.

Definition resetCurrent (s : FakeIPStore) : FakeIPStore :=
  with_current
    (if prefix_IsValid (fs_inet4Range s) then addr_Next (prefix_addr (fs_inet4Range s)) else fs_inet4Current s)
    (if prefix_IsValid (fs_inet6Range s) then addr_Next (prefix_addr (fs_inet6Range s)) else fs_inet6Current s) 0 s.

Definition Store_Contains (address : Addr) (s : FakeIPStore) : bool :=
  prefix_Contains (fs_inet4Range s) address || prefix_Contains (fs_inet6Range s) address.

(** The metadata of the store as it is. *)
Definition metadata_of (s : FakeIPStore) : FakeIPMetadata :=
  mkFakeIPMetadata (fs_inet4Range s) (fs_inet6Range s) (fs_inet4Current s) (fs_inet6Current s).

Section store.
Context {T W : Type} `{FakeIPStorage T W}.
Implicit Types (s : FakeIPStore) (t : T) (o : W).

(** [Start]; [t] is the cache file or a new storage in memory. *)
Definition Store_Start o s t : FakeIPStore * T :=
  let reset := (resetCurrent s, (FakeIPReset o t).2) in
  match FakeIPMetadata_ t with
  | Some metadata =>
      if bool_decide (fm_Inet4Range metadata = fs_inet4Range s) && bool_decide (fm_Inet6Range metadata = fs_inet6Range s)
      then (with_current (fm_Inet4Current metadata) (fm_Inet6Current metadata) (fs_reservedCount s) s, t)
      else reset
  | None => reset
  end.

Definition Store_Close o s t : result unit * T := FakeIPSaveMetadata o (metadata_of s) t.

(** The loop over the addresses that are reserved. *)
Fixpoint reserve (n : nat) s (metadata : FakeIPMetadata) : FakeIPMetadata :=
  match n with
  | O => metadata
  | S n' =>
      reserve n' s (mkFakeIPMetadata (fm_Inet4Range metadata) (fm_Inet6Range metadata)
        (if addr_IsValid (fm_Inet4Current metadata) then nextAddress (fs_inet4Range s) (fs_inet4Last s) (fm_Inet4Current metadata) else fm_Inet4Current metadata)
        (if addr_IsValid (fm_Inet6Current metadata) then nextAddress (fs_inet6Range s) (fs_inet6Last s) (fm_Inet6Current metadata) else fm_Inet6Current metadata))
  end.

(** The next address of a family is given to the domain. *)
Definition allocate (domain : string) (isIPv6 : bool) s t : Addr * FakeIPStore * T :=
  let s' := if negb isIPv6
            then with_current (nextAddress (fs_inet4Range s) (fs_inet4Last s) (fs_inet4Current s)) (fs_inet6Current s) (fs_reservedCount s - 1) s
            else with_current (fs_inet4Current s) (nextAddress (fs_inet6Range s) (fs_inet6Last s) (fs_inet6Current s)) (fs_reservedCount s - 1) s in
  let address := if negb isIPv6 then fs_inet4Current s' else fs_inet6Current s' in
  (address, s', FakeIPStoreAsync address domain t).

(** [Create]; the second check under the lock is the first one again when calls follow each
    other. *)
Definition Create o (domain : string) (isIPv6 : bool) s t : result Addr * FakeIPStore * T :=
  match FakeIPLoadDomain domain isIPv6 t with
  | Some address => (Ok address, s, t)
  | None =>
      if negb isIPv6 && negb (addr_IsValid (fs_inet4Current s)) then (Err (ENew "missing IPv4 fakeip address range"), s, t)
      else if isIPv6 && negb (addr_IsValid (fs_inet6Current s)) then (Err (ENew "missing IPv6 fakeip address range"), s, t)
      else if fs_reservedCount s =? 0 then
        match FakeIPSaveMetadata o (reserve (Z.to_nat reservedAddressCount) s (metadata_of s)) t with
        | (Err e, t1) => (Err (ECause e "save fakeip metadata"), s, t1)
        | (Ok _, t1) =>
            let '(address, s2, t2) := allocate domain isIPv6 (with_current (fs_inet4Current s) (fs_inet6Current s) reservedAddressCount s) t1 in
            (Ok address, s2, t2)
        end
      else let '(address, s2, t2) := allocate domain isIPv6 s t in (Ok address, s2, t2)
  end.

Definition Lookup (address : Addr) t : option string := FakeIPLoad address t.

(** [Reset]; the outcomes are those of the two writes. *)
Definition Store_Reset (o o' : W) s t : result unit * FakeIPStore * T :=
  match FakeIPReset o t with
  | (Err e, t1) => (Err e, s, t1)
  | (Ok _, t1) => let s1 := resetCurrent s in let '(r, t2) := FakeIPSaveMetadata o' (metadata_of s1) t1 in (r, s1, t2)
  end.

(** ** The server *)

Record FakeIPTransport : Type := mkFakeIPTransport { ft_store : FakeIPStore; ft_inet4Enabled : bool; ft_inet6Enabled : bool }.

Definition NewTransport (inet4Range inet6Range : option Prefix) : result FakeIPTransport :=
  let r4 := default zero_prefix inet4Range in
  let r6 := default zero_prefix inet6Range in
  if negb (prefix_IsValid r4) && negb (prefix_IsValid r6) then Err (ENew "at least one of inet4_range or inet6_range must be set")
  else Ok (mkFakeIPTransport (NewStore r4 r6) (prefix_IsValid r4) (prefix_IsValid r6)).

(** miekg's [IsFqdn]. *)
Context (IsFqdn : string -> bool).

Definition FqdnToDomain (fqdn : string) : string :=
  if IsFqdn fqdn then String.substring 0 (String.length fqdn - 1) fqdn else fqdn.

Definition DefaultDNSTTL : Z := 600.

Definition FakeIP_Exchange o (message : Msg) (tr : FakeIPTransport) t : result Msg * FakeIPTransport * T :=
  match msg_Question message with
  | [] => (Err (EPanic "index out of range"), tr, t)
  | question :: _ =>
      let qtype := q_Qtype question in
      if negb (qtype =? TypeA) && negb (qtype =? TypeAAAA) then (Err (ENew "only IP queries are supported by fakeip"), tr, t)
      else if (qtype =? TypeA) && negb (ft_inet4Enabled tr) || (qtype =? TypeAAAA) && negb (ft_inet6Enabled tr)
      then (Ok (FixedResponseStatus message RcodeSuccess), tr, t)
      else
        let domain := FqdnToDomain (q_Name question) in
        if 255 <? Z.of_nat (String.length domain) then (Err (ENew "domain name too long for fakeip"), tr, t)
        else
          let '(r, s, t1) := Create o domain (qtype =? TypeAAAA) (ft_store tr) t in
          let tr1 := mkFakeIPTransport s (ft_inet4Enabled tr) (ft_inet6Enabled tr) in
          match r with
          | Err e => (Err e, tr1, t1)
          | Ok address => (Ok (FixedResponse (msg_Id message) question [address] DefaultDNSTTL), tr1, t1)
          end
  end.
End store.
