(* ===== verification/CacheFile.v ===== *)
(** * The cache file

    [src/experimental/cachefile]: writes are collected in memory and written to a database in
    one transaction; while they are written, new ones are collected, and reads look through
    all three.  Fake addresses, DNS responses and rejected domains are kept so. *)

From stdpp Require Import base gmap strings list.
From Stdlib Require Import ZArith Lia.
From S2P Require Import Prelude Net Codec Metadata DnsRecords FakeIP.

Open Scope Z_scope.

(** ** The database *)

(** bbolt: keys and values in nested buckets.  [bolt_Put] makes the buckets that are missing.
    [bolt_ForEach] are the keys of a bucket with their values, [bolt_ForEachBucket] the names of
    the buckets in it, and [bolt_First] is the first of both; [bolt_Open] is the database in a
    file that was not there. *)
Class Bolt (D : Type) : Type := {
  bolt_Open : D;
  bolt_ForEach : list string -> D -> list (list Z * list Z);
  bolt_ForEachBucket : list string -> D -> list string;
  bolt_First : list string -> D -> option (list Z);
  bolt_Get : list string -> list Z -> D -> option (list Z);
  bolt_Put : list string -> list Z -> list Z -> D -> result D;
  bolt_Delete : list string -> list Z -> D -> result D;
  bolt_HasBucket : list string -> D -> bool;
  bolt_DeleteBucket : list string -> D -> result D
}.

(** Go's maps are read in any order. *)
Class MapOrder : Type := {
  map_order : forall {K V : Type} `{Countable K}, nat -> gmap K V -> list (K * V);
  map_order_perm : forall {K V : Type} `{Countable K} seed (m : gmap K V), map_order seed m ≡ₚ map_to_list m
}.

(** ** Writes *)

Record saveCacheKey : Type := mkSaveCacheKey { ck_TransportName : string; ck_QuestionName : string; ck_QType : Z }.

#[export] Instance saveCacheKey_eq_dec : EqDecision saveCacheKey.
Proof. solve_decision. Defined.

#[export] Instance saveCacheKey_countable : Countable saveCacheKey.
Proof.
  refine (inj_countable' (fun k => (ck_TransportName k, ck_QuestionName k, ck_QType k)) (fun x => mkSaveCacheKey x.1.1 x.1.2 x.2) _). by intros [].
Defined.

Record pendingWrites : Type := mkPendingWrites {
  pw_dnsCache : gmap saveCacheKey (list Z);
  pw_rdrc : gmap saveCacheKey unit;
  pw_fakeIPDomain : gmap Addr string;
  pw_fakeIPAddress4 : gmap string Addr;
  pw_fakeIPAddress6 : gmap string Addr;
  pw_fakeIPMetadata : option FakeIPMetadata;
  pw_count : Z;
  pw_size : Z
}.

Definition newPendingWrites : pendingWrites := mkPendingWrites ∅ ∅ ∅ ∅ ∅ None 0 0.

(** The cache file.  [cf_timer] is the timer that is set, [cf_flushSignal] what waits in the
    channel, and [cf_due] that [loopFlush] has taken one of them and is about to flush. *)
Record CacheFile (D : Type) : Type := mkCacheFile {
  cf_cacheID : option string;
  cf_rdrcTimeout : Z;
  cf_bufferSize : Z;
  cf_flushInterval : Z;
  cf_DB : D;
  cf_pending : pendingWrites;
  cf_writing : option pendingWrites;
  cf_timer : bool;
  cf_flushSignal : bool;
  cf_due : bool
}.
Arguments mkCacheFile {D}.
Arguments cf_cacheID {D}.
Arguments cf_rdrcTimeout {D}.
Arguments cf_bufferSize {D}.
Arguments cf_flushInterval {D}.
Arguments cf_DB {D}.
Arguments cf_pending {D}.
Arguments cf_writing {D}.
Arguments cf_timer {D}.
Arguments cf_flushSignal {D}.
Arguments cf_due {D}.

(** Times are in seconds.  What becomes of a transaction that writes: whether it is committed, at which time, and in
    which order maps are read. *)
Record WriteOutcome : Type := mkOutcome { oc_commit : bool; oc_now : Z; oc_seed : nat }.

Definition defaultBufferSize : Z := 1024 * 1024.

(** [New], with the database that [start] opens; [rdrcTimeout] is used if rejected domains are
    stored. *)
Definition CacheFile_New {D : Type} (CacheID : string) (StoreRDRC : bool) (RDRCTimeout BufferSize FlushInterval : Z) (db : D) : CacheFile D :=
  mkCacheFile (if bool_decide (CacheID = ""%string) then None else Some (String Ascii.zero CacheID))
    (if StoreRDRC then if RDRCTimeout <=? 0 then 7 * 24 * 3600 else RDRCTimeout else 0)
    (if BufferSize =? 0 then defaultBufferSize else BufferSize) FlushInterval db newPendingWrites None false false false.

Definition strlen (s : string) : Z := Z.of_nat (String.length s).

Section cache.
Context {D : Type} `{Bolt D} `{MapOrder} (AddrFromIP : list Z -> Addr).
Implicit Types (c : CacheFile D) (p : pendingWrites) (db : D).

Definition with_pending p c : CacheFile D :=
  mkCacheFile (cf_cacheID c) (cf_rdrcTimeout c) (cf_bufferSize c) (cf_flushInterval c) (cf_DB c) p (cf_writing c) (cf_timer c) (cf_flushSignal c) (cf_due c).

Definition with_DB db c : CacheFile D :=
  mkCacheFile (cf_cacheID c) (cf_rdrcTimeout c) (cf_bufferSize c) (cf_flushInterval c) db (cf_pending c) (cf_writing c) (cf_timer c) (cf_flushSignal c) (cf_due c).

Definition set_timer c : CacheFile D :=
  mkCacheFile (cf_cacheID c) (cf_rdrcTimeout c) (cf_bufferSize c) (cf_flushInterval c) (cf_DB c) (cf_pending c) (cf_writing c) true (cf_flushSignal c) (cf_due c).

Definition signal c : CacheFile D :=
  mkCacheFile (cf_cacheID c) (cf_rdrcTimeout c) (cf_bufferSize c) (cf_flushInterval c) (cf_DB c) (cf_pending c) (cf_writing c) (cf_timer c) true (cf_due c).

Definition with_numbers (count size : Z) p : pendingWrites :=
  mkPendingWrites (pw_dnsCache p) (pw_rdrc p) (pw_fakeIPDomain p) (pw_fakeIPAddress4 p) (pw_fakeIPAddress6 p) (pw_fakeIPMetadata p) count size.

(** The maps of a set of writes, one changed. *)
Definition with_dnsCache m p : pendingWrites :=
  mkPendingWrites m (pw_rdrc p) (pw_fakeIPDomain p) (pw_fakeIPAddress4 p) (pw_fakeIPAddress6 p) (pw_fakeIPMetadata p) (pw_count p) (pw_size p).

Definition with_rdrc m p : pendingWrites :=
  mkPendingWrites (pw_dnsCache p) m (pw_fakeIPDomain p) (pw_fakeIPAddress4 p) (pw_fakeIPAddress6 p) (pw_fakeIPMetadata p) (pw_count p) (pw_size p).

Definition with_fakeIPMetadata m p : pendingWrites :=
  mkPendingWrites (pw_dnsCache p) (pw_rdrc p) (pw_fakeIPDomain p) (pw_fakeIPAddress4 p) (pw_fakeIPAddress6 p) m (pw_count p) (pw_size p).

Definition set_fakeIPAddress (is4 : bool) (domain : string) (address : Addr) p : pendingWrites :=
  mkPendingWrites (pw_dnsCache p) (pw_rdrc p) (pw_fakeIPDomain p)
    (if is4 then <[domain := address]> (pw_fakeIPAddress4 p) else pw_fakeIPAddress4 p)
    (if is4 then pw_fakeIPAddress6 p else <[domain := address]> (pw_fakeIPAddress6 p)) (pw_fakeIPMetadata p) (pw_count p) (pw_size p).

Definition set_fakeIPDomain (address : Addr) (domain : string) p : pendingWrites :=
  mkPendingWrites (pw_dnsCache p) (pw_rdrc p) (<[address := domain]> (pw_fakeIPDomain p)) (pw_fakeIPAddress4 p) (pw_fakeIPAddress6 p) (pw_fakeIPMetadata p)
    (pw_count p) (pw_size p).

Definition enqueueLocked (added : bool) (sizeDelta : Z) c : CacheFile D :=
  let p := cf_pending c in
  let count := if added then pw_count p + 1 else pw_count p in
  let c1 := with_pending (with_numbers count (pw_size p + sizeDelta) p) c in
  let c2 := if added && (count =? 1) && (0 <? cf_flushInterval c) then set_timer c1 else c1 in
  if cf_bufferSize c <=? pw_size p + sizeDelta then signal c2 else c2.

(** ** Buckets *)

Definition bucketFakeIP : list string := ["fakeip_address"%string].
Definition bucketFakeIPDomain4 : list string := ["fakeip_domain4"%string].
Definition bucketFakeIPDomain6 : list string := ["fakeip_domain6"%string].
Definition keyMetadata : list Z := bytes_of_string "fakeip_metadata".

(** [bucket], [createBucket]: below the bucket of the cache ID, if there is one. *)
Definition bucket c (key : string) : list string := match cf_cacheID c with None => [key] | Some cacheID => [cacheID; key] end.
Definition bucketDNSCache : string := "dns_cache".
Definition bucketRDRC : string := "rdrc2".

Definition entry_key (key : saveCacheKey) : list Z := be_bytes 2 (ck_QType key) ++ bytes_of_string (ck_QuestionName key).

Definition putCacheEntry (path : list string) (key : saveCacheKey) (value : list Z) db : result D :=
  bolt_Put (path ++ [ck_TransportName key]) (entry_key key) value db.

Definition getCacheEntry (path : list string) (key : saveCacheKey) db : option (list Z) := bolt_Get (path ++ [ck_TransportName key]) (entry_key key) db.

Definition domain_bucket (is4 : bool) : list string := if is4 then bucketFakeIPDomain4 else bucketFakeIPDomain6.

Definition putFakeIP (address : Addr) (domain : string) db : result D :=
  let addressBytes := addr_AsSlice address in
  let oldDomain := bolt_Get bucketFakeIP addressBytes db in
  try db1 <- bolt_Put bucketFakeIP addressBytes (bytes_of_string domain) db;
  let names := domain_bucket (addr_Is4 address) in
  try db2 <- match oldDomain with
             | Some old => if bool_decide (bolt_Get names old db1 = Some addressBytes) then bolt_Delete names old db1 else Ok db1
             | None => Ok db1
             end;
  bolt_Put names (bytes_of_string domain) addressBytes db2.

Definition putFakeIPMetadata (metadata : FakeIPMetadata) db : result D := bolt_Put bucketFakeIP keyMetadata (MarshalBinary metadata) db.

(** ** Flushing *)

(** The loops of [writePending]. *)
Fixpoint put_all {A : Type} (put : A -> D -> result D) (l : list A) db : result D :=
  match l with
  | [] => Ok db
  | x :: rest => try db1 <- put x db; put_all put rest db1
  end.

Definition writePending (o : WriteOutcome) c p db : result D :=
  try db1 <- put_all (fun e : saveCacheKey * list Z => putCacheEntry (bucket c bucketDNSCache) e.1 e.2) (map_order (oc_seed o) (pw_dnsCache p)) db;
  let expiresAt := be_bytes 8 (wrap 64 (oc_now o + cf_rdrcTimeout c)) in
  try db2 <- put_all (fun e : saveCacheKey * unit => putCacheEntry (bucket c bucketRDRC) e.1 expiresAt) (map_order (oc_seed o) (pw_rdrc p)) db1;
  try db3 <- put_all (fun e : Addr * string => putFakeIP e.1 e.2) (map_order (oc_seed o) (pw_fakeIPDomain p)) db2;
  match pw_fakeIPMetadata p with
  | Some metadata => putFakeIPMetadata metadata db3
  | None => Ok db3
  end.

Definition fakeIPAddress (domain : string) (isIPv6 : bool) p : option Addr :=
  if isIPv6 then pw_fakeIPAddress6 p !! domain else pw_fakeIPAddress4 p !! domain.

(** The loops of [restorePendingLocked]. *)
Definition restore_dns (e : saveCacheKey * list Z) p : pendingWrites :=
  match pw_dnsCache p !! e.1 with
  | Some _ => p
  | None => with_numbers (pw_count p + 1) (pw_size p + strlen (ck_QuestionName e.1) + Z.of_nat (length e.2)) (with_dnsCache (<[e.1 := e.2]> (pw_dnsCache p)) p)
  end.

Definition restore_rdrc (key : saveCacheKey) p : pendingWrites :=
  match pw_rdrc p !! key with
  | Some _ => p
  | None => with_numbers (pw_count p + 1) (pw_size p + strlen (ck_QuestionName key)) (with_rdrc (<[key := tt]> (pw_rdrc p)) p)
  end.

Definition restore_fakeIP (e : Addr * string) p : pendingWrites :=
  match pw_fakeIPDomain p !! e.1, fakeIPAddress e.2 (addr_Is6 e.1) p with
  | None, None => with_numbers (pw_count p + 1) (pw_size p + strlen e.2) (set_fakeIPAddress (addr_Is4 e.1) e.2 e.1 (set_fakeIPDomain e.1 e.2 p))
  | _, _ => p
  end.

Definition restorePendingLocked (o : WriteOutcome) (writing : pendingWrites) c : CacheFile D :=
  let p := cf_pending c in
  let p1 := foldl (fun p e => restore_dns e p) p (map_order (oc_seed o) (pw_dnsCache writing)) in
  let p2 := foldl (fun p e => restore_rdrc e.1 p) p1 (map_order (oc_seed o) (pw_rdrc writing)) in
  let p3 := foldl (fun p e => restore_fakeIP e p) p2 (map_order (oc_seed o) (pw_fakeIPDomain writing)) in
  let p4 := match pw_fakeIPMetadata p3, pw_fakeIPMetadata writing with
            | None, Some metadata => with_numbers (pw_count p3 + 1) (pw_size p3) (with_fakeIPMetadata (Some metadata) p3)
            | _, _ => p3
            end in
  let c1 := with_pending p4 c in
  if (pw_count p =? 0) && (0 <? pw_count p4) && (0 <? cf_flushInterval c) then set_timer c1 else c1.

(** [loopFlush] wakes up: the timer fires, or the signal is taken. *)
Definition timer_fires c : CacheFile D :=
  if cf_timer c
  then mkCacheFile (cf_cacheID c) (cf_rdrcTimeout c) (cf_bufferSize c) (cf_flushInterval c) (cf_DB c) (cf_pending c) (cf_writing c) false (cf_flushSignal c) true
  else c.

Definition take_signal c : CacheFile D :=
  if cf_flushSignal c
  then mkCacheFile (cf_cacheID c) (cf_rdrcTimeout c) (cf_bufferSize c) (cf_flushInterval c) (cf_DB c) (cf_pending c) (cf_writing c) (cf_timer c) false true
  else c.

(** The first half of [Flush], up to the transaction; [loop] tells that [loopFlush] calls it.
    Nothing is being written, as the lock is held. *)
Definition Flush_begin (loop : bool) c : CacheFile D :=
  let due := cf_due c && negb loop in
  if pw_count (cf_pending c) =? 0
  then mkCacheFile (cf_cacheID c) (cf_rdrcTimeout c) (cf_bufferSize c) (cf_flushInterval c) (cf_DB c) (cf_pending c) (cf_writing c) (cf_timer c) (cf_flushSignal c) due
  else mkCacheFile (cf_cacheID c) (cf_rdrcTimeout c) (cf_bufferSize c) (cf_flushInterval c) (cf_DB c) newPendingWrites (Some (cf_pending c)) (cf_timer c) (cf_flushSignal c) due.

Definition done_writing c : CacheFile D :=
  mkCacheFile (cf_cacheID c) (cf_rdrcTimeout c) (cf_bufferSize c) (cf_flushInterval c) (cf_DB c) (cf_pending c) None (cf_timer c) (cf_flushSignal c) (cf_due c).

(** The transaction of a flush: [None] if it fails. *)
Definition transaction (o : WriteOutcome) c p : option D :=
  match writePending o c p (cf_DB c) with
  | Ok db => if oc_commit o then Some db else None
  | Err _ => None
  end.

(** The second half. *)
Definition Flush_end (o : WriteOutcome) c : CacheFile D :=
  match cf_writing c with
  | None => c
  | Some writing =>
      match transaction o c writing with
      | Some db => done_writing (with_DB db c)
      | None => done_writing (restorePendingLocked o writing c)
      end
  end.

(** A flush that is waited for: one that is going on ends first. *)
Definition Flush (o o' : WriteOutcome) c : CacheFile D := Flush_end o' (Flush_begin false (Flush_end o c)).

(** ** Fake addresses *)

Definition CacheFile_FakeIPMetadata c : option FakeIPMetadata :=
  match bolt_Get bucketFakeIP keyMetadata (cf_DB c) with
  | Some metadataBinary =>
      if (length metadataBinary =? 0)%nat then None
      else match UnmarshalBinary metadataBinary with Ok metadata => Some metadata | Err _ => None end
  | None => None
  end.

Definition CacheFile_FakeIPSaveMetadata (o o' : WriteOutcome) (metadata : FakeIPMetadata) c : CacheFile D :=
  let p := cf_pending c in
  Flush o o' (enqueueLocked (match pw_fakeIPMetadata p with None => true | Some _ => false end) 0 (with_pending (with_fakeIPMetadata (Some metadata) p) c)).

(** What is collected or being written comes first. *)
Definition looked_up {A : Type} (get : pendingWrites -> option A) c : option A :=
  match get (cf_pending c) with
  | Some a => Some a
  | None => match cf_writing c with Some w => get w | None => None end
  end.

Definition CacheFile_FakeIPLoad (address : Addr) c : option string :=
  match looked_up (fun p => pw_fakeIPDomain p !! address) c with
  | Some domain => Some domain
  | None =>
      match bolt_Get bucketFakeIP (addr_AsSlice address) (cf_DB c) with
      | Some domain => if (length domain =? 0)%nat then None else Some (string_of_bytes domain)
      | None => None
      end
  end.

Definition valid_address (a : Addr) : option Addr := if addr_IsValid a then Some a else None.

Definition CacheFile_FakeIPLoadDomain (domain : string) (isIPv6 : bool) c : option Addr :=
  match looked_up (fakeIPAddress domain isIPv6) c with
  | Some address => valid_address address
  | None => valid_address (AddrFromIP (default [] (bolt_Get (domain_bucket (negb isIPv6)) (bytes_of_string domain) (cf_DB c))))
  end.

Definition queueFakeIP (address : Addr) (domain : string) c : CacheFile D :=
  let p := cf_pending c in
  let p1 := match CacheFile_FakeIPLoad address c with
            | Some oldDomain => set_fakeIPAddress (addr_Is4 address) oldDomain AddrInvalid p
            | None => p
            end in
  let pendingDomain := pw_fakeIPDomain p1 !! address in
  let p2 := set_fakeIPAddress (addr_Is4 address) domain address (set_fakeIPDomain address domain p1) in
  enqueueLocked (match pendingDomain with None => true | Some _ => false end) (strlen domain - strlen (default ""%string pendingDomain)) (with_pending p2 c).

Definition CacheFile_FakeIPStore (o o' : WriteOutcome) (address : Addr) (domain : string) c : CacheFile D := Flush o o' (queueFakeIP address domain c).

(** The buckets that exist are deleted. *)
Definition delete_buckets (paths : list (list string)) db : result D :=
  put_all (fun path db => if bolt_HasBucket path db then bolt_DeleteBucket path db else Ok db) paths db.

(** A transaction of its own. *)
Definition batch (o : WriteOutcome) (fn : D -> result D) c : result unit * CacheFile D :=
  match fn (cf_DB c) with
  | Ok db => if oc_commit o then (Ok tt, with_DB db c) else (Err (ENew "database not open"), c)
  | Err e => (Err e, c)
  end.

Definition without_fakeIP p : pendingWrites :=
  mkPendingWrites (pw_dnsCache p) (pw_rdrc p) ∅ ∅ ∅ None
    (pw_count p - Z.of_nat (size (pw_fakeIPDomain p)) - match pw_fakeIPMetadata p with Some _ => 1 | None => 0 end)
    (pw_size p - map_fold (fun _ domain n => strlen domain + n) 0 (pw_fakeIPDomain p)).

Definition CacheFile_FakeIPReset (o o' : WriteOutcome) c : result unit * CacheFile D :=
  let c1 := Flush_end o c in
  batch o' (delete_buckets [bucketFakeIP; bucketFakeIPDomain4; bucketFakeIPDomain6]) (with_pending (without_fakeIP (cf_pending c1)) c1).

#[export] Instance cache_file_storage : FakeIPStorage (CacheFile D) (WriteOutcome * WriteOutcome) := {|
  FakeIPMetadata_ := CacheFile_FakeIPMetadata;
  FakeIPSaveMetadata := fun o metadata c => (Ok tt, CacheFile_FakeIPSaveMetadata o.1 o.2 metadata c);
  FakeIPStoreAsync := queueFakeIP;
  FakeIPLoad := CacheFile_FakeIPLoad;
  FakeIPLoadDomain := CacheFile_FakeIPLoadDomain;
  FakeIPReset := fun o c => CacheFile_FakeIPReset o.1 o.2 c
|}.

(** ** DNS responses and rejected domains *)

Definition int64 (x : Z) : Z := if x <? 2 ^ 63 then x else x - 2 ^ 64.

Definition LoadDNSCache (transportName qName : string) (qType : Z) c : option (list Z * Z) :=
  let key := mkSaveCacheKey transportName qName qType in
  match looked_up (fun p => pw_dnsCache p !! key) c with
  | Some value => Some (drop 8 value, int64 (be_value (take 8 value)))
  | None =>
      match getCacheEntry (bucket c bucketDNSCache) key (cf_DB c) with
      | Some content => if (length content <? 8)%nat then None else Some (drop 8 content, int64 (be_value (take 8 content)))
      | None => None
      end
  end.

Definition queueDNSCache (transportName qName : string) (qType : Z) (rawMessage : list Z) (expireAt : Z) c : CacheFile D :=
  let value := be_bytes 8 (wrap 64 expireAt) ++ rawMessage in
  let key := mkSaveCacheKey transportName qName qType in
  let p := cf_pending c in
  let oldEntry := pw_dnsCache p !! key in
  enqueueLocked (match oldEntry with None => true | Some _ => false end)
    (strlen qName + Z.of_nat (length value) - Z.of_nat (length (default [] oldEntry))) (with_pending (with_dnsCache (<[key := value]> (pw_dnsCache p)) p) c).

Definition SaveDNSCache (o o' : WriteOutcome) (transportName qName : string) (qType : Z) (rawMessage : list Z) (expireAt : Z) c : CacheFile D :=
  Flush o o' (queueDNSCache transportName qName qType rawMessage expireAt c).

Definition DeleteDNSCache (o o' : WriteOutcome) (transportName qName : string) (qType : Z) (rawMessage : list Z) c0 : CacheFile D :=
  let c := Flush_end o c0 in
  let key := mkSaveCacheKey transportName qName qType in
  let p := cf_pending c in
  let is_message (value : list Z) := negb (length value <? 8)%nat && bool_decide (drop 8 value = rawMessage) in
  let delete_saved (c1 : CacheFile D) :=
    (batch o' (fun db => match getCacheEntry (bucket c bucketDNSCache) key db with
                         | Some content => if is_message content then bolt_Delete (bucket c bucketDNSCache ++ [transportName]) (entry_key key) db else Ok db
                         | None => Ok db
                         end) c1).2 in
  match pw_dnsCache p !! key with
  | Some value =>
      if is_message value
      then delete_saved (with_pending (with_numbers (pw_count p - 1) (pw_size p - (strlen qName + Z.of_nat (length value))) (with_dnsCache (delete key (pw_dnsCache p)) p)) c)
      else c
  | None => delete_saved c
  end.

Definition ClearDNSCache (o o' : WriteOutcome) c0 : result unit * CacheFile D :=
  let c := Flush_end o c0 in
  let p := cf_pending c in
  batch o' (delete_buckets [bucket c bucketDNSCache])
    (with_pending (with_numbers (pw_count p - Z.of_nat (size (pw_dnsCache p)))
      (pw_size p - map_fold (fun key (value : list Z) n => strlen (ck_QuestionName key) + Z.of_nat (length value) + n) 0 (pw_dnsCache p)) (with_dnsCache ∅ p)) c).

Definition LoadRDRC (now : Z) (transportName qName : string) (qType : Z) c : bool :=
  let key := mkSaveCacheKey transportName qName qType in
  match looked_up (fun p => pw_rdrc p !! key) c with
  | Some _ => true
  | None =>
      match getCacheEntry (bucket c bucketRDRC) key (cf_DB c) with
      | Some content => if (length content <? 8)%nat then false else now <? int64 (be_value (take 8 content))
      | None => false
      end
  end.

Definition queueRDRC (transportName qName : string) (qType : Z) c : CacheFile D :=
  let key := mkSaveCacheKey transportName qName qType in
  let p := cf_pending c in
  match pw_rdrc p !! key with
  | Some _ => c
  | None => enqueueLocked true (strlen qName) (with_pending (with_rdrc (<[key := tt]> (pw_rdrc p)) p) c)
  end.

Definition SaveRDRC (o o' : WriteOutcome) (transportName qName : string) (qType : Z) c : CacheFile D := Flush o o' (queueRDRC transportName qName qType c).

Definition clearRDRC (o o' : WriteOutcome) c0 : CacheFile D :=
  let c := Flush_end o c0 in
  let p := cf_pending c in
  (batch o' (delete_buckets [bucket c bucketRDRC])
    (with_pending (with_numbers (pw_count p - Z.of_nat (size (pw_rdrc p)))
      (pw_size p - map_fold (fun key _ n => strlen (ck_QuestionName key) + n) 0 (pw_rdrc p)) (with_rdrc ∅ p)) c)).2.

(** ** Cleaning up *)

(** The loop over the transports: expired keys are deleted, and the buckets that are empty
    then are collected. *)
Fixpoint cleanup_transports (expired : list Z -> bool) (path names emptyTransports : list string) db : result (list string * D) :=
  match names with
  | [] => Ok (emptyTransports, db)
  | transportName :: rest =>
      let transportBucket := path ++ [transportName] in
      let expiredKeys := (filter (fun e => expired e.2 = true) (bolt_ForEach transportBucket db)).*1 in
      try db1 <- put_all (bolt_Delete transportBucket) expiredKeys db;
      cleanup_transports expired path rest
        (match bolt_First transportBucket db1 with None => emptyTransports ++ [transportName] | Some _ => emptyTransports end) db1
  end.

Definition cleanup_entries (expired : list Z -> bool) (path : list string) db : result D :=
  if negb (bolt_HasBucket path db) then Ok db
  else
    try r <- cleanup_transports expired path (bolt_ForEachBucket path db) [] db;
    put_all (fun name => bolt_DeleteBucket (path ++ [name])) r.1 r.2.

Definition second : Z := 1000000000.

(** [now] and [optimisticTimeout] are in nanoseconds, the latter and [disableExpire] are what the
    DNS client has set. *)
Definition expired_response (disableExpire : bool) (optimisticTimeout now : Z) (value : list Z) : bool :=
  (length value <? 8)%nat || negb disableExpire && (int64 (be_value (take 8 value)) * second + optimisticTimeout <? now).

Definition cleanupDNSCache (o : WriteOutcome) (disableExpire : bool) (optimisticTimeout now : Z) c : CacheFile D :=
  (batch o (cleanup_entries (expired_response disableExpire optimisticTimeout now) (bucket c bucketDNSCache)) c).2.

Definition expired_rejection (now : Z) (value : list Z) : bool :=
  (length value <? 8)%nat || (int64 (be_value (take 8 value)) * second <? now).

Definition cleanupRDRC (o : WriteOutcome) (now : Z) c : CacheFile D :=
  (batch o (cleanup_entries (expired_rejection now) (bucket c bucketRDRC)) c).2.

(** [resetDB]: a transaction found the database corrupted, and the file is made again, which is
    taken to succeed. *)
Definition resetDB c : CacheFile D := with_DB bolt_Open c.
End cache.
