(* ===== verification/CacheFileOk.v ===== *)
(** * What the cache file shows

    Reads through what is collected, what is being written and the database see one map of
    fake addresses, whatever is flushed meanwhile and in whichever order. *)

From stdpp Require Import base gmap strings list.
From Stdlib Require Import ZArith Lia.
From S2P Require Import Prelude Net Codec Metadata DnsRecords FakeIP CacheFile.

Open Scope Z_scope.

(** ** Addresses and domains as keys *)

(** Addresses that can be handed out. *)
Definition proper (a : Addr) : Prop :=
  match a with AddrInvalid => False | Addr4 v => in_width 32 v | Addr6 v z => in_width 128 v /\ z = ""%string end.

#[export] Instance proper_dec a : Decision (proper a).
Proof. destruct a; apply _. Defined.

Lemma proper_valid a : proper a -> addr_IsValid a = true.
Proof. by destruct a. Qed.

Lemma proper_family a : proper a -> addr_Is4 a = negb (addr_Is6 a).
Proof. by destruct a. Qed.

Lemma be_bytes_inj n v v' : 0 <= v < 256 ^ Z.of_nat n -> 0 <= v' < 256 ^ Z.of_nat n -> be_bytes n v = be_bytes n v' -> v = v'.
Proof. intros Hv Hv' E. apply (f_equal be_value) in E. rewrite !be_value_bytes, !Z.mod_small in E by done. done. Qed.

Lemma AsSlice_inj a b : proper a -> proper b -> addr_AsSlice a = addr_AsSlice b -> a = b.
Proof.
  destruct a as [|v|v z], b as [|v'|v' z']; cbn [proper addr_AsSlice]; try done.
  - unfold in_width. intros Hv Hv' E%be_bytes_inj; [by subst|done..].
  - unfold in_width. intros [Hv ->] [Hv' ->] E%be_bytes_inj; [by subst|done..].
Qed.

Lemma AsSlice_metadata a : addr_AsSlice a <> keyMetadata.
Proof. intros E%(f_equal length). destruct a; cbn [addr_AsSlice] in E; rewrite ?length_be_bytes in E; vm_compute in E; lia. Qed.

Lemma bytes_inj s t : bytes_of_string s = bytes_of_string t -> s = t.
Proof. intros E. by rewrite <- (string_of_bytes_of_string s), E, string_of_bytes_of_string. Qed.

Lemma bytes_nil s : bytes_of_string s = [] -> s = ""%string.
Proof. by destruct s. Qed.

(** ** Views *)

(** The domain of an address and the address of a domain in a family. *)
Definition View : Type := (Addr -> option string) * (string -> bool -> option Addr).

Definition same_view (v v' : View) : Prop := (forall a, proper a -> v.1 a = v'.1 a) /\ (forall d f, v.2 d f = v'.2 d f).

#[export] Instance same_view_equivalence : Equivalence same_view.
Proof. split; [by split|intros v v' [H1 H2]; split; intros; [by rewrite H1|by rewrite H2]|intros v v' v'' [H1 H2] [H3 H4]; split; intros; [by rewrite H1, H3|by rewrite H2, H4]]. Qed.

(** Both directions agree: no two domains of a family have an address in common. *)
Definition agree (v : View) : Prop := forall d f a, v.2 d f = Some a <-> proper a /\ addr_Is6 a = f /\ v.1 a = Some d.

#[export] Instance agree_proper : Proper (same_view ==> iff) agree.
Proof.
  intros v v' [H1 H2]. unfold agree. split; intros Ha d f a.
  - rewrite <- H2, Ha. split; intros (Hp & ? & Hl); (split_and!; [done|done|]); [by rewrite <- H1|by rewrite H1].
  - rewrite H2, Ha. split; intros (Hp & ? & Hl); (split_and!; [done|done|]); [by rewrite H1|by rewrite <- H1].
Qed.

Lemma agree_none v d f : agree v -> v.2 d f = None -> forall a, proper a -> addr_Is6 a = f -> v.1 a <> Some d.
Proof. intros Ha Hn a Hp Hf Hl. assert (Hs : v.2 d f = Some a) by (by apply Ha). congruence. Qed.

(** Agreement is decided by the domains of addresses. *)
Lemma agree_same v v' : agree v -> agree v' -> (forall a, proper a -> v.1 a = v'.1 a) -> same_view v v'.
Proof.
  intros Ha Ha' H1. split; [done|]. intros d f. destruct (v.2 d f) as [a|] eqn:E.
  - apply Ha in E as (Hp & Hf & Hl). symmetry. apply Ha'. by rewrite <- H1.
  - destruct (v'.2 d f) as [a|] eqn:E'; [|done]. apply Ha' in E' as (Hp & Hf & Hl). rewrite <- H1 in Hl by done. by destruct (agree_none v d f Ha E a Hp Hf).
Qed.

(** Writes over a view: what they say comes first, and an invalid address hides. *)
Definition over (p : pendingWrites) (v : View) : View :=
  (fun a => match pw_fakeIPDomain p !! a with Some d => Some d | None => v.1 a end,
   fun d f => match fakeIPAddress d f p with Some a => valid_address a | None => v.2 d f end).

#[export] Instance over_proper p : Proper (same_view ==> same_view) (over p).
Proof. intros v v' [H1 H2]. split; cbn; intros; case_match; auto. Qed.

Lemma over_new v : same_view (over newPendingWrites v) v.
Proof. split; cbn; intros; [by rewrite lookup_empty|]. unfold fakeIPAddress. cbn. rewrite !lookup_empty. by destruct f. Qed.

(** Both maps of the writes agree with each other. *)
Definition layer_ok (p : pendingWrites) : Prop :=
  (forall a d, pw_fakeIPDomain p !! a = Some d -> proper a /\ d <> ""%string /\ fakeIPAddress d (addr_Is6 a) p = Some a) /\
  (forall d f a, fakeIPAddress d f p = Some a -> addr_IsValid a = true -> pw_fakeIPDomain p !! a = Some d /\ addr_Is6 a = f).

Lemma layer_new : layer_ok newPendingWrites.
Proof. split; [by intros a d; cbn; rewrite lookup_empty|]. intros d f a. unfold fakeIPAddress. cbn. rewrite !lookup_empty. by destruct f. Qed.

(** The fake addresses of two sets of writes are the same. *)
Definition same_fake (p p' : pendingWrites) : Prop :=
  pw_fakeIPDomain p = pw_fakeIPDomain p' /\ pw_fakeIPAddress4 p = pw_fakeIPAddress4 p' /\ pw_fakeIPAddress6 p = pw_fakeIPAddress6 p'.

Lemma same_fake_address p p' d f : same_fake p p' -> fakeIPAddress d f p = fakeIPAddress d f p'.
Proof. intros (_ & H4 & H6). unfold fakeIPAddress. by rewrite H4, H6. Qed.

Lemma same_fake_over p p' v : same_fake p p' -> same_view (over p v) (over p' v).
Proof. intros Hs. pose proof Hs as (Hd & _). split; cbn; intros; [by rewrite Hd|by rewrite (same_fake_address _ _ d f Hs)]. Qed.

Lemma same_fake_layer p p' : same_fake p p' -> layer_ok p -> layer_ok p'.
Proof.
  intros Hs [H1 H2]. pose proof Hs as (Hd & _). split.
  - intros a d. rewrite <- Hd, <- (same_fake_address _ _ _ _ Hs). apply H1.
  - intros d f a. rewrite <- Hd, <- (same_fake_address _ _ _ _ Hs). apply H2.
Qed.

(** ** Storing an address *)

(** The writes of [queueFakeIP], with the domain that had the address. *)
Definition stored_writes (old : option string) (a : Addr) (d : string) (p : pendingWrites) : pendingWrites :=
  set_fakeIPAddress (addr_Is4 a) d a (set_fakeIPDomain a d (match old with Some o => set_fakeIPAddress (addr_Is4 a) o AddrInvalid p | None => p end)).

Lemma set_address_lookup is4 d a p x f : fakeIPAddress x f (set_fakeIPAddress is4 d a p) = if bool_decide (x = d) && eqb f (negb is4) then Some a else fakeIPAddress x f p.
Proof.
  unfold fakeIPAddress, set_fakeIPAddress. cbn. destruct f, is4; cbn; destruct (bool_decide_reflect (x = d)) as [->|Hn]; cbn; by rewrite ?lookup_insert_eq, ?lookup_insert_ne.
Qed.

Lemma stored_address old a d p x f : proper a -> fakeIPAddress x f (stored_writes old a d p) =
  if bool_decide (x = d) && eqb f (addr_Is6 a) then Some a
  else if bool_decide (old = Some x) && eqb f (addr_Is6 a) then Some AddrInvalid else fakeIPAddress x f p.
Proof.
  intros Hp. unfold stored_writes. rewrite set_address_lookup, (proper_family a Hp), negb_involutive. destruct (bool_decide (x = d) && _); [done|].
  change (fakeIPAddress x f (set_fakeIPDomain a d ?q)) with (fakeIPAddress x f q). destruct old as [o|]; [|by rewrite bool_decide_false].
  rewrite set_address_lookup, negb_involutive. by rewrite (bool_decide_ext (x = o) (Some o = Some x)) by (split; [by intros ->|by intros [= ->]]).
Qed.

Lemma stored_domain old a d p b : pw_fakeIPDomain (stored_writes old a d p) !! b = if bool_decide (b = a) then Some d else pw_fakeIPDomain p !! b.
Proof.
  unfold stored_writes. cbn. destruct old; cbn; destruct (bool_decide_reflect (b = a)) as [->|Hn]; by rewrite ?lookup_insert_eq, ?lookup_insert_ne.
Qed.

Section stored.
Context (p : pendingWrites) (v : View) (a : Addr) (d : string).
Context (Hl : layer_ok p) (Hv : agree (over p v)) (Hp : proper a) (Hd : d <> ""%string) (Hnew : (over p v).2 d (addr_Is6 a) = None).

Lemma stored_free b : pw_fakeIPDomain p !! b = Some d -> addr_Is6 b <> addr_Is6 a.
Proof.
  intros Hb Hf. destruct (proj1 Hl _ _ Hb) as (Hpb & _). apply (agree_none _ _ _ Hv Hnew b Hpb Hf). cbn. by rewrite Hb.
Qed.

Lemma stored_old_owner x b : (over p v).1 a = Some x -> pw_fakeIPDomain p !! b = Some x -> addr_Is6 b = addr_Is6 a -> b = a.
Proof.
  intros Ha Hb Hf. destruct (proj1 Hl _ _ Hb) as (Hpb & _). assert (E1 : (over p v).2 x (addr_Is6 a) = Some a) by (by apply Hv).
  assert (E2 : (over p v).2 x (addr_Is6 a) = Some b) by (apply Hv; split_and!; [done|done|cbn; by rewrite Hb]). congruence.
Qed.

Lemma stored_layer : layer_ok (stored_writes ((over p v).1 a) a d p).
Proof.
  split.
  - intros b x. rewrite stored_domain, stored_address by done. destruct (bool_decide_reflect (b = a)) as [->|Hne].
    + intros [= <-]. split_and!; [done|done|]. by rewrite bool_decide_true, eqb_reflx.
    + intros Hb. destruct (proj1 Hl _ _ Hb) as (Hpb & Hx & Ha). split_and!; [done|done|].
      destruct (eqb _ _) eqn:Hf; [|by rewrite !andb_false_r]. apply eqb_prop in Hf. rewrite !andb_true_r.
      rewrite bool_decide_false by (intros ->; by apply (stored_free b)). rewrite bool_decide_false; [done|]. intros Ho. by apply Hne, (stored_old_owner x b).
  - intros x f b. rewrite stored_address by done. destruct (bool_decide_reflect (x = d)) as [->|Hx]; cbn [andb].
    + destruct (eqb f (addr_Is6 a)) eqn:Hf.
      * intros [= <-] _. apply eqb_prop in Hf. by rewrite stored_domain, bool_decide_true.
      * rewrite andb_false_r. intros Hb Hval. destruct (proj2 Hl _ _ _ Hb Hval) as [Hdb <-]. rewrite stored_domain, bool_decide_false; [done|]. intros ->. by rewrite eqb_reflx in Hf.
    + destruct (bool_decide_reflect ((over p v).1 a = Some x)) as [Ho|Ho]; cbn [andb].
      * destruct (eqb f (addr_Is6 a)) eqn:Hf; [by intros [= <-]|]. intros Hb Hval. destruct (proj2 Hl _ _ _ Hb Hval) as [Hdb <-].
        rewrite stored_domain, bool_decide_false; [done|]. intros ->. by rewrite eqb_reflx in Hf.
      * intros Hb Hval. destruct (proj2 Hl _ _ _ Hb Hval) as [Hdb <-]. rewrite stored_domain, bool_decide_false; [done|]. intros ->. apply Ho. cbn. by rewrite Hdb.
Qed.

Lemma stored_load b : (over (stored_writes ((over p v).1 a) a d p) v).1 b = if bool_decide (b = a) then Some d else (over p v).1 b.
Proof. cbn [over fst]. rewrite stored_domain. by destruct (bool_decide (b = a)). Qed.

Lemma stored_agree : agree (over (stored_writes ((over p v).1 a) a d p) v).
Proof.
  intros x f b. rewrite stored_load. cbn [over snd]. rewrite stored_address by done.
  change (match pw_fakeIPDomain p !! a with Some d => Some d | None => v.1 a end) with ((over p v).1 a).
  destruct (bool_decide_reflect (x = d)) as [->|Hx]; cbn [andb].
  - destruct (eqb f (addr_Is6 a)) eqn:Hf.
    + apply eqb_prop in Hf. subst f. unfold valid_address. rewrite proper_valid by done. split.
      * intros [= <-]. by rewrite bool_decide_true.
      * intros (Hpb & Hf & Hload). destruct (bool_decide_reflect (b = a)) as [->|Hne]; [done|]. by destruct (agree_none _ _ _ Hv Hnew b Hpb Hf).
    + rewrite andb_false_r. change (match fakeIPAddress d f p with Some a0 => valid_address a0 | None => v.2 d f end) with ((over p v).2 d f). rewrite (Hv d f b).
      split; intros (Hpb & <- & Hload); (split_and!; [done|done|]).
      * rewrite bool_decide_false; [done|]. intros ->. by rewrite eqb_reflx in Hf.
      * rewrite bool_decide_false in Hload; [done|]. intros ->. by rewrite eqb_reflx in Hf.
  - destruct (bool_decide_reflect ((over p v).1 a = Some x)) as [Ho|Ho]; cbn [andb].
    + destruct (eqb f (addr_Is6 a)) eqn:Hf.
      * apply eqb_prop in Hf. subst f. cbn. split; [done|]. intros (Hpb & Hf & Hload). destruct (bool_decide_reflect (b = a)) as [->|Hne]; [congruence|].
        assert (E1 : (over p v).2 x (addr_Is6 a) = Some a) by (by apply Hv). assert (E2 : (over p v).2 x (addr_Is6 a) = Some b) by (by apply Hv). congruence.
      * change (match fakeIPAddress x f p with Some a0 => valid_address a0 | None => v.2 x f end) with ((over p v).2 x f). rewrite (Hv x f b).
        split; intros (Hpb & <- & Hload); (split_and!; [done|done|]).
        -- rewrite bool_decide_false; [done|]. intros ->. by rewrite eqb_reflx in Hf.
        -- rewrite bool_decide_false in Hload; [done|]. intros ->. by rewrite eqb_reflx in Hf.
    + change (match fakeIPAddress x f p with Some a0 => valid_address a0 | None => v.2 x f end) with ((over p v).2 x f). rewrite (Hv x f b).
      split; intros (Hpb & <- & Hload); (split_and!; [done|done|]).
      * rewrite bool_decide_false; [done|]. by intros ->.
      * destruct (bool_decide_reflect (b = a)) as [->|Hne]; [congruence|done].
Qed.
End stored.

(** ** The database *)

(** What bbolt promises: reads see what was written, deleted or dropped with its bucket, and
    keys are not blank. *)
Class BoltLaws (D : Type) `{Bolt D} : Prop := {
  bolt_get_put p k v db db' q l : bolt_Put p k v db = Ok db' -> bolt_Get q l db' = if decide ((q, l) = (p, k)) then Some v else bolt_Get q l db;
  bolt_get_delete p k db db' q l : bolt_Delete p k db = Ok db' -> bolt_Get q l db' = if decide ((q, l) = (p, k)) then None else bolt_Get q l db;
  bolt_get_dropped p db db' q l : bolt_DeleteBucket p db = Ok db' -> bolt_Get q l db' = if decide (p `prefix_of` q) then None else bolt_Get q l db;
  bolt_get_each p db k v : (k, v) ∈ bolt_ForEach p db <-> bolt_Get p k db = Some v;
  bolt_get_empty p db q l : bolt_First p db = None -> p `prefix_of` q -> bolt_Get q l db = None;
  bolt_get_open q l : bolt_Get q l bolt_Open = None;
  bolt_no_bucket p db q l : bolt_HasBucket p db = false -> p `prefix_of` q -> bolt_Get q l db = None;
  bolt_blank_get p db : bolt_Get p [] db = None;
  bolt_blank_put p v db : exists e, bolt_Put p [] v db = Err e
}.

(** sing's [M.AddrFromIP] on what [AsSlice] gives. *)
Class AddrFromIPLaws (AddrFromIP : list Z -> Addr) : Prop := {
  AddrFromIP_AsSlice a : proper a -> AddrFromIP (addr_AsSlice a) = a;
  AddrFromIP_nil : AddrFromIP [] = AddrInvalid
}.

(** One entry of the map that is written. *)
Definition put_view (e : Addr * string) (v : View) : View :=
  (fun b => if bool_decide (b = e.1) then Some e.2 else v.1 b,
   fun x f => if bool_decide (x = e.2) && eqb f (addr_Is6 e.1) then Some e.1
              else if eqb f (addr_Is6 e.1) && bool_decide (v.1 e.1 = Some x) && bool_decide (v.2 x f = Some e.1) then None
              else v.2 x f).

(** ** Writing in any order *)

Section written.
Context (w : pendingWrites) (v0 : View) (Hl : layer_ok w) (H0 : agree v0) (Hw : agree (over w v0)).

(** The view when the addresses of [done] are written. *)
Definition written (done : gset Addr) (v : View) : Prop :=
  (forall a, v.1 a = if bool_decide (a ∈ done) then pw_fakeIPDomain w !! a else v0.1 a) /\
  (forall d f a, v.2 d f = Some a <->
    (a ∈ done /\ pw_fakeIPDomain w !! a = Some d /\ addr_Is6 a = f) \/
    ((forall a', a' ∈ done -> pw_fakeIPDomain w !! a' = Some d -> addr_Is6 a' <> f) /\ v0.2 d f = Some a /\ a ∉ done)).

Lemma written_none : written ∅ v0.
Proof. split; [intros a; by rewrite bool_decide_false by set_solver|]. intros d f a. set_solver. Qed.

Lemma layer_inj a b d : pw_fakeIPDomain w !! a = Some d -> pw_fakeIPDomain w !! b = Some d -> addr_Is6 a = addr_Is6 b -> a = b.
Proof. intros (_ & _ & Ea)%Hl (_ & _ & Eb)%Hl Hf. rewrite Hf in Ea. congruence. Qed.

Lemma written_step done v a d : written done v -> a ∉ done -> pw_fakeIPDomain w !! a = Some d -> written ({[a]} ∪ done) (put_view (a, d) v).
Proof.
  intros [Hload Hdom] Hnew Ha. split.
  - intros b. cbn [put_view fst snd]. destruct (bool_decide_reflect (b = a)) as [->|Hne]; [by rewrite bool_decide_true by set_solver|].
    rewrite Hload. by rewrite (bool_decide_ext (b ∈ {[a]} ∪ done) (b ∈ done)) by set_solver.
  - intros x f b. cbn [put_view fst snd]. destruct (bool_decide (x = d) && eqb f (addr_Is6 a)) eqn:E1.
    { apply andb_true_iff in E1 as [->%bool_decide_eq_true ->%eqb_prop]. split.
      - intros [= <-]. left. set_solver.
      - intros [(_ & Hb & Hf)|[Hno _]]; [f_equal; by eapply layer_inj|]. by destruct (Hno a ltac:(set_solver) Ha). }
    assert (Hxf : ~ (x = d /\ f = addr_Is6 a)) by (intros [-> ->]; by rewrite bool_decide_true, eqb_reflx in E1). clear E1.
    destruct (eqb f (addr_Is6 a) && _ && _) eqn:E2.
    { apply andb_true_iff in E2 as [[->%eqb_prop Hx%bool_decide_eq_true]%andb_true_iff Hv%bool_decide_eq_true]. split; [done|].
      intros [(Hin & Hb & Hf)|(Hno & Hb & Hin)].
      - destruct (decide (b = a)) as [->|Hne]; [naive_solver|]. assert (E : v.2 x (addr_Is6 a) = Some b) by (apply Hdom; left; set_solver). congruence.
      - assert (E : v.2 x (addr_Is6 a) = Some b) by (apply Hdom; right; split_and!; [|done|]; set_solver). set_solver. }
    rewrite Hdom. split.
    + intros [(Hin & Hb & Hf)|(Hno & Hb & Hin)]; [left; set_solver|]. right. assert (Hne : b <> a).
      { intros ->. pose proof Hb as (_ & Hf & Hx)%H0. assert (Hva : v.1 a = Some x) by (by rewrite Hload, bool_decide_false by done).
        assert (Hvx : v.2 x f = Some a) by (apply Hdom; by right). subst f. by rewrite Hva, Hvx, eqb_reflx, !bool_decide_true in E2 by done. }
      split_and!; [|done|set_solver]. intros a' [->%elem_of_singleton|Ha']%elem_of_union Hx Hf; [|by eapply Hno]. apply Hxf. split; [congruence|done].
    + intros [(Hin & Hb & Hf)|(Hno & Hb & Hin)]; [|right; split_and!; [|done|]; set_solver]. left. assert (b <> a); [|set_solver]. intros ->. apply Hxf. split; [congruence|done].
Qed.

Lemma written_all done v : written done v -> done = dom (pw_fakeIPDomain w) -> same_view v (over w v0).
Proof.
  intros [Hload Hdom] ->. split.
  - intros a _. rewrite Hload. cbn. destruct (pw_fakeIPDomain w !! a) as [d|] eqn:E; [by rewrite bool_decide_true by (by eapply elem_of_dom_2)|].
    rewrite bool_decide_false; [done|]. by apply not_elem_of_dom.
  - intros d f. apply option_eq. intros a. rewrite Hdom, (Hw d f a). split.
    + intros [(Hin & Ha & Hf)|(_ & Ha & Hin)].
      * destruct (proj1 Hl _ _ Ha) as (Hp & _). split_and!; [done|done|]. cbn. by rewrite Ha.
      * apply H0 in Ha as (Hp & Hf & Ha). split_and!; [done|done|]. cbn. by rewrite (proj1 (not_elem_of_dom _ _) Hin).
    + intros (Hp & Hf & Ha). pose proof Ha as Ha'. cbn in Ha'. destruct (pw_fakeIPDomain w !! a) as [d'|] eqn:E.
      * injection Ha' as ->. left. split_and!; [by eapply elem_of_dom_2|done|done].
      * right. split_and!; [|by apply H0|by apply not_elem_of_dom]. intros a' Hin Hw' Hf'. destruct (proj1 Hl _ _ Hw') as (Hp' & _).
        assert (E1 : (over w v0).2 d f = Some a) by (by apply Hw). assert (E2 : (over w v0).2 d f = Some a') by (apply Hw; split_and!; [done|done|cbn; by rewrite Hw']). congruence.
Qed.
End written.

Section database.
Context {D : Type} `{BoltLaws D} `{MapOrder} (AddrFromIP : list Z -> Addr) `{!AddrFromIPLaws AddrFromIP}.
Implicit Types (c : CacheFile D) (p : pendingWrites) (db : D) (v : View).

(** The database holds a view. *)
Definition holds db v : Prop :=
  (forall a, proper a -> bolt_Get bucketFakeIP (addr_AsSlice a) db = option_map bytes_of_string (v.1 a)) /\
  (forall d f, d <> ""%string -> bolt_Get (domain_bucket (negb f)) (bytes_of_string d) db = option_map addr_AsSlice (v.2 d f)) /\
  (forall d f a, v.2 d f = Some a -> proper a) /\
  (forall a, v.1 a <> Some ""%string).

(** The view of the database alone. *)
Definition db_view db : View :=
  (fun a => match bolt_Get bucketFakeIP (addr_AsSlice a) db with
            | Some domain => if (length domain =? 0)%nat then None else Some (string_of_bytes domain)
            | None => None
            end,
   fun d f => valid_address (AddrFromIP (default [] (bolt_Get (domain_bucket (negb f)) (bytes_of_string d) db)))).

Lemma holds_view db v : holds db v -> agree v -> same_view (db_view db) v.
Proof.
  intros (Ha & Hd & Hp & Hn) Hv. split; cbn [db_view fst snd].
  - intros a Hpa. rewrite Ha by done. specialize (Hn a). destruct (v.1 a) as [d|]; cbn; [|done]. rewrite length_bytes_of_string, string_of_bytes_of_string.
    by destruct d.
  - intros d f. destruct (decide (d = ""%string)) as [->|Hne].
    + cbn. rewrite bolt_blank_get. cbn. rewrite AddrFromIP_nil. cbn. destruct (v.2 ""%string f) as [a|] eqn:E; [|done]. apply Hv in E as (_ & _ & E). by destruct (Hn a).
    + rewrite Hd by done. destruct (v.2 d f) as [a|] eqn:E; cbn.
      * rewrite AddrFromIP_AsSlice by (by eapply Hp). unfold valid_address. by rewrite proper_valid by (by eapply Hp).
      * by rewrite AddrFromIP_nil.
Qed.

Lemma domain_bucket_inj b b' : domain_bucket b = domain_bucket b' -> b = b'.
Proof. by destruct b, b'. Qed.

Lemma bucket_domain b : bucketFakeIP <> domain_bucket b.
Proof. by destruct b. Qed.

(** Keys of other buckets, and the metadata, are not looked at. *)
Lemma holds_put path k value db db' v : holds db v -> bolt_Put path k value db = Ok db' ->
  (forall b, path <> domain_bucket b) -> (path <> bucketFakeIP \/ k = keyMetadata) -> holds db' v.
Proof.
  intros (Ha & Hd & Hp & Hn) Hput Hb Hk. split_and!; [| |done|done].
  - intros a Hpa. rewrite (bolt_get_put _ _ _ _ _ _ _ Hput), decide_False; [by apply Ha|]. intros [= E1 E2]. destruct Hk as [Hk| ->]; [congruence|]. by eapply AsSlice_metadata.
  - intros d f Hd'. rewrite (bolt_get_put _ _ _ _ _ _ _ Hput), decide_False; [by apply Hd|]. intros [= E1 E2]. by eapply Hb.
Qed.

(** The name that an address had is deleted if it still is the name of that address. *)
Definition without_old (e : Addr * string) v : View :=
  (v.1, fun x f => if eqb f (addr_Is6 e.1) && bool_decide (v.1 e.1 = Some x) && bool_decide (v.2 x f = Some e.1) then None else v.2 x f).

Lemma putFakeIP_holds a d db db' v : proper a -> d <> ""%string -> holds db v -> putFakeIP a d db = Ok db' -> holds db' (put_view (a, d) v).
Proof.
  intros Hpa Hne Hh Hput. unfold putFakeIP in Hput. simpl_result. pose proof Hh as (Ha & Hd & Hp & Hn). rename a0 into db1, a1 into db2.
  assert (G1 : forall q l, bolt_Get q l db1 = if decide ((q, l) = (bucketFakeIP, addr_AsSlice a)) then Some (bytes_of_string d) else bolt_Get q l db)
    by (intros; by eapply bolt_get_put).
  assert (G3 : forall q l, bolt_Get q l db' = if decide ((q, l) = (domain_bucket (addr_Is4 a), bytes_of_string d)) then Some (addr_AsSlice a) else bolt_Get q l db2)
    by (intros; by eapply bolt_get_put).
  assert (Hnames : forall x f, x <> ""%string -> bolt_Get (domain_bucket (negb f)) (bytes_of_string x) db1 = option_map addr_AsSlice (v.2 x f)).
  { intros x f Hx. rewrite G1, decide_False; [by apply Hd|]. intros [= E _]. by eapply bucket_domain. }
  assert (G2 : (forall l, bolt_Get bucketFakeIP l db2 = bolt_Get bucketFakeIP l db1) /\
    (forall x f, x <> ""%string -> bolt_Get (domain_bucket (negb f)) (bytes_of_string x) db2 = option_map addr_AsSlice ((without_old (a, d) v).2 x f))).
  { clear G3. rewrite Ha in Heqr0 by done. cbn [without_old fst snd]. destruct (v.1 a) as [o|] eqn:Eo; cbn [option_map] in Heqr0.
    - assert (Ho : o <> ""%string) by (intros ->; by destruct (Hn a)).
      assert (Hg : bolt_Get (domain_bucket (addr_Is4 a)) (bytes_of_string o) db1 = option_map addr_AsSlice (v.2 o (addr_Is6 a))) by (rewrite proper_family by done; by apply Hnames).
      assert (Hsame : bolt_Get (domain_bucket (addr_Is4 a)) (bytes_of_string o) db1 = Some (addr_AsSlice a) <-> v.2 o (addr_Is6 a) = Some a).
      { rewrite Hg. destruct (v.2 o (addr_Is6 a)) as [b|] eqn:E; cbn; [|done]. split; [|by intros [= ->]]. intros [= Eb]. f_equal. apply AsSlice_inj; [by eapply Hp|done|done]. }
      rewrite (bool_decide_ext _ _ Hsame) in Heqr0. destruct (bool_decide_reflect (v.2 o (addr_Is6 a) = Some a)) as [Hyes|Hno].
      + split.
        * intros l. rewrite (bolt_get_delete _ _ _ _ _ _ Heqr0), decide_False; [done|]. intros [= E _]. by eapply bucket_domain.
        * intros x f Hx. rewrite (bolt_get_delete _ _ _ _ _ _ Heqr0). destruct (decide _) as [[= E1%domain_bucket_inj E2%bytes_inj]|Hk].
          -- subst x. rewrite proper_family in E1 by done. assert (f = addr_Is6 a) as -> by (by destruct f, (addr_Is6 a)). by rewrite eqb_reflx, !bool_decide_true.
          -- rewrite Hnames by done. destruct (eqb f (addr_Is6 a)) eqn:Ef; cbn [andb]; [|done]. apply eqb_prop in Ef. subst f. rewrite bool_decide_false; [done|].
             intros [= ->]. apply Hk. by rewrite proper_family.
      + injection Heqr0 as <-. split; [done|]. intros x f Hx. rewrite Hnames by done. destruct (eqb f (addr_Is6 a)) eqn:Ef; cbn [andb]; [|done]. apply eqb_prop in Ef. subst f.
        destruct (bool_decide_reflect (Some o = Some x)) as [[= ->]|]; cbn [andb]; [by rewrite bool_decide_false|done].
    - injection Heqr0 as <-. split; [done|]. intros x f Hx. rewrite Hnames by done. rewrite (bool_decide_false (None = Some x)) by done. by rewrite andb_false_r. }
  destruct G2 as [G2 G2']. split_and!.
  - intros b Hpb. rewrite G3, decide_False by (intros [= E _]; by eapply bucket_domain). rewrite G2, G1. cbn [put_view fst snd].
    destruct (bool_decide_reflect (b = a)) as [->|Hnb]; [by rewrite decide_True|]. rewrite decide_False; [by apply Ha|]. intros [= E]. by apply Hnb, AsSlice_inj.
  - intros x f Hx. rewrite G3. cbn [put_view fst snd]. destruct (decide _) as [[= E1%domain_bucket_inj E2%bytes_inj]|Hk].
    + subst x. rewrite proper_family in E1 by done. assert (f = addr_Is6 a) as -> by (by destruct f, (addr_Is6 a)). by rewrite bool_decide_true, eqb_reflx.
    + rewrite G2' by done. cbn [without_old fst snd]. destruct (bool_decide_reflect (x = d)) as [->|]; cbn [andb]; [|done]. destruct (eqb f (addr_Is6 a)) eqn:Ef; [|done]. apply eqb_prop in Ef. subst f.
      by destruct Hk; rewrite proper_family.
  - intros x f b. cbn [put_view snd fst]. destruct (_ && _); [by intros [= <-]|]. destruct (_ && _ && _); [done|]. apply Hp.
  - intros b. cbn [put_view fst snd]. destruct (bool_decide _); [congruence|]. apply Hn.
Qed.

Lemma put_all_written w v0 l done db db' v : layer_ok w -> agree v0 -> agree (over w v0) -> NoDup l.*1 ->
  (forall a d, (a, d) ∈ l -> pw_fakeIPDomain w !! a = Some d /\ a ∉ done) ->
  holds db v -> written w v0 done v -> put_all (fun e : Addr * string => putFakeIP e.1 e.2) l db = Ok db' ->
  exists v', holds db' v' /\ written w v0 (list_to_set l.*1 ∪ done) v'.
Proof.
  intros Hlw Hv0 Hw. revert done db v. induction l as [|[a d] l IH]; intros done db v Hnd Hin Hh Hwr Hput; cbn in *.
  - injection Hput as <-. exists v. split; [done|]. by replace (∅ ∪ done) with done by set_solver.
  - simpl_result. apply NoDup_cons in Hnd as [Hna Hnd]. destruct (Hin a d ltac:(by left)) as [Ha Hnew]. destruct (proj1 Hlw _ _ Ha) as (Hp & Hd & _).
    destruct (IH ({[a]} ∪ done) a0 (put_view (a, d) v)) as (v' & Hh' & Hwr'); [done| |by eapply putFakeIP_holds|by apply written_step|done|].
    + intros b x Hb. destruct (Hin b x ltac:(by right)) as [Hb' Hbd]. split; [done|]. intros [->%elem_of_singleton|?]%elem_of_union; [|done]. apply Hna, list_elem_of_fmap. by exists (a, x).
    + exists v'. split; [done|]. replace ({[a]} ∪ list_to_set l.*1 ∪ done) with (list_to_set l.*1 ∪ ({[a]} ∪ done)); [done|]. set_solver.
Qed.

Lemma holds_same db v v' : holds db v -> agree v -> agree v' -> same_view v v' -> (forall a, v'.1 a <> Some ""%string) -> holds db v'.
Proof.
  intros (Ha & Hd & Hp & Hn) Hv Hv' [H1' H2'] Hn'. split_and!; [| | |done].
  - intros a Hpa. by rewrite Ha, H1'.
  - intros d f Hne. by rewrite Hd, H2'.
  - intros d f a. rewrite <- H2'. apply Hp.
Qed.

Lemma cache_path c key name (path : list string) : length path = 1%nat -> bucket c key ++ [name] <> path.
Proof. intros Hl E. rewrite <- E, length_app in Hl. unfold bucket in Hl. destruct (cf_cacheID c); cbn in Hl; lia. Qed.

Lemma put_all_holds {A : Type} (put : A -> D -> result D) l db db' v :
  (forall x db db', put x db = Ok db' -> holds db v -> holds db' v) -> holds db v -> put_all put l db = Ok db' -> holds db' v.
Proof.
  intros Hput. revert db. induction l as [|x l IH]; intros db Hh; cbn; [by intros [= <-]|]. intros Hr. simpl_result. eapply IH; [|exact Hr]. by eapply Hput.
Qed.

Lemma entry_holds c key e value db db' v : putCacheEntry (bucket c key) e value db = Ok db' -> holds db v -> holds db' v.
Proof.
  intros Hput Hh. apply (holds_put _ _ _ _ _ _ Hh Hput); [intros b; apply cache_path; by destruct b|left; by apply cache_path].
Qed.

Lemma transaction_holds o c w db' v0 : holds (cf_DB c) v0 -> layer_ok w -> agree v0 -> agree (over w v0) -> transaction o c w = Some db' -> holds db' (over w v0).
Proof.
  intros Hh Hlw Hv0 Hw Htx. unfold transaction in Htx. destruct (writePending _ _ _ _) as [db|] eqn:Hwr; [|done]. destruct (oc_commit o); [|done]. injection Htx as <-.
  unfold writePending in Hwr. simpl_result.
  assert (Hh1 : holds a v0) by (eapply put_all_holds; [|exact Hh|exact Heqr]; intros ? ? ? Hput; cbn beta in Hput; exact (entry_holds _ _ _ _ _ _ _ Hput)).
  assert (Hh2 : holds a0 v0) by (eapply put_all_holds; [|exact Hh1|exact Heqr0]; intros ? ? ? Hput; cbn beta in Hput; exact (entry_holds _ _ _ _ _ _ _ Hput)).
  pose proof (map_order_perm (oc_seed o) (pw_fakeIPDomain w)) as Hperm.
  edestruct (put_all_written w v0 (map_order (oc_seed o) (pw_fakeIPDomain w)) ∅ a0 a1 v0) as (v' & Hh3 & Hwritten); [done|done|done| | |exact Hh2|by apply written_none|exact Heqr1|].
  - rewrite Hperm. apply NoDup_fst_map_to_list.
  - intros b d Hin. rewrite Hperm, elem_of_map_to_list in Hin. split; [done|set_solver].
  - assert (Hsame : same_view v' (over w v0)).
    { eapply written_all; [exact Hlw|exact Hv0|exact Hw|exact Hwritten|]. rewrite Hperm, union_empty_r_L. apply set_eq. intros b. rewrite elem_of_list_to_set, elem_of_dom, list_elem_of_fmap. split.
      - intros ([? d] & -> & Hin%elem_of_map_to_list). by exists d.
      - intros [d Hin]. exists (b, d). by rewrite elem_of_map_to_list. }
    assert (Hh4 : holds a1 (over w v0)).
    { apply (holds_same _ v'); [done|by rewrite Hsame|done|done|]. intros b. cbn. destruct (pw_fakeIPDomain w !! b) as [d|] eqn:E; [|apply Hh]. destruct (proj1 Hlw _ _ E) as (_ & ? & _). congruence. }
    destruct (pw_fakeIPMetadata w); [|by injection Hwr as <-]. apply (holds_put _ _ _ _ _ _ Hh4 Hwr); [intros b; apply bucket_domain|by right].
Qed.
End database.

(** ** Writes that are put back *)

(** No domain lost its address in these writes. *)
Definition nothing_evicted (w : pendingWrites) : Prop := forall d f a, fakeIPAddress d f w = Some a -> addr_IsValid a = true.

Lemma valid_address_eq x a : valid_address x = Some a -> x = a /\ addr_IsValid a = true.
Proof. unfold valid_address. destruct (addr_IsValid x) eqn:E; [|done]. by intros [= <-]. Qed.

Section restored.
Context (p w : pendingWrites) (v0 : View) (Hlp : layer_ok p) (Hlw : layer_ok w) (Hv : agree (over p (over w v0))).

Lemma restored_free a d : pw_fakeIPDomain p !! a = None -> pw_fakeIPDomain w !! a = Some d -> fakeIPAddress d (addr_Is6 a) p = None.
Proof.
  intros Hp Hw. destruct (proj1 Hlw _ _ Hw) as (Hpa & _). assert (E : (over p (over w v0)).2 d (addr_Is6 a) = Some a) by (apply Hv; split_and!; [done|done|cbn; by rewrite Hp, Hw]).
  cbn in E. destruct (fakeIPAddress d (addr_Is6 a) p) as [x|] eqn:Ex; [|done]. apply valid_address_eq in E as [-> Hval]. destruct (proj2 Hlp _ _ _ Ex Hval) as [? _]. congruence.
Qed.

Lemma restored_absent d f a : fakeIPAddress d f p = None -> fakeIPAddress d f w = Some a -> addr_IsValid a = true -> pw_fakeIPDomain p !! a = None.
Proof.
  intros Hp Hw Hval. assert (E : (over p (over w v0)).2 d f = Some a) by (cbn; rewrite Hp, Hw; unfold valid_address; by rewrite Hval).
  apply Hv in E as (Hpa & Hf & Hload). cbn in Hload. destruct (pw_fakeIPDomain p !! a) as [d'|] eqn:E; [|done]. injection Hload as ->.
  destruct (proj1 Hlp _ _ E) as (_ & _ & Ha). congruence.
Qed.

(** The addresses of [done] are put back. *)
Definition restored (done : gset Addr) (q : pendingWrites) : Prop :=
  (forall a, pw_fakeIPDomain q !! a = match pw_fakeIPDomain p !! a with Some d => Some d | None => if bool_decide (a ∈ done) then pw_fakeIPDomain w !! a else None end) /\
  (forall d f, fakeIPAddress d f q = match fakeIPAddress d f p with
                                     | Some a => Some a
                                     | None => match fakeIPAddress d f w with Some a => if bool_decide (a ∈ done) then Some a else None | None => None end
                                     end).

Lemma restored_step done q a d : restored done q -> a ∉ done -> pw_fakeIPDomain w !! a = Some d -> restored ({[a]} ∪ done) (restore_fakeIP (a, d) q).
Proof.
  intros [Hd Ha] Hnew Hw. destruct (proj1 Hlw _ _ Hw) as (Hpa & _ & Hwa). unfold restore_fakeIP. cbn [fst snd].
  assert (Hother : forall x f b, fakeIPAddress x f w = Some b -> fakeIPAddress x f p = None -> ~ (x = d /\ f = addr_Is6 a) -> bool_decide (b ∈ {[a]} ∪ done) = bool_decide (b ∈ done)).
  { intros x f b Hb Hn Hxf. apply bool_decide_ext. split; [|set_solver]. intros [->%elem_of_singleton|?]%elem_of_union; [|done]. exfalso. apply Hxf.
    destruct (proj2 Hlw _ _ _ Hb (proper_valid _ Hpa)) as [E <-]. split; [congruence|done]. }
  destruct (pw_fakeIPDomain p !! a) as [d'|] eqn:Hp.
  - assert (Hqa : pw_fakeIPDomain q !! a = Some d') by (by rewrite Hd, Hp). rewrite Hqa. split.
    + intros b. rewrite Hd. destruct (decide (b = a)) as [->|Hne]; [by rewrite Hp|]. by rewrite (bool_decide_ext (b ∈ {[a]} ∪ done) (b ∈ done)) by set_solver.
    + intros x f. rewrite Ha. destruct (fakeIPAddress x f p) as [y|] eqn:Hx; [done|]. destruct (fakeIPAddress x f w) as [b|] eqn:Hb; [|done]. rewrite (Hother x f b) by
        (try done; intros [-> ->]; rewrite Hwa in Hb; injection Hb as <-; by rewrite (restored_absent _ _ _ Hx Hwa (proper_valid _ Hpa)) in Hp). done.
  - rewrite Hd, Hp, bool_decide_false by done. rewrite Ha, (restored_free a d Hp Hw), Hwa, bool_decide_false by done. split.
    + intros b. cbn. destruct (decide (b = a)) as [->|Hne]; [by rewrite lookup_insert_eq, Hp, bool_decide_true by set_solver|]. rewrite lookup_insert_ne, Hd by done.
      by rewrite (bool_decide_ext (b ∈ {[a]} ∪ done) (b ∈ done)) by set_solver.
    + intros x f. change (fakeIPAddress x f (with_numbers ?n ?m ?r)) with (fakeIPAddress x f r). rewrite set_address_lookup, (proper_family a Hpa), negb_involutive.
      destruct (bool_decide (x = d) && eqb f (addr_Is6 a)) eqn:E.
      * apply andb_true_iff in E as [->%bool_decide_eq_true ->%eqb_prop]. by rewrite (restored_free a d Hp Hw), Hwa, bool_decide_true by set_solver.
      * change (fakeIPAddress x f (set_fakeIPDomain a d q)) with (fakeIPAddress x f q). rewrite Ha. destruct (fakeIPAddress x f p) eqn:Hx; [done|]. destruct (fakeIPAddress x f w) as [b|] eqn:Hb; [|done].
        rewrite (Hother x f b); [done|done|done|]. intros [-> ->]. by rewrite bool_decide_true, eqb_reflx in E.
Qed.

Lemma restored_fold l done q : NoDup l.*1 -> (forall a d, (a, d) ∈ l -> pw_fakeIPDomain w !! a = Some d /\ a ∉ done) -> restored done q ->
  restored (list_to_set l.*1 ∪ done) (foldl (fun q e => restore_fakeIP e q) q l).
Proof.
  revert done q. induction l as [|[a d] l IH]; intros done q Hnd Hin Hr; cbn.
  - by replace (∅ ∪ done) with done by set_solver.
  - apply NoDup_cons in Hnd as [Hna Hnd]. destruct (Hin a d ltac:(by left)) as [Ha Hnew].
    replace ({[a]} ∪ list_to_set l.*1 ∪ done) with (list_to_set l.*1 ∪ ({[a]} ∪ done)) by set_solver. apply IH; [done| |by apply restored_step].
    intros b x Hb. destruct (Hin b x ltac:(by right)) as [Hb' Hbd]. split; [done|]. intros [->%elem_of_singleton|?]%elem_of_union; [|done]. apply Hna, list_elem_of_fmap. by exists (a, x).
Qed.

Lemma restored_all done q : restored done q -> done = dom (pw_fakeIPDomain w) -> nothing_evicted w ->
  layer_ok q /\ same_view (over q v0) (over p (over w v0)).
Proof.
  intros [Hd Ha] -> Hev. assert (Hin : forall d f a, fakeIPAddress d f w = Some a -> a ∈ dom (pw_fakeIPDomain w)).
  { intros d f a E. destruct (proj2 Hlw _ _ _ E (Hev _ _ _ E)) as [E' _]. by eapply elem_of_dom_2. }
  assert (Hload : forall a, pw_fakeIPDomain q !! a = match pw_fakeIPDomain p !! a with Some d => Some d | None => pw_fakeIPDomain w !! a end).
  { intros a. rewrite Hd. destruct (pw_fakeIPDomain p !! a); [done|]. destruct (bool_decide_reflect (a ∈ dom (pw_fakeIPDomain w))) as [|Hn]; [done|]. by apply not_elem_of_dom in Hn. }
  assert (Hname : forall d f, fakeIPAddress d f q = match fakeIPAddress d f p with Some a => Some a | None => fakeIPAddress d f w end).
  { intros d f. rewrite Ha. destruct (fakeIPAddress d f p); [done|]. destruct (fakeIPAddress d f w) as [a|] eqn:E; [|done]. by rewrite bool_decide_true by (by eapply Hin). }
  split.
  - split.
    + intros a d. rewrite Hload, Hname. destruct (pw_fakeIPDomain p !! a) as [d'|] eqn:E.
      * intros [= ->]. destruct (proj1 Hlp _ _ E) as (? & ? & ->). done.
      * intros Hw. destruct (proj1 Hlw _ _ Hw) as (? & ? & ?). by rewrite (restored_free a d E Hw).
    + intros d f a. rewrite Hload, Hname. destruct (fakeIPAddress d f p) as [b|] eqn:E.
      * intros [= ->] Hval. destruct (proj2 Hlp _ _ _ E Hval) as [-> ?]. done.
      * intros Hw Hval. destruct (proj2 Hlw _ _ _ Hw Hval) as [? ?]. by rewrite (restored_absent _ _ _ E Hw Hval).
  - split; cbn; intros; [rewrite Hload; by destruct (pw_fakeIPDomain p !! a)|]. rewrite Hname. by destruct (fakeIPAddress d f p).
Qed.
End restored.

(** ** The cache file *)

Section cache.
Context {D : Type} `{BoltLaws D} `{MapOrder} (AddrFromIP : list Z -> Addr) `{!AddrFromIPLaws AddrFromIP}.
Implicit Types (c : CacheFile D) (p : pendingWrites) (o : WriteOutcome).

Definition writing_of c : pendingWrites := default newPendingWrites (cf_writing c).

(** What reads see. *)
Definition cache_view c : View := (fun a => CacheFile_FakeIPLoad a c, fun d f => CacheFile_FakeIPLoadDomain AddrFromIP d f c).

(** The database, what is written over it, and what is collected over that, agree. *)
Definition layers_ok c (v0 : View) : Prop :=
  holds (cf_DB c) v0 /\ agree v0 /\ layer_ok (writing_of c) /\ agree (over (writing_of c) v0) /\
  layer_ok (cf_pending c) /\ agree (over (cf_pending c) (over (writing_of c) v0)).

Definition cache_ok c : Prop := exists v0, layers_ok c v0.

Lemma cache_view_layers c v0 : layers_ok c v0 -> same_view (cache_view c) (over (cf_pending c) (over (writing_of c) v0)).
Proof.
  intros (Hh & Ha & _). transitivity (over (cf_pending c) (over (writing_of c) (db_view AddrFromIP (cf_DB c)))).
  - unfold cache_view, CacheFile_FakeIPLoad, CacheFile_FakeIPLoadDomain, looked_up, writing_of. split; cbn; intros.
    + destruct (pw_fakeIPDomain (cf_pending c) !! a); [done|]. destruct (cf_writing c); cbn; [done|]. by rewrite lookup_empty.
    + destruct (fakeIPAddress d f (cf_pending c)); [done|]. destruct (cf_writing c) as [w|]; cbn; [done|]. unfold fakeIPAddress. cbn. rewrite !lookup_empty. by destruct f.
  - by rewrite (holds_view AddrFromIP _ _ Hh Ha).
Qed.

Lemma cache_view_agree c : cache_ok c -> agree (cache_view c).
Proof. intros [v0 Hc]. rewrite (cache_view_layers c v0 Hc). by destruct Hc as (_ & _ & _ & _ & _ & ?). Qed.

(** Changes that leave the fake addresses alone. *)
Definition same_fakes c c' : Prop := cf_DB c' = cf_DB c /\ cf_writing c' = cf_writing c /\ same_fake (cf_pending c) (cf_pending c').

Lemma same_fakes_layers c c' v0 : same_fakes c c' -> layers_ok c v0 -> layers_ok c' v0.
Proof.
  intros (Hdb & Hw & Hp) (Hh & H0' & Hlw & Haw & Hlp & Hap). unfold layers_ok, writing_of in *. rewrite Hdb, Hw. split_and!; try done.
  - by eapply same_fake_layer.
  - by rewrite <- (same_fake_over _ _ _ Hp).
Qed.

Lemma same_fakes_view c c' : same_fakes c c' -> cache_ok c -> cache_ok c' /\ same_view (cache_view c') (cache_view c).
Proof.
  intros Hs [v0 Hc]. pose proof (same_fakes_layers _ _ _ Hs Hc) as Hc'. split; [by exists v0|]. rewrite (cache_view_layers _ _ Hc), (cache_view_layers _ _ Hc').
  destruct Hs as (_ & Hw & Hp). unfold writing_of. rewrite Hw. by rewrite (same_fake_over _ _ _ Hp).
Qed.

Lemma enqueue_fakes added n c : same_fakes c (enqueueLocked added n c).
Proof. unfold enqueueLocked. destruct (added && _ && _), (_ <=? _); by split_and!. Qed.

Lemma same_fakes_trans c c' c'' : same_fakes c c' -> same_fakes c' c'' -> same_fakes c c''.
Proof. unfold same_fakes, same_fake. intros (-> & -> & ? & ? & ?) (-> & -> & ? & ? & ?). split_and!; congruence. Qed.

(** *** Storing *)

Lemma queueFakeIP_writes a d c : cf_pending (queueFakeIP a d c) = with_numbers (pw_count (cf_pending (queueFakeIP a d c))) (pw_size (cf_pending (queueFakeIP a d c)))
    (stored_writes (CacheFile_FakeIPLoad a c) a d (cf_pending c)) /\ cf_DB (queueFakeIP a d c) = cf_DB c /\ cf_writing (queueFakeIP a d c) = cf_writing c.
Proof. unfold queueFakeIP, enqueueLocked, stored_writes. destruct (CacheFile_FakeIPLoad a c); repeat case_match; by split_and!. Qed.

Lemma queueFakeIP_ok a d c : cache_ok c -> proper a -> d <> ""%string -> CacheFile_FakeIPLoadDomain AddrFromIP d (addr_Is6 a) c = None ->
  cache_ok (queueFakeIP a d c) /\ forall b, proper b -> CacheFile_FakeIPLoad b (queueFakeIP a d c) = if bool_decide (b = a) then Some d else CacheFile_FakeIPLoad b c.
Proof.
  intros [v0 Hc] Hp Hd Hnew. pose proof (cache_view_layers c v0 Hc) as Hview. pose proof Hc as (Hh & H0' & Hlw & Haw & Hlp & Hap).
  destruct (queueFakeIP_writes a d c) as (Hw & Hdb & Hwr). set (c' := queueFakeIP a d c) in *.
  assert (Hold : CacheFile_FakeIPLoad a c = (over (cf_pending c) (over (writing_of c) v0)).1 a) by (by apply (proj1 Hview)).
  assert (Hfree : (over (cf_pending c) (over (writing_of c) v0)).2 d (addr_Is6 a) = None) by (by rewrite <- (proj2 Hview)).
  assert (Hsf : same_fake (stored_writes ((over (cf_pending c) (over (writing_of c) v0)).1 a) a d (cf_pending c)) (cf_pending c')) by (rewrite <- Hold, Hw; by split_and!).
  assert (Hc' : layers_ok c' v0).
  { unfold layers_ok, writing_of in *. rewrite Hdb, Hwr. split_and!; try done.
    - eapply same_fake_layer; [exact Hsf|]. by apply stored_layer.
    - rewrite <- (same_fake_over _ _ _ Hsf). by apply stored_agree. }
  split; [by exists v0|]. intros b Hpb. change (CacheFile_FakeIPLoad b c') with ((cache_view c').1 b). rewrite (proj1 (cache_view_layers c' v0 Hc') b Hpb).
  unfold writing_of. rewrite Hwr. change (default newPendingWrites (cf_writing c)) with (writing_of c). rewrite <- (proj1 (same_fake_over _ _ _ Hsf) b Hpb).
  rewrite stored_load. by rewrite <- (proj1 Hview b Hpb).
Qed.

(** *** Flushing *)

Lemma Flush_begin_ok loop c : cache_ok c -> cf_writing c = None -> cache_ok (Flush_begin loop c) /\ same_view (cache_view (Flush_begin loop c)) (cache_view c).
Proof.
  intros Hok Hw. unfold Flush_begin. destruct (_ =? 0); [by apply same_fakes_view|]. set (c' := mkCacheFile _ _ _ _ _ _ _ _ _ _).
  destruct Hok as [v0 Hc]. pose proof Hc as (Hh & H0' & Hlw & Haw & Hlp & Hap). unfold writing_of in Hap. rewrite Hw in Hap. cbn [default] in Hap. rewrite over_new in Hap.
  assert (Hc' : layers_ok c' v0).
  { unfold layers_ok, writing_of. cbn. split_and!; [done|done|done|done|apply layer_new|by rewrite over_new]. }
  split; [by exists v0|]. rewrite (cache_view_layers _ _ Hc), (cache_view_layers _ _ Hc'). unfold writing_of. rewrite Hw. cbn. by rewrite !over_new.
Qed.

Lemma restore_others_fake o w c : let p := cf_pending c in
  let p2 := foldl (fun p e => restore_rdrc e.1 p) (foldl (fun p e => restore_dns e p) p (map_order (oc_seed o) (pw_dnsCache w))) (map_order (oc_seed o) (pw_rdrc w)) in
  same_fake p p2.
Proof.
  cbn zeta. assert (Hdns : forall l p, same_fake p (foldl (fun p e => restore_dns e p) p l)).
  { induction l as [|e l IH]; intros p; [by split_and!|]. cbn. destruct (IH (restore_dns e p)) as (? & ? & ?). unfold restore_dns in *. destruct (pw_dnsCache p !! e.1); by split_and!. }
  assert (Hrd : forall (l : list (saveCacheKey * unit)) p, same_fake p (foldl (fun p e => restore_rdrc e.1 p) p l)).
  { induction l as [|e l IH]; intros p; [by split_and!|]. cbn. destruct (IH (restore_rdrc e.1 p)) as (? & ? & ?). unfold restore_rdrc in *. destruct (pw_rdrc p !! e.1); by split_and!. }
  destruct (Hdns (map_order (oc_seed o) (pw_dnsCache w)) (cf_pending c)) as (E1 & E2 & E3).
  destruct (Hrd (map_order (oc_seed o) (pw_rdrc w)) (foldl (fun p e => restore_dns e p) (cf_pending c) (map_order (oc_seed o) (pw_dnsCache w)))) as (F1 & F2 & F3).
  unfold same_fake. rewrite E1, E2, E3. done.
Qed.

(** The flush fails. *)
Lemma restore_ok o w c v0 : cf_writing c = Some w -> layers_ok c v0 -> nothing_evicted w ->
  layers_ok (done_writing (restorePendingLocked o w c)) v0 /\ same_view (cache_view (done_writing (restorePendingLocked o w c))) (cache_view c).
Proof.
  intros Hw Hc Hev. pose proof Hc as (Hh & H0' & Hlw & Haw & Hlp & Hap). unfold writing_of in Hlw, Haw, Hap. rewrite Hw in Hlw, Haw, Hap. cbn [default] in Hlw, Haw, Hap.
  set (p2 := foldl (fun p e => restore_rdrc e.1 p) (foldl (fun p e => restore_dns e p) (cf_pending c) (map_order (oc_seed o) (pw_dnsCache w))) (map_order (oc_seed o) (pw_rdrc w))).
  assert (Hs2 : same_fake (cf_pending c) p2) by apply restore_others_fake. set (l := map_order (oc_seed o) (pw_fakeIPDomain w)). set (q := foldl (fun q e => restore_fakeIP e q) p2 l).
  pose proof (map_order_perm (oc_seed o) (pw_fakeIPDomain w)) as Hperm. fold l in Hperm.
  assert (Hr : restored (cf_pending c) w (list_to_set l.*1 ∪ ∅) q).
  { eapply restored_fold; [exact Hlp|exact Hlw|exact Hap| | |].
    - rewrite Hperm. apply NoDup_fst_map_to_list.
    - intros b d Hin. rewrite Hperm, elem_of_map_to_list in Hin. split; [done|set_solver].
    - split; [intros a; rewrite (proj1 Hs2); by destruct (pw_fakeIPDomain p2 !! a)|]. intros d f. rewrite (same_fake_address _ _ d f Hs2). destruct (fakeIPAddress d f p2); [done|]. by destruct (fakeIPAddress d f w). }
  destruct (restored_all (cf_pending c) w v0 Hlp Hlw Hap _ q Hr) as [Hlq Hsame]; [|done|].
  { rewrite Hperm, union_empty_r_L. apply set_eq. intros b. rewrite elem_of_list_to_set, elem_of_dom, list_elem_of_fmap. split.
    - intros ([? d] & -> & Hin%elem_of_map_to_list). by exists d.
    - intros [d Hin]. exists (b, d). by rewrite elem_of_map_to_list. }
  set (c' := done_writing (restorePendingLocked o w c)). assert (Hfields : cf_DB c' = cf_DB c /\ cf_writing c' = None /\ same_fake q (cf_pending c')).
  { unfold c', restorePendingLocked. fold p2 l q. destruct (pw_fakeIPMetadata q), (pw_fakeIPMetadata w); cbn; destruct (_ && _ && _); by split_and!. }
  destruct Hfields as (Hdb & Hnone & Hsq). assert (Hc' : layers_ok c' v0).
  { unfold layers_ok, writing_of. rewrite Hdb, Hnone. cbn [default]. split_and!; [done|done|apply layer_new|by rewrite over_new|by eapply same_fake_layer|].
    rewrite over_new, <- (same_fake_over _ _ _ Hsq), Hsame. done. }
  split; [done|]. rewrite (cache_view_layers _ _ Hc), (cache_view_layers _ _ Hc'). unfold writing_of. rewrite Hnone, Hw. cbn [default]. by rewrite over_new, <- (same_fake_over _ _ _ Hsq).
Qed.

(** A flush ends well if it is committed, or if no domain lost its address in what is put
    back. *)
Definition ends_well o c : Prop := match cf_writing c with None => True | Some w => is_Some (transaction o c w) \/ nothing_evicted w end.

Lemma Flush_end_ok o c : cache_ok c -> ends_well o c -> cache_ok (Flush_end o c) /\ cf_writing (Flush_end o c) = None /\ same_view (cache_view (Flush_end o c)) (cache_view c).
Proof.
  intros [v0 Hc] Hwell. unfold Flush_end, ends_well in *. destruct (cf_writing c) as [w|] eqn:Hw; [|by split_and!; [exists v0| |]].
  destruct (transaction o c w) as [db|] eqn:Htx.
  - pose proof Hc as (Hh & H0' & Hlw & Haw & Hlp & Hap). unfold writing_of in Hlw, Haw, Hap. rewrite Hw in Hlw, Haw, Hap. cbn [default] in Hlw, Haw, Hap.
    assert (Hc' : layers_ok (done_writing (with_DB db c)) (over w v0)).
    { unfold layers_ok, writing_of. cbn. split_and!; [by eapply transaction_holds|done|apply layer_new|by rewrite over_new|done|by rewrite over_new]. }
    split_and!; [by eexists|done|]. rewrite (cache_view_layers _ _ Hc), (cache_view_layers _ _ Hc'). unfold writing_of. rewrite Hw. cbn. by rewrite over_new.
  - destruct Hwell as [[? ?]|Hev]; [done|]. destruct (restore_ok o w c v0 Hw Hc Hev) as [Hc' Hs]. split_and!; [by exists v0|done|done].
Qed.

(** Both flushes of an operation that waits. *)
Definition flushes_well o o' c : Prop := ends_well o c /\ ends_well o' (Flush_begin false (Flush_end o c)).

Lemma Flush_ok o o' c : cache_ok c -> flushes_well o o' c -> cache_ok (Flush o o' c) /\ cf_writing (Flush o o' c) = None /\ same_view (cache_view (Flush o o' c)) (cache_view c).
Proof.
  intros Hc [H1' H2']. destruct (Flush_end_ok o c Hc H1') as (Hc1 & Hn & Hs1). destruct (Flush_begin_ok false _ Hc1 Hn) as [Hc2 Hs2].
  destruct (Flush_end_ok o' _ Hc2 H2') as (Hc3 & Hn3 & Hs3). split_and!; [done|done|]. by rewrite Hs3, Hs2.
Qed.

(** *** Resetting *)

Lemma delete_buckets_get paths db db' q l : delete_buckets paths db = Ok db' -> bolt_Get q l db' = None \/ bolt_Get q l db' = bolt_Get q l db.
Proof.
  revert db. induction paths as [|path paths IH]; intros db; cbn; [intros [= <-]; by right|]. intros Hr. simpl_result. destruct (IH _ Hr) as [?|E]; [by left|].
  destruct (bolt_HasBucket path db); [|injection Heqr as <-; by right]. rewrite (bolt_get_dropped _ _ _ _ _ Heqr) in E. destruct (decide _); [by left|by right].
Qed.

Lemma delete_buckets_gone paths db db' q l : delete_buckets paths db = Ok db' -> q ∈ paths -> bolt_Get q l db' = None.
Proof.
  revert db. induction paths as [|path paths IH]; intros db; cbn; [by intros _ ?%not_elem_of_nil|]. intros Hr Hin. simpl_result.
  apply elem_of_cons in Hin as [->|Hin]; [|by eapply IH]. assert (E : bolt_Get path l a = None).
  { destruct (bolt_HasBucket path db) eqn:Hb; [|injection Heqr as <-; by eapply bolt_no_bucket]. by rewrite (bolt_get_dropped _ _ _ _ _ Heqr), decide_True. }
  by destruct (delete_buckets_get paths a db' path l Hr) as [?| ->].
Qed.

Definition no_view : View := (fun _ => None, fun _ _ => None).

Lemma agree_no_view : agree no_view.
Proof. intros d f a. split; [done|]. by intros (_ & _ & ?). Qed.

Lemma FakeIPReset_ok o o' c r c' : cache_ok c -> ends_well o c -> CacheFile_FakeIPReset o o' c = (r, c') ->
  cache_ok c' /\ (r = Ok tt -> forall a, proper a -> CacheFile_FakeIPLoad a c' = None).
Proof.
  intros Hc Hwell Hr. unfold CacheFile_FakeIPReset in Hr. destruct (Flush_end_ok o c Hc Hwell) as ([v0 Hc1] & Hn & _). set (c1 := Flush_end o c) in *.
  pose proof Hc1 as (Hh & H0' & _). set (c2 := with_pending (without_fakeIP (cf_pending c1)) c1) in *.
  assert (Hl : layer_ok (cf_pending c2)) by (eapply (same_fake_layer newPendingWrites); [by split_and!|apply layer_new]).
  assert (Hov : forall v, same_view (over (cf_pending c2) v) v) by (intros v; rewrite <- (same_fake_over newPendingWrites (cf_pending c2) v) by (by split_and!); apply over_new).
  assert (Hstate : forall db v, holds db v -> agree v -> layers_ok (with_DB db c2) v).
  { intros db v Hv Ha. unfold layers_ok, writing_of. cbn [with_DB with_pending c2 cf_DB cf_writing cf_pending]. rewrite Hn. cbn [default].
    split_and!; [done|done|apply layer_new|by rewrite over_new|done|]. apply (agree_proper _ _ (Hov _)). by rewrite over_new. }
  unfold batch in Hr. destruct (delete_buckets _ _) as [db|e] eqn:Hdel.
  2: { injection Hr as <- <-. split; [|done]. exists v0. apply (Hstate (cf_DB c1) v0 Hh H0'). }
  destruct (oc_commit o'); [|injection Hr as <- <-; split; [|done]; exists v0; apply (Hstate (cf_DB c1) v0 Hh H0')].
  injection Hr as <- <-. assert (Hgone : forall q l, q ∈ [bucketFakeIP; bucketFakeIPDomain4; bucketFakeIPDomain6] -> bolt_Get q l db = None) by (intros; by eapply delete_buckets_gone).
  assert (Hno : holds db no_view).
  { split_and!; [|  |done|done].
    - intros a _. apply Hgone. by left.
    - intros d f _. apply Hgone. destruct f; cbn; set_solver. }
  pose proof (Hstate db no_view Hno agree_no_view) as Hc'. split; [by exists no_view|]. intros _ a Hp. change (CacheFile_FakeIPLoad a ?x) with ((cache_view x).1 a).
  rewrite (proj1 (cache_view_layers _ _ Hc') a Hp). unfold writing_of. cbn. rewrite Hn. cbn. by rewrite !lookup_empty.
Qed.
End cache.
