(* ===== verification/CacheFileRun.v ===== *)
(** * The cache file over time

    Every operation as a step: what is collected is counted, something will flush it, and a
    saved response is found until it is replaced, whatever is written or fails meanwhile. *)

From stdpp Require Import base gmap strings list.
From Stdlib Require Import ZArith Lia.
From S2P Require Import Prelude Net Codec Metadata DnsRecords FakeIP CacheFile CacheFileOk.

Open Scope Z_scope.

Section run.
Context {D : Type} `{Bolt D} `{MapOrder}.
Implicit Types (c : CacheFile D) (p : pendingWrites) (o : WriteOutcome).

(** ** Operations *)

(** A flush is two operations, between which others may come. *)
Inductive CacheOp : Type :=
| OpStore (a : Addr) (d : string)
| OpSaveMetadata (o o' : WriteOutcome) (m : FakeIPMetadata)
| OpReset (o o' : WriteOutcome)
| OpDNS (t q : string) (ty : Z) (raw : list Z) (at_ : Z)
| OpDNSDelete (o o' : WriteOutcome) (t q : string) (ty : Z) (raw : list Z)
| OpDNSClear (o o' : WriteOutcome)
| OpRDRC (t q : string) (ty : Z)
| OpRDRCClear (o o' : WriteOutcome)
| OpDNSCleanup (o : WriteOutcome) (disableExpire : bool) (optimisticTimeout now : Z)
| OpRDRCCleanup (o : WriteOutcome) (now : Z)
| OpResetDB
| OpTimer
| OpSignal
| OpBegin (loop : bool)
| OpEnd (o : WriteOutcome).

(** A flush waits while another one is going on, and [loopFlush] flushes when it was woken. *)
Definition cache_op (op : CacheOp) c : CacheFile D :=
  match op with
  | OpStore a d => queueFakeIP a d c
  | OpSaveMetadata o o' m => CacheFile_FakeIPSaveMetadata o o' m c
  | OpReset o o' => (CacheFile_FakeIPReset o o' c).2
  | OpDNS t q ty raw at_ => queueDNSCache t q ty raw at_ c
  | OpDNSDelete o o' t q ty raw => DeleteDNSCache o o' t q ty raw c
  | OpDNSClear o o' => (ClearDNSCache o o' c).2
  | OpRDRC t q ty => queueRDRC t q ty c
  | OpRDRCClear o o' => clearRDRC o o' c
  | OpDNSCleanup o disableExpire optimisticTimeout now => cleanupDNSCache o disableExpire optimisticTimeout now c
  | OpRDRCCleanup o now => cleanupRDRC o now c
  | OpResetDB => resetDB c
  | OpTimer => timer_fires c
  | OpSignal => take_signal c
  | OpBegin loop => match cf_writing c with Some _ => c | None => if loop && negb (cf_due c) then c else Flush_begin loop c end
  | OpEnd o => Flush_end o c
  end.

Definition cache_run (ops : list CacheOp) c : CacheFile D := foldl (fun c op => cache_op op c) c ops.

(** ** Counting *)

Definition one {A : Type} (x : option A) : Z := match x with Some _ => 1 | None => 0 end.

(** The number of writes. *)
Definition total p : Z :=
  Z.of_nat (size (pw_dnsCache p)) + Z.of_nat (size (pw_rdrc p)) + Z.of_nat (size (pw_fakeIPDomain p)) + one (pw_fakeIPMetadata p).

Definition counted p : Prop := pw_count p = total p.

Lemma total_nonneg p : 0 <= total p.
Proof. unfold total, one. destruct (pw_fakeIPMetadata p); lia. Qed.

Lemma size_insert {K V : Type} `{Countable K} (m : gmap K V) (k : K) (x : V) :
  Z.of_nat (size (<[k := x]> m)) = Z.of_nat (size m) + match m !! k with Some _ => 0 | None => 1 end.
Proof. rewrite map_size_insert. destruct (m !! k); cbn; lia. Qed.

Lemma size_delete {K V : Type} `{Countable K} (m : gmap K V) (k : K) (x : V) : m !! k = Some x -> Z.of_nat (size (delete k m)) = Z.of_nat (size m) - 1.
Proof.
  intros E. rewrite map_size_delete, E. cbn. assert (size m <> 0)%nat; [|lia]. intros Hn%map_size_empty_inv. subst m. by rewrite lookup_empty in E.
Qed.

(** What a flush would still have to do, and what will do it. *)
Definition scheduled c : Prop := 0 < cf_flushInterval c -> 0 < pw_count (cf_pending c) -> cf_timer c = true \/ cf_due c = true.

Definition writes_ok c : Prop := counted (cf_pending c) /\ scheduled c.

(** A write is collected. *)
Lemma enqueue_ok (added : bool) n p c : writes_ok c -> pw_count p = pw_count (cf_pending c) -> total p = total (cf_pending c) + (if added then 1 else 0) ->
  writes_ok (enqueueLocked added n (with_pending p c)).
Proof.
  intros [Hc Hs] Hn Ht. unfold counted, scheduled in *. pose proof (total_nonneg (cf_pending c)) as Hnn. unfold enqueueLocked. cbn [cf_pending with_pending cf_flushInterval cf_bufferSize].
  assert (Hcount : (if added then pw_count p + 1 else pw_count p) = total p) by (destruct added; lia).
  split; [unfold counted|unfold scheduled].
  - destruct (_ && _ && _), (_ <=? _); exact Hcount.
  - assert (Hgoal : 0 < cf_flushInterval c -> 0 < total p -> added && ((if added then pw_count p + 1 else pw_count p) =? 1) && (0 <? cf_flushInterval c) = true \/ cf_timer c = true \/ cf_due c = true).
    { intros Hi Hp. destruct added; cbn [andb].
      - destruct (Z.eqb_spec (pw_count p + 1) 1); [left; by apply Z.ltb_lt|]. right. apply Hs; [done|lia].
      - right. apply Hs; [done|lia]. }
    destruct (added && _ && _), (_ <=? _); cbn; rewrite ?Hcount; intros Hi Hp; try (by left); destruct (Hgoal Hi Hp) as [?|[?|?]]; try done; auto.
Qed.

(** Fewer writes. *)
Lemma fewer_ok p c : writes_ok c -> counted p -> total p <= total (cf_pending c) -> writes_ok (with_pending p c).
Proof. intros [Hc Hs] Hp Ht. split; [done|]. unfold scheduled, counted in *. cbn. intros Hi Hpos. apply Hs; [done|lia]. Qed.

Lemma batch_pending o fn c : cf_pending (batch o fn c).2 = cf_pending c /\ cf_timer (batch o fn c).2 = cf_timer c /\ cf_due (batch o fn c).2 = cf_due c /\
  cf_flushInterval (batch o fn c).2 = cf_flushInterval c /\ cf_writing (batch o fn c).2 = cf_writing c /\ cf_cacheID (batch o fn c).2 = cf_cacheID c.
Proof. unfold batch. destruct (fn (cf_DB c)); [|done]. by destruct (oc_commit o). Qed.

Lemma batch_ok o fn c : writes_ok c -> writes_ok (batch o fn c).2.
Proof. unfold writes_ok, scheduled. destruct (batch_pending o fn c) as (-> & -> & -> & -> & _). done. Qed.

(** ** Putting back *)

Lemma restore_dns_counted e p : counted p -> counted (restore_dns e p).
Proof. unfold counted, restore_dns, total. intros Hc. destruct (pw_dnsCache p !! e.1) eqn:E; [done|]. cbn -[size insert]. rewrite size_insert, E. lia. Qed.

Lemma restore_rdrc_counted e p : counted p -> counted (restore_rdrc e p).
Proof. unfold counted, restore_rdrc, total. intros Hc. destruct (pw_rdrc p !! e) eqn:E; [done|]. cbn -[size insert]. rewrite size_insert, E. lia. Qed.

Lemma restore_fakeIP_counted e p : counted p -> counted (restore_fakeIP e p).
Proof.
  unfold counted, restore_fakeIP, total. intros Hc. destruct (pw_fakeIPDomain p !! e.1) eqn:E; [done|]. destruct (fakeIPAddress _ _ _); [done|]. cbn -[size insert]. rewrite size_insert, E. lia.
Qed.

Lemma foldl_keeps {A : Type} (P : pendingWrites -> Prop) (f : pendingWrites -> A -> pendingWrites) l p : (forall p x, P p -> P (f p x)) -> P p -> P (foldl f p l).
Proof. intros Hf. revert p. induction l as [|x l IH]; intros p Hp; [done|]. cbn. by apply IH, Hf. Qed.

Lemma restore_run_ok o w c : writes_ok c -> writes_ok (done_writing (restorePendingLocked o w c)).
Proof.
  intros [Hc Hs]. unfold restorePendingLocked. set (p3 := foldl _ _ (map_order _ (pw_fakeIPDomain w))).
  assert (H3 : counted p3).
  { apply foldl_keeps; [intros; by apply restore_fakeIP_counted|]. apply foldl_keeps; [intros; by apply restore_rdrc_counted|]. apply foldl_keeps; [intros; by apply restore_dns_counted|done]. }
  set (p4 := match pw_fakeIPMetadata p3 with None => _ | Some _ => _ end). assert (H4 : counted p4).
  { unfold p4. destruct (pw_fakeIPMetadata p3) eqn:E; [done|]. destruct (pw_fakeIPMetadata w); [|done]. unfold counted, total in *. cbn. rewrite E in H3. cbn in H3. lia. }
  assert (Hdue : 0 < cf_flushInterval c -> 0 < pw_count p4 -> (pw_count (cf_pending c) =? 0) && (0 <? pw_count p4) && (0 <? cf_flushInterval c) = true \/ cf_timer c = true \/ cf_due c = true).
  { intros Hi Hp. destruct (Z.eqb_spec (pw_count (cf_pending c)) 0) as [|Hne]; [left; cbn; apply andb_true_iff; split; by apply Z.ltb_lt|]. right.
    unfold counted in Hc. pose proof (total_nonneg (cf_pending c)). apply Hs; [done|lia]. }
  destruct (_ && _ && _); (split; [exact H4|]); unfold scheduled; cbn; intros Hi Hp; [by left|]. by destruct (Hdue Hi Hp).
Qed.

Lemma Flush_end_run_ok o c : writes_ok c -> writes_ok (Flush_end o c).
Proof. intros Hr. unfold Flush_end. destruct (cf_writing c) as [w|]; [|done]. destruct (transaction o c w); [done|]. by apply restore_run_ok. Qed.

Lemma Flush_begin_run_ok loop c : writes_ok c -> writes_ok (Flush_begin loop c).
Proof.
  intros [Hc Hs]. unfold Flush_begin. destruct (Z.eqb_spec (pw_count (cf_pending c)) 0) as [E|E]; (split; [done|]); unfold scheduled; cbn; lia.
Qed.

Lemma Flush_run_ok o o' c : writes_ok c -> writes_ok (Flush o o' c).
Proof. intros Hr. by apply Flush_end_run_ok, Flush_begin_run_ok, Flush_end_run_ok. Qed.

(** ** Every operation *)

Lemma total_dns p m : total (with_dnsCache m p) = total p - Z.of_nat (size (pw_dnsCache p)) + Z.of_nat (size m).
Proof. unfold total. cbn -[size]. lia. Qed.

Lemma total_rdrc p m : total (with_rdrc m p) = total p - Z.of_nat (size (pw_rdrc p)) + Z.of_nat (size m).
Proof. unfold total. cbn -[size]. lia. Qed.

Lemma queueFakeIP_run_ok a d c : writes_ok c -> writes_ok (queueFakeIP a d c).
Proof.
  intros Hr. unfold queueFakeIP. destruct (CacheFile_FakeIPLoad a c); (apply enqueue_ok; [done|done|]); unfold total; cbn -[size insert]; rewrite size_insert;
    destruct (pw_fakeIPDomain (cf_pending c) !! a); lia.
Qed.

Lemma save_metadata_run_ok o o' m c : writes_ok c -> writes_ok (CacheFile_FakeIPSaveMetadata o o' m c).
Proof. intros Hr. apply Flush_run_ok, enqueue_ok; [done|done|]. unfold total. cbn. destruct (pw_fakeIPMetadata (cf_pending c)); cbn; lia. Qed.

Lemma reset_run_ok o o' c : writes_ok c -> writes_ok (CacheFile_FakeIPReset o o' c).2.
Proof.
  intros Hr%(Flush_end_run_ok o). apply batch_ok, fewer_ok; [done| |].
  - destruct Hr as [Hc _]. unfold counted, total in *. cbn -[size]. rewrite map_size_empty. unfold one in *. destruct (pw_fakeIPMetadata _); lia.
  - unfold total. cbn -[size]. rewrite map_size_empty. destruct (pw_fakeIPMetadata _); cbn; lia.
Qed.

Lemma dns_run_ok t q ty raw at_ c : writes_ok c -> writes_ok (queueDNSCache t q ty raw at_ c).
Proof. intros Hr. apply enqueue_ok; [done|done|]. rewrite total_dns, size_insert. destruct (pw_dnsCache (cf_pending c) !! _); lia. Qed.

Lemma dns_delete_run_ok o o' t q ty raw c : writes_ok c -> writes_ok (DeleteDNSCache o o' t q ty raw c).
Proof.
  intros Hr%(Flush_end_run_ok o). unfold DeleteDNSCache. destruct (pw_dnsCache (cf_pending (Flush_end o c)) !! _) as [value|] eqn:E; [|by apply batch_ok].
  destruct (_ && _); [|done]. apply batch_ok, fewer_ok; [done| |].
  - destruct Hr as [Hc _]. unfold counted in *. change (total (with_numbers ?a ?b ?x)) with (total x). rewrite total_dns, (size_delete _ _ _ E). cbn -[total size]. lia.
  - change (total (with_numbers ?a ?b ?x)) with (total x). rewrite total_dns, (size_delete _ _ _ E). lia.
Qed.

Lemma dns_clear_run_ok o o' c : writes_ok c -> writes_ok (ClearDNSCache o o' c).2.
Proof.
  intros Hr%(Flush_end_run_ok o). apply batch_ok, fewer_ok; [done| |]; change (total (with_numbers ?a ?b ?x)) with (total x) || idtac.
  - destruct Hr as [Hc _]. unfold counted in *. change (total (with_numbers ?a ?b ?x)) with (total x). rewrite total_dns, map_size_empty. cbn -[total size]. lia.
  - rewrite total_dns, map_size_empty. lia.
Qed.

Lemma rdrc_run_ok t q ty c : writes_ok c -> writes_ok (queueRDRC t q ty c).
Proof. intros Hr. unfold queueRDRC. destruct (pw_rdrc (cf_pending c) !! _) eqn:E; [done|]. apply enqueue_ok; [done|done|]. rewrite total_rdrc, size_insert, E. lia. Qed.

Lemma rdrc_clear_run_ok o o' c : writes_ok c -> writes_ok (clearRDRC o o' c).
Proof.
  intros Hr%(Flush_end_run_ok o). apply batch_ok, fewer_ok; [done| |].
  - destruct Hr as [Hc _]. unfold counted in *. change (total (with_numbers ?a ?b ?x)) with (total x). rewrite total_rdrc, map_size_empty. cbn -[total size]. lia.
  - change (total (with_numbers ?a ?b ?x)) with (total x). rewrite total_rdrc, map_size_empty. lia.
Qed.

Lemma cache_op_run_ok op c : writes_ok c -> writes_ok (cache_op op c).
Proof.
  intros Hr. destruct op as [| | | | | | | | | | | | |loop|]; cbn [cache_op].
  - by apply queueFakeIP_run_ok.
  - by apply save_metadata_run_ok.
  - by apply reset_run_ok.
  - by apply dns_run_ok.
  - by apply dns_delete_run_ok.
  - by apply dns_clear_run_ok.
  - by apply rdrc_run_ok.
  - by apply rdrc_clear_run_ok.
  - by apply batch_ok.
  - by apply batch_ok.
  - done.
  - destruct Hr as [Hc Hs]. unfold timer_fires. destruct (cf_timer c) eqn:E; (split; [done|]); [by right|done].
  - destruct Hr as [Hc Hs]. unfold take_signal. destruct (cf_flushSignal c) eqn:E; (split; [done|]); [by right|done].
  - destruct (cf_writing c); [done|]. destruct (_ && _); [done|]. by apply Flush_begin_run_ok.
  - by apply Flush_end_run_ok.
Qed.

Lemma cache_run_run_ok ops c : writes_ok c -> writes_ok (cache_run ops c).
Proof. revert c. induction ops as [|op ops IH]; intros c Hr; [done|]. cbn. by apply IH, cache_op_run_ok. Qed.
End run.

(** ** Responses *)

Section dns.
Context {D : Type} `{BoltLaws D} `{MapOrder}.
Implicit Types (c : CacheFile D) (p : pendingWrites) (o : WriteOutcome) (key : saveCacheKey) (db : D).

Definition key_ok key : Prop := in_width 16 (ck_QType key).

Lemma entry_key_inj k k' : key_ok k -> key_ok k' -> entry_key k = entry_key k' -> ck_TransportName k = ck_TransportName k' -> k = k'.
Proof.
  destruct k as [t q ty], k' as [t' q' ty']. unfold key_ok, in_width, entry_key. cbn [ck_QType ck_QuestionName ck_TransportName]. intros Hk Hk' E ->.
  assert (Hlen : length (be_bytes 2 ty) = length (be_bytes 2 ty')) by (by rewrite !length_be_bytes). destruct (app_inj_1 _ _ _ _ Hlen E) as [E1 E2].
  apply be_bytes_inj in E1; [|done..]. apply bytes_inj in E2. by subst.
Qed.

Lemma entry_get_put path e value db db' key : key_ok e -> key_ok key -> putCacheEntry path e value db = Ok db' ->
  getCacheEntry path key db' = if decide (key = e) then Some value else getCacheEntry path key db.
Proof.
  intros He Hk Hput. unfold getCacheEntry. rewrite (bolt_get_put _ _ _ _ _ _ _ Hput). destruct (decide (key = e)) as [->|Hne]; [by rewrite decide_True|].
  rewrite decide_False; [done|]. intros E. pose proof (f_equal fst E) as Ep. pose proof (f_equal snd E) as Ek. cbn [fst snd] in Ep, Ek. apply app_inv_head in Ep. injection Ep as Et. by apply Hne, entry_key_inj.
Qed.

Lemma put_entries_get path l db db' key : key_ok key -> Forall (fun e : saveCacheKey * list Z => key_ok e.1) l -> NoDup l.*1 ->
  put_all (fun e : saveCacheKey * list Z => putCacheEntry path e.1 e.2) l db = Ok db' ->
  (forall value, (key, value) ∈ l -> getCacheEntry path key db' = Some value) /\ (key ∉ l.*1 -> getCacheEntry path key db' = getCacheEntry path key db).
Proof.
  intros Hk. revert db. induction l as [|[e value] l IH]; intros db Hl Hnd Hput; cbn in *; [injection Hput as <-; split; [by intros ? ?%not_elem_of_nil|done]|].
  simpl_result. apply Forall_cons in Hl as [He Hl]. apply NoDup_cons in Hnd as [Hne Hnd]. destruct (IH _ Hl Hnd Hput) as [IH1 IH2]. pose proof (entry_get_put _ _ _ _ _ _ He Hk Heqr) as Hg. split.
  - intros v [[= <- <-]|Hin]%elem_of_cons; [|by apply IH1]. rewrite IH2, Hg by done. by rewrite decide_True.
  - intros Hn. rewrite IH2 by set_solver. rewrite Hg, decide_False by set_solver. done.
Qed.

(** Writes elsewhere leave the entry alone. *)
Definition keeps_entry path key (f : D -> result D) : Prop := forall db db', f db = Ok db' -> getCacheEntry path key db' = getCacheEntry path key db.

Lemma put_all_keeps {A : Type} path key (put : A -> D -> result D) l : (forall x, keeps_entry path key (put x)) -> keeps_entry path key (put_all put l).
Proof.
  intros Hput. induction l as [|x l IH]; intros db db'; cbn; [by intros [= <-]|]. intros Hr. simpl_result. rewrite (IH _ _ Hr). by eapply Hput.
Qed.

Lemma putFakeIP_keeps c name key a d : keeps_entry (bucket c name) key (putFakeIP a d).
Proof.
  intros db db' Hput. unfold putFakeIP in Hput. simpl_result. unfold getCacheEntry. assert (Hne : forall b, bucket c name ++ [ck_TransportName key] <> domain_bucket b) by (intros b; apply cache_path; by destruct b).
  rewrite (bolt_get_put _ _ _ _ _ _ _ Hput), decide_False by (intros [= E _]; by eapply Hne). transitivity (bolt_Get (bucket c name ++ [ck_TransportName key]) (entry_key key) a0).
  - destruct (bolt_Get bucketFakeIP _ db) as [old|]; [|by injection Heqr0 as <-]. destruct (bool_decide _); [|by injection Heqr0 as <-].
    rewrite (bolt_get_delete _ _ _ _ _ _ Heqr0), decide_False; [done|]. intros [= E _]. by eapply Hne.
  - rewrite (bolt_get_put _ _ _ _ _ _ _ Heqr), decide_False; [done|]. intros [= E _]. revert E. by apply cache_path.
Qed.

Lemma names_differ c t t' : bucket c bucketDNSCache ++ [t] <> bucket c bucketRDRC ++ [t'].
Proof. unfold bucket. by destruct (cf_cacheID c). Qed.

Lemma transaction_entry o c w db key : key_ok key -> (forall k v, pw_dnsCache w !! k = Some v -> key_ok k) -> transaction o c w = Some db ->
  getCacheEntry (bucket c bucketDNSCache) key db = match pw_dnsCache w !! key with Some v => Some v | None => getCacheEntry (bucket c bucketDNSCache) key (cf_DB c) end.
Proof.
  intros Hk Hw Htx. unfold transaction in Htx. destruct (writePending _ _ _ _) as [db4|] eqn:Hwr; [|done]. destruct (oc_commit o); [|done]. injection Htx as <-.
  unfold writePending in Hwr. simpl_result. pose proof (map_order_perm (oc_seed o) (pw_dnsCache w)) as Hperm.
  assert (E4 : getCacheEntry (bucket c bucketDNSCache) key db4 = getCacheEntry (bucket c bucketDNSCache) key a).
  { transitivity (getCacheEntry (bucket c bucketDNSCache) key a1).
    - destruct (pw_fakeIPMetadata w); [|by injection Hwr as <-]. unfold getCacheEntry. rewrite (bolt_get_put _ _ _ _ _ _ _ Hwr), decide_False; [done|]. intros [= E _]. revert E. by apply cache_path.
    - rewrite (put_all_keeps _ _ _ _ (fun e => putFakeIP_keeps c bucketDNSCache key e.1 e.2) _ _ Heqr1).
      eapply (put_all_keeps (bucket c bucketDNSCache) key _ _); [|exact Heqr0]. intros e db1 db2 Hput. unfold getCacheEntry.
      rewrite (bolt_get_put _ _ _ _ _ _ _ Hput), decide_False; [done|]. intros [= E _]. by eapply names_differ. }
  rewrite E4. assert (Hkeys : Forall (fun e : saveCacheKey * list Z => key_ok e.1) (map_order (oc_seed o) (pw_dnsCache w))).
  { apply Forall_forall. intros [k v] Hkv. rewrite Hperm, elem_of_map_to_list in Hkv. by eapply Hw. }
  assert (Hnd : NoDup (map_order (oc_seed o) (pw_dnsCache w)).*1) by (rewrite Hperm; apply NoDup_fst_map_to_list).
  destruct (put_entries_get _ _ _ _ key Hk Hkeys Hnd Heqr) as [Hin Hout]. destruct (pw_dnsCache w !! key) as [v|] eqn:E.
  - apply Hin. by rewrite Hperm, elem_of_map_to_list.
  - apply Hout. rewrite Hperm. intros ([? v] & -> & Hkv%elem_of_map_to_list)%list_elem_of_fmap. cbn in E. congruence.
Qed.

(** Where an entry is found. *)
Definition entry_of key c : option (list Z) :=
  match looked_up (fun p => pw_dnsCache p !! key) c with
  | Some value => Some value
  | None => getCacheEntry (bucket c bucketDNSCache) key (cf_DB c)
  end.

Definition keys_ok c : Prop :=
  (forall k v, pw_dnsCache (cf_pending c) !! k = Some v -> key_ok k) /\ (forall w k v, cf_writing c = Some w -> pw_dnsCache w !! k = Some v -> key_ok k) /\
  (forall id, cf_cacheID c = Some id -> exists id', id = String Ascii.zero id').

(** Nothing of DNS responses changes. *)
Definition same_dns c c' : Prop := cf_cacheID c' = cf_cacheID c /\ cf_writing c' = cf_writing c /\ pw_dnsCache (cf_pending c') = pw_dnsCache (cf_pending c) /\
  forall key, getCacheEntry (bucket c bucketDNSCache) key (cf_DB c') = getCacheEntry (bucket c bucketDNSCache) key (cf_DB c).

Lemma same_dns_entry c c' key : same_dns c c' -> keys_ok c -> keys_ok c' /\ entry_of key c' = entry_of key c.
Proof.
  intros (Hid & Hw & Hp & Hg) (K1 & K2 & K3). split; [split_and!; by rewrite ?Hid, ?Hw, ?Hp|]. unfold entry_of, looked_up. rewrite Hp, Hw.
  assert (Hb : bucket c' bucketDNSCache = bucket c bucketDNSCache) by (unfold bucket; by rewrite Hid). by rewrite Hb, Hg.
Qed.

Lemma enqueue_dns added n c : same_dns c (enqueueLocked added n c).
Proof. unfold enqueueLocked. destruct (added && _ && _), (_ <=? _); by split_and!. Qed.

Lemma same_dns_trans c c' c'' : same_dns c c' -> same_dns c' c'' -> same_dns c c''.
Proof.
  intros (Hid & Hw & Hp & Hg) (Hid' & Hw' & Hp' & Hg'). split_and!; [congruence|congruence|congruence|]. intros key.
  assert (Hb : bucket c' bucketDNSCache = bucket c bucketDNSCache) by (unfold bucket; by rewrite Hid). rewrite <- Hb. rewrite Hg'. by rewrite Hb.
Qed.

(** *** Flushing *)

Lemma begin_entry loop c key : keys_ok c -> cf_writing c = None -> keys_ok (Flush_begin loop c) /\ entry_of key (Flush_begin loop c) = entry_of key c.
Proof.
  intros (K1 & K2 & K3) Hw. unfold Flush_begin. destruct (_ =? 0); [by apply same_dns_entry|]. split.
  - split_and!; cbn; [intros k v; by rewrite lookup_empty| |done]. intros w k v [= <-]. apply K1.
  - unfold entry_of, looked_up. rewrite Hw. cbn. rewrite lookup_empty. by destruct (pw_dnsCache (cf_pending c) !! key).
Qed.

Lemma restore_dns_fold l p key : NoDup l.*1 -> pw_dnsCache (foldl (fun p e => restore_dns e p) p l) !! key =
  match pw_dnsCache p !! key with Some v => Some v | None => (list_to_map l : gmap saveCacheKey (list Z)) !! key end.
Proof.
  revert p. induction l as [|[k v] l IH]; intros p Hnd; cbn [foldl list_to_map foldr]; [rewrite lookup_empty; by destruct (pw_dnsCache p !! key)|]. apply NoDup_cons in Hnd as [Hk Hnd].
  rewrite IH by done. unfold restore_dns. cbn [fst snd]. destruct (pw_dnsCache p !! k) as [v'|] eqn:E.
  - destruct (pw_dnsCache p !! key) as [|] eqn:E'; [done|]. cbn. rewrite lookup_insert_ne by (intros ->; congruence). done.
  - cbn. destruct (decide (k = key)) as [->|Hne]; [by rewrite !lookup_insert_eq, E|]. by rewrite !lookup_insert_ne by done.
Qed.

Lemma restored_dns o w c : forall key, pw_dnsCache (cf_pending (done_writing (restorePendingLocked o w c))) !! key =
  match pw_dnsCache (cf_pending c) !! key with Some v => Some v | None => pw_dnsCache w !! key end.
Proof.
  intros key. pose proof (map_order_perm (oc_seed o) (pw_dnsCache w)) as Hperm.
  assert (Hrd : forall (l : list (saveCacheKey * unit)) p, pw_dnsCache (foldl (fun p e => restore_rdrc e.1 p) p l) = pw_dnsCache p).
  { induction l as [|e l IH]; intros p; [done|]. cbn. rewrite IH. unfold restore_rdrc. by destruct (pw_rdrc p !! e.1). }
  assert (Hfk : forall (l : list (Addr * string)) p, pw_dnsCache (foldl (fun p e => restore_fakeIP e p) p l) = pw_dnsCache p).
  { induction l as [|e l IH]; intros p; [done|]. cbn. rewrite IH. unfold restore_fakeIP. destruct (pw_fakeIPDomain p !! e.1); [done|]. by destruct (fakeIPAddress _ _ _). }
  transitivity (pw_dnsCache (foldl (fun p e => restore_dns e p) (cf_pending c) (map_order (oc_seed o) (pw_dnsCache w))) !! key).
  - unfold restorePendingLocked. set (p3 := foldl _ _ (map_order _ (pw_fakeIPDomain w))). transitivity (pw_dnsCache p3 !! key); [|unfold p3; by rewrite Hfk, Hrd].
    destruct (pw_fakeIPMetadata p3), (pw_fakeIPMetadata w); cbn; by destruct (_ && _ && _).
  - assert (Hnd : NoDup (map_order (oc_seed o) (pw_dnsCache w)).*1) by (rewrite Hperm; apply NoDup_fst_map_to_list).
    rewrite restore_dns_fold by done. rewrite (list_to_map_proper _ _ Hnd Hperm). by rewrite list_to_map_to_list.
Qed.

Lemma end_entry o c key : key_ok key -> keys_ok c -> keys_ok (Flush_end o c) /\ cf_writing (Flush_end o c) = None /\ entry_of key (Flush_end o c) = entry_of key c.
Proof.
  intros Hk (K1 & K2 & K3). unfold Flush_end. destruct (cf_writing c) as [w|] eqn:Hw; [|by split_and!; [split_and!; rewrite ?Hw| |]]. destruct (transaction o c w) as [db|] eqn:Htx.
  - split_and!; [by split_and!|done|]. unfold entry_of, looked_up. rewrite Hw. cbn. destruct (pw_dnsCache (cf_pending c) !! key); [done|].
    change (bucket (done_writing (with_DB db c)) bucketDNSCache) with (bucket c bucketDNSCache). rewrite (transaction_entry o c w db key) by (try done; intros; by eapply K2).
    by destruct (pw_dnsCache w !! key).
  - set (c' := done_writing (restorePendingLocked o w c)). assert (Hf : cf_cacheID c' = cf_cacheID c /\ cf_DB c' = cf_DB c /\ cf_writing c' = None).
    { unfold c', restorePendingLocked. set (p3 := foldl _ _ (map_order _ (pw_fakeIPDomain w))). destruct (pw_fakeIPMetadata p3), (pw_fakeIPMetadata w); cbn; by destruct (_ && _ && _). }
    destruct Hf as (Hid & Hdb & Hn). split_and!; [|done|].
    + split_and!; [|by rewrite Hn|by rewrite Hid]. intros k v. unfold c'. rewrite restored_dns. destruct (pw_dnsCache (cf_pending c) !! k) eqn:E; intros Hv; [by eapply K1|by eapply K2].
    + unfold entry_of, looked_up. rewrite Hn, Hw. unfold c'. rewrite restored_dns. fold c'. assert (Hb : bucket c' bucketDNSCache = bucket c bucketDNSCache) by (unfold bucket; by rewrite Hid).
      rewrite Hb, Hdb. destruct (pw_dnsCache (cf_pending c) !! key); [done|]. by destruct (pw_dnsCache w !! key).
Qed.

(** *** Cleaning up *)

Lemma delete_keys_get path l db db' q k : put_all (bolt_Delete path) l db = Ok db' ->
  bolt_Get q k db' = if decide (q = path /\ k ∈ l) then None else bolt_Get q k db.
Proof.
  revert db. induction l as [|k' l IH]; intros db; cbn.
  { intros [= <-]. rewrite decide_False; [done|]. by intros [_ ?%not_elem_of_nil]. }
  intros Hr. simpl_result. rewrite (IH _ Hr), (bolt_get_delete _ _ _ _ _ _ Heqr). destruct (decide ((q, k) = (path, k'))) as [[= -> ->]|Hne].
  - rewrite (decide_True _ _ (conj eq_refl (list_elem_of_here _ _))). by destruct (decide _).
  - destruct (decide (q = path /\ k ∈ l)) as [[-> Hk]|Hn]; [by rewrite decide_True by (split; [done|by right])|].
    rewrite decide_False; [done|]. intros [-> [->|Hk]%elem_of_cons]; [by apply Hne|by apply Hn].
Qed.

(** What has not expired stays, its bucket is not taken for empty, and nothing else is
    touched. *)
Lemma cleanup_transports_get expired path names empties db res : cleanup_transports expired path names empties db = Ok res ->
  (forall q k, (forall name, path ++ [name] <> q) -> bolt_Get q k res.2 = bolt_Get q k db) /\
  (forall t k v, bolt_Get (path ++ [t]) k db = Some v -> expired v = false -> t ∉ empties ->
     bolt_Get (path ++ [t]) k res.2 = Some v /\ t ∉ res.1).
Proof.
  revert empties db. induction names as [|name names IH]; intros empties db; cbn [cleanup_transports]; [by intros [= <-]|].
  intros Hr. simpl_result. set (keys := (filter _ _).*1) in *. pose proof (fun q k => delete_keys_get _ _ _ _ q k Heqr) as Hdel.
  destruct (IH _ _ Hr) as [IH1 IH2]. split.
  - intros q k Hq. rewrite IH1, Hdel by done. rewrite decide_False; [done|]. intros [-> _]. by eapply Hq.
  - intros t k v Hv He Hn. assert (Hv' : bolt_Get (path ++ [t]) k a = Some v).
    { rewrite Hdel, decide_False; [done|]. intros [E Hin]. unfold keys in Hin. apply list_elem_of_fmap in Hin as ([k' v'] & -> & [He' Hin]%list_elem_of_filter).
      apply bolt_get_each in Hin. cbn in He', Hv. rewrite E, Hin in Hv. congruence. }
    apply (IH2 t k v Hv' He). destruct (bolt_First (path ++ [name]) a) eqn:Hf; [done|]. intros [Hin| ->%list_elem_of_singleton]%elem_of_app; [done|].
    by rewrite (bolt_get_empty _ _ (path ++ [name]) k Hf) in Hv'.
Qed.

Lemma drop_transports_get path l db db' q k : put_all (fun name => bolt_DeleteBucket (path ++ [name])) l db = Ok db' ->
  (forall name, name ∈ l -> ~ path ++ [name] `prefix_of` q) -> bolt_Get q k db' = bolt_Get q k db.
Proof.
  revert db. induction l as [|name l IH]; intros db; cbn; [by intros [= <-]|]. intros Hr Hn. simpl_result.
  rewrite (IH _ Hr) by (intros; apply Hn; by right). rewrite (bolt_get_dropped _ _ _ _ _ Heqr), decide_False; [done|]. apply Hn. by left.
Qed.

Lemma cleanup_keeps expired path db db' t k v : cleanup_entries expired path db = Ok db' ->
  bolt_Get (path ++ [t]) k db = Some v -> expired v = false -> bolt_Get (path ++ [t]) k db' = Some v.
Proof.
  unfold cleanup_entries. destruct (bolt_HasBucket path db); cbn [negb]; [|by intros [= <-]]. intros Hr Hv He. simpl_result.
  destruct (proj2 (cleanup_transports_get _ _ _ _ _ _ Heqr) t k v Hv He) as [Hv' Ht]; [by intros ?%not_elem_of_nil|].
  rewrite (drop_transports_get _ _ _ _ _ _ Hr); [done|]. intros name Hin Hp. apply prefix_app_inv, prefix_cons_inv_1 in Hp. by subst.
Qed.

Lemma cleanup_other expired path db db' q k : cleanup_entries expired path db = Ok db' ->
  (forall name, ~ path ++ [name] `prefix_of` q) -> bolt_Get q k db' = bolt_Get q k db.
Proof.
  unfold cleanup_entries. destruct (bolt_HasBucket path db); cbn [negb]; [|by intros [= <-]]. intros Hr Hq. simpl_result.
  rewrite (drop_transports_get _ _ _ _ _ _ Hr) by done. apply (cleanup_transports_get _ _ _ _ _ _ Heqr). intros name <-. by eapply Hq.
Qed.

(** *** Operations *)

(** Operations on the entry of a key. *)
Definition touches key (op : CacheOp) : bool :=
  match op with
  | OpDNS t q ty _ _ | OpDNSDelete _ _ t q ty _ => bool_decide (mkSaveCacheKey t q ty = key)
  | OpDNSClear _ _ | OpResetDB => true
  | _ => false
  end.

(** Operations that leave an entry where it is: cleaning up spares what has not expired. *)
Definition spares key (value : list Z) (op : CacheOp) : bool :=
  negb (touches key op) &&
  match op with
  | OpDNSCleanup _ disableExpire optimisticTimeout now => negb (expired_response disableExpire optimisticTimeout now value)
  | _ => true
  end.

(** Types of questions have 16 bits. *)
Definition op_ok (op : CacheOp) : Prop := match op with OpDNS _ _ ty _ _ | OpDNSDelete _ _ _ _ ty _ => in_width 16 ty | _ => True end.

Lemma delete_buckets_keeps c paths key : (forall path, path ∈ paths -> ~ path `prefix_of` bucket c bucketDNSCache ++ [ck_TransportName key]) ->
  keeps_entry (bucket c bucketDNSCache) key (delete_buckets paths).
Proof.
  induction paths as [|path paths IH]; intros Hp db db'; cbn; [by intros [= <-]|]. intros Hr. simpl_result. rewrite (IH ltac:(set_solver) _ _ Hr).
  destruct (bolt_HasBucket path db); [|by injection Heqr as <-]. unfold getCacheEntry. rewrite (bolt_get_dropped _ _ _ _ _ Heqr), decide_False; [done|]. apply Hp. set_solver.
Qed.

Lemma batch_dns o fn c : (forall key, keeps_entry (bucket c bucketDNSCache) key fn) -> same_dns c (batch o fn c).2.
Proof.
  intros Hk. destruct (batch_pending o fn c) as (Hp & _ & _ & _ & Hw & Hid). split_and!; [done|done|by rewrite Hp|]. intros key. unfold batch. destruct (fn (cf_DB c)) eqn:E; [|done].
  destruct (oc_commit o); [|done]. cbn. by eapply Hk.
Qed.

Lemma batch_keys_ok o fn c : keys_ok c -> keys_ok (batch o fn c).2.
Proof. unfold keys_ok. destruct (batch_pending o fn c) as (-> & _ & _ & _ & -> & ->). done. Qed.

Lemma fake_bucket_dns c name key : keys_ok c -> name ∈ ["fakeip_address"%string; "fakeip_domain4"%string; "fakeip_domain6"%string] ->
  ~ [name] `prefix_of` bucket c bucketDNSCache ++ [ck_TransportName key].
Proof.
  intros (_ & _ & K3) Hin [k E]. unfold bucket in E. destruct (cf_cacheID c) as [id|].
  - destruct (K3 id eq_refl) as [id' ->]. injection E as E _. rewrite <- E in Hin. set_solver.
  - injection E as E _. rewrite <- E in Hin. vm_compute in Hin. set_solver.
Qed.

Lemma rdrc_bucket_dns c key : ~ bucket c bucketRDRC `prefix_of` bucket c bucketDNSCache ++ [ck_TransportName key].
Proof. intros [k E]. unfold bucket in E. by destruct (cf_cacheID c). Qed.

Lemma Flush_entry o o' c key : key_ok key -> keys_ok c -> keys_ok (Flush o o' c) /\ entry_of key (Flush o o' c) = entry_of key c.
Proof.
  intros Hk Hc. destruct (end_entry o c key Hk Hc) as (H1' & Hn & E1). destruct (begin_entry false _ key H1' Hn) as [H2' E2]. destruct (end_entry o' _ key Hk H2') as (H3' & _ & E3).
  split; [done|]. unfold Flush. by rewrite E3, E2, E1.
Qed.

Lemma queueFakeIP_dns a d c : same_dns c (queueFakeIP a d c).
Proof. destruct (queueFakeIP_writes a d c) as (Hp & Hdb & Hw). split_and!; [|done|by rewrite Hp; destruct (CacheFile_FakeIPLoad a c)|by rewrite Hdb].
  unfold queueFakeIP, enqueueLocked. repeat case_match; done. Qed.

Lemma queueDNSCache_entry t q ty raw at_ c key : keys_ok c -> in_width 16 ty -> keys_ok (queueDNSCache t q ty raw at_ c) /\
  entry_of key (queueDNSCache t q ty raw at_ c) = if decide (mkSaveCacheKey t q ty = key) then Some (be_bytes 8 (wrap 64 at_) ++ raw) else entry_of key c.
Proof.
  intros Hc Hty. unfold queueDNSCache. set (k := mkSaveCacheKey t q ty). set (value := be_bytes 8 _ ++ raw). set (c1 := with_pending _ c).
  assert (Hc1 : keys_ok c1).
  { destruct Hc as (K1 & K2 & K3). split_and!; [|done|done]. cbn. intros k' v [[<- _]|[_ Hv]]%lookup_insert_Some; [done|by eapply K1]. }
  match goal with |- keys_ok (enqueueLocked ?b ?n c1) /\ _ => destruct (same_dns_entry c1 _ key (enqueue_dns b n c1) Hc1) as [Hok ->] end. split; [done|]. unfold entry_of, looked_up. cbn -[be_bytes].
  destruct (decide (k = key)) as [<-|Hne]; [by rewrite lookup_insert_eq|]. by rewrite lookup_insert_ne.
Qed.

Lemma DeleteDNSCache_entry o o' t q ty raw c key : key_ok key -> keys_ok c -> in_width 16 ty -> keys_ok (DeleteDNSCache o o' t q ty raw c) /\
  (mkSaveCacheKey t q ty <> key -> entry_of key (DeleteDNSCache o o' t q ty raw c) = entry_of key c).
Proof.
  intros Hk Hc Hty. destruct (end_entry o c key Hk Hc) as (Hc1 & Hn & E1). unfold DeleteDNSCache. set (c1 := Flush_end o c) in *. set (k := mkSaveCacheKey t q ty).
  set (fn := fun db => match getCacheEntry (bucket c1 bucketDNSCache) k db with Some content => _ | None => _ end).
  assert (Hfn : k <> key -> keeps_entry (bucket c1 bucketDNSCache) key fn).
  { intros Hne db db'. unfold fn. destruct (getCacheEntry _ _ db); [|by intros [= <-]]. destruct (_ && _); [|by intros [= <-]]. intros Hdel. unfold getCacheEntry.
    rewrite (bolt_get_delete _ _ _ _ _ _ Hdel), decide_False; [done|]. intros E. pose proof (f_equal fst E) as Ep. pose proof (f_equal snd E) as Ek. cbn [fst snd] in Ep, Ek.
    apply app_inv_head in Ep. injection Ep as Et. apply Hne. symmetry. by apply entry_key_inj. }
  assert (Hbatch : forall c2, cf_cacheID c2 = cf_cacheID c1 -> keys_ok c2 -> keys_ok (batch o' fn c2).2 /\ (k <> key -> entry_of key (batch o' fn c2).2 = entry_of key c2)).
  { intros c2 Hid Hc2. split; [by apply batch_keys_ok|]. intros Hne. destruct (batch_pending o' fn c2) as (Hp & _ & _ & _ & Hw & Hid'). unfold entry_of, looked_up. rewrite Hp, Hw.
    assert (Hb : bucket (batch o' fn c2).2 bucketDNSCache = bucket c1 bucketDNSCache) by (unfold bucket; by rewrite Hid', Hid).
    assert (Hb2 : bucket c2 bucketDNSCache = bucket c1 bucketDNSCache) by (unfold bucket; by rewrite Hid). rewrite Hb, Hb2.
    assert (Hg : getCacheEntry (bucket c1 bucketDNSCache) key (cf_DB (batch o' fn c2).2) = getCacheEntry (bucket c1 bucketDNSCache) key (cf_DB c2)); [|by rewrite Hg].
    unfold batch. destruct (fn (cf_DB c2)) eqn:E; [|done]. destruct (oc_commit o'); [|done]. by apply (Hfn Hne). }
  rewrite <- E1. destruct (pw_dnsCache (cf_pending c1) !! k) as [value|] eqn:E; [|by apply Hbatch]. destruct (_ && _); [|done]. set (c2 := with_pending _ c1).
  assert (Hc2 : keys_ok c2).
  { destruct Hc1 as (K1 & K2 & K3). split_and!; [|done|done]. cbn. intros k' v [_ Hv]%lookup_delete_Some. by eapply K1. }
  destruct (Hbatch c2 eq_refl Hc2) as [Hok He]. split; [done|]. intros Hne. rewrite (He Hne). unfold entry_of, looked_up. cbn. by rewrite lookup_delete_ne.
Qed.

Lemma reset_entry o o' c key : key_ok key -> keys_ok c -> keys_ok (CacheFile_FakeIPReset o o' c).2 /\ entry_of key (CacheFile_FakeIPReset o o' c).2 = entry_of key c.
Proof.
  intros Hk Hc. destruct (end_entry o c key Hk Hc) as (Hc1 & Hn & E1). unfold CacheFile_FakeIPReset. rewrite <- E1. set (c1 := Flush_end o c) in *.
  set (c2 := with_pending _ c1). assert (H12 : same_dns c1 c2) by (by split_and!). apply same_dns_entry; [|done]. eapply same_dns_trans; [exact H12|].
  apply batch_dns. intros key'. apply delete_buckets_keeps. destruct (same_dns_entry _ _ key H12 Hc1) as [Hc2 _].
  intros path [->|[->|[->|?%not_elem_of_nil]%elem_of_cons]%elem_of_cons]%elem_of_cons; [apply fake_bucket_dns; [done|set_solver]..|done].
Qed.

Lemma rdrc_clear_entry o o' c key : key_ok key -> keys_ok c -> keys_ok (clearRDRC o o' c) /\ entry_of key (clearRDRC o o' c) = entry_of key c.
Proof.
  intros Hk Hc. destruct (end_entry o c key Hk Hc) as (Hc1 & Hn & E1). unfold clearRDRC. rewrite <- E1. set (c1 := Flush_end o c) in *.
  set (c2 := with_pending _ c1). assert (H12 : same_dns c1 c2) by (by split_and!). apply same_dns_entry; [|done]. eapply same_dns_trans; [exact H12|].
  apply batch_dns. intros key'. apply delete_buckets_keeps. intros path ->%list_elem_of_singleton. apply (rdrc_bucket_dns c2).
Qed.

Lemma rdrc_cleanup_dns o now c : same_dns c (cleanupRDRC o now c).
Proof.
  apply batch_dns. intros key db db' Hr. apply (cleanup_other _ _ _ _ _ _ Hr). intros name [l E]. rewrite <- app_assoc in E. unfold bucket in E. by destruct (cf_cacheID c).
Qed.

Lemma dns_cleanup_entry o disableExpire optimisticTimeout now c key value : keys_ok c ->
  let c' := cleanupDNSCache o disableExpire optimisticTimeout now c in
  keys_ok c' /\ (entry_of key c = Some value -> expired_response disableExpire optimisticTimeout now value = false -> entry_of key c' = Some value).
Proof.
  intros Hc c'. split; [by apply batch_keys_ok|]. unfold c', cleanupDNSCache, entry_of, looked_up, bucket. set (fn := cleanup_entries _ _).
  destruct (batch_pending o fn c) as (-> & _ & _ & _ & -> & ->). destruct (match pw_dnsCache (cf_pending c) !! key with Some a => Some a | None => _ end); [done|].
  intros Hv He. unfold batch. destruct (fn (cf_DB c)) as [db|] eqn:Hfn; [|done]. destruct (oc_commit o); [|done]. cbn [fst snd with_DB cf_DB]. by eapply cleanup_keeps.
Qed.

Lemma op_entry op c key value : key_ok key -> keys_ok c -> op_ok op ->
  keys_ok (cache_op op c) /\ (spares key value op = true -> entry_of key c = Some value -> entry_of key (cache_op op c) = Some value).
Proof.
  intros Hk Hc Hop. unfold spares.
  assert (Hsame : forall c', same_dns c c' -> keys_ok c' /\ (negb (touches key op) && true = true -> entry_of key c = Some value -> entry_of key c' = Some value)).
  { intros c' Hs. destruct (same_dns_entry _ _ key Hs Hc) as [? ->]. done. }
  destruct op as [a d|o o' m|o o'|t q ty raw at_|o o' t q ty raw|o o'|t q ty|o o'|o de ot now|o now| | | |loop|o]; cbn [cache_op touches negb andb].
  - apply Hsame, queueFakeIP_dns.
  - unfold CacheFile_FakeIPSaveMetadata. set (c1 := enqueueLocked _ _ _). assert (Hs : same_dns c c1) by (eapply same_dns_trans; [|apply enqueue_dns]; by split_and!).
    destruct (same_dns_entry _ _ key Hs Hc) as [Hc1 <-]. by destruct (Flush_entry o o' c1 key Hk Hc1) as [? ->].
  - by destruct (reset_entry o o' c key Hk Hc) as [? ->].
  - destruct (queueDNSCache_entry t q ty raw at_ c key Hc Hop) as [Hok ->]. split; [done|]. rewrite andb_true_r. intros Hne%negb_true_iff%bool_decide_eq_false. by rewrite decide_False.
  - destruct (DeleteDNSCache_entry o o' t q ty raw c key Hk Hc Hop) as [Hok He]. split; [done|]. rewrite andb_true_r. intros Hne%negb_true_iff%bool_decide_eq_false. by rewrite He.
  - split; [|done]. destruct (end_entry o c key Hk Hc) as ((K1 & K2 & K3) & _). apply batch_keys_ok. split_and!; [intros k v; cbn; by rewrite lookup_empty|exact K2|exact K3].
  - unfold queueRDRC. destruct (pw_rdrc _ !! _); [done|]. apply Hsame. eapply same_dns_trans; [|apply enqueue_dns]. by split_and!.
  - by destruct (rdrc_clear_entry o o' c key Hk Hc) as [? ->].
  - destruct (dns_cleanup_entry o de ot now c key value Hc) as [? He]. split; [done|]. intros Hne%negb_true_iff Hv. by apply He.
  - apply Hsame, rdrc_cleanup_dns.
  - split; [by destruct Hc|done].
  - unfold timer_fires. destruct (cf_timer c); [|done]. apply Hsame. by split_and!.
  - unfold take_signal. destruct (cf_flushSignal c); [|done]. apply Hsame. by split_and!.
  - destruct (cf_writing c) eqn:Hw; [done|]. destruct (loop && _); [done|]. by destruct (begin_entry loop c key Hc Hw) as [? ->].
  - by destruct (end_entry o c key Hk Hc) as (? & _ & ->).
Qed.

Lemma run_entry ops c key value : key_ok key -> keys_ok c -> Forall op_ok ops ->
  keys_ok (cache_run ops c) /\ (Forall (fun op => spares key value op = true) ops -> entry_of key c = Some value -> entry_of key (cache_run ops c) = Some value).
Proof.
  intros Hk. revert c. induction ops as [|op ops IH]; intros c Hc Hops; [done|]. apply Forall_cons in Hops as [Hop Hops]. cbn. destruct (op_entry op c key value Hk Hc Hop) as [Hc1 He].
  destruct (IH _ Hc1 Hops) as [Hc2 He2]. split; [done|]. intros [Ht Hts]%Forall_cons Hv. by apply He2, He.
Qed.

(** The value of a saved response. *)
Lemma response_value at_ raw : - 2 ^ 63 <= at_ < 2 ^ 63 -> let value := be_bytes 8 (wrap 64 at_) ++ raw in
  drop 8 value = raw /\ int64 (be_value (take 8 value)) = at_ /\ (8 <= length value)%nat.
Proof.
  intros Hat. pose proof (length_be_bytes 8 (wrap 64 at_)) as Hl. cbn zeta. rewrite length_app, Hl. rewrite <- Hl at 1 3. rewrite drop_app_length, take_app_length. split_and!; [done| |lia].
  rewrite be_value_bytes. unfold wrap, int64. change (256 ^ Z.of_nat 8) with (2 ^ 64). rewrite Z.mod_mod by lia. destruct (Z.ltb_spec (at_ `mod` 2 ^ 64) (2 ^ 63)) as [Hlt|Hge].
  - destruct (decide (0 <= at_)); [by rewrite Z.mod_small by lia|]. rewrite <- (Z.mod_add at_ 1), Z.mul_1_l, Z.mod_small in Hlt by lia. lia.
  - destruct (decide (0 <= at_)); [rewrite Z.mod_small in Hge by lia; lia|]. rewrite <- (Z.mod_add at_ 1), Z.mul_1_l, Z.mod_small by lia. lia.
Qed.

(** Operations between which a response that expires at [at_] is kept: cleaning up that comes
    before the optimistic time after it has passed. *)
Definition keeps_response key (at_ : Z) (op : CacheOp) : Prop :=
  touches key op = false /\
  match op with
  | OpDNSCleanup _ disableExpire optimisticTimeout now => disableExpire = true \/ now <= at_ * second + optimisticTimeout
  | _ => True
  end.

Lemma keeps_response_spares key at_ raw op : - 2 ^ 63 <= at_ < 2 ^ 63 -> keeps_response key at_ op -> spares key (be_bytes 8 (wrap 64 at_) ++ raw) op = true.
Proof.
  intros Hat [Ht Hop]. unfold spares. rewrite Ht. destruct op as [| | | | | | | |o de ot now| | | | | |]; try done. cbn [negb andb].
  destruct (response_value at_ raw Hat) as (_ & Hv & Hl). unfold expired_response. rewrite Hv, (proj2 (Nat.ltb_ge _ _)) by done. cbn [orb].
  destruct Hop as [->|Hn]; [done|]. rewrite (proj2 (Z.ltb_ge _ _)) by done. by destruct de.
Qed.

Lemma LoadDNSCache_entry t q ty raw at_ c : - 2 ^ 63 <= at_ < 2 ^ 63 -> entry_of (mkSaveCacheKey t q ty) c = Some (be_bytes 8 (wrap 64 at_) ++ raw) ->
  LoadDNSCache t q ty c = Some (raw, at_).
Proof.
  intros Hat He. destruct (response_value at_ raw Hat) as (Hd & Ht & Hl). unfold LoadDNSCache, entry_of in *. destruct (looked_up _ c) as [value|].
  - apply (inj Some) in He. subst value. by rewrite Hd, Ht.
  - rewrite He. rewrite (proj2 (Nat.ltb_ge _ _)) by done. by rewrite Hd, Ht.
Qed.
End dns.
