(* ===== verification/FakeIPOk.v ===== *)
(** * How fake addresses are handed out

    The addresses of a range form a cycle, the position is saved ahead, and a storage that
    keeps its promises keeps domains and addresses apart. *)

From stdpp Require Import base gmap strings list.
From Stdlib Require Import ZArith Lia.
From S2P Require Import Prelude Net Codec Metadata DnsRecords FakeIP CacheFile CacheFileOk CacheFileRun.

Open Scope Z_scope.

(** ** The last address of a range *)

Lemma lor_shift_ones n : 0 <= n -> Z.lor (Z.shiftl 1 n) (Z.ones n) = Z.ones (n + 1).
Proof.
  intros Hn. apply Z.bits_inj'. intros i Hi. rewrite Z.lor_spec, Z.shiftl_spec, !Z.testbit_ones_nonneg by lia. destruct (Z.ltb_spec i n), (Z.ltb_spec i (n + 1)); try lia; try (by rewrite orb_true_r).
  - assert (i = n) as -> by lia. by rewrite Z.sub_diag.
  - rewrite Z.testbit_odd, Z.shiftr_div_pow2 by lia. rewrite Z.div_small; [done|]. split; [lia|]. apply Z.pow_gt_1; lia.
Qed.

Lemma set_bits_ones n i raw : i = 128 - Z.of_nat n -> set_bits n i raw = Z.lor raw (Z.ones (Z.of_nat n)).
Proof.
  revert i raw. induction n as [|n IH]; intros i raw Hi; cbn [set_bits]; [by rewrite Z.lor_0_r|]. rewrite IH by lia. rewrite <- Z.lor_assoc. f_equal.
  replace (127 - i) with (Z.of_nat n) by lia. rewrite lor_shift_ones by lia. f_equal. lia.
Qed.

Lemma lor_ones v k : 0 <= k -> Z.lor v (Z.ones k) = v / 2 ^ k * 2 ^ k + (2 ^ k - 1).
Proof.
  intros Hk. assert (E : Z.lor v (Z.ones k) = Z.lor (Z.ldiff v (Z.ones k)) (Z.ones k)).
  { apply Z.bits_inj'. intros i Hi. rewrite !Z.lor_spec, Z.ldiff_spec. by destruct (Z.testbit v i), (Z.testbit (Z.ones k) i). }
  rewrite E.
  assert (Hdisj : Z.land (Z.ldiff v (Z.ones k)) (Z.ones k) = 0).
  { apply Z.bits_inj'. intros i Hi. rewrite Z.land_spec, Z.ldiff_spec, Z.bits_0. by destruct (Z.testbit v i), (Z.testbit (Z.ones k) i). }
  rewrite <- Z.lxor_lor by done. rewrite <- Z.add_nocarry_lxor by done. rewrite Z.ldiff_ones_r, Z.shiftl_mul_pow2, Z.shiftr_div_pow2, Z.ones_equiv by lia. lia.
Qed.

(** The width of a family, and its addresses by value. *)
Definition width (f : bool) : Z := if f then 128 else 32.
Definition addr_of (f : bool) (v : Z) : Addr := if f then Addr6 v "" else Addr4 v.

Lemma addr_of_family f v : addr_Is6 (addr_of f v) = f.
Proof. by destruct f. Qed.

Lemma addr_of_proper f v : proper (addr_of f v) <-> 0 <= v < 2 ^ width f.
Proof. destruct f; cbn; unfold in_width; [|done]. split; [by intros [? _]|done]. Qed.

Lemma addr_of_inj f v v' : addr_of f v = addr_of f v' -> v = v'.
Proof. by destruct f; intros [= ->]. Qed.

Lemma proper_addr_of a : proper a -> a = addr_of (addr_Is6 a) (addr_value a) /\ 0 <= addr_value a < 2 ^ width (addr_Is6 a).
Proof. destruct a as [|v|v z]; cbn; unfold in_width; [done|done|]. by intros [? ->]. Qed.

(** A range of a family: the first address is that of the prefix, whether or not its other
    bits are zero. *)
Section range.
Context (f : bool) (r : Prefix) (base : Z).

(** The last address. *)
Definition last_value : Z := base / 2 ^ (width f - prefix_bits r) * 2 ^ (width f - prefix_bits r) + (2 ^ (width f - prefix_bits r) - 1).

(** There is an address between the first two and the last. *)
Definition roomy : Prop := prefix_addr r = addr_of f base /\ 0 <= base < 2 ^ width f /\ 0 <= prefix_bits r <= width f /\ base + 2 < last_value.

Hypothesis Hr : roomy.

Lemma host_bits : 0 <= width f - prefix_bits r <= width f /\ 0 < 2 ^ (width f - prefix_bits r).
Proof. destruct Hr as (_ & _ & Hb & _). split; [lia|]. apply Z.pow_pos_nonneg; lia. Qed.

Lemma last_bounds : base <= last_value < 2 ^ width f.
Proof.
  destruct host_bits as [Hk Hpos]. destruct Hr as (_ & Hbase & Hb & _). unfold last_value. set (k := width f - prefix_bits r) in *.
  pose proof (Z.div_mod base (2 ^ k) ltac:(lia)). pose proof (Z.mod_pos_bound base (2 ^ k) Hpos). split; [lia|].
  assert (Hw : 2 ^ width f = 2 ^ (prefix_bits r) * 2 ^ k) by (rewrite <- Z.pow_add_r by lia; f_equal; lia). rewrite Hw in *.
  assert (base / 2 ^ k < 2 ^ prefix_bits r) by (apply Z.div_lt_upper_bound; lia). nia.
Qed.

Lemma broadcast_last : broadcastAddress r = addr_of f last_value.
Proof.
  destruct host_bits as [Hk Hpos]. pose proof last_bounds as Hlast. destruct Hr as (Ha & Hbase & Hb & _). unfold broadcastAddress. rewrite Ha. unfold last_value in *. set (k := width f - prefix_bits r) in *.
  destruct f; cbn [addr_of addr_Is4 addr_As16 width] in *.
  - rewrite set_bits_ones by lia. rewrite Z2Nat.id by lia. replace (128 - prefix_bits r) with k by lia. by rewrite lor_ones by lia.
  - rewrite set_bits_ones by lia. rewrite Z2Nat.id by lia. replace (128 - (prefix_bits r + 96)) with k by lia. rewrite lor_ones by lia. f_equal.
    assert (E : v4_mapped_base = 65535 * 2 ^ (32 - k) * 2 ^ k) by (unfold v4_mapped_base; rewrite <- Z.mul_assoc, <- Z.pow_add_r by lia; do 2 f_equal; lia).
    rewrite E, (Z.add_comm (65535 * 2 ^ (32 - k) * 2 ^ k) base), Z.div_add by lia. replace ((base / 2 ^ k + 65535 * 2 ^ (32 - k)) * 2 ^ k + (2 ^ k - 1)) with (base / 2 ^ k * 2 ^ k + (2 ^ k - 1) + 65535 * (2 ^ (32 - k) * 2 ^ k)) by ring.
    rewrite <- Z.pow_add_r by lia. replace (32 - k + k) with 32 by lia. rewrite Z.mod_add by lia. apply Z.mod_small. lia.
Qed.

Lemma range_contains v : base <= v <= last_value -> prefix_Contains r (addr_of f v) = true.
Proof.
  intros Hv. destruct host_bits as [Hk Hpos]. pose proof last_bounds as Hlast. destruct Hr as (Ha & Hbase & Hb & _). unfold prefix_Contains, prefix_IsValid. rewrite (proj2 (Z.leb_le 0 _)) by lia.
  rewrite Ha. assert (Hz : addr_hasZone (addr_of f v) = false) by (by destruct f). rewrite Hz. cbn [negb orb].
  assert (Hl : addr_BitLen (addr_of f base) = width f /\ addr_BitLen (addr_of f v) = width f /\ addr_value (addr_of f base) = base /\ addr_value (addr_of f v) = v) by (by destruct f).
  destruct Hl as (-> & -> & -> & ->). rewrite Z.eqb_refl. assert (Hw : (width f =? 0) = false) by (by destruct f). rewrite Hw. cbn [negb orb]. apply Z.eqb_eq.
  rewrite !Z.shiftr_div_pow2 by lia. unfold last_value in *. set (k := width f - prefix_bits r) in *.
  pose proof (Z.div_mod base (2 ^ k) ltac:(lia)). pose proof (Z.mod_pos_bound base (2 ^ k) Hpos).
  symmetry. apply (Z.div_unique v (2 ^ k) (base / 2 ^ k) (v - base / 2 ^ k * 2 ^ k)); [left|]; lia.
Qed.

(** ** The cycle *)

(** The number of addresses that are handed out, and their numbers. *)
Definition cycle : Z := last_value - base - 2.
Definition position (v : Z) : Z := (v - (base + 2)) `mod` cycle.

Lemma cycle_pos : 0 < cycle.
Proof. unfold cycle. destruct Hr as (_ & _ & _ & ?). lia. Qed.

(** Where the current address may be, and where it is once an address was handed out. *)
Definition started_at (v : Z) : Prop := base + 1 <= v < last_value.
Definition handed_out (v : Z) : Prop := base + 2 <= v < last_value.

Definition next_value (v : Z) : Z := if v + 1 =? last_value then base + 2 else v + 1.

Lemma next_handed_out v : started_at v -> handed_out (next_value v).
Proof. unfold started_at, handed_out, next_value. destruct Hr as (_ & _ & _ & ?). destruct (Z.eqb_spec (v + 1) last_value); lia. Qed.

Lemma addr_Next_of v : 0 <= v -> v + 1 < 2 ^ width f -> addr_Next (addr_of f v) = addr_of f (v + 1).
Proof. intros Hv Hlt. destruct f; cbn [addr_of addr_Next width] in *; by rewrite (proj2 (Z.eqb_neq _ _)) by lia. Qed.

Lemma nextAddress_value v : started_at v -> nextAddress r (addr_of f last_value) (addr_of f v) = addr_of f (next_value v).
Proof.
  intros Hv. pose proof last_bounds as Hlast. pose proof Hr as (Ha & Hbase & Hb & Hroom). unfold nextAddress, next_value, started_at in *. rewrite addr_Next_of by lia.
  destruct (Z.eqb_spec (v + 1) last_value) as [->|Hne].
  - rewrite bool_decide_true by done. cbn [orb]. rewrite Ha, addr_Next_of, addr_Next_of by lia. f_equal. lia.
  - rewrite bool_decide_false by (intros E%addr_of_inj; lia). rewrite range_contains by lia. done.
Qed.

Lemma next_position v : started_at v -> position (next_value v) = (position v + 1) `mod` cycle.
Proof.
  intros Hv. pose proof cycle_pos as Hc. unfold position, next_value, started_at in *. rewrite Z.add_mod_idemp_l by lia. destruct (Z.eqb_spec (v + 1) last_value) as [E|Hne].
  - rewrite Z.sub_diag. replace (v - (base + 2) + 1) with (1 * cycle) by (unfold cycle; lia). by rewrite Z.mod_mul, Zmod_0_l by lia.
  - f_equal. lia.
Qed.

Lemma position_inj v v' : handed_out v -> handed_out v' -> position v = position v' -> v = v'.
Proof.
  unfold position, handed_out. intros Hv Hv' E. assert (Hc : cycle = last_value - base - 2) by done. rewrite !Z.mod_small in E by lia. lia.
Qed.

(** After some addresses. *)
Lemma iter_position n v : started_at v -> (started_at (Nat.iter n next_value v)) /\ position (Nat.iter n next_value v) = (position v + Z.of_nat n) `mod` cycle.
Proof.
  intros Hv. pose proof cycle_pos as Hc. induction n as [|n [IH1 IH2]].
  - split; [done|]. change (Nat.iter 0 next_value v) with v. rewrite Z.add_0_r. unfold position. by rewrite Z.mod_mod by lia.
  - change (Nat.iter (S n) next_value v) with (next_value (Nat.iter n next_value v)). split; [apply next_handed_out in IH1; unfold started_at, handed_out in *; lia|].
    rewrite next_position, IH2, Z.add_mod_idemp_l by (done || lia). f_equal. lia.
Qed.
End range.

(** ** The saved position *)

Definition prefix_ok (p : Prefix) : Prop := p = zero_prefix \/ proper (prefix_addr p) /\ 0 <= prefix_bits p <= addr_BitLen (prefix_addr p).
Definition address_ok (a : Addr) : Prop := a = AddrInvalid \/ proper a.
Definition metadata_ok (m : FakeIPMetadata) : Prop :=
  prefix_ok (fm_Inet4Range m) /\ prefix_ok (fm_Inet6Range m) /\ address_ok (fm_Inet4Current m) /\ address_ok (fm_Inet6Current m).

Lemma be_value_small n v : 0 <= v < 256 ^ Z.of_nat n -> be_value (be_bytes n v) = v.
Proof. intros Hv. by rewrite be_value_bytes, Z.mod_small. Qed.

Lemma addr_length a : address_ok a -> (length (addr_MarshalBinary a) <= 16)%nat.
Proof.
  intros [->|Hp]; [cbn; lia|]. destruct a as [|v|v z]; [done|..]; cbn [addr_MarshalBinary]; rewrite ?length_app, ?length_be_bytes; [lia|]. destruct Hp as [_ ->]. cbn. lia.
Qed.

Lemma addr_Unmarshal_Marshal a : address_ok a -> addr_UnmarshalBinary (addr_MarshalBinary a) = Ok a.
Proof.
  intros [->|Hp]; [done|]. unfold addr_UnmarshalBinary. destruct a as [|v|v z]; [done|..]; cbn [addr_MarshalBinary].
  - rewrite length_be_bytes. cbn [Nat.eqb]. by rewrite be_value_small.
  - destruct Hp as [Hv ->]. change (bytes_of_string ""%string) with (@nil Z). rewrite app_nil_r, length_be_bytes. cbn [Nat.eqb]. by rewrite be_value_small.
Qed.

Lemma prefix_Unmarshal_Marshal p : prefix_ok p -> prefix_UnmarshalBinary (prefix_MarshalBinary p) = Ok p.
Proof.
  intros [->|[Hp Hb]]; [done|]. unfold prefix_UnmarshalBinary, prefix_MarshalBinary. rewrite last_snoc, length_app, Nat.add_sub, take_app_length.
  assert (Hz : addr_WithZone (prefix_addr p) "" = prefix_addr p) by (destruct (prefix_addr p); [done|done|]; by destruct Hp as [_ ->]). rewrite Hz, addr_Unmarshal_Marshal by (by right). cbn [result_bind].
  assert (Hbits : wrap 8 (prefix_bits p) = prefix_bits p) by (unfold wrap; apply Z.mod_small; destruct (prefix_addr p); cbn in Hb; lia). rewrite Hbits. unfold PrefixFrom. rewrite Hz.
  rewrite (proj2 (Z.ltb_ge _ _)), (proj2 (Z.ltb_ge _ _)), proper_valid by (done || lia). by destruct p.
Qed.

Lemma marshalled_length p : prefix_ok p -> (length (prefix_MarshalBinary p) <= 17)%nat.
Proof.
  intros Hp. unfold prefix_MarshalBinary. rewrite length_app. assert (Ha : address_ok (addr_WithZone (prefix_addr p) "")).
  { destruct Hp as [->|[Hp _]]; [by left|]. right. destruct (prefix_addr p); [done|done|]. by destruct Hp. }
  pose proof (addr_length _ Ha). cbn [length]. lia.
Qed.

Lemma element_roundtrip {A : Type} (unmarshal : list Z -> result A) data rest x : unmarshal data = Ok x -> (length data <= 17)%nat ->
  unmarshal_element unmarshal (be_bytes 2 (wrap 16 (Z.of_nat (length data))) ++ data ++ rest) = Ok (x, rest).
Proof.
  intros Hx Hl. assert (Hw : wrap 16 (Z.of_nat (length data)) = Z.of_nat (length data)) by (unfold wrap; apply Z.mod_small; lia). unfold unmarshal_element.
  rewrite Hw, ReadBE_be_bytes by lia. rewrite Nat2Z.id, ReadFull_app. cbn [result_bind fst snd]. by rewrite Hx.
Qed.

Lemma Unmarshal_Marshal m : metadata_ok m -> UnmarshalBinary (MarshalBinary m) = Ok m.
Proof.
  intros (H1 & H2 & H3 & H4). unfold UnmarshalBinary, MarshalBinary. cbn [flat_map]. rewrite app_nil_r, <- !app_assoc.
  rewrite (element_roundtrip _ _ _ _ (prefix_Unmarshal_Marshal _ H1) (marshalled_length _ H1)). cbn [result_bind fst snd].
  rewrite (element_roundtrip _ _ _ _ (prefix_Unmarshal_Marshal _ H2) (marshalled_length _ H2)). cbn [result_bind fst snd].
  rewrite (element_roundtrip _ _ _ _ (addr_Unmarshal_Marshal _ H3)) by (pose proof (addr_length _ H3); lia). cbn [result_bind fst snd].
  rewrite <- (app_nil_r (addr_MarshalBinary (fm_Inet6Current m))) at 2.
  rewrite (element_roundtrip _ _ _ _ (addr_Unmarshal_Marshal _ H4)) by (pose proof (addr_length _ H4); lia). by destruct m.
Qed.

Lemma Marshal_nonempty m : length (MarshalBinary m) <> 0%nat.
Proof. unfold MarshalBinary. cbn [flat_map]. rewrite !length_app, length_be_bytes. lia. Qed.

(** ** What the store expects of a storage *)

(** What happens to a storage apart from the store: work in the background, and that the
    program stops, at any point, and is started again. *)
Class StorageLife (T B : Type) : Type := { background : B -> T -> T; restarted : T -> T }.

(** [ok] holds of storages that are in order; the other arguments say that the writes of an
    operation end well. *)
Class FakeIPStorageLaws {T W B : Type} `{FakeIPStorage T W} `{StorageLife T B} (ok : T -> Prop) (save_well : W -> FakeIPMetadata -> T -> Prop)
  (background_well : B -> T -> Prop) : Prop := {
  storage_agree t : ok t -> agree (fun a => FakeIPLoad a t, fun d f => FakeIPLoadDomain d f t);
  storage_store a d t : ok t -> proper a -> d <> ""%string -> FakeIPLoadDomain d (addr_Is6 a) t = None ->
    ok (FakeIPStoreAsync a d t) /\ forall b, proper b -> FakeIPLoad b (FakeIPStoreAsync a d t) = if bool_decide (b = a) then Some d else FakeIPLoad b t;
  storage_save o m t : ok t -> save_well o m t -> ok (FakeIPSaveMetadata o m t).2 /\ forall b, proper b -> FakeIPLoad b (FakeIPSaveMetadata o m t).2 = FakeIPLoad b t;
  storage_background b t : ok t -> background_well b t -> ok (background b t) /\ forall x, proper x -> FakeIPLoad x (background b t) = FakeIPLoad x t;
  storage_reset o t : ok t -> ok (FakeIPReset o (restarted t)).2
}.

(** The metadata of a storage that writes are committed to is there when the program is
    started again. *)
Class DurableLaws {T W B : Type} `{FakeIPStorage T W} `{StorageLife T B} (ok : T -> Prop) (save_well : W -> FakeIPMetadata -> T -> Prop)
  (background_well : B -> T -> Prop) : Prop := {
  durable_store a d t : FakeIPMetadata_ (FakeIPStoreAsync a d t) = FakeIPMetadata_ t;
  durable_save o m t : ok t -> save_well o m t -> metadata_ok m -> FakeIPMetadata_ (FakeIPSaveMetadata o m t).2 = Some m;
  durable_background b t : ok t -> background_well b t -> FakeIPMetadata_ (background b t) = FakeIPMetadata_ t;
  durable_restart t : ok t -> ok (restarted t) /\ FakeIPMetadata_ (restarted t) = FakeIPMetadata_ t;
  durable_reset o t : ok t -> FakeIPMetadata_ t = None -> FakeIPMetadata_ (FakeIPReset o (restarted t)).2 = None
}.

(** *** Memory *)

Definition memory_ok (s : MemoryStorage) : Prop := agree (fun a => Memory_FakeIPLoad a s, fun d f => Memory_FakeIPLoadDomain d f s).

(** Nothing happens in the background, and nothing is left. *)
#[export] Instance memory_life : StorageLife MemoryStorage unit := {| background := fun _ s => s; restarted := fun _ => NewMemoryStorage |}.

Lemma NewMemoryStorage_ok : memory_ok NewMemoryStorage.
Proof. intros d f a. unfold Memory_FakeIPLoad, Memory_FakeIPLoadDomain. cbn. rewrite !lookup_empty. split; [by destruct f|]. by intros (_ & _ & ?). Qed.

#[export] Instance memory_laws : FakeIPStorageLaws memory_ok (fun _ _ _ => True) (fun _ _ => True).
Proof.
  split; cbn.
  - done.
  - intros a d t Ht Hp Hd Hnew. assert (Hload : forall b, Memory_FakeIPLoad b (Memory_FakeIPStore a d t) = if bool_decide (b = a) then Some d else Memory_FakeIPLoad b t).
    { intros b. unfold Memory_FakeIPLoad. cbn. destruct (bool_decide_reflect (b = a)) as [->|Hne]; by rewrite ?lookup_insert_eq, ?lookup_insert_ne. }
    split; [|by intros]. assert (Hname : forall x f, Memory_FakeIPLoadDomain x f (Memory_FakeIPStore a d t) =
      if bool_decide (x = d) && eqb f (addr_Is6 a) then Some a else if bool_decide (Memory_FakeIPLoad a t = Some x) && eqb f (addr_Is6 a) then None else Memory_FakeIPLoadDomain x f t).
    { intros x f. unfold Memory_FakeIPLoadDomain, Memory_FakeIPStore, Memory_FakeIPLoad. cbn. rewrite (proper_family a Hp).
      destruct f, (addr_Is6 a); cbn; rewrite ?andb_false_r, ?andb_true_r; try done;
        (destruct (bool_decide_reflect (x = d)) as [->|Hx]; [by rewrite lookup_insert_eq|rewrite lookup_insert_ne by done]);
        destruct (ms_addressCache t !! a) as [o|]; [destruct (bool_decide_reflect (Some o = Some x)) as [[= ->]|Ho]; [by rewrite lookup_delete_eq|by rewrite lookup_delete_ne by congruence]|by rewrite bool_decide_false|
        destruct (bool_decide_reflect (Some o = Some x)) as [[= ->]|Ho]; [by rewrite lookup_delete_eq|by rewrite lookup_delete_ne by congruence]|by rewrite bool_decide_false]. }
    intros x f b. cbn. rewrite Hname, Hload. destruct (bool_decide_reflect (x = d)) as [->|Hx]; cbn [andb].
    + destruct (eqb f (addr_Is6 a)) eqn:Hf.
      * apply eqb_prop in Hf. subst f. split; [intros [= <-]; by rewrite bool_decide_true|]. intros (Hpb & Hf & Hb). destruct (bool_decide_reflect (b = a)) as [->|]; [done|].
        by destruct (agree_none _ _ _ Ht Hnew b Hpb Hf).
      * rewrite andb_false_r, (Ht d f b). cbn. split; intros (Hpb & <- & Hb); (split_and!; [done|done|]); rewrite bool_decide_false in * by (intros ->; by rewrite eqb_reflx in Hf); done.
    + destruct (bool_decide_reflect (Memory_FakeIPLoad a t = Some x)) as [Ho|Ho]; cbn [andb].
      * destruct (eqb f (addr_Is6 a)) eqn:Hf.
        -- apply eqb_prop in Hf. subst f. split; [done|]. intros (Hpb & Hf & Hb). destruct (bool_decide_reflect (b = a)) as [->|Hne]; [congruence|].
           pose proof (proj2 (Ht x (addr_Is6 a) a)) as E1. pose proof (proj2 (Ht x (addr_Is6 a) b)) as E2. cbn in E1, E2. rewrite E1 in E2 by done. destruct Hne. by injection E2.
        -- rewrite (Ht x f b). cbn. split; intros (Hpb & <- & Hb); (split_and!; [done|done|]); rewrite bool_decide_false in * by (intros ->; by rewrite eqb_reflx in Hf); done.
      * rewrite (Ht x f b). cbn. split; intros (Hpb & <- & Hb); (split_and!; [done|done|]); [rewrite bool_decide_false; [done|]; by intros ->|]. destruct (bool_decide_reflect (b = a)) as [->|]; [congruence|done].
  - done.
  - done.
  - intros _ t _. apply NewMemoryStorage_ok.
Qed.

(** *** The cache file *)

Section cache_file.
Context {D : Type} `{BoltLaws D} `{MapOrder} (AddrFromIP : list Z -> Addr) `{!AddrFromIPLaws AddrFromIP}.
Implicit Types (c : CacheFile D) (p : pendingWrites) (o : WriteOutcome) (db : D).

(** The buckets of fake addresses. *)
Definition fake_path (q : list string) : Prop := q = bucketFakeIP \/ exists b, q = domain_bucket b.

Lemma fake_path_length q : fake_path q -> length q = 1%nat.
Proof. by intros [->|[[] ->]]. Qed.

Definition keeps_fakes (fn : D -> result D) : Prop := forall db db', fn db = Ok db' -> forall q l, fake_path q -> bolt_Get q l db' = bolt_Get q l db.

Lemma put_all_keeps_fakes {A : Type} (put : A -> D -> result D) l : (forall x, keeps_fakes (put x)) -> keeps_fakes (put_all put l).
Proof. intros Hput. induction l as [|x l IH]; intros db db'; cbn; [by intros [= <-]|]. intros Hr q k Hq. simpl_result. by rewrite (IH _ _ Hr), (Hput _ _ _ Heqr). Qed.

Lemma entry_keeps_fakes c key e value : keeps_fakes (putCacheEntry (bucket c key) e value).
Proof. intros db db' Hput q l Hq%fake_path_length. rewrite (bolt_get_put _ _ _ _ _ _ _ Hput), decide_False; [done|]. intros [= -> _]. by eapply cache_path. Qed.

Lemma drop_keeps_fakes c key : key ∈ [bucketDNSCache; bucketRDRC] -> keeps_fakes (delete_buckets [bucket c key]).
Proof.
  intros Hkey db db' Hr q l Hq. cbn in Hr. destruct (bolt_HasBucket _ db); [|by injection Hr as <-]. simpl_result. rewrite (bolt_get_dropped _ _ _ _ _ Heqr), decide_False; [done|].
  intros Hpre. pose proof (prefix_length _ _ Hpre) as Hlen. rewrite (fake_path_length _ Hq) in Hlen. unfold bucket in *. destruct (cf_cacheID c); [cbn in Hlen; lia|]. destruct Hpre as [k E].
  destruct Hq as [->|[[] ->]]; injection E as E _; rewrite <- E in Hkey; vm_compute in Hkey; set_solver.
Qed.

Lemma delete_entry_keeps_fakes c t key (test : list Z -> bool) : keeps_fakes (fun db => match getCacheEntry (bucket c bucketDNSCache) key db with
  | Some content => if test content then bolt_Delete (bucket c bucketDNSCache ++ [t]) (entry_key key) db else Ok db | None => Ok db end).
Proof.
  intros db db'. destruct (getCacheEntry _ _ db); [|by intros [= <-]]. destruct (test _); [|by intros [= <-]]. intros Hdel q k Hq%fake_path_length.
  rewrite (bolt_get_delete _ _ _ _ _ _ Hdel), decide_False; [done|]. intros [= -> _]. by eapply cache_path.
Qed.

Lemma cleanup_keeps_fakes c key expired : keeps_fakes (cleanup_entries expired (bucket c key)).
Proof.
  intros db db' Hr q l Hq%fake_path_length. apply (cleanup_other _ _ _ _ _ _ Hr). intros name [k ->]. rewrite !length_app in Hq. unfold bucket in Hq.
  destruct (cf_cacheID c); cbn in Hq; lia.
Qed.

(** Changes that have nothing to do with fake addresses. *)
Definition alike c c' : Prop :=
  cf_writing c' = cf_writing c /\ same_fake (cf_pending c) (cf_pending c') /\ pw_fakeIPMetadata (cf_pending c') = pw_fakeIPMetadata (cf_pending c) /\
  forall q l, fake_path q -> bolt_Get q l (cf_DB c') = bolt_Get q l (cf_DB c).

Lemma alike_trans c c' c'' : alike c c' -> alike c' c'' -> alike c c''.
Proof.
  unfold alike, same_fake. intros (-> & (? & ? & ?) & ? & Hg) (-> & (? & ? & ?) & ? & Hg'). split_and!; try congruence. intros q l Hq. by rewrite Hg', Hg.
Qed.

Lemma alike_ok c c' : alike c c' -> cache_ok c -> cache_ok c' /\ same_view (cache_view AddrFromIP c') (cache_view AddrFromIP c).
Proof.
  intros (Hw & Hp & _ & Hg) [v0 Hc]. pose proof Hc as ((G1 & G2 & G3 & G4) & H0' & Hlw & Haw & Hlp & Hap). assert (Hc' : layers_ok c' v0).
  { unfold layers_ok, writing_of in *. rewrite Hw. split_and!; try done.
    - split_and!; [| |done|done]; intros; rewrite Hg; auto; [by left|right; by eexists].
    - by eapply same_fake_layer.
    - by rewrite <- (same_fake_over _ _ _ Hp). }
  split; [by exists v0|]. rewrite (cache_view_layers AddrFromIP _ _ Hc), (cache_view_layers AddrFromIP _ _ Hc'). unfold writing_of. rewrite Hw. by rewrite (same_fake_over _ _ _ Hp).
Qed.

Lemma batch_alike o fn c : keeps_fakes fn -> alike c (batch o fn c).2.
Proof.
  intros Hfn. unfold batch. destruct (fn (cf_DB c)) as [db|] eqn:E; [|by split_and!]. destruct (oc_commit o); [|by split_and!]. split_and!; [done|done|done|]. intros q l. by apply Hfn.
Qed.

Lemma enqueue_alike added n c : alike c (enqueueLocked added n c).
Proof. unfold enqueueLocked. destruct (added && _ && _), (_ <=? _); by split_and!. Qed.

(** *** Work in the background *)

(** Everything but what the store does, and the database is not found corrupted; a flush that
    it waits for or ends, ends well. *)
Definition background_well (op : CacheOp) c : Prop :=
  match op with
  | OpStore _ _ | OpSaveMetadata _ _ _ | OpReset _ _ | OpResetDB => False
  | OpDNSDelete o _ _ _ _ _ | OpDNSClear o _ | OpRDRCClear o _ | OpEnd o => ends_well o c
  | _ => True
  end.

(** What such an operation does to fake addresses: it may wait for a flush, and begin one. *)
Lemma background_cases op c : background_well op c ->
  (exists c1, (c1 = c \/ exists o, ends_well o c /\ c1 = Flush_end o c) /\ alike c1 (cache_op op c)) \/ (cf_writing c = None /\ exists loop, cache_op op c = Flush_begin loop c).
Proof.
  destruct op as [a d|o o' m|o o'|t q ty raw at_|o o' t q ty raw|o o'|t q ty|o o'|o de ot now|o now| | | |loop|o]; cbn [background_well cache_op]; intros Hw; try done.
  - left. exists c. split; [by left|]. eapply alike_trans; [|apply enqueue_alike]. by split_and!.
  - left. exists (Flush_end o c). split; [right; by exists o|]. unfold DeleteDNSCache. set (c1 := Flush_end o c).
    destruct (pw_dnsCache (cf_pending c1) !! _); [destruct (_ && _); [|by split_and!]|]; (eapply alike_trans; [|apply batch_alike, (delete_entry_keeps_fakes c1 t)]); by split_and!.
  - left. exists (Flush_end o c). split; [right; by exists o|]. unfold ClearDNSCache. set (c1 := Flush_end o c). set (c2 := with_pending _ c1).
    apply (alike_trans _ c2); [by split_and!|]. apply batch_alike, (drop_keeps_fakes c1). by left.
  - left. exists c. split; [by left|]. unfold queueRDRC. destruct (pw_rdrc _ !! _); [by split_and!|]. eapply alike_trans; [|apply enqueue_alike]. by split_and!.
  - left. exists (Flush_end o c). split; [right; by exists o|]. unfold clearRDRC. set (c1 := Flush_end o c). set (c2 := with_pending _ c1).
    apply (alike_trans _ c2); [by split_and!|]. apply batch_alike, (drop_keeps_fakes c1). right. by left.
  - left. exists c. split; [by left|]. apply batch_alike, cleanup_keeps_fakes.
  - left. exists c. split; [by left|]. apply batch_alike, cleanup_keeps_fakes.
  - left. exists c. split; [by left|]. unfold timer_fires. destruct (cf_timer c); by split_and!.
  - left. exists c. split; [by left|]. unfold take_signal. destruct (cf_flushSignal c); by split_and!.
  - destruct (cf_writing c) eqn:Hwr; [left; exists c; split; [by left|by split_and!]|]. destruct (loop && _); [left; exists c; split; [by left|by split_and!]|]. right. split; [done|]. by exists loop.
  - left. exists (Flush_end o c). split; [right; by exists o|by split_and!].
Qed.

Lemma background_ok op c : cache_ok c -> background_well op c -> cache_ok (cache_op op c) /\ same_view (cache_view AddrFromIP (cache_op op c)) (cache_view AddrFromIP c).
Proof.
  intros Hc [(c1 & Hc1 & Ha)|(Hw & loop & ->)]%background_cases; [|by apply (Flush_begin_ok AddrFromIP)]. assert (H1' : cache_ok c1 /\ same_view (cache_view AddrFromIP c1) (cache_view AddrFromIP c)).
  { destruct Hc1 as [->|(o & Hwell & ->)]; [done|]. by destruct (Flush_end_ok AddrFromIP o c Hc Hwell) as (? & _ & ?). }
  destruct H1' as [Hok Hs]. destruct (alike_ok _ _ Ha Hok) as [Hok' Hs']. split; [done|]. by rewrite Hs'.
Qed.

(** The program is stopped and started again: what is in the database is left. *)
Definition reopened c : CacheFile D :=
  mkCacheFile (cf_cacheID c) (cf_rdrcTimeout c) (cf_bufferSize c) (cf_flushInterval c) (cf_DB c) newPendingWrites None false false false.

#[export] Instance cache_file_life : StorageLife (CacheFile D) CacheOp := {| background := cache_op; restarted := reopened |}.

Lemma reopened_ok c : cache_ok c -> cache_ok (reopened c).
Proof.
  intros [v0 (Hh & H0' & _)]. exists v0. unfold layers_ok, writing_of. cbn. split_and!; [done|done|apply layer_new|by rewrite over_new|apply layer_new|by rewrite !over_new].
Qed.

Lemma reset_reopened (o : WriteOutcome * WriteOutcome) c : cache_ok c -> cache_ok (CacheFile_FakeIPReset o.1 o.2 (reopened c)).2.
Proof.
  intros Hc. destruct (CacheFile_FakeIPReset o.1 o.2 (reopened c)) as [r c'] eqn:E. destruct (FakeIPReset_ok AddrFromIP _ _ _ _ _ (reopened_ok c Hc) I E) as [Hok _]. done.
Qed.

(** *** The promises *)

Definition with_metadata (m : FakeIPMetadata) c : CacheFile D :=
  enqueueLocked (match pw_fakeIPMetadata (cf_pending c) with None => true | Some _ => false end) 0 (with_pending (with_fakeIPMetadata (Some m) (cf_pending c)) c).

Definition save_well (o : WriteOutcome * WriteOutcome) (m : FakeIPMetadata) c : Prop := flushes_well o.1 o.2 (with_metadata m c).

Lemma with_metadata_fakes m c : same_fakes c (with_metadata m c).
Proof. eapply same_fakes_trans; [|apply enqueue_fakes]. by split_and!. Qed.

Lemma save_metadata_ok (o : WriteOutcome * WriteOutcome) m c : cache_ok c -> save_well o m c ->
  cache_ok (CacheFile_FakeIPSaveMetadata o.1 o.2 m c) /\ same_view (cache_view AddrFromIP (CacheFile_FakeIPSaveMetadata o.1 o.2 m c)) (cache_view AddrFromIP c).
Proof.
  intros Hc Hw. destruct (same_fakes_view AddrFromIP _ _ (with_metadata_fakes m c) Hc) as [Hc1 Hs1]. destruct (Flush_ok AddrFromIP _ _ _ Hc1 Hw) as (Hc2 & _ & Hs2). split; [done|]. by rewrite Hs2.
Qed.

#[export] Instance cache_file_laws : @FakeIPStorageLaws _ _ _ (cache_file_storage AddrFromIP) _ cache_ok save_well background_well.
Proof.
  split; cbn.
  - apply cache_view_agree. exact _.
  - intros. by apply (queueFakeIP_ok AddrFromIP).
  - intros o m c Hc Hw. destruct (save_metadata_ok o m c Hc Hw) as [? [Hs _]]. done.
  - intros b c Hc Hw. destruct (background_ok b c Hc Hw) as [? [Hs _]]. done.
  - intros o c Hc. by eapply reset_reopened.
Qed.

(** *** What is on disk *)

(** Nothing of the metadata waits to be written. *)
Definition no_metadata c : Prop := pw_fakeIPMetadata (cf_pending c) = None /\ pw_fakeIPMetadata (writing_of c) = None.

Definition durable_ok c : Prop := cache_ok c /\ writes_ok c /\ no_metadata c.

(** The metadata is committed. *)
Definition commits (o : WriteOutcome * WriteOutcome) (m : FakeIPMetadata) c : Prop :=
  let c1 := Flush_begin false (Flush_end o.1 (with_metadata m c)) in
  ends_well o.1 (with_metadata m c) /\ match cf_writing c1 with Some w => is_Some (transaction o.2 c1 w) | None => False end.

Lemma commits_well (o : WriteOutcome * WriteOutcome) m c : commits o m c -> save_well o m c.
Proof. intros [H1' H2']. split; [done|]. unfold ends_well. destruct (cf_writing _); [by left|done]. Qed.

Lemma putFakeIP_metadata a d db db' : putFakeIP a d db = Ok db' -> bolt_Get bucketFakeIP keyMetadata db' = bolt_Get bucketFakeIP keyMetadata db.
Proof.
  unfold putFakeIP. intros Hr. simpl_result. rewrite (bolt_get_put _ _ _ _ _ _ _ Hr), decide_False by (intros [= E _]; by eapply bucket_domain).
  transitivity (bolt_Get bucketFakeIP keyMetadata a0); [|rewrite (bolt_get_put _ _ _ _ _ _ _ Heqr), decide_False; [done|]; intros [= E]; by eapply AsSlice_metadata].
  destruct (bolt_Get bucketFakeIP (addr_AsSlice a) db); [|by injection Heqr0 as <-]. destruct (bool_decide _); [|by injection Heqr0 as <-].
  rewrite (bolt_get_delete _ _ _ _ _ _ Heqr0), decide_False; [done|]. intros [= E _]. by eapply bucket_domain.
Qed.

Lemma transaction_metadata o c w db : transaction o c w = Some db ->
  bolt_Get bucketFakeIP keyMetadata db = match pw_fakeIPMetadata w with Some m => Some (MarshalBinary m) | None => bolt_Get bucketFakeIP keyMetadata (cf_DB c) end.
Proof.
  intros Htx. unfold transaction in Htx. destruct (writePending o c w (cf_DB c)) as [db4|] eqn:Hwr; [|done]. destruct (oc_commit o); [|done]. injection Htx as ->.
  unfold writePending in Hwr. simpl_result. assert (E : bolt_Get bucketFakeIP keyMetadata a1 = bolt_Get bucketFakeIP keyMetadata (cf_DB c)).
  { transitivity (bolt_Get bucketFakeIP keyMetadata a0).
    - clear -Heqr1 H0. revert a0 Heqr1. induction (map_order (oc_seed o) (pw_fakeIPDomain w)) as [|e l IH]; intros db Hput; cbn in Hput; [by injection Hput as ->|]. simpl_result.
      rewrite (IH _ Hput). by eapply putFakeIP_metadata.
    - rewrite (put_all_keeps_fakes _ _ (fun e => entry_keeps_fakes c bucketRDRC e.1 _) _ _ Heqr0) by (by left).
      apply (put_all_keeps_fakes _ _ (fun e => entry_keeps_fakes c bucketDNSCache e.1 e.2) _ _ Heqr). by left. }
  destruct (pw_fakeIPMetadata w); [|by injection Hwr as <-]. unfold putFakeIPMetadata in Hwr. by rewrite (bolt_get_put _ _ _ _ _ _ _ Hwr), decide_True.
Qed.

(** The metadata as the store reads it. *)
Lemma metadata_alike c c' : bolt_Get bucketFakeIP keyMetadata (cf_DB c') = bolt_Get bucketFakeIP keyMetadata (cf_DB c) -> CacheFile_FakeIPMetadata c' = CacheFile_FakeIPMetadata c.
Proof. unfold CacheFile_FakeIPMetadata. by intros ->. Qed.

Lemma metadata_stored m c : metadata_ok m -> bolt_Get bucketFakeIP keyMetadata (cf_DB c) = Some (MarshalBinary m) -> CacheFile_FakeIPMetadata c = Some m.
Proof.
  intros Hm E. unfold CacheFile_FakeIPMetadata. rewrite E, (Unmarshal_Marshal m Hm), (proj2 (Nat.eqb_neq _ _)); [done|]. apply Marshal_nonempty.
Qed.

Lemma restored_metadata o w c : pw_fakeIPMetadata (cf_pending (restorePendingLocked o w c)) =
  match pw_fakeIPMetadata (cf_pending c) with Some m => Some m | None => pw_fakeIPMetadata w end.
Proof.
  unfold restorePendingLocked. set (p3 := foldl _ _ (map_order _ (pw_fakeIPDomain w))). assert (E : pw_fakeIPMetadata p3 = pw_fakeIPMetadata (cf_pending c)).
  { unfold p3. set (M := fun p => pw_fakeIPMetadata p = pw_fakeIPMetadata (cf_pending c)). change (M (foldl (fun p e => restore_fakeIP e p) (foldl (fun p (e : saveCacheKey * unit) => restore_rdrc e.1 p)
      (foldl (fun p e => restore_dns e p) (cf_pending c) (map_order (oc_seed o) (pw_dnsCache w))) (map_order (oc_seed o) (pw_rdrc w))) (map_order (oc_seed o) (pw_fakeIPDomain w)))).
    apply foldl_keeps; [|apply foldl_keeps; [|apply foldl_keeps; [|done]]]; unfold M; intros p e <-; unfold restore_fakeIP, restore_rdrc, restore_dns; by repeat case_match. }
  rewrite <- E. destruct (pw_fakeIPMetadata p3) eqn:E3, (pw_fakeIPMetadata w); cbn; destruct (_ && _ && _); by cbn.
Qed.

Lemma Flush_end_metadata o c : no_metadata c -> no_metadata (Flush_end o c) /\ bolt_Get bucketFakeIP keyMetadata (cf_DB (Flush_end o c)) = bolt_Get bucketFakeIP keyMetadata (cf_DB c).
Proof.
  intros [Hp Hw]. unfold Flush_end, no_metadata, writing_of in *. destruct (cf_writing c) as [w|] eqn:E; [|by rewrite E]. cbn in Hw. destruct (transaction o c w) as [db|] eqn:Htx.
  - split; [done|]. cbn [done_writing with_DB cf_DB]. by rewrite (transaction_metadata _ _ _ _ Htx), Hw.
  - split; [|unfold restorePendingLocked; by destruct (_ && _ && _)]. split; [|done]. change (pw_fakeIPMetadata (cf_pending (done_writing ?x))) with (pw_fakeIPMetadata (cf_pending x)).
    by rewrite restored_metadata, Hp.
Qed.

Lemma alike_metadata c c' : alike c c' -> no_metadata c -> no_metadata c' /\ bolt_Get bucketFakeIP keyMetadata (cf_DB c') = bolt_Get bucketFakeIP keyMetadata (cf_DB c).
Proof. intros (Hw & _ & Hm & Hg) [Hp Hwr]. split; [|apply Hg; by left]. split; [by rewrite Hm|]. unfold writing_of in *. by rewrite Hw. Qed.

Lemma background_durable op c : durable_ok c -> background_well op c ->
  no_metadata (cache_op op c) /\ bolt_Get bucketFakeIP keyMetadata (cf_DB (cache_op op c)) = bolt_Get bucketFakeIP keyMetadata (cf_DB c).
Proof.
  intros (_ & _ & Hn) [(c1 & Hc1 & Ha)|(Hw & loop & ->)]%background_cases.
  - destruct Hc1 as [->|(o & _ & ->)]; [by apply alike_metadata|]. destruct (Flush_end_metadata o c Hn) as [Hn1 <-]. by apply alike_metadata.
  - unfold Flush_begin. destruct (_ =? 0); [done|]. split; [|done]. destruct Hn as [Hp _]. by split.
Qed.

Lemma commit_durable (o : WriteOutcome * WriteOutcome) m c : durable_ok c -> commits o m c ->
  durable_ok (CacheFile_FakeIPSaveMetadata o.1 o.2 m c) /\ bolt_Get bucketFakeIP keyMetadata (cf_DB (CacheFile_FakeIPSaveMetadata o.1 o.2 m c)) = Some (MarshalBinary m).
Proof.
  intros (Hc & Hr & Hp & Hw) Hcm. pose proof (save_metadata_run_ok o.1 o.2 m c Hr) as Hr'. destruct (save_metadata_ok o m c Hc (commits_well _ _ _ Hcm)) as [Hc' _]. destruct Hcm as [_ Htx].
  change (CacheFile_FakeIPSaveMetadata o.1 o.2 m c) with (Flush_end o.2 (Flush_begin false (Flush_end o.1 (with_metadata m c)))) in *. set (c0 := with_metadata m c) in *. set (c1 := Flush_end o.1 c0) in *.
  assert (Hm1 : pw_fakeIPMetadata (cf_pending c1) = Some m).
  { assert (Hm0 : pw_fakeIPMetadata (cf_pending c0) = Some m) by (unfold c0, with_metadata, enqueueLocked; by repeat case_match).
    unfold c1, Flush_end. destruct (cf_writing c0) as [w|]; [|done]. destruct (transaction o.1 c0 w); [done|]. change (cf_pending (done_writing ?x)) with (cf_pending x). by rewrite restored_metadata, Hm0. }
  assert (Hn1 : cf_writing c1 = None) by (unfold c1, Flush_end; destruct (cf_writing c0) as [w|] eqn:E; [|done]; by destruct (transaction o.1 c0 w)).
  unfold Flush_begin in *. destruct (_ =? 0); [cbn in Htx; by rewrite Hn1 in Htx|]. cbn [cf_writing] in Htx. set (c2 := mkCacheFile _ _ _ _ _ _ _ _ _ _) in *. destruct Htx as [db Htx].
  assert (E2 : Flush_end o.2 c2 = done_writing (with_DB db c2)) by (unfold Flush_end; cbn [c2 cf_writing]; by rewrite Htx). rewrite E2 in *.
  split; [split_and!; done|]. cbn [done_writing with_DB cf_DB]. by rewrite (transaction_metadata _ _ _ _ Htx), Hm1.
Qed.

#[export] Instance cache_file_committed : @FakeIPStorageLaws _ _ _ (cache_file_storage AddrFromIP) _ durable_ok commits background_well.
Proof.
  split; cbn.
  - intros c [Hc _]. by apply cache_view_agree.
  - intros a d c (Hc & Hr & Hp & Hw) Ha Hd Hnew. destruct (queueFakeIP_ok AddrFromIP a d c Hc Ha Hd Hnew) as [Hc' Hl]. split; [|done]. split_and!; [done|by apply queueFakeIP_run_ok|].
    destruct (queueFakeIP_writes a d c) as (Hpw & _ & Hww). split; [rewrite Hpw; by destruct (CacheFile_FakeIPLoad a c)|]. unfold writing_of in *. by rewrite Hww.
  - intros o m c Hc Hw. destruct (commit_durable o m c Hc Hw) as [Hok _]. split; [done|]. destruct (save_metadata_ok o m c (proj1 Hc) (commits_well _ _ _ Hw)) as [_ [Hs _]]. done.
  - intros b c Hc Hw. destruct (background_durable b c Hc Hw) as [Hn _]. destruct Hc as (Hc & Hr & _). destruct (background_ok b c Hc Hw) as [Hok [Hs _]].
    split; [|done]. split_and!; [done|by apply cache_op_run_ok|done].
  - intros o c (Hc & _ & _). split_and!; [by eapply reset_reopened|by apply reset_run_ok|]. unfold CacheFile_FakeIPReset. set (c2 := with_pending _ _).
    destruct (batch_pending o.2 (delete_buckets [bucketFakeIP; bucketFakeIPDomain4; bucketFakeIPDomain6]) c2) as (Hp & _ & _ & _ & Hw & _). unfold no_metadata, writing_of. by rewrite Hp, Hw.
Qed.

#[export] Instance cache_file_durable : @DurableLaws _ _ _ (cache_file_storage AddrFromIP) _ durable_ok commits background_well.
Proof.
  split; cbn.
  - intros a d c. apply metadata_alike. by destruct (queueFakeIP_writes a d c) as (_ & -> & _).
  - intros o m c Hc Hw Hm. apply metadata_stored; [done|]. by apply commit_durable.
  - intros b c Hc Hw. apply metadata_alike. by apply background_durable.
  - intros c (Hc & _ & _). split; [|done]. split_and!; [by apply reopened_ok|by split|done].
  - intros o c _ Hn. unfold CacheFile_FakeIPReset, batch. destruct (delete_buckets _ _) as [db|] eqn:Hdel; [|done]. destruct (oc_commit o.2); [|done].
    unfold CacheFile_FakeIPMetadata. cbn [snd with_DB cf_DB]. rewrite (delete_buckets_gone _ _ _ _ _ Hdel); [done|by left].
Qed.
End cache_file.
