(* ===== verification/FakeIPRun.v ===== *)
(** * The store of fake addresses over time

    Requests, work in the background and restarts as steps; where the store is in its ranges,
    and how far ahead of it the position is that was saved. *)

From stdpp Require Import base gmap strings list.
From Stdlib Require Import ZArith Lia.
From S2P Require Import Prelude Net Codec Metadata DnsRecords FakeIP CacheFile CacheFileOk CacheFileRun FakeIPOk.

Open Scope Z_scope.

(** ** The families of a store *)

Definition range_of (f : bool) (s : FakeIPStore) : Prefix := if f then fs_inet6Range s else fs_inet4Range s.
Definition last_of (f : bool) (s : FakeIPStore) : Addr := if f then fs_inet6Last s else fs_inet4Last s.
Definition current_of (f : bool) (s : FakeIPStore) : Addr := if f then fs_inet6Current s else fs_inet4Current s.
Definition saved_range (f : bool) (m : FakeIPMetadata) : Prefix := if f then fm_Inet6Range m else fm_Inet4Range m.
Definition saved_current (f : bool) (m : FakeIPMetadata) : Addr := if f then fm_Inet6Current m else fm_Inet4Current m.

(** Where a family is in its range, or that it has none. *)
Definition family_at (f : bool) (s : FakeIPStore) (base v : Z) : Prop :=
  roomy f (range_of f s) base /\ last_of f s = addr_of f (last_value f (range_of f s) base) /\ current_of f s = addr_of f v /\ started_at f (range_of f s) base v.

Definition family_off (f : bool) (s : FakeIPStore) : Prop := range_of f s = zero_prefix /\ current_of f s = AddrInvalid.

Definition store_ok (s : FakeIPStore) : Prop := (forall f, family_off f s \/ exists base v, family_at f s base v) /\ 0 <= fs_reservedCount s <= reservedAddressCount.

(** Ranges that a store may be made of. *)
Definition range_ok (f : bool) (r : Prefix) : Prop := r = zero_prefix \/ exists base, roomy f r base.

Lemma roomy_valid f r base : roomy f r base -> prefix_IsValid r = true.
Proof. intros (_ & _ & Hb & _). unfold prefix_IsValid. apply Z.leb_le. lia. Qed.

Lemma roomy_prefix_ok f r base : roomy f r base -> prefix_ok r.
Proof.
  intros (Ha & Hbase & Hb & _). right. rewrite Ha. split; [by apply addr_of_proper|]. by destruct f.
Qed.

Lemma family_range_ok f s : store_ok s -> range_ok f (range_of f s).
Proof. intros [Hs _]. destruct (Hs f) as [[? _]|(base & v & Hr & _)]; [by left|right; by exists base]. Qed.

Lemma NewStore_last f r4 r6 base : roomy f (if f then r6 else r4) base -> last_of f (NewStore r4 r6) = addr_of f (last_value f (if f then r6 else r4) base).
Proof. intros Hr. unfold NewStore, last_of. destruct f; cbn [fs_inet6Last fs_inet4Last]; rewrite (roomy_valid _ _ _ Hr); by apply broadcast_last. Qed.

(** The values of addresses, by iteration. *)
Definition iterated (f : bool) (s : FakeIPStore) (base : Z) (n : nat) (v : Z) : Z := Nat.iter n (next_value f (range_of f s) base) v.

Lemma iterated_started f s base v n : family_at f s base v -> started_at f (range_of f s) base (iterated f s base n v).
Proof. intros (Hr & _ & _ & Hv). by apply iter_position. Qed.

Lemma iterated_next f s base v n : iterated f s base n (next_value f (range_of f s) base v) = iterated f s base (S n) v.
Proof. unfold iterated. by rewrite Nat.iter_succ, Nat.iter_swap. Qed.

(** ** Steps of the store *)

(** The next address of a family is used. *)
Definition advance (f : bool) (s : FakeIPStore) : FakeIPStore :=
  if negb f
  then with_current (nextAddress (fs_inet4Range s) (fs_inet4Last s) (fs_inet4Current s)) (fs_inet6Current s) (fs_reservedCount s - 1) s
  else with_current (fs_inet4Current s) (nextAddress (fs_inet6Range s) (fs_inet6Last s) (fs_inet6Current s)) (fs_reservedCount s - 1) s.

Definition reserving (s : FakeIPStore) : FakeIPStore := with_current (fs_inet4Current s) (fs_inet6Current s) reservedAddressCount s.

Abbreviation reserved_ahead s := (reserve (Z.to_nat reservedAddressCount) s (metadata_of s)).

(** What does not change. *)
Definition same_family (f : bool) (s s' : FakeIPStore) : Prop := range_of f s' = range_of f s /\ last_of f s' = last_of f s /\ current_of f s' = current_of f s.

Lemma same_family_trans f s s' s'' : same_family f s s' -> same_family f s' s'' -> same_family f s s''.
Proof. unfold same_family. by intros (<- & <- & <-) (-> & -> & ->). Qed.

Lemma same_family_at f s s' base v : same_family f s s' -> family_at f s base v -> family_at f s' base v.
Proof. unfold family_at. by intros (-> & -> & ->). Qed.

Lemma advance_family f s base v : family_at f s base v ->
  current_of f (advance f s) = addr_of f (next_value f (range_of f s) base v) /\ family_at f (advance f s) base (next_value f (range_of f s) base v) /\ same_family (negb f) s (advance f s).
Proof.
  intros (Hr & Hl & Hc & Hv). assert (E : current_of f (advance f s) = addr_of f (next_value f (range_of f s) base v)).
  { destruct f; cbn in *; rewrite Hl, Hc; [apply (nextAddress_value true _ _ Hr v Hv)|apply (nextAddress_value false _ _ Hr v Hv)]. }
  assert (E' : range_of f (advance f s) = range_of f s /\ last_of f (advance f s) = last_of f s) by (by destruct f). destruct E' as [Er El].
  split_and!; [done| |by destruct f]. unfold family_at. rewrite Er, El. split_and!; [done|done|done|]. pose proof (next_handed_out f _ _ Hr v Hv). unfold started_at, handed_out in *. lia.
Qed.

Lemma advance_count f s : fs_reservedCount (advance f s) = fs_reservedCount s - 1.
Proof. by destruct f. Qed.

Lemma advance_store_ok f s base v : store_ok s -> family_at f s base v -> 1 <= fs_reservedCount s -> store_ok (advance f s).
Proof.
  intros [Hs Hc] Hf H1. destruct (advance_family f s base v Hf) as (_ & Hf' & Ho). split; [|rewrite advance_count; lia]. intros g. destruct (decide (g = f)) as [->|Hg]; [right; by eexists _, _|].
  assert (g = negb f) as -> by (by destruct f, g). destruct (Hs (negb f)) as [[Hr Hcur]|(b' & v' & Hat)]; [left; destruct Ho as (Er & _ & Ec); split; congruence|right]. exists b', v'. by eapply same_family_at.
Qed.

Lemma reserving_ok s : store_ok s -> store_ok (reserving s) /\ forall f, same_family f s (reserving s).
Proof. intros [Hs _]. split; [split; [exact Hs|]|]; [cbn; unfold reservedAddressCount; lia|by intros []]. Qed.

Lemma reserve_current f s base v n m : family_at f s base v -> forall v', saved_current f m = addr_of f v' -> started_at f (range_of f s) base v' ->
  saved_current f (reserve n s m) = addr_of f (iterated f s base n v').
Proof.
  intros (Hr & Hl & _ & _). revert m. induction n as [|n IH]; intros m v' Hm Hv; [done|]. cbn [reserve]. pose proof (next_handed_out f _ _ Hr v' Hv) as Hn.
  rewrite (IH _ (next_value f (range_of f s) base v')); [by rewrite iterated_next| |unfold started_at, handed_out in *; lia].
  assert (Hval : addr_IsValid (addr_of f v') = true) by (by destruct f). unfold saved_current in *. destruct f; cbn [fm_Inet6Current fm_Inet4Current] in *; rewrite Hm, Hval; cbn in Hl; rewrite Hl; apply (nextAddress_value _ _ _ Hr _ Hv).
Qed.

Lemma reserve_off f s n m : saved_current f m = AddrInvalid -> saved_current f (reserve n s m) = AddrInvalid.
Proof. revert m. induction n as [|n IH]; intros m Hm; [done|]. cbn [reserve]. apply IH. destruct f; cbn in *; by rewrite Hm. Qed.

Lemma reserve_range f s n m : saved_range f (reserve n s m) = saved_range f m.
Proof. revert m. induction n as [|n IH]; intros m; [done|]. cbn [reserve]. rewrite IH. by destruct f. Qed.

(** *** The saved position *)

(** What is saved is ahead of a family by some addresses. *)
Definition family_ahead (f : bool) (m : FakeIPMetadata) (s : FakeIPStore) (k : nat) : Prop :=
  family_off f s /\ saved_current f m = AddrInvalid \/ exists base v, family_at f s base v /\ saved_current f m = addr_of f (iterated f s base k v).

Definition ahead (m : FakeIPMetadata) (s : FakeIPStore) : Prop :=
  forall f, saved_range f m = range_of f s /\ exists k, fs_reservedCount s <= Z.of_nat k <= reservedAddressCount /\ family_ahead f m s k.

Lemma reserved_family_ahead f s : store_ok s -> family_ahead f (reserved_ahead s) s (Z.to_nat reservedAddressCount).
Proof.
  intros [Hs _]. destruct (Hs f) as [Hoff|(base & v & Hat)]; [left; split; [done|]; apply reserve_off; destruct Hoff; by destruct f|]. right. exists base, v. split; [done|].
  pose proof Hat as (_ & _ & Hc & Hv). apply (reserve_current f s base v); [done|by destruct f|done].
Qed.

Lemma reserved_ahead_ahead s : store_ok s -> ahead (reserved_ahead s) (reserving s) /\ ahead (reserved_ahead s) s.
Proof.
  intros Hs. destruct (reserving_ok s Hs) as [_ Hsame]. split; intros f; (split; [rewrite reserve_range; by destruct f|]); exists (Z.to_nat reservedAddressCount).
  - split; [cbn; unfold reservedAddressCount; lia|]. destruct (reserved_family_ahead f s Hs) as [[Hoff ?]|(base & v & Hat & Hm)]; [left; split; [destruct (Hsame f) as (E1 & _ & E2); unfold family_off; by rewrite E1, E2|done]|].
    right. exists base, v. split; [by eapply same_family_at|]. rewrite Hm. unfold iterated. rewrite (proj1 (Hsame f)). generalize (Z.to_nat reservedAddressCount). done.
  - split; [destruct Hs as [_ ?]; unfold reservedAddressCount in *; lia|]. by apply reserved_family_ahead.
Qed.

(** What is saved may be used by a store that is started. *)
Definition resumable (bound : Z) (m : FakeIPMetadata) (s : FakeIPStore) : Prop := forall f, saved_range f m = range_of f s /\ exists k, Z.of_nat k <= bound /\ family_ahead f m s k.

Lemma ahead_resumable m s : ahead m s -> resumable reservedAddressCount m s.
Proof. intros Hm f. destruct (Hm f) as (Hr & k & Hk & Hf). split; [done|]. exists k. split; [lia|done]. Qed.

Lemma metadata_of_resumable s : store_ok s -> resumable 0 (metadata_of s) s.
Proof.
  intros [Hs _] f. split; [by destruct f|]. exists 0%nat. split; [lia|].
  destruct (Hs f) as [[Hr Hcur]|(base & v & Hat)]; [left; split; [done|]; by destruct f|right]. exists base, v. split; [done|]. destruct Hat as (_ & _ & Hcur & _). by destruct f.
Qed.

Lemma resumable_metadata_ok bound m s : store_ok s -> resumable bound m s -> metadata_ok m.
Proof.
  intros Hs Hm. assert (Hf : forall f, prefix_ok (saved_range f m) /\ address_ok (saved_current f m)).
  { intros f. destruct (Hm f) as (-> & k & _ & Hk). split; [destruct (family_range_ok f s Hs) as [->|[base Hr]]; [by left|by eapply roomy_prefix_ok]|].
    destruct Hk as [[_ ->]|(base & v & Hat & ->)]; [by left|right]. apply addr_of_proper. pose proof (iterated_started f s base v k Hat) as Hst. destruct Hat as (Hr & _).
    pose proof (last_bounds f _ _ Hr). destruct Hr as (_ & ? & _). unfold started_at in Hst. lia. }
  destruct (Hf false), (Hf true). by split_and!.
Qed.

Lemma ahead_advance m f s base v : ahead m s -> family_at f s base v -> 1 <= fs_reservedCount s -> ahead m (advance f s).
Proof.
  intros Hm Hat H1 g. destruct (advance_family f s base v Hat) as (_ & Hat' & Ho). destruct (Hm g) as (Hr & k & Hk & Hg). rewrite advance_count. destruct (decide (g = f)) as [->|Hne].
  - split; [rewrite Hr; by destruct f|]. exists (k - 1)%nat. split; [lia|]. right. destruct Hg as [[[Hoff Hcur] _]|(b' & v' & Hat2 & Hs)].
    { destruct Hat as (_ & _ & Hc & _). rewrite Hcur in Hc. by destruct f. }
    assert (Hb : b' = base /\ v' = v).
    { destruct Hat as ((Ha & _) & _ & Hc & _), Hat2 as ((Ha2 & _) & _ & Hc2 & _). rewrite Ha in Ha2. rewrite Hc in Hc2. by apply addr_of_inj in Ha2, Hc2. }
    destruct Hb as [-> ->]. exists base, (next_value f (range_of f s) base v). split; [done|]. rewrite Hs. f_equal.
    assert (Er : range_of f (advance f s) = range_of f s) by (by destruct f). unfold iterated at 2. rewrite Er. fold (iterated f s base (k - 1) (next_value f (range_of f s) base v)). rewrite iterated_next. f_equal. lia.
  - assert (g = negb f) as -> by (by destruct f, g). pose proof Ho as (Er & _ & Ec). split; [congruence|]. exists k. split; [lia|]. destruct Hg as [[[Hoff Hcur] ?]|(b' & v' & Hat2 & Hs)].
    + left. split; [|done]. split; congruence.
    + right. exists b', v'. split; [by eapply same_family_at|]. unfold iterated. by rewrite Er.
Qed.

(** ** Runs *)

Section runs.
Context {T W B : Type} `{FakeIPStorage T W} `{StorageLife T B}.
Implicit Types (s : FakeIPStore) (t : T) (o : W) (d : string) (f : bool).

(** A restart, after the store was closed or not. *)
Inductive StoreOp : Type :=
| DoCreate (o : W) (d : string) (f : bool)
| DoBackground (b : B)
| DoRestart (close : option W) (o : W).

Definition store_op (op : StoreOp) (st : FakeIPStore * T) : FakeIPStore * T :=
  match op with
  | DoCreate o d f => let '(_, s', t') := Create o d f st.1 st.2 in (s', t')
  | DoBackground b => (st.1, background b st.2)
  | DoRestart close o =>
      let t1 := match close with Some o1 => (Store_Close o1 st.1 st.2).2 | None => st.2 end in
      Store_Start o (NewStore (fs_inet4Range st.1) (fs_inet6Range st.1)) (restarted t1)
  end.

Definition store_run (ops : list StoreOp) (st : FakeIPStore * T) : FakeIPStore * T := foldl (fun st op => store_op op st) st ops.

(** How far a family may have moved: an address that is used, or all that were reserved. *)
Definition op_cost f (op : StoreOp) (st : FakeIPStore * T) : Z :=
  match op with
  | DoCreate _ d g => if bool_decide (g = f) && bool_decide (FakeIPLoadDomain d g st.2 = None) then 1 else 0
  | DoBackground _ => 0
  | DoRestart None _ => reservedAddressCount
  | DoRestart (Some _) _ => 0
  end.

Fixpoint run_cost f (ops : list StoreOp) (st : FakeIPStore * T) : Z :=
  match ops with
  | [] => 0
  | op :: rest => op_cost f op st + run_cost f rest (store_op op st)
  end.

Lemma op_cost_nonneg f op st : 0 <= op_cost f op st.
Proof. unfold op_cost, reservedAddressCount. destruct op as [o d g|b|[o1|] o]; try destruct (_ && _); lia. Qed.

Lemma run_cost_nonneg f ops st : 0 <= run_cost f ops st.
Proof. revert st. induction ops as [|op ops IH]; intros st; cbn [run_cost]; [lia|]. pose proof (op_cost_nonneg f op st). specialize (IH (store_op op st)). lia. Qed.

Definition restarts (op : StoreOp) : bool := match op with DoRestart _ _ => true | _ => false end.

Context (ok : T -> Prop) (save_well : W -> FakeIPMetadata -> T -> Prop) (background_well : B -> T -> Prop).

(** The writes of [Create], if it has any, end well. *)
Definition create_well o d f s t : Prop := d <> ""%string /\ (FakeIPLoadDomain d f t = None -> fs_reservedCount s = 0 -> save_well o (reserved_ahead s) t).

Definition op_well (op : StoreOp) (st : FakeIPStore * T) : Prop :=
  match op with
  | DoCreate o d f => create_well o d f st.1 st.2
  | DoBackground b => background_well b st.2
  | DoRestart None _ => True
  | DoRestart (Some o1) _ => save_well o1 (metadata_of st.1) st.2
  end.

Fixpoint run_well (ops : list StoreOp) (st : FakeIPStore * T) : Prop :=
  match ops with
  | [] => True
  | op :: rest => op_well op st /\ run_well rest (store_op op st)
  end.

(** *** What [Create] does *)

(** The position ahead is saved. *)
Definition saved s t t1 : Prop := exists o, save_well o (reserved_ahead s) t /\ t1 = (FakeIPSaveMetadata o (reserved_ahead s) t).2.

(** The storage and the store before the address is taken. *)
Definition prepared s t s1 t1 : Prop := s1 = s /\ t1 = t /\ 1 <= fs_reservedCount s \/ s1 = reserving s /\ saved s t t1.

Inductive created d f s t : result Addr * FakeIPStore * T -> Prop :=
| created_known a : FakeIPLoadDomain d f t = Some a -> created d f s t (Ok a, s, t)
| created_none e : FakeIPLoadDomain d f t = None -> created d f s t (Err e, s, t)
| created_failed e t1 : FakeIPLoadDomain d f t = None -> saved s t t1 -> created d f s t (Err e, s, t1)
| created_fresh base v s1 t1 : FakeIPLoadDomain d f t = None -> family_at f s base v -> prepared s t s1 t1 ->
    created d f s t (Ok (addr_of f (next_value f (range_of f s) base v)), advance f s1, FakeIPStoreAsync (addr_of f (next_value f (range_of f s) base v)) d t1).

Lemma allocate_advance d f s t base v : family_at f s base v ->
  allocate d f s t = (addr_of f (next_value f (range_of f s) base v), advance f s, FakeIPStoreAsync (addr_of f (next_value f (range_of f s) base v)) d t).
Proof. intros Hat. destruct (advance_family f s base v Hat) as (E & _ & _). rewrite <- E. by destruct f. Qed.

Lemma Create_created o d f s t : store_ok s -> create_well o d f s t -> created d f s t (Create o d f s t).
Proof.
  intros Hs [Hd Hw]. unfold Create. destruct (FakeIPLoadDomain d f t) as [a|] eqn:Hload; [by constructor|].
  assert (Hcur : (negb f && negb (addr_IsValid (fs_inet4Current s))) || (f && negb (addr_IsValid (fs_inet6Current s))) = negb (addr_IsValid (current_of f s))) by (destruct f; cbn; by rewrite ?orb_false_r).
  destruct (negb f && _); [by constructor|]. destruct (f && _); [by constructor|]. cbn [orb] in Hcur.
  assert (Hat : exists base v, family_at f s base v) by (destruct Hs as [Hs _]; destruct (Hs f) as [[_ Hi]|?]; [by rewrite Hi in Hcur|done]). destruct Hat as (base & v & Hat).
  destruct (Z.eqb_spec (fs_reservedCount s) 0) as [H0'|H0'].
  - specialize (Hw eq_refl H0').  destruct (FakeIPSaveMetadata o (reserved_ahead s) t) as [[u|e] t1] eqn:Hsave.
    + destruct (reserving_ok s Hs) as [_ Hsame]. pose proof (same_family_at _ _ _ _ _ (Hsame f) Hat) as Hat1. change (with_current (fs_inet4Current s) (fs_inet6Current s) reservedAddressCount s) with (reserving s). rewrite (allocate_advance d f _ t1 base v Hat1).
      rewrite (proj1 (Hsame f)). econstructor; [done|done|]. right. split; [done|]. exists o. by rewrite Hsave.
    + constructor; [done|]. exists o. by rewrite Hsave.
  - rewrite (allocate_advance d f s t base v Hat). econstructor; [done|done|]. left. destruct Hs as [_ Hc]. split_and!; [done|done|lia].
Qed.

(** *** Keeping an address *)

Context `{!FakeIPStorageLaws ok save_well background_well}.

Lemma loads_domains t t' : ok t -> ok t' -> (forall b, proper b -> FakeIPLoad b t' = FakeIPLoad b t) -> forall d f, FakeIPLoadDomain d f t' = FakeIPLoadDomain d f t.
Proof. intros Ht Ht' Hl. apply (agree_same _ _ (storage_agree _ Ht') (storage_agree _ Ht) Hl). Qed.

Lemma prepared_ok s t s1 t1 : store_ok s -> ok t -> prepared s t s1 t1 ->
  store_ok s1 /\ 1 <= fs_reservedCount s1 /\ (forall f, same_family f s s1) /\ ok t1 /\ forall b, proper b -> FakeIPLoad b t1 = FakeIPLoad b t.
Proof.
  intros Hs Ht [(-> & -> & H1')|(-> & o & Hw & ->)]; [by split_and!|]. destruct (reserving_ok s Hs) as [Hs1 Hsame]. destruct (storage_save o _ t Ht Hw) as [Ht1 Hl]. by split_and!.
Qed.

Lemma family_proper f s base v : family_at f s base v -> proper (addr_of f (next_value f (range_of f s) base v)) /\ handed_out f (range_of f s) base (next_value f (range_of f s) base v).
Proof.
  intros (Hr & _ & _ & Hv). pose proof (next_handed_out f _ _ Hr v Hv) as Hn. split; [|done]. apply addr_of_proper. pose proof (last_bounds f _ _ Hr). destruct Hr as (_ & ? & _). unfold handed_out in Hn. lia.
Qed.

Lemma fresh_ok d f s t base v s1 t1 a : store_ok s -> ok t -> d <> ""%string -> FakeIPLoadDomain d f t = None -> family_at f s base v -> prepared s t s1 t1 ->
  a = addr_of f (next_value f (range_of f s) base v) ->
  store_ok (advance f s1) /\ family_at f (advance f s1) base (next_value f (range_of f s) base v) /\ range_of f (advance f s1) = range_of f s /\ same_family (negb f) s (advance f s1) /\
  ok (FakeIPStoreAsync a d t1) /\ forall b, proper b -> FakeIPLoad b (FakeIPStoreAsync a d t1) = if bool_decide (b = a) then Some d else FakeIPLoad b t.
Proof.
  intros Hs Ht Hd Hn Hat Hp ->. destruct (prepared_ok s t s1 t1 Hs Ht Hp) as (Hs1 & H1' & Hsame & Ht1 & Hl). pose proof (same_family_at _ _ _ _ _ (Hsame f) Hat) as Hat1.
  destruct (advance_family f s1 base v Hat1) as (_ & Hat2 & Ho). destruct (family_proper f s base v Hat) as [Hpa _]. rewrite (proj1 (Hsame f)) in Hat2.
  destruct (storage_store (addr_of f (next_value f (range_of f s) base v)) d t1 Ht1 Hpa Hd) as [Hok Hload]; [rewrite addr_of_family, (loads_domains t t1 Ht Ht1 Hl); done|]. split_and!; [by eapply advance_store_ok|done| | |done|].
  - transitivity (range_of f s1); [by destruct f|apply (Hsame f)].
  - by eapply same_family_trans.
  - intros b Hb. rewrite Hload by done. by rewrite Hl.
Qed.

Lemma position_ahead f r base va v k : roomy f r base -> handed_out f r base va -> position f r base v = (position f r base va + k) `mod` cycle f r base -> 0 < k < cycle f r base -> v <> va.
Proof.
  intros Hr Hva Hv Hk ->. assert (Hp : 0 <= position f r base va < cycle f r base) by (unfold position; apply Z.mod_pos_bound; lia). set (p := position f r base va) in *. set (c := cycle f r base) in *.
  destruct (Z.lt_ge_cases (p + k) c) as [Hlt|Hge]; [rewrite Z.mod_small in Hv by lia; lia|]. rewrite <- (Z.mod_add (p + k) (-1) c), Z.mod_small in Hv by lia. lia.
Qed.

(** A family that used at most [n] addresses since it used [va]. *)
Definition moved f (r : Prefix) base va (n : Z) s : Prop :=
  range_of f s = r /\ handed_out f r base va /\ exists v k, family_at f s base v /\ 0 <= k <= n /\ position f r base v = (position f r base va + k) `mod` cycle f r base.

Lemma family_at_unique f s base v base' v' : family_at f s base v -> family_at f s base' v' -> base' = base /\ v' = v.
Proof. intros ((Ha & _) & _ & Hc & _) ((Ha2 & _) & _ & Hc2 & _). rewrite Ha in Ha2. rewrite Hc in Hc2. by apply addr_of_inj in Ha2, Hc2. Qed.

Lemma moved_next f r base va n s v : moved f r base va n s -> family_at f s base v ->
  exists k, 0 < k <= n + 1 /\ position f r base (next_value f r base v) = (position f r base va + k) `mod` cycle f r base.
Proof.
  intros (Hr & Hva & v' & k & Hat & Hk & Hp) Hat'. destruct (family_at_unique _ _ _ _ _ _ Hat Hat') as [_ ->]. pose proof Hat as (Hroom & _ & _ & Hv). rewrite Hr in *. exists (k + 1). split; [lia|].
  rewrite (next_position f r base Hroom _ Hv), Hp, Z.add_mod_idemp_l by (pose proof (cycle_pos f r base Hroom); lia). f_equal. lia.
Qed.

Lemma moved_base f r base va n s base' v : moved f r base va n s -> family_at f s base' v -> base' = base.
Proof. intros (_ & _ & v' & k & Hat & _) Hat'. by destruct (family_at_unique _ _ _ _ _ _ Hat Hat'). Qed.

(** The next address is another one. *)
Lemma moved_other f r base va n s base' v : moved f r base va n s -> n + 1 < cycle f r base -> family_at f s base' v -> next_value f (range_of f s) base' v <> va.
Proof.
  intros Hm Hn Hat. pose proof (moved_base _ _ _ _ _ _ _ _ Hm Hat) as ->. destruct (moved_next _ _ _ _ _ _ _ Hm Hat) as (k & Hk & Hp). destruct Hm as (Hr & Hva & _). destruct Hat as (Hroom & _). rewrite Hr in *.
  eapply position_ahead; [done|done|exact Hp|lia].
Qed.

(** The next address is used. *)
Lemma moved_advance f r base va n s base' v s' : moved f r base va n s -> family_at f s base' v -> family_at f s' base' (next_value f (range_of f s) base' v) -> range_of f s' = range_of f s ->
  moved f r base va (n + 1) s'.
Proof.
  intros Hm Hat Hat' Hr'. pose proof (moved_base _ _ _ _ _ _ _ _ Hm Hat) as ->. destruct (moved_next _ _ _ _ _ _ _ Hm Hat) as (k & Hk & Hp). destruct Hm as (Hr & Hva & _). split_and!; [congruence|done|].
  rewrite Hr in *. exists (next_value f r base v), k. split; [done|]. split; [lia|done].
Qed.

Lemma moved_same f r base va n m s s' : moved f r base va n s -> same_family f s s' -> n <= m -> moved f r base va m s'.
Proof. intros (Hr & Hva & v & k & Hat & Hk & Hp) Hs Hm. pose proof Hs as (E & _). split_and!; [congruence|done|]. exists v, k. split; [by eapply same_family_at|]. split; [lia|done]. Qed.

(** The address still is that of the domain. *)
Definition kept f (r : Prefix) base va d n (st : FakeIPStore * T) : Prop :=
  store_ok st.1 /\ ok st.2 /\ moved f r base va n st.1 /\ FakeIPLoad (addr_of f va) st.2 = Some d.

Lemma moved_proper f r base va n s : moved f r base va n s -> proper (addr_of f va).
Proof.
  intros (Hr & Hva & v & k & (Hroom & _) & _). rewrite Hr in Hroom. apply addr_of_proper. pose proof (last_bounds f r base Hroom). destruct Hroom as (_ & ? & _). unfold handed_out in Hva. lia.
Qed.

Lemma kept_create f r base va d n o d' g s t : kept f r base va d n (s, t) -> create_well o d' g s t -> n + op_cost f (DoCreate o d' g) (s, t) < cycle f r base ->
  kept f r base va d (n + op_cost f (DoCreate o d' g) (s, t)) (store_op (DoCreate o d' g) (s, t)).
Proof.
  intros (Hs & Ht & Hm & Hl) Hw Hn. cbn [fst snd] in *. pose proof (moved_proper _ _ _ _ _ _ Hm) as Hpa. pose proof (Create_created o d' g s t Hs Hw) as Hc. cbn [store_op op_cost fst snd] in *.
  destruct Hw as [Hd' _]. set (n' := n + _) in *. assert (Hn' : n <= n') by (unfold n'; destruct (_ && _); lia).
  assert (Hstay : moved f r base va n' s) by (eapply moved_same; [done|by split_and!|done]).
  destruct Hc as [a Hload|e Hload|e t2 Hload (o1 & Hw1 & ->)|base' v s1 t1 Hload Hat Hp]; cbn [fst snd].
  - by split_and!.
  - by split_and!.
  - destruct (storage_save o1 _ t Ht Hw1) as [Ht1 Hl1]. split_and!; [done|done|done|]. cbn. by rewrite Hl1.
  - destruct (fresh_ok d' g s t base' v s1 t1 _ Hs Ht Hd' Hload Hat Hp eq_refl) as (Hs' & Hat' & Hr' & Ho & Hok & Hl'). split_and!; [done|done| |].
    + destruct (decide (g = f)) as [->|Hg]; cbn [fst]; [|assert (f = negb g) as -> by (by destruct f, g); by eapply moved_same]. unfold n'. rewrite !bool_decide_true by done. by eapply moved_advance.
    + cbn [snd]. rewrite Hl' by done. rewrite bool_decide_false; [done|]. intros E. destruct (decide (g = f)) as [->|Hg]; [|apply (f_equal addr_Is6) in E; by rewrite !addr_of_family in E].
      unfold n' in Hn. rewrite !bool_decide_true in Hn by done. apply addr_of_inj in E. by apply (moved_other _ _ _ _ _ _ _ _ Hm Hn Hat).
Qed.

Lemma kept_run f r base va d ops n st : kept f r base va d n st -> Forall (fun op => restarts op = false) ops -> run_well ops st -> 0 <= n -> n + run_cost f ops st < cycle f r base ->
  kept f r base va d (n + run_cost f ops st) (store_run ops st).
Proof.
  revert n st. induction ops as [|op ops IH]; intros n st Hk Hr Hw H0' Hn; cbn [run_cost run_well] in *; [by rewrite Z.add_0_r|]. apply Forall_cons in Hr as [Hop Hr]. destruct Hw as [Hw1 Hw2].
  cbn [store_run foldl]. rewrite Z.add_assoc in *. pose proof (run_cost_nonneg f ops (store_op op st)). pose proof (op_cost_nonneg f op st). apply IH; [|done|done|lia|done].
  destruct op as [o d' g|b|close o]; [|clear IH|done].
  - destruct st as [s t]. apply kept_create; [done|done|lia].
  - destruct Hk as (Hs & Ht & Hm & Hl). destruct (storage_background b st.2 Ht Hw1) as [Ht1 Hl1]. cbn [op_cost store_op]. rewrite Z.add_0_r. split_and!; [done|done|done|]. cbn [snd].
    rewrite Hl1; [done|]. by eapply moved_proper.
Qed.

Lemma plain_run ops st : store_ok st.1 -> ok st.2 -> Forall (fun op => restarts op = false) ops -> run_well ops st -> store_ok (store_run ops st).1 /\ ok (store_run ops st).2.
Proof.
  revert st. induction ops as [|op ops IH]; intros st Hs Ht Hr Hw; [done|]. apply Forall_cons in Hr as [Hop Hr]. destruct Hw as [Hw1 Hw2]. cbn [store_run foldl].
  assert (Hst : store_ok (store_op op st).1 /\ ok (store_op op st).2); [|destruct Hst; by apply IH]. destruct st as [s t], op as [o d f|b|close o]; [| |done]; cbn [fst snd] in *.
  - cbn [store_op fst snd]. pose proof (Create_created o d f s t Hs Hw1) as Hc. destruct Hw1 as [Hd _]. destruct Hc as [a Hload|e Hload|e t2 Hload (o1 & Hw' & ->)|base v s1 t1 Hload Hat Hp]; cbn [fst snd]; [done|done| |].
    + split; [done|]. by destruct (storage_save o1 _ t Ht Hw').
    + by destruct (fresh_ok d f s t base v s1 t1 _ Hs Ht Hd Hload Hat Hp eq_refl) as (? & _ & _ & _ & ? & _).
  - split; [done|]. by destruct (storage_background b t Ht Hw1).
Qed.

(** *** Starting *)

Lemma start_family f r4 r6 o t : range_ok f (if f then r6 else r4) -> FakeIPMetadata_ (restarted t) = None ->
  family_off f (Store_Start o (NewStore r4 r6) (restarted t)).1 \/ exists base v, family_at f (Store_Start o (NewStore r4 r6) (restarted t)).1 base v.
Proof.
  intros Hr Hn. unfold Store_Start. rewrite Hn. cbn [fst]. destruct Hr as [E|[base Hr]]; [left; destruct f; unfold family_off; cbn; rewrite E; done|]. right. exists base, (base + 1).
  pose proof (NewStore_last f r4 r6 base Hr) as Hl. pose proof (roomy_valid _ _ _ Hr) as Hval. pose proof (last_bounds f _ _ Hr) as Hb. pose proof Hr as (Ha & Hbase & _ & Hroom).
  assert (Hc : current_of f (resetCurrent (NewStore r4 r6)) = addr_of f (base + 1)) by (destruct f; cbn; rewrite Hval, Ha; [apply (addr_Next_of true)|apply (addr_Next_of false)]; lia).
  unfold family_at. assert (E : range_of f (resetCurrent (NewStore r4 r6)) = (if f then r6 else r4) /\ last_of f (resetCurrent (NewStore r4 r6)) = last_of f (NewStore r4 r6)) by (by destruct f).
  destruct E as [-> ->]. split_and!; [done|done|done|unfold started_at; lia..].
Qed.

Lemma start_ok r4 r6 o t : ok t -> range_ok false r4 -> range_ok true r6 -> FakeIPMetadata_ (restarted t) = None ->
  store_ok (Store_Start o (NewStore r4 r6) (restarted t)).1 /\ ok (Store_Start o (NewStore r4 r6) (restarted t)).2 /\ fs_reservedCount (Store_Start o (NewStore r4 r6) (restarted t)).1 = 0.
Proof.
  intros Ht H4 H6 Hn. assert (Hc : fs_reservedCount (Store_Start o (NewStore r4 r6) (restarted t)).1 = 0) by (unfold Store_Start; by rewrite Hn). split_and!; [split|..]; [| | |done].
  - intros []; by apply start_family.
  - rewrite Hc. unfold reservedAddressCount. lia.
  - unfold Store_Start. rewrite Hn. by apply storage_reset.
Qed.

(** The address that is handed out. *)
Lemma create_kept o d f s t a s1 t1 : store_ok s -> ok t -> create_well o d f s t -> FakeIPLoadDomain d f t = None -> Create o d f s t = (Ok a, s1, t1) ->
  exists base va, a = addr_of f va /\ kept f (range_of f s) base va d 0 (s1, t1).
Proof.
  intros Hs Ht Hw Hload Hc. pose proof (Create_created o d f s t Hs Hw) as Hcr. rewrite Hc in Hcr. destruct Hw as [Hd _]. inversion Hcr as [a' Hl| | |base v s2 t2 Hl Hat Hp]; subst; [congruence|].
  destruct (fresh_ok d f s t base v s2 t2 _ Hs Ht Hd Hload Hat Hp eq_refl) as (Hs' & Hat' & Hr' & _ & Hok & Hl'). destruct (family_proper f s base v Hat) as [Hpa Hho].
  exists base, (next_value f (range_of f s) base v). split; [done|]. split_and!; [done|done| |cbn; by rewrite Hl', bool_decide_true].
  split_and!; [done|done|]. exists (next_value f (range_of f s) base v), 0. split; [done|]. split; [lia|]. rewrite Z.add_0_r. symmetry. apply Z.mod_mod.
  destruct Hat as (Hroom & _). pose proof (cycle_pos _ _ _ Hroom). lia.
Qed.

(** Another address is handed out. *)
Lemma create_other o d f s t b s1 t1 r base va n : store_ok s -> create_well o d f s t -> FakeIPLoadDomain d f t = None -> Create o d f s t = (Ok b, s1, t1) ->
  moved f r base va n s -> n + 1 < cycle f r base -> b <> addr_of f va.
Proof.
  intros Hs Hw Hload Hc Hm Hn. pose proof (Create_created o d f s t Hs Hw) as Hcr. rewrite Hc in Hcr. inversion Hcr as [a' Hl| | |base' v s2 t2 Hl Hat Hp]; subst; [congruence|].
  intros E%addr_of_inj. by apply (moved_other _ _ _ _ _ _ _ _ Hm Hn Hat).
Qed.

(** *** What is on disk *)

Context `{!DurableLaws ok save_well background_well}.

Definition on_disk (st : FakeIPStore * T) : Prop :=
  FakeIPMetadata_ st.2 = None /\ fs_reservedCount st.1 = 0 \/ exists m, FakeIPMetadata_ st.2 = Some m /\ ahead m st.1.

Definition durable (st : FakeIPStore * T) : Prop := store_ok st.1 /\ ok st.2 /\ on_disk st.

(** Starting again from what was saved. *)
Lemma resume_family f bound m s r base va n : store_ok s -> resumable bound m s -> moved f r base va n s ->
  moved f r base va (n + bound) (with_current (fm_Inet4Current m) (fm_Inet6Current m) 0 (NewStore (fs_inet4Range s) (fs_inet6Range s))).
Proof.
  intros Hs Hm (Hr & Hva & v & k & Hat & Hk & Hp). set (s' := with_current _ _ _ _). assert (Er : range_of f s' = range_of f s /\ current_of f s' = saved_current f m) by (by destruct f). destruct Er as [Er Ec].
  destruct (Hm f) as (_ & j & Hj & Hf). pose proof Hat as (Hroom & Hl & Hc & Hv). destruct Hf as [[[_ Hi] _]|(base' & v' & Hat' & Hsv)]; [rewrite Hi in Hc; by destruct f|].
  destruct (family_at_unique _ _ _ _ _ _ Hat Hat') as [-> ->]. destruct (iter_position f _ _ Hroom j v Hv) as [Hst Hpos]. fold (iterated f s base j v) in Hst, Hpos.
  split_and!; [congruence|done|]. exists (iterated f s base j v), (k + Z.of_nat j). split; [|split; [lia|]].
  - unfold family_at. rewrite Er, Ec, Hsv. split_and!; [done| |done|done]. transitivity (last_of f (NewStore (fs_inet4Range s) (fs_inet6Range s))); [by destruct f|]. rewrite (NewStore_last f _ _ base); by destruct f.
  - rewrite Hr in *. rewrite Hpos, Hp, Z.add_mod_idemp_l, Z.add_assoc by (pose proof (cycle_pos _ _ _ Hroom); lia). done.
Qed.

Lemma resume_ok bound m s : store_ok s -> resumable bound m s ->
  let s' := with_current (fm_Inet4Current m) (fm_Inet6Current m) 0 (NewStore (fs_inet4Range s) (fs_inet6Range s)) in store_ok s' /\ ahead m s'.
Proof.
  intros Hs Hm s'. assert (Hf : forall f, family_off f s' /\ saved_current f m = AddrInvalid \/ exists base v, family_at f s' base v /\ saved_current f m = addr_of f v).
  { intros f. assert (Er : range_of f s' = range_of f s /\ current_of f s' = saved_current f m) by (by destruct f). destruct Er as [Er Ec].
    destruct (Hm f) as (_ & j & Hj & [[[Hoff _] Hi]|(base & v & Hat & Hsv)]); [left; split; [split; congruence|done]|right]. exists base, (iterated f s base j v). split; [|done].
    pose proof (iterated_started f s base v j Hat) as Hst. destruct Hat as (Hroom & _). unfold family_at. rewrite Er, Ec. split_and!; [done| |done|done].
    transitivity (last_of f (NewStore (fs_inet4Range s) (fs_inet6Range s))); [by destruct f|]. rewrite (NewStore_last f _ _ base); by destruct f. }
  split; [split; [|cbn; unfold reservedAddressCount; lia]|].
  - intros f. destruct (Hf f) as [[? _]|(base & v & ? & _)]; [by left|right; by exists base, v].
  - intros f. split; [transitivity (range_of f s); [apply Hm|by destruct f]|]. exists 0%nat. split; [cbn; unfold reservedAddressCount; lia|]. destruct (Hf f) as [?|(base & v & Hat & ?)]; [by left|right]. by exists base, v.
Qed.

Lemma saved_ahead o s t : store_ok s -> ok t -> save_well o (reserved_ahead s) t ->
  FakeIPMetadata_ (FakeIPSaveMetadata o (reserved_ahead s) t).2 = Some (reserved_ahead s).
Proof. intros Hs Ht Hw. apply durable_save; [done|done|]. eapply resumable_metadata_ok; [done|]. by apply ahead_resumable, reserved_ahead_ahead. Qed.

Lemma prepared_on_disk s t s1 t1 : durable (s, t) -> prepared s t s1 t1 -> exists m, FakeIPMetadata_ t1 = Some m /\ ahead m s1.
Proof.
  intros (Hs & Ht & Hd) [(-> & -> & Hpos)|(-> & o1 & Hw' & ->)]; [|exists (reserved_ahead s); split; [by apply saved_ahead|by apply reserved_ahead_ahead]].
  destruct Hd as [[_ Hz]|?]; [cbn in Hz; lia|done].
Qed.

(** A step keeps the position on disk ahead, and a family moves no further than the cost. *)
Definition steps_on (st : FakeIPStore * T) (op : StoreOp) : Prop :=
  let st' := store_op op st in
  durable st' /\ (FakeIPMetadata_ st.2 <> None -> FakeIPMetadata_ st'.2 <> None /\ forall f r base va n, moved f r base va n st.1 -> moved f r base va (n + op_cost f op st) st'.1).

Lemma durable_create o d g s t : durable (s, t) -> create_well o d g s t -> steps_on (s, t) (DoCreate o d g).
Proof.
  intros (Hs & Ht & Hd) Hw. unfold steps_on. cbn zeta. cbn [store_op fst snd] in *. pose proof (Create_created o d g s t Hs Hw) as Hc. destruct Hw as [Hne _].
  assert (Hstay : forall f r base va n, moved f r base va n s -> moved f r base va (n + op_cost f (DoCreate o d g) (s, t)) s)
    by (intros f r base va n Hm; eapply moved_same; [done|by split_and!|pose proof (op_cost_nonneg f (DoCreate o d g) (s, t)); lia]).
  destruct Hc as [a Hload|e Hload|e t2 Hload (o1 & Hw' & ->)|base v s1 t1 Hload Hat Hp]; cbn [fst snd].
  - done.
  - done.
  - pose proof (saved_ahead o1 s t Hs Ht Hw') as Hm. destruct (storage_save o1 _ t Ht Hw') as [Ht1 _]. split; [|intros _; by rewrite Hm]. split_and!; [done|done|]. right. exists (reserved_ahead s). split; [done|].
    by apply reserved_ahead_ahead.
  - destruct (fresh_ok d g s t base v s1 t1 _ Hs Ht Hne Hload Hat Hp eq_refl) as (Hs' & Hat' & Hr' & Ho & Hok & _). set (a := addr_of g _) in *.
    destruct (prepared_ok s t s1 t1 Hs Ht Hp) as (_ & H1' & Hsame & _ & _). pose proof (same_family_at _ _ _ _ _ (Hsame g) Hat) as Hat1.
    destruct (prepared_on_disk s t s1 t1) as (m & Hm & Ha); [done|done|]. assert (Hm' : FakeIPMetadata_ (FakeIPStoreAsync a d t1) = Some m) by (by rewrite durable_store). split.
    + split_and!; [done|done|]. right. exists m. split; [done|]. by eapply ahead_advance.
    + intros _. split; [by rewrite Hm'|]. intros f r base' va n Hmv. cbn [op_cost fst snd]. destruct (decide (g = f)) as [->|Hg].
      * rewrite !bool_decide_true by done. by eapply moved_advance.
      * rewrite (bool_decide_false (g = f)) by done. cbn [andb]. assert (f = negb g) as -> by (by destruct f, g). eapply moved_same; [done|done|lia].
Qed.

Lemma create_on_disk o d f s t a s1 t1 : durable (s, t) -> create_well o d f s t -> FakeIPLoadDomain d f t = None -> Create o d f s t = (Ok a, s1, t1) -> durable (s1, t1) /\ FakeIPMetadata_ t1 <> None.
Proof.
  intros Hd Hw Hload Hc. destruct (durable_create o d f s t Hd Hw) as [Hd1 _]. pose proof (Create_created o d f s t (proj1 Hd) Hw) as Hcr. cbn [store_op fst snd] in Hd1. rewrite Hc in Hd1, Hcr. split; [done|].
  inversion Hcr as [a' Hl| | |base' v s2 t2 Hl Hat Hp]; subst; [congruence|]. destruct (prepared_on_disk s t s2 t2 Hd Hp) as (m & Hm & _). by rewrite durable_store, Hm.
Qed.

Lemma start_resumes bound m o s t : store_ok s -> resumable bound m s -> FakeIPMetadata_ t = Some m ->
  Store_Start o (NewStore (fs_inet4Range s) (fs_inet6Range s)) t = (with_current (fm_Inet4Current m) (fm_Inet6Current m) 0 (NewStore (fs_inet4Range s) (fs_inet6Range s)), t).
Proof.
  intros Hs Hm Ht. unfold Store_Start. rewrite Ht. destruct (Hm false) as [H4 _], (Hm true) as [H6 _]. cbn in H4, H6. by rewrite H4, H6, !bool_decide_true.
Qed.

Lemma resume_steps bound m o s t : store_ok s -> ok t -> resumable bound m s -> FakeIPMetadata_ t = Some m ->
  let st' := Store_Start o (NewStore (fs_inet4Range s) (fs_inet6Range s)) (restarted t) in
  durable st' /\ FakeIPMetadata_ st'.2 <> None /\ forall f r base va n, moved f r base va n s -> moved f r base va (n + bound) st'.1.
Proof.
  intros Hs Ht Hm Hf. destruct (durable_restart t Ht) as [Ht1 Hf1]. rewrite Hf in Hf1. rewrite (start_resumes bound m o s _ Hs Hm Hf1). cbn zeta. destruct (resume_ok bound m s Hs Hm) as [Hs' Ha].
  split; [split_and!; [done|done|right; by exists m]|]. split; [cbn [snd]; by rewrite Hf1|]. intros. by apply resume_family.
Qed.

Lemma durable_step op st : durable st -> op_well op st -> steps_on st op.
Proof.
  intros Hd Hw. destruct st as [s t], op as [o d g|b|[o1|] o]; [by apply durable_create|..]; destruct Hd as (Hs & Ht & Hd); cbn [fst snd op_well] in *; unfold steps_on; cbn zeta; cbn [store_op fst snd op_cost].
  - destruct (storage_background b t Ht Hw) as [Ht1 _]. pose proof (durable_background b t Ht Hw) as Hm. split.
    + split_and!; [done|done|]. unfold on_disk. cbn [fst snd]. by rewrite Hm.
    + rewrite Hm. intros Hn. split; [done|]. intros. by rewrite Z.add_0_r.
  - pose proof (metadata_of_resumable s Hs) as Hr. pose proof (durable_save o1 _ t Ht Hw (resumable_metadata_ok _ _ _ Hs Hr)) as Hm. destruct (storage_save o1 _ t Ht Hw) as [Ht1 _].
    destruct (resume_steps 0 _ o s _ Hs Ht1 Hr Hm) as (Hd' & Hn & Hmv). done.
  - destruct Hd as [[Hn Hz]|(m & Hm & Ha)]; cbn [fst snd] in *.
    + destruct (durable_restart t Ht) as [_ Hn1]. rewrite Hn in Hn1. destruct (start_ok (fs_inet4Range s) (fs_inet6Range s) o t Ht (family_range_ok false s Hs) (family_range_ok true s Hs) Hn1) as (Hs' & Ht' & Hz').
      split; [|by rewrite Hn]. split_and!; [done|done|]. left. split; [|done]. unfold Store_Start. rewrite Hn1. by apply durable_reset.
    + destruct (resume_steps _ m o s t Hs Ht (ahead_resumable m s Ha) Hm) as (Hd' & Hn & Hmv). done.
Qed.

Lemma durable_run ops st : durable st -> run_well ops st -> durable (store_run ops st) /\
  (FakeIPMetadata_ st.2 <> None -> forall f r base va n, moved f r base va n st.1 -> moved f r base va (n + run_cost f ops st) (store_run ops st).1).
Proof.
  revert st. induction ops as [|op ops IH]; intros st Hd Hw; cbn [run_cost]; [split; [done|]; intros; by rewrite Z.add_0_r|]. destruct Hw as [Hw1 Hw2]. destruct (durable_step op st Hd Hw1) as [Hd1 Hs1].
  destruct (IH _ Hd1 Hw2) as [Hd2 Hs2]. split; [done|]. intros Hn f r base va n Hm. destruct (Hs1 Hn) as [Hn1 Hm1]. rewrite Z.add_assoc. apply Hs2; [done|]. by apply Hm1.
Qed.

Lemma durable_start r4 r6 o t : ok t -> range_ok false r4 -> range_ok true r6 -> FakeIPMetadata_ t = None -> durable (Store_Start o (NewStore r4 r6) (restarted t)).
Proof.
  intros Ht H4 H6 Hn. destruct (durable_restart t Ht) as [_ Hn1]. rewrite Hn in Hn1. destruct (start_ok r4 r6 o t Ht H4 H6 Hn1) as (Hs' & Ht' & Hz'). split_and!; [done|done|].
  left. split; [|done]. unfold Store_Start. rewrite Hn1. by apply durable_reset.
Qed.
End runs.
