(* ===== verification/FakeIPTheorems.v ===== *)
(** * What the fake addresses and the cache file promise *)

From stdpp Require Import base gmap strings list.
From Stdlib Require Import ZArith Lia.
From S2P Require Import Prelude Net Codec Metadata DnsRecords FakeIP CacheFile CacheFileOk CacheFileRun FakeIPOk FakeIPRun.

Open Scope Z_scope.

(** The number of addresses that a range has for domains. *)
Definition capacity (f : bool) (r : Prefix) : Z := cycle f r (addr_value (prefix_addr r)).

Lemma capacity_base f r base : roomy f r base -> capacity f r = cycle f r base.
Proof. intros (Ha & _). unfold capacity. rewrite Ha. by destruct f. Qed.

Lemma roomy_capacity f r base : prefix_addr r = addr_of f base -> 0 <= base < 2 ^ width f -> 0 <= prefix_bits r <= width f -> 0 < capacity f r -> roomy f r base.
Proof. intros Ha Hb Hbits Hc. split_and!; try done; try lia. unfold capacity, cycle in Hc. rewrite Ha in Hc. replace (addr_value (addr_of f base)) with base in Hc by (by destruct f). lia. Qed.

(** The cache file next to a storage in memory. *)
Section next_to.
Context {D : Type} `{BoltLaws D} `{MapOrder} (AddrFromIP : list Z -> Addr) `{!AddrFromIPLaws AddrFromIP}.

Definition memory_op (op : CacheOp) (m : MemoryStorage) : MemoryStorage :=
  match op with
  | OpStore a d => Memory_FakeIPStore a d m
  | OpReset _ _ => Memory_FakeIPReset m
  | _ => m
  end.

Definition memory_run (ops : list CacheOp) (m : MemoryStorage) : MemoryStorage := foldl (fun m op => memory_op op m) m ops.

(** Stores are those of the store: the domain has no address yet.  Flushes that are waited for
    or end, end well, and the database is not found corrupted. *)
Definition cache_op_well (op : CacheOp) (c : CacheFile D) : Prop :=
  match op with
  | OpStore a d => proper a /\ d <> ""%string /\ CacheFile_FakeIPLoadDomain AddrFromIP d (addr_Is6 a) c = None
  | OpSaveMetadata o o' m => save_well (o, o') m c
  | OpReset o o' => ends_well o c /\ (CacheFile_FakeIPReset o o' c).1 = Ok tt
  | _ => background_well op c
  end.

Fixpoint cache_ops_well (ops : list CacheOp) (c : CacheFile D) : Prop :=
  match ops with
  | [] => True
  | op :: rest => cache_op_well op c /\ cache_ops_well rest (cache_op op c)
  end.

Definition shows_same (c : CacheFile D) (m : MemoryStorage) : Prop :=
  cache_ok c /\ memory_ok m /\ forall a, proper a -> CacheFile_FakeIPLoad a c = Memory_FakeIPLoad a m.

Lemma shows_same_domains c m : shows_same c m -> forall d f, CacheFile_FakeIPLoadDomain AddrFromIP d f c = Memory_FakeIPLoadDomain d f m.
Proof. intros (Hc & Hm & Hl). exact (proj2 (agree_same (cache_view AddrFromIP c) _ (cache_view_agree AddrFromIP c Hc) Hm Hl)). Qed.

Lemma cache_op_same op c m : shows_same c m -> cache_op_well op c -> shows_same (cache_op op c) (memory_op op m).
Proof.
  intros Hs Hw. pose proof (shows_same_domains c m Hs) as Hdom. destruct Hs as (Hc & Hm & Hl).
  assert (Hback : background_well op c -> memory_op op m = m -> shows_same (cache_op op c) (memory_op op m)).
  { intros Hb ->. destruct (background_ok AddrFromIP op c Hc Hb) as [Hok [Hs _]]. split_and!; [done|done|]. intros a Ha. rewrite <- Hl by done. by apply Hs. }
  destruct op as [a d|o o' md|o o'|t q ty raw at_|o o' t q ty raw|o o'|t q ty|o o'|o de ot now|o now| | | |loop|o]; try (by apply Hback); cbn [cache_op_well cache_op memory_op] in *.
  - destruct Hw as (Ha & Hd & Hn). destruct (queueFakeIP_ok AddrFromIP a d c Hc Ha Hd Hn) as [Hok Hload]. rewrite Hdom in Hn. destruct (storage_store (FakeIPStorageLaws := memory_laws) a d m Hm Ha Hd Hn) as [Hm' Hload'].
    split_and!; [done|done|]. intros b Hb. rewrite Hload by done. etransitivity; [|symmetry; by apply Hload']. by rewrite Hl.
  - destruct (save_metadata_ok AddrFromIP (o, o') md c Hc Hw) as [Hok [Hs _]]. split_and!; [done|done|]. intros b Hb. rewrite <- Hl by done. by apply Hs.
  - destruct Hw as [Hw Hr]. destruct (CacheFile_FakeIPReset o o' c) as [r c'] eqn:E. destruct (FakeIPReset_ok AddrFromIP o o' c r c' Hc Hw E) as [Hok Hno]. split_and!; [done|apply NewMemoryStorage_ok|].
    intros b Hb. cbn [snd]. rewrite Hno by done. unfold Memory_FakeIPLoad. cbn. by rewrite lookup_empty.
Qed.

Lemma cache_run_same ops c m : shows_same c m -> cache_ops_well ops c -> shows_same (cache_run ops c) (memory_run ops m).
Proof. revert c m. induction ops as [|op ops IH]; intros c m Hs Hw; [done|]. destruct Hw as [Hw1 Hw2]. cbn. apply IH; [by apply cache_op_same|done]. Qed.

(** A new cache file. *)
Definition blank (db : D) : Prop := forall q l, bolt_Get q l db = None.

Lemma New_shows_same id sr rt bs fi db : blank db -> shows_same (CacheFile_New id sr rt bs fi db) NewMemoryStorage.
Proof.
  intros Hdb. split_and!; [|apply NewMemoryStorage_ok|].
  - exists no_view. unfold layers_ok, writing_of. cbn. split_and!; [by split_and!; try done; intros; apply Hdb|apply agree_no_view|apply layer_new|rewrite over_new; apply agree_no_view|apply layer_new|].
    rewrite !over_new. apply agree_no_view.
  - intros a _. unfold CacheFile_FakeIPLoad, looked_up, Memory_FakeIPLoad. cbn. by rewrite !lookup_empty, Hdb.
Qed.
End next_to.

(** A database for examples. *)
Module Sample.
Definition D : Type := gmap (list string * list Z) (list Z).

(** The names of the buckets right below a path. *)
Definition below (p q : list string) : option string :=
  if bool_decide (p `prefix_of` q) then head (drop (length p) q) else None.

#[export] Instance db : Bolt D := {|
  bolt_Open := ∅;
  bolt_ForEach := fun p db =>
    omap (fun e => if bool_decide (e.1.1 = p /\ e.1.2 <> []) then Some (e.1.2, e.2) else None) (map_to_list db);
  bolt_ForEachBucket := fun p db => remove_dups (omap (fun e => below p e.1.1) (map_to_list db));
  bolt_First := fun p db => head (omap (fun e => if bool_decide (p `prefix_of` e.1.1) then Some e.1.2 else None) (map_to_list db));
  bolt_Get := fun p k db => if bool_decide (k = []) then None else db !! (p, k);
  bolt_Put := fun p k v db => if bool_decide (k = []) then Err (ENew "key required") else Ok (<[(p, k) := v]> db);
  bolt_Delete := fun p k db => Ok (delete (p, k) db);
  bolt_HasBucket := fun _ _ => true;
  bolt_DeleteBucket := fun p db => Ok (filter (fun e => ~ p `prefix_of` e.1.1) db)
|}.

#[export] Instance laws : BoltLaws D.
Proof.
  split; cbn [bolt_Open bolt_ForEach bolt_First bolt_Get bolt_Put bolt_Delete bolt_HasBucket bolt_DeleteBucket db]; unfold D.
  - intros p k v db0 db' q l. destruct (bool_decide_reflect (k = [])) as [|Hk]; [done|]. intros [= <-]. destruct (decide ((q, l) = (p, k))) as [[= -> ->]|Hn].
    + by rewrite bool_decide_false, lookup_insert_eq.
    + by rewrite lookup_insert_ne by congruence.
  - intros p k db0 db' q l [= <-]. destruct (decide ((q, l) = (p, k))) as [[= -> ->]|Hn]; [rewrite lookup_delete_eq; by destruct (bool_decide _)|]. by rewrite lookup_delete_ne by congruence.
  - intros p db0 db' q l [= <-]. destruct (bool_decide (l = [])); [by destruct (decide _)|]. destruct (decide (p `prefix_of` q)) as [Hp|Hp].
    + apply map_lookup_filter_None. right. by intros x _ Hn.
    + destruct (db0 !! (q, l)) as [x|] eqn:E; [by apply map_lookup_filter_Some|]. apply map_lookup_filter_None. by left.
  - intros p db0 k v. rewrite list_elem_of_omap. split.
    + intros ([[q l] x] & Hin%elem_of_map_to_list & Hx). cbn in Hx. case_bool_decide as Hb; [|done]. destruct Hb as [-> Hl]. injection Hx as -> ->. by rewrite bool_decide_false.
    + case_bool_decide as Hk; [done|]. intros Hv. exists ((p, k), v). split; [by apply elem_of_map_to_list|]. cbn. by rewrite bool_decide_true.
  - intros p db0 q l Hn Hp. case_bool_decide; [done|]. destruct (db0 !! (q, l)) as [x|] eqn:E; [|done]. exfalso.
    assert (Hin : l ∈ omap (fun e : list string * list Z * list Z => if bool_decide (p `prefix_of` e.1.1) then Some e.1.2 else None) (map_to_list db0)).
    { apply list_elem_of_omap. exists ((q, l), x). split; [by apply elem_of_map_to_list|]. cbn. by rewrite bool_decide_true. }
    destruct (omap _ _); [by apply not_elem_of_nil in Hin|done].
  - intros q l. rewrite lookup_empty. by destruct (bool_decide _).
  - done.
  - done.
  - by eexists.
Qed.

#[export] Instance order : MapOrder.
Proof. refine {| map_order := fun K V _ _ _ m => map_to_list m |}. done. Defined.

Definition AddrFromIP (l : list Z) : Addr := if (length l =? 4)%nat then Addr4 (be_value l) else if (length l =? 16)%nat then Addr6 (be_value l) "" else AddrInvalid.

#[export] Instance AddrFromIP_laws : AddrFromIPLaws AddrFromIP.
Proof.
  split; [|done]. intros [|v|v z]; cbn [proper addr_AsSlice]; unfold AddrFromIP; rewrite ?length_be_bytes; [done|..]; cbn [Nat.eqb]; unfold in_width.
  - intros Hv. by rewrite be_value_small.
  - intros [Hv ->]. by rewrite be_value_small.
Qed.

Definition inet4 : Prefix := mkPrefix (Addr4 3323068416) 29.
Definition inet6 : Prefix := mkPrefix (Addr6 (64512 * 2 ^ 112) "") 18.
End Sample.

(** ** Fake addresses *)

Section claims.
Context {T W B : Type} `{FakeIPStorage T W} `{StorageLife T B}.
Context (ok : T -> Prop) (save_well : W -> FakeIPMetadata -> T -> Prop) (background_well : B -> T -> Prop).

Lemma Start_range f o s (t : T) : range_of f (Store_Start o s t).1 = range_of f s.
Proof. unfold Store_Start. destruct (FakeIPMetadata_ t); [destruct (_ && _)|]; by destruct f. Qed.

Lemma Create_range f o d g s (t : T) : range_of f (Create o d g s t).1.2 = range_of f s.
Proof.
  unfold Create. destruct (FakeIPLoadDomain d g t); [done|]. destruct (negb g && _); [done|]. destruct (g && _); [done|].
  destruct (_ =? 0); [destruct (FakeIPSaveMetadata o _ t) as [[|] ?]; [|done]|]; by destruct f, g.
Qed.

Lemma store_op_range f (op : StoreOp (W := W) (B := B)) st : range_of f (store_op op st).1 = range_of f st.1.
Proof.
  destruct op as [o d g|b|close o]; cbn [store_op fst]; [|done|rewrite Start_range; by destruct f]. pose proof (Create_range f o d g st.1 st.2) as E. by destruct (Create o d g st.1 st.2) as [[? ?] ?].
Qed.

Lemma store_run_range f (ops : list (StoreOp (W := W) (B := B))) st : range_of f (store_run ops st).1 = range_of f st.1.
Proof. revert st. induction ops as [|op ops IH]; intros st; [done|]. cbn. fold (store_run ops (store_op op st)). by rewrite IH, store_op_range. Qed.

(** What a kept address means to the program. *)
Lemma kept_lookups `{!FakeIPStorageLaws ok save_well background_well} f r base va d n st : kept ok f r base va d n st ->
  Lookup (addr_of f va) st.2 = Some d /\ (forall o, Create o d f st.1 st.2 = (Ok (addr_of f va), st.1, st.2)) /\ Store_Contains (addr_of f va) st.1 = true.
Proof.
  intros (Hs & Ht & Hm & Hl). pose proof (moved_proper _ _ _ _ _ _ Hm) as Hp. split; [done|]. split.
  - intros o. unfold Create. assert (E : FakeIPLoadDomain d f st.2 = Some (addr_of f va)); [|by rewrite E].
    apply (proj2 (storage_agree st.2 Ht d f (addr_of f va))). split_and!; [done|apply addr_of_family|done].
  - destruct Hm as (Hr & Hva & v & k & (Hroom & _) & _). rewrite Hr in Hroom. unfold Store_Contains. apply orb_true_iff. assert (Hc : prefix_Contains (range_of f st.1) (addr_of f va) = true).
    { rewrite Hr. apply (range_contains f r base Hroom). unfold handed_out in Hva. lia. }
    destruct f; [by right|by left].
Qed.




(** C32. From a start without a saved position, through any run of requests, flushes and
    other work of the storage that ends well: the address that is given to a domain leads
    back to the domain, is given to it again, lies in the range and is of the family that was
    asked for, until as many other addresses of the family were used as the range has. *)
Theorem fake_address_kept `{!FakeIPStorageLaws ok save_well background_well} r4 r6 o0 t0 ops1 o d (f : bool) a s1 t1 ops2 :
  let start := Store_Start o0 (NewStore r4 r6) (restarted t0) in
  let before := store_run ops1 start in
  let after := store_run ops2 (s1, t1) in
  ok t0 -> range_ok false r4 -> range_ok true r6 -> FakeIPMetadata_ (restarted t0) = None ->
  Forall (fun op => restarts op = false) (ops1 ++ ops2) -> run_well save_well background_well ops1 start ->
  create_well save_well o d f before.1 before.2 -> FakeIPLoadDomain d f before.2 = None -> Create o d f before.1 before.2 = (Ok a, s1, t1) ->
  run_well save_well background_well ops2 (s1, t1) -> run_cost f ops2 (s1, t1) < capacity f (if f then r6 else r4) ->
  Lookup a after.2 = Some d /\ (forall o', Create o' d f after.1 after.2 = (Ok a, after.1, after.2)) /\ Store_Contains a after.1 = true /\ addr_Is6 a = f.
Proof.
  intros start before after Ht H4 H6 Hn [Hr1 Hr2]%Forall_app Hw1 Hwc Hload Hc Hw2 Hcost.
  destruct (start_ok ok save_well background_well r4 r6 o0 t0 Ht H4 H6 Hn) as (Hs0 & Ht0 & _). destruct (plain_run ok save_well background_well ops1 start Hs0 Ht0 Hr1 Hw1) as [Hs Htb].
  destruct (create_kept ok save_well background_well o d f _ _ a s1 t1 Hs Htb Hwc Hload Hc) as (base & va & -> & Hk).
  assert (Hr : range_of f before.1 = if f then r6 else r4) by (unfold before, start; rewrite store_run_range, Start_range; by destruct f).
  assert (Hcap : capacity f (if f then r6 else r4) = cycle f (range_of f before.1) base).
  { rewrite <- Hr. apply capacity_base. destruct Hk as (_ & _ & (Er & _ & v & k & (Hroom & _) & _) & _). by rewrite Er in Hroom. }
  rewrite Hcap in Hcost. pose proof (kept_run ok save_well background_well f _ base va d ops2 0 (s1, t1) Hk Hr2 Hw2 ltac:(lia) Hcost) as Hk2.
  destruct (kept_lookups f _ base va d _ _ Hk2) as (? & ? & ?). split_and!; [done|done|done|apply addr_of_family].
Qed.

End claims.

(** ** The cache file *)

Section cache_claims.
Context {D : Type} `{BoltLaws D} `{MapOrder}.
Implicit Types (c : CacheFile D) (db : D).

(** C34. Whatever is collected, written, deleted, read back from a failed flush or waited for
    in between: domains and addresses are found in the cache file as they are in a storage in
    memory with the same stores and resets, if what fails took no address from a domain. *)
Theorem cache_file_refines_memory (AddrFromIP : list Z -> Addr) `{!AddrFromIPLaws AddrFromIP} id sr rt bs fi db ops :
  blank db -> cache_ops_well AddrFromIP ops (CacheFile_New id sr rt bs fi db) ->
  (forall a, proper a -> CacheFile_FakeIPLoad a (cache_run ops (CacheFile_New id sr rt bs fi db)) = Memory_FakeIPLoad a (memory_run ops NewMemoryStorage)) /\
  (forall d f, CacheFile_FakeIPLoadDomain AddrFromIP d f (cache_run ops (CacheFile_New id sr rt bs fi db)) = Memory_FakeIPLoadDomain d f (memory_run ops NewMemoryStorage)).
Proof.
  intros Hdb Hw. pose proof (cache_run_same AddrFromIP ops _ _ (New_shows_same id sr rt bs fi db Hdb) Hw) as Hs. split; [by apply Hs|]. by apply shows_same_domains.
Qed.

Lemma Flush_end_interval o c : cf_flushInterval (Flush_end o c) = cf_flushInterval c.
Proof. unfold Flush_end. destruct (cf_writing c) as [w|]; [|done]. destruct (transaction o c w); [done|]. unfold restorePendingLocked. by destruct (_ && _ && _). Qed.

Lemma cache_op_interval op c : cf_flushInterval (cache_op op c) = cf_flushInterval c.
Proof.
  assert (Henq : forall added n c, cf_flushInterval (enqueueLocked added n c) = cf_flushInterval c) by (intros; unfold enqueueLocked; by repeat case_match).
  assert (Hbeg : forall loop c, cf_flushInterval (Flush_begin loop c) = cf_flushInterval c) by (intros; unfold Flush_begin; by repeat case_match).
  assert (Hbat : forall o fn c, cf_flushInterval (batch o fn c).2 = cf_flushInterval c) by (intros o fn c'; by destruct (batch_pending o fn c') as (_ & _ & _ & ? & _)).
  destruct op as [a d|o o' m|o o'|t q ty raw at_|o o' t q ty raw|o o'|t q ty|o o'|o de ot now|o now| | | |loop|o]; cbn [cache_op].
  - unfold queueFakeIP. by rewrite Henq.
  - unfold CacheFile_FakeIPSaveMetadata, Flush. by rewrite Flush_end_interval, Hbeg, Flush_end_interval, Henq.
  - unfold CacheFile_FakeIPReset. by rewrite Hbat, <- (Flush_end_interval o c).
  - unfold queueDNSCache. by rewrite Henq.
  - unfold DeleteDNSCache. rewrite <- (Flush_end_interval o c). destruct (pw_dnsCache _ !! _); [destruct (_ && _); [|done]|]; by rewrite Hbat.
  - unfold ClearDNSCache. by rewrite Hbat, <- (Flush_end_interval o c).
  - unfold queueRDRC. destruct (pw_rdrc _ !! _); [done|]. by rewrite Henq.
  - unfold clearRDRC. by rewrite Hbat, <- (Flush_end_interval o c).
  - apply Hbat.
  - apply Hbat.
  - done.
  - unfold timer_fires. by destruct (cf_timer c).
  - unfold take_signal. by destruct (cf_flushSignal c).
  - destruct (cf_writing c); [done|]. destruct (loop && _); [done|]. apply Hbeg.
  - apply Flush_end_interval.
Qed.

Lemma cache_run_interval ops c : cf_flushInterval (cache_run ops c) = cf_flushInterval c.
Proof. revert c. induction ops as [|op ops IH]; intros c; [done|]. cbn. fold (cache_run ops (cache_op op c)). by rewrite IH, cache_op_interval. Qed.

(** C35. Writes that are collected are counted exactly, whatever is replaced, deleted or put
    back.  With a flush interval above zero, which turns collecting on, they do not wait for
    ever: while there are any, the timer is set or the loop was woken, and once it was and no
    flush is going on, all of them are being written. *)
Theorem collected_writes_flushed id sr rt bs fi db ops : let c := cache_run ops (CacheFile_New id sr rt bs fi db) in
  pw_count (cf_pending c) = total (cf_pending c) /\
  (0 < fi -> 0 < total (cf_pending c) ->
     (cf_timer c = true \/ cf_due c = true) /\
     (cf_writing c = None -> let c' := cache_run [OpTimer; OpBegin true] c in cf_writing c' = Some (cf_pending c) /\ cf_pending c' = newPendingWrites)).
Proof.
  intros c. assert (Hok : writes_ok c) by (apply cache_run_run_ok; by split). destruct Hok as [Hc Hs]. unfold counted, scheduled in *. assert (Hfi : cf_flushInterval c = fi) by apply cache_run_interval. rewrite Hfi in Hs.
  split; [done|]. intros Hpos Hn. specialize (Hs Hpos ltac:(lia)). split; [done|]. intros Hw. cbn [cache_run foldl cache_op]. set (c1 := timer_fires c).
  assert (H1' : cf_writing c1 = None /\ cf_due c1 = true /\ cf_pending c1 = cf_pending c) by (unfold c1, timer_fires; destruct (cf_timer c) eqn:E; [done|]; by destruct Hs).
  destruct H1' as (-> & -> & Hp). cbn [negb andb]. unfold Flush_begin. rewrite Hp, (proj2 (Z.eqb_neq _ _)) by lia. done.
Qed.

(** C36. A response that was saved is found, with its expiry, until the same question is saved
    or deleted, the cache is cleared, the database is found corrupted, or a cleanup comes after
    the expiry and the optimistic time: whether what is flushed or cleaned up meanwhile is
    committed or fails, and while it is being written. *)
Theorem saved_response_survives id sr rt bs fi db ops1 t q ty raw at_ ops2 :
  Forall op_ok ops1 -> in_width 16 ty -> - 2 ^ 63 <= at_ < 2 ^ 63 -> Forall op_ok ops2 -> Forall (keeps_response (mkSaveCacheKey t q ty) at_) ops2 ->
  LoadDNSCache t q ty (cache_run ops2 (queueDNSCache t q ty raw at_ (cache_run ops1 (CacheFile_New id sr rt bs fi db)))) = Some (raw, at_).
Proof.
  intros Ho1 Hty Hat Ho2 Ht. set (key := mkSaveCacheKey t q ty). assert (Hk : key_ok key) by done. assert (H0' : keys_ok (CacheFile_New id sr rt bs fi db)).
  { split_and!; [intros k v; cbn; by rewrite lookup_empty|done|]. intros id'. cbn. destruct (bool_decide _); [done|]. intros [= <-]. by eexists. }
  set (value := be_bytes 8 (wrap 64 at_) ++ raw). destruct (run_entry ops1 _ key value Hk H0' Ho1) as [H1' _].
  destruct (queueDNSCache_entry t q ty raw at_ _ key H1' Hty) as [H2' He]. rewrite decide_True in He by done. destruct (run_entry ops2 _ key value Hk H2' Ho2) as [_ He2].
  apply LoadDNSCache_entry; [done|]. apply He2; [|exact He]. eapply Forall_impl; [exact Ht|]. intros op. by apply keeps_response_spares.
Qed.
End cache_claims.

(** ** Examples *)

Module Examples.
Import Sample.

Lemma inet4_ok : range_ok false inet4.
Proof. right. exists 3323068416. apply roomy_capacity; [done|split; vm_compute; done|split; vm_compute; done|vm_compute; done]. Qed.

Lemma inet6_ok : range_ok true inet6.
Proof. right. exists (64512 * 2 ^ 112). apply roomy_capacity; [done|split; vm_compute; done|split; vm_compute; done|vm_compute; done]. Qed.

Definition memory_start : FakeIPStore * MemoryStorage := Store_Start tt (NewStore inet4 inet6) (restarted NewMemoryStorage).


Lemma memory_create_well o d f (s : FakeIPStore) (t : MemoryStorage) : d <> ""%string -> create_well (fun _ _ _ => True) o d f s t.
Proof. by split. Qed.

Lemma fake_address_kept_witness :
  let before := store_run [DoCreate tt "a.com" false] memory_start in
  let '(r, s1, t1) := Create tt "b.com" false before.1 before.2 in
  let after := store_run [DoCreate tt "c.com" false; DoBackground tt; DoCreate tt "a.com" true; DoCreate tt "d.com" false] (s1, t1) in
  r = Ok (Addr4 3323068419) /\ Lookup (Addr4 3323068419) after.2 = Some "b.com"%string.
Proof.
  intros before. destruct (Create tt "b.com" false before.1 before.2) as [[r s1] t1] eqn:E. intros after. assert (Hr : r = Ok (Addr4 3323068419)).
  { apply (f_equal (fun x => x.1.1)) in E. cbn [fst] in E. rewrite <- E. vm_compute. reflexivity. }
  subst r. split; [done|].
  apply (fake_address_kept memory_ok (fun _ _ _ => True) (fun _ _ => True) inet4 inet6 tt NewMemoryStorage [DoCreate tt "a.com" false] tt "b.com" false (Addr4 3323068419) s1 t1
    [DoCreate tt "c.com" false; DoBackground tt; DoCreate tt "a.com" true; DoCreate tt "d.com" false]).
  - apply NewMemoryStorage_ok.
  - apply inet4_ok.
  - apply inet6_ok.
  - done.
  - repeat constructor.
  - by split; [apply memory_create_well|].
  - by apply memory_create_well.
  - vm_compute. reflexivity.
  - exact E.
  - split; [by apply memory_create_well|]. split; [done|]. split; [by apply memory_create_well|]. split; [by apply memory_create_well|done].
  - apply (f_equal (fun x => (x.1.2, x.2))) in E. cbn [fst snd] in E. rewrite <- E. vm_compute. reflexivity.
Defined.


(** A cache file that is new. *)
Definition committed : WriteOutcome := mkOutcome true 0 0.
Definition failed : WriteOutcome := mkOutcome false 0 0.
Definition new_file : CacheFile D := CacheFile_New "" true 0 0 60 (∅ : D).

Lemma empty_blank : blank (∅ : D).
Proof. intros q l. cbn. by destruct (bool_decide _). Qed.







(** That operations end well is computed. *)
Definition ends_wellb (o : WriteOutcome) (c : CacheFile D) : bool :=
  match cf_writing c with
  | None => true
  | Some w =>
      match transaction o c w with
      | Some _ => true
      | None => bool_decide (map_Forall (fun _ a => addr_IsValid a = true) (pw_fakeIPAddress4 w)) && bool_decide (map_Forall (fun _ a => addr_IsValid a = true) (pw_fakeIPAddress6 w))
      end
  end.

Lemma ends_wellb_well o c : ends_wellb o c = true -> ends_well o c.
Proof.
  unfold ends_wellb, ends_well. destruct (cf_writing c) as [w|]; [|done]. destruct (transaction o c w); [by left; eexists|]. intros [H4%bool_decide_eq_true H6%bool_decide_eq_true]%andb_true_iff. right.
  intros d f a. unfold fakeIPAddress. destruct f; intros Ha; [by eapply H6|by eapply H4].
Qed.

Definition op_wellb (op : CacheOp) (c : CacheFile D) : bool :=
  match op with
  | OpStore a d => bool_decide (proper a) && negb (bool_decide (d = ""%string)) && bool_decide (CacheFile_FakeIPLoadDomain AddrFromIP d (addr_Is6 a) c = None)
  | OpEnd o => ends_wellb o c
  | OpTimer | OpBegin _ => true
  | _ => false
  end.

Fixpoint ops_wellb (ops : list CacheOp) (c : CacheFile D) : bool :=
  match ops with
  | [] => true
  | op :: rest => op_wellb op c && ops_wellb rest (cache_op op c)
  end.

Lemma ops_wellb_well ops c : ops_wellb ops c = true -> cache_ops_well AddrFromIP ops c.
Proof.
  revert c. induction ops as [|op ops IH]; intros c; [done|]. cbn [ops_wellb cache_ops_well]. intros [Hop Hr]%andb_true_iff. split; [|by apply IH]. destruct op; try done; cbn [op_wellb cache_op_well] in *.
  - apply andb_true_iff in Hop as [[Ha%bool_decide_eq_true Hd%negb_true_iff%bool_decide_eq_false]%andb_true_iff Hn%bool_decide_eq_true]. done.
  - by apply ends_wellb_well.
Qed.

Lemma cache_file_refines_memory_witness : let a := Addr4 3323068420 in
  let ops := [OpStore a "a.com"; OpTimer; OpBegin true; OpStore (Addr4 3323068421) "b.com"; OpEnd failed; OpBegin false; OpEnd committed; OpStore a "c.com"] in
  CacheFile_FakeIPLoad a (cache_run ops new_file) = Memory_FakeIPLoad a (memory_run ops NewMemoryStorage).
Proof.
  intros a ops. apply (cache_file_refines_memory AddrFromIP "" true 0 0 60 (∅ : D) ops).
  - apply empty_blank.
  - apply ops_wellb_well. vm_compute. reflexivity.
  - split; vm_compute; done.
Defined.

Lemma collected_writes_flushed_witness : let c := cache_run [OpStore (Addr4 3323068420) "a.com"; OpDNS "local" "b.com." 1 [5] 9] new_file in
  pw_count (cf_pending c) = 2 /\ cf_timer c = true /\ cf_writing (cache_run [OpTimer; OpBegin true] c) = Some (cf_pending c).
Proof.
  intros c. destruct (collected_writes_flushed "" true 0 0 60 (∅ : D) [OpStore (Addr4 3323068420) "a.com"; OpDNS "local" "b.com." 1 [5] 9]) as [Hc Hf]. fold new_file in Hc, Hf. fold c in Hc, Hf.
  assert (Ht : total (cf_pending c) = 2) by (vm_compute; reflexivity). split; [by rewrite Hc|]. rewrite Ht in Hf. destruct (Hf ltac:(lia) ltac:(lia)) as [_ Hw]. split; [vm_compute; reflexivity|].
  apply Hw. vm_compute. reflexivity.
Defined.

Lemma saved_response_survives_witness :
  LoadDNSCache "local" "a.com." 1 (cache_run [OpTimer; OpBegin true; OpDNS "local" "b.com." 1 [5] 9; OpEnd failed; OpBegin false; OpEnd committed;
    OpDNSCleanup committed false 3600000000000 1700003600000000000; OpRDRCCleanup committed 1800000000000000000] (queueDNSCache "local" "a.com." 1 [1; 2; 3] 1700000000 new_file))
  = Some ([1; 2; 3], 1700000000).
Proof.
  apply (saved_response_survives "" true 0 0 60 (∅ : D) []); [done|done|lia|by repeat constructor|].
  repeat first [apply Forall_nil_2 | apply Forall_cons_2]; split; try reflexivity; try exact I. right. vm_compute. discriminate.
Defined.

(** A cleanup later removes the response, and with it the bucket that is empty then. *)
Example cleanup_removes_expired :
  let c := cache_run [OpDNS "local" "a.com." 1 [1; 2; 3] 1700000000; OpDNS "other" "a.com." 1 [4] 1800000000; OpBegin false; OpEnd committed;
    OpDNSCleanup committed false 3600000000000 1700003600000000001] new_file in
  LoadDNSCache "local" "a.com." 1 c = None /\ LoadDNSCache "other" "a.com." 1 c = Some ([4], 1800000000) /\ bolt_ForEachBucket ["dns_cache"%string] (cf_DB c) = ["other"%string].
Proof. split_and!; vm_compute; reflexivity. Qed.

(** The address of a domain is given to another one, and the flush fails: the domain has
    the address again, although the address leads to the other one. *)
Example evicted_domain_returns : let a := Addr4 3323068420 in
  let c := cache_run [OpStore a "a.com"; OpBegin false; OpEnd committed; OpStore a "c.com"; OpBegin false; OpEnd failed] new_file in
  CacheFile_FakeIPLoadDomain AddrFromIP "a.com" false c = Some a /\ CacheFile_FakeIPLoad a c = Some "c.com"%string.
Proof. split; vm_compute; reflexivity. Qed.

(** The domain of the root is blank, which is no key: nothing is written any more. *)
Example blank_domain_blocks :
  let c := cache_run [OpStore (Addr4 3323068420) ""; OpDNS "local" "b.com." 1 [5] 9; OpBegin false; OpEnd committed; OpBegin false; OpEnd committed] new_file in
  pw_count (cf_pending c) = 2 /\ cf_DB c = ∅.
Proof. split; vm_compute; reflexivity. Qed.

(** A range with one address: the next one is outside. *)
Example small_range_leaves : let s := (Store_Start tt (NewStore (mkPrefix (Addr4 3323068416) 31) zero_prefix) (restarted NewMemoryStorage)) in
  let '(r, s1, _) := Create tt "a.com" false s.1 s.2 in r = Ok (Addr4 3323068418) /\ Store_Contains (Addr4 3323068418) s1 = false.
Proof. vm_compute. split; reflexivity. Qed.
End Examples.
