(* ===== verification/HeadlessFields.v ===== *)
(** * Field updates of headless rule options

    [rule.Field = v] for the fields of [option.DefaultHeadlessRule] that decoding a
    binary rule-set assigns. *)

From stdpp Require Import base strings list.
From Stdlib Require Import ZArith.
From S2P Require Import Prelude Net IPSet RuleOptions.

Definition ho_set_QueryType (v : list Z) (o : DefaultHeadlessRule) : DefaultHeadlessRule :=
  mkDefaultHeadlessRule v (ho_Network o) (ho_Domain o) (ho_DomainSuffix o) (ho_DomainKeyword o)
    (ho_DomainRegex o) (ho_SourceIPCIDR o) (ho_IPCIDR o) (ho_SourcePort o) (ho_SourcePortRange o)
    (ho_Port o) (ho_PortRange o) (ho_ProcessName o) (ho_ProcessPath o) (ho_ProcessPathRegex o)
    (ho_PackageName o) (ho_PackageNameRegex o) (ho_NetworkType o) (ho_NetworkIsExpensive o)
    (ho_NetworkIsConstrained o) (ho_WIFISSID o) (ho_WIFIBSSID o) (ho_DomainMatchStrategy o)
    (ho_NetworkInterfaceAddress o) (ho_DefaultInterfaceAddress o) (ho_Invert o) (ho_DomainMatcher o)
    (ho_SourceIPSet o) (ho_IPSet o) (ho_AdGuardDomain o) (ho_AdGuardDomainMatcher o).

Definition ho_set_Network (v : list string) (o : DefaultHeadlessRule) : DefaultHeadlessRule :=
  mkDefaultHeadlessRule (ho_QueryType o) v (ho_Domain o) (ho_DomainSuffix o) (ho_DomainKeyword o)
    (ho_DomainRegex o) (ho_SourceIPCIDR o) (ho_IPCIDR o) (ho_SourcePort o) (ho_SourcePortRange o)
    (ho_Port o) (ho_PortRange o) (ho_ProcessName o) (ho_ProcessPath o) (ho_ProcessPathRegex o)
    (ho_PackageName o) (ho_PackageNameRegex o) (ho_NetworkType o) (ho_NetworkIsExpensive o)
    (ho_NetworkIsConstrained o) (ho_WIFISSID o) (ho_WIFIBSSID o) (ho_DomainMatchStrategy o)
    (ho_NetworkInterfaceAddress o) (ho_DefaultInterfaceAddress o) (ho_Invert o) (ho_DomainMatcher o)
    (ho_SourceIPSet o) (ho_IPSet o) (ho_AdGuardDomain o) (ho_AdGuardDomainMatcher o).

Definition ho_set_Domain (v : list string) (o : DefaultHeadlessRule) : DefaultHeadlessRule :=
  mkDefaultHeadlessRule (ho_QueryType o) (ho_Network o) v (ho_DomainSuffix o) (ho_DomainKeyword o)
    (ho_DomainRegex o) (ho_SourceIPCIDR o) (ho_IPCIDR o) (ho_SourcePort o) (ho_SourcePortRange o)
    (ho_Port o) (ho_PortRange o) (ho_ProcessName o) (ho_ProcessPath o) (ho_ProcessPathRegex o)
    (ho_PackageName o) (ho_PackageNameRegex o) (ho_NetworkType o) (ho_NetworkIsExpensive o)
    (ho_NetworkIsConstrained o) (ho_WIFISSID o) (ho_WIFIBSSID o) (ho_DomainMatchStrategy o)
    (ho_NetworkInterfaceAddress o) (ho_DefaultInterfaceAddress o) (ho_Invert o) (ho_DomainMatcher o)
    (ho_SourceIPSet o) (ho_IPSet o) (ho_AdGuardDomain o) (ho_AdGuardDomainMatcher o).

Definition ho_set_DomainSuffix (v : list string) (o : DefaultHeadlessRule) : DefaultHeadlessRule :=
  mkDefaultHeadlessRule (ho_QueryType o) (ho_Network o) (ho_Domain o) v (ho_DomainKeyword o)
    (ho_DomainRegex o) (ho_SourceIPCIDR o) (ho_IPCIDR o) (ho_SourcePort o) (ho_SourcePortRange o)
    (ho_Port o) (ho_PortRange o) (ho_ProcessName o) (ho_ProcessPath o) (ho_ProcessPathRegex o)
    (ho_PackageName o) (ho_PackageNameRegex o) (ho_NetworkType o) (ho_NetworkIsExpensive o)
    (ho_NetworkIsConstrained o) (ho_WIFISSID o) (ho_WIFIBSSID o) (ho_DomainMatchStrategy o)
    (ho_NetworkInterfaceAddress o) (ho_DefaultInterfaceAddress o) (ho_Invert o) (ho_DomainMatcher o)
    (ho_SourceIPSet o) (ho_IPSet o) (ho_AdGuardDomain o) (ho_AdGuardDomainMatcher o).

Definition ho_set_DomainMatcher (v : option (string -> bool)) (o : DefaultHeadlessRule) : DefaultHeadlessRule :=
  mkDefaultHeadlessRule (ho_QueryType o) (ho_Network o) (ho_Domain o) (ho_DomainSuffix o)
    (ho_DomainKeyword o) (ho_DomainRegex o) (ho_SourceIPCIDR o) (ho_IPCIDR o) (ho_SourcePort o)
    (ho_SourcePortRange o) (ho_Port o) (ho_PortRange o) (ho_ProcessName o) (ho_ProcessPath o)
    (ho_ProcessPathRegex o) (ho_PackageName o) (ho_PackageNameRegex o) (ho_NetworkType o)
    (ho_NetworkIsExpensive o) (ho_NetworkIsConstrained o) (ho_WIFISSID o) (ho_WIFIBSSID o)
    (ho_DomainMatchStrategy o) (ho_NetworkInterfaceAddress o) (ho_DefaultInterfaceAddress o) (ho_Invert o) v
    (ho_SourceIPSet o) (ho_IPSet o) (ho_AdGuardDomain o) (ho_AdGuardDomainMatcher o).

Definition ho_set_DomainKeyword (v : list string) (o : DefaultHeadlessRule) : DefaultHeadlessRule :=
  mkDefaultHeadlessRule (ho_QueryType o) (ho_Network o) (ho_Domain o) (ho_DomainSuffix o) v
    (ho_DomainRegex o) (ho_SourceIPCIDR o) (ho_IPCIDR o) (ho_SourcePort o) (ho_SourcePortRange o)
    (ho_Port o) (ho_PortRange o) (ho_ProcessName o) (ho_ProcessPath o) (ho_ProcessPathRegex o)
    (ho_PackageName o) (ho_PackageNameRegex o) (ho_NetworkType o) (ho_NetworkIsExpensive o)
    (ho_NetworkIsConstrained o) (ho_WIFISSID o) (ho_WIFIBSSID o) (ho_DomainMatchStrategy o)
    (ho_NetworkInterfaceAddress o) (ho_DefaultInterfaceAddress o) (ho_Invert o) (ho_DomainMatcher o)
    (ho_SourceIPSet o) (ho_IPSet o) (ho_AdGuardDomain o) (ho_AdGuardDomainMatcher o).

Definition ho_set_DomainRegex (v : list string) (o : DefaultHeadlessRule) : DefaultHeadlessRule :=
  mkDefaultHeadlessRule (ho_QueryType o) (ho_Network o) (ho_Domain o) (ho_DomainSuffix o)
    (ho_DomainKeyword o) v (ho_SourceIPCIDR o) (ho_IPCIDR o) (ho_SourcePort o) (ho_SourcePortRange o)
    (ho_Port o) (ho_PortRange o) (ho_ProcessName o) (ho_ProcessPath o) (ho_ProcessPathRegex o)
    (ho_PackageName o) (ho_PackageNameRegex o) (ho_NetworkType o) (ho_NetworkIsExpensive o)
    (ho_NetworkIsConstrained o) (ho_WIFISSID o) (ho_WIFIBSSID o) (ho_DomainMatchStrategy o)
    (ho_NetworkInterfaceAddress o) (ho_DefaultInterfaceAddress o) (ho_Invert o) (ho_DomainMatcher o)
    (ho_SourceIPSet o) (ho_IPSet o) (ho_AdGuardDomain o) (ho_AdGuardDomainMatcher o).

Definition ho_set_SourceIPSet (v : option Set_) (o : DefaultHeadlessRule) : DefaultHeadlessRule :=
  mkDefaultHeadlessRule (ho_QueryType o) (ho_Network o) (ho_Domain o) (ho_DomainSuffix o)
    (ho_DomainKeyword o) (ho_DomainRegex o) (ho_SourceIPCIDR o) (ho_IPCIDR o) (ho_SourcePort o)
    (ho_SourcePortRange o) (ho_Port o) (ho_PortRange o) (ho_ProcessName o) (ho_ProcessPath o)
    (ho_ProcessPathRegex o) (ho_PackageName o) (ho_PackageNameRegex o) (ho_NetworkType o)
    (ho_NetworkIsExpensive o) (ho_NetworkIsConstrained o) (ho_WIFISSID o) (ho_WIFIBSSID o)
    (ho_DomainMatchStrategy o) (ho_NetworkInterfaceAddress o) (ho_DefaultInterfaceAddress o) (ho_Invert o)
    (ho_DomainMatcher o) v (ho_IPSet o) (ho_AdGuardDomain o) (ho_AdGuardDomainMatcher o).

Definition ho_set_SourceIPCIDR (v : list Prefix) (o : DefaultHeadlessRule) : DefaultHeadlessRule :=
  mkDefaultHeadlessRule (ho_QueryType o) (ho_Network o) (ho_Domain o) (ho_DomainSuffix o)
    (ho_DomainKeyword o) (ho_DomainRegex o) v (ho_IPCIDR o) (ho_SourcePort o) (ho_SourcePortRange o)
    (ho_Port o) (ho_PortRange o) (ho_ProcessName o) (ho_ProcessPath o) (ho_ProcessPathRegex o)
    (ho_PackageName o) (ho_PackageNameRegex o) (ho_NetworkType o) (ho_NetworkIsExpensive o)
    (ho_NetworkIsConstrained o) (ho_WIFISSID o) (ho_WIFIBSSID o) (ho_DomainMatchStrategy o)
    (ho_NetworkInterfaceAddress o) (ho_DefaultInterfaceAddress o) (ho_Invert o) (ho_DomainMatcher o)
    (ho_SourceIPSet o) (ho_IPSet o) (ho_AdGuardDomain o) (ho_AdGuardDomainMatcher o).

Definition ho_set_IPSet (v : option Set_) (o : DefaultHeadlessRule) : DefaultHeadlessRule :=
  mkDefaultHeadlessRule (ho_QueryType o) (ho_Network o) (ho_Domain o) (ho_DomainSuffix o)
    (ho_DomainKeyword o) (ho_DomainRegex o) (ho_SourceIPCIDR o) (ho_IPCIDR o) (ho_SourcePort o)
    (ho_SourcePortRange o) (ho_Port o) (ho_PortRange o) (ho_ProcessName o) (ho_ProcessPath o)
    (ho_ProcessPathRegex o) (ho_PackageName o) (ho_PackageNameRegex o) (ho_NetworkType o)
    (ho_NetworkIsExpensive o) (ho_NetworkIsConstrained o) (ho_WIFISSID o) (ho_WIFIBSSID o)
    (ho_DomainMatchStrategy o) (ho_NetworkInterfaceAddress o) (ho_DefaultInterfaceAddress o) (ho_Invert o)
    (ho_DomainMatcher o) (ho_SourceIPSet o) v (ho_AdGuardDomain o) (ho_AdGuardDomainMatcher o).

Definition ho_set_IPCIDR (v : list Prefix) (o : DefaultHeadlessRule) : DefaultHeadlessRule :=
  mkDefaultHeadlessRule (ho_QueryType o) (ho_Network o) (ho_Domain o) (ho_DomainSuffix o)
    (ho_DomainKeyword o) (ho_DomainRegex o) (ho_SourceIPCIDR o) v (ho_SourcePort o) (ho_SourcePortRange o)
    (ho_Port o) (ho_PortRange o) (ho_ProcessName o) (ho_ProcessPath o) (ho_ProcessPathRegex o)
    (ho_PackageName o) (ho_PackageNameRegex o) (ho_NetworkType o) (ho_NetworkIsExpensive o)
    (ho_NetworkIsConstrained o) (ho_WIFISSID o) (ho_WIFIBSSID o) (ho_DomainMatchStrategy o)
    (ho_NetworkInterfaceAddress o) (ho_DefaultInterfaceAddress o) (ho_Invert o) (ho_DomainMatcher o)
    (ho_SourceIPSet o) (ho_IPSet o) (ho_AdGuardDomain o) (ho_AdGuardDomainMatcher o).

Definition ho_set_SourcePort (v : list Z) (o : DefaultHeadlessRule) : DefaultHeadlessRule :=
  mkDefaultHeadlessRule (ho_QueryType o) (ho_Network o) (ho_Domain o) (ho_DomainSuffix o)
    (ho_DomainKeyword o) (ho_DomainRegex o) (ho_SourceIPCIDR o) (ho_IPCIDR o) v (ho_SourcePortRange o)
    (ho_Port o) (ho_PortRange o) (ho_ProcessName o) (ho_ProcessPath o) (ho_ProcessPathRegex o)
    (ho_PackageName o) (ho_PackageNameRegex o) (ho_NetworkType o) (ho_NetworkIsExpensive o)
    (ho_NetworkIsConstrained o) (ho_WIFISSID o) (ho_WIFIBSSID o) (ho_DomainMatchStrategy o)
    (ho_NetworkInterfaceAddress o) (ho_DefaultInterfaceAddress o) (ho_Invert o) (ho_DomainMatcher o)
    (ho_SourceIPSet o) (ho_IPSet o) (ho_AdGuardDomain o) (ho_AdGuardDomainMatcher o).

Definition ho_set_SourcePortRange (v : list string) (o : DefaultHeadlessRule) : DefaultHeadlessRule :=
  mkDefaultHeadlessRule (ho_QueryType o) (ho_Network o) (ho_Domain o) (ho_DomainSuffix o)
    (ho_DomainKeyword o) (ho_DomainRegex o) (ho_SourceIPCIDR o) (ho_IPCIDR o) (ho_SourcePort o) v
    (ho_Port o) (ho_PortRange o) (ho_ProcessName o) (ho_ProcessPath o) (ho_ProcessPathRegex o)
    (ho_PackageName o) (ho_PackageNameRegex o) (ho_NetworkType o) (ho_NetworkIsExpensive o)
    (ho_NetworkIsConstrained o) (ho_WIFISSID o) (ho_WIFIBSSID o) (ho_DomainMatchStrategy o)
    (ho_NetworkInterfaceAddress o) (ho_DefaultInterfaceAddress o) (ho_Invert o) (ho_DomainMatcher o)
    (ho_SourceIPSet o) (ho_IPSet o) (ho_AdGuardDomain o) (ho_AdGuardDomainMatcher o).

Definition ho_set_Port (v : list Z) (o : DefaultHeadlessRule) : DefaultHeadlessRule :=
  mkDefaultHeadlessRule (ho_QueryType o) (ho_Network o) (ho_Domain o) (ho_DomainSuffix o)
    (ho_DomainKeyword o) (ho_DomainRegex o) (ho_SourceIPCIDR o) (ho_IPCIDR o) (ho_SourcePort o)
    (ho_SourcePortRange o) v (ho_PortRange o) (ho_ProcessName o) (ho_ProcessPath o) (ho_ProcessPathRegex o)
    (ho_PackageName o) (ho_PackageNameRegex o) (ho_NetworkType o) (ho_NetworkIsExpensive o)
    (ho_NetworkIsConstrained o) (ho_WIFISSID o) (ho_WIFIBSSID o) (ho_DomainMatchStrategy o)
    (ho_NetworkInterfaceAddress o) (ho_DefaultInterfaceAddress o) (ho_Invert o) (ho_DomainMatcher o)
    (ho_SourceIPSet o) (ho_IPSet o) (ho_AdGuardDomain o) (ho_AdGuardDomainMatcher o).

Definition ho_set_PortRange (v : list string) (o : DefaultHeadlessRule) : DefaultHeadlessRule :=
  mkDefaultHeadlessRule (ho_QueryType o) (ho_Network o) (ho_Domain o) (ho_DomainSuffix o)
    (ho_DomainKeyword o) (ho_DomainRegex o) (ho_SourceIPCIDR o) (ho_IPCIDR o) (ho_SourcePort o)
    (ho_SourcePortRange o) (ho_Port o) v (ho_ProcessName o) (ho_ProcessPath o) (ho_ProcessPathRegex o)
    (ho_PackageName o) (ho_PackageNameRegex o) (ho_NetworkType o) (ho_NetworkIsExpensive o)
    (ho_NetworkIsConstrained o) (ho_WIFISSID o) (ho_WIFIBSSID o) (ho_DomainMatchStrategy o)
    (ho_NetworkInterfaceAddress o) (ho_DefaultInterfaceAddress o) (ho_Invert o) (ho_DomainMatcher o)
    (ho_SourceIPSet o) (ho_IPSet o) (ho_AdGuardDomain o) (ho_AdGuardDomainMatcher o).

Definition ho_set_ProcessName (v : list string) (o : DefaultHeadlessRule) : DefaultHeadlessRule :=
  mkDefaultHeadlessRule (ho_QueryType o) (ho_Network o) (ho_Domain o) (ho_DomainSuffix o)
    (ho_DomainKeyword o) (ho_DomainRegex o) (ho_SourceIPCIDR o) (ho_IPCIDR o) (ho_SourcePort o)
    (ho_SourcePortRange o) (ho_Port o) (ho_PortRange o) v (ho_ProcessPath o) (ho_ProcessPathRegex o)
    (ho_PackageName o) (ho_PackageNameRegex o) (ho_NetworkType o) (ho_NetworkIsExpensive o)
    (ho_NetworkIsConstrained o) (ho_WIFISSID o) (ho_WIFIBSSID o) (ho_DomainMatchStrategy o)
    (ho_NetworkInterfaceAddress o) (ho_DefaultInterfaceAddress o) (ho_Invert o) (ho_DomainMatcher o)
    (ho_SourceIPSet o) (ho_IPSet o) (ho_AdGuardDomain o) (ho_AdGuardDomainMatcher o).

Definition ho_set_ProcessPath (v : list string) (o : DefaultHeadlessRule) : DefaultHeadlessRule :=
  mkDefaultHeadlessRule (ho_QueryType o) (ho_Network o) (ho_Domain o) (ho_DomainSuffix o)
    (ho_DomainKeyword o) (ho_DomainRegex o) (ho_SourceIPCIDR o) (ho_IPCIDR o) (ho_SourcePort o)
    (ho_SourcePortRange o) (ho_Port o) (ho_PortRange o) (ho_ProcessName o) v (ho_ProcessPathRegex o)
    (ho_PackageName o) (ho_PackageNameRegex o) (ho_NetworkType o) (ho_NetworkIsExpensive o)
    (ho_NetworkIsConstrained o) (ho_WIFISSID o) (ho_WIFIBSSID o) (ho_DomainMatchStrategy o)
    (ho_NetworkInterfaceAddress o) (ho_DefaultInterfaceAddress o) (ho_Invert o) (ho_DomainMatcher o)
    (ho_SourceIPSet o) (ho_IPSet o) (ho_AdGuardDomain o) (ho_AdGuardDomainMatcher o).

Definition ho_set_ProcessPathRegex (v : list string) (o : DefaultHeadlessRule) : DefaultHeadlessRule :=
  mkDefaultHeadlessRule (ho_QueryType o) (ho_Network o) (ho_Domain o) (ho_DomainSuffix o)
    (ho_DomainKeyword o) (ho_DomainRegex o) (ho_SourceIPCIDR o) (ho_IPCIDR o) (ho_SourcePort o)
    (ho_SourcePortRange o) (ho_Port o) (ho_PortRange o) (ho_ProcessName o) (ho_ProcessPath o) v
    (ho_PackageName o) (ho_PackageNameRegex o) (ho_NetworkType o) (ho_NetworkIsExpensive o)
    (ho_NetworkIsConstrained o) (ho_WIFISSID o) (ho_WIFIBSSID o) (ho_DomainMatchStrategy o)
    (ho_NetworkInterfaceAddress o) (ho_DefaultInterfaceAddress o) (ho_Invert o) (ho_DomainMatcher o)
    (ho_SourceIPSet o) (ho_IPSet o) (ho_AdGuardDomain o) (ho_AdGuardDomainMatcher o).

Definition ho_set_PackageName (v : list string) (o : DefaultHeadlessRule) : DefaultHeadlessRule :=
  mkDefaultHeadlessRule (ho_QueryType o) (ho_Network o) (ho_Domain o) (ho_DomainSuffix o)
    (ho_DomainKeyword o) (ho_DomainRegex o) (ho_SourceIPCIDR o) (ho_IPCIDR o) (ho_SourcePort o)
    (ho_SourcePortRange o) (ho_Port o) (ho_PortRange o) (ho_ProcessName o) (ho_ProcessPath o)
    (ho_ProcessPathRegex o) v (ho_PackageNameRegex o) (ho_NetworkType o) (ho_NetworkIsExpensive o)
    (ho_NetworkIsConstrained o) (ho_WIFISSID o) (ho_WIFIBSSID o) (ho_DomainMatchStrategy o)
    (ho_NetworkInterfaceAddress o) (ho_DefaultInterfaceAddress o) (ho_Invert o) (ho_DomainMatcher o)
    (ho_SourceIPSet o) (ho_IPSet o) (ho_AdGuardDomain o) (ho_AdGuardDomainMatcher o).

Definition ho_set_PackageNameRegex (v : list string) (o : DefaultHeadlessRule) : DefaultHeadlessRule :=
  mkDefaultHeadlessRule (ho_QueryType o) (ho_Network o) (ho_Domain o) (ho_DomainSuffix o)
    (ho_DomainKeyword o) (ho_DomainRegex o) (ho_SourceIPCIDR o) (ho_IPCIDR o) (ho_SourcePort o)
    (ho_SourcePortRange o) (ho_Port o) (ho_PortRange o) (ho_ProcessName o) (ho_ProcessPath o)
    (ho_ProcessPathRegex o) (ho_PackageName o) v (ho_NetworkType o) (ho_NetworkIsExpensive o)
    (ho_NetworkIsConstrained o) (ho_WIFISSID o) (ho_WIFIBSSID o) (ho_DomainMatchStrategy o)
    (ho_NetworkInterfaceAddress o) (ho_DefaultInterfaceAddress o) (ho_Invert o) (ho_DomainMatcher o)
    (ho_SourceIPSet o) (ho_IPSet o) (ho_AdGuardDomain o) (ho_AdGuardDomainMatcher o).

Definition ho_set_WIFISSID (v : list string) (o : DefaultHeadlessRule) : DefaultHeadlessRule :=
  mkDefaultHeadlessRule (ho_QueryType o) (ho_Network o) (ho_Domain o) (ho_DomainSuffix o)
    (ho_DomainKeyword o) (ho_DomainRegex o) (ho_SourceIPCIDR o) (ho_IPCIDR o) (ho_SourcePort o)
    (ho_SourcePortRange o) (ho_Port o) (ho_PortRange o) (ho_ProcessName o) (ho_ProcessPath o)
    (ho_ProcessPathRegex o) (ho_PackageName o) (ho_PackageNameRegex o) (ho_NetworkType o)
    (ho_NetworkIsExpensive o) (ho_NetworkIsConstrained o) v (ho_WIFIBSSID o) (ho_DomainMatchStrategy o)
    (ho_NetworkInterfaceAddress o) (ho_DefaultInterfaceAddress o) (ho_Invert o) (ho_DomainMatcher o)
    (ho_SourceIPSet o) (ho_IPSet o) (ho_AdGuardDomain o) (ho_AdGuardDomainMatcher o).

Definition ho_set_WIFIBSSID (v : list string) (o : DefaultHeadlessRule) : DefaultHeadlessRule :=
  mkDefaultHeadlessRule (ho_QueryType o) (ho_Network o) (ho_Domain o) (ho_DomainSuffix o)
    (ho_DomainKeyword o) (ho_DomainRegex o) (ho_SourceIPCIDR o) (ho_IPCIDR o) (ho_SourcePort o)
    (ho_SourcePortRange o) (ho_Port o) (ho_PortRange o) (ho_ProcessName o) (ho_ProcessPath o)
    (ho_ProcessPathRegex o) (ho_PackageName o) (ho_PackageNameRegex o) (ho_NetworkType o)
    (ho_NetworkIsExpensive o) (ho_NetworkIsConstrained o) (ho_WIFISSID o) v (ho_DomainMatchStrategy o)
    (ho_NetworkInterfaceAddress o) (ho_DefaultInterfaceAddress o) (ho_Invert o) (ho_DomainMatcher o)
    (ho_SourceIPSet o) (ho_IPSet o) (ho_AdGuardDomain o) (ho_AdGuardDomainMatcher o).

Definition ho_set_AdGuardDomainMatcher (v : option (string -> bool)) (o : DefaultHeadlessRule) : DefaultHeadlessRule :=
  mkDefaultHeadlessRule (ho_QueryType o) (ho_Network o) (ho_Domain o) (ho_DomainSuffix o)
    (ho_DomainKeyword o) (ho_DomainRegex o) (ho_SourceIPCIDR o) (ho_IPCIDR o) (ho_SourcePort o)
    (ho_SourcePortRange o) (ho_Port o) (ho_PortRange o) (ho_ProcessName o) (ho_ProcessPath o)
    (ho_ProcessPathRegex o) (ho_PackageName o) (ho_PackageNameRegex o) (ho_NetworkType o)
    (ho_NetworkIsExpensive o) (ho_NetworkIsConstrained o) (ho_WIFISSID o) (ho_WIFIBSSID o)
    (ho_DomainMatchStrategy o) (ho_NetworkInterfaceAddress o) (ho_DefaultInterfaceAddress o) (ho_Invert o)
    (ho_DomainMatcher o) (ho_SourceIPSet o) (ho_IPSet o) (ho_AdGuardDomain o) v.

Definition ho_set_AdGuardDomain (v : list string) (o : DefaultHeadlessRule) : DefaultHeadlessRule :=
  mkDefaultHeadlessRule (ho_QueryType o) (ho_Network o) (ho_Domain o) (ho_DomainSuffix o)
    (ho_DomainKeyword o) (ho_DomainRegex o) (ho_SourceIPCIDR o) (ho_IPCIDR o) (ho_SourcePort o)
    (ho_SourcePortRange o) (ho_Port o) (ho_PortRange o) (ho_ProcessName o) (ho_ProcessPath o)
    (ho_ProcessPathRegex o) (ho_PackageName o) (ho_PackageNameRegex o) (ho_NetworkType o)
    (ho_NetworkIsExpensive o) (ho_NetworkIsConstrained o) (ho_WIFISSID o) (ho_WIFIBSSID o)
    (ho_DomainMatchStrategy o) (ho_NetworkInterfaceAddress o) (ho_DefaultInterfaceAddress o) (ho_Invert o)
    (ho_DomainMatcher o) (ho_SourceIPSet o) (ho_IPSet o) v (ho_AdGuardDomainMatcher o).

Definition ho_set_NetworkType (v : list Z) (o : DefaultHeadlessRule) : DefaultHeadlessRule :=
  mkDefaultHeadlessRule (ho_QueryType o) (ho_Network o) (ho_Domain o) (ho_DomainSuffix o)
    (ho_DomainKeyword o) (ho_DomainRegex o) (ho_SourceIPCIDR o) (ho_IPCIDR o) (ho_SourcePort o)
    (ho_SourcePortRange o) (ho_Port o) (ho_PortRange o) (ho_ProcessName o) (ho_ProcessPath o)
    (ho_ProcessPathRegex o) (ho_PackageName o) (ho_PackageNameRegex o) v (ho_NetworkIsExpensive o)
    (ho_NetworkIsConstrained o) (ho_WIFISSID o) (ho_WIFIBSSID o) (ho_DomainMatchStrategy o)
    (ho_NetworkInterfaceAddress o) (ho_DefaultInterfaceAddress o) (ho_Invert o) (ho_DomainMatcher o)
    (ho_SourceIPSet o) (ho_IPSet o) (ho_AdGuardDomain o) (ho_AdGuardDomainMatcher o).

Definition ho_set_NetworkIsExpensive (v : bool) (o : DefaultHeadlessRule) : DefaultHeadlessRule :=
  mkDefaultHeadlessRule (ho_QueryType o) (ho_Network o) (ho_Domain o) (ho_DomainSuffix o)
    (ho_DomainKeyword o) (ho_DomainRegex o) (ho_SourceIPCIDR o) (ho_IPCIDR o) (ho_SourcePort o)
    (ho_SourcePortRange o) (ho_Port o) (ho_PortRange o) (ho_ProcessName o) (ho_ProcessPath o)
    (ho_ProcessPathRegex o) (ho_PackageName o) (ho_PackageNameRegex o) (ho_NetworkType o) v
    (ho_NetworkIsConstrained o) (ho_WIFISSID o) (ho_WIFIBSSID o) (ho_DomainMatchStrategy o)
    (ho_NetworkInterfaceAddress o) (ho_DefaultInterfaceAddress o) (ho_Invert o) (ho_DomainMatcher o)
    (ho_SourceIPSet o) (ho_IPSet o) (ho_AdGuardDomain o) (ho_AdGuardDomainMatcher o).

Definition ho_set_NetworkIsConstrained (v : bool) (o : DefaultHeadlessRule) : DefaultHeadlessRule :=
  mkDefaultHeadlessRule (ho_QueryType o) (ho_Network o) (ho_Domain o) (ho_DomainSuffix o)
    (ho_DomainKeyword o) (ho_DomainRegex o) (ho_SourceIPCIDR o) (ho_IPCIDR o) (ho_SourcePort o)
    (ho_SourcePortRange o) (ho_Port o) (ho_PortRange o) (ho_ProcessName o) (ho_ProcessPath o)
    (ho_ProcessPathRegex o) (ho_PackageName o) (ho_PackageNameRegex o) (ho_NetworkType o)
    (ho_NetworkIsExpensive o) v (ho_WIFISSID o) (ho_WIFIBSSID o) (ho_DomainMatchStrategy o)
    (ho_NetworkInterfaceAddress o) (ho_DefaultInterfaceAddress o) (ho_Invert o) (ho_DomainMatcher o)
    (ho_SourceIPSet o) (ho_IPSet o) (ho_AdGuardDomain o) (ho_AdGuardDomainMatcher o).

Definition ho_set_NetworkInterfaceAddress (v : list (Z * list Prefix)) (o : DefaultHeadlessRule) : DefaultHeadlessRule :=
  mkDefaultHeadlessRule (ho_QueryType o) (ho_Network o) (ho_Domain o) (ho_DomainSuffix o)
    (ho_DomainKeyword o) (ho_DomainRegex o) (ho_SourceIPCIDR o) (ho_IPCIDR o) (ho_SourcePort o)
    (ho_SourcePortRange o) (ho_Port o) (ho_PortRange o) (ho_ProcessName o) (ho_ProcessPath o)
    (ho_ProcessPathRegex o) (ho_PackageName o) (ho_PackageNameRegex o) (ho_NetworkType o)
    (ho_NetworkIsExpensive o) (ho_NetworkIsConstrained o) (ho_WIFISSID o) (ho_WIFIBSSID o)
    (ho_DomainMatchStrategy o) v (ho_DefaultInterfaceAddress o) (ho_Invert o) (ho_DomainMatcher o)
    (ho_SourceIPSet o) (ho_IPSet o) (ho_AdGuardDomain o) (ho_AdGuardDomainMatcher o).

Definition ho_set_DefaultInterfaceAddress (v : list Prefix) (o : DefaultHeadlessRule) : DefaultHeadlessRule :=
  mkDefaultHeadlessRule (ho_QueryType o) (ho_Network o) (ho_Domain o) (ho_DomainSuffix o)
    (ho_DomainKeyword o) (ho_DomainRegex o) (ho_SourceIPCIDR o) (ho_IPCIDR o) (ho_SourcePort o)
    (ho_SourcePortRange o) (ho_Port o) (ho_PortRange o) (ho_ProcessName o) (ho_ProcessPath o)
    (ho_ProcessPathRegex o) (ho_PackageName o) (ho_PackageNameRegex o) (ho_NetworkType o)
    (ho_NetworkIsExpensive o) (ho_NetworkIsConstrained o) (ho_WIFISSID o) (ho_WIFIBSSID o)
    (ho_DomainMatchStrategy o) (ho_NetworkInterfaceAddress o) v (ho_Invert o) (ho_DomainMatcher o)
    (ho_SourceIPSet o) (ho_IPSet o) (ho_AdGuardDomain o) (ho_AdGuardDomainMatcher o).

Definition ho_set_Invert (v : bool) (o : DefaultHeadlessRule) : DefaultHeadlessRule :=
  mkDefaultHeadlessRule (ho_QueryType o) (ho_Network o) (ho_Domain o) (ho_DomainSuffix o)
    (ho_DomainKeyword o) (ho_DomainRegex o) (ho_SourceIPCIDR o) (ho_IPCIDR o) (ho_SourcePort o)
    (ho_SourcePortRange o) (ho_Port o) (ho_PortRange o) (ho_ProcessName o) (ho_ProcessPath o)
    (ho_ProcessPathRegex o) (ho_PackageName o) (ho_PackageNameRegex o) (ho_NetworkType o)
    (ho_NetworkIsExpensive o) (ho_NetworkIsConstrained o) (ho_WIFISSID o) (ho_WIFIBSSID o)
    (ho_DomainMatchStrategy o) (ho_NetworkInterfaceAddress o) (ho_DefaultInterfaceAddress o) v
    (ho_DomainMatcher o) (ho_SourceIPSet o) (ho_IPSet o) (ho_AdGuardDomain o) (ho_AdGuardDomainMatcher o).
