(* ===== verification/Srs.v ===== *)
(** * Binary rule-sets

    [src/common/srs/binary.go] and [ip_cidr.go]: reading and writing rule-sets in
    the binary format, without the memory-mapped variant.  A writer returns the
    bytes it writes; a reader takes the unread bytes and returns what it leaves.
    The matchers of the sing library and its slice reader are parameters. *)

From stdpp Require Import base strings list sets pretty.
From Stdlib Require Import ZArith Lia.
From S2P Require Import Prelude Net Codec GoStrings IPSet RuleItems RuleOptions HeadlessFields.

Open Scope Z_scope.

(** ** What the format takes from other libraries *)

Class SrsLibrary `{Env} : Type := {
  #[global] srs_UvarintWriter :: UvarintWriter;
  (* varbin.ReadSlice of bytes and of big-endian 16-bit integers *)
  ReadSlice8 : Reader (list Z);
  ReadSlice16 : Reader (list Z);
  (* domain.ReadMatcher, with what Dump returns, and NewMatcher(...).Write *)
  ReadMatcher : Reader ((string -> bool) * (list string * list string));
  WriteMatcher : list string -> list string -> bool -> list Z;
  (* domain.ReadAdGuardMatcher, with what Dump returns, and NewAdGuardMatcher(...).Write *)
  ReadAdGuardMatcher : Reader ((string -> bool) * list string);
  WriteAdGuardMatcher : list string -> list Z;
  (* ipset.Set.Prefixes, by netipx *)
  IPSet_Prefixes : Set_ -> list Prefix;
  (* badjson.TypedMap.Put *)
  TypedMap_Put : list (Z * list Prefix) -> Z -> list Prefix -> list (Z * list Prefix)
}.

Definition ruleItemQueryType : Z := 0.
Definition ruleItemNetwork : Z := 1.
Definition ruleItemDomain : Z := 2.
Definition ruleItemDomainKeyword : Z := 3.
Definition ruleItemDomainRegex : Z := 4.
Definition ruleItemSourceIPCIDR : Z := 5.
Definition ruleItemIPCIDR : Z := 6.
Definition ruleItemSourcePort : Z := 7.
Definition ruleItemSourcePortRange : Z := 8.
Definition ruleItemPort : Z := 9.
Definition ruleItemPortRange : Z := 10.
Definition ruleItemProcessName : Z := 11.
Definition ruleItemProcessPath : Z := 12.
Definition ruleItemPackageName : Z := 13.
Definition ruleItemWIFISSID : Z := 14.
Definition ruleItemWIFIBSSID : Z := 15.
Definition ruleItemAdGuardDomain : Z := 16.
Definition ruleItemProcessPathRegex : Z := 17.
Definition ruleItemNetworkType : Z := 18.
Definition ruleItemNetworkIsExpensive : Z := 19.
Definition ruleItemNetworkIsConstrained : Z := 20.
Definition ruleItemNetworkInterfaceAddress : Z := 21.
Definition ruleItemDefaultInterfaceAddress : Z := 22.
Definition ruleItemPackageNameRegex : Z := 23.
Definition ruleItemFinal : Z := 255.

Definition RuleSetVersion1 : Z := 1.
Definition RuleSetVersion2 : Z := 2.
Definition RuleSetVersion3 : Z := 3.
Definition RuleSetVersion4 : Z := 4.
Definition RuleSetVersion5 : Z := 5.
Definition RuleSetVersionCurrent : Z := RuleSetVersion5.

Definition maxLogicalRuleDepth : Z := 100.

Section srs.
Context `{SrsLibrary}.

(** ** Prefixes *)

(** [netip.Addr.AsSlice] *)
Definition addr_AsSlice (a : Addr) : list Z :=
  match a with
  | AddrInvalid => []
  | Addr4 v => be_bytes 4 v
  | Addr6 v _ => be_bytes 16 v
  end.

Definition ReadPrefix : Reader Prefix := fun l =>
  try p <- ReadUvarint l;
  let addrLen := p.1 in
  guard (addrLen =? 4) || (addrLen =? 16) else_err ErrInvalid;
  try q <- ReadFull (Z.to_nat addrLen) p.2;
  try b <- ReadByte q.2;
  Ok (PrefixFrom (AddrFromIP q.1) b.1, b.2).

Definition WritePrefix (prefix : Prefix) : list Z :=
  let addrSlice := addr_AsSlice (prefix_addr prefix) in
  WriteUvarint (Z.of_nat (length addrSlice)) ++ addrSlice ++ [wrap 8 (prefix_bits prefix)].

(** A count and that many prefixes. *)
Definition readPrefixes : Reader (list Prefix) := fun l =>
  try p <- ReadUvarint l;
  ReadN ReadPrefix (Z.to_nat p.1) p.2.

Definition writePrefixes (prefixes : list Prefix) : list Z :=
  WriteUvarint (Z.of_nat (length prefixes)) ++ flat_map WritePrefix prefixes.

Definition WriteRouteAddressSet (include exclude : list Prefix) : list Z :=
  flat_map writePrefixes [include; exclude].

Definition ReadRouteAddressSet (l : list Z) : result (list Prefix * list Prefix) :=
  try p <- readPrefixes l;
  try q <- readPrefixes p.2;
  Ok (p.1, q.1).

(** ** Rule items *)

Definition readString : Reader string := fun l =>
  try p <- ReadSlice8 l; Ok (string_of_bytes p.1, p.2).

Definition readRuleItemString : Reader (list string) := fun l =>
  try p <- ReadUvarint l;
  ReadN readString (Z.to_nat p.1) p.2.

Definition writeString (s : string) : list Z :=
  WriteUvarint (Z.of_nat (String.length s)) ++ bytes_of_string s.

Definition writeRuleItemString (itemType : Z) (value : list string) : list Z :=
  itemType :: WriteUvarint (Z.of_nat (length value)) ++ flat_map writeString value.

Definition writeRuleItemUint8 (itemType : Z) (value : list Z) : list Z :=
  itemType :: WriteUvarint (Z.of_nat (length value)) ++ value.

Definition writeRuleItemUint16 (itemType : Z) (value : list Z) : list Z :=
  itemType :: WriteUvarint (Z.of_nat (length value)) ++ flat_map (be_bytes 2) value.

Definition writeRuleItemCIDR (itemType : Z) (value : list Prefix) (rawSet : option Set_) : result (list Z) :=
  try set <- (if nonnil value then try ranges <- BuildIPSet value; Ok (FromIPSet ranges)
              else Ok (default (mkSet [] []) rawSet));
  Ok (itemType :: writeIPSet set).

(** One entry of [network_interface_address]. *)
Definition readInterfaceEntry : Reader (Z * list Prefix) := fun l =>
  try key <- ReadBE 1 l;
  try value <- readPrefixes key.2;
  Ok ((key.1, value.1), value.2).

Definition writeInterfaceEntry (entry : Z * list Prefix) : list Z :=
  wrap 8 entry.1 :: writePrefixes entry.2.

Definition readInterfaceAddress : Reader (list (Z * list Prefix)) := fun l =>
  try size <- ReadUvarint l;
  try entries <- ReadN readInterfaceEntry (Z.to_nat size.1) size.2;
  Ok (foldl (fun acc e => TypedMap_Put acc e.1 e.2) [] entries.1, entries.2).

(** ** Default rules *)

(** [rule.Field, err = read(reader)] *)
Definition assign {A : Type} (read : Reader A) (update : A -> DefaultHeadlessRule -> DefaultHeadlessRule)
    (rule : DefaultHeadlessRule) : Reader DefaultHeadlessRule := fun l =>
  try p <- read l; Ok (update p.1 rule, p.2).

Definition assign_matcher (recover : bool) (p : (string -> bool) * (list string * list string))
    (rule : DefaultHeadlessRule) : DefaultHeadlessRule :=
  let rule := ho_set_DomainMatcher (Some p.1) rule in
  if recover then ho_set_DomainSuffix p.2.2 (ho_set_Domain p.2.1 rule) else rule.

Definition assign_adguard (recover : bool) (p : (string -> bool) * list string)
    (rule : DefaultHeadlessRule) : DefaultHeadlessRule :=
  let rule := ho_set_AdGuardDomainMatcher (Some p.1) rule in
  if recover then ho_set_AdGuardDomain p.2 rule else rule.

Definition assign_source_set (recover : bool) (s : Set_) (rule : DefaultHeadlessRule) : DefaultHeadlessRule :=
  let rule := ho_set_SourceIPSet (Some s) rule in
  if recover then ho_set_SourceIPCIDR (IPSet_Prefixes s) rule else rule.

Definition assign_set (recover : bool) (s : Set_) (rule : DefaultHeadlessRule) : DefaultHeadlessRule :=
  let rule := ho_set_IPSet (Some s) rule in
  if recover then ho_set_IPCIDR (IPSet_Prefixes s) rule else rule.

(** The cases of the loop of [readDefaultRule], the final item excepted. *)
Definition readDefaultRule_item (recover : bool) (itemType lastItemType : Z) (rule : DefaultHeadlessRule)
    : Reader DefaultHeadlessRule :=
  if itemType =? ruleItemQueryType then assign ReadSlice16 ho_set_QueryType rule
  else if itemType =? ruleItemNetwork then assign readRuleItemString ho_set_Network rule
  else if itemType =? ruleItemDomain then assign ReadMatcher (assign_matcher recover) rule
  else if itemType =? ruleItemDomainKeyword then assign readRuleItemString ho_set_DomainKeyword rule
  else if itemType =? ruleItemDomainRegex then assign readRuleItemString ho_set_DomainRegex rule
  else if itemType =? ruleItemSourceIPCIDR then assign readIPSet (assign_source_set recover) rule
  else if itemType =? ruleItemIPCIDR then assign readIPSet (assign_set recover) rule
  else if itemType =? ruleItemSourcePort then assign ReadSlice16 ho_set_SourcePort rule
  else if itemType =? ruleItemSourcePortRange then assign readRuleItemString ho_set_SourcePortRange rule
  else if itemType =? ruleItemPort then assign ReadSlice16 ho_set_Port rule
  else if itemType =? ruleItemPortRange then assign readRuleItemString ho_set_PortRange rule
  else if itemType =? ruleItemProcessName then assign readRuleItemString ho_set_ProcessName rule
  else if itemType =? ruleItemProcessPath then assign readRuleItemString ho_set_ProcessPath rule
  else if itemType =? ruleItemProcessPathRegex then assign readRuleItemString ho_set_ProcessPathRegex rule
  else if itemType =? ruleItemPackageName then assign readRuleItemString ho_set_PackageName rule
  else if itemType =? ruleItemPackageNameRegex then assign readRuleItemString ho_set_PackageNameRegex rule
  else if itemType =? ruleItemWIFISSID then assign readRuleItemString ho_set_WIFISSID rule
  else if itemType =? ruleItemWIFIBSSID then assign readRuleItemString ho_set_WIFIBSSID rule
  else if itemType =? ruleItemAdGuardDomain then assign ReadAdGuardMatcher (assign_adguard recover) rule
  else if itemType =? ruleItemNetworkType then assign ReadSlice8 ho_set_NetworkType rule
  else if itemType =? ruleItemNetworkIsExpensive then fun l => Ok (ho_set_NetworkIsExpensive true rule, l)
  else if itemType =? ruleItemNetworkIsConstrained then fun l => Ok (ho_set_NetworkIsConstrained true rule, l)
  else if itemType =? ruleItemNetworkInterfaceAddress
  then assign readInterfaceAddress ho_set_NetworkInterfaceAddress rule
  else if itemType =? ruleItemDefaultInterfaceAddress
  then assign readPrefixes ho_set_DefaultInterfaceAddress rule
  else fun _ => Err (ENew ("unknown rule item type: " +:+ pretty itemType +:+ ", last type: " +:+ pretty lastItemType)).

Definition out_of_fuel : error := EPanic "out of fuel".

(** Every round reads at least one byte, so the length of the input bounds the
    rounds. *)
Fixpoint readDefaultRule_loop (fuel : nat) (recover : bool) (rule : DefaultHeadlessRule) (lastItemType : Z)
    (l : list Z) : result (DefaultHeadlessRule * list Z) :=
  match fuel with
  | O => Err out_of_fuel
  | S fuel' =>
      try p <- ReadBE 1 l;
      let itemType := p.1 in
      if itemType =? ruleItemFinal then
        try q <- ReadBool p.2; Ok (ho_set_Invert q.1 rule, q.2)
      else
        try q <- readDefaultRule_item recover itemType lastItemType rule p.2;
        readDefaultRule_loop fuel' recover q.1 itemType q.2
  end.

Definition readDefaultRule (recover : bool) : Reader DefaultHeadlessRule := fun l =>
  readDefaultRule_loop (S (length l)) recover zero_DefaultHeadlessRule 0 l.

(** ** Writing default rules

    One entry per block of [writeDefaultRule]: its condition and what it writes. *)

Definition only_since (generateVersion since : Z) (what : string) (bytes : list Z) : result (list Z) :=
  if generateVersion <? since
  then Err (ENew (what +:+ " only supported in version " +:+ pretty since +:+ " or later"))
  else Ok bytes.

Definition writeDefaultRule_conditions (generateVersion : Z) (rule : DefaultHeadlessRule)
    : list (bool * result (list Z)) :=
  [ (nonnil (ho_QueryType rule), Ok (writeRuleItemUint16 ruleItemQueryType (ho_QueryType rule)));
    (nonnil (ho_Network rule), Ok (writeRuleItemString ruleItemNetwork (ho_Network rule)));
    (nonnil (ho_Domain rule) || nonnil (ho_DomainSuffix rule),
     if bool_decide (""%string ∈ ho_Domain rule) then Err (ENew "domain: empty item is not allowed")
     else if bool_decide (""%string ∈ ho_DomainSuffix rule)
     then Err (ENew "domain_suffix: empty item is not allowed")
     else Ok (ruleItemDomain :: WriteMatcher (ho_Domain rule) (ho_DomainSuffix rule)
                                  (generateVersion =? RuleSetVersion1)));
    (nonnil (ho_DomainKeyword rule), Ok (writeRuleItemString ruleItemDomainKeyword (ho_DomainKeyword rule)));
    (nonnil (ho_DomainRegex rule), Ok (writeRuleItemString ruleItemDomainRegex (ho_DomainRegex rule)));
    (nonnil (ho_SourceIPCIDR rule),
     result_map_err (fun e => ECause e "source_ip_cidr")
       (writeRuleItemCIDR ruleItemSourceIPCIDR (ho_SourceIPCIDR rule) (ho_SourceIPSet rule)));
    (nonnil (ho_IPCIDR rule),
     result_map_err (fun e => ECause e "ipcidr")
       (writeRuleItemCIDR ruleItemIPCIDR (ho_IPCIDR rule) (ho_IPSet rule)));
    (nonnil (ho_SourcePort rule), Ok (writeRuleItemUint16 ruleItemSourcePort (ho_SourcePort rule)));
    (nonnil (ho_SourcePortRange rule),
     Ok (writeRuleItemString ruleItemSourcePortRange (ho_SourcePortRange rule)));
    (nonnil (ho_Port rule), Ok (writeRuleItemUint16 ruleItemPort (ho_Port rule)));
    (nonnil (ho_PortRange rule), Ok (writeRuleItemString ruleItemPortRange (ho_PortRange rule)));
    (nonnil (ho_ProcessName rule), Ok (writeRuleItemString ruleItemProcessName (ho_ProcessName rule)));
    (nonnil (ho_ProcessPath rule), Ok (writeRuleItemString ruleItemProcessPath (ho_ProcessPath rule)));
    (nonnil (ho_ProcessPathRegex rule),
     Ok (writeRuleItemString ruleItemProcessPathRegex (ho_ProcessPathRegex rule)));
    (nonnil (ho_PackageName rule), Ok (writeRuleItemString ruleItemPackageName (ho_PackageName rule))) ].

Definition writeDefaultRule_versioned (generateVersion : Z) (rule : DefaultHeadlessRule)
    : list (bool * result (list Z)) :=
  [ (nonnil (ho_PackageNameRegex rule),
     only_since generateVersion RuleSetVersion5 "`package_name_regex` rule item is"
       (writeRuleItemString ruleItemPackageNameRegex (ho_PackageNameRegex rule)));
    (nonnil (ho_NetworkType rule),
     only_since generateVersion RuleSetVersion3 "`network_type` rule item is"
       (writeRuleItemUint8 ruleItemNetworkType (ho_NetworkType rule)));
    (ho_NetworkIsExpensive rule,
     only_since generateVersion RuleSetVersion3 "`network_is_expensive` rule item is" [ruleItemNetworkIsExpensive]);
    (ho_NetworkIsConstrained rule,
     only_since generateVersion RuleSetVersion3 "`network_is_constrained` rule item is" [ruleItemNetworkIsConstrained]);
    (nonnil (ho_NetworkInterfaceAddress rule),
     only_since generateVersion RuleSetVersion4 "`network_interface_address` rule item is"
       (ruleItemNetworkInterfaceAddress :: WriteUvarint (Z.of_nat (length (ho_NetworkInterfaceAddress rule))) ++
        flat_map writeInterfaceEntry (ho_NetworkInterfaceAddress rule)));
    (nonnil (ho_DefaultInterfaceAddress rule),
     only_since generateVersion RuleSetVersion4 "`default_interface_address` rule item is"
       (ruleItemDefaultInterfaceAddress :: writePrefixes (ho_DefaultInterfaceAddress rule)));
    (nonnil (ho_WIFISSID rule), Ok (writeRuleItemString ruleItemWIFISSID (ho_WIFISSID rule)));
    (nonnil (ho_WIFIBSSID rule), Ok (writeRuleItemString ruleItemWIFIBSSID (ho_WIFIBSSID rule)));
    (nonnil (ho_AdGuardDomain rule),
     only_since generateVersion RuleSetVersion2 "AdGuard rule items is"
       (ruleItemAdGuardDomain :: WriteAdGuardMatcher (ho_AdGuardDomain rule))) ].

(** The blocks in order, stopping at the first error. *)
Fixpoint write_blocks (blocks : list (bool * result (list Z))) : result (list Z) :=
  match blocks with
  | [] => Ok []
  | (cond, bytes) :: rest =>
      if cond then try b <- bytes; try r <- write_blocks rest; Ok (b ++ r) else write_blocks rest
  end.

Definition writeDefaultRule (rule : DefaultHeadlessRule) (generateVersion : Z) : result (list Z) :=
  try body <- write_blocks (writeDefaultRule_conditions generateVersion rule ++
                            writeDefaultRule_versioned generateVersion rule);
  Ok ([0] ++ body ++ [ruleItemFinal] ++ WriteBool (ho_Invert rule)).

(** ** Rules *)

(** A counted loop whose errors carry the index. *)
Fixpoint ReadN_indexed {A : Type} (what : string) (read : Reader A) (i : Z) (n : nat) (l : list Z)
    : result (list A * list Z) :=
  match n with
  | O => Ok ([], l)
  | S n' =>
      try p <- result_map_err (fun e => ECause e (what +:+ pretty i +:+ "]")) (read l);
      try q <- ReadN_indexed what read (i + 1) n' p.2;
      Ok (p.1 :: q.1, q.2)
  end.

(** [readLogicalRule], given the reader of the rules below. *)
Definition readLogicalRule (readRule : Reader HeadlessRule) : Reader HeadlessRule := fun l =>
  try p <- ReadByte l;
  try mode <- (if p.1 =? 0 then Ok LogicalTypeAnd
               else if p.1 =? 1 then Ok LogicalTypeOr
               else Err (ENew ("unknown logical mode: " +:+ pretty p.1)));
  try n <- ReadUvarint p.2;
  try rules <- ReadN_indexed "read logical rule [" readRule 0 (Z.to_nat n.1) n.2;
  try inv <- ReadBool rules.2;
  Ok (mkHeadlessRule RuleTypeLogical zero_DefaultHeadlessRule mode rules.1 0 inv.1, inv.2).

(** The nesting is bounded by [maxLogicalRuleDepth], so [fuel] above
    [maxLogicalRuleDepth + 1 - depth] is never used up. *)
Fixpoint readRule (fuel : nat) (recover : bool) (depth : Z) (l : list Z) {struct fuel}
    : result (HeadlessRule * list Z) :=
  match fuel with
  | O => Err out_of_fuel
  | S fuel' =>
      if maxLogicalRuleDepth <? depth then Err (ENew "logical rule nested too deep")
      else
        try p <- ReadBE 1 l;
        if p.1 =? 0 then
          try d <- readDefaultRule recover p.2;
          Ok (mkHeadlessRule RuleTypeDefault d.1 "" [] 0 false, d.2)
        else if p.1 =? 1 then readLogicalRule (readRule fuel' recover (depth + 1)) p.2
        else Err (ENew ("unknown rule type: " +:+ pretty p.1))
  end.

Definition readRule_fuel : nat := 102.

Definition strategy_unsupported : error :=
  ENew "domain_match_strategy is not supported in binary rule-sets; use source format".

(** [writeLogicalRule], given the writer of a rule below. *)
Definition writeLogicalRule (write : HeadlessRule -> Z -> result (list Z)) (mode : string)
    (rules : list HeadlessRule) (inv : bool) (generateVersion : Z) : result (list Z) :=
  try m <- (if bool_decide (mode = LogicalTypeAnd) then Ok 0
            else if bool_decide (mode = LogicalTypeOr) then Ok 1
            else Err (ENew ("unknown logical mode: " +:+ mode)));
  try body <- result_mapM (fun sub => write sub generateVersion) rules;
  Ok ([1; m] ++ WriteUvarint (Z.of_nat (length rules)) ++ concat body ++ WriteBool inv).

Fixpoint writeRule (r : HeadlessRule) (generateVersion : Z) {struct r} : result (list Z) :=
  match r with
  | mkHeadlessRule ty d mode rules ls inv =>
      if bool_decide (ty = RuleTypeDefault) then
        if negb (ho_DomainMatchStrategy d =? DomainMatchStrategyAsIS) then Err strategy_unsupported
        else writeDefaultRule d generateVersion
      else if bool_decide (ty = RuleTypeLogical) then
        if negb (ls =? DomainMatchStrategyAsIS) then Err strategy_unsupported
        else writeLogicalRule writeRule mode rules inv generateVersion
      else Err (ENew ("unknown rule type: " +:+ ty))
  end.

(** ** Rule-sets

    [Compress] and [Decompress] stand for the zlib writer and reader. *)

Definition MagicBytes : list Z := [83; 82; 83].

Definition Read (Decompress : list Z -> result (list Z)) (recover : bool) (l : list Z)
    : result (Z * list HeadlessRule) :=
  try magic <- ReadFull 3 l;
  guard bool_decide (magic.1 = MagicBytes) else_err (ENew "invalid sing-box rule-set file");
  try version <- ReadBE 1 magic.2;
  guard negb (RuleSetVersionCurrent <? version.1) else_err (ENew ("unsupported version: " +:+ pretty version.1));
  try data <- Decompress version.2;
  try n <- ReadUvarint data;
  try rules <- ReadN_indexed "read rule[" (readRule readRule_fuel recover 0) 0 (Z.to_nat n.1) n.2;
  Ok (version.1, rules.1).

Definition Write (Compress : list Z -> list Z) (rules : list HeadlessRule) (generateVersion : Z)
    : result (list Z) :=
  try body <- result_mapM (fun rule => writeRule rule generateVersion) rules;
  Ok (MagicBytes ++ [generateVersion] ++
      Compress (WriteUvarint (Z.of_nat (length rules)) ++ concat body)).

End srs.

#[global] Arguments readDefaultRule_item : simpl never.
#[global] Arguments readDefaultRule : simpl never.
#[global] Arguments writeDefaultRule : simpl never.
#[global] Arguments writeIPSet : simpl never.
#[global] Arguments readIPSet : simpl never.
