(* ===== verification/SrsRoundtrip.v ===== *)
(** * Round trip of the binary rule-set format

    Reading what was written gives back the options in the form the binary format
    keeps them: domains and prefixes as the matcher and the address set they
    compile to, everything else as it was. *)

From stdpp Require Import base strings list sets pretty.
From Stdlib Require Import ZArith Lia.
From S2P Require Import Prelude Net Codec GoStrings IPSet RuleItems RuleOptions HeadlessFields Srs.

Open Scope Z_scope.

(** ** What is assumed of the libraries *)

Definition short (n : nat) : bool := Z.of_nat n <? 2 ^ 64.
Definition byte_value (v : Z) : bool := (0 <=? v) && (v <? 256).
Definition word_value (v : Z) : bool := (0 <=? v) && (v <? 65536).

Class SrsLaws `{SrsLibrary} : Prop := {
  (* a slice is its length followed by its elements *)
  ReadSlice8_spec : forall l rest, short (length l) = true -> forallb byte_value l = true ->
    ReadSlice8 (WriteUvarint (Z.of_nat (length l)) ++ l ++ rest) = Ok (l, rest);
  ReadSlice16_spec : forall l rest, short (length l) = true -> forallb word_value l = true ->
    ReadSlice16 (WriteUvarint (Z.of_nat (length l)) ++ flat_map (be_bytes 2) l ++ rest) = Ok (l, rest);
  (* a matcher reads back as itself *)
  ReadMatcher_spec : forall domains suffixes legacy rest, exists dump,
    ReadMatcher (WriteMatcher domains suffixes legacy ++ rest) = Ok ((NewMatcher domains suffixes legacy, dump), rest);
  ReadAdGuardMatcher_spec : forall lines rest, exists dump,
    ReadAdGuardMatcher (WriteAdGuardMatcher lines ++ rest) = Ok ((NewAdGuardMatcher lines, dump), rest);
  (* a new key goes to the end of an ordered map *)
  TypedMap_Put_fresh : forall m k v, k ∉ m.*1 -> TypedMap_Put m k v = m ++ [(k, v)];
  (* addresses from their bytes, IPv4-mapped ones excepted *)
  AddrFromIP_4 : forall v, in_width 32 v -> AddrFromIP (be_bytes 4 v) = Addr4 v;
  AddrFromIP_16 : forall v, in_width 128 v -> Z.shiftr v 32 <> 65535 -> AddrFromIP (be_bytes 16 v) = Addr6 v "";
  (* the ranges of a set are ordered and disjoint *)
  BuildIPSet_spec : forall prefixes ranges, BuildIPSet prefixes = Ok ranges ->
    set_wf (FromIPSet ranges) /\ Forall (range_in_width 32) (ranges4 (FromIPSet ranges)) /\
    Forall (range_in_width 128) (ranges6 (FromIPSet ranges)) /\
    Z.of_nat (length (ranges4 (FromIPSet ranges)) + length (ranges6 (FromIPSet ranges))) < 2 ^ 64
}.

(** ** Options that fit the format *)

(** A prefix the format can hold: a valid address of its width, not an IPv4-mapped
    one, and a length within the address. *)
Definition prefix_ok (p : Prefix) : bool :=
  match prefix_addr p with
  | AddrInvalid => false
  | Addr4 v => (0 <=? v) && (v <? 2 ^ 32) && (0 <=? prefix_bits p) && (prefix_bits p <=? 32)
  | Addr6 v z => (0 <=? v) && (v <? 2 ^ 128) && negb (Z.shiftr v 32 =? 65535) && bool_decide (z = ""%string) &&
                 (0 <=? prefix_bits p) && (prefix_bits p <=? 128)
  end.

Definition strings_ok (l : list string) : bool :=
  short (length l) && forallb (fun s => short (String.length s)) l.
Definition words_ok (l : list Z) : bool := short (length l) && forallb word_value l.
Definition prefixes_ok (l : list Prefix) : bool := short (length l) && forallb prefix_ok l.

Definition default_ok (o : DefaultHeadlessRule) : bool :=
  words_ok (ho_QueryType o) && strings_ok (ho_Network o) && strings_ok (ho_DomainKeyword o) &&
  strings_ok (ho_DomainRegex o) && words_ok (ho_SourcePort o) && strings_ok (ho_SourcePortRange o) &&
  words_ok (ho_Port o) && strings_ok (ho_PortRange o) && strings_ok (ho_ProcessName o) &&
  strings_ok (ho_ProcessPath o) && strings_ok (ho_ProcessPathRegex o) && strings_ok (ho_PackageName o) &&
  strings_ok (ho_PackageNameRegex o) && strings_ok (ho_WIFISSID o) && strings_ok (ho_WIFIBSSID o) &&
  (short (length (ho_NetworkType o)) && forallb byte_value (ho_NetworkType o)) &&
  prefixes_ok (ho_DefaultInterfaceAddress o) &&
  (short (length (ho_NetworkInterfaceAddress o)) &&
   forallb (fun e => byte_value e.1 && prefixes_ok e.2) (ho_NetworkInterfaceAddress o) &&
   bool_decide (NoDup (ho_NetworkInterfaceAddress o).*1)).

(** ** The form the format keeps *)

Section form.
Context `{Env}.

Definition set_form (prefixes : list Prefix) : option Set_ :=
  if nonnil prefixes then
    match BuildIPSet prefixes with Ok ranges => Some (FromIPSet ranges) | Err _ => None end
  else None.

Definition default_form (generateVersion : Z) (o : DefaultHeadlessRule) : DefaultHeadlessRule :=
  mkDefaultHeadlessRule (ho_QueryType o) (ho_Network o) [] [] (ho_DomainKeyword o) (ho_DomainRegex o) [] []
    (ho_SourcePort o) (ho_SourcePortRange o) (ho_Port o) (ho_PortRange o) (ho_ProcessName o) (ho_ProcessPath o)
    (ho_ProcessPathRegex o) (ho_PackageName o) (ho_PackageNameRegex o) (ho_NetworkType o)
    (ho_NetworkIsExpensive o) (ho_NetworkIsConstrained o) (ho_WIFISSID o) (ho_WIFIBSSID o)
    DomainMatchStrategyAsIS (ho_NetworkInterfaceAddress o) (ho_DefaultInterfaceAddress o) (ho_Invert o)
    (if nonnil (ho_Domain o) || nonnil (ho_DomainSuffix o)
     then Some (NewMatcher (ho_Domain o) (ho_DomainSuffix o) (generateVersion =? RuleSetVersion1)) else None)
    (set_form (ho_SourceIPCIDR o)) (set_form (ho_IPCIDR o)) []
    (if nonnil (ho_AdGuardDomain o) then Some (NewAdGuardMatcher (ho_AdGuardDomain o)) else None).

Fixpoint rule_form (generateVersion : Z) (r : HeadlessRule) : HeadlessRule :=
  match r with
  | mkHeadlessRule ty d mode rules _ inv =>
      if bool_decide (ty = RuleTypeDefault)
      then mkHeadlessRule RuleTypeDefault (default_form generateVersion d) "" [] 0 false
      else mkHeadlessRule RuleTypeLogical zero_DefaultHeadlessRule mode (map (rule_form generateVersion) rules) 0 inv
  end.
End form.

(** ** Lemmas on the pieces *)

Section pieces.
Context `{SrsLaws}.

Lemma Uvarint_short n rest : short n = true ->
  ReadUvarint (WriteUvarint (Z.of_nat n) ++ rest) = Ok (Z.of_nat n, rest).
Proof. unfold short. intros Hn. apply WriteUvarint_spec. unfold in_width. lia. Qed.

Lemma readString_write s rest : short (String.length s) = true ->
  readString (writeString s ++ rest) = Ok (s, rest).
Proof.
  intros Hs. unfold readString, writeString. rewrite <- app_assoc, <- length_bytes_of_string.
  rewrite ReadSlice8_spec; [cbn [result_bind fst snd]; by rewrite string_of_bytes_of_string|by rewrite length_bytes_of_string|].
  unfold bytes_of_string. apply forallb_forall. intros b Hb. apply in_map_iff in Hb as (c & <- & _).
  pose proof (Ascii.nat_ascii_bounded c). unfold byte_value. lia.
Qed.

Lemma readRuleItemString_write l rest : strings_ok l = true ->
  readRuleItemString (WriteUvarint (Z.of_nat (length l)) ++ flat_map writeString l ++ rest) = Ok (l, rest).
Proof.
  unfold strings_ok. intros Hl. apply andb_true_iff in Hl as [Hn Hl]. unfold readRuleItemString.
  rewrite Uvarint_short by done. cbn [result_bind fst snd]. rewrite Nat2Z.id.
  rewrite (ReadN_app _ _ (fun s => s)); [by rewrite map_id|].
  intros s r Hs. apply readString_write. rewrite forallb_forall in Hl. apply Hl. by apply list_elem_of_In.
Qed.

Lemma PrefixFrom_ok p : prefix_ok p = true -> PrefixFrom (prefix_addr p) (prefix_bits p) = p.
Proof.
  destruct p as [[|v|v z] n]; unfold prefix_ok, PrefixFrom; cbn; [done|..]; intros Hp.
  - replace ((n <? 0) || (32 <? n) || false) with false by lia. done.
  - destruct (bool_decide_reflect (z = ""%string)); [|rewrite andb_false_r in Hp; lia]. subst z.
    replace ((n <? 0) || (128 <? n) || false) with false by lia. done.
Qed.

Lemma ReadPrefix_write p rest : prefix_ok p = true -> ReadPrefix (WritePrefix p ++ rest) = Ok (p, rest).
Proof.
  intros Hp. unfold ReadPrefix, WritePrefix. rewrite <- !app_assoc.
  pose proof (PrefixFrom_ok p Hp) as Hf. destruct p as [a n]. cbn [prefix_addr prefix_bits] in *.
  assert (Hn : wrap 8 n = n) by (apply wrap_small; unfold in_width; destruct a; unfold prefix_ok in Hp; cbn in Hp; lia).
  rewrite WriteUvarint_spec by (destruct a; unfold in_width; cbn; lia). cbn [result_bind fst snd].
  unfold prefix_ok in Hp. cbn [prefix_addr prefix_bits] in Hp.
  destruct a as [|v|v z]; [done|..]; cbn [addr_AsSlice]; rewrite length_be_bytes.
  - change (Z.to_nat (Z.of_nat 4)) with 4%nat. rewrite <- (length_be_bytes 4 v) at 3.
    rewrite ReadFull_app. cbn [app Z.of_nat Z.eqb orb result_bind fst snd ReadByte Pos.eqb Pos.of_succ_nat Pos.succ].
    rewrite AddrFromIP_4 by (unfold in_width; lia). by rewrite Hn, Hf.
  - destruct (bool_decide_reflect (z = ""%string)); [|rewrite andb_false_r in Hp; lia]. subst z.
    change (Z.to_nat (Z.of_nat 16)) with 16%nat. rewrite <- (length_be_bytes 16 v) at 3.
    rewrite ReadFull_app. cbn [app Z.of_nat Z.eqb orb result_bind fst snd ReadByte Pos.eqb Pos.of_succ_nat Pos.succ].
    rewrite AddrFromIP_16 by (unfold in_width; lia). by rewrite Hn, Hf.
Qed.

Lemma readPrefixes_write l rest : prefixes_ok l = true -> readPrefixes (writePrefixes l ++ rest) = Ok (l, rest).
Proof.
  unfold prefixes_ok. intros Hl. apply andb_true_iff in Hl as [Hn Hl]. unfold readPrefixes, writePrefixes.
  rewrite <- app_assoc, Uvarint_short by done. cbn [result_bind fst snd]. rewrite Nat2Z.id.
  rewrite (ReadN_app _ _ (fun s => s)); [by rewrite map_id|].
  intros p r Hp. apply ReadPrefix_write. rewrite forallb_forall in Hl. apply Hl. by apply list_elem_of_In.
Qed.

Lemma ReadBE_byte v rest : byte_value v = true -> ReadBE 1 (v :: rest) = Ok (v, rest).
Proof. unfold byte_value. intros Hv. unfold ReadBE. cbn. f_equal. Qed.

Lemma readInterfaceEntry_write e rest : byte_value e.1 = true -> prefixes_ok e.2 = true ->
  readInterfaceEntry (writeInterfaceEntry e ++ rest) = Ok (e, rest).
Proof.
  intros Hk Hp. unfold readInterfaceEntry, writeInterfaceEntry. cbn [app].
  rewrite wrap_small by (unfold byte_value in Hk; unfold in_width; lia).
  rewrite ReadBE_byte by done. cbn [result_bind fst snd]. rewrite readPrefixes_write by done. by destruct e.
Qed.

Lemma foldl_Put (l acc : list (Z * list Prefix)) : NoDup (acc ++ l).*1 ->
  foldl (fun acc e => TypedMap_Put acc e.1 e.2) acc l = acc ++ l.
Proof.
  revert acc. induction l as [|[k v] l IH]; intros acc Hn; cbn; [by rewrite app_nil_r|].
  rewrite TypedMap_Put_fresh; [|].
  - rewrite IH; rewrite <- app_assoc; done.
  - rewrite fmap_app, NoDup_app in Hn. destruct Hn as (_ & Hn & _). intros Hk. apply (Hn k Hk). cbn. left.
Qed.

Lemma readInterfaceAddress_write l rest :
  short (length l) = true -> forallb (fun e => byte_value e.1 && prefixes_ok e.2) l = true -> NoDup l.*1 ->
  readInterfaceAddress (WriteUvarint (Z.of_nat (length l)) ++ flat_map writeInterfaceEntry l ++ rest) = Ok (l, rest).
Proof.
  intros Hn Hl Hd. unfold readInterfaceAddress. rewrite Uvarint_short by done. cbn [result_bind fst snd].
  rewrite Nat2Z.id, (ReadN_app _ _ (fun e => e)).
  - cbn [result_bind fst snd]. rewrite map_id. by rewrite foldl_Put.
  - intros e r He. rewrite forallb_forall in Hl. specialize (Hl e ltac:(by apply list_elem_of_In)).
    apply andb_true_iff in Hl as [Hk Hp]. by apply readInterfaceEntry_write.
Qed.

(** ** Blocks *)

(** A block is read back by the case of its item, which updates the options. *)
Definition block_ok (block : bool * result (list Z)) (update : DefaultHeadlessRule -> DefaultHeadlessRule) : Prop :=
  (block.1 = false -> forall o, update o = o) /\
  (forall bytes, block.1 = true -> block.2 = Ok bytes ->
    exists itemType payload, bytes = itemType :: payload /\ byte_value itemType = true /\ itemType <> ruleItemFinal /\
      forall last o rest, readDefaultRule_item false itemType last o (payload ++ rest) = Ok (update o, rest)).

Lemma assign_read {A : Type} (read : Reader A) update o l v rest :
  read l = Ok (v, rest) -> assign read update o l = Ok (update v o, rest).
Proof. unfold assign. by intros ->. Qed.

(** The reading loop runs through the written blocks. *)
Lemma read_blocks blocks updates bytes fuel last o inv rest :
  Forall2 block_ok blocks updates -> write_blocks blocks = Ok bytes -> (length bytes < fuel)%nat ->
  readDefaultRule_loop fuel false o last (bytes ++ [ruleItemFinal] ++ WriteBool inv ++ rest) =
    Ok (ho_set_Invert inv (foldl (fun o u => u o) o updates), rest).
Proof.
  intros Hb. revert bytes fuel last o. induction Hb as [|[c b] u blocks updates [Hoff Hon] _ IH];
    intros bytes fuel last o Hw Hf; cbn in Hw.
  - injection Hw as <-. destruct fuel as [|fuel]; [cbn in Hf; lia|]. cbn. by destruct inv.
  - cbn [fst snd] in *. destruct c.
    + simpl_result. destruct (Hon a eq_refl) as (ty & payload & -> & Hty & Hne & Hread); [done|].
      destruct fuel as [|fuel]; [lia|]. cbn [app readDefaultRule_loop].
      rewrite ReadBE_byte by done. cbn [result_bind fst snd].
      apply Z.eqb_neq in Hne. rewrite Hne, <- app_assoc, Hread. cbn [result_bind fst snd foldl].
      apply IH; [done|]. cbn in Hf. rewrite length_app in Hf. lia.
    + cbn [foldl]. rewrite (Hoff eq_refl). by apply IH.
Qed.
End pieces.

Section updates.
Context `{Env} (v : Z) (o : DefaultHeadlessRule).

(** Keep the old value unless the block is present. *)
Definition keep {A : Type} (c : bool) (new old : A) : A := if c then new else old.

Definition updates1 : list (DefaultHeadlessRule -> DefaultHeadlessRule) :=
  [ fun r => ho_set_QueryType (keep (nonnil (ho_QueryType o)) (ho_QueryType o) (ho_QueryType r)) r;
    fun r => ho_set_Network (keep (nonnil (ho_Network o)) (ho_Network o) (ho_Network r)) r;
    fun r => ho_set_DomainMatcher (keep (nonnil (ho_Domain o) || nonnil (ho_DomainSuffix o))
      (Some (NewMatcher (ho_Domain o) (ho_DomainSuffix o) (v =? RuleSetVersion1))) (ho_DomainMatcher r)) r;
    fun r => ho_set_DomainKeyword (keep (nonnil (ho_DomainKeyword o)) (ho_DomainKeyword o) (ho_DomainKeyword r)) r;
    fun r => ho_set_DomainRegex (keep (nonnil (ho_DomainRegex o)) (ho_DomainRegex o) (ho_DomainRegex r)) r;
    fun r => ho_set_SourceIPSet (keep (nonnil (ho_SourceIPCIDR o)) (set_form (ho_SourceIPCIDR o)) (ho_SourceIPSet r)) r;
    fun r => ho_set_IPSet (keep (nonnil (ho_IPCIDR o)) (set_form (ho_IPCIDR o)) (ho_IPSet r)) r;
    fun r => ho_set_SourcePort (keep (nonnil (ho_SourcePort o)) (ho_SourcePort o) (ho_SourcePort r)) r;
    fun r => ho_set_SourcePortRange (keep (nonnil (ho_SourcePortRange o)) (ho_SourcePortRange o) (ho_SourcePortRange r)) r;
    fun r => ho_set_Port (keep (nonnil (ho_Port o)) (ho_Port o) (ho_Port r)) r;
    fun r => ho_set_PortRange (keep (nonnil (ho_PortRange o)) (ho_PortRange o) (ho_PortRange r)) r;
    fun r => ho_set_ProcessName (keep (nonnil (ho_ProcessName o)) (ho_ProcessName o) (ho_ProcessName r)) r;
    fun r => ho_set_ProcessPath (keep (nonnil (ho_ProcessPath o)) (ho_ProcessPath o) (ho_ProcessPath r)) r;
    fun r => ho_set_ProcessPathRegex (keep (nonnil (ho_ProcessPathRegex o)) (ho_ProcessPathRegex o) (ho_ProcessPathRegex r)) r;
    fun r => ho_set_PackageName (keep (nonnil (ho_PackageName o)) (ho_PackageName o) (ho_PackageName r)) r ].

Definition updates2 : list (DefaultHeadlessRule -> DefaultHeadlessRule) :=
  [ fun r => ho_set_PackageNameRegex (keep (nonnil (ho_PackageNameRegex o)) (ho_PackageNameRegex o) (ho_PackageNameRegex r)) r;
    fun r => ho_set_NetworkType (keep (nonnil (ho_NetworkType o)) (ho_NetworkType o) (ho_NetworkType r)) r;
    fun r => ho_set_NetworkIsExpensive (keep (ho_NetworkIsExpensive o) true (ho_NetworkIsExpensive r)) r;
    fun r => ho_set_NetworkIsConstrained (keep (ho_NetworkIsConstrained o) true (ho_NetworkIsConstrained r)) r;
    fun r => ho_set_NetworkInterfaceAddress (keep (nonnil (ho_NetworkInterfaceAddress o)) (ho_NetworkInterfaceAddress o)
      (ho_NetworkInterfaceAddress r)) r;
    fun r => ho_set_DefaultInterfaceAddress (keep (nonnil (ho_DefaultInterfaceAddress o)) (ho_DefaultInterfaceAddress o)
      (ho_DefaultInterfaceAddress r)) r;
    fun r => ho_set_WIFISSID (keep (nonnil (ho_WIFISSID o)) (ho_WIFISSID o) (ho_WIFISSID r)) r;
    fun r => ho_set_WIFIBSSID (keep (nonnil (ho_WIFIBSSID o)) (ho_WIFIBSSID o) (ho_WIFIBSSID r)) r;
    fun r => ho_set_AdGuardDomainMatcher (keep (nonnil (ho_AdGuardDomain o))
      (Some (NewAdGuardMatcher (ho_AdGuardDomain o))) (ho_AdGuardDomainMatcher r)) r ].

End updates.

Lemma keep_list {A : Type} (l : list A) : keep (nonnil l) l [] = l.
Proof. by destruct l. Qed.

(** The updates of all blocks, applied to the empty options, give the kept form. *)
Lemma updates_form `{Env} v o :
  ho_set_Invert (ho_Invert o) (foldl (fun r u => u r) zero_DefaultHeadlessRule (updates1 v o ++ updates2 o)) =
    default_form v o.
Proof.
  destruct o as [f0 f1 f2 f3 f4 f5 f6 f7 f8 f9 f10 f11 f12 f13 f14 f15 f16 f17 f18 f19 f20 f21 f22 f23 f24 f25 f26 f27 f28 f29 f30].
  unfold updates1, updates2, default_form, zero_DefaultHeadlessRule, set_form.
  cbv beta iota zeta delta [app foldl
    ho_set_QueryType ho_set_Network ho_set_Domain ho_set_DomainSuffix ho_set_DomainMatcher
    ho_set_DomainKeyword ho_set_DomainRegex ho_set_SourceIPSet ho_set_SourceIPCIDR ho_set_IPSet
    ho_set_IPCIDR ho_set_SourcePort ho_set_SourcePortRange ho_set_Port ho_set_PortRange ho_set_ProcessName
    ho_set_ProcessPath ho_set_ProcessPathRegex ho_set_PackageName ho_set_PackageNameRegex ho_set_WIFISSID
    ho_set_WIFIBSSID ho_set_AdGuardDomainMatcher ho_set_AdGuardDomain ho_set_NetworkType
    ho_set_NetworkIsExpensive ho_set_NetworkIsConstrained ho_set_NetworkInterfaceAddress
    ho_set_DefaultInterfaceAddress ho_set_Invert ho_QueryType ho_Network ho_Domain ho_DomainSuffix
    ho_DomainKeyword ho_DomainRegex ho_SourceIPCIDR ho_IPCIDR ho_SourcePort ho_SourcePortRange ho_Port
    ho_PortRange ho_ProcessName ho_ProcessPath ho_ProcessPathRegex ho_PackageName ho_PackageNameRegex
    ho_NetworkType ho_NetworkIsExpensive ho_NetworkIsConstrained ho_WIFISSID ho_WIFIBSSID
    ho_DomainMatchStrategy ho_NetworkInterfaceAddress ho_DefaultInterfaceAddress ho_Invert ho_DomainMatcher
    ho_SourceIPSet ho_IPSet ho_AdGuardDomain ho_AdGuardDomainMatcher].
  rewrite !keep_list. unfold keep. by repeat case_match.
Qed.

Section default_roundtrip.
Context `{SrsLaws} (v : Z) (o : DefaultHeadlessRule).
Context (Hok : default_ok o = true).

Lemma string_block c ty l (update : list string -> DefaultHeadlessRule -> DefaultHeadlessRule) get :
  c = nonnil l -> strings_ok l = true ->
  byte_value ty = true -> ty <> ruleItemFinal ->
  (forall last x, readDefaultRule_item false ty last x = assign readRuleItemString update x) ->
  (forall x, update (get x) x = x) ->
  block_ok (c, Ok (writeRuleItemString ty l)) (fun r => update (keep c l (get r)) r).
Proof.
  intros -> Hl Hb Hf Hr Hu. split; [intros Hoff x; cbn [fst] in Hoff; rewrite Hoff; apply Hu|].
  intros bytes Hon [= <-]. cbn [fst] in Hon. rewrite Hon. eexists _, _. split_and!; [done|done|done|].
  intros last x rest. rewrite Hr. apply assign_read. rewrite <- app_assoc. by apply readRuleItemString_write.
Qed.

Lemma word_block c ty l (update : list Z -> DefaultHeadlessRule -> DefaultHeadlessRule) get :
  c = nonnil l -> words_ok l = true ->
  byte_value ty = true -> ty <> ruleItemFinal ->
  (forall last x, readDefaultRule_item false ty last x = assign ReadSlice16 update x) ->
  (forall x, update (get x) x = x) ->
  block_ok (c, Ok (writeRuleItemUint16 ty l)) (fun r => update (keep c l (get r)) r).
Proof.
  intros -> Hl Hb Hf Hr Hu. split; [intros Hoff x; cbn [fst] in Hoff; rewrite Hoff; apply Hu|].
  intros bytes Hon [= <-]. cbn [fst] in Hon. rewrite Hon. eexists _, _. split_and!; [done|done|done|].
  intros last x rest. rewrite Hr. apply assign_read. rewrite <- app_assoc.
  unfold words_ok in Hl. apply andb_true_iff in Hl as [Hn Hl]. by apply ReadSlice16_spec.
Qed.

Lemma set_block c ty name l raw (update : Set_ -> DefaultHeadlessRule -> DefaultHeadlessRule)
    (set : option Set_ -> DefaultHeadlessRule -> DefaultHeadlessRule) get :
  c = nonnil l -> byte_value ty = true -> ty <> ruleItemFinal ->
  (forall last x, readDefaultRule_item false ty last x = assign readIPSet update x) ->
  (forall s x, update s x = set (Some s) x) -> (forall x, set (get x) x = x) ->
  block_ok (c, result_map_err (fun e => ECause e name) (writeRuleItemCIDR ty l raw))
    (fun r => set (keep c (set_form l) (get r)) r).
Proof.
  intros -> Hb Hf Hr Hu Hg. split; [intros Hoff x; cbn [fst] in Hoff; rewrite Hoff; apply Hg|].
  intros bytes Hon Hw. cbn [fst snd] in *. unfold writeRuleItemCIDR, set_form in *. rewrite Hon in *. cbn [keep].
  destruct (BuildIPSet l) as [ranges|] eqn:Hs; [|done]. cbn in Hw. injection Hw as <-.
  destruct (BuildIPSet_spec _ _ Hs) as (Hwf & H4 & H6 & Hlen).
  eexists _, _. split_and!; [done|done|done|]. intros last x rest. rewrite Hr, <- Hu. apply assign_read.
  by apply readIPSet_writeIPSet.
Qed.

Lemma since_block c since what bytes u :
  block_ok (c, Ok bytes) u -> block_ok (c, only_since v since what bytes) u.
Proof.
  intros [Hoff Hon]. split; [exact Hoff|]. intros b Hc Hb. apply Hon; [exact Hc|]. cbn [snd] in *.
  unfold only_since in Hb. by destruct (v <? since).
Qed.

Lemma plain_block {A : Type} c ty payload (read : Reader A) (update : A -> DefaultHeadlessRule -> DefaultHeadlessRule) a u :
  byte_value ty = true -> ty <> ruleItemFinal ->
  (forall last x, readDefaultRule_item false ty last x = assign read update x) ->
  (c = true -> forall rest, read (payload ++ rest) = Ok (a, rest)) ->
  (c = true -> forall x, u x = update a x) -> (c = false -> forall x, u x = x) ->
  block_ok (c, Ok (ty :: payload)) u.
Proof.
  intros Hb Hf Hr Hp Hu Hoff. split; [exact Hoff|]. intros bytes Hon [= <-]. cbn [fst] in Hon.
  eexists _, _. split_and!; [done|done|done|]. intros last x rest. rewrite Hr, (Hu Hon). apply assign_read. auto.
Qed.

Lemma flag_block c ty (u : DefaultHeadlessRule -> DefaultHeadlessRule) :
  byte_value ty = true -> ty <> ruleItemFinal ->
  (c = true -> forall last x l, readDefaultRule_item false ty last x l = Ok (u x, l)) ->
  (c = false -> forall x, u x = x) -> block_ok (c, Ok [ty]) u.
Proof.
  intros Hb Hf Hr Hoff. split; [exact Hoff|]. intros bytes Hon [= <-]. cbn [fst] in Hon.
  eexists _, _. split_and!; [done|done|done|]. intros last x rest. by rewrite Hr.
Qed.

Lemma domain_block :
  block_ok
    (nonnil (ho_Domain o) || nonnil (ho_DomainSuffix o),
     if bool_decide (""%string ∈ ho_Domain o) then Err (ENew "domain: empty item is not allowed")
     else if bool_decide (""%string ∈ ho_DomainSuffix o)
     then Err (ENew "domain_suffix: empty item is not allowed")
     else Ok (ruleItemDomain :: WriteMatcher (ho_Domain o) (ho_DomainSuffix o) (v =? RuleSetVersion1)))
    (fun r => ho_set_DomainMatcher (keep (nonnil (ho_Domain o) || nonnil (ho_DomainSuffix o))
      (Some (NewMatcher (ho_Domain o) (ho_DomainSuffix o) (v =? RuleSetVersion1))) (ho_DomainMatcher r)) r).
Proof using H1.
  split; [intros Hoff x; cbn [fst] in Hoff; rewrite Hoff; by destruct x|].
  intros bytes Hon Hb. cbn [fst snd] in *. rewrite Hon. repeat case_bool_decide; simplify_eq.
  eexists _, _. split_and!; [done|done|done|]. intros last x rest.
  destruct (ReadMatcher_spec (ho_Domain o) (ho_DomainSuffix o) (v =? RuleSetVersion1) rest) as [dump Hd].
  exact (assign_read _ (assign_matcher false) x _ _ _ Hd).
Qed.

Lemma adguard_block :
  block_ok (nonnil (ho_AdGuardDomain o), Ok (ruleItemAdGuardDomain :: WriteAdGuardMatcher (ho_AdGuardDomain o)))
    (fun r => ho_set_AdGuardDomainMatcher (keep (nonnil (ho_AdGuardDomain o))
      (Some (NewAdGuardMatcher (ho_AdGuardDomain o))) (ho_AdGuardDomainMatcher r)) r).
Proof using H1.
  split; [intros Hoff x; cbn [fst] in Hoff; rewrite Hoff; by destruct x|].
  intros bytes Hon [= <-]. cbn [fst] in *. rewrite Hon. eexists _, _. split_and!; [done|done|done|]. intros last x rest.
  destruct (ReadAdGuardMatcher_spec (ho_AdGuardDomain o) rest) as [dump Hd].
  exact (assign_read _ (assign_adguard false) x _ _ _ Hd).
Qed.

Ltac string_block update := apply (string_block _ _ _ update); try done; by intros [].
Ltac word_block update := apply (word_block _ _ _ update); try done; by intros [].

Lemma conditions_ok : Forall2 block_ok (writeDefaultRule_conditions v o) (updates1 v o).
Proof using H1 Hok.
  unfold default_ok in Hok. rewrite !andb_true_iff in Hok.
  destruct Hok as ((((((((((((((((( ? & ? ) & ? ) & ? ) & ? ) & ? ) & ? ) & ? ) & ? ) & ? ) & ? ) & ? ) & ? ) & ? ) & ? ) & ? ) & ? ) & ? ).
  unfold writeDefaultRule_conditions, updates1.
  apply Forall2_cons; split; [word_block ho_set_QueryType|].
  apply Forall2_cons; split; [string_block ho_set_Network|].
  apply Forall2_cons; split; [exact domain_block|].
  apply Forall2_cons; split; [string_block ho_set_DomainKeyword|].
  apply Forall2_cons; split; [string_block ho_set_DomainRegex|].
  apply Forall2_cons; split;
    [apply (set_block _ _ _ _ _ (assign_source_set false) ho_set_SourceIPSet); try done; by intros []|].
  apply Forall2_cons; split; [apply (set_block _ _ _ _ _ (assign_set false) ho_set_IPSet); try done; by intros []|].
  apply Forall2_cons; split; [word_block ho_set_SourcePort|].
  apply Forall2_cons; split; [string_block ho_set_SourcePortRange|].
  apply Forall2_cons; split; [word_block ho_set_Port|].
  apply Forall2_cons; split; [string_block ho_set_PortRange|].
  apply Forall2_cons; split; [string_block ho_set_ProcessName|].
  apply Forall2_cons; split; [string_block ho_set_ProcessPath|].
  apply Forall2_cons; split; [string_block ho_set_ProcessPathRegex|].
  apply Forall2_cons; split; [string_block ho_set_PackageName|].
  by apply Forall2_nil.
Qed.

Lemma versioned_ok : Forall2 block_ok (writeDefaultRule_versioned v o) (updates2 o).
Proof using H1 Hok.
  unfold default_ok in Hok. rewrite !andb_true_iff, bool_decide_eq_true in Hok.
  destruct Hok as ((((((((((((((((( ? & ? ) & ? ) & ? ) & ? ) & ? ) & ? ) & ? ) & ? ) & ? ) & ? ) & ? ) & ? ) & ? ) & ? ) & (? & ?) ) & ? ) & ((? & ?) & ?) ).
  unfold writeDefaultRule_versioned, updates2.
  apply Forall2_cons; split; [apply since_block; string_block ho_set_PackageNameRegex|].
  apply Forall2_cons; split; [apply since_block|].
  { apply (plain_block _ _ _ ReadSlice8 ho_set_NetworkType (ho_NetworkType o)); try done.
    - intros _ rest. rewrite <- app_assoc. by apply ReadSlice8_spec.
    - by intros ->.
    - intros ->. by intros []. }
  apply Forall2_cons; split; [apply since_block, flag_block; try done; intros ->; by intros []|].
  apply Forall2_cons; split; [apply since_block, flag_block; try done; intros ->; by intros []|].
  apply Forall2_cons; split; [apply since_block|].
  { apply (plain_block _ _ _ readInterfaceAddress ho_set_NetworkInterfaceAddress (ho_NetworkInterfaceAddress o)); try done.
    - intros _ rest. rewrite <- app_assoc. by apply readInterfaceAddress_write.
    - by intros ->.
    - intros ->. by intros []. }
  apply Forall2_cons; split; [apply since_block|].
  { apply (plain_block _ _ _ readPrefixes ho_set_DefaultInterfaceAddress (ho_DefaultInterfaceAddress o)); try done.
    - intros _ rest. by apply readPrefixes_write.
    - by intros ->.
    - intros ->. by intros []. }
  apply Forall2_cons; split; [string_block ho_set_WIFISSID|].
  apply Forall2_cons; split; [string_block ho_set_WIFIBSSID|].
  apply Forall2_cons; split; [apply since_block; exact adguard_block|].
  by apply Forall2_nil.
Qed.

Lemma readDefaultRule_write bytes rest :
  writeDefaultRule o v = Ok bytes ->
  exists body, bytes = 0 :: body /\ readDefaultRule false (body ++ rest) = Ok (default_form v o, rest).
Proof using H1 Hok.
  unfold writeDefaultRule. intros Hw. simpl_result. exists (a ++ [ruleItemFinal] ++ WriteBool (ho_Invert o)).
  split; [done|]. unfold readDefaultRule. rewrite <- !app_assoc.
  rewrite (read_blocks (writeDefaultRule_conditions v o ++ writeDefaultRule_versioned v o)
    (updates1 v o ++ updates2 o) a);
    [by rewrite updates_form|apply Forall2_app; [apply conditions_ok|apply versioned_ok]|done|].
  rewrite length_app. lia.
Qed.
End default_roundtrip.

(** ** Rules *)

(** How deep logical rules nest. *)
Fixpoint nesting (r : HeadlessRule) : nat :=
  match r with
  | mkHeadlessRule ty _ _ rules _ _ =>
      if bool_decide (ty = RuleTypeDefault) then 0%nat
      else S (foldr (fun sub n => Nat.max (nesting sub) n) 0%nat rules)
  end.

Fixpoint rule_ok (r : HeadlessRule) : bool :=
  match r with
  | mkHeadlessRule ty d _ rules _ _ =>
      if bool_decide (ty = RuleTypeDefault) then default_ok d
      else short (length rules) && forallb rule_ok rules
  end.

Lemma nesting_le r rules n :
  r ∈ rules -> (foldr (fun sub n => Nat.max (nesting sub) n) 0%nat rules <= n)%nat -> (nesting r <= n)%nat.
Proof.
  induction rules as [|x rules IH]; intros Hr Hn; [by apply not_elem_of_nil in Hr|]. cbn in Hn.
  apply elem_of_cons in Hr as [->|Hr]; [lia|]. apply IH; [done|lia].
Qed.

Section rule_roundtrip.
Context `{SrsLaws} (v : Z).

Lemma ReadN_indexed_write {A B : Type} what (read : Reader B) (f : A -> B) (l : list A) bytes i rest :
  Forall2 (fun x b => forall rest, read (b ++ rest) = Ok (f x, rest)) l bytes ->
  ReadN_indexed what read i (length l) (concat bytes ++ rest) = Ok (map f l, rest).
Proof using.
  intros Hl. revert i. induction Hl as [|x b l bytes Hx _ IH]; intros i; cbn; [done|].
  rewrite <- app_assoc, Hx. cbn. by rewrite IH.
Qed.

Lemma readRule_write r fuel depth bytes rest :
  rule_ok r = true -> writeRule r v = Ok bytes -> (nesting r < fuel)%nat ->
  Z.of_nat (nesting r) + depth <= maxLogicalRuleDepth ->
  readRule fuel false depth (bytes ++ rest) = Ok (rule_form v r, rest).
Proof using H1.
  revert fuel depth bytes rest. induction r as [ty d mode rules ls inv IH] using HeadlessRule_nested_ind.
  intros [|fuel] depth bytes rest Hok Hw Hf Hd; [lia|]. cbn [rule_ok writeRule nesting rule_form] in *.
  assert (Hdeep : (maxLogicalRuleDepth <? depth) = false) by (apply Z.ltb_ge; destruct (bool_decide _); lia).
  cbn [readRule]. rewrite Hdeep. destruct (bool_decide (ty = RuleTypeDefault)).
  - destruct (negb _); [done|]. apply (readDefaultRule_write v d Hok bytes rest) in Hw as (body & -> & Hr).
    cbn [app]. rewrite ReadBE_byte by done. cbn [result_bind fst snd Z.eqb]. by rewrite Hr.
  - destruct (bool_decide (ty = RuleTypeLogical)); [|done]. destruct (negb _); [done|].
    apply andb_true_iff in Hok as [Hn Hok]. unfold writeLogicalRule in Hw. simpl_result. cbn [app].
    rewrite ReadBE_byte by done. cbn [result_bind fst snd Z.eqb].
    unfold readLogicalRule. cbn [ReadByte result_bind fst snd].
    assert (Hm : (if a =? 0 then Ok LogicalTypeAnd else if a =? 1 then Ok LogicalTypeOr
      else Err (ENew ("unknown logical mode: " +:+ pretty a))) = Ok mode).
    { clear -Heqr. repeat case_bool_decide; simplify_eq; done. }
    rewrite Hm. cbn [result_bind fst snd]. rewrite <- !app_assoc, Uvarint_short by done.
    cbn [result_bind fst snd]. rewrite Nat2Z.id.
    rewrite (ReadN_indexed_write _ _ (rule_form v)).
    + cbn [result_bind fst snd]. by rewrite ReadBool_WriteBool.
    + apply result_mapM_Forall2 in Heqr0. rewrite forallb_forall in Hok. rewrite Forall_forall in IH.
      apply Forall2_same_length_lookup_2; [by eapply Forall2_length|].
      intros i x b Hx Hb r. pose proof (Forall2_lookup_lr _ _ _ _ _ _ Heqr0 Hx Hb) as Hxb.
      apply list_elem_of_lookup_2 in Hx as Hin.
      pose proof (nesting_le x rules _ Hin (Nat.le_refl _)).
      apply IH; [done|apply Hok; by apply list_elem_of_In|exact Hxb|lia|lia].
Qed.

(** ** Rule-sets *)

Lemma readRules_write rules bodies rest :
  forallb rule_ok rules = true -> Forall (fun r => Z.of_nat (nesting r) <= maxLogicalRuleDepth) rules ->
  result_mapM (fun rule => writeRule rule v) rules = Ok bodies ->
  ReadN_indexed "read rule[" (readRule readRule_fuel false 0) 0 (length rules) (concat bodies ++ rest) =
    Ok (map (rule_form v) rules, rest).
Proof using H1.
  intros Hok Hd Hw. apply result_mapM_Forall2 in Hw. apply ReadN_indexed_write.
  rewrite forallb_forall in Hok. rewrite Forall_forall in Hd.
  apply Forall2_same_length_lookup_2; [by eapply Forall2_length|].
  intros i x b Hx Hb r. pose proof (Forall2_lookup_lr _ _ _ _ _ _ Hw Hx Hb) as Hxb. apply list_elem_of_lookup_2 in Hx as Hin.
  specialize (Hd x Hin). unfold maxLogicalRuleDepth in *.
  apply readRule_write; [apply Hok; by apply list_elem_of_In|exact Hxb|unfold readRule_fuel; lia|unfold maxLogicalRuleDepth; lia].
Qed.
End rule_roundtrip.
