(* ===== verification/SrsEquiv.v ===== *)
(** * Source and binary rule-sets build the same rules

    The options a binary rule-set reads back differ from the ones it was written
    from: domains, prefixes and AdGuard lines have become matchers and sets.  The
    constructors of [src/route/rule/rule_headless.go] build the same rules from
    both, for every version but the first, whose domain matcher is the legacy one. *)

From stdpp Require Import base strings list sets pretty.
From Stdlib Require Import ZArith Lia.
From S2P Require Import Prelude Net Codec GoStrings Metadata IPSet RuleMatch RuleItems RuleOptions RuleBuild.
From S2P Require Import HeadlessFields Srs SrsRoundtrip.

Open Scope Z_scope.

(** ** Steps with the same effect *)

Definition run_equiv (l1 l2 : list step) : Prop := forall d, run_steps l1 d = run_steps l2 d.

Lemma run_equiv_cons st l1 l2 : run_equiv l1 l2 -> run_equiv (st :: l1) (st :: l2).
Proof. intros He d. cbn. destruct (step_cond st); [|apply He]. destruct (step_item st); [apply He|done]. Qed.

(** Two alternatives of one slot, of which at most one applies. *)
Definition choose (s1 s2 : step) : option (result BuiltItem) :=
  if step_cond s1 then Some (step_item s1) else if step_cond s2 then Some (step_item s2) else None.

Lemma run_equiv_pair sl c1 c2 c1' c2' i1 i2 i1' i2' l1 l2 :
  c1 && c2 = false -> c1' && c2' = false ->
  choose (mkStep c1 sl i1) (mkStep c2 sl i2) = choose (mkStep c1' sl i1') (mkStep c2' sl i2') ->
  run_equiv l1 l2 ->
  run_equiv (mkStep c1 sl i1 :: mkStep c2 sl i2 :: l1) (mkStep c1' sl i1' :: mkStep c2' sl i2' :: l2).
Proof.
  intros Hx Hx' Hc He d. unfold choose in Hc. cbn in *.
  destruct c1, c2, c1', c2'; try done; simplify_eq; cbn; try apply He;
    match goal with |- context [result_bind ?i _] => destruct i end; cbn; try apply He; done.
Qed.

Section equiv.
Context `{SrsLibrary} `{BuildContext}.

(** Options as a source rule-set has them: nothing compiled yet. *)
Definition raw_free (o : DefaultHeadlessRule) : bool :=
  isnone (ho_DomainMatcher o) && isnone (ho_SourceIPSet o) && isnone (ho_IPSet o) && isnone (ho_AdGuardDomainMatcher o).

(** What a successful write says about the blocks that may fail. *)
Definition compiles (o : DefaultHeadlessRule) : Prop :=
  (""%string ∉ ho_Domain o) /\ (""%string ∉ ho_DomainSuffix o) /\
  (nonnil (ho_SourceIPCIDR o) = true -> exists r, BuildIPSet (ho_SourceIPCIDR o) = Ok r) /\
  (nonnil (ho_IPCIDR o) = true -> exists r, BuildIPSet (ho_IPCIDR o) = Ok r).

Lemma write_blocks_in blocks bytes c b :
  write_blocks blocks = Ok bytes -> (c, b) ∈ blocks -> c = true -> exists x, b = Ok x.
Proof.
  revert bytes. induction blocks as [|[c' b'] blocks IH]; intros bytes Hw Hin Hc; [by apply not_elem_of_nil in Hin|].
  cbn in Hw. apply elem_of_cons in Hin as [[= <- <-]|Hin].
  - rewrite Hc in Hw. destruct b; [eauto|done].
  - destruct c'; [simpl_result|]; by eapply IH.
Qed.

Lemma writeDefaultRule_compiles o v bytes : writeDefaultRule o v = Ok bytes -> compiles o.
Proof.
  unfold writeDefaultRule. intros Hw. simpl_result.
  pose proof (write_blocks_in _ _ (nonnil (ho_Domain o) || nonnil (ho_DomainSuffix o)) _ Heqr
    ltac:(apply elem_of_app; left; do 2 right; left)) as Hdom.
  pose proof (write_blocks_in _ _ (nonnil (ho_SourceIPCIDR o)) _ Heqr
    ltac:(apply elem_of_app; left; do 5 right; left)) as Hsrc.
  pose proof (write_blocks_in _ _ (nonnil (ho_IPCIDR o)) _ Heqr
    ltac:(apply elem_of_app; left; do 6 right; left)) as Hdst.
  split_and!.
  - intros Hin. rewrite bool_decide_eq_true_2 in Hdom by done.
    destruct Hdom as [x Hx]; [|done]. destruct (ho_Domain o); [by apply not_elem_of_nil in Hin|done].
  - intros Hin. rewrite (bool_decide_eq_true_2 (_ ∈ ho_DomainSuffix o)) in Hdom by done.
    destruct Hdom as [x Hx]; [|by case_match].
    destruct (ho_DomainSuffix o); [by apply not_elem_of_nil in Hin|by rewrite orb_true_r].
  - intros Hn. destruct (Hsrc Hn) as [x Hx]. unfold writeRuleItemCIDR in Hx. rewrite Hn in Hx.
    destruct (BuildIPSet (ho_SourceIPCIDR o)); [eauto|done].
  - intros Hn. destruct (Hdst Hn) as [x Hx]. unfold writeRuleItemCIDR in Hx. rewrite Hn in Hx.
    destruct (BuildIPSet (ho_IPCIDR o)); [eauto|done].
Qed.

Lemma NewDomainItem_compiles o strategy : compiles o ->
  NewDomainItem (ho_Domain o) (ho_DomainSuffix o) strategy =
    Ok (DomainItem (NewMatcher (ho_Domain o) (ho_DomainSuffix o) false) strategy).
Proof.
  intros (Hd & Hs & _). unfold NewDomainItem. by rewrite !bool_decide_eq_false_2.
Qed.


Lemma run_equiv_refl l : run_equiv l l.
Proof. by intros d. Qed.

(** An address item from its prefixes, or from the set they compile to. *)
Lemma cidr_pair_equiv sl src name prefixes raw l1 l2 :
  raw = None -> (nonnil prefixes = true -> exists r, BuildIPSet prefixes = Ok r) -> run_equiv l1 l2 ->
  run_equiv
    (mkStep (nonnil (A:=Prefix) []) sl (cause name (plain (NewIPCIDRItem src []))) ::
     mkStep (negb (nonnil (A:=Prefix) []) && nonnone (set_form prefixes)) sl
       (Ok (Plain (NewRawIPCIDRItem src (default (mkSet [] []) (set_form prefixes))))) :: l1)
    (mkStep (nonnil prefixes) sl (cause name (plain (NewIPCIDRItem src prefixes))) ::
     mkStep (negb (nonnil prefixes) && nonnone raw) sl
       (Ok (Plain (NewRawIPCIDRItem src (default (mkSet [] []) raw)))) :: l2).
Proof.
  intros -> Hb He. apply run_equiv_pair; [done|by destruct (nonnil prefixes)| |done].
  unfold choose, set_form, NewIPCIDRItem, NewRawIPCIDRItem. cbn.
  destruct (nonnil prefixes) eqn:Hn; [|done]. destruct (Hb eq_refl) as [r Hr]. by rewrite Hr.
Qed.

Lemma steps_form o v s t : raw_free o = true -> compiles o -> v <> RuleSetVersion1 ->
  run_equiv (NewDefaultHeadlessRule_steps s (ho_with_strategy (default_form v o) t))
    (NewDefaultHeadlessRule_steps s (ho_with_strategy o t)).
Proof.
  intros Hraw Hc Hv. unfold raw_free in Hraw. rewrite !andb_true_iff in Hraw.
  destruct Hraw as (((Hm & Hsi) & Hdi) & Ha). pose proof (NewDomainItem_compiles o s Hc) as Hd.
  destruct Hc as (_ & _ & Hsrc & Hdst). apply Z.eqb_neq in Hv.
  unfold NewDefaultHeadlessRule_steps, NewDefaultHeadlessRule_address_steps,
    NewDefaultHeadlessRule_environment_steps. cbn [app].
  do 2 apply run_equiv_cons. apply run_equiv_pair.
  { done. }
  { cbn. by destruct (nonnil (ho_Domain o) || nonnil (ho_DomainSuffix o)). }
  { unfold choose. cbn. rewrite Hd, Hv. destruct (ho_DomainMatcher o); [done|].
    by destruct (nonnil (ho_Domain o) || nonnil (ho_DomainSuffix o)). }
  do 2 apply run_equiv_cons.
  apply cidr_pair_equiv; [cbn; by destruct (ho_SourceIPSet o)|done|].
  apply cidr_pair_equiv; [cbn; by destruct (ho_IPSet o)|done|].
  do 16 apply run_equiv_cons. apply run_equiv_pair; [done| | |apply run_equiv_refl]; unfold choose; cbn;
    destruct (ho_AdGuardDomainMatcher o); try done; by destruct (nonnil (ho_AdGuardDomain o)).
Qed.

Lemma set_form_none prefixes : (nonnil prefixes = true -> exists r, BuildIPSet prefixes = Ok r) ->
  isnone (set_form prefixes) = isnil prefixes.
Proof. unfold set_form. intros Hb. destruct prefixes; [done|]. cbn. destruct Hb as [r ->]; done. Qed.

(** The zero tests of the two forms agree; [o'] changes the strategy, the prefixes
    or nothing. *)
Lemma zero_form o v s : raw_free o = true -> compiles o ->
  DefaultHeadlessRule_zero (ho_with_strategy (default_form v o) s) =
    DefaultHeadlessRule_zero (ho_with_strategy o s).
Proof.
  intros Hraw (_ & _ & Hsrc & Hdst). unfold raw_free in Hraw. rewrite !andb_true_iff in Hraw.
  destruct Hraw as (((Hm & Hsi) & Hdi) & Ha). unfold DefaultHeadlessRule_zero. cbn -[set_form isnone isnil nonnil].
  rewrite (set_form_none _ Hsrc), (set_form_none _ Hdst), Hm, Hsi, Hdi, Ha.
  destruct (ho_Domain o), (ho_DomainSuffix o), (ho_SourceIPCIDR o), (ho_IPCIDR o), (ho_AdGuardDomain o); cbn;
    rewrite ?andb_false_r, ?andb_true_r; done.
Qed.

(** A rule that was written, as it is. *)
Fixpoint source_rule (v : Z) (r : HeadlessRule) : Prop :=
  match r with
  | mkHeadlessRule ty d _ rules ls _ =>
      (ty = RuleTypeDefault /\ raw_free d = true /\ compiles d /\ ho_DomainMatchStrategy d = DomainMatchStrategyAsIS) \/
      (ty = RuleTypeLogical /\ ls = DomainMatchStrategyAsIS /\ foldr (fun sub acc => source_rule v sub /\ acc) True rules)
  end.

Fixpoint raw_free_rule (r : HeadlessRule) : bool :=
  match r with
  | mkHeadlessRule ty d _ rules _ _ =>
      if bool_decide (ty = RuleTypeDefault) then raw_free d else forallb raw_free_rule rules
  end.

Lemma foldr_Forall {A : Type} (P : A -> Prop) (l : list A) :
  foldr (fun x acc => P x /\ acc) True l <-> Forall P l.
Proof. induction l as [|x l IH]; cbn; [split; constructor|]. by rewrite IH, Forall_cons. Qed.

Lemma writeRule_source r v bytes : raw_free_rule r = true -> writeRule r v = Ok bytes -> source_rule v r.
Proof.
  revert bytes. induction r as [ty d mode rules ls inv IH] using HeadlessRule_nested_ind; intros bytes Hraw Hw.
  cbn in Hraw, Hw |- *. case_bool_decide as Hty.
  - left. destruct (ho_DomainMatchStrategy d =? _) eqn:Hs; [|done]. apply Z.eqb_eq in Hs.
    split_and!; try done. exact (writeDefaultRule_compiles _ _ _ Hw).
  - case_bool_decide as Hlt; [|done]. right. destruct (ls =? _) eqn:Hs; [|done]. apply Z.eqb_eq in Hs.
    split_and!; try done. cbn in Hw. unfold writeLogicalRule in Hw. simpl_result. apply foldr_Forall. apply result_mapM_Forall2 in Heqr0.
    rewrite forallb_forall in Hraw. rewrite Forall_forall in IH |- *. intros x Hx.
    apply list_elem_of_lookup_1 in Hx as Hi. destruct Hi as [i Hi].
    destruct (Forall2_lookup_l _ _ _ _ _ Heqr0 Hi) as (b & _ & Hb).
    eapply IH; [done| |exact Hb]. apply Hraw. by apply list_elem_of_In.
Qed.

Lemma rule_form_default v d mode rules ls inv :
  rule_form v (mkHeadlessRule RuleTypeDefault d mode rules ls inv) =
    mkHeadlessRule RuleTypeDefault (default_form v d) "" [] 0 false.
Proof. reflexivity. Qed.

Lemma rule_form_logical v d mode rules ls inv :
  rule_form v (mkHeadlessRule RuleTypeLogical d mode rules ls inv) =
    mkHeadlessRule RuleTypeLogical zero_DefaultHeadlessRule mode (map (rule_form v) rules) 0 inv.
Proof. reflexivity. Qed.

Lemma IsValid_default d mode rules ls inv :
  HeadlessRule_IsValid (mkHeadlessRule RuleTypeDefault d mode rules ls inv) = Some (DefaultHeadlessRule_IsValid d).
Proof. reflexivity. Qed.

Lemma IsValid_logical d mode rules ls inv :
  HeadlessRule_IsValid (mkHeadlessRule RuleTypeLogical d mode rules ls inv) =
    if isnil rules then Some false else all_valid HeadlessRule_IsValid rules.
Proof. reflexivity. Qed.

Lemma ho_with_own_strategy o : ho_with_strategy o (ho_DomainMatchStrategy o) = o.
Proof. by destruct o. Qed.

Lemma IsValid_form_default o v : raw_free o = true -> compiles o ->
  ho_DomainMatchStrategy o = DomainMatchStrategyAsIS ->
  DefaultHeadlessRule_IsValid (default_form v o) = DefaultHeadlessRule_IsValid o.
Proof.
  intros Hraw Hc Hs. unfold DefaultHeadlessRule_IsValid. f_equal.
  pose proof (zero_form o v (ho_DomainMatchStrategy o) Hraw Hc) as Hz.
  rewrite ho_with_own_strategy, Hs in Hz. exact Hz.
Qed.

Lemma all_valid_form rules v :
  Forall (fun r => HeadlessRule_IsValid (rule_form v r) = HeadlessRule_IsValid r) rules ->
  all_valid HeadlessRule_IsValid (map (rule_form v) rules) = all_valid HeadlessRule_IsValid rules.
Proof. induction 1 as [|r rules Hr _ IH]; [done|]. cbn [map all_valid]. rewrite Hr. by rewrite IH. Qed.

Lemma isnil_map {A B : Type} (f : A -> B) l : isnil (map f l) = isnil l.
Proof. by destruct l. Qed.

Lemma IsValid_form r v : source_rule v r -> HeadlessRule_IsValid (rule_form v r) = HeadlessRule_IsValid r.
Proof.
  induction r as [ty d mode rules ls inv IH] using HeadlessRule_nested_ind.
  intros [(-> & Hraw & Hc & Hs)|(-> & Hs & Hr)].
  - rewrite rule_form_default, !IsValid_default. f_equal. by apply IsValid_form_default.
  - rewrite rule_form_logical, !IsValid_logical, isnil_map. apply foldr_Forall in Hr.
    rewrite all_valid_form; [done|]. rewrite Forall_forall in *. auto.
Qed.

(** ** Construction *)

Lemma NewHeadlessRule_default p d mode rules ls inv :
  NewHeadlessRule p (mkHeadlessRule RuleTypeDefault d mode rules ls inv) =
    let d' := ho_with_strategy d (inheritStrategy p (ho_DomainMatchStrategy d)) in
    if negb (DefaultHeadlessRule_IsValid d') then Err missing_conditions else NewDefaultHeadlessRule d'.
Proof. reflexivity. Qed.

Lemma NewHeadlessRule_logical p d mode rules ls inv :
  NewHeadlessRule p (mkHeadlessRule RuleTypeLogical d mode rules ls inv) =
    match (if isnil rules then Some false else all_valid HeadlessRule_IsValid rules) with
    | None => Err (EPanic "unknown rule type")
    | Some false => Err missing_conditions
    | Some true =>
        let strategy := resolveStrategy (inheritStrategy p ls) in
        if negb (known_mode mode) then Err (mode_error mode)
        else
          try rs <- result_mapiM (fun i sub => sub_rule_cause i (NewHeadlessRule strategy sub)) 0 rules;
          Ok (RLogical mode (map fst rs) inv, 1)
    end.
Proof. reflexivity. Qed.

Lemma NewDefaultHeadlessRule_form o v s : raw_free o = true -> compiles o -> v <> RuleSetVersion1 ->
  NewDefaultHeadlessRule (ho_with_strategy (default_form v o) s) = NewDefaultHeadlessRule (ho_with_strategy o s).
Proof.
  intros Hraw Hc Hv. unfold NewDefaultHeadlessRule.
  change (ho_DomainMatchStrategy (ho_with_strategy (default_form v o) s)) with s.
  change (ho_DomainMatchStrategy (ho_with_strategy o s)) with s.
  change (ho_Invert (ho_with_strategy (default_form v o) s)) with (ho_Invert o).
  change (ho_Invert (ho_with_strategy o s)) with (ho_Invert o).
  by rewrite (steps_form o v (resolveStrategy s) s Hraw Hc Hv).
Qed.

Lemma IsValid_form_strategy o v s : raw_free o = true -> compiles o ->
  DefaultHeadlessRule_IsValid (ho_with_strategy (default_form v o) s) =
    DefaultHeadlessRule_IsValid (ho_with_strategy o s).
Proof. intros Hraw Hc. unfold DefaultHeadlessRule_IsValid. by rewrite zero_form. Qed.

Lemma result_mapiM_map {A B C : Type} (f : Z -> B -> result C) (g : A -> B) i l :
  result_mapiM f i (map g l) = result_mapiM (fun j x => f j (g x)) i l.
Proof. revert i. induction l as [|x l IH]; intros i; cbn; [done|]. destruct (f i (g x)); cbn; [by rewrite IH|done]. Qed.

Lemma NewHeadlessRule_form r v p : source_rule v r -> v <> RuleSetVersion1 ->
  NewHeadlessRule p (rule_form v r) = NewHeadlessRule p r.
Proof.
  intros Hsrc Hv. revert p Hsrc. induction r as [ty d mode rules ls inv IH] using HeadlessRule_nested_ind.
  intros p [(-> & Hraw & Hc & Hs)|(-> & Hs & Hr)].
  - rewrite rule_form_default, !NewHeadlessRule_default.
    change (ho_DomainMatchStrategy (default_form v d)) with DomainMatchStrategyAsIS. rewrite Hs. cbn zeta.
    by rewrite (IsValid_form_strategy _ _ _ Hraw Hc), (NewDefaultHeadlessRule_form _ _ _ Hraw Hc Hv).
  - rewrite rule_form_logical, !NewHeadlessRule_logical, isnil_map, Hs. apply foldr_Forall in Hr.
    rewrite all_valid_form by (eapply Forall_impl; [exact Hr|]; intros r; apply IsValid_form).
    cbn zeta. rewrite result_mapiM_map.
    rewrite (result_mapiM_ext _ (fun i sub => sub_rule_cause i (NewHeadlessRule (resolveStrategy (inheritStrategy p 0)) sub))).
    + done.
    + rewrite Forall_forall in *. intros r Hin j. by rewrite IH by auto.
Qed.

(** ** The summary *)

Lemma HasHeadlessRule_default cond d mode rules ls inv :
  HasHeadlessRule cond (mkHeadlessRule RuleTypeDefault d mode rules ls inv) = cond d.
Proof. reflexivity. Qed.

Lemma HasHeadlessRule_logical cond d mode rules ls inv :
  HasHeadlessRule cond (mkHeadlessRule RuleTypeLogical d mode rules ls inv) = existsb (HasHeadlessRule cond) rules.
Proof. reflexivity. Qed.

Lemma HasHeadlessRule_form cond r v :
  (forall d, raw_free d = true -> compiles d -> ho_DomainMatchStrategy d = DomainMatchStrategyAsIS ->
    cond (default_form v d) = cond d) ->
  source_rule v r -> HasHeadlessRule cond (rule_form v r) = HasHeadlessRule cond r.
Proof.
  intros Hcond. induction r as [ty d mode rules ls inv IH] using HeadlessRule_nested_ind.
  intros [(-> & Hraw & Hc & Hs)|(-> & Hs & Hr)].
  - rewrite rule_form_default, !HasHeadlessRule_default. auto.
  - rewrite rule_form_logical, !HasHeadlessRule_logical. apply foldr_Forall in Hr. clear Hs.
    induction IH as [|r rules Hx _ IHl]; [done|]. apply Forall_cons in Hr as [Hsr Hr]. cbn.
    by rewrite Hx, IHl.
Qed.

Lemma existsb_form cond rules v :
  (forall d, raw_free d = true -> compiles d -> ho_DomainMatchStrategy d = DomainMatchStrategyAsIS ->
    cond (default_form v d) = cond d) ->
  Forall (source_rule v) rules ->
  existsb (HasHeadlessRule cond) (map (rule_form v) rules) = existsb (HasHeadlessRule cond) rules.
Proof.
  intros Hcond Hr. induction Hr as [|r rules Hx _ IH]; [done|]. cbn. by rewrite HasHeadlessRule_form, IH.
Qed.

Lemma isIPCIDR_form o v : raw_free o = true -> compiles o ->
  isIPCIDRHeadlessRule (default_form v o) = isIPCIDRHeadlessRule o.
Proof.
  intros Hraw (_ & _ & _ & Hdst). unfold isIPCIDRHeadlessRule. cbn -[set_form]. unfold nonnone.
  rewrite (set_form_none _ Hdst). unfold raw_free in Hraw. rewrite !andb_true_iff in Hraw.
  destruct Hraw as (((_ & _) & ->) & _). by destruct (ho_IPCIDR o).
Qed.

Lemma isNonIPCIDR_form o v : raw_free o = true -> compiles o ->
  ho_DomainMatchStrategy o = DomainMatchStrategyAsIS ->
  isNonIPCIDRHeadlessRule (default_form v o) = isNonIPCIDRHeadlessRule o.
Proof.
  intros Hraw Hc Hs. unfold isNonIPCIDRHeadlessRule. f_equal.
  assert (Hf : ho_without_cidr (default_form v o) = default_form v (ho_without_cidr o)) by done.
  assert (Hc' : compiles (ho_without_cidr o)) by (destruct Hc as (H2 & H3 & H4 & _); split_and!; done).
  assert (Hraw' : raw_free (ho_without_cidr o) = true).
  { unfold raw_free in *. rewrite !andb_true_iff in *. destruct Hraw as (((? & ?) & _) & ?). done. }
  pose proof (zero_form (ho_without_cidr o) v DomainMatchStrategyAsIS Hraw' Hc') as Hz.
  rewrite Hf. rewrite <- Hs in Hz at 2.
  replace (ho_with_strategy (ho_without_cidr o) (ho_DomainMatchStrategy o)) with (ho_without_cidr o) in Hz by done.
  exact Hz.
Qed.

Lemma buildRuleSetMetadata_form rules v : Forall (source_rule v) rules ->
  buildRuleSetMetadata (map (rule_form v) rules) = buildRuleSetMetadata rules.
Proof.
  intros Hr. unfold buildRuleSetMetadata. f_equal; apply existsb_form; try done; intros d Hraw Hc Hs.
  - by apply isIPCIDR_form.
  - by apply isNonIPCIDR_form.
Qed.

(** Loading the binary form of a rule-set gives what loading its source gives. *)
Lemma reloadRules_form validate rules v : Forall (source_rule v) rules -> v <> RuleSetVersion1 ->
  reloadRules validate (map (rule_form v) rules) = reloadRules validate rules.
Proof.
  intros Hr Hv. unfold reloadRules. rewrite result_mapiM_map, buildRuleSetMetadata_form by done.
  rewrite (result_mapiM_ext _ (fun i r =>
    result_map_err (fun e => ECause e ("parse rule_set.rules.[" +:+ pretty i +:+ "]"))
      (NewHeadlessRule DomainMatchStrategyAsIS r))); [done|].
  eapply Forall_impl; [exact Hr|]. intros r Hs j. by rewrite NewHeadlessRule_form.
Qed.
End equiv.
