(* ===== verification/SrsTheorems.v ===== *)
(** * Theorems about binary rule-sets and address sets *)

From stdpp Require Import base strings list sets pretty.
From Stdlib Require Import ZArith Lia.
From S2P Require Import Prelude Net Codec GoStrings Metadata IPSet RuleMatch RuleItems RuleOptions RuleBuild.
From S2P Require Import HeadlessFields Srs SrsRoundtrip SrsEquiv Sample.

Open Scope Z_scope.

(** ** A concrete library for the witnesses

    Lists of strings with an end marker after each string and one after the list. *)

Definition encode_strings (l : list string) : list Z :=
  flat_map (fun s => bytes_of_string s ++ [256]) l ++ [257].

Fixpoint decode_strings (acc : list Z) (l : list Z) : result (list string * list Z) :=
  match l with
  | [] => Err EOF
  | b :: l' =>
      if b =? 257 then Ok ([], l')
      else if b =? 256 then try p <- decode_strings [] l'; Ok (string_of_bytes acc :: p.1, p.2)
      else decode_strings (acc ++ [b]) l'
  end.

Lemma decode_string s acc l :
  decode_strings acc (bytes_of_string s ++ 256 :: l) =
    result_bind (decode_strings [] l) (fun p => Ok (string_of_bytes (acc ++ bytes_of_string s) :: p.1, p.2)).
Proof.
  unfold bytes_of_string. generalize (String.list_ascii_of_string s). intros cs. revert acc.
  induction cs as [|c cs IH]; intros acc; cbn -[Z.eqb]; [by rewrite app_nil_r|].
  pose proof (Ascii.nat_ascii_bounded c).
  replace (Z.of_nat (Ascii.nat_of_ascii c) =? 257) with false by lia.
  replace (Z.of_nat (Ascii.nat_of_ascii c) =? 256) with false by lia.
  rewrite IH. by rewrite <- app_assoc.
Qed.

Lemma decode_encode l rest : decode_strings [] (encode_strings l ++ rest) = Ok (l, rest).
Proof.
  unfold encode_strings. induction l as [|s l IH]; [done|]. cbn [flat_map]. rewrite <- !app_assoc. cbn [app].
  rewrite decode_string. rewrite <- app_assoc in IH. cbn [app] in IH. rewrite IH. cbn [result_bind fst snd app].
  by rewrite string_of_bytes_of_string.
Qed.

#[local] Existing Instance sample_env.
#[local] Existing Instance sample_build.
#[local] Existing Instance GoUvarint.

Definition sample_library : SrsLibrary := {|
  ReadSlice8 := fun l => try p <- ReadUvarint l; ReadFull (Z.to_nat p.1) p.2;
  ReadSlice16 := fun l => try p <- ReadUvarint l; ReadN (ReadBE 2) (Z.to_nat p.1) p.2;
  ReadMatcher := fun l => try p <- decode_strings [] l; Ok ((NewMatcher p.1 [] false, (p.1, [])), p.2);
  WriteMatcher := fun domains _ _ => encode_strings domains;
  ReadAdGuardMatcher := fun l => try p <- decode_strings [] l; Ok ((NewAdGuardMatcher p.1, p.1), p.2);
  WriteAdGuardMatcher := encode_strings;
  IPSet_Prefixes := fun _ => [];
  TypedMap_Put := fun m k v => m ++ [(k, v)]
|}.

#[local] Existing Instance sample_library.

Lemma sample_laws : SrsLaws.
Proof.
  split.
  - intros l rest Hn Hl. unfold ReadSlice8, sample_library at 1. rewrite Uvarint_short by done.
    cbn [result_bind fst snd]. rewrite Nat2Z.id. apply ReadFull_app.
  - intros l rest Hn Hl. unfold ReadSlice16, sample_library at 1. rewrite Uvarint_short by done.
    cbn [result_bind fst snd]. rewrite Nat2Z.id. rewrite (ReadN_app _ _ (fun x => x)); [by rewrite map_id|].
    intros x r Hx. rewrite forallb_forall in Hl. specialize (Hl x ltac:(by apply list_elem_of_In)).
    unfold word_value in Hl. apply ReadBE_be_bytes. cbn. lia.
  - intros ds ss lg rest. eexists. cbn -[encode_strings]. by rewrite decode_encode.
  - intros l rest. eexists. cbn -[encode_strings]. by rewrite decode_encode.
  - done.
  - intros v Hv. unfold AddrFromIP. cbn [sample_env]. rewrite length_be_bytes. cbn [Nat.eqb].
    rewrite be_value_bytes, Z.mod_small by (unfold in_width in Hv; cbn; lia). done.
  - intros v Hv _. unfold AddrFromIP. cbn [sample_env]. rewrite length_be_bytes. cbn [Nat.eqb].
    rewrite be_value_bytes, Z.mod_small by (unfold in_width in Hv; cbn; lia). done.
  - intros ps ranges. cbn. unfold sample_ip_set.
    destruct ps as [|[[|v|] n] [|]]; try done; [intros [= <-]; split_and!; try done; by apply Forall_nil| |by repeat case_match].
    destruct (decide (n = 32)) as [->|]; [|by repeat case_match].
    destruct ((0 <=? v) && (v <? 4294967296)) eqn:Hv; [|done]. intros [= <-]. cbn.
    split_and!; try done.
    apply Forall_singleton. unfold range_in_width, in_width. cbn. lia.
Qed.

Section lemmas.
Context `{SrsLaws}.

Lemma Read_written Compress Decompress rules v bytes :
  (forall l, Decompress (Compress l) = Ok l) ->
  0 <= v <= RuleSetVersionCurrent -> short (length rules) = true -> forallb rule_ok rules = true ->
  Forall (fun r => Z.of_nat (nesting r) <= maxLogicalRuleDepth) rules ->
  Write Compress rules v = Ok bytes ->
  Read Decompress false bytes = Ok (v, map (rule_form v) rules).
Proof.
  intros Hz Hv Hn Hok Hd Hw. unfold Write in Hw. simpl_result. unfold Read.
  assert (Hm : forall c, ReadFull 3 (83 :: 82 :: 83 :: v :: c) = Ok (MagicBytes, v :: c)) by done. rewrite Hm.
  cbn [result_bind fst snd]. rewrite bool_decide_eq_true_2 by done.
  rewrite ReadBE_byte by (unfold byte_value, RuleSetVersionCurrent, RuleSetVersion5 in *; lia).
  cbn [result_bind fst snd]. replace (RuleSetVersionCurrent <? v) with false by lia. cbn [negb].
  rewrite Hz. cbn [result_bind]. rewrite Uvarint_short by done. cbn [result_bind fst snd]. rewrite Nat2Z.id.
  rewrite <- (app_nil_r (concat a)), (readRules_write v rules a []) by done. done.
Qed.

Lemma Write_source Compress rules v bytes :
  forallb raw_free_rule rules = true -> Write Compress rules v = Ok bytes -> Forall (source_rule v) rules.
Proof.
  intros Hraw Hw. unfold Write in Hw. simpl_result. apply result_mapM_Forall2 in Heqr.
  rewrite forallb_forall in Hraw. apply Forall_forall. intros r Hr.
  apply list_elem_of_lookup_1 in Hr as Hi. destruct Hi as [i Hi].
  destruct (Forall2_lookup_l _ _ _ _ _ Heqr Hi) as (b & _ & Hb).
  eapply writeRule_source; [|exact Hb]. apply Hraw. by apply list_elem_of_In.
Qed.
End lemmas.

Section theorems.
Context `{SrsLaws} `{BuildContext}.

(** C8. A rule-set that was written in a supported version reads back, rule by
    rule, in the form the format keeps, for every set of options that fits the format
    and whose logical rules nest at most [maxLogicalRuleDepth] deep; deeper ones can be
    written but not read back. *)
Theorem Read_Write Compress Decompress rules v bytes :
  (forall l, Decompress (Compress l) = Ok l) ->
  0 <= v <= RuleSetVersionCurrent -> short (length rules) = true -> forallb rule_ok rules = true ->
  Forall (fun r => Z.of_nat (nesting r) <= maxLogicalRuleDepth) rules ->
  Write Compress rules v = Ok bytes ->
  Read Decompress false bytes = Ok (v, map (rule_form v) rules).
Proof. exact (Read_written Compress Decompress rules v bytes). Qed.

(** C7. Compiling a source rule-set to the binary format and loading the result
    builds the same rules, the same rule count and the same summary as loading the
    source, or fails with the same error.  This is for every version from 2 on, for rules
    that were not compiled yet, whose options fit the format and whose logical rules nest at
    most [maxLogicalRuleDepth] deep: deeper ones can be written but not read back. *)
Theorem binary_loads_as_source Compress Decompress validate rules v bytes :
  (forall l, Decompress (Compress l) = Ok l) ->
  RuleSetVersion2 <= v <= RuleSetVersionCurrent -> short (length rules) = true -> forallb rule_ok rules = true ->
  Forall (fun r => Z.of_nat (nesting r) <= maxLogicalRuleDepth) rules -> forallb raw_free_rule rules = true ->
  Write Compress rules v = Ok bytes ->
  exists rules', Read Decompress false bytes = Ok (v, rules') /\ reloadRules validate rules' = reloadRules validate rules.
Proof.
  intros Hz Hv Hn Hok Hd Hraw Hw. unfold RuleSetVersion2 in Hv. exists (map (rule_form v) rules). split.
  - apply (Read_written Compress); try done; lia.
  - apply reloadRules_form; [by eapply Write_source|unfold RuleSetVersion1; lia].
Qed.

(** The routes of a TUN interface, written as two lists of prefixes, read back
    as they were. *)
Theorem ReadRouteAddressSet_WriteRouteAddressSet include exclude :
  prefixes_ok include = true -> prefixes_ok exclude = true ->
  ReadRouteAddressSet (WriteRouteAddressSet include exclude) = Ok (include, exclude).
Proof.
  intros Hi He. unfold ReadRouteAddressSet, WriteRouteAddressSet. cbn [flat_map].
  rewrite readPrefixes_write by done. cbn [result_bind fst snd].
  by rewrite readPrefixes_write.
Qed.

End theorems.

(** ** Address sets *)

(** An address set accepted by [FromRanges] contains exactly the addresses
    that lie in one of its ranges, of the family of the address; an invalid address
    counts as the zero IPv6 address. *)
Theorem FromRanges_Contains r4 r6 s a :
  FromRanges r4 r6 = Ok s ->
  Contains s a = true <->
  exists r, r ∈ (if addr_Is4 a then r4 else r6) /\
    From r <= (if addr_Is4 a then addr_value a else addr_As16 a) <= To r.
Proof.
  intros Hs. apply FromRanges_spec in Hs as [-> Hwf]. rewrite Contains_ranges by done. by destruct (addr_Is4 a).
Qed.

(** Whatever the input, a set that is read is well formed: its ranges are
    not reversed, ordered and disjoint. *)
Theorem readIPSet_wf l s rest : readIPSet l = Ok (s, rest) -> set_wf s.
Proof.
  unfold readIPSet. intros Hr. simpl_result. destruct (_ =? 1); [|done]. simpl_result.
  match goal with Hf : FromRanges _ _ = Ok _ |- _ => by apply FromRanges_spec in Hf as [_ Hwf] end.
Qed.

(** A chain of [n] logical rules around one domain rule. *)
Fixpoint nested_rule (n : nat) : HeadlessRule :=
  match n with
  | O => sample_headless ["a.example"%string] []
  | S n' => mkHeadlessRule RuleTypeLogical zero_DefaultHeadlessRule LogicalTypeAnd [nested_rule n'] 0 false
  end.

(** The writer accepts rules that nest one level deeper than the reader: the
    rule-set is written without an error and can not be read back. *)
Theorem written_too_deep_to_read :
  exists bytes, Write id [nested_rule 101] RuleSetVersionCurrent = Ok bytes /\
    is_ok (Read (fun l => Ok l) false bytes) = false.
Proof.
  assert (Hrun : match Write id [nested_rule 101] RuleSetVersionCurrent with
                 | Ok bytes => is_ok (Read (fun l => Ok l) false bytes)
                 | Err _ => true
                 end = false) by (vm_compute; reflexivity).
  destruct (Write id _ _) as [bytes|e]; [by exists bytes|done].
Qed.

(** ** Witnesses *)

Definition sample_rules : list HeadlessRule :=
  [sample_headless ["a.example"%string; "b.example"%string] []; nested_rule 2; sample_headless [] [host_prefix 7]].

Definition sample_written (v : Z) : list Z :=
  match Write id sample_rules v with Ok bytes => bytes | Err _ => [] end.

Lemma Read_Write_witness :
  Read (fun l => Ok l) false (sample_written 3) = Ok (3, map (rule_form 3) sample_rules).
Proof.
  apply (@Read_Write sample_env sample_library sample_laws id (fun l => Ok l)).
  - intros l. reflexivity.
  - unfold RuleSetVersionCurrent, RuleSetVersion5. lia.
  - vm_compute. reflexivity.
  - vm_compute. reflexivity.
  - repeat (apply Forall_cons; split; [vm_compute; discriminate|]). by apply Forall_nil.
  - vm_compute. reflexivity.
Defined.

Lemma binary_loads_as_source_witness :
  exists rules', Read (fun l => Ok l) false (sample_written 5) = Ok (5, rules') /\
    reloadRules (fun _ => Ok tt) rules' = reloadRules (fun _ => Ok tt) sample_rules.
Proof.
  apply (@binary_loads_as_source sample_env sample_library sample_laws sample_build id (fun l => Ok l)).
  - intros l. reflexivity.
  - unfold RuleSetVersion2, RuleSetVersionCurrent, RuleSetVersion5. lia.
  - vm_compute. reflexivity.
  - vm_compute. reflexivity.
  - repeat (apply Forall_cons; split; [vm_compute; discriminate|]). by apply Forall_nil.
  - vm_compute. reflexivity.
  - vm_compute. reflexivity.
Defined.

Lemma ReadRouteAddressSet_WriteRouteAddressSet_witness :
  ReadRouteAddressSet (WriteRouteAddressSet [host_prefix 7; host_prefix 9] [host_prefix 8]) =
    Ok ([host_prefix 7; host_prefix 9], [host_prefix 8]).
Proof.
  apply (@ReadRouteAddressSet_WriteRouteAddressSet sample_env sample_library sample_laws); vm_compute; reflexivity.
Defined.

Definition sample_set : Set_ :=
  mkSet [mkRange 10 20; mkRange 30 30] [mkRange 5 7].

Lemma FromRanges_Contains_witness :
  Contains sample_set (Addr4 30) = true <->
  exists r, r ∈ ranges4 sample_set /\ From r <= 30 <= To r.
Proof. apply (FromRanges_Contains (ranges4 sample_set) (ranges6 sample_set) sample_set (Addr4 30)). reflexivity. Defined.

Lemma readIPSet_wf_witness : set_wf sample_set.
Proof.
  apply (readIPSet_wf (writeIPSet sample_set) sample_set []). vm_compute. reflexivity.
Defined.

